(* ===== verification/_CoqProject ===== *)
-Q . S2P
Prelude.v
Text.v
Breaker.v
Availability.v
Failure.v
Admission.v
Orchestrator.v
Planner.v
AgentPath.v
AgentRegistry.v
Messaging.v
Residency.v
Leases.v
Lifecycle.v
FairQueue.v
SpawnAdmission.v
Bulkhead.v
Calendar.v
Cron.v
Recovery.v
WorkflowGraph.v
WorkflowEngine.v
KernelGraph.v
LoopGuard.v
CronStore.v
CronLock.v
CronScheduler.v
Shell.v
Permission.v
CommandSafety.v
Utf8.v
Json.v
Ledger.v
RunJournal.v
CommandStream.v
CommandParser.v
CommandRoundtrip.v
CommandChannel.v
AgentRuntime.v
AgentControl.v
AgentSpawn.v
AgentDelivery.v
AgentWake.v
AgentExamples.v
EventJournal.v
EventSubscription.v
EventWorker.v
EventFabric.v
EventDelivery.v
EventLocal.v
EventExamples.v
InferenceDispatch.v
ThinkJournal.v
ThinkRecovery.v
