(* ===== verification/Prelude.v ===== *)
(** * Mote: a verification library

    Mote runs trees of LLM agents. [contracts/] holds its types, [kernel/] the turn of
    one agent, [orchestration/] the agents of a session and their messages, [runtime/]
    the services below them (model calls, admission, leases, shutdown, queues), and
    [product/] the user-facing programs. This library models the state machines that
    decide whether work may start, where it goes and when it ends, and proves them
    correct for every history of calls.

    ** The program and the files

    A model call. A caller's invocation is turned into an ordered plan of endpoints,
    and one loop spends a budget of attempts on them; each attempt asks the admission
    controller for a permit, and settles it with what it learnt about the endpoint.
    - [Breaker.v]: [CircuitBreaker] ([runtime/resilience/breaker.py]) and its registry
      ([runtime/resilience/registry.py]).
    - [Availability.v]: [AvailabilityBreaker], the breaker whose permits carry the epoch
      of their admission ([runtime/resilience/failover/availability.py]).
    - [Failure.v]: failures and what to do about them: classification, retry policy,
      delays ([runtime/resilience/failover/classification.py], [policy.py],
      [runtime/models/clients/retry.py], [runtime/errors/classification.py]); its
      Module [HttpErrors] maps HTTP statuses ([runtime/errors/llm.py]).
    - [Admission.v]: [ResourceAdmissionController], permits, quotas, quarantine, drains
      and the operator audit ([runtime/resilience/admission.py]). It calls the two
      breakers and applies the dispositions of [Failure.v].
    - [Orchestrator.v]: [AttemptOrchestrator], the loop of one logical call
      ([runtime/models/failover/orchestrator.py]); admission, the attempt itself and
      the recovery policy are arguments, so its theorems hold for any of them.
    - [Planner.v]: the topology snapshot and [FailoverPlanner]
      ([runtime/models/failover/snapshot.py], [planner.py]).

    The agents of a session. Agents are named by paths, registered under a cap, spawned
    through reservations, kept in memory in LRU order, and talk through mailboxes.
    - [AgentPath.v], [AgentRegistry.v]: [orchestration/agents/identity/path.py] and
      [registry.py]; the registry calls the path functions.
    - [SpawnAdmission.v]: the limits and extensions a spawn must pass
      ([orchestration/agents/lifecycle/admission.py]).
    - [Residency.v]: LRU residency and the limiter of running turns
      ([orchestration/agents/residency/manager.py], [execution/limiter.py]).
    - [Messaging.v]: mailboxes, parked deliveries and channels
      ([orchestration/agents/messaging/]); subtree broadcasts use the path lemmas.
    - [AgentRuntime.v]: the message buffer of a role ([contracts/conversation/queue.py]), the
      runtime around it ([orchestration/agents/lifecycle/runtime.py]) and what an evicted
      agent leaves on disk ([residency/store.py]).
    - [AgentControl.v]: the control plane of a session ([control.py]) with the drivers of its
      turn scheduler ([execution/turn_scheduler.py]), over the five files above.
    - [AgentSpawn.v]: the spawn transaction ([lifecycle/spawn.py]), [spawn_agent] on it, and
      the handle of a child ([lifecycle/handle.py]).
    - [AgentDelivery.v], [AgentWake.v]: the steps of the plane, interleaved, and what becomes
      of mail and of wake-ups; [AgentExamples.v]: concrete runs.

    The runtime's shared services.
    - [Leases.v]: leases with fencing tokens ([runtime/control/leases.py]): the class
      [LeaseCoordinator] with [LeaseLaws], its in-memory and file-backed instances, and
      the handles, proved against the class.
    - [Lifecycle.v]: phased shutdown ([runtime/control/lifecycle.py]).
    - [FairQueue.v]: the deficit-round-robin queue of the inference runtime
      ([runtime/inference/fair_queue.py]).
    - [Bulkhead.v]: the nested in-flight bounds behind it
      ([runtime/inference/bulkhead.py], [capacity.py]).
    - [InferenceDispatch.v]: the workers between the two ([runtime/inference/dispatcher.py]).
    - [Recovery.v]: the loop that repairs and retries a call ([runtime/errors/recovery.py]).
    - [LoopGuard.v]: the detector of calls that repeat themselves
      ([runtime/tools/loop_guard/detector.py]).

    Tool calls. Before a call runs, rules, mode, the tool's own check, a sandbox and the
    user decide whether it may.
    - [Shell.v]: command lines as the rules see them
      ([runtime/tools/permission/command_parse.py]), with [shlex] and [fnmatch].
    - [Permission.v]: rules, their store, the logical sandbox and the engine that asks
      ([rule_matcher.py], [rule_store.py], [sandbox/guard.py], [engine.py]).
    - [CommandSafety.v]: the classifier of commands ([classifier.py]) and what the [Bash]
      tool tells the engine ([product/toolsets/builtin/bash.py]).
    - [CommandStream.v], [CommandParser.v]: the lexer of the XML commands a model writes
      ([kernel/commands/xml/stream.py]); the builder behind it, and the repair of answers
      that were cut off ([recovery.py]). [CommandRoundtrip.v] proves the two together
      against a printer of commands, and [CommandChannel.v] makes an answer a turn
      ([channel.py]).

    What survives a crash. A ledger is a file of lines that folds to records by key.
    - [Utf8.v]: texts as UTF-8 bytes: which bytes decode, their characters, [strip] and
      [splitlines]. [Json.v]: the texts of Python's [json] on them, as far as the records use
      them.
    - [Ledger.v]: [AppendOnlyLedger] ([runtime/ledger/append_ledger.py]) for any records
      that meet the class [LedgerRecord] with [LedgerLaws].
    - [RunJournal.v]: the journal of run steps, an instance ([run_journal.py]), and the
      backend that memoizes steps in it ([runtime/durable/backend.py]).
    - [ThinkJournal.v]: the records of model calls in the run journal
      ([runtime/durable/inference_journal.py]), the checkpoint of the call in flight
      ([inference_checkpoint.py]) and the transaction that records what comes of it
      ([runtime/persistence/execution_transaction.py]); [ThinkRecovery.v]: a run around
      them, its crashes and its resumes.
    - [EventJournal.v]: envelopes ([contracts/events/envelope.py]) and the journal of a
      stream of them ([runtime/events/journal.py]), for any lawful [RecordCodec].

    Committed facts. The fabric appends facts to the journal and hands each, in order, to
    the subscriptions that ask for it, which keep checkpoints and dead letters.
    - [EventSubscription.v]: the contracts ([contracts/ports/events/subscription.py]), the
      mailbox, the store and the worker ([runtime/events/mailbox.py],
      [backends/subscription_state.py], [subscription.py]); [EventWorker.v]: what the steps
      of a worker keep, and when they end.
    - [EventFabric.v]: the class [EventJournalPort] with [EventJournalLaws]
      ([contracts/ports/events/journal.py]); over it the dispatcher, the health and the
      fabric ([runtime/events/dispatcher.py], [health.py], [fabric.py]).
    - [EventDelivery.v]: what every interleaving and every crash keeps; [EventLocal.v]: the
      local journal meets the laws of the port; [EventExamples.v]: concrete runs.

    Work of a session. A turn walks a graph of nodes; a workflow is compiled from a
    builder and driven along its frontier; schedules fire tasks into sessions.
    - [KernelGraph.v]: the execution graph of a turn, its runner with the lifecycle of
      effects, the nodes, and the two built-in graphs ([kernel/execution/]).
    - [WorkflowGraph.v], [WorkflowEngine.v]: declaration, normalization and validation of
      a workflow ([orchestration/workflows/graph.py]); node runs, the driver and the
      resumes ([engine.py], [types.py], [channels.py]).
    - [Text.v], [Calendar.v]: Python's string methods and [datetime], as far as the files
      above and below use them.
    - [Cron.v]: cron expressions, the next run and its jitter
      ([orchestration/automation/cron/expression.py]).
    - [CronStore.v], [CronLock.v], [CronScheduler.v]: the tasks and their store
      ([task.py], [store.py], [service.py]), the lock of the sessions that share them
      ([lock.py]), and the scheduler ([scheduler.py]), which computes with [Cron.v] on the
      tasks of [CronStore.v].
    This file holds what they share: outcomes, clocks, list and count lemmas, Python
    dictionaries with their order ([Dict]), and tactics.

    ** How the code is read

    - A class is a Module, its attributes a Record [t], each method a definition of the
      same name. A method that may raise returns the new state beside an [outcome]; the
      state written before the raise is kept.
    - A section under a lock, or a stretch of a coroutine without [await], is one atomic
      step; a method that awaits in between is modelled as the steps it consists of.
      Interleavings are lists of such steps, or reachability by any of them.
    - Clock readings are arguments: a method that reads its clock several times takes
      [clk : readings], and [monotone] is assumed only where a theorem says so. Times
      are integers in one fixed unit and ratios exact; rounding of floats is left out.
      [SpawnAdmission.v] keeps NaN and the infinities, because its guards see them.
    - Objects that two structures share and mutate (the registry's metadata, permits)
      are addresses in a store.
    - Operating-system calls, provider calls, random choices and extension code are
      arguments: functions on an environment, or flags that say whether they fail.

    ** What the theorems show

    - Breakers: the window and state invariants, when a closed breaker trips and an open
      one refuses, that lost probes are reclaimed so neither breaker stays shut for
      ever, and that outcomes of an older epoch change nothing.
    - Failures: every HTTP status and every classified failure gets one disposition, and
      each disposition one decision.
    - Admission: permits and reservations are conserved over any history, a drained
      endpoint empties, the gates are sound, and a restart from an audit whose failed
      appends recorded nothing gives back the operator's state.
    - Orchestrator: every run refines the protocol automaton of a call and ends by
      itself within its budgets. Planner: the plan is exactly the eligible endpoints.
    - Agents: the registry's count, indexes and cap, which the agents registered without a
      reservation exceed by their number; paths as a tree and the resolution
      of references; fail-closed, narrowing spawn admission; least-recently-used
      eviction that ends; mail delivered once, in order, never without a wake-up. For the
      whole control plane, under any interleaving that avoids the races it names: accepted
      mail is taken or held, mail that must start a turn gets one, and a birth is all or
      nothing but for its nickname, also when others run during its rollback.
    - Services: two owners never hold one lease, two bodies guarded by it never overlap,
      and a superseded token never works again, for any lawful coordinator; the file-backed one implements its
      specification under any fault; shutdown runs phase by phase, and however often
      it is retried closes everything exactly once; the queue conserves its work, hands
      out only live entries and starves no tenant; the bulkheads count the permits in
      flight exactly and stay within their bounds; the dispatcher over queue and bulkheads
      loses no entry, serves none twice, and shuts down, but an entry lost by a dead worker
      blocks it for ever; a repair loop repairs at most as often
      as allowed; the loop guard never accuses falsely, and is exact within its memory.
    - Permissions: parsing a command ends and its segments are stable; the decision is the
      documented table and then the sandbox; several paths get the strictest answer and one
      prompt; a deny rule is final, an unasked write stays inside the roots, and a
      destructive command never runs unseen.
    - Commands: reading any text ends and indexes no empty stack; the commands a printer
      writes are read back, and an answer cut off anywhere between its arguments or inside
      one gives the complete commands and the rest of the last.
    - Durability: the file of a ledger folds back to its index after any history of records
      whose texts have no foreign line ends, a torn append is all or nothing unless it tears
      a character, which blocks the ledger, and a completed step is not run again. The event journal is
      a list of envelopes for any history, and an append cut short is refused, not misread.
      A recorded result of a model is shown by the history on disk or still in the journal,
      and a resume adopts it instead of calling the model, unless the run was cancelled with
      its result dropped or failed for good; an operation is done once in a process.
    - Events: no checkpoint and no barrier is ahead of delivery, in any interleaving with
      failing handlers, stores, journals, foreign writers, shutdowns and crashes; a drain
      that returns has caught up; a worker ends what it was given within a bound. Also what
      the code does not want: a store that cannot answer wedges a worker, and one failed
      write leaves the fabric read-only.
    - Turns: the built-in graphs are sound whatever their services do, and every run is a
      bounded walk whose last attempt is accounted for.
    - Workflows: normalization and compilation are characterized; a run that succeeds ran
      everything it should have; a join fires once per full arrival; every run ends;
      every way a node ends is recorded as described.
    - Schedules: an expression parses to exactly the fields its grammar denotes; the next
      run is the least match and exists when a match does; a tick fires exactly what is
      due; a one-shot task fires once through ticks, edits and restarts when the store can be
      written, and again when its removal fails; the store keeps what it is given; the lock excludes when its calls do not interleave.

    ** Fuel

    Loops without a structural measure take fuel, and running out is a value
    ([OutOfFuel]) that a theorem excludes: [AttemptOrchestrator.run] (the wire
    attempts left, the admission rejections allowed, and one), [LifecycleStack._close] and
    [Residency.reserve_slot] (one more than the resources, or residents, each round
    removes), [Residency._pop_lru_candidate] (the length of the list it rotates),
    [CommandParse.parse_fuel] (the length of the line: a wrapped script is shorter),
    [CommandLexer.drain] (one more than the characters in the buffer: each round consumes
    some or stops), [Json.value] (twice the length of the text, and one). The
    loops of [FairQueue.v] are [for] loops of the code with their own bound, and so are
    the search of [Cron.v] (its [max_iter] minutes) and [run_steps] of [KernelGraph.v]
    (the bound on steps the runner is built with). Workflow runs are lists of events, and
    their length is bounded by a theorem.

    ** What is not modelled

    Formatting of messages and logs, telemetry, Pydantic glue, and which of several
    waiters a condition wakes. In [Residency.v] and [Planner.v] the parts that load and
    store agents, or compile configuration, are arguments. Texts are byte strings read as
    Latin-1, but for the ledgers, whose texts are UTF-8 ([Utf8.v]). In [Cron.v] the local time zone and the digest of a task id are arguments; the
    file of [CronStore.v] is read after its JSON is parsed. [WorkflowEngine.v] leaves out
    the notifications and the output contract of a finished run, [WorkflowGraph.v] the
    schema and summary of a graph. A node of [KernelGraph.v] that swallows its cancellation
    is not considered, and of the output contract, which is not under [src/], only the
    decisions the kernel reads appear. A close callback of
    [Lifecycle.v] that raises a [CancelledError] is left out. In [Permission.v] the user and the resolution of
    paths are arguments, and one call is decided at a time. In [Ledger.v]
    a write fails only by reaching the file in part, and a rewrite, which replaces the
    file, not at all or in full. In [CommandStream.v] the branch for arguments that are no
    strings, which nothing reaches, is left out. In [AgentControl.v] the
    totals of the cost tree are arguments, telemetry is left out, a role lets itself be
    cancelled, an eviction shuts its candidate down in one step after its record is written,
    and the bounded pump ([run_ready_turns]) is missing; in the runs of [AgentDelivery.v] a
    failed birth is rolled back in one step, though others may run during it ([AgentSpawn.v]
    models both). In [EventSubscription.v] a handler lets its
    cancellation escape and delays are numbers; in [EventFabric.v] the lag a snapshot
    reports, appends from another thread, the cancellation of the caller of an append and a
    close during the start are left out, the telemetry runtime is the names of its degraded
    parts, and the ids of new facts are assumed fresh in their stream ([fresh_run]), because
    the journal does not check it. [ThinkJournal.v] leaves out durable timers (the text of a
    float), [ThinkRecovery.v] edits of the history while a call is out, and it takes what the
    projections of the channel show as a condition of its labels ([label_ok]). The caches
    and governance of the inference runtime, the model gateway, sessions and compaction are
    not modelled: they compose I/O, tokenizers and stores whose behaviour is outside the
    source. Provider adapters, user interfaces,
    sandboxes and code indexing are I/O and stay outside. *)

From Stdlib Require Export ZArith QArith_base Lia.
From stdpp Require Export base tactics numbers strings list sorting fin_maps gmap.

#[export] Set Default Proof Using "Type".
#[export] Set Default Goal Selector "!".

Create HintDb mote.
Create Rewrite HintDb mote.

Declare Scope mote_scope.
Delimit Scope mote_scope with mote.

(** * Results of fallible code

    A Python call returns a value or raises. State written before the raise is
    kept, so a stateful operation returns its new state beside the outcome. *)
Inductive outcome (E A : Type) : Type :=
| Ok (a : A)
| Raise (e : E).
Arguments Ok {E A} _.
Arguments Raise {E A} _.

Definition is_ok {E A} (o : outcome E A) : bool :=
  match o with Ok _ => true | Raise _ => false end.

Definition outcome_bind {E A B} (o : outcome E A) (k : A -> outcome E B) : outcome E B :=
  match o with Ok a => k a | Raise e => Raise e end.

Notation "'let?' x ':=' c 'in' k" := (outcome_bind c (fun x => k))
  (at level 10, x pattern, c at level 100, k at level 200) : mote_scope.

Open Scope mote_scope.

Lemma outcome_bind_ok {E A B} (o : outcome E A) (k : A -> outcome E B) b :
  outcome_bind o k = Ok b <-> exists a, o = Ok a /\ k a = Ok b.
Proof.
  destruct o as [a|e]; simpl; split.
  - intros H. by exists a.
  - intros (a' & [= ->] & H). done.
  - done.
  - by intros (? & ? & ?).
Qed.

Lemma outcome_bind_raise {E A B} (o : outcome E A) (k : A -> outcome E B) e :
  outcome_bind o k = Raise e <-> o = Raise e \/ exists a, o = Ok a /\ k a = Raise e.
Proof. destruct o as [a|e']; simpl; naive_solver. Qed.

(** * Clocks

    Code that takes an injected [clock] may read it several times in one call.
    [clk i] is the value the [i]-th reading of the call returns. *)
Definition readings := nat -> Z.

Definition later (n : nat) (clk : readings) : readings := fun i => clk (n + i)%nat.

Definition monotone (clk : readings) : Prop :=
  forall i j, (i <= j)%nat -> (clk i <= clk j)%Z.

Lemma monotone_later n clk : monotone clk -> monotone (later n clk).
Proof. intros H i j Hij. apply H. lia. Qed.

Lemma monotone_const t : monotone (fun _ => t).
Proof. intros i j _. lia. Qed.

(** * Ratios

    [failures / total >= threshold] on counts, with the quotient taken exactly. *)
Definition rate_at_least (failures total : nat) (threshold : Q) : bool :=
  Qle_bool threshold (Z.of_nat failures # Pos.of_nat total).

Lemma rate_at_least_spec failures total (p : Z) (q : positive) :
  total <> 0%nat ->
  rate_at_least failures total (p # q) = true <->
  (p * Z.of_nat total <= Z.of_nat failures * Zpos q)%Z.
Proof.
  intros Ht. unfold rate_at_least. rewrite Qle_bool_iff. unfold Qle; simpl.
  by rewrite <- positive_nat_Z, Nat2Pos.id by done.
Qed.

(** * Lists *)

Lemma filter_all {A} (P : A -> Prop) `{forall x, Decision (P x)} l :
  Forall P l -> filter P l = l.
Proof.
  induction 1 as [|x l Hx _ IH]; [done|]. rewrite filter_cons_True by done. by f_equal.
Qed.

Lemma filter_ext_in {A} (P Q : A -> Prop)
    `{forall x, Decision (P x)} `{forall x, Decision (Q x)} (l : list A) :
  (forall x, x ∈ l -> P x <-> Q x) -> filter P l = filter Q l.
Proof.
  induction l as [|x l IH]; intros Hl; [done|].
  assert (filter P l = filter Q l) as Hf by (apply IH; intros; apply Hl; by right).
  destruct (decide (P x)).
  - rewrite !filter_cons_True; [by f_equal|apply Hl; [by left|done]|done].
  - rewrite !filter_cons_False; [done| |done]. rewrite <- (Hl x); [done|by left].
Qed.

Lemma sublist_Forall' {A} (P : A -> Prop) l1 l2 :
  l1 `sublist_of` l2 -> Forall P l2 -> Forall P l1.
Proof.
  intros Hsub. induction Hsub as [|x l1 l2 H IH|x l1 l2 H IH]; [done| |];
    intros [Hx Hl]%Forall_cons; [constructor|]; auto.
Qed.

Lemma StronglySorted_sublist {A} (R : relation A) l1 l2 :
  l1 `sublist_of` l2 -> StronglySorted R l2 -> StronglySorted R l1.
Proof.
  intros Hsub. induction Hsub as [|x l1 l2 H IH|x l1 l2 H IH]; intros Hs;
    [done|inversion Hs; subst..]; [|by auto].
  constructor; eauto using sublist_Forall'.
Qed.

Lemma StronglySorted_snoc {A} (R : relation A) l x :
  StronglySorted R l -> Forall (fun y => R y x) l -> StronglySorted R (l ++ [x]).
Proof.
  induction 1 as [|y l Hs IH Hy]; simpl; intros Hx; [repeat constructor|].
  apply Forall_cons in Hx as [? ?]. constructor; [auto|].
  apply Forall_app. auto.
Qed.

(** ** Counting the elements that satisfy a test *)
Fixpoint count_if {A} (f : A -> bool) (l : list A) : Z :=
  match l with
  | [] => 0
  | x :: l => Z.b2z (f x) + count_if f l
  end.

Lemma count_if_nonneg {A} (f : A -> bool) l : (0 <= count_if f l)%Z.
Proof. induction l as [|x l IH]; simpl; [done|]. destruct (f x); simpl; lia. Qed.

Lemma count_if_app {A} (f : A -> bool) l1 l2 :
  count_if f (l1 ++ l2) = (count_if f l1 + count_if f l2)%Z.
Proof. induction l1; simpl; lia. Qed.

Lemma count_if_insert {A} (f : A -> bool) l i x y :
  l !! i = Some x ->
  count_if f (<[i := y]> l) = (count_if f l - Z.b2z (f x) + Z.b2z (f y))%Z.
Proof.
  revert i. induction l as [|z l IH]; intros [|i]; simpl; intros Hi; simplify_eq; [lia|].
  rewrite (IH i) by done. lia.
Qed.

Lemma count_if_pos {A} (f : A -> bool) l i x :
  l !! i = Some x -> f x = true -> (1 <= count_if f l)%Z.
Proof.
  revert i. induction l as [|z l IH]; intros [|i]; simpl; intros Hi Hf; simplify_eq.
  - rewrite Hf; simpl. pose proof (count_if_nonneg f l). lia.
  - specialize (IH i Hi Hf). destruct (f z); simpl; lia.
Qed.

Lemma count_if_ext {A} (f g : A -> bool) l :
  (forall x, x ∈ l -> f x = g x) -> count_if f l = count_if g l.
Proof.
  induction l as [|x l IH]; intros H; simpl; [done|].
  rewrite H by left. rewrite IH by (intros; apply H; by right). done.
Qed.

(** * Python dictionaries with their insertion order *)
Module Dict.
Section dict.
Context {K : Type} `{EqDecision K} {V : Type}.

Fixpoint get (k : K) (d : list (K * V)) : option V :=
  match d with
  | [] => None
  | (k', v) :: d' => if decide (k = k') then Some v else get k d'
  end.

(** [d[k] = v]: an existing key keeps its place, a new one goes last. *)
Fixpoint set (k : K) (v : V) (d : list (K * V)) : list (K * V) :=
  match d with
  | [] => [(k, v)]
  | (k', v') :: d' => if decide (k = k') then (k', v) :: d' else (k', v') :: set k v d'
  end.

(** [d.pop(k, None)] / [del d[k]]. *)
Fixpoint pop (k : K) (d : list (K * V)) : list (K * V) :=
  match d with
  | [] => []
  | (k', v') :: d' => if decide (k = k') then pop k d' else (k', v') :: pop k d'
  end.

Definition keys (d : list (K * V)) : list K := d.*1.
Definition values (d : list (K * V)) : list V := d.*2.
Definition mem (k : K) (d : list (K * V)) : bool :=
  match get k d with Some _ => true | None => false end.

Lemma get_set_eq k v d : get k (set k v d) = Some v.
Proof. induction d as [|[k' v'] d IH]; simpl; repeat (case_decide; simpl); congruence. Qed.

Lemma get_set_ne k k' v d : k <> k' -> get k (set k' v d) = get k d.
Proof.
  intros Hne. induction d as [|[k2 v2] d IH]; simpl; repeat (case_decide; simpl); congruence.
Qed.

Lemma set_set k v v' d : set k v (set k v' d) = set k v d.
Proof. induction d as [|[k2 v2] d IH]; simpl; repeat (case_decide; simpl); congruence. Qed.

Lemma get_pop_eq k d : get k (pop k d) = None.
Proof. induction d as [|[k' v'] d IH]; simpl; repeat (case_decide; simpl); congruence. Qed.

Lemma get_pop_ne k k' d : k <> k' -> get k (pop k' d) = get k d.
Proof.
  intros Hne. induction d as [|[k2 v2] d IH]; simpl; repeat (case_decide; simpl); congruence.
Qed.

Lemma get_None_keys k d : get k d = None <-> k ∉ keys d.
Proof.
  induction d as [|[k' v'] d IH]; simpl.
  - split; [by intros _ ?%not_elem_of_nil|done].
  - case_decide; subst; rewrite not_elem_of_cons; naive_solver.
Qed.

Lemma get_Some_elem k v d : get k d = Some v -> (k, v) ∈ d.
Proof.
  induction d as [|[k' v'] d IH]; simpl; [done|].
  case_decide; [intros [= ->]; subst; left|right; auto].
Qed.

Lemma elem_get k v d : NoDup (keys d) -> (k, v) ∈ d -> get k d = Some v.
Proof.
  induction d as [|[k' v'] d IH]; simpl; [by intros _ ?%not_elem_of_nil|].
  intros [Hn Hd]%NoDup_cons. rewrite elem_of_cons. intros [[= -> ->]|Hin].
  - by case_decide.
  - case_decide; [|auto]. subst. destruct Hn. by apply (list_elem_of_fmap_2 fst) in Hin.
Qed.

Lemma keys_set_in k v d : k ∈ keys d -> keys (set k v d) = keys d.
Proof.
  induction d as [|[k' v'] d IH]; simpl; [by intros ?%not_elem_of_nil|].
  rewrite elem_of_cons. case_decide; simpl; [done|]. intros [->|Hin]; [done|]. f_equal. auto.
Qed.

Lemma keys_set_new k v d : k ∉ keys d -> set k v d = d ++ [(k, v)].
Proof.
  induction d as [|[k' v'] d IH]; simpl; [done|]. rewrite not_elem_of_cons.
  intros [Hne Hn]. rewrite decide_False by done. f_equal. auto.
Qed.

Lemma elem_keys_set k k' v d : k ∈ keys (set k' v d) <-> k = k' \/ k ∈ keys d.
Proof.
  destruct (decide (k' ∈ keys d)) as [Hin|Hn].
  - rewrite keys_set_in by done. naive_solver.
  - rewrite keys_set_new by done. unfold keys. rewrite fmap_app, elem_of_app; simpl.
    rewrite list_elem_of_singleton. naive_solver.
Qed.

Lemma elem_keys_pop k k' d : k ∈ keys (pop k' d) <-> k <> k' /\ k ∈ keys d.
Proof.
  induction d as [|[k2 v2] d IH]; simpl; [set_solver|].
  case_decide; subst; simpl; rewrite ?elem_of_cons, IH; naive_solver.
Qed.

Lemma NoDup_keys_set k v d : NoDup (keys d) -> NoDup (keys (set k v d)).
Proof.
  intros Hd. destruct (decide (k ∈ keys d)) as [Hin|Hn].
  - by rewrite keys_set_in.
  - rewrite keys_set_new by done. unfold keys. rewrite fmap_app; simpl.
    apply NoDup_app. split_and!; [done|set_solver|apply NoDup_singleton].
Qed.

Lemma NoDup_keys_pop k d : NoDup (keys d) -> NoDup (keys (pop k d)).
Proof.
  induction d as [|[k' v'] d IH]; simpl; [done|]. intros [Hn Hd]%NoDup_cons.
  case_decide; simpl; [auto|]. apply NoDup_cons. split; [|auto].
  rewrite elem_keys_pop. naive_solver.
Qed.

Lemma elem_pop k k' v d : (k, v) ∈ pop k' d <-> k <> k' /\ (k, v) ∈ d.
Proof.
  induction d as [|[k2 v2] d IH]; simpl; [set_solver|].
  case_decide; subst; rewrite ?elem_of_cons, IH; naive_solver.
Qed.

Lemma pop_notin k d : k ∉ keys d -> pop k d = d.
Proof.
  induction d as [|[k' v'] d IH]; simpl; [done|]. rewrite not_elem_of_cons.
  intros [Hne Hn]. rewrite decide_False by done. f_equal. auto.
Qed.
End dict.
End Dict.

#[export] Hint Resolve Dict.NoDup_keys_set Dict.NoDup_keys_pop : mote.
#[export] Hint Rewrite @Dict.get_set_eq @Dict.get_pop_eq : mote.

(** * Tactics of the development *)

(** Split every [match]/[if] the goal or the hypotheses still test. *)
Ltac cases := repeat (case_match; simplify_eq/=).

(** Boolean comparisons in hypotheses to propositions, then arithmetic. *)
Ltac zbool :=
  repeat match goal with
  | H : (_ && _) = true |- _ => apply andb_true_iff in H; destruct H
  | H : (_ || _) = false |- _ => apply orb_false_iff in H; destruct H
  | H : (_ <=? _)%Z = true |- _ => apply Z.leb_le in H
  | H : (_ <=? _)%Z = false |- _ => apply Z.leb_gt in H
  | H : (_ <? _)%Z = true |- _ => apply Z.ltb_lt in H
  | H : (_ <? _)%Z = false |- _ => apply Z.ltb_ge in H
  | H : (_ =? _)%Z = true |- _ => apply Z.eqb_eq in H
  | H : (_ =? _)%Z = false |- _ => apply Z.eqb_neq in H
  end.
