(* ===== verification/Text.v ===== *)
(** * Python text

    The string operations of the language that the parsers use. A string is a
    sequence of Latin-1 code points, one per [ascii], so the characters past ASCII that
    [str.isdigit] and [str.split] treat specially (the superscript digits, the
    non-breaking space) are there. [int] is Python's, with its default limit on the
    number of digits. *)

From S2P Require Import Prelude.
From Stdlib Require Import Ascii String.
From stdpp Require Import base list strings pretty sorting.

Open Scope string_scope.
Open Scope list_scope.
Open Scope mote_scope.
Open Scope Z_scope.

Module Text.

Definition code (c : ascii) : Z := Z.of_N (N_of_ascii c).

(** [str.isdecimal] on a character below U+0100. *)
Definition is_decimal (c : ascii) : bool := (48 <=? code c) && (code c <=? 57).

(** [str.isdigit] also accepts the superscripts two, three and one. *)
Definition is_digit (c : ascii) : bool :=
  is_decimal c || (code c =? 178) || (code c =? 179) || (code c =? 185).

Definition is_space (c : ascii) : bool :=
  ((9 <=? code c) && (code c <=? 13)) || ((28 <=? code c) && (code c <=? 32))
  || (code c =? 133) || (code c =? 160).

(** [str.isalpha] and [str.isalnum] on a character below U+0100. *)
Definition is_alpha (c : ascii) : bool :=
  let k := code c in
  ((65 <=? k) && (k <=? 90)) || ((97 <=? k) && (k <=? 122)) || (k =? 170) || (k =? 181)
  || (k =? 186) || ((192 <=? k) && (k <=? 214)) || ((216 <=? k) && (k <=? 246)) || (248 <=? k).

Definition is_alnum (c : ascii) : bool :=
  is_alpha c || is_digit c || ((188 <=? code c) && (code c <=? 190)).

Fixpoint forall_chars (p : ascii -> bool) (s : string) : bool :=
  match s with
  | EmptyString => true
  | String c s' => p c && forall_chars p s'
  end.

Definition isdigit (s : string) : bool :=
  match s with EmptyString => false | _ => forall_chars is_digit s end.

Definition isalnum (s : string) : bool :=
  match s with EmptyString => false | _ => forall_chars is_alnum s end.

(** [s.replace(c, "")]. *)
Fixpoint remove_char (c : ascii) (s : string) : string :=
  match s with
  | EmptyString => EmptyString
  | String d s' => if bool_decide (d = c) then remove_char c s' else String d (remove_char c s')
  end.

Definition endswith (s suffix : string) : bool :=
  String.prefix (String.rev suffix) (String.rev s).

(** [sep.join(l)]. *)
Fixpoint join (sep : string) (l : list string) : string :=
  match l with
  | [] => EmptyString
  | [s] => s
  | s :: l => s +:+ sep +:+ join sep l
  end.

Fixpoint lstrip (p : ascii -> bool) (s : string) : string :=
  match s with
  | EmptyString => EmptyString
  | String c s' => if p c then lstrip p s' else s
  end.

Definition rstrip (p : ascii -> bool) (s : string) : string :=
  String.rev (lstrip p (String.rev s)).

(** [str.strip] without an argument. *)
Definition strip (s : string) : string := rstrip is_space (lstrip is_space s).

(** [s.split(c)]: never empty. *)
Fixpoint split_on (c : ascii) (s : string) : list string :=
  match s with
  | EmptyString => [EmptyString]
  | String d s' =>
      if bool_decide (d = c) then EmptyString :: split_on c s'
      else match split_on c s' with
           | w :: ws => String d w :: ws
           | [] => [String d EmptyString]
           end
  end.

(** [s.split()]: the maximal runs of characters that are not white space. *)
Fixpoint split_ws_from (word s : string) : list string :=
  match s with
  | EmptyString => match word with EmptyString => [] | _ => [String.rev word] end
  | String c s' =>
      if is_space c then
        match word with
        | EmptyString => split_ws_from EmptyString s'
        | _ => String.rev word :: split_ws_from EmptyString s'
        end
      else split_ws_from (String c word) s'
  end.

Definition split_ws (s : string) : list string := split_ws_from EmptyString s.

(** [s.partition(c)]: before, found, after. *)
Fixpoint partition (c : ascii) (s : string) : string * bool * string :=
  match s with
  | EmptyString => (EmptyString, false, EmptyString)
  | String d s' =>
      if bool_decide (d = c) then (EmptyString, true, s')
      else let '(before, found, after) := partition c s' in (String d before, found, after)
  end.

Fixpoint contains (c : ascii) (s : string) : bool :=
  match s with
  | EmptyString => false
  | String d s' => bool_decide (d = c) || contains c s'
  end.

Definition startswith (s prefix : string) : bool := String.prefix prefix s.

(** [s.rsplit(c, 1)[-1]]: what follows the last [c]. *)
Fixpoint after_last (c : ascii) (s : string) : string :=
  match s with
  | EmptyString => EmptyString
  | String d s' => if contains c s' then after_last c s' else if bool_decide (d = c) then s' else s
  end.

(** [p in s] for a text [p]. *)
Fixpoint has_substring (p s : string) : bool :=
  String.prefix p s || match s with EmptyString => false | String _ s' => has_substring p s' end.

(** [s[n:]] and [s[:n]] for a non-negative [n]. *)
Fixpoint drop_chars (n : nat) (s : string) : string :=
  match n, s with
  | S n', String _ s' => drop_chars n' s'
  | _, _ => s
  end.

Definition take_chars (n : nat) (s : string) : string := String.substring 0 n s.

(** [s.find(p)], [None] for -1. *)
Fixpoint find (p s : string) : option nat :=
  if String.prefix p s then Some 0%nat
  else match s with
       | EmptyString => None
       | String _ s' => S <$> find p s'
       end.

(** The line ends of [str.splitlines]; a carriage return and a line feed are one. *)
Definition is_line_end (c : ascii) : bool :=
  let k := code c in
  ((10 <=? k) && (k <=? 13)) || ((28 <=? k) && (k <=? 30)) || (k =? 133).

(** [s.splitlines(keepends)], the current line given. *)
Fixpoint lines_from (keepends : bool) (line s : string) : list string :=
  match s with
  | EmptyString => match line with EmptyString => [] | _ => [line] end
  | String c s' =>
      if is_line_end c then
        match s' with
        | String d s'' =>
            if bool_decide (c = "013"%char) && bool_decide (d = "010"%char)
            then (if keepends then line +:+ String c (String d "") else line) :: lines_from keepends "" s''
            else (if keepends then line +:+ String c "" else line) :: lines_from keepends "" s'
        | EmptyString => [if keepends then line +:+ String c "" else line]
        end
      else lines_from keepends (line +:+ String c "") s'
  end.

Definition splitlines (s : string) : list string := lines_from false "" s.
Definition splitlines_keepends (s : string) : list string := lines_from true "" s.

Fixpoint concat (l : list string) : string :=
  match l with [] => EmptyString | s :: l => s +:+ concat l end.

Fixpoint value_from (acc : Z) (s : string) : Z :=
  match s with
  | EmptyString => acc
  | String c s' => value_from (acc * 10 + (code c - 48)) s'
  end.

Inductive error := ValueError.

(** The default of [sys.set_int_max_str_digits]. *)
Definition max_str_digits : nat := 4300.

(** [int(s)] for a string that passed [isdigit]: the decimal digits have a value, the
    other digits and too long a string raise. *)
Definition int_of (s : string) : outcome error Z :=
  if forall_chars is_decimal s && (String.length s <=? max_str_digits)%nat
  then Ok (value_from 0 s) else Raise ValueError.

(** [int(s, 16)]: white space around, a sign, a [0x] prefix and single underscores
    between digits are allowed. *)
Definition hex_digit (c : ascii) : option Z :=
  let k := code c in
  if is_decimal c then Some (k - 48)
  else if (97 <=? k) && (k <=? 102) then Some (k - 87)
  else if (65 <=? k) && (k <=? 70) then Some (k - 55)
  else None.

(** [start] holds before the first digit of a group, where no underscore may stand. *)
Fixpoint hex_digits (start : bool) (acc : Z) (s : string) : outcome error Z :=
  match s with
  | EmptyString => if start then Raise ValueError else Ok acc
  | String c s' =>
      match hex_digit c with
      | Some d => hex_digits false (acc * 16 + d) s'
      | None =>
          if bool_decide (c = "_"%char) && negb start then hex_digits true acc s'
          else Raise ValueError
      end
  end.

Definition hex_unsigned (s : string) : outcome error Z :=
  match s with
  | String "0" (String "x" (String "_" s')) => hex_digits true 0 s'
  | String "0" (String "X" (String "_" s')) => hex_digits true 0 s'
  | String "0" (String "x" s') => hex_digits true 0 s'
  | String "0" (String "X" s') => hex_digits true 0 s'
  | _ => hex_digits true 0 s
  end.

Definition int16 (s : string) : outcome error Z :=
  match strip s with
  | String "-" s' => let? n := hex_unsigned s' in Ok (- n)
  | String "+" s' => hex_unsigned s'
  | s' => hex_unsigned s'
  end.

(** [f"{n}"] and [f"{n:02d}"] for a non-negative [n]. *)
Definition fmt (n : Z) : string := pretty n.
Definition fmt02 (n : Z) : string := if n <? 10 then "0" +:+ pretty n else pretty n.

(** [sorted] on texts, by their characters. *)
Definition text_le (a b : string) : Prop := String.leb a b = true.
#[export] Instance text_le_dec : RelDecision text_le.
Proof. unfold RelDecision, text_le. intros a b. apply _. Defined.
Definition sorted (l : list string) : list string := merge_sort text_le l.

(** [range(lo, stop, step)] for a positive step. *)
Definition py_range (lo stop step : Z) : list Z :=
  (fun k => lo + Z.of_nat k * step) <$> seq 0 (Z.to_nat ((stop - lo + step - 1) / step)).

Lemma elem_of_py_range lo stop step v :
  0 < step ->
  v ∈ py_range lo stop step <-> lo <= v < stop /\ (v - lo) mod step = 0.
Proof.
  intros Hs. unfold py_range. rewrite list_elem_of_fmap. split.
  - intros (k & -> & Hk%elem_of_seq). split; [split; [nia|]|].
    + assert (Z.of_nat k + 1 <= (stop - lo + step - 1) / step) as H by lia.
      pose proof (Z.mul_div_le (stop - lo + step - 1) step Hs). nia.
    + replace (lo + Z.of_nat k * step - lo) with (Z.of_nat k * step) by lia.
      apply Z.mod_mul. lia.
  - intros [[H1 H2] H3]. apply Z.mod_divide in H3 as [q Hq]; [|lia].
    assert (0 <= q) by nia.
    exists (Z.to_nat q). split; [lia|]. apply elem_of_seq. split; [lia|].
    assert (q + 1 <= (stop - lo + step - 1) / step); [|lia].
    apply Z.div_le_lower_bound; nia.
Qed.

Lemma value_from_nonneg s acc :
  forall_chars is_decimal s = true -> 0 <= acc -> 0 <= value_from acc s.
Proof.
  revert acc. induction s as [|c s IH]; simpl; intros acc; [done|].
  intros [Hc Hs]%andb_prop Ha. apply IH; [done|]. unfold is_decimal in Hc. lia.
Qed.

Lemma int_of_nonneg s n : int_of s = Ok n -> 0 <= n.
Proof.
  unfold int_of. case_match eqn:E; [|done]. intros [= <-].
  apply andb_prop in E as [E _]. by apply value_from_nonneg.
Qed.

Lemma split_on_nonempty c s : split_on c s <> [].
Proof. destruct s; simpl; [done|]. case_bool_decide; [done|]. by destruct (split_on _ _). Qed.

Lemma split_on_absent c s : contains c s = false -> split_on c s = [s].
Proof.
  induction s as [|d s IH]; simpl; [done|]. case_bool_decide; simpl; [done|].
  intros H'. by rewrite IH.
Qed.

Lemma digits_no_char s c :
  forall_chars is_digit s = true -> is_digit c = false -> contains c s = false.
Proof.
  induction s as [|d s IH]; simpl; [done|]. intros [Hd Hs]%andb_prop Hc.
  case_bool_decide; subst; [congruence|]. simpl. auto.
Qed.

#[local] Arguments String.append !_ _ / : simpl nomatch.

Lemma append_nil_r s : s +:+ "" = s.
Proof. induction s as [|c s IH]; simpl; [done|]. by rewrite IH. Qed.

Lemma append_assoc a b c : a +:+ (b +:+ c) = (a +:+ b) +:+ c.
Proof. induction a as [|d a IH]; simpl; [done|]. by rewrite IH. Qed.

Lemma prefix_cons a p c s :
  String.prefix (String a p) (String c s) = bool_decide (a = c) && String.prefix p s.
Proof.
  cbn [String.prefix]. destruct (Ascii.ascii_dec a c) as [->|].
  - by rewrite bool_decide_true.
  - by rewrite bool_decide_false.
Qed.

Lemma partition_spec c s before found after :
  partition c s = (before, found, after) ->
  contains c before = false
  /\ if found then s = before +:+ String c after else s = before /\ after = EmptyString.
Proof.
  revert before. induction s as [|d s IH]; simpl; intros before.
  { by intros [= <- <- <-]. }
  case_bool_decide as E; [by intros [= <- <- <-]; subst|].
  destruct (partition c s) as [[b f] a]. intros [= <- <- <-].
  destruct (IH b eq_refl) as [H1 H2]. simpl. rewrite bool_decide_false by done.
  split; [done|]. destruct f; [by rewrite H2|]. destruct H2 as [-> ->]. done.
Qed.

Lemma partition_app c a b :
  contains c a = false -> partition c (a +:+ String c b) = (a, true, b).
Proof.
  induction a as [|d a IH]; simpl; [by rewrite bool_decide_true|].
  case_bool_decide; simpl; [done|]. intros H'. by rewrite IH.
Qed.

Lemma partition_absent c a : contains c a = false -> partition c a = (a, false, EmptyString).
Proof.
  induction a as [|d a IH]; simpl; [done|].
  case_bool_decide; simpl; [done|]. intros H'. by rewrite IH.
Qed.

Lemma contains_app c a b : contains c (a +:+ b) = contains c a || contains c b.
Proof. induction a as [|d a IH]; simpl; [done|]. by rewrite IH, orb_assoc. Qed.

Lemma isdigit_no_char s c : isdigit s = true -> is_digit c = false -> contains c s = false.
Proof. destruct s; [done|]. apply digits_no_char. Qed.

(** *** Reversal and [strip] *)
Lemma rev_app_app a b c : String.rev_app (a +:+ b) c = String.rev_app b (String.rev_app a c).
Proof. revert c. induction a as [|d a IH]; intros c; simpl; [done|apply IH]. Qed.

Lemma rev_app_rev a b c : String.rev_app (String.rev_app a b) c = String.rev_app b (a +:+ c).
Proof. revert b c. induction a as [|d a IH]; intros b c; simpl; [done|]. by rewrite IH. Qed.

Lemma rev_rev s : String.rev (String.rev s) = s.
Proof. unfold String.rev. rewrite rev_app_rev. simpl. apply append_nil_r. Qed.

Lemma rev_snoc s d : String.rev (s +:+ String d "") = String d (String.rev s).
Proof. unfold String.rev. by rewrite rev_app_app. Qed.

Lemma rev_app_length a b : String.length (String.rev_app a b) = (String.length a + String.length b)%nat.
Proof. revert b. induction a as [|d a IH]; intros b; simpl; [done|]. rewrite IH. simpl. lia. Qed.

Lemma lstrip_length p s : (String.length (lstrip p s) <= String.length s)%nat.
Proof. induction s as [|c s IH]; simpl; [done|]. destruct (p c); simpl; lia. Qed.

Lemma rstrip_length p s : (String.length (rstrip p s) <= String.length s)%nat.
Proof.
  unfold rstrip, String.rev. rewrite rev_app_length. simpl.
  pose proof (lstrip_length p (String.rev_app s "")) as H. rewrite rev_app_length in H. simpl in H. lia.
Qed.

Lemma strip_head c s : strip (String c s) = String c s -> is_space c = false.
Proof.
  unfold strip. cbn [lstrip]. destruct (is_space c); [|done]. intros H.
  pose proof (rstrip_length is_space (lstrip is_space s)) as H1. rewrite H in H1.
  pose proof (lstrip_length is_space s). simpl in H1. lia.
Qed.

(** A text that neither starts nor ends with white space. *)
Lemma strip_ends c s d :
  is_space c = false -> is_space d = false -> strip (String c (s +:+ String d "")) = String c (s +:+ String d "").
Proof.
  intros Hc Hd. unfold strip. cbn [lstrip]. rewrite Hc. unfold rstrip.
  change (String c (s +:+ String d "")) with (String c s +:+ String d "").
  rewrite rev_snoc. cbn [lstrip]. rewrite Hd, <- rev_snoc. apply rev_rev.
Qed.

Lemma forall_chars_rev_app p a b : forall_chars p (String.rev_app a b) = forall_chars p a && forall_chars p b.
Proof.
  revert b. induction a as [|c a IH]; intros b; cbn [String.rev_app forall_chars]; [done|]. rewrite IH. simpl.
  by destruct (p c), (forall_chars p a), (forall_chars p b).
Qed.

Lemma lstrip_nil p s : lstrip p s = "" <-> forall_chars p s = true.
Proof. induction s as [|c s IH]; simpl; [done|]. by destruct (p c). Qed.

Lemma lstrip_forall p s : forall_chars p (lstrip p s) = forall_chars p s.
Proof. induction s as [|c s IH]; [done|]. cbn [lstrip]. destruct (p c) eqn:E; simpl; by rewrite E. Qed.

Lemma strip_nil s : strip s = "" <-> forall_chars is_space s = true.
Proof.
  unfold strip, rstrip. rewrite <- (lstrip_forall is_space s). set (t := lstrip is_space s).
  assert (forall_chars is_space (String.rev t) = forall_chars is_space t) as <-.
  { unfold String.rev. rewrite forall_chars_rev_app. apply andb_true_r. }
  rewrite <- lstrip_nil. split; [|by intros ->]. intros H. rewrite <- (rev_rev (lstrip _ _)). by rewrite H.
Qed.

Lemma forall_chars_app p a b : forall_chars p (a +:+ b) = forall_chars p a && forall_chars p b.
Proof. induction a as [|c a IH]; simpl; [done|]. by rewrite IH, andb_assoc. Qed.

Lemma endswith_app a s : endswith (a +:+ s) s = true.
Proof.
  unfold endswith, String.rev. rewrite rev_app_app.
  assert (forall x y, String.rev_app x y = String.rev_app x "" +:+ y) as H.
  { induction x as [|c x IH]; intros y; cbn [String.rev_app]; [done|].
    rewrite IH, (IH (String c "")), <- append_assoc. done. }
  rewrite (H s (String.rev_app a "")). generalize (String.rev_app s "") as p. intros p.
  induction p as [|c p IH]; [by destruct (String.rev_app a "")|].
  cbn [String.append]. by rewrite prefix_cons, bool_decide_true.
Qed.

Lemma endswith_snoc s d : endswith (s +:+ String d "") (String d "") = true.
Proof.
  unfold endswith. rewrite rev_snoc. change (String.rev (String d "")) with (String d "").
  rewrite prefix_cons, bool_decide_true by done. by destruct (String.rev s).
Qed.

(** *** Cutting a concatenation, and finding *)
Lemma append_length a b : String.length (a +:+ b) = (String.length a + String.length b)%nat.
Proof. induction a as [|c a IH]; simpl; [done|]. by rewrite IH. Qed.

Lemma drop_app a b : drop_chars (String.length a) (a +:+ b) = b.
Proof. induction a as [|c a IH]; simpl; [|done]. by destruct b. Qed.

Lemma take_all s : take_chars (String.length s) s = s.
Proof. unfold take_chars. induction s as [|c s IH]; simpl; [done|]. by rewrite IH. Qed.

Lemma take_app a b : take_chars (String.length a) (a +:+ b) = a.
Proof.
  unfold take_chars. induction a as [|c a IH]; simpl; [|by rewrite IH]. by destruct b.
Qed.

Lemma take_drop n s : take_chars n s +:+ drop_chars n s = s.
Proof.
  unfold take_chars. revert s. induction n as [|n IH]; intros [|c s]; simpl; try done. by rewrite IH.
Qed.

Lemma take_length n s : (n <= String.length s)%nat -> String.length (take_chars n s) = n.
Proof.
  unfold take_chars. revert s. induction n as [|n IH]; intros [|c s]; simpl; try lia.
  intros H. rewrite IH; lia.
Qed.

Lemma drop_length n s : String.length (drop_chars n s) = (String.length s - n)%nat.
Proof. revert s. induction n as [|n IH]; intros [|c s]; simpl; try lia. apply IH. Qed.

Lemma prefix_refl_app p s : String.prefix p (p +:+ s) = true.
Proof. induction p as [|c p IH]; [by destruct s|]. cbn [String.append]. by rewrite prefix_cons, bool_decide_true. Qed.

Lemma prefix_length p s : String.prefix p s = true -> (String.length p <= String.length s)%nat.
Proof.
  revert s. induction p as [|d p IH]; intros [|e s]; simpl; [lia|lia|done|].
  destruct (Ascii.ascii_dec d e); [|done]. intros E. specialize (IH s E). lia.
Qed.

Lemma find_length p s i : find p s = Some i -> (i + String.length p <= String.length s)%nat.
Proof.
  revert i. induction s as [|c s IH]; intros i; cbn [find].
  - destruct (String.prefix p "") eqn:E; [|done]. intros [= <-]. by apply prefix_length in E.
  - destruct (String.prefix p (String c s)) eqn:E.
    + intros [= <-]. by apply prefix_length in E.
    + destruct (find p s) as [j|]; [|done]. intros [= <-]. specialize (IH j eq_refl). simpl. lia.
Qed.

(** *** Decimal texts of numbers *)
Lemma value_from_app acc a b : value_from acc (a +:+ b) = value_from (value_from acc a) b.
Proof. revert acc. induction a as [|c a IH]; intros acc; simpl; [done|apply IH]. Qed.

Definition decimal_char (c : ascii) (n : N) : Prop := is_decimal c = true /\ code c = 48 + Z.of_N n.

Lemma pretty_char n : (n < 10)%N -> decimal_char (pretty_N_char n) n.
Proof.
  intros H. assert (forallb (fun n => is_decimal (pretty_N_char n)
    && (code (pretty_N_char n) =? 48 + Z.of_N n)) (N.of_nat <$> seq 0 10) = true) as Hall by reflexivity.
  rewrite forallb_forall in Hall. specialize (Hall n).
  assert (In n (N.of_nat <$> seq 0 10)) as Hin.
  { apply list_elem_of_In, list_elem_of_fmap. exists (N.to_nat n). split; [by rewrite N2Nat.id|].
    apply elem_of_seq. lia. }
  apply Hall, andb_prop in Hin as [H1 H2]. split; [done|lia].
Qed.

(** The digits of a positive number: they start with no zero, and have its value. *)
Lemma pretty_go x s : (0 < x)%N ->
  exists c d, pretty_N_go x s = String c d +:+ s /\ forall_chars is_decimal (String c d) = true
    /\ c <> "0"%char /\ value_from 0 (String c d) = Z.of_N x.
Proof.
  revert s. induction x as [x IH] using (well_founded_induction N.lt_wf_0). intros s Hx.
  rewrite pretty_N_go_step by done.
  destruct (pretty_char (x mod 10)) as [Hdec Hval]; [by apply N.mod_lt|].
  destruct (decide (x / 10 = 0)%N) as [Hz|Hz].
  - rewrite Hz, pretty_N_go_0. assert (x < 10)%N as Hl by (by apply (N.div_small_iff x 10)).
    rewrite N.mod_small in * by done. exists (pretty_N_char x), "". split; [done|].
    cbn [forall_chars value_from]. rewrite Hdec, Hval. split_and!; [done| |lia].
    intros E. rewrite E in Hval. change (code "0") with 48 in Hval. lia.
  - assert (x / 10 < x)%N as Hlt by (apply N.div_lt; lia).
    assert (0 < x / 10)%N as Hpos by (by apply N.neq_0_lt_0).
    destruct (IH (x / 10)%N Hlt (String (pretty_N_char (x mod 10)) s) Hpos) as (c & d & -> & Hd & Hc & Hv).
    exists c, (d +:+ String (pretty_N_char (x mod 10)) ""). split_and!; [|  |done|].
    + cbn [String.append]. by rewrite <- append_assoc.
    + change (String c (d +:+ String (pretty_N_char (x mod 10)) ""))
        with (String c d +:+ String (pretty_N_char (x mod 10)) "").
      rewrite forall_chars_app, Hd. cbn. by rewrite Hdec.
    + change (String c (d +:+ String (pretty_N_char (x mod 10)) ""))
        with (String c d +:+ String (pretty_N_char (x mod 10)) "").
      rewrite value_from_app, Hv. cbn [value_from]. rewrite Hval.
      pose proof (N.div_mod x 10 ltac:(done)). lia.
Qed.

Lemma fmt_nonneg n : 0 <= n ->
  exists c d, fmt n = String c d /\ forall_chars is_decimal (String c d) = true
    /\ (c = "0"%char -> d = "") /\ value_from 0 (String c d) = n.
Proof.
  intros Hn. destruct (decide (n = 0)) as [->|Hz]; [by exists "0"%char, ""|].
  destruct n as [|p|p]; [done| |lia]. unfold fmt. change (pretty (Z.pos p)) with (pretty (N.pos p)).
  unfold pretty, pretty_N. rewrite decide_False by done.
  destruct (pretty_go (N.pos p) "") as (c & d & -> & Hd & Hc & Hv); [done|].
  exists c, d. rewrite append_nil_r. by split_and!.
Qed.

(** *** Two ways to cut one text *)
Lemma app_cut a b p t :
  a +:+ b = p +:+ t -> (exists p', p = a +:+ p' /\ b = p' +:+ t) \/ (exists t', t' <> "" /\ a = p +:+ t' /\ t = t' +:+ b).
Proof.
  revert p. induction a as [|c a IH]; intros p; cbn [String.append]; [by left; exists p|].
  destruct p as [|d p]; cbn [String.append].
  - intros <-. right. by exists (String c a).
  - intros [= <- E]. destruct (IH p E) as [(p' & -> & ->)|(t' & Hne & -> & ->)]; [left|right]; eauto.
Qed.

Lemma rstrip_app q s : exists w, s = rstrip q s +:+ w.
Proof.
  unfold rstrip. assert (forall r, exists w, r = w +:+ lstrip q r) as H.
  { induction r as [|c r (w & IH)]; [by exists ""|]. cbn [lstrip]. destruct (q c); [|by exists ""].
    exists (String c w). cbn [String.append]. by rewrite <- IH. }
  destruct (H (String.rev s)) as (w & E). exists (String.rev w).
  assert (forall a b, String.rev (a +:+ b) = String.rev b +:+ String.rev a) as Hrev.
  { intros a b. unfold String.rev. rewrite rev_app_app.
    assert (forall x y, String.rev_app x y = String.rev_app x "" +:+ y) as Hr.
    { induction x as [|c x IH]; intros y; cbn [String.rev_app]; [done|].
      rewrite IH, (IH (String c "")), <- append_assoc. done. }
    apply Hr. }
  by rewrite <- Hrev, <- E, rev_rev.
Qed.

End Text.
