(* ===== verification/Breaker.v ===== *)
(** The sliding-window three-state circuit breaker
    ([runtime/resilience/breaker.py]) and the registry that keeps one per
    resource key ([runtime/resilience/registry.py]).

    Times are integers in one fixed unit; the code's floats are finite dyadic
    rationals, so a unit that makes a run's values integral exists, and only the
    rounding of [+] and [-] is left out. [clk i] is the [i]-th reading of the
    injected clock in the call. *)

From S2P Require Import Prelude.

Local Open Scope Z_scope.

Record BreakerConfig : Type := mkBreakerConfig {
  window_seconds : Z;
  min_samples : Z;
  error_rate_threshold : Q;
  open_seconds : Z;
  half_open_max_probes : Z;
  half_open_success_quorum : Z;
  probe_grace_seconds : Z;
  enabled : bool
}.

(** The dataclass defaults, in seconds. *)
Definition default_config : BreakerConfig :=
  mkBreakerConfig 60 5 (1 # 2) 20 1 1 1 true.

Definition MAX_WINDOW_ENTRIES : nat := 10000.

Inductive BreakerState : Type := CLOSED | OPEN | HALF_OPEN.

#[export] Instance BreakerState_eq_dec : EqDecision BreakerState.
Proof. solve_decision. Defined.

Definition BreakerState_value (s : BreakerState) : string :=
  match s with CLOSED => "closed" | OPEN => "open" | HALF_OPEN => "half_open" end.

(** One recorded outcome: [(monotonic_ts, is_failure)]. *)
Notation Outcome := (Z * bool)%type.

(** The windows both breakers of the code keep: eviction, the entry cap, the
    failure count and the rate test. *)
Module Window.

(** [while window and window[0][0] < cutoff: window.popleft()] *)
Fixpoint evict (cutoff : Z) (w : list Outcome) : list Outcome :=
  match w with
  | [] => []
  | (ts, f) :: w' => if ts <? cutoff then evict cutoff w' else w
  end.

(** [window.append(o); if len(window) > MAX_WINDOW_ENTRIES: window.popleft()] *)
Definition push (o : Outcome) (w : list Outcome) : list Outcome :=
  let w' := w ++ [o] in
  if (MAX_WINDOW_ENTRIES <? length w')%nat then tail w' else w'.

(** [sum(1 for _, is_failure in window if is_failure)] *)
Definition failures (w : list Outcome) : nat :=
  length (filter (fun o => o.2 = true) w).

(** [len(window) < min_samples] then [failures / len(window) >= threshold];
    the division by an empty window raises [ZeroDivisionError] ([None]). *)
Definition over_threshold (cfg : BreakerConfig) (w : list Outcome) : option bool :=
  if Z.of_nat (length w) <? min_samples cfg then Some false
  else match w with
       | [] => None
       | _ => Some (rate_at_least (failures w) (length w) (error_rate_threshold cfg))
       end.

(** Recording orders the entries by time: what [record] sees when its clock
    never runs backwards. *)
Definition sorted_before (now : Z) (w : list Outcome) : Prop :=
  StronglySorted (fun a b => a.1 <= b.1) w /\ Forall (fun o => o.1 <= now) w.

Lemma evict_sublist c w : evict c w `sublist_of` w.
Proof.
  induction w as [|[ts f] w IH]; simpl; [done|].
  case_match; [by apply sublist_cons|done].
Qed.

Lemma evict_length c w : (length (evict c w) <= length w)%nat.
Proof. apply sublist_length, evict_sublist. Qed.

Lemma push_length o w :
  (length w <= MAX_WINDOW_ENTRIES)%nat -> (length (push o w) <= MAX_WINDOW_ENTRIES)%nat.
Proof.
  intros Hw. unfold push. case_match eqn:E.
  - destruct w; simpl in *; rewrite ?length_app in *; simpl in *; lia.
  - apply Nat.ltb_ge in E. done.
Qed.

(** On a sorted window eviction keeps exactly the entries at or after the cutoff. *)
Lemma evict_sorted c now w :
  sorted_before now w -> evict c w = filter (fun o => c <= o.1) w.
Proof.
  intros [Hs _]. induction Hs as [|[ts f] w Hs IH Hf]; simpl; [done|].
  case_match eqn:E; zbool.
  - rewrite filter_cons_False by (simpl; lia). done.
  - rewrite filter_cons_True by (simpl; lia). f_equal. symmetry.
    apply filter_all. eapply Forall_impl; [exact Hf|]. simpl. lia.
Qed.

Lemma sorted_before_sublist now w w' :
  w' `sublist_of` w -> sorted_before now w -> sorted_before now w'.
Proof. intros Hsub [Hs Hf]. split; eauto using StronglySorted_sublist, sublist_Forall'. Qed.

Lemma sorted_before_push now f w :
  sorted_before now w -> sorted_before now (push (now, f) w).
Proof.
  intros [Hs Hf]. assert (sorted_before now (w ++ [(now, f)])) as H.
  { split; [by apply StronglySorted_snoc|]. apply Forall_app. by repeat constructor. }
  unfold push. case_match; [|done].
  eapply sorted_before_sublist; [|exact H].
  destruct (w ++ [(now, f)]); simpl; [done|by apply sublist_cons].
Qed.

Lemma sorted_before_later now now' w :
  now <= now' -> sorted_before now w -> sorted_before now' w.
Proof. intros Hle [Hs Hf]. split; [done|]. eapply Forall_impl; [done|]. simpl. lia. Qed.

Lemma sorted_before_nil now : sorted_before now [].
Proof. split; constructor. Qed.

(** The entry just pushed survives the eviction of a window of positive span. *)
Lemma evict_push_last now span f w :
  0 <= span -> exists w', evict (now - span) (push (now, f) w) = w' ++ [(now, f)].
Proof.
  intros Hspan.
  assert (forall l, exists w', evict (now - span) (l ++ [(now, f)]) = w' ++ [(now, f)]) as Hev.
  { intros l. induction l as [|[ts g] l IH]; simpl.
    - rewrite (proj2 (Z.ltb_ge _ _)) by lia. by exists [].
    - case_match; [done|]. by exists ((ts, g) :: l). }
  unfold push. case_match; [|done].
  destruct w as [|o w]; simpl; [done|apply Hev].
Qed.
End Window.

#[export] Hint Resolve Window.sorted_before_nil Window.sorted_before_push : mote.

Inductive exn : Type := ZeroDivisionError.

(** * [class CircuitBreaker] *)
Module CircuitBreaker.

(** The instance attributes; [emitted] is the sequence of [(old, new, reason)]
    that [_transition] logs and hands to the observer. *)
Record t : Type := mk {
  state : BreakerState;
  window : list Outcome;
  opened_at : Z;
  probes : Z;
  probe_claimed_at : Z;
  emitted : list (BreakerState * BreakerState * string)
}.

Definition init : t := mk CLOSED [] 0 0 0 [].

Definition with_window w b := mk (state b) w (opened_at b) (probes b) (probe_claimed_at b) (emitted b).
Definition with_probes n b := mk (state b) (window b) (opened_at b) n (probe_claimed_at b) (emitted b).
Definition with_claim n at_ b := mk (state b) (window b) (opened_at b) n at_ (emitted b).
Definition with_opened at_ n b := mk (state b) (window b) at_ n (probe_claimed_at b) (emitted b).

Definition _transition (new : BreakerState) (reason : string) (b : t) : t :=
  if decide (state b = new) then b
  else mk new (window b) (opened_at b) (probes b) (probe_claimed_at b)
          (emitted b ++ [(state b, new, reason)]).

Definition _trip (now : Z) (reason : string) (b : t) : t :=
  _transition OPEN reason (with_opened now 0 b).

Definition _close (reason : string) (b : t) : t :=
  _transition CLOSED reason (with_probes 0 (with_window [] b)).

Definition _claim_probe (cfg : BreakerConfig) (now : Z) (b : t) : t * bool :=
  let limit := Z.max 1 (half_open_max_probes cfg) in
  if probes b <? limit then (with_claim (probes b + 1) now b, true)
  else if open_seconds cfg <=? now - probe_claimed_at b
       then (with_claim (probes b) now b, true)
       else (b, false).

Definition _evict (cfg : BreakerConfig) (now : Z) (b : t) : t :=
  with_window (Window.evict (now - window_seconds cfg) (window b)) b.

Definition _should_trip (cfg : BreakerConfig) (b : t) : option bool :=
  Window.over_threshold cfg (window b).

Definition admit_call (cfg : BreakerConfig) (clk : readings) (b : t) : t * bool :=
  if negb (enabled cfg) then (b, true)
  else
    let now := clk 0%nat in
    match state b with
    | CLOSED => (b, true)
    | OPEN =>
        if open_seconds cfg <=? now - opened_at b
        then _claim_probe cfg now (with_probes 0 (_transition HALF_OPEN "cool-down elapsed" b))
        else (b, false)
    | HALF_OPEN => _claim_probe cfg now b
    end.

Definition record (cfg : BreakerConfig) (clk : readings) (success : bool) (b : t)
    : t * outcome exn unit :=
  if negb (enabled cfg) then (b, Ok tt)
  else
    let now := clk 0%nat in
    match state b with
    | HALF_OPEN =>
        let b := with_probes (Z.max 0 (probes b - 1)) b in
        (if success then _close "probe succeeded" b else _trip (clk 1%nat) "probe failed" b, Ok tt)
    | OPEN => (b, Ok tt)
    | CLOSED =>
        let b := with_window (Window.push (now, negb success) (window b)) b in
        let b := _evict cfg now b in
        match _should_trip cfg b with
        | None => (b, Raise ZeroDivisionError)
        | Some true => (_trip (clk 1%nat) "failure-rate threshold exceeded" b, Ok tt)
        | Some false => (b, Ok tt)
        end
    end.

Definition abandon (cfg : BreakerConfig) (b : t) : t :=
  if negb (enabled cfg) then b
  else match state b with
       | HALF_OPEN => with_probes (Z.max 0 (probes b - 1)) b
       | _ => b
       end.

(** The ratio is returned as [(failures, total)]; [(0, 1)] is the code's [0.0]. *)
Definition error_rate (cfg : BreakerConfig) (clk : readings) (b : t) : t * (nat * nat) :=
  let b := _evict cfg (clk 0%nat) b in
  match window b with
  | [] => (b, (0, 1)%nat)
  | w => (b, (Window.failures w, length w))
  end.

(** ** Operations as one step relation *)
Inductive op : Type := Admit | Record_ (success : bool) | Abandon | ErrorRate.

Definition run_op (cfg : BreakerConfig) (clk : readings) (o : op) (b : t) : t :=
  match o with
  | Admit => fst (admit_call cfg clk b)
  | Record_ s => fst (record cfg clk s b)
  | Abandon => abandon cfg b
  | ErrorRate => fst (error_rate cfg clk b)
  end.

(** A sequence of operations, with the verdicts its [admit]s returned. *)
Fixpoint run_ops (cfg : BreakerConfig) (l : list (readings * op)) (b : t) : t * list bool :=
  match l with
  | [] => (b, [])
  | (clk, o) :: l =>
      let (b', vs) := run_ops cfg l (run_op cfg clk o b) in
      (b', match o with Admit => snd (admit_call cfg clk b) :: vs | _ => vs end)
  end.

(** [reachable cfg now b]: [b] results from operations whose clock readings
    never decrease and are at most [now]. *)
Inductive reachable (cfg : BreakerConfig) : Z -> t -> Prop :=
| reach_init now : reachable cfg now init
| reach_wait now now' b : reachable cfg now b -> now <= now' -> reachable cfg now' b
| reach_step now now' clk o b :
    reachable cfg now b -> monotone clk -> now <= clk 0%nat -> clk 1%nat <= now' ->
    reachable cfg now' (run_op cfg clk o b).

(** The edges of the three-state diagram. *)
Definition legal (old new : BreakerState) : bool :=
  match old, new with
  | CLOSED, OPEN | OPEN, HALF_OPEN | HALF_OPEN, CLOSED | HALF_OPEN, OPEN => true
  | _, _ => false
  end.

(** [chain s l s']: [l] is a path of legal edges from [s] to [s']. *)
Fixpoint chain (s : BreakerState) (l : list (BreakerState * BreakerState * string))
    (s' : BreakerState) : Prop :=
  match l with
  | [] => s = s'
  | (old, new, _) :: l => old = s /\ legal old new = true /\ chain new l s'
  end.

Record wf (cfg : BreakerConfig) (now : Z) (b : t) : Prop := {
  wf_window_len : (length (window b) <= MAX_WINDOW_ENTRIES)%nat;
  wf_window_sorted : Window.sorted_before now (window b);
  wf_probes : 0 <= probes b <= Z.max 1 (half_open_max_probes cfg);
  wf_probes_state : state b <> HALF_OPEN -> probes b = 0;
  wf_opened : state b = OPEN -> opened_at b <= now;
  wf_claimed : state b = HALF_OPEN -> probe_claimed_at b <= now;
  wf_emitted : chain CLOSED (emitted b) (state b)
}.

Lemma chain_snoc s l s' s'' r :
  chain s l s' -> legal s' s'' = true -> chain s (l ++ [(s', s'', r)]) s''.
Proof.
  revert s. induction l as [|[[o n] r'] l IH]; intros s; simpl; [naive_solver|].
  intros (-> & Hl & Hc) ?. auto.
Qed.

Lemma wf_init cfg now : wf cfg now init.
Proof. split; simpl; auto with mote; done || lia. Qed.

Lemma wf_later cfg now now' b : now <= now' -> wf cfg now b -> wf cfg now' b.
Proof.
  intros Hle [H1 H2 H3 H4 H5 H6 H7]. split; eauto using Window.sorted_before_later.
  - intros E. specialize (H5 E). lia.
  - intros E. specialize (H6 E). lia.
Qed.

Lemma wf_evict cfg now b : wf cfg now b -> wf cfg now (_evict cfg now b).
Proof.
  intros [H1 H2 H3 H4 H5 H6 H7]. split; simpl; auto.
  - eapply Nat.le_trans; [apply Window.evict_length|done].
  - eapply Window.sorted_before_sublist; [apply Window.evict_sublist|done].
Qed.

Lemma wf_trip cfg now now' r b :
  now <= now' -> wf cfg now b -> state b <> OPEN -> wf cfg now' (_trip now' r b).
Proof.
  intros Hle Hwf Hs. apply (wf_later _ _ now') in Hwf as [H1 H2 H3 H4 H5 H6 H7]; [|done].
  unfold _trip, _transition; simpl. rewrite decide_False by done.
  split; simpl; try done; try lia. apply chain_snoc; [done|].
  by destruct (state b).
Qed.

Lemma wf_close cfg now r b :
  wf cfg now b -> state b = HALF_OPEN -> wf cfg now (_close r b).
Proof.
  intros [H1 H2 H3 H4 H5 H6 H7] Hs. unfold _close, _transition; simpl. rewrite Hs; simpl.
  split; simpl; auto with mote; try done; try lia.
  rewrite Hs in H7. by apply chain_snoc.
Qed.

Lemma wf_with_probes cfg now n b :
  wf cfg now b -> 0 <= n <= probes b -> wf cfg now (with_probes n b).
Proof.
  intros [H1 H2 H3 H4 H5 H6 H7] Hn. split; simpl; auto; try lia.
  intros Hs. specialize (H4 Hs). lia.
Qed.

Lemma wf_claim_probe cfg now b :
  wf cfg now b -> state b = HALF_OPEN -> wf cfg now (fst (_claim_probe cfg now b)).
Proof.
  intros [H1 H2 H3 H4 H5 H6 H7] Hs. unfold _claim_probe.
  repeat case_match; zbool; simpl; split; simpl; auto; try lia; by rewrite Hs.
Qed.

Lemma wf_half_open cfg now b :
  wf cfg now b -> state b = OPEN ->
  wf cfg now (fst (_claim_probe cfg now (with_probes 0 (_transition HALF_OPEN "cool-down elapsed" b)))).
Proof.
  intros [H1 H2 H3 H4 H5 H6 H7] Hs. unfold _claim_probe, _transition; simpl.
  rewrite decide_False by congruence. simpl.
  rewrite (proj2 (Z.ltb_lt _ _)) by lia. simpl.
  split; simpl; auto; try done; try lia.
  apply chain_snoc; [done|]. by rewrite Hs.
Qed.

Lemma run_op_wf cfg clk now now' o b :
  wf cfg now b -> monotone clk -> now <= clk 0%nat -> clk 1%nat <= now' ->
  wf cfg now' (run_op cfg clk o b).
Proof.
  intros Hwf Hm H0 H1. pose proof (Hm 0%nat 1%nat ltac:(lia)) as H01.
  apply (wf_later _ (clk 1%nat)); [done|].
  assert (wf cfg (clk 0%nat) b) as Hwf0 by eauto using wf_later.
  assert (wf cfg (clk 1%nat) b) as Hwf1 by eauto using wf_later.
  destruct o; simpl.
  - unfold admit_call. destruct (enabled cfg); simpl; [|done].
    apply (wf_later _ (clk 0%nat)); [done|].
    destruct (state b) eqn:Hs; simpl; [done| |by apply wf_claim_probe].
    case_match; [|done]. apply wf_half_open; auto.
  - unfold record. destruct (enabled cfg); simpl; [|done].
    destruct (state b) eqn:Hs; simpl; [|done|].
    + set (b1 := _evict _ _ _).
      assert (wf cfg (clk 0%nat) b1) as Hb1.
      { apply wf_evict. destruct Hwf0. split; simpl; auto with mote.
        by apply Window.push_length. }
      destruct (_should_trip cfg b1) as [[]|]; simpl; [|by apply (wf_later _ (clk 0%nat))..].
      apply (wf_trip _ (clk 0%nat)); simpl; [done..|congruence].
    + assert (wf cfg (clk 0%nat) (with_probes (Z.max 0 (probes b - 1)) b)) as Hp.
      { apply wf_with_probes; [done|]. destruct Hwf. lia. }
      destruct success; simpl.
      * apply (wf_later _ (clk 0%nat)); [done|]. by apply wf_close.
      * apply (wf_trip _ (clk 0%nat)); simpl; [done..|congruence].
  - unfold abandon. destruct (enabled cfg); simpl; [|done].
    destruct (state b) eqn:Hs; [done..|]. apply wf_with_probes; [done|]. destruct Hwf. lia.
  - unfold error_rate. apply (wf_later _ (clk 0%nat)); [done|].
    pose proof (wf_evict _ _ _ Hwf0). destruct (window (_evict _ _ _)); done.
Qed.

Lemma reachable_wf cfg now b : reachable cfg now b -> wf cfg now b.
Proof. induction 1; eauto using wf_init, wf_later, run_op_wf. Qed.

(** In every state reached by any interleaving of [admit], [record],
    [abandon] and [error_rate] on a non-decreasing clock, the window holds at
    most [MAX_WINDOW_ENTRIES] outcomes in time order, the in-flight probes stay
    between 0 and the configured limit and are 0 outside HALF_OPEN, and the
    transitions announced to the observer form a path of legal edges from
    CLOSED to the current state. *)
Theorem breaker_invariant cfg now b :
  reachable cfg now b ->
  (length (window b) <= MAX_WINDOW_ENTRIES)%nat /\
  StronglySorted (fun a b => a.1 <= b.1) (window b) /\
  0 <= probes b <= Z.max 1 (half_open_max_probes cfg) /\
  (state b <> HALF_OPEN -> probes b = 0) /\
  chain CLOSED (emitted b) (state b).
Proof. intros [H1 [H2 _] H3 H4 _ _ H5]%reachable_wf. auto. Qed.

Example breaker_invariant_witness :
  let b := run_op default_config (fun _ => 7) (Record_ false) init in
  reachable default_config 7 b /\ 0 <= probes b <= 1.
Proof.
  assert (reachable default_config 7
            (run_op default_config (fun _ => 7) (Record_ false) init)) as H.
  { apply (reach_step _ 0 7 (fun _ => 7)).
    - constructor.
    - apply monotone_const.
    - lia.
    - lia. }
  split; [exact H|]. exact (proj1 (proj2 (proj2 (breaker_invariant _ _ _ H)))).
Defined.

Lemma open_run_op cfg clk o b :
  enabled cfg = true -> state b = OPEN -> clk 0%nat < opened_at b + open_seconds cfg ->
  state (run_op cfg clk o b) = OPEN /\ opened_at (run_op cfg clk o b) = opened_at b /\
  snd (admit_call cfg clk b) = false.
Proof.
  intros He Hs Ht.
  assert (admit_call cfg clk b = (b, false)) as Ha.
  { unfold admit_call. rewrite He, Hs; simpl. case_match; [|done]. zbool. lia. }
  rewrite Ha. destruct o; simpl.
  - by rewrite Ha.
  - unfold record. by rewrite He, Hs.
  - unfold abandon. by rewrite He, Hs.
  - unfold error_rate. destruct (window _); simpl; by rewrite Hs.
Qed.

(** While the cool-down runs the breaker fails fast: from an OPEN breaker,
    any sequence of operations whose clock readings stay below
    [opened_at + open_seconds] leaves it OPEN with the same [opened_at], and
    every [admit] in the sequence answers [False]. *)
Theorem breaker_open_fails_fast cfg l b :
  enabled cfg = true -> state b = OPEN ->
  Forall (fun co => co.1 0%nat < opened_at b + open_seconds cfg) l ->
  state (fst (run_ops cfg l b)) = OPEN /\
  opened_at (fst (run_ops cfg l b)) = opened_at b /\
  Forall (fun v => v = false) (snd (run_ops cfg l b)).
Proof.
  intros He. revert b. induction l as [|[clk o] l IH]; intros b Hs Hl; simpl; [auto|].
  apply Forall_cons in Hl as [Ht Hl]; simpl in Ht.
  destruct (open_run_op cfg clk o b He Hs Ht) as (Hs' & Ho' & Ha).
  destruct (IH (run_op cfg clk o b) Hs') as (IH1 & IH2 & IH3); [by rewrite Ho'|].
  destruct (run_ops cfg l _) as [b' vs]; simpl in *.
  split_and!; [done|congruence|]. destruct o; simpl; auto.
Qed.

Definition tripped_at_5 : t := mk OPEN [(1, true)] 5 0 0 [].

Example breaker_open_fails_fast_witness :
  snd (run_ops default_config [(fun _ => 6, Admit); (fun _ => 9, Record_ true); (fun _ => 24, Admit)]
         tripped_at_5) = [false; false] /\
  state (fst (run_ops default_config
           [(fun _ => 6, Admit); (fun _ => 9, Record_ true); (fun _ => 24, Admit)]
           tripped_at_5)) = OPEN.
Proof.
  split; [vm_compute; reflexivity|].
  refine (proj1 (breaker_open_fails_fast default_config _ tripped_at_5 eq_refl eq_refl _)).
  repeat constructor; vm_compute; reflexivity.
Defined.

(** The breaker cannot wedge: from every reachable state, whatever probes
    were claimed and never released, an [admit] at least [open_seconds] after
    the last operation is admitted. *)
Theorem breaker_never_wedges cfg now b clk :
  reachable cfg now b -> now + open_seconds cfg <= clk 0%nat ->
  snd (admit_call cfg clk b) = true.
Proof.
  intros [_ _ _ _ Ho Hc _]%reachable_wf Ht. unfold admit_call.
  destruct (enabled cfg); simpl; [|done].
  destruct (state b) eqn:Hs; simpl; [done| |].
  - specialize (Ho eq_refl). rewrite (proj2 (Z.leb_le _ _)) by lia.
    unfold _claim_probe, _transition; simpl. rewrite decide_False by congruence; simpl.
    by rewrite (proj2 (Z.ltb_lt _ _)) by lia.
  - specialize (Hc eq_refl). unfold _claim_probe.
    case_match; [done|]. by rewrite (proj2 (Z.leb_le _ _)) by lia.
Qed.

(** A run whose every call sees one frozen clock value. *)
Fixpoint run_at (cfg : BreakerConfig) (l : list (Z * op)) (b : t) : t :=
  match l with
  | [] => b
  | (at_, o) :: l => run_at cfg l (run_op cfg (fun _ => at_) o b)
  end.

Lemma reachable_run_at cfg l now end_ b :
  reachable cfg now b -> StronglySorted Z.le (now :: l.*1 ++ [end_]) ->
  reachable cfg end_ (run_at cfg l b).
Proof.
  revert now b. induction l as [|[at_ o] l IH]; intros now b Hr Hs; simpl in *;
    inversion_clear Hs as [|? ? Hs' Hle]; apply Forall_cons in Hle as [Hle _].
  - by eapply reach_wait.
  - apply (IH at_); [|done].
    apply (reach_step _ now _ (fun _ => at_)); [done|apply monotone_const|done|simpl; lia].
Qed.

(** Five failures trip the breaker at 1; the only probe is claimed at 25 and
    never recorded. *)
Definition wedged : t := run_at default_config (repeat (1, Record_ false) 5 ++ [(25, Admit)]) init.

Example breaker_never_wedges_witness :
  state wedged = HALF_OPEN /\ probes wedged = 1 /\
  snd (admit_call default_config (fun _ => 44) wedged) = false /\
  snd (admit_call default_config (fun _ => 45) wedged) = true.
Proof.
  split_and!; [vm_compute; reflexivity..|].
  refine (breaker_never_wedges default_config 25 wedged (fun _ => 45) _ _).
  - refine (reachable_run_at _ _ 0 25 init (reach_init _ 0) _).
    repeat constructor; vm_compute; discriminate.
  - vm_compute. discriminate.
Defined.

(** In CLOSED an outcome trips the breaker exactly when the outcomes of the
    last [window_seconds], this one included, number at least [min_samples] and
    their failure ratio reaches the threshold [p/q]; otherwise it stays CLOSED.
    No exception is raised. *)
Theorem breaker_closed_trips_iff cfg now clk success b p q :
  wf cfg now b -> now <= clk 0%nat -> enabled cfg = true -> state b = CLOSED ->
  0 <= window_seconds cfg -> error_rate_threshold cfg = p # q ->
  let w := filter (fun o => clk 0%nat - window_seconds cfg <= o.1)
             (Window.push (clk 0%nat, negb success) (window b)) in
  snd (record cfg clk success b) = Ok tt /\
  state (fst (record cfg clk success b)) =
    (if (min_samples cfg <=? Z.of_nat (length w)) &&
        (p * Z.of_nat (length w) <=? Z.of_nat (Window.failures w) * Zpos q)
     then OPEN else CLOSED).
Proof.
  intros Hwf Hnow He Hs Hspan Hq w. apply (wf_later _ _ (clk 0%nat)) in Hwf; [|done].
  assert (Window.evict (clk 0%nat - window_seconds cfg)
            (Window.push (clk 0%nat, negb success) (window b)) = w) as Hw.
  { apply (Window.evict_sorted _ (clk 0%nat)). apply Window.sorted_before_push, Hwf. }
  destruct (Window.evict_push_last (clk 0%nat) _ (negb success) (window b) Hspan) as [w0 Hlast].
  rewrite Hw in Hlast.
  assert (length w <> 0%nat) as Hlen by (rewrite Hlast, length_app; simpl; lia).
  unfold record, _should_trip, _evict, Window.over_threshold.
  rewrite He, Hs; simpl. rewrite Hw.
  destruct (Z.of_nat (length w) <? min_samples cfg) eqn:Em; zbool; simpl.
  - rewrite (proj2 (Z.leb_gt _ _)) by done. by rewrite Hs.
  - rewrite (proj2 (Z.leb_le _ _)) by done. simpl.
    pose proof (rate_at_least_spec (Window.failures w) (length w) p q Hlen) as Hr.
    destruct w as [|o w']; [done|]. rewrite Hq.
    destruct (rate_at_least _ _ _) eqn:Er.
    + rewrite (proj2 (Z.leb_le _ _)) by (by apply Hr).
      unfold _trip, _transition; simpl. by rewrite decide_False by congruence.
    + assert (~ p * Z.of_nat (length (o :: w')) <= Z.of_nat (Window.failures (o :: w')) * Zpos q)
        as Hn by (intros Hle; apply Hr in Hle; congruence).
      rewrite (proj2 (Z.leb_gt _ _)) by lia. done.
Qed.

Definition four_failures : t := run_at default_config (repeat (1, Record_ false) 4) init.

Example breaker_closed_trips_iff_witness :
  state four_failures = CLOSED /\
  state (fst (record default_config (fun _ => 2) true four_failures)) = OPEN.
Proof.
  split; [reflexivity|].
  refine (eq_trans (proj2 (breaker_closed_trips_iff default_config 1 (fun _ => 2) true
            four_failures 1 2 _ _ _ _ _ _)) _); try (vm_compute; (reflexivity || discriminate)).
  apply reachable_wf. refine (reachable_run_at _ _ 0 1 init (reach_init _ 0) _).
  repeat constructor; vm_compute; discriminate.
Defined.
End CircuitBreaker.

(** * [class ResourceHealthRegistry] *)
Module ResourceHealthRegistry.
Section registry.
Context {Hook : Type}.

(** A breaker object carries the configuration and the hook it was built with. *)
Record entry : Type := mk_entry {
  config : BreakerConfig;
  on_transition : option Hook;
  cell : CircuitBreaker.t
}.

Record t : Type := mk {
  _config : BreakerConfig;
  _on_transition : option Hook;
  _breakers : list (string * entry)
}.

Definition init (cfg : option BreakerConfig) (hook : option Hook) : t :=
  mk (default default_config cfg) hook [].

(** Returns the registry with the breaker created if it was missing, and the breaker. *)
Definition breaker (key : string) (r : t) : t * entry :=
  match Dict.get key (_breakers r) with
  | Some b => (r, b)
  | None =>
      let b := mk_entry (_config r) (_on_transition r) CircuitBreaker.init in
      (mk (_config r) (_on_transition r) (Dict.set key b (_breakers r)), b)
  end.

(** The breaker object is shared by reference: its new state is visible under its key. *)
Definition store (key : string) (e : entry) (c : CircuitBreaker.t) (r : t) : t :=
  mk (_config r) (_on_transition r)
     (Dict.set key (mk_entry (config e) (on_transition e) c) (_breakers r)).

Definition admit_call (key : string) (clk : readings) (r : t) : t * bool :=
  let (r, e) := breaker key r in
  let (c, v) := CircuitBreaker.admit_call (config e) clk (cell e) in
  (store key e c r, v).

Definition record (key : string) (clk : readings) (success : bool) (r : t)
    : t * outcome exn unit :=
  let (r, e) := breaker key r in
  let (c, o) := CircuitBreaker.record (config e) clk success (cell e) in
  (store key e c r, o).

Definition snapshot (r : t) : list (string * string) :=
  map (fun ke => (ke.1, BreakerState_value (CircuitBreaker.state (cell ke.2)))) (_breakers r).

Definition set_transition_hook (hook : option Hook) (r : t) : t :=
  mk (_config r) hook (_breakers r).

Definition set_config (cfg : BreakerConfig) (r : t) : t :=
  mk cfg (_on_transition r) (_breakers r).

(** What [breaker key] would hand out, without creating it. *)
Definition peek (key : string) (r : t) : entry :=
  snd (breaker key r).

Lemma peek_breaker_ne k k' r : k <> k' -> peek k (fst (breaker k' r)) = peek k r.
Proof.
  intros Hne. unfold peek, breaker. destruct (Dict.get k' (_breakers r)); simpl; [done|].
  rewrite Dict.get_set_ne by done. by destruct (Dict.get k _).
Qed.

Lemma peek_store_ne k k' e c r : k <> k' -> peek k (store k' e c r) = peek k r.
Proof.
  intros Hne. unfold peek, breaker, store; simpl. rewrite Dict.get_set_ne by done.
  by destruct (Dict.get k _).
Qed.

Lemma peek_store_eq k e c r :
  peek k (store k e c r) = mk_entry (config e) (on_transition e) c.
Proof. unfold peek, breaker, store; simpl. by rewrite Dict.get_set_eq. Qed.

(** A call for one key acts on that key's breaker as the breaker itself would,
    under the configuration the breaker was created with, and on no other. *)
Lemma registry_call_local k k' clk success r :
  (cell (peek k (fst (admit_call k clk r))) =
     fst (CircuitBreaker.admit_call (config (peek k r)) clk (cell (peek k r))) /\
   snd (admit_call k clk r) = snd (CircuitBreaker.admit_call (config (peek k r)) clk (cell (peek k r))) /\
   cell (peek k (fst (record k clk success r))) =
     fst (CircuitBreaker.record (config (peek k r)) clk success (cell (peek k r)))) /\
  (k <> k' -> peek k' (fst (admit_call k clk r)) = peek k' r /\
              peek k' (fst (record k clk success r)) = peek k' r).
Proof.
  assert (peek k r = snd (breaker k r)) as Hp by done. rewrite Hp.
  unfold admit_call, record. destruct (breaker k r) as [r1 e] eqn:Hb; simpl.
  assert (r1 = fst (breaker k r)) as -> by (by rewrite Hb).
  destruct (CircuitBreaker.admit_call _ _ _) as [c v] eqn:Ea.
  destruct (CircuitBreaker.record _ _ _ _) as [c' v'] eqn:Er; simpl.
  rewrite !peek_store_eq; simpl. split; [done|]. intros Hne.
  by rewrite !peek_store_ne, peek_breaker_ne by done.
Qed.
End registry.
End ResourceHealthRegistry.
