(* ===== verification/Availability.v ===== *)
(** The epoch-fenced availability breaker of resource admission
    ([runtime/resilience/failover/availability.py]): permits stamped with the
    epoch of their admission, and half-open probes leased one by one. *)

From S2P Require Import Prelude Breaker.

Local Open Scope Z_scope.

Module AvailabilityBreaker.

Inductive exn : Type :=
| ValueError (message : string)
| RuntimeError (message : string)
| ZeroDivisionError.

Record t : Type := mk {
  _state : BreakerState;
  _epoch : Z;
  _window : list Outcome;
  _opened_at : Z;
  _next_probe_id : Z;
  _active_probes : list (Z * Z);
  _probe_successes : Z
}.

(** [class AvailabilityPermit]; the breaker it points to is passed beside it. *)
Record permit : Type := mk_permit {
  p_epoch : Z;
  p_probe_id : option Z;
  p_lease_deadline : Z;
  p_settled : bool
}.

(** [__init__]: the configuration checks, in order, then the initial attributes. *)
Definition init (cfg : BreakerConfig) : outcome exn t :=
  if half_open_max_probes cfg <? half_open_success_quorum cfg then
    Raise (ValueError "half_open_success_quorum cannot exceed half_open_max_probes")
  else if half_open_success_quorum cfg <? 1 then
    Raise (ValueError "half_open_success_quorum must be positive")
  else if probe_grace_seconds cfg <? 0 then
    Raise (ValueError "probe_grace_seconds cannot be negative")
  else Ok (mk CLOSED 0 [] 0 0 [] 0).

Definition with_window w b :=
  mk (_state b) (_epoch b) w (_opened_at b) (_next_probe_id b) (_active_probes b) (_probe_successes b).
Definition with_probes n a b :=
  mk (_state b) (_epoch b) (_window b) (_opened_at b) n a (_probe_successes b).
Definition with_successes k b :=
  mk (_state b) (_epoch b) (_window b) (_opened_at b) (_next_probe_id b) (_active_probes b) k.

Definition _evict (cfg : BreakerConfig) (now : Z) (b : t) : t :=
  with_window (Window.evict (now - window_seconds cfg) (_window b)) b.

Definition _trip (now : Z) (b : t) : t :=
  mk OPEN (_epoch b + 1) (_window b) now (_next_probe_id b) [] 0.

Definition _begin_half_open (b : t) : t :=
  mk HALF_OPEN (_epoch b + 1) (_window b) (_opened_at b) (_next_probe_id b) [] 0.

Definition _close (b : t) : t :=
  mk CLOSED (_epoch b + 1) [] (_opened_at b) (_next_probe_id b) [] 0.

Definition _reap_expired_probes (now : Z) (b : t) : t :=
  with_probes (_next_probe_id b) (filter (fun pd => now < pd.2) (_active_probes b)) b.

(** The probe branch shared by a breaker already HALF_OPEN and one that just
    became so. *)
Definition claim (cfg : BreakerConfig) (now lease_deadline : Z) (b : t) : t * option permit :=
  let b := _reap_expired_probes now b in
  if half_open_max_probes cfg <=? Z.of_nat (length (_active_probes b)) then (b, None)
  else
    let probe_id := _next_probe_id b + 1 in
    let b := with_probes probe_id (Dict.set probe_id lease_deadline (_active_probes b)) b in
    (b, Some (mk_permit (_epoch b) (Some probe_id) lease_deadline false)).

Definition acquire (cfg : BreakerConfig) (clk : readings) (attempt_deadline : Z) (b : t)
    : t * option permit :=
  let lease_deadline := attempt_deadline + probe_grace_seconds cfg in
  if negb (enabled cfg) then (b, Some (mk_permit (_epoch b) None lease_deadline false))
  else
    let now := clk 0%nat in
    match _state b with
    | CLOSED => (b, Some (mk_permit (_epoch b) None lease_deadline false))
    | OPEN =>
        if now - _opened_at b <? open_seconds cfg then (b, None)
        else claim cfg now lease_deadline (_begin_half_open b)
    | HALF_OPEN => claim cfg now lease_deadline b
    end.

Definition error_rate (cfg : BreakerConfig) (clk : readings) (b : t) : t * (nat * nat) :=
  let b := _evict cfg (clk 0%nat) b in
  match _window b with
  | [] => (b, (0, 1)%nat)
  | w => (b, (Window.failures w, length w))
  end.

Definition _record_closed (cfg : BreakerConfig) (clk : readings) (success : bool) (b : t)
    : t * outcome exn unit :=
  let now := clk 0%nat in
  let b := with_window (Window.push (now, negb success) (_window b)) b in
  let b := _evict cfg now b in
  match Window.over_threshold cfg (_window b) with
  | None => (b, Raise ZeroDivisionError)
  | Some true => (_trip (clk 1%nat) b, Ok tt)
  | Some false => (b, Ok tt)
  end.

(** [_settle] of the breaker; [success = None] is an abandoned permit. *)
Definition _settle (cfg : BreakerConfig) (clk : readings) (epoch : Z) (probe_id : option Z)
    (success : option bool) (b : t) : t * outcome exn unit :=
  if negb (enabled cfg) || negb (epoch =? _epoch b) then (b, Ok tt)
  else match probe_id with
  | None =>
      match _state b, success with
      | CLOSED, Some s => _record_closed cfg clk s b
      | _, _ => (b, Ok tt)
      end
  | Some pid =>
      match _state b with
      | HALF_OPEN =>
          match Dict.get pid (_active_probes b) with
          | None => (b, Ok tt)
          | Some lease_deadline =>
              let b' := with_probes (_next_probe_id b) (Dict.pop pid (_active_probes b)) b in
              if lease_deadline <=? clk 0%nat then (b', Ok tt)
              else match success with
              | None => (b', Ok tt)
              | Some false => (_trip (clk 1%nat) b', Ok tt)
              | Some true =>
                  let b' := with_successes (_probe_successes b' + 1) b' in
                  if half_open_success_quorum cfg <=? _probe_successes b'
                  then (_close b', Ok tt) else (b', Ok tt)
              end
          end
      | _ => (b, Ok tt)
      end
  end.

(** [AvailabilityPermit._settle]: a permit settles once. *)
Definition permit_settle (cfg : BreakerConfig) (clk : readings) (success : option bool)
    (p : permit) (b : t) : permit * t * outcome exn unit :=
  if p_settled p then (p, b, Raise (RuntimeError "availability permit already settled"))
  else
    let p' := mk_permit (p_epoch p) (p_probe_id p) (p_lease_deadline p) true in
    let (b', o) := _settle cfg clk (p_epoch p) (p_probe_id p) success b in
    (p', b', o).

Definition permit_succeed cfg clk := permit_settle cfg clk (Some true).
Definition permit_fail cfg clk := permit_settle cfg clk (Some false).
Definition permit_abandon cfg clk := permit_settle cfg clk None.

(** ** Operations as a step relation *)
Inductive op : Type :=
| Acquire (attempt_deadline : Z)
| Settle (epoch : Z) (probe_id : option Z) (success : option bool)
| ErrorRate.

Definition run_op (cfg : BreakerConfig) (clk : readings) (o : op) (b : t) : t :=
  match o with
  | Acquire d => fst (acquire cfg clk d b)
  | Settle e p s => fst (_settle cfg clk e p s b)
  | ErrorRate => fst (error_rate cfg clk b)
  end.

Fixpoint run_ops (cfg : BreakerConfig) (l : list (readings * op)) (b : t) : t :=
  match l with
  | [] => b
  | (clk, o) :: l => run_ops cfg l (run_op cfg clk o b)
  end.

(** States reached from the constructor, whatever the clock readings. *)
Inductive reachable (cfg : BreakerConfig) : t -> Prop :=
| reach_init b : init cfg = Ok b -> reachable cfg b
| reach_step clk o b : reachable cfg b -> reachable cfg (run_op cfg clk o b).

Record wf (cfg : BreakerConfig) (b : t) : Prop := {
  wf_quorum : 1 <= half_open_success_quorum cfg <= half_open_max_probes cfg;
  wf_window : (length (_window b) <= MAX_WINDOW_ENTRIES)%nat;
  wf_active_len : Z.of_nat (length (_active_probes b)) <= half_open_max_probes cfg;
  wf_active_ids : Forall (fun pd => 1 <= pd.1 <= _next_probe_id b) (_active_probes b);
  wf_active_nodup : NoDup (Dict.keys (_active_probes b));
  wf_next : 0 <= _next_probe_id b;
  wf_idle : _state b <> HALF_OPEN -> _active_probes b = [] /\ _probe_successes b = 0;
  wf_successes : 0 <= _probe_successes b < half_open_success_quorum cfg;
  wf_epoch : 0 <= _epoch b
}.

Lemma avail_init_wf cfg b : init cfg = Ok b -> wf cfg b.
Proof.
  unfold init. repeat case_match; intros [= <-]; zbool.
  split; simpl; auto using NoDup_nil_2; unfold MAX_WINDOW_ENTRIES; lia.
Qed.

Lemma avail_wf_evict cfg now b : wf cfg b -> wf cfg (_evict cfg now b).
Proof.
  intros []. split; simpl; auto. eapply Nat.le_trans; [apply Window.evict_length|done].
Qed.

Lemma avail_wf_fresh cfg b s w o :
  wf cfg b -> (length w <= MAX_WINDOW_ENTRIES)%nat ->
  wf cfg (mk s (_epoch b + 1) w o (_next_probe_id b) [] 0).
Proof. intros [] ?. split; simpl; auto using NoDup_nil_2; lia. Qed.

Lemma avail_wf_drop cfg b a :
  wf cfg b -> a `sublist_of` _active_probes b -> wf cfg (with_probes (_next_probe_id b) a b).
Proof.
  intros [] Hsub. split; simpl; auto.
  - apply sublist_length in Hsub. lia.
  - eapply sublist_Forall'; eauto.
  - eapply sublist_NoDup; [done|]. by apply fmap_sublist.
  - intros Hs. destruct (wf_idle0 Hs) as [Ha ?]. rewrite Ha in Hsub.
    by apply sublist_nil_r in Hsub.
Qed.

Lemma avail_pop_sublist (k : Z) (d : list (Z * Z)) : Dict.pop k d `sublist_of` d.
Proof.
  induction d as [|[k' v] d IH]; simpl; [done|].
  case_decide; [by apply sublist_cons|by apply sublist_skip].
Qed.

Lemma avail_filter_sublist {A} (P : A -> Prop) `{forall x, Decision (P x)} l : filter P l `sublist_of` l.
Proof.
  induction l as [|x l IH]; [done|]. rewrite filter_cons.
  case_decide; [by apply sublist_skip|by apply sublist_cons].
Qed.

Lemma avail_claim_wf cfg now d b :
  wf cfg b -> _state b = HALF_OPEN -> wf cfg (fst (claim cfg now d b)).
Proof.
  intros Hwf Hs. unfold claim.
  assert (wf cfg (_reap_expired_probes now b)) as Hr by (apply avail_wf_drop, avail_filter_sublist; done).
  case_match eqn:E; simpl; [done|]. zbool. destruct Hr as [H1 H2 H3 H4 H5 H6 H7 H8 H9]; simpl in *.
  set (a := filter _ _) in *.
  assert (_next_probe_id b + 1 ∉ Dict.keys a) as Hnew.
  { intros Hin. apply list_elem_of_fmap in Hin as ([k v] & Hk & Hin); simpl in Hk.
    rewrite Forall_forall in H4. specialize (H4 _ Hin). simpl in H4. lia. }
  split; simpl; auto with mote; try lia.
  - rewrite Dict.keys_set_new, length_app by done. simpl. lia.
  - rewrite Dict.keys_set_new by done. apply Forall_app. split; [|repeat constructor; simpl; lia].
    eapply Forall_impl; [exact H4|]. simpl. lia.
  - congruence.
Qed.

Lemma avail_run_op_wf cfg clk o b : wf cfg b -> wf cfg (run_op cfg clk o b).
Proof.
  intros Hwf. assert (forall w, (length w <= MAX_WINDOW_ENTRIES)%nat -> wf cfg (with_window w b)) as Hw.
  { intros w Hl. destruct Hwf. split; simpl; auto. }
  destruct o as [d|e p s|]; simpl.
  - unfold acquire. destruct (enabled cfg); simpl; [|done].
    destruct (_state b) eqn:Hs; simpl; [done| |by apply avail_claim_wf].
    case_match; [done|]. apply avail_claim_wf; [|done]. unfold _begin_half_open.
    apply avail_wf_fresh; [done|apply Hwf].
  - unfold _settle. case_match; simpl; [done|]. destruct p as [pid|].
    + destruct (_state b) eqn:Hs; simpl; [done|done|].
      destruct (Dict.get pid _) as [ld|]; simpl; [|done].
      assert (wf cfg (with_probes (_next_probe_id b) (Dict.pop pid (_active_probes b)) b)) as Hd
        by (apply avail_wf_drop, avail_pop_sublist; done).
      case_match; simpl; [done|]. destruct s as [[]|]; simpl; [|apply (avail_wf_fresh _ _ _ _ _ Hd), Hd|done].
      case_match eqn:Eq; simpl; zbool.
      * apply (avail_wf_fresh _ _ CLOSED [] _ Hd). unfold MAX_WINDOW_ENTRIES; simpl; lia.
      * destruct Hd; split; simpl in *; auto; try lia. congruence.
    + destruct (_state b) eqn:Hs; simpl; [|done..]. destruct s as [s|]; simpl; [|done].
      unfold _record_closed.
      set (b1 := _evict _ _ _). assert (wf cfg b1) as Hb1.
      { apply avail_wf_evict, Hw, Window.push_length, Hwf. }
      destruct (Window.over_threshold _ _) as [[]|]; simpl; [|done..].
      apply avail_wf_fresh; [done|apply Hb1].
  - unfold error_rate. pose proof (avail_wf_evict cfg (clk 0%nat) b Hwf). by destruct (_window _).
Qed.

Lemma avail_reachable_wf cfg b : reachable cfg b -> wf cfg b.
Proof. induction 1; eauto using avail_init_wf, avail_run_op_wf. Qed.

(** *** Epochs *)

Definition same_generation (b b' : t) : Prop := _epoch b' = _epoch b /\ _state b' = _state b.

Lemma claim_epoch cfg now d b : same_generation b (fst (claim cfg now d b)).
Proof. unfold claim. by case_match. Qed.

(** One operation keeps the generation or opens the next ones. *)
Lemma avail_run_op_epoch cfg clk o b :
  same_generation b (run_op cfg clk o b) \/ _epoch b < _epoch (run_op cfg clk o b).
Proof.
  destruct o as [d|e p s|]; simpl.
  - unfold acquire. destruct (enabled cfg); simpl; [|by left].
    destruct (_state b); simpl; [by left| |left; apply claim_epoch].
    case_match; [by left|]. right.
    destruct (claim_epoch cfg (clk 0%nat) (d + probe_grace_seconds cfg) (_begin_half_open b)) as [-> _].
    simpl. lia.
  - unfold _settle. case_match; simpl; [by left|]. destruct p as [pid|].
    + destruct (_state b) eqn:Hs; simpl; [by left..|].
      destruct (Dict.get _ _); simpl; [|by left].
      repeat case_match; simpl; first [by left|right; simpl; lia].
    + destruct (_state b) eqn:Hs; simpl; [|by left..]. destruct s as [s|]; simpl; [|by left].
      unfold _record_closed. destruct (Window.over_threshold _ _) as [[]|]; simpl;
        [right; simpl; lia|by left..].
  - left. unfold error_rate. by destruct (_window _).
Qed.

Lemma run_ops_epoch cfg l b :
  same_generation b (run_ops cfg l b) \/ _epoch b < _epoch (run_ops cfg l b).
Proof.
  revert b. induction l as [|[clk o] l IH]; intros b; simpl; [by left|].
  destruct (avail_run_op_epoch cfg clk o b) as [[E S]|E], (IH (run_op cfg clk o b)) as [[E' S']|E'].
  - left. split; congruence.
  - right. lia.
  - right. lia.
  - right. lia.
Qed.

(** C7: A late result cannot touch a newer generation. If a permit was stamped
    with the epoch of breaker [b] and, after any operations, the breaker is in
    another state, or in the same one but of another epoch, then settling the
    permit with any outcome leaves the breaker exactly as it is. *)
Theorem availability_epoch_fencing cfg l b clk p success :
  p_epoch p = _epoch b -> p_settled p = false ->
  let b' := run_ops cfg l b in
  _state b' <> _state b \/ _epoch b' <> _epoch b ->
  permit_settle cfg clk success p b' =
    (mk_permit (p_epoch p) (p_probe_id p) (p_lease_deadline p) true, b', Ok tt).
Proof.
  intros Hp Hset b' Hne. assert (_epoch b' <> _epoch b) as He.
  { destruct (run_ops_epoch cfg l b) as [[E S]|E]; fold b' in E; [|lia].
    destruct Hne as [Hne|]; [|done]. destruct Hne. exact S. }
  unfold permit_settle, _settle. rewrite Hset.
  rewrite (proj2 (Z.eqb_neq _ _)) by congruence. by rewrite orb_true_r.
Qed.

Definition quick : BreakerConfig := mkBreakerConfig 60 1 (1 # 2) 20 2 2 1 true.
Definition closed0 : t := mk CLOSED 0 [] 0 0 [] 0.
Definition stale : permit := mk_permit 0 None 9 false.

(** A call admitted at epoch 0 reports success after the breaker tripped. *)
Example availability_epoch_fencing_witness :
  _state (run_ops quick [(fun _ => 1, Settle 0 None (Some false))] closed0) = OPEN /\
  (permit_settle quick (fun _ => 2) (Some true) stale
     (run_ops quick [(fun _ => 1, Settle 0 None (Some false))] closed0)).1.2 =
  run_ops quick [(fun _ => 1, Settle 0 None (Some false))] closed0.
Proof.
  split; [vm_compute; reflexivity|].
  rewrite (availability_epoch_fencing quick [(fun _ => 1, Settle 0 None (Some false))]
             closed0 (fun _ => 2) stale (Some true) eq_refl eq_refl).
  - reflexivity.
  - left. vm_compute. discriminate.
Defined.

(** Half-open recovery needs its quorum. From a reachable HALF_OPEN breaker,
    settling a live probe before its lease deadline counts it once: it closes
    the breaker when it completes the quorum, re-opens it on failure, leaves it
    probing otherwise; the same probe, or an expired one, counts for nothing. *)
Theorem availability_probe_settlement cfg clk b pid deadline success :
  reachable cfg b -> enabled cfg = true -> _state b = HALF_OPEN ->
  Dict.get pid (_active_probes b) = Some deadline ->
  let b' := fst (_settle cfg clk (_epoch b) (Some pid) success b) in
  Dict.get pid (_active_probes b') = None /\
  (deadline <= clk 0%nat -> _state b' = HALF_OPEN /\ _probe_successes b' = _probe_successes b) /\
  (clk 0%nat < deadline ->
     (_state b' = CLOSED <->
        success = Some true /\ half_open_success_quorum cfg = _probe_successes b + 1) /\
     (_state b' = OPEN <-> success = Some false) /\
     (_state b' = HALF_OPEN -> _probe_successes b' =
        _probe_successes b + (if success then 1 else 0))).
Proof.
  intros Hr He Hs Hg b'. apply avail_reachable_wf in Hr. destruct Hr as [_ _ _ _ _ _ _ Hk _].
  assert (b' = fst (_settle cfg clk (_epoch b) (Some pid) success b)) as Hb' by done.
  clearbody b'. unfold _settle in Hb'. rewrite He, Z.eqb_refl, Hs, Hg in Hb'; simpl in Hb'.
  destruct (deadline <=? clk 0%nat) eqn:El; zbool.
  - subst b'; simpl. rewrite Dict.get_pop_eq, Hs. split_and!; [done|done|lia].
  - destruct success as [[]|]; [destruct (_ <=? _) eqn:Eq in Hb'| |];
      subst b'; simpl; rewrite ?Dict.get_pop_eq, ?Hs; zbool; simpl in *;
      (split_and!; [done|lia|intros _; split_and!]); try done; try lia; try naive_solver lia.
Qed.

Definition probing : t := mk HALF_OPEN 2 [(1, true)] 1 2 [(1, 40); (2, 41)] 0.

Lemma probing_reachable : reachable quick probing.
Proof.
  assert (probing = run_op quick (fun _ => 22) (Acquire 40)
            (run_op quick (fun _ => 21) (Acquire 39)
              (run_op quick (fun _ => 1) (Settle 0 None (Some false)) closed0))) as -> by reflexivity.
  do 3 apply reach_step. by apply reach_init.
Defined.

Example availability_probe_settlement_witness :
  _state (fst (_settle quick (fun _ => 30) 2 (Some 1) (Some true) probing)) = HALF_OPEN /\
  Dict.get 1 (_active_probes (fst (_settle quick (fun _ => 30) 2 (Some 1) (Some true) probing))) = None.
Proof.
  split; [reflexivity|].
  exact (proj1 (availability_probe_settlement quick (fun _ => 30) probing 1 40 (Some true)
           probing_reachable eq_refl eq_refl eq_refl)).
Defined.

(** C6: Recovery probes cannot be pinned by lost callers. In a reachable,
    enabled breaker the outstanding probes never exceed the limit, and once the
    cool-down and every outstanding lease have expired, [acquire] grants a
    permit of the current epoch. *)
Theorem availability_probes_reclaimed cfg clk d b :
  reachable cfg b ->
  Z.of_nat (length (_active_probes b)) <= half_open_max_probes cfg /\
  (_opened_at b + open_seconds cfg <= clk 0%nat ->
   Forall (fun pd => pd.2 <= clk 0%nat) (_active_probes b) ->
   exists p, snd (acquire cfg clk d b) = Some p /\
             p_epoch p = _epoch (fst (acquire cfg clk d b)) /\ p_settled p = false).
Proof.
  intros Hr%avail_reachable_wf. split; [apply Hr|]. intros Ho Hf. destruct Hr as [Hq _ _ _ _ _ _ _ _].
  assert (forall b0, Forall (fun pd => pd.2 <= clk 0%nat) (_active_probes b0) ->
    exists p, snd (claim cfg (clk 0%nat) (d + probe_grace_seconds cfg) b0) = Some p /\
      p_epoch p = _epoch (fst (claim cfg (clk 0%nat) (d + probe_grace_seconds cfg) b0)) /\
      p_settled p = false) as Hclaim.
  { intros b0 Hb0. unfold claim, _reap_expired_probes; simpl.
    assert (filter (fun pd : Z * Z => clk 0%nat < pd.2) (_active_probes b0) = []) as ->.
    { induction Hb0 as [|x l Hx _ IH]; [done|]. rewrite filter_cons_False by lia. done. }
    simpl. rewrite (proj2 (Z.leb_gt _ _)) by lia. eexists; simpl; eauto. }
  unfold acquire. destruct (enabled cfg); simpl; [|by eexists].
  destruct (_state b); simpl; [by eexists| |auto].
  rewrite (proj2 (Z.ltb_ge _ _)) by lia. apply Hclaim. simpl. constructor.
Qed.

Example availability_probes_reclaimed_witness :
  (exists p, snd (acquire quick (fun _ => 41) 60 probing) = Some p /\ p_settled p = false) /\
  snd (acquire quick (fun _ => 30) 60 probing) = None.
Proof.
  split; [|reflexivity].
  destruct (proj2 (availability_probes_reclaimed quick (fun _ => 41) 60 probing probing_reachable))
    as (p & Hp & _ & Hs); [vm_compute; discriminate|repeat constructor; vm_compute; discriminate|].
  exists p. split; [exact Hp|exact Hs].
Defined.
End AvailabilityBreaker.
