(* ===== verification/Failure.v ===== *)
(** Provider-neutral failures: the disposition contract
    ([contracts/model/failover.py]), the classification of exceptions
    ([runtime/resilience/failover/classification.py], with [is_retryable] of
    [runtime/errors/classification.py]), the default failover policy
    ([runtime/resilience/failover/policy.py]) and the retry delay
    ([runtime/models/clients/retry.py]). *)

From Stdlib Require Import Ascii.
From S2P Require Import Prelude.

Local Open Scope Z_scope.

Inductive FailureReason : Type :=
| CONNECTION | TIMEOUT | RATE_LIMITED | OVERLOADED | SERVER_ERROR | AUTH_REJECTED
| BILLING_EXHAUSTED | MODEL_UNAVAILABLE | CONTEXT_EXCEEDED | PAYLOAD_TOO_LARGE
| IMAGE_TOO_LARGE | PROTOCOL_INCOMPATIBLE | RESPONSE_EMPTY | RESPONSE_UNPARSABLE
| CONTENT_POLICY | UNKNOWN.

Inductive FailureDomain : Type :=
| TRANSPORT | PROVIDER | CREDENTIAL | QUOTA | POLICY | BUDGET | PROTOCOL | INTERNAL.

Inductive Retryability : Type := NEVER | NEW_ATTEMPT | AFTER_HINT | RECONCILE_ONLY.

Inductive HealthVerdict : Type := HV_NEUTRAL | HV_SUCCESS | HV_DEGRADE | HV_OPEN_BREAKER.

Inductive ExternalCommitState : Type := NOT_COMMITTED | COMMITTED | COMMIT_UNKNOWN.

Inductive CredentialVerdict : Type := CV_NEUTRAL | CV_REFRESH | CV_QUARANTINE | CV_REVOKE.

Inductive QuotaObservation : Type := QO_NONE | QO_LIMITS | QO_RETRY_AFTER | QO_EXHAUSTED | QO_MALFORMED.

Inductive ReconcileStrategy : Type :=
| RS_NONE | RS_PROVIDER_QUERY | RS_WEBHOOK | RS_RECEIPT_WAIT | RS_MANUAL.

Inductive UsageObservation : Type :=
| UO_NONE | UO_COMPLETE | UO_PARTIAL | UO_PENDING_RECONCILIATION | UO_MALFORMED.

Inductive HttpCompatibilityClass : Type :=
| HC_TRANSPORT | HC_AUTHENTICATION | HC_PERMISSION | HC_QUOTA | HC_INVALID_REQUEST
| HC_CONFLICT | HC_UNAVAILABLE | HC_INTERNAL.

Inductive DecisionKind : Type :=
| RETRY_SAME_ENDPOINT | ROTATE_CREDENTIAL | TRANSFORM_REQUEST | SWITCH_ENDPOINT | ABORT.

Inductive RequestTransform : Type :=
| COMPRESS | SHRINK_IMAGE | DOWNGRADE_TOOL_CONTENT | STRIP_REQUEST_STATE.

#[export] Instance FailureReason_eq_dec : EqDecision FailureReason.
Proof. solve_decision. Defined.
#[export] Instance FailureDomain_eq_dec : EqDecision FailureDomain.
Proof. solve_decision. Defined.
#[export] Instance Retryability_eq_dec : EqDecision Retryability.
Proof. solve_decision. Defined.
#[export] Instance HealthVerdict_eq_dec : EqDecision HealthVerdict.
Proof. solve_decision. Defined.
#[export] Instance ExternalCommitState_eq_dec : EqDecision ExternalCommitState.
Proof. solve_decision. Defined.
#[export] Instance CredentialVerdict_eq_dec : EqDecision CredentialVerdict.
Proof. solve_decision. Defined.
#[export] Instance QuotaObservation_eq_dec : EqDecision QuotaObservation.
Proof. solve_decision. Defined.
#[export] Instance ReconcileStrategy_eq_dec : EqDecision ReconcileStrategy.
Proof. solve_decision. Defined.
#[export] Instance DecisionKind_eq_dec : EqDecision DecisionKind.
Proof. solve_decision. Defined.

Definition FailureReason_value (r : FailureReason) : string :=
  match r with
  | CONNECTION => "connection" | TIMEOUT => "timeout" | RATE_LIMITED => "rate_limited"
  | OVERLOADED => "overloaded" | SERVER_ERROR => "server_error"
  | AUTH_REJECTED => "auth_rejected" | BILLING_EXHAUSTED => "billing_exhausted"
  | MODEL_UNAVAILABLE => "model_unavailable" | CONTEXT_EXCEEDED => "context_exceeded"
  | PAYLOAD_TOO_LARGE => "payload_too_large" | IMAGE_TOO_LARGE => "image_too_large"
  | PROTOCOL_INCOMPATIBLE => "protocol_incompatible" | RESPONSE_EMPTY => "response_empty"
  | RESPONSE_UNPARSABLE => "response_unparsable" | CONTENT_POLICY => "content_policy"
  | UNKNOWN => "unknown"
  end.

(** The members of [ErrorCode] that the classification names; every other member
    is [OTHER_CODE] with its value. *)
Inductive ErrorCode : Type :=
| LLM_CONNECTION | LLM_TIMEOUT | LLM_RATE_LIMIT | LLM_EMPTY_RESPONSE | LLM_AUTH
| LLM_BAD_REQUEST | LLM_PARSE | LLM_CONTEXT_WINDOW | LLM_PAYLOAD_TOO_LARGE | LLM_BILLING
| LLM_OVERLOADED | LLM_SERVER | LLM_CONTENT_POLICY | LLM_IMAGE_TOO_LARGE
| LLM_MULTIMODAL_TOOL_CONTENT | LLM_INVALID_REQUEST_STATE | LLM_RESOURCE_UNAVAILABLE
| LLM_UNUSABLE_RESPONSE | OTHER_CODE (value : string).

Definition ErrorCode_value (c : ErrorCode) : string :=
  match c with
  | LLM_CONNECTION => "LLM_CONNECTION" | LLM_TIMEOUT => "LLM_TIMEOUT"
  | LLM_RATE_LIMIT => "LLM_RATE_LIMIT" | LLM_EMPTY_RESPONSE => "LLM_EMPTY_RESPONSE"
  | LLM_AUTH => "LLM_AUTH" | LLM_BAD_REQUEST => "LLM_BAD_REQUEST" | LLM_PARSE => "LLM_PARSE"
  | LLM_CONTEXT_WINDOW => "LLM_CONTEXT_WINDOW" | LLM_PAYLOAD_TOO_LARGE => "LLM_PAYLOAD_TOO_LARGE"
  | LLM_BILLING => "LLM_BILLING" | LLM_OVERLOADED => "LLM_OVERLOADED" | LLM_SERVER => "LLM_SERVER"
  | LLM_CONTENT_POLICY => "LLM_CONTENT_POLICY" | LLM_IMAGE_TOO_LARGE => "LLM_IMAGE_TOO_LARGE"
  | LLM_MULTIMODAL_TOOL_CONTENT => "LLM_MULTIMODAL_TOOL_CONTENT"
  | LLM_INVALID_REQUEST_STATE => "LLM_INVALID_REQUEST_STATE"
  | LLM_RESOURCE_UNAVAILABLE => "LLM_RESOURCE_UNAVAILABLE"
  | LLM_UNUSABLE_RESPONSE => "LLM_UNUSABLE_RESPONSE"
  | OTHER_CODE v => v
  end.

(** What the code inspects of an exception: a [MoteError] with its code, marker
    and optional numeric attributes; the standard exceptions it names; and any
    other one, with whether the installed SDKs call it transient. *)
Inductive exc : Type :=
| MoteErr (code : ErrorCode) (retryable : bool) (status_code : option Z) (retry_after : option Z)
| JSONDecodeErr
| ConnectionErr
| TimeoutErr
| ControlFlow
| OtherErr (sdk_transient : bool).

Definition is_retryable (e : exc) : bool :=
  match e with
  | ControlFlow => false
  | MoteErr _ r _ _ => r
  | JSONDecodeErr => true
  | ConnectionErr | TimeoutErr => true
  | OtherErr t => t
  end.

Record FailureDisposition : Type := mkDisposition {
  reason : FailureReason;
  domain : FailureDomain;
  retryability : Retryability;
  health_verdict : HealthVerdict;
  external_commit_state : ExternalCommitState;
  credential_verdict : CredentialVerdict;
  quota_observation : QuotaObservation;
  provider_code : option string;
  safe_message : string;
  reconcile_strategy : ReconcileStrategy;
  usage_observation : UsageObservation;
  http_compatibility_class : HttpCompatibilityClass
}.

(** [_validate_reconciliation]: whether the model is constructed or raises. *)
Definition valid_disposition (d : FailureDisposition) : bool :=
  if decide (external_commit_state d = COMMIT_UNKNOWN) then
    bool_decide (retryability d = RECONCILE_ONLY) &&
    negb (bool_decide (reconcile_strategy d = RS_NONE))
  else negb (bool_decide (retryability d = RECONCILE_ONLY)).

Definition _REASON_BY_CODE (c : ErrorCode) : option FailureReason :=
  match c with
  | LLM_CONNECTION => Some CONNECTION
  | LLM_TIMEOUT => Some TIMEOUT
  | LLM_RATE_LIMIT => Some RATE_LIMITED
  | LLM_OVERLOADED => Some OVERLOADED
  | LLM_SERVER => Some SERVER_ERROR
  | LLM_AUTH => Some AUTH_REJECTED
  | LLM_BILLING => Some BILLING_EXHAUSTED
  | LLM_RESOURCE_UNAVAILABLE => Some MODEL_UNAVAILABLE
  | LLM_CONTEXT_WINDOW => Some CONTEXT_EXCEEDED
  | LLM_PAYLOAD_TOO_LARGE => Some PAYLOAD_TOO_LARGE
  | LLM_IMAGE_TOO_LARGE => Some IMAGE_TOO_LARGE
  | LLM_BAD_REQUEST => Some PROTOCOL_INCOMPATIBLE
  | LLM_MULTIMODAL_TOOL_CONTENT => Some PROTOCOL_INCOMPATIBLE
  | LLM_INVALID_REQUEST_STATE => Some PROTOCOL_INCOMPATIBLE
  | LLM_EMPTY_RESPONSE => Some RESPONSE_EMPTY
  | LLM_UNUSABLE_RESPONSE => Some RESPONSE_EMPTY
  | LLM_PARSE => Some RESPONSE_UNPARSABLE
  | LLM_CONTENT_POLICY => Some CONTENT_POLICY
  | OTHER_CODE _ => None
  end.

Definition _failure_domain (r : FailureReason) : FailureDomain :=
  match r with
  | CONNECTION | TIMEOUT | RATE_LIMITED => TRANSPORT
  | OVERLOADED | SERVER_ERROR | MODEL_UNAVAILABLE => PROVIDER
  | AUTH_REJECTED | BILLING_EXHAUSTED => CREDENTIAL
  | CONTEXT_EXCEEDED | PAYLOAD_TOO_LARGE | IMAGE_TOO_LARGE | PROTOCOL_INCOMPATIBLE => PROTOCOL
  | RESPONSE_EMPTY | RESPONSE_UNPARSABLE | CONTENT_POLICY => PROTOCOL
  | UNKNOWN => INTERNAL
  end.

Definition _retryability (r : FailureReason) (retryable : bool) (code : option ErrorCode)
    : Retryability :=
  if retryable then NEW_ATTEMPT
  else match r with
  | AUTH_REJECTED | BILLING_EXHAUSTED | MODEL_UNAVAILABLE | CONTEXT_EXCEEDED
  | PAYLOAD_TOO_LARGE | IMAGE_TOO_LARGE | RESPONSE_EMPTY => NEW_ATTEMPT
  | _ =>
      match code with
      | Some LLM_MULTIMODAL_TOOL_CONTENT | Some LLM_INVALID_REQUEST_STATE => NEW_ATTEMPT
      | _ => NEVER
      end
  end.

Definition _health_verdict (r : FailureReason) : HealthVerdict :=
  match r with
  | CONNECTION | TIMEOUT | OVERLOADED | SERVER_ERROR => HV_DEGRADE
  | _ => HV_NEUTRAL
  end.

Definition _credential_verdict (r : FailureReason) : CredentialVerdict :=
  match r with
  | AUTH_REJECTED => CV_QUARANTINE
  | BILLING_EXHAUSTED => CV_REVOKE
  | _ => CV_NEUTRAL
  end.

Definition _quota_observation (r : FailureReason) (retry_after : option Z) : QuotaObservation :=
  match r with
  | RATE_LIMITED =>
      match retry_after with
      | Some d => if 0 <? d then QO_RETRY_AFTER else QO_EXHAUSTED
      | None => QO_EXHAUSTED
      end
  | _ => QO_NONE
  end.

Definition _http_class (r : FailureReason) (status_code : option Z) : HttpCompatibilityClass :=
  match r with
  | AUTH_REJECTED => HC_AUTHENTICATION
  | RATE_LIMITED => HC_QUOTA
  | CONTEXT_EXCEEDED | PAYLOAD_TOO_LARGE | IMAGE_TOO_LARGE | PROTOCOL_INCOMPATIBLE =>
      HC_INVALID_REQUEST
  | _ =>
      if match status_code with Some s => 500 <=? s | None => false end then HC_UNAVAILABLE
      else match r with
           | CONNECTION | TIMEOUT => HC_TRANSPORT
           | _ => HC_INTERNAL
           end
  end.

Definition classify_failure (e : exc) : FailureDisposition :=
  match e with
  | MoteErr code retryable status_code retry_after =>
      let r := default UNKNOWN (_REASON_BY_CODE code) in
      mkDisposition r (_failure_domain r) (_retryability r retryable (Some code))
        (_health_verdict r) NOT_COMMITTED (_credential_verdict r)
        (_quota_observation r retry_after) (Some (ErrorCode_value code))
        (FailureReason_value r) RS_NONE UO_NONE (_http_class r status_code)
  | _ =>
      let r := match e with TimeoutErr => TIMEOUT | ConnectionErr => CONNECTION | _ => UNKNOWN end in
      let retryable := is_retryable e in
      mkDisposition r (_failure_domain r) (if retryable then NEW_ATTEMPT else NEVER)
        (if retryable then HV_DEGRADE else HV_NEUTRAL) NOT_COMMITTED CV_NEUTRAL QO_NONE
        None "" RS_NONE UO_NONE HC_INTERNAL
  end.

Record FailoverDecision : Type := mkDecision {
  kind : DecisionKind;
  d_reason : string;
  transform : option RequestTransform;
  delay_seconds : Z
}.

(** [_validate_transform] and the field constraints of [FailoverDecision]. *)
Definition valid_decision (d : FailoverDecision) : bool :=
  negb (bool_decide (d_reason d = "")) && (0 <=? delay_seconds d) &&
  match kind d, transform d with
  | TRANSFORM_REQUEST, Some _ => true
  | TRANSFORM_REQUEST, None => false
  | _, None => true
  | _, Some _ => false
  end.

(** [DefaultFailoverPolicy.decide]. *)
Definition policy_decide (d : FailureDisposition) : FailoverDecision :=
  let r := FailureReason_value (reason d) in
  if decide (retryability d = NEVER) then mkDecision ABORT ("non-retryable:" +:+ r) None 0
  else if decide (domain d = CREDENTIAL) then mkDecision ROTATE_CREDENTIAL r None 0
  else
    let transform :=
      if decide (provider_code d = Some (ErrorCode_value LLM_MULTIMODAL_TOOL_CONTENT))
      then Some DOWNGRADE_TOOL_CONTENT
      else if decide (provider_code d = Some (ErrorCode_value LLM_INVALID_REQUEST_STATE))
      then Some STRIP_REQUEST_STATE
      else match reason d with
           | CONTEXT_EXCEEDED | PAYLOAD_TOO_LARGE => Some COMPRESS
           | IMAGE_TOO_LARGE => Some SHRINK_IMAGE
           | _ => None
           end in
    match transform with
    | Some t => mkDecision TRANSFORM_REQUEST r (Some t) 0
    | None =>
        if bool_decide (retryability d = NEW_ATTEMPT \/ retryability d = AFTER_HINT)
           && bool_decide (domain d = TRANSPORT)
        then mkDecision RETRY_SAME_ENDPOINT r None 0
        else mkDecision SWITCH_ENDPOINT r None 0
    end.

(** [retry_delay], in seconds: attempts are 1-based. *)
Definition MAX_RETRY_AFTER_SECONDS : Z := 300.

Definition retry_delay (retry_after : option Z) (attempt : Z) : Z :=
  let backoff := Z.min (2 ^ Z.max (attempt - 1) 0) 60 in
  match retry_after with
  | Some r => if 0 <? r then Z.min r MAX_RETRY_AFTER_SECONDS else backoff
  | None => backoff
  end.

(** ** Properties *)

Lemma reason_value_nonempty r : FailureReason_value r <> "".
Proof. by destruct r. Qed.

(** A decision aborts exactly on a non-retryable disposition. *)
Lemma policy_abort_iff d : kind (policy_decide d) = ABORT <-> retryability d = NEVER.
Proof.
  unfold policy_decide. case_decide as E; [done|]. case_decide; [done|].
  split; [|done]. repeat case_match; simpl; done.
Qed.

Lemma policy_decision_valid d : valid_decision (policy_decide d) = true.
Proof.
  unfold policy_decide, valid_decision.
  pose proof (reason_value_nonempty (reason d)) as Hne.
  repeat (case_match; simpl); rewrite ?bool_decide_eq_false_2 by done; simpl; done.
Qed.

Lemma retry_delay_bounds ra attempt :
  1 <= retry_delay ra attempt <= MAX_RETRY_AFTER_SECONDS.
Proof.
  assert (1 <= Z.min (2 ^ Z.max (attempt - 1) 0) 60 <= 60) as Hb.
  { pose proof (Z.pow_pos_nonneg 2 (Z.max (attempt - 1) 0) ltac:(lia) ltac:(lia)). lia. }
  unfold retry_delay, MAX_RETRY_AFTER_SECONDS. repeat case_match; zbool; lia.
Qed.

(** Classifying any exception and asking the default policy never fails a
    contract: the disposition and the decision satisfy the validators of their
    models, so neither construction raises. The decision aborts exactly when
    the exception is not retryable and its reason is not one a new attempt can
    repair; a same-endpoint retry is only decided for a transport failure; a
    credential failure of a provider always rotates the credential. *)
Theorem classification_decision_total e :
  let d := classify_failure e in
  valid_disposition d = true /\ valid_decision (policy_decide d) = true /\
  (kind (policy_decide d) = ABORT <->
     is_retryable e = false /\
     match e with
     | MoteErr c _ _ _ =>
         match c with
         | LLM_AUTH | LLM_BILLING | LLM_RESOURCE_UNAVAILABLE | LLM_CONTEXT_WINDOW
         | LLM_PAYLOAD_TOO_LARGE | LLM_IMAGE_TOO_LARGE | LLM_EMPTY_RESPONSE
         | LLM_UNUSABLE_RESPONSE | LLM_MULTIMODAL_TOOL_CONTENT | LLM_INVALID_REQUEST_STATE =>
             False
         | _ => True
         end
     | _ => True
     end) /\
  (kind (policy_decide d) = RETRY_SAME_ENDPOINT -> domain d = TRANSPORT) /\
  (credential_verdict d <> CV_NEUTRAL -> kind (policy_decide d) = ROTATE_CREDENTIAL).
Proof.
  intros d. split_and!; subst d.
  - destruct e as [[] [] ? ?| | | | |[]]; reflexivity.
  - apply policy_decision_valid.
  - rewrite policy_abort_iff. destruct e as [[] [] ? ?| | | | |[]]; simpl; naive_solver.
  - unfold policy_decide. repeat (case_match || case_decide); simpl; try done.
  - destruct e as [[] [] ? ?| | | | |[]]; simpl; try done.
Qed.
(** ** From an HTTP status to a typed error
    ([_map_api_status_error] of [runtime/errors/classification.py]).

    Texts are byte strings; [lower] folds the ASCII letters, the only ones the
    patterns contain. *)
Module HttpErrors.

Definition _BILLING_PATTERNS : list string :=
  ["insufficient credit"; "insufficient_quota"; "insufficient balance"; "credit balance";
   "credits exhausted"; "payment required"; "billing"; "out of funds";
   "exceeded your current quota"; "spending limit"; "key limit exceeded";
   "account is deactivated"].
Definition _CONTENT_POLICY_PATTERNS : list string :=
  ["content policy"; "content_policy"; "content_filter"; "content management policy";
   "responsible ai"; "data_inspection_failed"; "the response was filtered"; "flagged"].
Definition _CONTEXT_WINDOW_PATTERNS : list string :=
  ["context length"; "context_length_exceeded"; "context window"; "maximum context";
   "too many tokens"; "reduce the length"; "string too long"].
Definition _IMAGE_TOO_LARGE_PATTERNS : list string :=
  ["image exceeds"; "image too large"; "image_too_large"; "image size exceeds"].
Definition _MULTIMODAL_TOOL_CONTENT_PATTERNS : list string :=
  ["tool message content must be a string"; "tool content must be a string";
   "tool message must be a string"; "tool_call.content must be string";
   "expected string, got list"; "expected string, got array"].
Definition _INVALID_REQUEST_STATE_PATTERNS : list string :=
  ["invalid encrypted content"; "encrypted content"; "thinking signature";
   "signature is invalid"; "invalid signature"].
Definition _GATEWAY_RELAY_PATTERNS : list string :=
  ["bad_response_status_code"; "bad response status code"].

Definition lower_ascii (c : ascii) : ascii :=
  let n := Ascii.nat_of_ascii c in
  if (65 <=? n)%nat && (n <=? 90)%nat then Ascii.ascii_of_nat (n + 32) else c.

Fixpoint lower (s : string) : string :=
  match s with
  | EmptyString => EmptyString
  | String c s' => String (lower_ascii c) (lower s')
  end.

(** [p in s] *)
Fixpoint contains (p s : string) : bool :=
  String.prefix p s ||
  match s with EmptyString => false | String _ s' => contains p s' end.

Definition _has (low : string) (patterns : list string) : bool :=
  existsb (fun p => contains p low) patterns.

(** The [retryable] marker each error class inherits, by its [default_code]. *)
Definition default_retryable (c : ErrorCode) : bool :=
  match c with
  | LLM_CONNECTION | LLM_TIMEOUT | LLM_RATE_LIMIT | LLM_EMPTY_RESPONSE
  | LLM_OVERLOADED | LLM_SERVER => true
  | _ => false
  end.

(** [status = None]: the exception has no integer status. *)
Definition _map_api_status_error (status : option Z) (message code : string)
    : option ErrorCode :=
  let has := _has (lower (message +:+ " " +:+ code)) in
  match status with
  | None => None
  | Some s =>
    if s =? 401 then
      Some (if has _GATEWAY_RELAY_PATTERNS then LLM_OVERLOADED else LLM_AUTH)
    else if s =? 402 then Some LLM_BILLING
    else if s =? 403 then
      Some (if has _GATEWAY_RELAY_PATTERNS then LLM_OVERLOADED
            else if has _BILLING_PATTERNS then LLM_BILLING else LLM_AUTH)
    else if s =? 404 then
      Some (if has _BILLING_PATTERNS then LLM_BILLING else LLM_BAD_REQUEST)
    else if s =? 413 then
      Some (if has _IMAGE_TOO_LARGE_PATTERNS then LLM_IMAGE_TOO_LARGE else LLM_PAYLOAD_TOO_LARGE)
    else if s =? 429 then
      Some (if has _BILLING_PATTERNS then LLM_BILLING else LLM_RATE_LIMIT)
    else if s =? 400 then
      Some (if has _CONTEXT_WINDOW_PATTERNS then LLM_CONTEXT_WINDOW
            else if has _IMAGE_TOO_LARGE_PATTERNS then LLM_IMAGE_TOO_LARGE
            else if has _MULTIMODAL_TOOL_CONTENT_PATTERNS then LLM_MULTIMODAL_TOOL_CONTENT
            else if has _INVALID_REQUEST_STATE_PATTERNS then LLM_INVALID_REQUEST_STATE
            else if has _CONTENT_POLICY_PATTERNS then LLM_CONTENT_POLICY
            else if has _BILLING_PATTERNS then LLM_BILLING
            else LLM_BAD_REQUEST)
    else if (s =? 500) || (s =? 502) then Some LLM_SERVER
    else if (s =? 503) || (s =? 529) then Some LLM_OVERLOADED
    else if (400 <=? s) && (s <? 500) then
      Some (if has _CONTENT_POLICY_PATTERNS then LLM_CONTENT_POLICY else LLM_BAD_REQUEST)
    else if (500 <=? s) && (s <? 600) then Some LLM_SERVER
    else None
  end.

(** The exception [_classify_api_status_error] raises in place of the provider's,
    with the [Retry-After] value parsed from the response. *)
Definition _classify_api_status_error (status : option Z) (message code : string)
    (retry_after : option Z) : option exc :=
  match _map_api_status_error status message code with
  | Some c => Some (MoteErr c (default_retryable c) status retry_after)
  | None => None
  end.

(** The decision the runtime takes on a provider's HTTP failure. *)
Definition http_decision (status : option Z) (message code : string) (retry_after : option Z)
    : option FailoverDecision :=
  match _classify_api_status_error status message code retry_after with
  | Some e => Some (policy_decide (classify_failure e))
  | None => None
  end.

Lemma map_status_none s m c :
  _map_api_status_error (Some s) m c = None <-> ~ (400 <= s < 600).
Proof.
  unfold _map_api_status_error. split.
  - intros H. repeat case_match; zbool; simplify_eq; try lia.
  - intros H. repeat case_match; zbool; try lia; try done;
      repeat match goal with H : _ || _ = true |- _ => apply orb_true_iff in H as [H|H]; zbool end;
      try lia.
Qed.

(** An HTTP failure of a provider is handled end to end. A status is given a
    typed error exactly when it is in 400..599; every 5xx is retryable and never
    aborts the call; a 401 or 403 whose text carries a relay marker is treated as
    an overloaded upstream and leaves the credential alone, while a 401 or 403
    without one rotates the credential; a 429 keeps the credential unless the
    text says the account is out of funds. *)
Theorem http_status_handling s m c ra :
  let has := _has (lower (m +:+ " " +:+ c)) in
  (http_decision (Some s) m c ra <> None <-> 400 <= s < 600) /\
  (forall d, http_decision (Some s) m c ra = Some d ->
     (500 <= s -> kind d <> ABORT) /\
     (s = 401 \/ s = 403 ->
        (kind d = ROTATE_CREDENTIAL <-> has _GATEWAY_RELAY_PATTERNS = false)) /\
     (s = 429 -> (kind d = ROTATE_CREDENTIAL <-> has _BILLING_PATTERNS = true))).
Proof.
  intros has. split.
  - unfold http_decision, _classify_api_status_error.
    pose proof (map_status_none s m c). destruct (_map_api_status_error _ _ _).
    + assert (~ ~ (400 <= s < 600)) by naive_solver. split; [lia|done].
    + tauto.
  - intros d. unfold http_decision, _classify_api_status_error.
    destruct (_map_api_status_error _ _ _) as [e|] eqn:E; [|done]. intros [= <-].
    unfold _map_api_status_error in E. fold has in E. split_and!.
    + intros Hs. clearbody has. destruct e; try done; exfalso;
        repeat case_match; zbool; simplify_eq; lia.
    + intros Hs. assert (e = LLM_OVERLOADED /\ has _GATEWAY_RELAY_PATTERNS = true \/
        (e = LLM_BILLING \/ e = LLM_AUTH) /\ has _GATEWAY_RELAY_PATTERNS = false) as He.
      { destruct Hs as [-> | ->]; simpl in E; repeat case_match; naive_solver. }
      destruct He as [[-> ->]|[[-> | ->] ->]]; done.
    + intros ->. simpl in E. assert (e = LLM_BILLING /\ has _BILLING_PATTERNS = true \/
        e = LLM_RATE_LIMIT /\ has _BILLING_PATTERNS = false) as He.
      { repeat case_match; naive_solver. }
      destruct He as [[-> ->]|[-> ->]]; done.
Qed.

Example http_status_handling_witness :
  http_decision (Some 401) "Bad Response Status Code" "relay" None <> None /\
  kind <$> http_decision (Some 403) "permission denied" "" None = Some ROTATE_CREDENTIAL.
Proof.
  split.
  - apply (proj2 (proj1 (http_status_handling 401 "Bad Response Status Code" "relay" None))). lia.
  - destruct (http_status_handling 403 "permission denied" "" None) as [_ H].
    destruct (http_decision (Some 403) "permission denied" "" None) as [d|] eqn:E; [|discriminate E].
    destruct (H d eq_refl) as (_ & H403 & _). simpl. f_equal.
    apply H403; [by right|reflexivity].
Defined.

End HttpErrors.
