(* ===== verification/Admission.v ===== *)
(** Resource admission ([runtime/resilience/admission.py]): the controller that
    admits model calls per endpoint, its permits, the quota, quarantine and
    operator state it shares, and the operator audit it is restored from
    ([runtime/resilience/failover/operator.py]). *)

From S2P Require Import Prelude Breaker Availability Failure.

Local Open Scope Z_scope.

Inductive AdmissionGate : Type :=
| G_OPERATOR | G_DEADLINE | G_CREDENTIAL | G_QUOTA | G_AVAILABILITY | G_BULKHEAD.

Inductive OperatorState : Type := OP_ENABLED | OP_DRAINING | OP_DISABLED.

#[export] Instance AdmissionGate_eq_dec : EqDecision AdmissionGate.
Proof. solve_decision. Defined.
#[export] Instance OperatorState_eq_dec : EqDecision OperatorState.
Proof. solve_decision. Defined.

Definition OperatorState_value (s : OperatorState) : string :=
  match s with OP_ENABLED => "enabled" | OP_DRAINING => "draining" | OP_DISABLED => "disabled" end.

Record ResourceIdentity : Type := mkResource {
  endpoint_id : string;
  transport : string;
  endpoint_fingerprint : string;
  model_or_deployment : string;
  tenant_fingerprint : string;
  credential_slot_id : string
}.

#[export] Instance ResourceIdentity_eq_dec : EqDecision ResourceIdentity.
Proof. solve_decision. Defined.

(** The frozen key classes are pairs of their two fields. *)
Definition _AvailabilityKey : Type := string * string.
Definition _CredentialKey : Type := string * string.
Definition _QuotaKey : Type := string * string.

Definition _availability_key (r : ResourceIdentity) : _AvailabilityKey :=
  (endpoint_fingerprint r, model_or_deployment r).
Definition _credential_key (r : ResourceIdentity) : _CredentialKey :=
  (tenant_fingerprint r, credential_slot_id r).
Definition _quota_key (r : ResourceIdentity) : _QuotaKey :=
  (endpoint_fingerprint r, tenant_fingerprint r).

Record OperatorTransition : Type := mkTransition {
  ot_resource : ResourceIdentity;
  ot_previous_state : OperatorState;
  ot_state : OperatorState;
  ot_control_revision : Z;
  ot_config_revision : string;
  ot_actor : string;
  ot_reason : string;
  ot_force : bool;
  ot_in_flight : Z;
  ot_occurred_at : Z
}.

(** The fields' constraints and [_validate_transition]; a time always has a zone. *)
Definition valid_transition (tr : OperatorTransition) : bool :=
  let within s n := (0 <? String.length s)%nat && (String.length s <=? n)%nat in
  (1 <=? ot_control_revision tr) && within (ot_config_revision tr) 256%nat && within (ot_actor tr) 256%nat
  && within (ot_reason tr) 2048%nat && (0 <=? ot_in_flight tr) && bool_decide (ot_previous_state tr <> ot_state tr).

Record OperatorStatus : Type := mkStatus {
  os_resource : ResourceIdentity;
  os_state : OperatorState;
  os_control_revision : Z;
  os_in_flight : Z;
  os_drained : bool
}.

Record AdmissionVerdict : Type := mkVerdict {
  av_gate : AdmissionGate;
  av_reason : string;
  av_resource : ResourceIdentity;
  av_disposition : FailureDisposition
}.

Record ModelQuotaObservation : Type := mkQuotaObs {
  qo_remaining_requests : option Z;
  qo_reset_requests_after_seconds : option Z;
  qo_remaining_tokens : option Z;
  qo_reset_tokens_after_seconds : option Z;
  qo_retry_after_seconds : option Z
}.

Record _QuotaState : Type := mkQuota {
  remaining_requests : option Z;
  reset_requests_at : option Z;
  remaining_tokens : option Z;
  reset_tokens_at : option Z;
  request_reservations : Z
}.

Module ResourceAdmissionController.

Inductive exn : Type :=
| ValueError (message : string)
| RuntimeError (message : string)
| ZeroDivisionError
| OperatorAuditRequiredError
| OperatorRevisionConflict
| OperatorDrainIncompleteError
| OperatorAuditIntegrityError (message : string)
| AuditAppendError.

Definition of_breaker (e : AvailabilityBreaker.exn) : exn :=
  match e with
  | AvailabilityBreaker.ValueError m => ValueError m
  | AvailabilityBreaker.RuntimeError m => RuntimeError m
  | AvailabilityBreaker.ZeroDivisionError => ZeroDivisionError
  end.

(** The constructor's arguments. *)
Record config : Type := mkConfig {
  _breaker_config : BreakerConfig;
  _max_in_flight : Z;
  _credential_quarantine_seconds : Z;
  _default_quota_cooldown_seconds : Z;
  has_audit : bool
}.

(** The controller's attributes. An [asyncio.Event] is its flag. *)
Record t : Type := mk {
  _operator_states : gmap _AvailabilityKey OperatorState;
  _operator_revisions : gmap _AvailabilityKey Z;
  _drain_events : gmap _AvailabilityKey bool;
  _breakers : gmap _AvailabilityKey AvailabilityBreaker.t;
  _credential_quarantine : gmap _CredentialKey Z;
  _quota_cooldown : gmap _QuotaKey Z;
  _quota_states : gmap _QuotaKey _QuotaState;
  _in_flight : gmap _AvailabilityKey Z
}.

Definition with_operator os rv (c : t) : t :=
  mk os rv (_drain_events c) (_breakers c) (_credential_quarantine c) (_quota_cooldown c)
     (_quota_states c) (_in_flight c).
Definition with_events ev (c : t) : t :=
  mk (_operator_states c) (_operator_revisions c) ev (_breakers c) (_credential_quarantine c)
     (_quota_cooldown c) (_quota_states c) (_in_flight c).
Definition with_breakers br (c : t) : t :=
  mk (_operator_states c) (_operator_revisions c) (_drain_events c) br (_credential_quarantine c)
     (_quota_cooldown c) (_quota_states c) (_in_flight c).
Definition with_quarantine cq (c : t) : t :=
  mk (_operator_states c) (_operator_revisions c) (_drain_events c) (_breakers c) cq
     (_quota_cooldown c) (_quota_states c) (_in_flight c).
Definition with_cooldown qc (c : t) : t :=
  mk (_operator_states c) (_operator_revisions c) (_drain_events c) (_breakers c)
     (_credential_quarantine c) qc (_quota_states c) (_in_flight c).
Definition with_quota qs (c : t) : t :=
  mk (_operator_states c) (_operator_revisions c) (_drain_events c) (_breakers c)
     (_credential_quarantine c) (_quota_cooldown c) qs (_in_flight c).
Definition with_in_flight fl (c : t) : t :=
  mk (_operator_states c) (_operator_revisions c) (_drain_events c) (_breakers c)
     (_credential_quarantine c) (_quota_cooldown c) (_quota_states c) fl.

Definition operator_state (k : _AvailabilityKey) (c : t) : OperatorState :=
  default OP_ENABLED (_operator_states c !! k).
Definition operator_revision (k : _AvailabilityKey) (c : t) : Z :=
  default 0 (_operator_revisions c !! k).
Definition in_flight (k : _AvailabilityKey) (c : t) : Z := default 0 (_in_flight c !! k).

(** [_ResourceAdmissionPermit]; its availability permit points to the breaker
    the controller keeps under the same key. *)
Record permit : Type := mk_permit {
  rp_availability_key : _AvailabilityKey;
  rp_credential_key : _CredentialKey;
  rp_quota_key : _QuotaKey;
  rp_availability_permit : AvailabilityBreaker.permit;
  rp_quota_reserved : bool;
  rp_settled : bool
}.

Inductive AdmissionResult : Type :=
| Admission (p : permit)
| Rejection (v : AdmissionVerdict).

(** [_update_drain_event] *)
Definition _update_drain_event (k : _AvailabilityKey) (c : t) : t :=
  match _drain_events c !! k with
  | None => c
  | Some _ =>
      with_events (<[k := bool_decide (operator_state k c <> OP_ENABLED) &&
                          (in_flight k c =? 0)]> (_drain_events c)) c
  end.

Definition operator_status (r : ResourceIdentity) (c : t) : OperatorStatus :=
  let k := _availability_key r in
  let state := operator_state k c in
  let n := in_flight k c in
  mkStatus r state (operator_revision k c) n (bool_decide (state <> OP_ENABLED) && (n =? 0)).

(** [transition_operator_state]. [append] is what the audit store's [append] does:
    return ([None]) or raise; the transition it was given comes back beside the
    outcome, as the store may have recorded it either way. *)
Definition transition_operator_state (cfg : config) (append : option exn) (r : ResourceIdentity)
    (state : OperatorState) (expected_revision : Z) (config_revision actor reason : string)
    (force : bool) (now : Z) (c : t) : t * option OperatorTransition * outcome exn OperatorTransition :=
  if negb (has_audit cfg) then (c, None, Raise OperatorAuditRequiredError)
  else
    let k := _availability_key r in
    let previous := operator_state k c in
    let revision := operator_revision k c in
    if negb (expected_revision =? revision) then (c, None, Raise OperatorRevisionConflict)
    else if decide (state = previous) then
      (c, None, Raise (ValueError "operator transition must change state"))
    else if bool_decide (previous = OP_DISABLED) && bool_decide (state = OP_DRAINING) then
      (c, None, Raise (ValueError "disabled endpoint must be enabled before draining"))
    else
      let n := in_flight k c in
      if bool_decide (state = OP_DISABLED) && (0 <? n) && negb force then
        (c, None, Raise OperatorDrainIncompleteError)
      else
        let transition :=
          mkTransition r previous state (revision + 1) config_revision actor reason force n now in
        if negb (valid_transition transition) then (c, None, Raise (ValueError "operator transition is invalid"))
        else match append with
        | Some e => (c, Some transition, Raise e)
        | None =>
            let c := with_operator (<[k := state]> (_operator_states c))
                       (<[k := ot_control_revision transition]> (_operator_revisions c)) c in
            (_update_drain_event k c, Some transition, Ok transition)
        end.

(** [wait_drained] up to its [await]: whether it returns at once ([Ok (Some
    status)]) or waits for the event ([Ok None]). *)
Definition wait_drained (r : ResourceIdentity) (timeout_seconds : option Z) (c : t)
    : t * outcome exn (option OperatorStatus) :=
  let k := _availability_key r in
  if match timeout_seconds with Some s => s <=? 0 | None => false end then
    (c, Raise (ValueError "timeout_seconds must be positive"))
  else if decide (operator_state k c = OP_ENABLED) then
    (c, Raise (ValueError "endpoint must be draining or disabled before waiting"))
  else
    let c := match _drain_events c !! k with
             | Some _ => c
             | None => with_events (<[k := false]> (_drain_events c)) c
             end in
    let c := _update_drain_event k c in
    (c, Ok (if default false (_drain_events c !! k) then Some (operator_status r c) else None)).

Definition empty_quota : _QuotaState := mkQuota None None None None 0.

(** [observe_quota] *)
Definition observe_quota (cfg : config) (now : Z) (r : ResourceIdentity)
    (o : ModelQuotaObservation) (c : t) : t :=
  let qk := _quota_key r in
  let s := default empty_quota (_quota_states c !! qk) in
  let cool := now + _default_quota_cooldown_seconds cfg in
  let rr := match qo_remaining_requests o with Some n => Some n | None => remaining_requests s end in
  let ra := match qo_reset_requests_after_seconds o, qo_remaining_requests o with
            | Some d, _ => Some (now + d)
            | None, Some n => if n =? 0 then Some cool else reset_requests_at s
            | None, None => reset_requests_at s
            end in
  let tr := match qo_remaining_tokens o with Some n => Some n | None => remaining_tokens s end in
  let ta := match qo_reset_tokens_after_seconds o, qo_remaining_tokens o with
            | Some d, _ => Some (now + d)
            | None, Some n => if n =? 0 then Some cool else reset_tokens_at s
            | None, None => reset_tokens_at s
            end in
  let c := with_quota (<[qk := mkQuota rr ra tr ta (request_reservations s)]> (_quota_states c)) c in
  let positive q := match q with Some n => 0 <? n | None => false end in
  match qo_retry_after_seconds o with
  | Some d => with_cooldown (<[qk := now + d]> (_quota_cooldown c)) c
  | None =>
      if positive (qo_remaining_requests o) || positive (qo_remaining_tokens o)
      then with_cooldown (delete qk (_quota_cooldown c)) c
      else c
  end.

(** [_reject]: the disposition carries the model's defaults elsewhere. *)
Definition _reject (g : AdmissionGate) (why : string) (r : ResourceIdentity)
    (fr : FailureReason) (d : FailureDomain) (ry : Retryability) (hv : HealthVerdict)
    (cv : CredentialVerdict) (qo : QuotaObservation) : AdmissionResult :=
  Rejection (mkVerdict g why r
    (mkDisposition fr d ry hv NOT_COMMITTED cv qo None "" RS_NONE UO_NONE HC_INTERNAL)).

Definition _reject_quota_exhausted (r : ResourceIdentity) (why : string) : AdmissionResult :=
  _reject G_QUOTA why r RATE_LIMITED QUOTA AFTER_HINT HV_NEUTRAL CV_NEUTRAL QO_RETRY_AFTER.

(** [_refresh_quota_state] *)
Definition _refresh_quota_state (s : _QuotaState) (now : Z) : _QuotaState :=
  let due at_ := match at_ with Some a => a <=? now | None => false end in
  let s := if due (reset_requests_at s)
           then mkQuota None None (remaining_tokens s) (reset_tokens_at s) (request_reservations s)
           else s in
  if due (reset_tokens_at s)
  then mkQuota (remaining_requests s) (reset_requests_at s) None None (request_reservations s)
  else s.

Definition _reserve_quota (qk : _QuotaKey) (c : t) : t * bool :=
  match _quota_states c !! qk with
  | None => (c, false)
  | Some s =>
      match remaining_requests s with
      | None => (c, false)
      | Some _ =>
          (with_quota (<[qk := mkQuota (remaining_requests s) (reset_requests_at s)
                                 (remaining_tokens s) (reset_tokens_at s)
                                 (request_reservations s + 1)]> (_quota_states c)) c, true)
      end
  end.

(** The quota-state gate of [acquire]: refresh, then the two exhaustion tests. *)
Definition quota_gate (now : Z) (r : ResourceIdentity) (c : t) : t * option AdmissionResult :=
  let qk := _quota_key r in
  match _quota_states c !! qk with
  | None => (c, None)
  | Some s =>
      let s := _refresh_quota_state s now in
      let c := with_quota (<[qk := s]> (_quota_states c)) c in
      if match remaining_requests s with
         | Some n => n - request_reservations s <=? 0
         | None => false
         end
      then (c, Some (_reject_quota_exhausted r "request quota exhausted"))
      else if match remaining_tokens s with Some n => n =? 0 | None => false end
      then (c, Some (_reject_quota_exhausted r "token quota exhausted"))
      else (c, None)
  end.

(** [acquire]. The controller's own reading is [clk 0]; the breaker's [acquire]
    reads from 1 on and an abandoned availability permit from 2 on (a branch that
    reads less leaves its index unused). *)
Definition acquire (cfg : config) (clk : readings) (r : ResourceIdentity)
    (remaining_seconds : Z) (c : t) : t * outcome exn AdmissionResult :=
  let now := clk 0%nat in
  let ak := _availability_key r in
  let ck := _credential_key r in
  let qk := _quota_key r in
  let state := operator_state ak c in
  if decide (state <> OP_ENABLED) then
    (c, Ok (_reject G_OPERATOR (OperatorState_value state) r MODEL_UNAVAILABLE PROVIDER
              NEW_ATTEMPT HV_NEUTRAL CV_NEUTRAL QO_NONE))
  else if remaining_seconds <=? 0 then
    (c, Ok (_reject G_DEADLINE "logical deadline exhausted" r TIMEOUT TRANSPORT NEVER
              HV_NEUTRAL CV_NEUTRAL QO_NONE))
  else if now <? default 0 (_credential_quarantine c !! ck) then
    (c, Ok (_reject G_CREDENTIAL "credential quarantined" r AUTH_REJECTED CREDENTIAL AFTER_HINT
              HV_NEUTRAL CV_QUARANTINE QO_NONE))
  else if now <? default 0 (_quota_cooldown c !! qk) then
    (c, Ok (_reject G_QUOTA "quota cooldown active" r RATE_LIMITED QUOTA AFTER_HINT
              HV_NEUTRAL CV_NEUTRAL QO_RETRY_AFTER))
  else
    let (c, quota) := quota_gate now r c in
    match quota with
    | Some res => (c, Ok res)
    | None =>
      match match _breakers c !! ak with
            | Some b => Ok b
            | None => AvailabilityBreaker.init (_breaker_config cfg)
            end with
      | Raise e => (c, Raise (of_breaker e))
      | Ok b =>
        let (b, ap) := AvailabilityBreaker.acquire (_breaker_config cfg) (later 1 clk)
                         (now + remaining_seconds) b in
        let c := with_breakers (<[ak := b]> (_breakers c)) c in
        match ap with
        | None =>
            (c, Ok (_reject G_AVAILABILITY
                      (match AvailabilityBreaker._state b with
                       | HALF_OPEN => "availability recovery probes saturated"
                       | _ => "availability breaker open"
                       end) r MODEL_UNAVAILABLE PROVIDER NEW_ATTEMPT HV_OPEN_BREAKER
                      CV_NEUTRAL QO_NONE))
        | Some ap =>
            let n := in_flight ak c in
            if _max_in_flight cfg <=? n then
              let '(_, b, o) :=
                AvailabilityBreaker.permit_abandon (_breaker_config cfg) (later 2 clk) ap b in
              let c := with_breakers (<[ak := b]> (_breakers c)) c in
              match o with
              | Raise e => (c, Raise (of_breaker e))
              | Ok _ =>
                  (c, Ok (_reject G_BULKHEAD "endpoint concurrency limit reached" r OVERLOADED
                            PROVIDER NEW_ATTEMPT HV_NEUTRAL CV_NEUTRAL QO_NONE))
              end
            else
              let c := with_in_flight (<[ak := n + 1]> (_in_flight c)) c in
              let (c, reserved) := _reserve_quota qk c in
              (c, Ok (Admission (mk_permit ak ck qk ap reserved false)))
        end
      end
    end.

(** Release of the slot, the drain event and the reservation: the part of
    [_settle] every settlement performs. *)
Definition release (ak : _AvailabilityKey) (qk : _QuotaKey) (quota_reserved : bool) (c : t) : t :=
  let n := in_flight ak c in
  let c := with_in_flight
             (if n <=? 1 then delete ak (_in_flight c) else <[ak := n - 1]> (_in_flight c)) c in
  let c := _update_drain_event ak c in
  if quota_reserved then
    match _quota_states c !! qk with
    | None => c
    | Some s =>
        with_quota (<[qk := mkQuota (remaining_requests s) (reset_requests_at s)
                              (remaining_tokens s) (reset_tokens_at s)
                              (Z.max (request_reservations s - 1) 0)]> (_quota_states c)) c
    end
  else c.

Inductive settlement : Type := Succeeded | Failed (d : FailureDisposition) | Abandoned.

(** What a settlement tells the breaker: [None] abandons. *)
Definition breaker_verdict (s : settlement) : option bool :=
  match s with
  | Succeeded => Some true
  | Abandoned => None
  | Failed d =>
      match health_verdict d with
      | HV_DEGRADE | HV_OPEN_BREAKER => Some false
      | _ => None
      end
  end.

(** The credential and quota consequences, applied after the breaker returned. *)
Definition consequences (cfg : config) (now : Z) (ck : _CredentialKey) (qk : _QuotaKey)
    (s : settlement) (c : t) : t :=
  match s with
  | Abandoned => c
  | Succeeded => with_quarantine (delete ck (_credential_quarantine c)) c
  | Failed d =>
      match credential_verdict d with
      | CV_QUARANTINE | CV_REVOKE =>
          with_quarantine
            (<[ck := now + _credential_quarantine_seconds cfg]> (_credential_quarantine c)) c
      | _ =>
          match quota_observation d with
          | QO_RETRY_AFTER | QO_EXHAUSTED =>
              with_cooldown
                (<[qk := now + _default_quota_cooldown_seconds cfg]> (_quota_cooldown c)) c
          | _ => c
          end
      end
  end.

(** [ResourceAdmissionController._settle]: [clk 0] is [now] of the failure branch,
    the breaker reads from 1 on. *)
Definition _settle (cfg : config) (clk : readings) (p : permit) (s : settlement) (c : t)
    : t * AvailabilityBreaker.permit * outcome exn unit :=
  let ak := rp_availability_key p in
  let c := release ak (rp_quota_key p) (rp_quota_reserved p) c in
  match _breakers c !! ak with
  | None => (c, rp_availability_permit p, Ok tt)
  | Some b =>
      let '(ap, b, o) :=
        AvailabilityBreaker.permit_settle (_breaker_config cfg) (later 1 clk)
          (breaker_verdict s) (rp_availability_permit p) b in
      let c := with_breakers (<[ak := b]> (_breakers c)) c in
      match o with
      | Raise e => (c, ap, Raise (of_breaker e))
      | Ok _ => (consequences cfg (clk 0%nat) (rp_credential_key p) (rp_quota_key p) s c, ap, Ok tt)
      end
  end.

(** [_ResourceAdmissionPermit._settle], behind [succeed], [fail] and [abandon]. *)
Definition permit_settle (cfg : config) (clk : readings) (s : settlement) (p : permit) (c : t)
    : permit * t * outcome exn unit :=
  if rp_settled p then
    (p, c, Raise (RuntimeError "resource admission permit already settled"))
  else
    let '(c, ap, o) := _settle cfg clk p s c in
    (mk_permit (rp_availability_key p) (rp_credential_key p) (rp_quota_key p) ap
       (rp_quota_reserved p) true, c, o).

(** [_restore_operator_audit] over the records the store returned. *)
Fixpoint _restore_operator_audit (records : list OperatorTransition) (c : t) : t * outcome exn unit :=
  match records with
  | [] => (c, Ok tt)
  | tr :: rest =>
      let k := _availability_key (ot_resource tr) in
      if bool_decide (ot_previous_state tr <> operator_state k c)
         || negb (ot_control_revision tr =? operator_revision k c + 1)
      then (c, Raise (OperatorAuditIntegrityError "operator audit transition sequence is inconsistent"))
      else _restore_operator_audit rest
             (with_operator (<[k := ot_state tr]> (_operator_states c))
                (<[k := ot_control_revision tr]> (_operator_revisions c)) c)
  end.

Definition empty : t := mk ∅ ∅ ∅ ∅ ∅ ∅ ∅ ∅.

(** [__init__], with the records of the audit store when there is one. *)
Definition init (cfg : config) (records : list OperatorTransition) : outcome exn t :=
  if _max_in_flight cfg <=? 0 then
    Raise (ValueError "max_in_flight_per_endpoint must be positive")
  else if has_audit cfg then
    let (c, o) := _restore_operator_audit records empty in
    match o with Ok _ => Ok c | Raise e => Raise e end
  else Ok empty.

(** ** The controller with the permits it handed out and its audit store *)

Record world : Type := mkWorld {
  ctl : t;
  permits : list permit;
  audit : list OperatorTransition
}.

(** One call by a client. A failing [append] of the audit store raises; [recorded]
    says whether its record is in the store all the same. *)
Inductive op : Type :=
| Acquire (clk : readings) (r : ResourceIdentity) (remaining_seconds : Z)
| Settle (clk : readings) (i : nat) (s : settlement)
| Transition (append : option exn) (recorded : bool) (r : ResourceIdentity) (s : OperatorState)
    (expected_revision : Z) (config_revision actor reason : string) (force : bool) (now : Z)
| ObserveQuota (now : Z) (r : ResourceIdentity) (o : ModelQuotaObservation)
| WaitDrained (r : ResourceIdentity) (timeout_seconds : option Z).

Definition stored (append : option exn) (recorded : bool) (tr : option OperatorTransition)
    : list OperatorTransition :=
  match tr, append with
  | Some tr, None => [tr]
  | Some tr, Some _ => if recorded then [tr] else []
  | None, _ => []
  end.

Definition run_op (cfg : config) (o : op) (w : world) : world :=
  match o with
  | Acquire clk r rem =>
      let (c, res) := acquire cfg clk r rem (ctl w) in
      mkWorld c (permits w ++ match res with Ok (Admission p) => [p] | _ => [] end) (audit w)
  | Settle clk i s =>
      match permits w !! i with
      | None => w
      | Some p =>
          let '(p, c, _) := permit_settle cfg clk s p (ctl w) in
          mkWorld c (<[i := p]> (permits w)) (audit w)
      end
  | Transition append recorded r s rev crev actor why force now =>
      let '(c, tr, _) :=
        transition_operator_state cfg append r s rev crev actor why force now (ctl w) in
      mkWorld c (permits w) (audit w ++ stored append recorded tr)
  | ObserveQuota now r o => mkWorld (observe_quota cfg now r o (ctl w)) (permits w) (audit w)
  | WaitDrained r timeout => mkWorld (fst (wait_drained r timeout (ctl w))) (permits w) (audit w)
  end.

Inductive reachable (cfg : config) : world -> Prop :=
| reach_init records c : init cfg records = Ok c -> reachable cfg (mkWorld c [] records)
| reach_step o w : reachable cfg w -> reachable cfg (run_op cfg o w).

Definition holds (k : _AvailabilityKey) (p : permit) : bool :=
  negb (rp_settled p) && bool_decide (rp_availability_key p = k).

Definition reserves (q : _QuotaKey) (p : permit) : bool :=
  negb (rp_settled p) && rp_quota_reserved p && bool_decide (rp_quota_key p = q).

Definition reservations (q : _QuotaKey) (c : t) : Z :=
  match _quota_states c !! q with Some s => request_reservations s | None => 0 end.

Definition drained (k : _AvailabilityKey) (c : t) : bool :=
  bool_decide (operator_state k c <> OP_ENABLED) && (in_flight k c =? 0).

Record wf (cfg : config) (w : world) : Prop := {
  wf_in_flight k : in_flight k (ctl w) = count_if (holds k) (permits w);
  wf_bulkhead k : in_flight k (ctl w) <= _max_in_flight cfg;
  wf_reservations q : reservations q (ctl w) = count_if (reserves q) (permits w);
  wf_events k : from_option (fun e => e = drained k (ctl w)) True (_drain_events (ctl w) !! k);
  wf_breakers : map_Forall (fun _ b => AvailabilityBreaker.reachable (_breaker_config cfg) b)
                  (_breakers (ctl w));
  wf_permits : Forall (fun p => rp_settled p = false ->
                 AvailabilityBreaker.p_settled (rp_availability_permit p) = false /\
                 is_Some (_breakers (ctl w) !! rp_availability_key p)) (permits w)
}.

(** *** Frame facts of the parts of an operation *)

Lemma update_drain_event_in_flight k k' c : in_flight k' (_update_drain_event k c) = in_flight k' c.
Proof. unfold _update_drain_event. by case_match. Qed.

Lemma update_drain_event_state k k' c :
  operator_state k' (_update_drain_event k c) = operator_state k' c.
Proof. unfold _update_drain_event. by case_match. Qed.

Lemma update_drain_event_events k c :
  (forall k', k' <> k ->
     from_option (fun e => e = drained k' c) True (_drain_events c !! k')) ->
  forall k', from_option (fun e => e = drained k' (_update_drain_event k c)) True
               (_drain_events (_update_drain_event k c) !! k').
Proof.
  intros H k'. unfold drained. rewrite update_drain_event_in_flight, update_drain_event_state.
  unfold _update_drain_event. destruct (decide (k' = k)) as [->|Hne].
  - destruct (_drain_events c !! k) eqn:E; simpl; [by rewrite lookup_insert_eq|by rewrite E].
  - destruct (_drain_events c !! k); simpl; [rewrite lookup_insert_ne by done|]; by apply H.
Qed.

Lemma update_drain_event_rest k c :
  _breakers (_update_drain_event k c) = _breakers c /\
  _quota_states (_update_drain_event k c) = _quota_states c /\
  _operator_states (_update_drain_event k c) = _operator_states c /\
  _operator_revisions (_update_drain_event k c) = _operator_revisions c.
Proof. unfold _update_drain_event. by case_match. Qed.

Lemma refresh_reservations s now :
  request_reservations (_refresh_quota_state s now) = request_reservations s.
Proof. unfold _refresh_quota_state. by repeat (case_match; simpl). Qed.

Lemma in_flight_ext k c c' : _in_flight c' = _in_flight c -> in_flight k c' = in_flight k c.
Proof. unfold in_flight. by intros ->. Qed.

Lemma holds_settled k p ap :
  holds k (mk_permit (rp_availability_key p) (rp_credential_key p) (rp_quota_key p) ap
             (rp_quota_reserved p) true) = false.
Proof. done. Qed.

Lemma drained_ext k c c' :
  _operator_states c' = _operator_states c -> _in_flight c' = _in_flight c ->
  drained k c' = drained k c.
Proof. unfold drained, operator_state, in_flight. by intros -> ->. Qed.

(** An operation that touches neither permits nor what the invariant counts. *)
Lemma wf_frame cfg w c l :
  wf cfg w ->
  _in_flight c = _in_flight (ctl w) ->
  (forall q, reservations q c = reservations q (ctl w)) ->
  (forall k, from_option (fun e => e = drained k c) True (_drain_events c !! k)) ->
  map_Forall (fun _ b => AvailabilityBreaker.reachable (_breaker_config cfg) b) (_breakers c) ->
  (forall k, is_Some (_breakers (ctl w) !! k) -> is_Some (_breakers c !! k)) ->
  wf cfg (mkWorld c (permits w) l).
Proof.
  intros [Hf Hb Hr He Hbr Hp] Ef Er Ee Eb Es. split; simpl; try done.
  - intros k. by rewrite (in_flight_ext k (ctl w) c).
  - intros k. by rewrite (in_flight_ext k (ctl w) c).
  - intros q. by rewrite Er.
  - eapply Forall_impl; [done|]. naive_solver.
Qed.

Lemma init_wf cfg records c : init cfg records = Ok c -> wf cfg (mkWorld c [] records).
Proof.
  assert (forall rs c, _drain_events c = ∅ -> _in_flight c = ∅ -> _quota_states c = ∅ ->
    _breakers c = ∅ -> let c' := fst (_restore_operator_audit rs c) in
    _drain_events c' = ∅ /\ _in_flight c' = ∅ /\ _quota_states c' = ∅ /\ _breakers c' = ∅) as Hres.
  { induction rs as [|tr rs IH]; intros c0 ????; simpl; [done|]. case_match; [done|].
    by apply IH. }
  unfold init. destruct (_max_in_flight cfg <=? 0) eqn:Em; [done|]. zbool.
  assert (forall c, _drain_events c = ∅ -> _in_flight c = ∅ -> _quota_states c = ∅ ->
    _breakers c = ∅ -> wf cfg (mkWorld c [] records)) as Hwf.
  { intros c0 E1 E2 E3 E4. split; simpl; unfold in_flight, reservations.
    - intros k. by rewrite E2, lookup_empty.
    - intros k. rewrite E2, lookup_empty; simpl. lia.
    - intros q. by rewrite E3, lookup_empty.
    - intros k. by rewrite E1, lookup_empty.
    - rewrite E4. apply map_Forall_empty.
    - constructor. }
  destruct (has_audit cfg).
  - pose proof (Hres records empty eq_refl eq_refl eq_refl eq_refl) as Hc.
    destruct (_restore_operator_audit records empty) as [c0 []]; [|done].
    intros [= ->]. by apply Hwf; apply Hc.
  - intros [= <-]. by apply Hwf.
Qed.

Lemma quota_gate_frame now r c :
  let c' := fst (quota_gate now r c) in
  _in_flight c' = _in_flight c /\ _operator_states c' = _operator_states c /\
  _operator_revisions c' = _operator_revisions c /\
  _drain_events c' = _drain_events c /\ _breakers c' = _breakers c /\
  (forall q, reservations q c' = reservations q c).
Proof.
  unfold quota_gate. destruct (_quota_states c !! _quota_key r) as [s|] eqn:E; [|done].
  assert (forall q, reservations q (with_quota (<[_quota_key r := _refresh_quota_state s now]>
            (_quota_states c)) c) = reservations q c) as Hq.
  { intros q. unfold reservations; simpl. destruct (decide (q = _quota_key r)) as [->|].
    - rewrite lookup_insert_eq, E. apply refresh_reservations.
    - by rewrite lookup_insert_ne by done. }
  destruct (remaining_requests _); repeat case_match; simpl; auto 10.
Qed.

Lemma reserve_quota_frame qk c :
  let c' := fst (_reserve_quota qk c) in
  _in_flight c' = _in_flight c /\
  (_operator_states c' = _operator_states c /\ _operator_revisions c' = _operator_revisions c) /\
  _drain_events c' = _drain_events c /\ _breakers c' = _breakers c /\
  (forall q, reservations q c' =
     reservations q c + Z.b2z (snd (_reserve_quota qk c) && bool_decide (qk = q))).
Proof.
  unfold _reserve_quota.
  destruct (_quota_states c !! qk) as [s|] eqn:E; [|simpl; split_and!; auto; intros; lia].
  destruct (remaining_requests s) eqn:Er; [|simpl; split_and!; auto; intros; lia].
  simpl. split_and!; auto. intros q. unfold reservations; simpl.
  destruct (decide (qk = q)) as [<-|].
  - rewrite lookup_insert_eq, E, bool_decide_eq_true_2 by done. simpl. lia.
  - rewrite lookup_insert_ne, bool_decide_eq_false_2 by done. simpl. lia.
Qed.

Lemma breaker_acquire_unsettled bc clk d b p :
  snd (AvailabilityBreaker.acquire bc clk d b) = Some p -> AvailabilityBreaker.p_settled p = false.
Proof.
  unfold AvailabilityBreaker.acquire, AvailabilityBreaker.claim. repeat case_match; naive_solver.
Qed.

Lemma breaker_settle_reachable bc clk s p b :
  AvailabilityBreaker.reachable bc b ->
  AvailabilityBreaker.reachable bc (AvailabilityBreaker.permit_settle bc clk s p b).1.2.
Proof.
  intros Hb. unfold AvailabilityBreaker.permit_settle. case_match; [done|].
  pose proof (AvailabilityBreaker.reach_step bc clk
    (AvailabilityBreaker.Settle (AvailabilityBreaker.p_epoch p) (AvailabilityBreaker.p_probe_id p) s)
    b Hb) as H'. simpl in H'. by destruct (AvailabilityBreaker._settle _ _ _ _ _ _).
Qed.

Lemma breaker_acquire_reachable bc clk d b :
  AvailabilityBreaker.reachable bc b ->
  AvailabilityBreaker.reachable bc (fst (AvailabilityBreaker.acquire bc clk d b)).
Proof. intros Hb. by apply (AvailabilityBreaker.reach_step bc clk (AvailabilityBreaker.Acquire d)). Qed.

(** What [acquire] does to the state, whatever its answer. *)
Definition acquire_effect (cfg : config) (r : ResourceIdentity) (c : t) (c' : t)
    (res : outcome exn AdmissionResult) : Prop :=
  (_operator_states c' = _operator_states c /\ _operator_revisions c' = _operator_revisions c) /\
  _drain_events c' = _drain_events c /\
  match res with
  | Ok (Admission p) =>
      operator_state (_availability_key r) c = OP_ENABLED /\
      in_flight (_availability_key r) c < _max_in_flight cfg /\
      _in_flight c' = <[_availability_key r := in_flight (_availability_key r) c + 1]> (_in_flight c) /\
      rp_availability_key p = _availability_key r /\ rp_quota_key p = _quota_key r /\
      rp_settled p = false /\ AvailabilityBreaker.p_settled (rp_availability_permit p) = false /\
      is_Some (_breakers c' !! _availability_key r) /\
      (forall q, reservations q c' =
         reservations q c + Z.b2z (rp_quota_reserved p && bool_decide (_quota_key r = q)))
  | _ => _in_flight c' = _in_flight c /\ forall q, reservations q c' = reservations q c
  end /\
  (map_Forall (fun _ b => AvailabilityBreaker.reachable (_breaker_config cfg) b) (_breakers c) ->
   map_Forall (fun _ b => AvailabilityBreaker.reachable (_breaker_config cfg) b) (_breakers c')) /\
  (forall k, is_Some (_breakers c !! k) -> is_Some (_breakers c' !! k)).

Lemma acquire_spec cfg clk r rem c :
  acquire_effect cfg r c (fst (acquire cfg clk r rem c)) (snd (acquire cfg clk r rem c)).
Proof.
  unfold acquire_effect, acquire.
  destruct (decide _) as [Hop|Hen%dec_stable]; [by split_and!|].
  destruct (rem <=? 0); [by split_and!|].
  destruct (clk 0%nat <? _); [by split_and!|]. destruct (clk 0%nat <? _); [by split_and!|].
  pose proof (quota_gate_frame (clk 0%nat) r c) as (Q1 & Q2 & Q2' & Q3 & Q4 & Q5).
  destruct (quota_gate (clk 0%nat) r c) as [c1 quota] eqn:Eq; simpl in *.
  destruct quota as [res|].
  { assert (exists v, res = Rejection v) as [v ->].
    { revert Eq. unfold quota_gate. repeat case_match; intros [= <- <-]; by eexists. }
    simpl. rewrite Q4. by split_and!. }
  destruct (match _breakers c1 !! _availability_key r with Some b => Ok b | None => _ end)
    as [b|e] eqn:Eb; [|simpl; rewrite Q4; by split_and!].
  assert (map_Forall (fun _ b => AvailabilityBreaker.reachable (_breaker_config cfg) b) (_breakers c) ->
          AvailabilityBreaker.reachable (_breaker_config cfg) b) as Hb.
  { intros Hall. destruct (_breakers c1 !! _) eqn:El; simplify_eq.
    - rewrite Q4 in El. by apply (Hall _ _ El).
    - by apply AvailabilityBreaker.reach_init. }
  pose proof (breaker_acquire_reachable (_breaker_config cfg) (later 1 clk) (clk 0%nat + rem) b) as Hb1.
  pose proof (breaker_acquire_unsettled (_breaker_config cfg) (later 1 clk) (clk 0%nat + rem) b) as Hu.
  destruct (AvailabilityBreaker.acquire _ _ _ b) as [b1 ap]; simpl in *.
  assert (forall b' , is_Some (<[_availability_key r := b']> (_breakers c1) !! _availability_key r)) as Hs
    by (intros; rewrite lookup_insert_eq; by eexists).
  assert (forall k b', is_Some (_breakers c !! k) ->
            is_Some (<[_availability_key r := b']> (_breakers c1) !! k)) as Hs'.
  { intros k b' Hk. destruct (decide (k = _availability_key r)) as [->|]; [done|].
    by rewrite lookup_insert_ne, Q4. }
  assert (forall b', (map_Forall (fun _ b => AvailabilityBreaker.reachable (_breaker_config cfg) b) (_breakers c) ->
      AvailabilityBreaker.reachable (_breaker_config cfg) b') ->
      map_Forall (fun _ b => AvailabilityBreaker.reachable (_breaker_config cfg) b) (_breakers c) ->
      map_Forall (fun _ b => AvailabilityBreaker.reachable (_breaker_config cfg) b)
        (<[_availability_key r := b']> (_breakers c1))) as Hall.
  { intros b' Hb' H. apply map_Forall_insert_2; [auto|by rewrite Q4]. }
  destruct ap as [ap|]; simpl; [|split_and!; eauto].
  rewrite (in_flight_ext _ c) by done.
  destruct (_max_in_flight cfg <=? _) eqn:Em; zbool.
  - unfold AvailabilityBreaker.permit_abandon.
    pose proof (breaker_settle_reachable (_breaker_config cfg) (later 2 clk) None ap b1) as Hb2.
    destruct (AvailabilityBreaker.permit_settle _ _ _ _ _) as [[ap' b2] o]; simpl in *.
    destruct o; simpl; rewrite insert_insert_eq; split_and!; eauto.
  - match goal with |- context [_reserve_quota ?q ?c0] =>
      pose proof (reserve_quota_frame q c0) as (R1 & (R2 & R2') & R3 & R4 & R5);
      destruct (_reserve_quota q c0) as [c2 reserved] end; simpl in *.
    rewrite R1, R2, R2', R3, R4, Q1, Q2, Q2', Q3. split_and!; eauto. intros q. rewrite R5. f_equal. apply Q5.
Qed.

Lemma holds_fresh k p :
  rp_settled p = false -> holds k p = bool_decide (rp_availability_key p = k).
Proof. unfold holds. by intros ->. Qed.

Lemma in_flight_insert k k' n m c :
  _in_flight c = <[k' := n]> m -> in_flight k c = if decide (k = k') then n else default 0 (m !! k).
Proof.
  unfold in_flight. intros ->. case_decide; subst.
  - by rewrite lookup_insert_eq.
  - by rewrite lookup_insert_ne.
Qed.

Lemma acquire_wf cfg clk r rem w : wf cfg w -> wf cfg (run_op cfg (Acquire clk r rem) w).
Proof.
  intros Hw. simpl. pose proof (acquire_spec cfg clk r rem (ctl w)) as ([E1 _] & E2 & E3 & E4 & E5).
  destruct (acquire cfg clk r rem (ctl w)) as [c res]; simpl in *.
  assert (_in_flight c = _in_flight (ctl w) -> (forall q, reservations q c = reservations q (ctl w)) ->
          wf cfg (mkWorld c (permits w ++ []) (audit w))) as Hno.
  { rewrite app_nil_r. intros Ef Er. apply wf_frame; try done.
    - intros k. rewrite E2, (drained_ext k (ctl w) c) by done. apply Hw.
    - apply E4, Hw. }
  destruct res as [[p|v]|e]; [|by apply Hno; apply E3..].
  destruct E3 as (Hen & Hmax & Ef & Ek & Eqk & Es & Eas & Ebr & Er).
  destruct Hw as [Hf Hb Hr He Hbr Hp]. split; simpl.
  - intros k. rewrite (in_flight_insert _ _ _ _ _ Ef), count_if_app, <- Hf; simpl.
    rewrite holds_fresh, Ek by done. case_decide; subst.
    + rewrite bool_decide_eq_true_2 by done. simpl. lia.
    + rewrite bool_decide_eq_false_2 by done. simpl. unfold in_flight. lia.
  - intros k. rewrite (in_flight_insert _ _ _ _ _ Ef). case_decide; [lia|apply (Hb k)].
  - intros q. rewrite Er, count_if_app, Hr; simpl. unfold reserves. rewrite Es, Eqk; simpl. lia.
  - intros k. rewrite E2. specialize (He k). destruct (_drain_events (ctl w) !! k); simpl in *; [|done].
    subst. unfold drained. rewrite (in_flight_insert _ _ _ _ _ Ef).
    unfold operator_state in *. rewrite E1. case_decide; subst; [|done].
    rewrite Hen. done.
  - by apply E4.
  - apply Forall_app; split.
    + eapply Forall_impl; [done|]. naive_solver.
    + apply Forall_singleton. intros _. by rewrite Ek.
Qed.

(** *** Settlement *)

Lemma release_in_flight ak qk q k c :
  0 <= in_flight ak c ->
  in_flight k (release ak qk q c) =
    if decide (k = ak) then Z.max (in_flight ak c - 1) 0 else in_flight k c.
Proof.
  intros H0. assert (forall c' , in_flight k (if q then
    match _quota_states c' !! qk with
    | None => c'
    | Some s => with_quota (<[qk := mkQuota (remaining_requests s) (reset_requests_at s)
        (remaining_tokens s) (reset_tokens_at s) (Z.max (request_reservations s - 1) 0)]>
          (_quota_states c')) c'
    end else c') = in_flight k c') as Hq by (intros; by repeat case_match).
  unfold release. rewrite Hq, update_drain_event_in_flight. unfold in_flight; simpl.
  unfold in_flight in H0.
  destruct (default 0 (_in_flight c !! ak) <=? 1) eqn:E; zbool; case_decide; subst.
  - rewrite lookup_delete_eq. simpl. lia.
  - by rewrite lookup_delete_ne by done.
  - rewrite lookup_insert_eq. simpl. lia.
  - by rewrite lookup_insert_ne by done.
Qed.

Lemma release_state ak qk q c :
  _operator_states (release ak qk q c) = _operator_states c /\
  _operator_revisions (release ak qk q c) = _operator_revisions c /\
  _breakers (release ak qk q c) = _breakers c.
Proof.
  unfold release.
  match goal with |- context [_update_drain_event ak ?c0] =>
    pose proof (update_drain_event_rest ak c0) as (E1 & E2 & E3 & E4); simpl in * end.
  repeat case_match; simpl; auto.
Qed.

Lemma release_reservations ak qk q q' c :
  0 < reservations qk c \/ q = false ->
  reservations q' (release ak qk q c) = reservations q' c - Z.b2z (q && bool_decide (qk = q')).
Proof.
  intros H. unfold release.
  match goal with |- context [_update_drain_event ak ?c0] =>
    pose proof (update_drain_event_rest ak c0) as (_ & E2 & _ & _); simpl in E2;
    set (c1 := _update_drain_event ak c0) in * end.
  unfold reservations in *. destruct q; simpl; [|rewrite E2; lia].
  destruct H as [H|]; [|done]. rewrite E2. destruct (_quota_states c !! qk) as [s|] eqn:E; [|lia].
  simpl. destruct (decide (qk = q')) as [<-|].
  - rewrite lookup_insert_eq, E, bool_decide_eq_true_2 by done; simpl. lia.
  - rewrite lookup_insert_ne, bool_decide_eq_false_2 by done; simpl. lia.
Qed.

Lemma release_events ak qk q c :
  (forall k, k <> ak -> from_option (fun e => e = drained k c) True (_drain_events c !! k)) ->
  forall k, from_option (fun e => e = drained k (release ak qk q c)) True
              (_drain_events (release ak qk q c) !! k).
Proof.
  intros H k. unfold release.
  match goal with |- context [_update_drain_event ak ?c0] =>
    pose proof (update_drain_event_events ak c0) as He; set (c1 := _update_drain_event ak c0) in * end.
  assert (from_option (fun e => e = drained k c1) True (_drain_events c1 !! k)) as Hk.
  { apply He. intros k' Hne. simpl. specialize (H k' Hne).
    destruct (_drain_events c !! k'); simpl in *; [|done]. subst. unfold drained.
    unfold operator_state, in_flight; simpl.
    by destruct (_ <=? 1); rewrite ?lookup_delete_ne, ?lookup_insert_ne by done. }
  by repeat case_match.
Qed.

Lemma consequences_frame cfg now ck qk s c :
  let c' := consequences cfg now ck qk s c in
  _in_flight c' = _in_flight c /\ _operator_states c' = _operator_states c /\
  _operator_revisions c' = _operator_revisions c /\ _drain_events c' = _drain_events c /\
  _breakers c' = _breakers c /\ _quota_states c' = _quota_states c.
Proof. unfold consequences. repeat case_match; simpl; auto 10. Qed.

(** What settling an open permit does: the state after [release], up to the
    breakers and what the invariant does not count. *)
Lemma settle_effect cfg clk s p c :
  let c0 := release (rp_availability_key p) (rp_quota_key p) (rp_quota_reserved p) c in
  let c' := (_settle cfg clk p s c).1.1 in
  _in_flight c' = _in_flight c0 /\ _operator_states c' = _operator_states c0 /\
  _operator_revisions c' = _operator_revisions c0 /\
  _drain_events c' = _drain_events c0 /\ _quota_states c' = _quota_states c0 /\
  (map_Forall (fun _ b => AvailabilityBreaker.reachable (_breaker_config cfg) b) (_breakers c0) ->
   map_Forall (fun _ b => AvailabilityBreaker.reachable (_breaker_config cfg) b) (_breakers c')) /\
  (forall k, is_Some (_breakers c0 !! k) -> is_Some (_breakers c' !! k)).
Proof.
  intros c0 c'. unfold c', _settle. fold c0.
  destruct (_breakers c0 !! rp_availability_key p) as [b|] eqn:Eb; [|by split_and!].
  pose proof (breaker_settle_reachable (_breaker_config cfg) (later 1 clk) (breaker_verdict s)
                (rp_availability_permit p) b) as Hb.
  destruct (AvailabilityBreaker.permit_settle _ _ _ _ _) as [[ap b'] o]; simpl in *.
  assert (forall m, m = <[rp_availability_key p := b']> (_breakers c0) ->
   (map_Forall (fun _ b => AvailabilityBreaker.reachable (_breaker_config cfg) b) (_breakers c0) ->
    map_Forall (fun _ b => AvailabilityBreaker.reachable (_breaker_config cfg) b) m) /\
   (forall k, is_Some (_breakers c0 !! k) -> is_Some (m !! k))) as Hm.
  { intros m ->. split.
    - intros Hall. apply map_Forall_insert_2; [apply Hb, (Hall _ _ Eb)|done].
    - intros k Hk. destruct (decide (k = rp_availability_key p)) as [->|].
      + rewrite lookup_insert_eq. by eexists.
      + by rewrite lookup_insert_ne. }
  destruct o; simpl.
  - destruct (consequences_frame cfg (clk 0%nat) (rp_credential_key p) (rp_quota_key p) s
      (with_breakers (<[rp_availability_key p := b']> (_breakers c0)) c0)) as (E1&E2&E3&E4&E5&E6).
    split_and!; try done; by apply Hm.
  - split_and!; try done; by apply Hm.
Qed.

Lemma settle_wf cfg clk i s w : wf cfg w -> wf cfg (run_op cfg (Settle clk i s) w).
Proof.
  intros Hw. simpl. destruct (permits w !! i) as [p|] eqn:Ei; [|done].
  unfold permit_settle. destruct (rp_settled p) eqn:Es.
  { rewrite list_insert_id by done. by destruct w. }
  pose proof (settle_effect cfg clk s p (ctl w)) as (E1 & E2 & E2' & E3 & E4 & E5 & E6).
  destruct (_settle cfg clk p s (ctl w)) as [[c ap] o]; simpl in *.
  destruct Hw as [Hf Hb Hr He Hbr Hp].
  pose proof (count_if_pos (holds (rp_availability_key p)) (permits w) i p Ei) as Hpos.
  unfold holds in Hpos at 1. rewrite Es, bool_decide_eq_true_2 in Hpos by done.
  specialize (Hpos eq_refl). rewrite <- Hf in Hpos.
  assert (forall k, in_flight k c = in_flight k (ctl w) - Z.b2z (holds k p)) as Hin.
  { intros k. rewrite (in_flight_ext k _ _ E1), release_in_flight by lia.
    rewrite holds_fresh by done. case_decide; subst.
    - rewrite bool_decide_eq_true_2 by done; simpl. lia.
    - rewrite bool_decide_eq_false_2 by done; simpl. lia. }
  assert (0 < reservations (rp_quota_key p) (ctl w) \/ rp_quota_reserved p = false) as Hres.
  { destruct (rp_quota_reserved p) eqn:Er; [left|by right]. rewrite Hr.
    pose proof (count_if_pos (reserves (rp_quota_key p)) (permits w) i p Ei) as H.
    unfold reserves in H at 1. rewrite Es, Er, bool_decide_eq_true_2 in H by done.
    specialize (H eq_refl). lia. }
  split; simpl.
  - intros k. rewrite (count_if_insert _ _ _ _ _ Ei), holds_settled, Hin, <- Hf. simpl. lia.
  - intros k. rewrite Hin. specialize (Hb k). destruct (holds k p); simpl; lia.
  - intros q. rewrite (count_if_insert _ _ _ _ _ Ei), <- Hr.
    unfold reservations at 1. rewrite E4. fold (reservations q
      (release (rp_availability_key p) (rp_quota_key p) (rp_quota_reserved p) (ctl w))).
    rewrite release_reservations by done. unfold reserves. rewrite Es; simpl. lia.
  - intros k. rewrite E3, (drained_ext k _ _ E2 E1). apply release_events. auto.
  - apply E5. by rewrite (proj2 (proj2 (release_state _ _ _ _))).
  - apply Forall_insert; [|done]. eapply Forall_impl; [done|]. simpl. intros p' Hp' Hs'.
    destruct (Hp' Hs') as [? ?]. split; [done|]. apply E6.
    by rewrite (proj2 (proj2 (release_state _ _ _ _))).
Qed.

(** The state change of a transition the audit store accepted. *)
Lemma transition_commit_wf cfg k s rv w l :
  wf cfg w ->
  wf cfg (mkWorld (_update_drain_event k
                     (with_operator (<[k := s]> (_operator_states (ctl w))) rv (ctl w)))
            (permits w) l).
Proof.
  intros [Hf Hb Hr He Hbr Hp].
  match goal with |- context [_update_drain_event ?k ?c0] =>
    pose proof (update_drain_event_rest k c0) as (E1 & E2 & E3 & E4);
    pose proof (update_drain_event_events k c0) as E5;
    pose proof (fun k' => update_drain_event_in_flight k k' c0) as E6;
    set (c1 := _update_drain_event k c0) in *; simpl in E1, E2, E3, E4; clearbody c1 end.
  split; simpl.
  - intros k'. rewrite E6. apply Hf.
  - intros k'. rewrite E6. apply Hb.
  - intros q. unfold reservations. rewrite E2. apply Hr.
  - apply E5. simpl. intros k' Hne. specialize (He k').
    destruct (_drain_events (ctl w) !! k'); simpl in *; [|done]. subst.
    unfold drained, operator_state, in_flight; simpl. by rewrite lookup_insert_ne.
  - by rewrite E1.
  - by rewrite E1.
Qed.

Lemma transition_wf cfg append rec r s rev crev actor why force now w :
  wf cfg w ->
  wf cfg (run_op cfg (Transition append rec r s rev crev actor why force now) w).
Proof.
  intros Hw. simpl. unfold transition_operator_state.
  assert (forall l, wf cfg (mkWorld (ctl w) (permits w) l)) as Hid
    by (intros l; apply wf_frame; by apply Hw || done).
  repeat (case_match; simplify_eq/=; try done).
  by apply transition_commit_wf.
Qed.
Lemma observe_quota_states cfg now r o c :
  exists s, _quota_states (observe_quota cfg now r o c) = <[_quota_key r := s]> (_quota_states c) /\
            request_reservations s = reservations (_quota_key r) c.
Proof.
  unfold observe_quota, reservations.
  destruct (_quota_states c !! _quota_key r); case_match; [|case_match| |case_match];
    simpl; eexists; split; reflexivity.
Qed.

Lemma observe_wf cfg now r o w : wf cfg w -> wf cfg (run_op cfg (ObserveQuota now r o) w).
Proof.
  intros Hw. simpl.
  assert (forall q, reservations q (observe_quota cfg now r o (ctl w)) = reservations q (ctl w)) as Hq.
  { intros q. destruct (observe_quota_states cfg now r o (ctl w)) as (s & Es & Hs).
    unfold reservations at 1. rewrite Es. destruct (decide (q = _quota_key r)) as [->|].
    - by rewrite lookup_insert_eq.
    - by rewrite lookup_insert_ne. }
  assert (let c := observe_quota cfg now r o (ctl w) in
    _in_flight c = _in_flight (ctl w) /\ _drain_events c = _drain_events (ctl w) /\
    _operator_states c = _operator_states (ctl w) /\ _breakers c = _breakers (ctl w)) as (E1&E2&E3&E4)
    by (unfold observe_quota; repeat (case_match; simpl); done).
  apply wf_frame; try done.
  - intros k. rewrite E2, (drained_ext k _ _ E3 E1). apply Hw.
  - rewrite E4. apply Hw.
  - by rewrite E4.
Qed.

Lemma wait_wf cfg r timeout w : wf cfg w -> wf cfg (run_op cfg (WaitDrained r timeout) w).
Proof.
  intros Hw. simpl. unfold wait_drained. destruct w as [c ps l]; simpl in *.
  case_match; [done|]. case_decide; [done|]. simpl.
  set (c0 := match _drain_events c !! _ with Some _ => c | None => _ end).
  assert (_in_flight c0 = _in_flight c /\ _operator_states c0 = _operator_states c /\
    _quota_states c0 = _quota_states c /\ _breakers c0 = _breakers c /\
    forall k', k' <> _availability_key r -> _drain_events c0 !! k' = _drain_events c !! k')
    as (E1 & E2 & E3 & E4 & E5).
  { unfold c0. destruct (_drain_events c !! _availability_key r); simpl; [done|].
    split_and!; [done..|]. intros. by rewrite lookup_insert_ne. }
  pose proof (update_drain_event_rest (_availability_key r) c0) as (F1 & F2 & F3 & F4).
  apply (wf_frame cfg (mkWorld c ps l)); simpl; try done.
  - rewrite <- E1. unfold _update_drain_event. by destruct (_drain_events c0 !! _).
  - intros q. unfold reservations. by rewrite F2, E3.
  - apply update_drain_event_events. intros k' Hne. rewrite E5, (drained_ext k' _ _ E2 E1) by done.
    apply Hw.
  - rewrite F1, E4. apply Hw.
  - by rewrite F1, E4.
Qed.

Lemma admission_run_wf cfg o w : wf cfg w -> wf cfg (run_op cfg o w).
Proof.
  destruct o; eauto using acquire_wf, settle_wf, transition_wf, observe_wf, wait_wf.
Qed.

Lemma admission_reachable_wf cfg w : reachable cfg w -> wf cfg w.
Proof. induction 1; eauto using init_wf, admission_run_wf. Qed.

(** ** Properties *)

Fixpoint run_ops (cfg : config) (l : list op) (w : world) : world :=
  match l with [] => w | o :: l => run_ops cfg l (run_op cfg o w) end.

Lemma run_ops_reachable cfg l w : reachable cfg w -> reachable cfg (run_ops cfg l w).
Proof. revert w. induction l; simpl; eauto using reach_step. Qed.

(** C8: Admission accounting is exact. In every state the controller can reach,
    through any mix of acquisitions, settlements (also repeated ones), operator
    transitions, quota observations and waits, the in-flight count of an endpoint
    is the number of its permits not yet settled and never exceeds the limit, the
    request reservations of a quota domain are the unsettled permits that reserved
    there, and a drain event is set exactly when its endpoint is out of service
    with nothing in flight. *)
Theorem admission_conservation cfg w k q :
  reachable cfg w ->
  in_flight k (ctl w) = count_if (holds k) (permits w) /\
  in_flight k (ctl w) <= _max_in_flight cfg /\
  reservations q (ctl w) = count_if (reserves q) (permits w) /\
  (forall e, _drain_events (ctl w) !! k = Some e -> e = drained k (ctl w)).
Proof.
  intros [Hf Hb Hr He _ _]%admission_reachable_wf. split_and!; auto.
  intros e E. specialize (He k). by rewrite E in He.
Qed.

Definition cfg0 : config := mkConfig AvailabilityBreaker.quick 2 300 1 true.
Definition res0 : ResourceIdentity := mkResource "e" "http" "fp" "gpt" "tenant" "slot".
Definition key0 : _AvailabilityKey := _availability_key res0.
Definition ops0 : list op :=
  [ObserveQuota 1 res0 (mkQuotaObs (Some 5) None None None None);
   Acquire (fun _ => 2) res0 10; Acquire (fun _ => 3) res0 10; Acquire (fun _ => 4) res0 10;
   Settle (fun _ => 5) 0 Succeeded; Settle (fun _ => 6) 0 Succeeded].
Definition world0 : world := run_ops cfg0 ops0 (mkWorld empty [] []).

Lemma world0_reachable : reachable cfg0 world0.
Proof. apply run_ops_reachable, reach_init. reflexivity. Defined.

(** Three calls on an endpoint of limit 2: two admitted, one settled (twice). *)
Example admission_conservation_witness :
  length (permits world0) = 2%nat /\ in_flight key0 (ctl world0) = 1 /\
  in_flight key0 (ctl world0) = count_if (holds key0) (permits world0).
Proof.
  split; [vm_compute; reflexivity|]. split; [vm_compute; reflexivity|].
  exact (proj1 (admission_conservation cfg0 world0 key0 (_quota_key res0) world0_reachable)).
Defined.

(** What [acquire] answers. A permit is handed out only when every gate is
    open: the endpoint is enabled, time remains, the credential is out of
    quarantine, no cooldown runs, known request quota exceeds the reservations,
    known token quota is not zero, the bulkhead has room and the breaker admits.
    The first three gates refuse without changing anything, and every refusal
    leaves operator state, in-flight counts and reservations as they were. *)
Theorem acquire_gates_sound cfg clk r rem c :
  let now := clk 0%nat in
  let '(c', res) := acquire cfg clk r rem c in
  match res with
  | Ok (Admission p) =>
      operator_state (_availability_key r) c = OP_ENABLED /\ 0 < rem /\
      default 0 (_credential_quarantine c !! _credential_key r) <= now /\
      default 0 (_quota_cooldown c !! _quota_key r) <= now /\
      (forall s n, _quota_states c !! _quota_key r = Some s ->
         remaining_requests (_refresh_quota_state s now) = Some n ->
         request_reservations s < n) /\
      (forall s n, _quota_states c !! _quota_key r = Some s ->
         remaining_tokens (_refresh_quota_state s now) = Some n -> n <> 0) /\
      in_flight (_availability_key r) c < _max_in_flight cfg /\
      (forall b, _breakers c !! _availability_key r = Some b ->
         snd (AvailabilityBreaker.acquire (_breaker_config cfg) (later 1 clk) (now + rem) b)
         = Some (rp_availability_permit p))
  | Ok (Rejection v) =>
      (av_gate v = G_OPERATOR \/ av_gate v = G_DEADLINE \/ av_gate v = G_CREDENTIAL -> c' = c) /\
      _operator_states c' = _operator_states c /\ _in_flight c' = _in_flight c /\
      (forall q, reservations q c' = reservations q c) /\
      valid_disposition (av_disposition v) = true
  | Raise _ => _in_flight c' = _in_flight c
  end.
Proof.
  intros now. pose proof (acquire_spec cfg clk r rem c) as ([S1 _] & _ & S2 & _ & _).
  destruct (acquire cfg clk r rem c) as [c' res] eqn:E; simpl in S1, S2.
  destruct res as [[p|v]|e]; [|destruct S2 as [? ?]|by destruct S2].
  - unfold acquire in E. fold now in E.
    destruct (decide _) as [|Hen%dec_stable]; [done|].
    destruct (rem <=? 0) eqn:Er; [done|]. destruct (now <? _) eqn:Eq1 in E; [done|].
    destruct (now <? _) eqn:Eq2 in E; [done|]. zbool.
    pose proof (quota_gate_frame now r c) as (Q1 & _ & _ & _ & Q2 & _).
    destruct (quota_gate now r c) as [c1 [res|]] eqn:Eq; simpl in Q1, Q2.
    { exfalso. unfold quota_gate, _reject_quota_exhausted, _reject in Eq.
      repeat case_match; simplify_eq. }
    assert (forall s, _quota_states c !! _quota_key r = Some s ->
      (forall n, remaining_requests (_refresh_quota_state s now) = Some n -> request_reservations s < n) /\
      (forall n, remaining_tokens (_refresh_quota_state s now) = Some n -> n <> 0)) as Hquota.
    { intros s Es. unfold quota_gate in Eq. rewrite Es, refresh_reservations in Eq.
      split; intros n En; rewrite En in Eq; repeat case_match; simplify_eq; zbool; lia. }
    rewrite Q2 in E.
    split_and!; try done; try (intros; by eapply Hquota).
    { by apply S2. }
    intros b Eb. rewrite Eb in E.
    destruct (AvailabilityBreaker.acquire _ _ _ b) as [b1 [ap|]]; [|done].
    simpl in E. rewrite (in_flight_ext _ c) in E by done.
    destruct (_max_in_flight cfg <=? _).
    + exfalso. repeat case_match; simplify_eq.
    + destruct (_reserve_quota _ _). by simplify_eq/=.
  - split_and!; try done; revert E; unfold acquire, _reject_quota_exhausted, _reject; clear;
      unfold quota_gate, _reject_quota_exhausted, _reject; repeat case_match; intros;
      simplify_eq/=; naive_solver.
Qed.

(** *** Draining *)

Definition keeps_out (k : _AvailabilityKey) (o : op) : Prop :=
  match o with
  | Transition _ _ r s _ _ _ _ _ _ => ~ (_availability_key r = k /\ s = OP_ENABLED)
  | _ => True
  end.

(** Effect of one operation on operator state and revisions. *)
Lemma run_op_operator cfg o w :
  let w' := run_op cfg o w in
  match o with
  | Transition append rec r s rev crev actor why force now =>
      let '(c, tr, _) := transition_operator_state cfg append r s rev crev actor why force now (ctl w) in
      audit w' = audit w ++ stored append rec tr /\ permits w' = permits w /\
      match append, tr with
      | None, Some tr =>
          tr = mkTransition r (operator_state (_availability_key r) (ctl w)) s
                 (operator_revision (_availability_key r) (ctl w) + 1) crev actor why force
                 (in_flight (_availability_key r) (ctl w)) now /\
          _operator_states (ctl w') = <[_availability_key r := s]> (_operator_states (ctl w)) /\
          _operator_revisions (ctl w') =
            <[_availability_key r := operator_revision (_availability_key r) (ctl w) + 1]>
              (_operator_revisions (ctl w))
      | _, _ => ctl w' = ctl w
      end
  | _ => audit w' = audit w /\ _operator_states (ctl w') = _operator_states (ctl w) /\
         _operator_revisions (ctl w') = _operator_revisions (ctl w)
  end.
Proof.
  destruct o as [clk r rem|clk i s|append rec r s rev crev actor why force now|now r o|r to]; simpl.
  - pose proof (acquire_spec cfg clk r rem (ctl w)) as (E1 & _).
    destruct (acquire cfg clk r rem (ctl w)); simpl in *. naive_solver.
  - destruct (permits w !! i) as [p|]; [|done]. unfold permit_settle.
    destruct (rp_settled p); [done|]. pose proof (settle_effect cfg clk s p (ctl w)) as (_ & E1 & E2 & _).
    pose proof (release_state (rp_availability_key p) (rp_quota_key p) (rp_quota_reserved p) (ctl w))
      as (E3 & E4 & _).
    destruct (_settle cfg clk p s (ctl w)) as [[c ap] o]; simpl in *. split_and!; congruence.
  - unfold transition_operator_state. repeat (case_match; simplify_eq/=; try done).
    match goal with |- context [_update_drain_event ?k ?c0] =>
      pose proof (update_drain_event_rest k c0) as (_ & _ & E3 & E4) end.
    simpl in E3, E4. rewrite E3, E4. done.
  - unfold observe_quota. repeat (case_match; simpl); done.
  - unfold wait_drained. case_match; [done|]. case_decide; [done|]. simpl.
    match goal with |- context [_update_drain_event ?k ?c0] =>
      pose proof (update_drain_event_rest k c0) as (_ & _ & E3 & E4) end.
    rewrite E3, E4. by destruct (_drain_events (ctl w) !! _).
Qed.

Lemma holds_settle_le cfg clk i s k w :
  count_if (holds k) (permits (run_op cfg (Settle clk i s) w)) <= count_if (holds k) (permits w).
Proof.
  simpl. destruct (permits w !! i) as [p|] eqn:Ei; [|done]. unfold permit_settle.
  destruct (rp_settled p).
  - simpl. by rewrite list_insert_id.
  - destruct (_settle cfg clk p s (ctl w)) as [[c ap] o]; simpl.
    rewrite (count_if_insert _ _ _ _ _ Ei), holds_settled. destruct (holds k p); simpl; lia.
Qed.

Lemma keeps_out_step cfg o k w :
  operator_state k (ctl w) <> OP_ENABLED -> keeps_out k o ->
  operator_state k (ctl (run_op cfg o w)) <> OP_ENABLED /\
  count_if (holds k) (permits (run_op cfg o w)) <= count_if (holds k) (permits w).
Proof.
  intros Hs Hk. pose proof (run_op_operator cfg o w) as Ho.
  destruct o as [clk r rem|clk i s|append rec r s rev crev actor why force now|now r o|r to];
    simpl keeps_out in Hk.
  - destruct Ho as (_ & Ho & _). unfold operator_state in *. rewrite Ho. split; [done|].
    simpl. pose proof (acquire_spec cfg clk r rem (ctl w)) as (_ & _ & E & _).
    destruct (acquire cfg clk r rem (ctl w)) as [c [[p|v]|e]]; simpl in *;
      rewrite count_if_app; simpl; try lia.
    destruct E as (Hen & _ & _ & Ek & _ & Hu & _). unfold holds. rewrite Hu, Ek; simpl.
    rewrite bool_decide_eq_false_2; simpl; [lia|]. intros <-. by apply Hs.
  - destruct Ho as (_ & Ho & _). unfold operator_state in *. rewrite Ho. split; [done|].
    apply holds_settle_le.
  - destruct (transition_operator_state _ _ _ _ _ _ _ _ _ _ (ctl w)) as [[c tr] res].
    destruct Ho as (_ & -> & Ho). split; [|done].
    assert (ctl (run_op cfg (Transition append rec r s rev crev actor why force now) w) = ctl w \/
      _operator_states (ctl (run_op cfg (Transition append rec r s rev crev actor why force now) w)) =
        <[_availability_key r := s]> (_operator_states (ctl w))) as [-> | E]; [|done|].
    { destruct append, tr; auto. right. apply Ho. }
    unfold operator_state in *. rewrite E. destruct (decide (_availability_key r = k)) as [Ek|].
    + rewrite Ek, lookup_insert_eq. simpl. intros ->. by destruct Hk.
    + by rewrite lookup_insert_ne.
  - destruct Ho as (_ & Ho & _). unfold operator_state in *. rewrite Ho. done.
  - destruct Ho as (_ & Ho & _). unfold operator_state in *. rewrite Ho. done.
Qed.

Lemma keeps_out_steps cfg l k w :
  operator_state k (ctl w) <> OP_ENABLED -> Forall (keeps_out k) l ->
  operator_state k (ctl (run_ops cfg l w)) <> OP_ENABLED /\
  count_if (holds k) (permits (run_ops cfg l w)) <= count_if (holds k) (permits w).
Proof.
  intros Hs Hl. revert w Hs. induction Hl as [|o l Ho _ IH]; intros w Hs; simpl; [done|].
  destruct (keeps_out_step cfg o k w Hs Ho) as [H1 H2].
  destruct (IH _ H1) as [H3 H4]. split; [done|lia].
Qed.

Definition settle_all (clk : readings) (w : world) : list op :=
  (fun i => Settle clk i Abandoned) <$> seq 0 (length (permits w)).

Lemma settle_marks cfg clk i s w j p :
  permits (run_op cfg (Settle clk i s) w) !! j = Some p ->
  rp_settled p = true \/ (j <> i /\ permits w !! j = Some p).
Proof.
  simpl. destruct (permits w !! i) as [p0|] eqn:Ei.
  - unfold permit_settle. destruct (rp_settled p0) eqn:Es.
    + simpl. rewrite list_insert_id by done. intros Hj.
      destruct (decide (j = i)) as [->|]; [left; congruence|by right].
    + destruct (_settle cfg clk p0 s (ctl w)) as [[c ap] o]; simpl.
      intros [(-> & <- & _)|(? & ?)]%list_lookup_insert_Some; [by left|right; auto].
  - intros Hj. right. split; [|done]. congruence.
Qed.

Lemma settle_all_marks cfg clk n m w :
  (forall j p, permits w !! j = Some p -> rp_settled p = true \/ (n <= j < n + m)%nat) ->
  forall j p, permits (run_ops cfg ((fun i => Settle clk i Abandoned) <$> seq n m) w) !! j = Some p ->
    rp_settled p = true.
Proof.
  revert n w. induction m as [|m IH]; intros n w Hw j p; cbn [seq fmap list_fmap run_ops].
  - intros Hj. destruct (Hw j p Hj); [done|lia].
  - apply IH. intros j' p' Hj'. destruct (settle_marks _ _ _ _ _ _ _ Hj') as [?|[Hne Hj]]; [by left|].
    destruct (Hw j' p' Hj) as [?|?]; [by left|right; lia].
Qed.

Lemma count_if_zero {A} (f : A -> bool) l :
  (forall j x, l !! j = Some x -> f x = false) -> count_if f l = 0.
Proof.
  induction l as [|x l IH]; intros H; simpl; [done|].
  rewrite (H 0%nat x eq_refl), IH; [done|]. intros j y Hj. by apply (H (S j)).
Qed.

(** C9: Draining an endpoint works. Once a reachable controller has an endpoint
    out of service, no sequence of operations that does not re-enable it admits
    another call there: its in-flight count never grows. Settling the outstanding
    permits then empties it, so that its status is drained and a waiter's event
    is set. *)
Theorem drain_completes cfg w k l clk :
  reachable cfg w -> operator_state k (ctl w) <> OP_ENABLED -> Forall (keeps_out k) l ->
  let w1 := run_ops cfg l w in
  let w2 := run_ops cfg (settle_all clk w1) w1 in
  operator_state k (ctl w1) <> OP_ENABLED /\
  in_flight k (ctl w1) <= in_flight k (ctl w) /\
  drained k (ctl w2) = true /\
  (forall e, _drain_events (ctl w2) !! k = Some e -> e = true).
Proof.
  intros Hr Hs Hl w1 w2. destruct (keeps_out_steps cfg l k w Hs Hl) as [Hs1 Hle].
  pose proof (run_ops_reachable cfg l w Hr) as Hr1.
  pose proof (run_ops_reachable cfg (settle_all clk w1) w1 Hr1) as Hr2.
  destruct (admission_reachable_wf _ _ Hr) as [Hf _ _ _ _ _].
  destruct (admission_reachable_wf _ _ Hr1) as [Hf1 _ _ _ _ _].
  destruct (admission_reachable_wf _ _ Hr2) as [Hf2 _ _ He2 _ _].
  assert (drained k (ctl w2) = true) as Hd.
  { unfold drained. apply andb_true_iff; split.
    - apply bool_decide_eq_true. refine (proj1 (keeps_out_steps cfg (settle_all clk w1) k w1 Hs1 _)).
      unfold settle_all. apply Forall_fmap, Forall_forall. done.
    - apply Z.eqb_eq. unfold w2. rewrite Hf2. apply count_if_zero. intros j p Hj. unfold holds.
      rewrite (settle_all_marks cfg clk 0 (length (permits w1)) w1 ltac:(
        intros j' p' Hj'; right; apply lookup_lt_Some in Hj'; lia) j p Hj). done. }
  split_and!; [done|unfold w1; rewrite Hf1, Hf; done|done|].
  intros e Ee. specialize (He2 k). fold w2 in He2. rewrite Ee in He2. simpl in He2. congruence.
Qed.

Definition drain_op : op :=
  Transition None false res0 OP_DRAINING 0 "c1" "ops" "maintenance" false 7.

Example drain_completes_witness :
  in_flight key0 (ctl (run_op cfg0 drain_op world0)) = 1 /\
  drained key0 (ctl (run_ops cfg0
     (settle_all (fun _ => 9) (run_ops cfg0 [Acquire (fun _ => 8) res0 10] (run_op cfg0 drain_op world0)))
     (run_ops cfg0 [Acquire (fun _ => 8) res0 10] (run_op cfg0 drain_op world0)))) = true.
Proof.
  split; [vm_compute; reflexivity|].
  refine (proj1 (proj2 (proj2 (drain_completes cfg0 (run_op cfg0 drain_op world0) key0
            [Acquire (fun _ => 8) res0 10] (fun _ => 9) _ _ _)))).
  - apply reach_step, world0_reachable.
  - vm_compute. discriminate.
  - repeat constructor.
Defined.

(** *** The operator audit *)

Lemma restore_app l1 l2 c :
  _restore_operator_audit (l1 ++ l2) c =
    let (c', o) := _restore_operator_audit l1 c in
    match o with Ok _ => _restore_operator_audit l2 c' | Raise e => (c', Raise e) end.
Proof.
  revert c. induction l1 as [|tr l1 IH]; intros c; simpl; [done|]. case_match; [done|]. apply IH.
Qed.

Definition unrecorded_failures (o : op) : Prop :=
  match o with Transition (Some _) recorded _ _ _ _ _ _ _ _ => recorded = false | _ => True end.

Definition audit_agrees (w : world) : Prop :=
  exists c, _restore_operator_audit (audit w) empty = (c, Ok tt) /\
            _operator_states c = _operator_states (ctl w) /\
            _operator_revisions c = _operator_revisions (ctl w).

Lemma audit_agrees_step cfg o w :
  unrecorded_failures o -> audit_agrees w -> audit_agrees (run_op cfg o w).
Proof.
  intros Hu (c & Ec & Es & Er). pose proof (run_op_operator cfg o w) as Ho. unfold audit_agrees.
  cbv zeta in Ho. revert Ho. generalize (run_op cfg o w) as w'. intros w' Ho.
  destruct o as [clk r rem|clk i s|append rec r s rev crev actor why force now|now r o|r to];
    try (destruct Ho as (E1 & E2 & E3); rewrite E1, E2, E3; by exists c).
  destruct (transition_operator_state _ _ _ _ _ _ _ _ _ _ (ctl w)) as [[c1 tr] res].
  destruct Ho as (-> & _ & Ho). simpl in Hu.
  destruct append as [e|].
  { assert (stored (Some e) rec tr = []) as -> by (rewrite Hu; by destruct tr).
    rewrite app_nil_r, Ho. by exists c. }
  destruct tr as [tr|]; [|simpl; rewrite app_nil_r, Ho; by exists c].
  destruct Ho as (-> & E1 & E2). rewrite restore_app, Ec. simpl.
  rewrite bool_decide_eq_false_2 by (unfold operator_state; rewrite Es; tauto).
  assert (operator_revision (_availability_key r) c = operator_revision (_availability_key r) (ctl w))
    as -> by (unfold operator_revision; by rewrite Er).
  rewrite Z.eqb_refl. simpl. eexists. split; [reflexivity|]. simpl. by rewrite E1, E2, Es, Er.
Qed.

(** C10: Operator decisions survive a restart. Whatever a controller with an audit
    store does, if a failing append leaves no record, then building a controller
    anew from the store's records succeeds and has the same operator states and
    control revisions. *)
Theorem operator_audit_restores cfg records c l :
  has_audit cfg = true -> init cfg records = Ok c -> Forall unrecorded_failures l ->
  let w := run_ops cfg l (mkWorld c [] records) in
  exists c', init cfg (audit w) = Ok c' /\
    _operator_states c' = _operator_states (ctl w) /\
    _operator_revisions c' = _operator_revisions (ctl w).
Proof.
  intros Ha Hi Hl. assert (audit_agrees (mkWorld c [] records)) as Hw.
  { unfold init in Hi. rewrite Ha in Hi. case_match; [done|]. exists c. simpl.
    destruct (_restore_operator_audit records empty) as [c0 [[]|]]; by simplify_eq. }
  assert (_max_in_flight cfg <=? 0 = false) as Hm by (unfold init in Hi; by case_match).
  clear Hi. generalize dependent (mkWorld c [] records).
  induction Hl as [|o l Ho _ IH]; intros w Hw; simpl.
  - destruct Hw as (c' & E & Es & Er). exists c'. unfold init. rewrite Hm, Ha, E. done.
  - by apply IH, audit_agrees_step.
Qed.

Example operator_audit_restores_witness :
  exists c', init cfg0 (audit (run_ops cfg0 (ops0 ++ [drain_op]) (mkWorld empty [] []))) = Ok c' /\
             operator_state key0 c' = OP_DRAINING.
Proof.
  destruct (operator_audit_restores cfg0 [] empty (ops0 ++ [drain_op]) eq_refl eq_refl)
    as (c' & E & Es & _); [repeat constructor|].
  exists c'. split; [exact E|]. unfold operator_state. rewrite Es. vm_compute. reflexivity.
Defined.

(** The hypothesis matters: an append that raised after its record reached the
    file (an [fsync] that fails) is followed by a retry with the same revision,
    and the store is then refused at the next start. *)
Example audit_recorded_failure_blocks_restart :
  init cfg0 (audit (run_ops cfg0
    [Transition (Some AuditAppendError) true res0 OP_DRAINING 0 "c1" "ops" "maintenance" false 7;
     drain_op] (mkWorld empty [] [])))
  = Raise (OperatorAuditIntegrityError "operator audit transition sequence is inconsistent").
Proof. vm_compute. reflexivity. Qed.

End ResourceAdmissionController.
