(* ===== verification/Orchestrator.v ===== *)
(** One logical model call ([runtime/models/failover/orchestrator.py]): the retry
    loop that owns a call's budget, its admission permits and its recovery
    decisions. The callables it is given are parameters acting on an environment
    of their own; what the loop asks of them is recorded as a trace. *)

From S2P Require Import Prelude Failure.

Local Open Scope Z_scope.

Record AttemptBudget : Type := mkBudget {
  max_wire_attempts : Z;
  max_attempts_per_endpoint : Z;
  max_endpoint_switches : Z;
  max_credential_rotations : Z;
  max_request_transforms : Z;
  total_deadline_seconds : Z;
  single_attempt_timeout_seconds : Z;
  max_backoff_seconds : Z
}.

(** The field constraints and [_bounded_by_wire_budget] of [AttemptBudget]. *)
Definition valid_budget (b : AttemptBudget) : bool :=
  (1 <=? max_wire_attempts b) && (1 <=? max_attempts_per_endpoint b) &&
  (0 <=? max_endpoint_switches b) && (0 <=? max_credential_rotations b) &&
  (0 <=? max_request_transforms b) && (0 <? total_deadline_seconds b) &&
  (0 <? single_attempt_timeout_seconds b) && (0 <=? max_backoff_seconds b) &&
  (max_attempts_per_endpoint b <=? max_wire_attempts b) &&
  (max_endpoint_switches b <=? max_wire_attempts b - 1) &&
  (max_credential_rotations b <=? max_wire_attempts b - 1) &&
  (max_request_transforms b <=? max_wire_attempts b - 1) &&
  (single_attempt_timeout_seconds b <=? total_deadline_seconds b).

(** [AttemptBudget()], in seconds. *)
Definition default_budget : AttemptBudget := mkBudget 6 6 5 5 5 600 180 60.

Definition _budget_for_wire_limit (n : Z) : AttemptBudget :=
  mkBudget n n (n - 1) (n - 1) (n - 1) 600 180 60.

Module AttemptOrchestrator.

Section orchestrator.
Context {Key : Type} `{EqDecision Key} {Provider Request Result Permit Env : Type}.

(** What a call can end with other than a result: the exception of the last wire
    attempt, an admission rejection, a cancellation, an exception of one of the
    callables, the final assertion; and the model's fuel. *)
Inductive error : Type :=
| AttemptFailed (e : exc)
| AdmissionRejectedError (d : FailureDisposition)
| CancelledError
| CallableRaised (e : exc)
| AssertionError
| OutOfFuel.

(** What a callable can raise. *)
Inductive fault : Type := FCancelled | FRaised (e : exc).

Definition of_fault (f : fault) : error :=
  match f with FCancelled => CancelledError | FRaised e => CallableRaised e end.

(** What the loop asks of its surroundings, in order. *)
Inductive event : Type :=
| EAdmitted
| ERejected
| EExec (k : Key)
| ESucceed
| EFail
| EAbandon
| EDecide (k : DecisionKind)
| ERotate
| ETransform
| ESwitch
| ESleep (delay remaining : Z).

Definition M (A : Type) : Type := Env * list event -> (Env * list event) * outcome error A.

Definition ret {A} (a : A) : M A := fun s => (s, Ok a).
Definition raise {A} (e : error) : M A := fun s => (s, Raise e).
Definition bind {A B} (m : M A) (k : A -> M B) : M B :=
  fun s => let (s', o) := m s in match o with Ok a => k a s' | Raise e => (s', Raise e) end.
(** A call into the surroundings. *)
Definition call {A} (f : Env -> Env * outcome fault A) : M A :=
  fun s => let (env, o) := f (fst s) in
           ((env, snd s), match o with Ok a => Ok a | Raise e => Raise (of_fault e) end).
(** A call that cannot raise. *)
Definition call_ok {A} (f : Env -> Env * A) : M A :=
  fun s => let (env, a) := f (fst s) in ((env, snd s), Ok a).
Definition emit (e : event) : M unit := fun s => ((fst s, snd s ++ [e]), Ok tt).

Local Notation "'let!' x ':=' m 'in' k" := (bind m (fun x => k))
  (at level 10, x pattern, m at level 100, k at level 200).
Local Notation "m ;;; k" := (bind m (fun _ => k)) (at level 100, right associativity).

Inductive attempt_result : Type :=
| Returned (r : Result)
| Cancelled
| Raised (e : exc).

Inductive admission : Type :=
| Granted (p : Permit)
| Rejection (d : FailureDisposition).

Record callables : Type := mkCallables {
  monotonic : Env -> Env * Z;
  sleep : Z -> Env -> Env * outcome fault unit;
  execute_once : Provider -> Request -> Env -> Env * attempt_result;
  next_credential : option (Provider -> Env -> Env * outcome fault (option Provider));
  endpoint_selector : option (Env -> Env * outcome fault (option Provider));
  request_transformer :
    option (Provider -> Request -> RequestTransform -> FailureDisposition ->
            Env -> Env * outcome fault (option Request));
  admit_with : option (Provider -> Z -> Env -> Env * outcome fault admission);
  settle_permit : Permit -> option (option FailureDisposition) -> Env -> Env * outcome fault unit;
  observe_decision :
    option (Z -> FailoverDecision -> FailoverDecision -> Env -> Env * outcome fault unit)
}.

(** The orchestrator's attributes. *)
Record config : Type := mkConfig {
  _budget : AttemptBudget;
  _policy : FailureDisposition -> FailoverDecision;
  _classifier : exc -> FailureDisposition;
  _provider_key : Provider -> Key
}.

Record _ModelCallState : Type := mkState {
  provider : Provider;
  request : Request;
  started_at : Z;
  attempts_by_provider : list (Key * Z);
  endpoint_switches : Z;
  credential_rotations : Z;
  request_transforms : Z
}.

Record AttemptResumeSeed : Type := mkSeed {
  seed_wire_attempts : Z;
  seed_attempts_by_provider : list (Key * Z);
  seed_endpoint_switches : Z;
  seed_credential_rotations : Z;
  seed_request_transforms : Z;
  seed_elapsed_seconds : Z
}.

Definition attempts_on_provider (k : Key) (s : _ModelCallState) : Z :=
  default 0 (Dict.get k (attempts_by_provider s)).

Definition record_attempt (k : Key) (s : _ModelCallState) : _ModelCallState :=
  mkState (provider s) (request s) (started_at s)
    (Dict.set k (attempts_on_provider k s + 1) (attempts_by_provider s))
    (endpoint_switches s) (credential_rotations s) (request_transforms s).

Definition with_provider (p : Provider) (s : _ModelCallState) : _ModelCallState :=
  mkState p (request s) (started_at s) (attempts_by_provider s)
    (endpoint_switches s) (credential_rotations s) (request_transforms s).
Definition with_request (r : Request) (s : _ModelCallState) : _ModelCallState :=
  mkState (provider s) r (started_at s) (attempts_by_provider s)
    (endpoint_switches s) (credential_rotations s) (request_transforms s).
Definition with_counts (sw ro tr : Z) (s : _ModelCallState) : _ModelCallState :=
  mkState (provider s) (request s) (started_at s) (attempts_by_provider s) sw ro tr.

Variable cb : callables.
Variable cfg : config.

Definition now : M Z := call_ok (monotonic cb).

Definition _remaining_seconds (s : _ModelCallState) : M Z :=
  let! t := now in ret (Z.max (total_deadline_seconds (_budget cfg) - (t - started_at s)) 0).

Definition _deadline_exhausted (s : _ModelCallState) : M bool :=
  let! r := _remaining_seconds s in ret (r <=? 0).

Definition _endpoint_attempt_limit_reached (s : _ModelCallState) : bool :=
  max_attempts_per_endpoint (_budget cfg) <=?
    attempts_on_provider (_provider_key cfg (provider s)) s.

Definition recovery : Type := bool * FailoverDecision.

Definition _switch_endpoint (s : _ModelCallState) (why : string) : M (_ModelCallState * recovery) :=
  let switched := mkDecision SWITCH_ENDPOINT why None 0 in
  match endpoint_selector cb with
  | None => ret (s, (false, switched))
  | Some selector =>
      if max_endpoint_switches (_budget cfg) <=? endpoint_switches s then ret (s, (false, switched))
      else
        let! p := call selector in
        match p with
        | None => ret (s, (false, switched))
        | Some p =>
            emit ESwitch ;;;
            ret (with_provider p (with_counts (endpoint_switches s + 1) (credential_rotations s)
                                    (request_transforms s) s), (true, switched))
        end
  end.

(** What [getattr(exc, "retry_after", None)] finds on the failure at hand. *)
Definition retry_after_of (e : error) : option Z :=
  match e with AttemptFailed (MoteErr _ _ _ ra) => ra | _ => None end.

Definition _retry (s : _ModelCallState) (attempt : Z) (e : error) (requested_delay : Z) : M bool :=
  let wanted := if requested_delay =? 0 then retry_delay (retry_after_of e) attempt
                else requested_delay in
  let delay := Z.min wanted (max_backoff_seconds (_budget cfg)) in
  let! remaining := _remaining_seconds s in
  if remaining <=? delay then ret false
  else
    emit (ESleep delay remaining) ;;;
    call (sleep cb delay) ;;;
    ret true.

Definition _apply_decision (decision : FailoverDecision) (attempt : Z) (e : error)
    (disposition : FailureDisposition) (s : _ModelCallState) : M (_ModelCallState * recovery) :=
  let switch s := _switch_endpoint s (d_reason decision) in
  match kind decision with
  | RETRY_SAME_ENDPOINT =>
      if _endpoint_attempt_limit_reached s then switch s
      else
        let! ok := _retry s attempt e (delay_seconds decision) in
        ret (s, (ok, decision))
  | ROTATE_CREDENTIAL =>
      if _endpoint_attempt_limit_reached s then switch s
      else if credential_rotations s <? max_credential_rotations (_budget cfg) then
        let s := with_counts (endpoint_switches s) (credential_rotations s + 1)
                   (request_transforms s) s in
        emit ERotate ;;;
        let! p := match next_credential cb with
             | Some f => call (f (provider s))
             | None => ret None
             end in
        match p with
        | Some p => ret (with_provider p s, (true, decision))
        | None => switch s
        end
      else switch s
  | SWITCH_ENDPOINT => switch s
  | TRANSFORM_REQUEST =>
      if _endpoint_attempt_limit_reached s then switch s
      else if max_request_transforms (_budget cfg) <=? request_transforms s then switch s
      else
        let s := with_counts (endpoint_switches s) (credential_rotations s)
                   (request_transforms s + 1) s in
        emit ETransform ;;;
        match transform decision, request_transformer cb with
        | Some t, Some f =>
            let! r := call (f (provider s) (request s) t disposition) in
            match r with
            | Some r => ret (with_request r s, (true, decision))
            | None => switch s
            end
        | _, _ => switch s
        end
  | ABORT => ret (s, (false, decision))
  end.

(** The admission step of an iteration: go on with a permit (or without one when
    there is no admission), or start over after a recovered rejection. *)
Inductive admitted : Type :=
| Go (p : option Permit)
| Again (rejections : Z) (s : _ModelCallState).

Definition max_admission_rejections : Z :=
  max_credential_rotations (_budget cfg) + max_endpoint_switches (_budget cfg) + 1.

Definition observe (attempt : Z) (decision applied : FailoverDecision) : M unit :=
  match observe_decision cb with
  | None => ret tt
  | Some f => call (f attempt decision applied)
  end.

(** Decide on a failure, give up or recover; [may_stop] are the conditions of the
    caller beside an [ABORT] and the deadline. *)
Definition recover (may_stop : bool) (attempt : Z) (e : error) (disposition : FailureDisposition)
    (s : _ModelCallState) : M _ModelCallState :=
  let decision := _policy cfg disposition in
  emit (EDecide (kind decision)) ;;;
  if bool_decide (kind decision = ABORT) || may_stop then raise e
  else
    let! late := _deadline_exhausted s in
    if late : bool then raise e
    else
      let! (s, (recovered, applied)) := _apply_decision decision attempt e disposition s in
      if negb recovered then raise e
      else observe attempt decision applied ;;; ret s.

Definition admit_step (wire rejections : Z) (s : _ModelCallState) : M admitted :=
  match admit_with cb with
  | None => ret (Go None)
  | Some f =>
      let! remaining := _remaining_seconds s in
      let! a := call (f (provider s) remaining) in
      match a with
      | Granted p => emit EAdmitted ;;; ret (Go (Some p))
      | Rejection d =>
          let rejections := rejections + 1 in
          emit ERejected ;;;
          let! s := recover (max_admission_rejections <=? rejections) (Z.max wire 1)
                      (AdmissionRejectedError d) d s in
          ret (Again rejections s)
      end
  end.

(** Settle the permit of the attempt, if there is one: [None] abandons,
    [Some None] succeeds, [Some (Some d)] fails. *)
Definition settle (p : option Permit) (how : option (option FailureDisposition)) : M unit :=
  match p with
  | None => ret tt
  | Some p =>
      emit match how with None => EAbandon | Some None => ESucceed | Some (Some _) => EFail end ;;;
      call (settle_permit cb p how)
  end.

Definition attempt_once (s : _ModelCallState) : M attempt_result :=
  emit (EExec (_provider_key cfg (provider s))) ;;;
  call_ok (execute_once cb (provider s) (request s)).

(** One wire attempt with its permit: the result of the call, or the state to go
    round again with. *)
Definition attempt_step (wire : Z) (permit : option Permit) (s : _ModelCallState)
    : M (Result + _ModelCallState) :=
  let attempt := wire + 1 in
  let s := record_attempt (_provider_key cfg (provider s)) s in
  let! r := attempt_once s in
  match r with
  | Cancelled => settle permit None ;;; raise CancelledError
  | Raised e =>
      let disposition := _classifier cfg e in
      settle permit (Some (Some disposition)) ;;;
      let! s := recover (max_wire_attempts (_budget cfg) <=? attempt) attempt
                  (AttemptFailed e) disposition s in
      ret (inr s)
  | Returned r => settle permit (Some None) ;;; ret (inl r)
  end.

(** The [while] loop. *)
Fixpoint loop (fuel : nat) (wire rejections : Z) (s : _ModelCallState) : M Result :=
  match fuel with
  | O => raise OutOfFuel
  | S fuel =>
    if wire <? max_wire_attempts (_budget cfg) then
      let! a := admit_step wire rejections s in
      match a with
      | Again rejections s => loop fuel wire rejections s
      | Go permit =>
          let! r := attempt_step wire permit s in
          match r with
          | inl r => ret r
          | inr s => loop fuel (wire + 1) rejections s
          end
      end
    else raise AssertionError
  end.

(** Every iteration uses a wire attempt or an admission rejection. *)
Definition run_fuel (seed : AttemptResumeSeed) : nat :=
  S (Z.to_nat (max_wire_attempts (_budget cfg) - seed_wire_attempts seed) +
     Z.to_nat max_admission_rejections).

Definition run (primary : Provider) (req : Request) (seed : AttemptResumeSeed) : M Result :=
  let! t := now in
  loop (run_fuel seed) (seed_wire_attempts seed) 0
    (mkState primary req (t - seed_elapsed_seconds seed) (seed_attempts_by_provider seed)
       (seed_endpoint_switches seed) (seed_credential_rotations seed)
       (seed_request_transforms seed)).

(** ** The protocol of a call

    What a correct retry loop may ask, as an automaton over its trace: with
    admission every attempt needs a permit; a permit is settled by exactly one
    event, right after its attempt; only a failure or a rejection is followed by a
    decision; nothing follows an [ABORT] or the end of a successful attempt. *)
Inductive phase : Type := Idle | Held | Sent (held : bool) | Faulty | Deciding | Over.

Definition protocol_step (admission : bool) (p : phase) (e : event) : option phase :=
  match p, e with
  | (Idle | Deciding), EAdmitted => if admission then Some Held else None
  | (Idle | Deciding), ERejected => if admission then Some Faulty else None
  | (Idle | Deciding), EExec _ => if admission then None else Some (Sent false)
  | Held, EExec _ => Some (Sent true)
  | Sent true, (ESucceed | EAbandon) => Some Over
  | Sent true, EFail => Some Faulty
  | (Sent false | Faulty), EDecide ABORT => Some Over
  | (Sent false | Faulty), EDecide _ => Some Deciding
  | Deciding, (ERotate | ETransform | ESwitch | ESleep _ _) => Some Deciding
  | _, _ => None
  end.

Fixpoint protocol (admission : bool) (p : phase) (tr : list event) : option phase :=
  match tr with
  | [] => Some p
  | e :: tr =>
      match protocol_step admission p e with
      | Some p => protocol admission p tr
      | None => None
      end
  end.

(** No permit is left unsettled. *)
Definition settled (p : phase) : bool :=
  match p with Held | Sent true => false | _ => true end.

Definition is_exec (e : event) : bool := match e with EExec _ => true | _ => false end.
Definition is_switch (e : event) : bool := match e with ESwitch => true | _ => false end.
Definition is_rotate (e : event) : bool := match e with ERotate => true | _ => false end.
Definition is_transform (e : event) : bool := match e with ETransform => true | _ => false end.
Definition sleep_ok (e : event) : Prop :=
  match e with
  | ESleep d r => d <= max_backoff_seconds (_budget cfg) /\ d < r
  | _ => True
  end.
Definition recovering (e : event) : bool :=
  match e with ERotate | ETransform | ESwitch | ESleep _ _ => true | _ => false end.

Definition has_admission : bool := match admit_with cb with Some _ => true | None => false end.

Lemma protocol_app a p t1 t2 :
  protocol a p (t1 ++ t2) =
    match protocol a p t1 with Some p => protocol a p t2 | None => None end.
Proof. revert p. induction t1 as [|e t1 IH]; intros p; simpl; [done|]. by case_match. Qed.

Lemma protocol_recovering a t :
  Forall (fun e => recovering e = true) t -> protocol a Deciding t = Some Deciding.
Proof. induction 1 as [|e t He _ IH]; [done|]. by destruct e. Qed.

(** *** A program logic for the loop: [emits m Q] says that every run of [m] only
    appends to the trace, and that [Q] holds of what it appended and its outcome. *)
Definition emits {A} (m : M A) (Q : list event -> outcome error A -> Prop) : Prop :=
  forall s, exists t, snd (fst (m s)) = snd s ++ t /\ Q t (snd (m s)).

Lemma emits_ret {A} (a : A) (Q : _ -> _ -> Prop) : Q [] (Ok a) -> emits (ret a) Q.
Proof. intros H s. exists []. by rewrite app_nil_r. Qed.
Lemma emits_raise {A} e (Q : _ -> outcome error A -> Prop) : Q [] (Raise e) -> emits (raise e) Q.
Proof. intros H s. exists []. by rewrite app_nil_r. Qed.
Lemma emits_emit e (Q : _ -> _ -> Prop) : Q [e] (Ok tt) -> emits (emit e) Q.
Proof. intros H s. by exists [e]. Qed.
Lemma emits_call_ok {A} (f : Env -> Env * A) (Q : _ -> _ -> Prop) :
  (forall a, Q [] (Ok a)) -> emits (call_ok f) Q.
Proof. intros H s. exists []. unfold call_ok. destruct (f (fst s)). simpl. by rewrite app_nil_r. Qed.
Lemma emits_call {A} (f : Env -> Env * outcome fault A) (Q : _ -> _ -> Prop) :
  (forall a, Q [] (Ok a)) -> (forall e, Q [] (Raise (of_fault e))) -> emits (call f) Q.
Proof.
  intros H1 H2 s. exists []. unfold call. destruct (f (fst s)) as [env []]; simpl;
    by rewrite app_nil_r.
Qed.
Lemma emits_bind {A B} (m : M A) (k : A -> M B) Q1 (Q : _ -> _ -> Prop) :
  emits m Q1 ->
  (forall t e, Q1 t (Raise e) -> Q t (Raise e)) ->
  (forall t a, Q1 t (Ok a) -> emits (k a) (fun t' o => Q (t ++ t') o)) ->
  emits (bind m k) Q.
Proof.
  intros Hm Hr Hk s. unfold bind. destruct (Hm s) as (t & Et & Ht).
  destruct (m s) as [s' [a|e]]; simpl in *.
  - destruct (Hk t a Ht s') as (t' & Et' & Ht'). exists (t ++ t').
    by rewrite Et', Et, app_assoc.
  - exists t. auto.
Qed.
Lemma emits_mono {A} (m : M A) (Q1 Q : _ -> _ -> Prop) :
  emits m Q1 -> (forall t o, Q1 t o -> Q t o) -> emits m Q.
Proof. intros Hm H s. destruct (Hm s) as (t & ? & ?). exists t. auto. Qed.

Lemma emits_emit_bind {B} e (k : unit -> M B) (Q : _ -> _ -> Prop) :
  emits (k tt) (fun t o => Q (e :: t) o) -> emits (bind (emit e) k) Q.
Proof.
  intros H. apply (emits_bind _ _ (fun t o => t = [e] /\ o = Ok tt)).
  - by apply emits_emit.
  - by intros t e' [_ ?].
  - intros t [] [-> _]. done.
Qed.
Lemma emits_call_ok_bind {A B} (f : Env -> Env * A) (k : A -> M B) (Q : _ -> _ -> Prop) :
  (forall a, emits (k a) Q) -> emits (bind (call_ok f) k) Q.
Proof.
  intros H. apply (emits_bind _ _ (fun t o => t = [] /\ exists a, o = Ok a)).
  - apply emits_call_ok. eauto.
  - intros t e [_ [a ?]]. done.
  - intros t a [-> _]. apply H.
Qed.
Lemma emits_call_bind {A B} (f : Env -> Env * outcome fault A) (k : A -> M B) (Q : _ -> _ -> Prop) :
  (forall e, Q [] (Raise (of_fault e))) -> (forall a, emits (k a) Q) -> emits (bind (call f) k) Q.
Proof.
  intros H1 H2.
  apply (emits_bind _ _ (fun t o => t = [] /\ match o with Ok _ => True | Raise e => exists f, e = of_fault f end)).
  - apply emits_call; eauto.
  - intros t e [-> [f' ->]]. done.
  - intros t a [-> _]. apply H2.
Qed.
Lemma emits_assoc {A B C} (m : M A) (k : A -> M B) (h : B -> M C) (Q : _ -> _ -> Prop) :
  emits (bind m (fun a => bind (k a) h)) Q -> emits (bind (bind m k) h) Q.
Proof.
  intros H s. specialize (H s). revert H. unfold bind.
  destruct (m s) as [s' [a|e]]; done.
Qed.
Lemma emits_ret_bind {A B} (a : A) (k : A -> M B) (Q : _ -> _ -> Prop) :
  emits (k a) Q -> emits (bind (ret a) k) Q.
Proof. intros H s. apply H. Qed.

Lemma emits_remaining_bind {B} s (k : Z -> M B) (Q : _ -> _ -> Prop) :
  (forall r, emits (k r) Q) -> emits (bind (_remaining_seconds s) k) Q.
Proof. intros H. apply emits_assoc, emits_call_ok_bind. intros t. by apply emits_ret_bind. Qed.
Lemma emits_late_bind {B} s (k : bool -> M B) (Q : _ -> _ -> Prop) :
  (forall b, emits (k b) Q) -> emits (bind (_deadline_exhausted s) k) Q.
Proof. intros H. apply emits_assoc, emits_remaining_bind. intros t. by apply emits_ret_bind. Qed.

(** *** The recovery step *)

(** The events of a recovery respect the budgets that state [s] has left. *)
Record within (s : _ModelCallState) (t : list event) : Prop := {
  within_switch : endpoint_switches s + count_if is_switch t <=
                  Z.max (endpoint_switches s) (max_endpoint_switches (_budget cfg));
  within_rotate : credential_rotations s + count_if is_rotate t <=
                  Z.max (credential_rotations s) (max_credential_rotations (_budget cfg));
  within_transform : request_transforms s + count_if is_transform t <=
                  Z.max (request_transforms s) (max_request_transforms (_budget cfg));
  within_sleep : Forall sleep_ok t
}.

Definition advanced (s s' : _ModelCallState) (t : list event) : Prop :=
  endpoint_switches s' = endpoint_switches s + count_if is_switch t /\
  credential_rotations s' = credential_rotations s + count_if is_rotate t /\
  request_transforms s' = request_transforms s + count_if is_transform t.

Definition benign (e : error) : Prop := e <> OutOfFuel /\ e <> AssertionError.

Definition recovery_post {A} (s : _ModelCallState) (st : A -> _ModelCallState)
    (t : list event) (o : outcome error A) : Prop :=
  Forall (fun e => recovering e = true) t /\ within s t /\
  match o with Ok a => advanced s (st a) t | Raise e => benign e end.

Lemma benign_fault f : benign (of_fault f).
Proof. by destruct f. Qed.
Hint Resolve benign_fault : core.

Lemma within_app s s1 t1 t2 :
  within s t1 -> advanced s s1 t1 -> within s1 t2 -> within s (t1 ++ t2).
Proof.
  intros [A1 A2 A3 A4] (E1 & E2 & E3) [B1 B2 B3 B4].
  split; rewrite ?count_if_app; [lia..|]. by apply Forall_app.
Qed.

Lemma advanced_app s s1 s2 t1 t2 : advanced s s1 t1 -> advanced s1 s2 t2 -> advanced s s2 (t1 ++ t2).
Proof. intros (?&?&?) (?&?&?). unfold advanced. rewrite !count_if_app. lia. Qed.

Lemma within_nil s : within s [].
Proof. split; simpl; [lia..|done]. Qed.
Lemma advanced_nil s : advanced s s [].
Proof. unfold advanced; simpl; lia. Qed.
Hint Resolve within_nil advanced_nil : core.

(** Recovery that happens before or after a bookkeeping event. *)
Lemma recovery_post_cons {A} (st : A -> _ModelCallState) s s1 e t o :
  recovering e = true -> within s [e] -> advanced s s1 [e] ->
  recovery_post s1 st t o -> recovery_post s st (e :: t) o.
Proof.
  intros He Hw Ha (H1 & H2 & H3). unfold recovery_post. split_and!.
  - by constructor.
  - by apply (within_app s s1 [e]).
  - destruct o; [|done]. by apply (advanced_app s s1 _ [e]).
Qed.

Lemma recovery_post_fault {A} s (st : A -> _ModelCallState) f :
  recovery_post s st [] (Raise (of_fault f)).
Proof. by unfold recovery_post; split_and!. Qed.
Hint Resolve recovery_post_fault : core.

Lemma switch_spec s why : emits (_switch_endpoint s why) (recovery_post s fst).
Proof.
  unfold _switch_endpoint. destruct (endpoint_selector cb) as [f|]; [|by apply emits_ret].
  destruct (_ <=? _) eqn:E; [by apply emits_ret|]. zbool.
  apply emits_call_bind; [auto|]. intros [p|]; [|by apply emits_ret].
  apply emits_emit_bind, emits_ret. unfold recovery_post; split_and!; [by repeat constructor| |].
  - split; simpl; [lia..|by repeat constructor].
  - unfold advanced; simpl. lia.
Qed.

Lemma apply_decision_spec d n e disp s :
  emits (_apply_decision d n e disp s) (recovery_post s fst).
Proof.
  unfold _apply_decision. destruct (kind d).
  - destruct (_endpoint_attempt_limit_reached s); [apply switch_spec|].
    unfold _retry. apply emits_assoc, emits_remaining_bind. intros r.
    destruct (r <=? _) eqn:E; [by apply emits_ret_bind, emits_ret|]. zbool.
    apply emits_assoc, emits_emit_bind, emits_assoc, emits_call_bind.
    + intros f. unfold recovery_post; split_and!; [by repeat constructor| |done].
      split; simpl; [lia..|]. repeat constructor; simpl; lia.
    + intros _. apply emits_ret_bind, emits_ret. unfold recovery_post; split_and!; [by repeat constructor| |].
      * split; simpl; [lia..|]. repeat constructor; simpl; lia.
      * unfold advanced; simpl; lia.
  - destruct (_endpoint_attempt_limit_reached s); [apply switch_spec|].
    destruct (_ <? _) eqn:E; [|apply switch_spec]. zbool. apply emits_emit_bind.
    eapply emits_mono; [|intros t o; apply (recovery_post_cons _ s
      (with_counts (endpoint_switches s) (credential_rotations s + 1) (request_transforms s) s))];
      [|done|split; simpl; [lia..|by repeat constructor]|unfold advanced; simpl; lia].
    destruct (next_credential cb) as [f|]; [|apply emits_ret_bind, switch_spec].
    apply emits_call_bind; [auto|]. intros [p|]; [|apply switch_spec].
    apply emits_ret. unfold recovery_post. split_and!; [done|done|unfold advanced; simpl; lia].
  - destruct (_endpoint_attempt_limit_reached s); [apply switch_spec|].
    destruct (_ <=? _) eqn:E; [apply switch_spec|]. zbool. apply emits_emit_bind.
    eapply emits_mono; [|intros t o; apply (recovery_post_cons _ s
      (with_counts (endpoint_switches s) (credential_rotations s) (request_transforms s + 1) s))];
      [|done|split; simpl; [lia..|by repeat constructor]|unfold advanced; simpl; lia].
    destruct (transform d) as [t|]; [|apply switch_spec].
    destruct (request_transformer cb) as [f|]; [|apply switch_spec].
    apply emits_call_bind; [auto|]. intros [p|]; [|apply switch_spec].
    apply emits_ret. unfold recovery_post. split_and!; [done|done|unfold advanced; simpl; lia].
  - apply switch_spec.
  - by apply emits_ret.
Qed.

(** A decision: what follows it, from a fault or an attempt without permit. *)
Lemma recover_spec may_stop n e d s :
  benign e ->
  emits (recover may_stop n e d s) (fun t o =>
    (forall a p, p = Faulty \/ p = Sent false ->
       protocol a p t = Some (if decide (kind (_policy cfg d) = ABORT) then Over else Deciding)) /\
    count_if is_exec t = 0 /\ within s t /\
    match o with
    | Ok s' => advanced s s' t /\ may_stop = false /\ kind (_policy cfg d) <> ABORT
    | Raise e => benign e
    end).
Proof.
  intros He. unfold recover. apply emits_emit_bind.
  assert (forall t o, recovery_post s (fun s' => s') t o ->
    (kind (_policy cfg d) = ABORT -> t = []) ->
    (match o with Ok _ => may_stop = false /\ kind (_policy cfg d) <> ABORT | _ => True end) ->
    (forall a p, p = Faulty \/ p = Sent false ->
       protocol a p (EDecide (kind (_policy cfg d)) :: t)
       = Some (if decide (kind (_policy cfg d) = ABORT) then Over else Deciding)) /\
    count_if is_exec (EDecide (kind (_policy cfg d)) :: t) = 0 /\
    within s (EDecide (kind (_policy cfg d)) :: t) /\
    match o with
    | Ok s' => advanced s s' (EDecide (kind (_policy cfg d)) :: t) /\ may_stop = false /\
               kind (_policy cfg d) <> ABORT
    | Raise e => benign e
    end) as Hpost.
  { intros t o (H1 & H2 & H3) Ha Hm.
    assert (count_if is_exec t = 0) as Hex.
    { clear -H1. induction H1 as [|x l Hx _ IH]; [done|]. destruct x; done. }
    split_and!.
    - intros a p [-> | ->]; simpl; destruct (kind (_policy cfg d)) eqn:Ek; simpl;
        rewrite ?protocol_recovering by done; try done; by rewrite Ha.
    - simpl. done.
    - destruct H2. split; simpl; [done..|]. by constructor.
    - destruct o; [|done]. split; [|done]. destruct H3 as (?&?&?). by unfold advanced; simpl. }
  destruct (bool_decide (kind (_policy cfg d) = ABORT) || may_stop) eqn:E.
  { apply emits_raise. apply (Hpost [] (Raise e)); [|done..]. by unfold recovery_post. }
  apply orb_false_iff in E as [Ek%bool_decide_eq_false ->].
  apply emits_late_bind. intros [].
  { apply emits_raise. apply (Hpost [] (Raise e)); [|done..]. by unfold recovery_post. }
  eapply (emits_bind _ _ (recovery_post s fst)); [apply apply_decision_spec| |].
  - intros t e' Ht. apply (Hpost t (Raise e')); [|done..]. exact Ht.
  - intros t [s' [recovered applied]] (H1 & H2 & H3). simpl in H3.
    assert (forall o : outcome error _ModelCallState,
      match o with Ok s2 => s2 = s' | Raise e => benign e end ->
      recovery_post s (fun s' => s') (t ++ []) o) as Hend.
    { rewrite app_nil_r. intros [s2|e2] Ho; unfold recovery_post; split_and!; try done. by subst. }
    destruct recovered; simpl.
    + unfold observe. destruct (observe_decision cb) as [f|].
      * apply emits_call_bind; [intros e'; apply (Hpost _ (Raise _)); [by apply Hend|done..]|].
        intros _. apply emits_ret. apply (Hpost _ (Ok _)); [by apply Hend|done..].
      * apply emits_ret_bind, emits_ret. apply (Hpost _ (Ok _)); [by apply Hend|done..].
    + apply emits_raise. apply (Hpost _ (Raise _)); [by apply Hend|done..].
Qed.

Definition ready (p : phase) : Prop := p = Idle \/ p = Deciding.

(** What a run of the loop guarantees of its trace and its end. *)
Record loop_post (wire rej : Z) (fuel : nat) (s : _ModelCallState)
    (t : list event) (o : outcome error Result) : Prop := {
  lp_protocol p : ready p -> exists q, protocol has_admission p t = Some q /\ settled q = true;
  lp_wire : wire + count_if is_exec t <= Z.max wire (max_wire_attempts (_budget cfg));
  lp_within : within s t;
  lp_assert : o = Raise AssertionError -> max_wire_attempts (_budget cfg) <= wire;
  lp_fuel : o = Raise OutOfFuel ->
    (fuel <= Z.to_nat (max_wire_attempts (_budget cfg) - wire)
             + Z.to_nat (max_admission_rejections - rej))%nat
}.

Lemma loop_post_benign wire rej fuel s t o :
  (forall p, ready p -> exists q, protocol has_admission p t = Some q /\ settled q = true) ->
  wire + count_if is_exec t <= Z.max wire (max_wire_attempts (_budget cfg)) ->
  within s t -> (forall e, o = Raise e -> benign e) -> loop_post wire rej fuel s t o.
Proof.
  intros H1 H2 H3 H4. split; [done..| |]; intros E; destruct (H4 _ E); done.
Qed.

(** The trace of an admission. *)
Lemma admit_step_spec wire rej s :
  emits (admit_step wire rej s) (fun t o =>
    (forall p, ready p -> exists q, protocol has_admission p t = Some q /\
       match o with
       | Ok (Go permit) => q = (if has_admission then Held else p) /\
           (permit = None <-> has_admission = false)
       | Ok (Again _ _) => ready q
       | Raise _ => settled q = true
       end) /\
    count_if is_exec t = 0 /\ within s t /\
    match o with
    | Ok (Go _) => advanced s s t
    | Ok (Again rej' s') => advanced s s' t /\ rej' = rej + 1 /\ rej' < max_admission_rejections
    | Raise e => benign e
    end).
Proof.
  unfold admit_step, has_admission. destruct (admit_with cb) as [f|].
  - apply emits_remaining_bind. intros r. apply emits_call_bind.
    + intros e. split_and!; auto. intros p Hp. exists p. split; [done|]. by destruct Hp as [-> | ->].
    + intros [p|d].
      * apply emits_emit_bind, emits_ret. split_and!.
        -- intros q [-> | ->]; eexists; (split; [reflexivity|]); done.
        -- done.
        -- split; simpl; [lia..|by repeat constructor].
        -- unfold advanced; simpl; lia.
      * apply emits_emit_bind. eapply emits_bind.
        -- by apply recover_spec.
        -- intros t e (H1 & H2 & H3 & H4). split_and!.
           ++ intros q Hq. exists (if decide (kind (_policy cfg d) = ABORT) then Over else Deciding).
              rewrite <- (H1 true Faulty) by auto. split; [by destruct Hq as [-> | ->]|].
              by case_decide.
           ++ simpl. lia.
           ++ destruct H3. split; simpl; [done..|]. by constructor.
           ++ done.
        -- intros t s' (H1 & H2 & H3 & H4 & Hm & Hk). apply emits_ret. rewrite app_nil_r. split_and!.
           ++ intros q Hq. eexists. split; [|].
              { transitivity (protocol true Faulty t); [by destruct Hq as [-> | ->]|].
                rewrite (H1 true Faulty), decide_False by auto. reflexivity. }
              by right.
           ++ simpl. lia.
           ++ destruct H3. split; simpl; [done..|]. by constructor.
           ++ destruct H4 as (?&?&?). by unfold advanced; simpl.
           ++ done.
           ++ zbool. lia.
  - apply emits_ret. split_and!; auto. intros p Hp. by exists p.
Qed.

Lemma settled_ready p : ready p -> settled p = true.
Proof. by intros [-> | ->]. Qed.

(** Prefixing a run of the loop by an admission that started over. *)
Lemma loop_post_again wire rej fuel s s1 t1 t2 o :
  (forall p, ready p -> exists q, protocol has_admission p t1 = Some q /\ ready q) ->
  count_if is_exec t1 = 0 -> within s t1 -> advanced s s1 t1 ->
  rej + 1 < max_admission_rejections ->
  loop_post wire (rej + 1) fuel s1 t2 o -> loop_post wire rej (S fuel) s (t1 ++ t2) o.
Proof.
  intros Hp He Hw Ha Hr [P W I A F]. split; rewrite ?count_if_app.
  - intros p Hrp. destruct (Hp p Hrp) as (q & Eq & Hq). destruct (P q Hq) as (q' & Eq' & ?).
    exists q'. by rewrite protocol_app, Eq.
  - lia.
  - by apply (within_app s s1).
  - done.
  - intros E. specialize (F E). lia.
Qed.

Definition settle_event (how : option (option FailureDisposition)) : event :=
  match how with None => EAbandon | Some None => ESucceed | Some (Some _) => EFail end.

Lemma settle_spec permit how :
  emits (settle permit how) (fun t o =>
    t = (if permit is Some _ then [settle_event how] else []) /\
    match o with Ok _ => True | Raise e => benign e end).
Proof.
  destruct permit as [p|]; simpl; [|by apply emits_ret].
  apply emits_emit_bind, emits_call; auto.
Qed.

Lemma within_cons s e t :
  is_switch e = false -> is_rotate e = false -> is_transform e = false -> sleep_ok e ->
  within s t -> within s (e :: t).
Proof.
  intros E1 E2 E3 Hs [H1 H2 H3 H4]. split; simpl; rewrite ?E1, ?E2, ?E3; simpl; [lia..|].
  by constructor.
Qed.

Lemma advanced_cons s s' e t :
  is_switch e = false -> is_rotate e = false -> is_transform e = false ->
  advanced s s' t -> advanced s s' (e :: t).
Proof. intros E1 E2 E3. unfold advanced; simpl. rewrite E1, E2, E3. done. Qed.

Definition attempt_post (wire : Z) (s : _ModelCallState) (t : list event)
    (o : outcome error (Result + _ModelCallState)) : Prop :=
  (forall p, ready p -> exists q,
     protocol has_admission (if has_admission then Held else p) t = Some q /\
     match o with Ok (inr _) => ready q | _ => settled q = true end) /\
  count_if is_exec t = 1 /\ within s t /\
  match o with
  | Ok (inr s') => advanced s s' t /\ wire + 1 < max_wire_attempts (_budget cfg)
  | Ok (inl _) => True
  | Raise e => benign e
  end.

(** An attempt whose events after sending are [t]. *)
Lemma attempt_post_intro wire k s t o q :
  protocol has_admission (Sent has_admission) t = Some q ->
  match o with Ok (inr _) => ready q | _ => settled q = true end ->
  count_if is_exec t = 0 -> within s t ->
  match o with
  | Ok (inr s') => advanced s s' t /\ wire + 1 < max_wire_attempts (_budget cfg)
  | Ok (inl _) => True
  | Raise e => benign e
  end ->
  attempt_post wire s (EExec k :: t) o.
Proof.
  intros Hq Ho Hc Hw Hs. split_and!.
  - intros p Hp. exists q. split; [|done]. rewrite <- Hq. simpl.
    destruct has_admission; [done|]. by destruct Hp as [-> | ->].
  - simpl. lia.
  - by apply within_cons.
  - destruct o as [[r|s']|e]; try done.
Qed.

(** How a permit is settled, whatever the attempt gave. *)
Lemma settle_events_spec (permit : option Permit) s how :
  (permit = None <-> has_admission = false) ->
  exists q,
    protocol has_admission (Sent has_admission)
      (if permit is Some _ then [settle_event how] else []) = Some q /\
    (q = Faulty \/ q = Sent false \/ q = Over) /\
    (match how with Some (Some _) => q <> Over | _ => True end) /\
    settled q = true /\
    within s (if permit is Some _ then [settle_event how] else []) /\
    count_if is_exec (if permit is Some _ then [settle_event how] else []) = 0.
Proof.
  intros Hp. assert (within s (if permit is Some _ then [settle_event how] else [])) as Hw.
  { destruct permit; [|done]. apply within_cons; try done; by destruct how as [[]|]. }
  destruct permit as [p|].
  - assert (has_admission = true) as -> by (destruct has_admission; [done|]; naive_solver).
    destruct how as [[]|]; eexists; simpl; split_and!; eauto.
  - assert (has_admission = false) as -> by naive_solver.
    exists (Sent false). split_and!; auto. by destruct how as [[]|].
Qed.

Lemma attempt_step_spec wire permit s :
  (permit = None <-> has_admission = false) ->
  emits (attempt_step wire permit s) (attempt_post wire s).
Proof.
  intros Hp. unfold attempt_step, attempt_once.
  apply emits_assoc, emits_emit_bind, emits_call_ok_bind. intros r.
  set (s0 := record_attempt _ s).
  pose proof (fun how => settle_events_spec permit s how Hp) as Hset.
  destruct r as [r| |e].
  - destruct (Hset (Some None)) as (q & H1 & _ & _ & H2 & H3 & H4).
    eapply emits_bind; [apply settle_spec|intros t e [-> He]|intros t [] [-> _]].
    + by eapply attempt_post_intro.
    + apply emits_ret. rewrite app_nil_r. by eapply attempt_post_intro.
  - destruct (Hset None) as (q & H1 & _ & _ & H2 & H3 & H4).
    eapply emits_bind; [apply settle_spec|intros t e [-> He]|intros t [] [-> _]].
    + by eapply attempt_post_intro.
    + apply emits_raise. rewrite app_nil_r. by eapply attempt_post_intro.
  - destruct (Hset (Some (Some (_classifier cfg e)))) as (q & H1 & Hq & Hno & H2 & H3 & H4).
    eapply emits_bind; [apply settle_spec|intros t e' [-> He]|intros t [] [-> _]].
    + by eapply attempt_post_intro.
    + set (t1 := if permit is Some _ then _ else _) in *.
      assert (q = Faulty \/ q = Sent false) as Hq' by naive_solver.
      assert (Hwa : forall t, within s0 t -> within s (t1 ++ t)).
      { intros t [? ? ? ?]. apply (within_app s s); [done| |by split].
        unfold t1. destruct permit; unfold advanced; simpl; lia. }
      eapply emits_bind; [apply (recover_spec _ _ _ _ s0); done| |].
      * intros t e' (R1 & R2 & R3 & R4). eapply attempt_post_intro; [| | |by apply Hwa|done].
        -- rewrite protocol_app, H1. by apply R1.
        -- simpl. by case_decide.
        -- rewrite count_if_app. lia.
      * intros t s' (R1 & R2 & R3 & R4 & Rm & Rk). apply emits_ret. rewrite app_nil_r. zbool.
        eapply attempt_post_intro; [| | |by apply Hwa|split; [|lia]].
        -- rewrite protocol_app, H1. by apply R1.
        -- simpl. rewrite decide_False by done. by right.
        -- rewrite count_if_app. lia.
        -- destruct R4 as (?&?&?). unfold t1, advanced in *. rewrite !count_if_app.
           destruct permit; simpl; done.
Qed.

Lemma loop_spec fuel wire rej s : emits (loop fuel wire rej s) (loop_post wire rej fuel s).
Proof.
  revert wire rej s. induction fuel as [|fuel IH]; intros wire rej s; simpl.
  { apply emits_raise. split; simpl; try done; try lia.
    intros p Hp. exists p. split; [done|]. by apply settled_ready. }
  destruct (wire <? max_wire_attempts (_budget cfg)) eqn:Ew; zbool.
  2:{ apply emits_raise. split; simpl; try done; try lia.
      intros p Hp. exists p. split; [done|]. by apply settled_ready. }
  eapply emits_bind; [apply admit_step_spec| |].
  - intros t e (H1 & H2 & H3 & H4). apply loop_post_benign; [done|lia|done|]. by intros ? [= ->].
  - intros t [permit|rej' s'] (H1 & H2 & H3 & H4).
    + assert (permit = None <-> has_admission = false) as Hpe.
      { destruct (H1 Idle) as (q & _ & _ & ?); [by left|done]. }
      eapply emits_bind; [by apply attempt_step_spec| |].
      * intros t2 e (A1 & A2 & A3 & A4). apply loop_post_benign.
        -- intros p Hp. destruct (H1 p Hp) as (q & Hq & -> & _). destruct (A1 p Hp) as (q' & ? & ?).
           exists q'. by rewrite protocol_app, Hq.
        -- rewrite count_if_app. lia.
        -- by apply (within_app s s).
        -- by intros ? [= ->].
      * intros t2 [r|s2] (A1 & A2 & A3 & A4).
        -- apply emits_ret. rewrite app_nil_r. apply loop_post_benign; [|rewrite count_if_app; lia| |done].
           ++ intros p Hp. destruct (H1 p Hp) as (q & Hq & -> & _).
              destruct (A1 p Hp) as (q' & ? & ?). exists q'. by rewrite protocol_app, Hq.
           ++ by apply (within_app s s).
        -- eapply emits_mono; [apply IH|]. intros t3 o [P W I A F]. destruct A4 as [A4 A5].
           split; rewrite ?app_assoc.
           ++ intros p Hp. destruct (H1 p Hp) as (q & Hq & -> & _).
              destruct (A1 p Hp) as (q' & Hq' & Hr). destruct (P q' Hr) as (q3 & ? & ?).
              exists q3. by rewrite !protocol_app, Hq, Hq'.
           ++ rewrite !count_if_app. lia.
           ++ rewrite <- app_assoc. apply (within_app s s); [done..|]. by apply (within_app s s2).
           ++ intros ->. specialize (A eq_refl). lia.
           ++ intros ->. specialize (F eq_refl). lia.
    + destruct H4 as (H4 & -> & H5).
      eapply emits_mono; [apply IH|]. intros t2 o. by apply (loop_post_again wire rej fuel s s').
Qed.

(** ** Properties *)

Lemma run_spec primary req seed env :
  let '((_, t), o) := run primary req seed (env, []) in
  exists s, endpoint_switches s = seed_endpoint_switches seed /\
    credential_rotations s = seed_credential_rotations seed /\
    request_transforms s = seed_request_transforms seed /\
    loop_post (seed_wire_attempts seed) 0 (run_fuel seed) s t o.
Proof.
  unfold run, now, bind, call_ok; cbn [fst snd]. destruct (monotonic cb env) as [env' t0].
  match goal with |- context [loop ?f ?w ?r ?s] => pose proof (loop_spec f w r s (env', [])) as H;
    destruct (loop f w r s (env', [])) as [[env2 t2] o]; set (s0 := s) in * end.
  destruct H as (t & Et & H). simpl in *. subst t2. exists s0. by split_and!.
Qed.

(** C11: The retry loop refines the protocol of a model call, whatever the provider,
    the selectors, the admission and the policy do, cancellation and their own
    exceptions included: with admission no attempt is sent without a permit, every
    permit is settled exactly once and before anything else happens, each failure
    gets one decision, nothing follows an abort or a success, and the loop never
    ends with a permit unsettled. *)
Theorem orchestrator_refines_protocol primary req seed env :
  let '((_, t), _) := run primary req seed (env, []) in
  exists q, protocol has_admission Idle t = Some q /\ settled q = true.
Proof.
  pose proof (run_spec primary req seed env) as H.
  destruct (run primary req seed (env, [])) as [[env' t] o].
  destruct H as (s & _ & _ & _ & [P _ _ _ _]). apply P. by left.
Qed.

(** A model call terminates within its budget: the loop always ends by itself
    (the model's fuel never runs out); wire attempts, endpoint switches, credential
    rotations and request transforms, counted with those a resumed call inherits,
    stay within the budget, or do not grow when the inherited count is beyond it;
    every sleep is at most the maximal backoff and shorter than the time left; and
    the assertion behind the loop is reached exactly by a resumed call that has no
    wire attempt left. *)
Theorem orchestrator_bounded primary req seed env :
  let '((_, t), o) := run primary req seed (env, []) in
  let b := _budget cfg in
  o <> Raise OutOfFuel /\
  seed_wire_attempts seed + count_if is_exec t <=
    Z.max (seed_wire_attempts seed) (max_wire_attempts b) /\
  seed_endpoint_switches seed + count_if is_switch t <=
    Z.max (seed_endpoint_switches seed) (max_endpoint_switches b) /\
  seed_credential_rotations seed + count_if is_rotate t <=
    Z.max (seed_credential_rotations seed) (max_credential_rotations b) /\
  seed_request_transforms seed + count_if is_transform t <=
    Z.max (seed_request_transforms seed) (max_request_transforms b) /\
  Forall sleep_ok t /\
  (o = Raise AssertionError <-> max_wire_attempts b <= seed_wire_attempts seed).
Proof.
  pose proof (run_spec primary req seed env) as H.
  assert (max_wire_attempts (_budget cfg) <= seed_wire_attempts seed ->
          snd (run primary req seed (env, [])) = Raise AssertionError) as Ha.
  { intros Hle. unfold run, now, bind, call_ok; simpl. destruct (monotonic cb env).
    by rewrite (proj2 (Z.ltb_ge _ _)). }
  destruct (run primary req seed (env, [])) as [[env' t] o].
  destruct H as (s & E1 & E2 & E3 & [_ W [I1 I2 I3 I4] A F]).
  rewrite E1, E2, E3 in *. split_and!; try done.
  intros ->. specialize (F eq_refl). unfold run_fuel in F. rewrite Z.sub_0_r in F. lia.
Qed.
End orchestrator.

(** ** Concrete runs *)

Definition nobody : @callables nat nat nat nat nat :=
  mkCallables (fun t => (t, Z.of_nat t)) (fun d t => ((t + Z.to_nat d)%nat, Ok tt))
    (fun p r t => (t, match p with O => Raised (MoteErr LLM_RATE_LIMIT true (Some 429) (Some 3))
                      | _ => Returned (p + r)%nat end))
    None (Some (fun t => (t, Ok (Some 7%nat)))) None
    (Some (fun p rem t => (t, Ok (Granted p)))) (fun p how t => (t, Ok tt)) None.

Definition plain : @config nat nat :=
  mkConfig default_budget policy_decide classify_failure (fun p => p).

(** Rate limited six times at one endpoint: the sleeps use up the wire budget. *)
Example rate_limited_run :
  snd (run nobody plain 0%nat 1%nat (mkSeed 4 [(0%nat, 4)] 0 0 0 0) (0%nat, [])) =
    Raise (AttemptFailed (MoteErr LLM_RATE_LIMIT true (Some 429) (Some 3))) /\
  snd (fst (run nobody plain 0%nat 1%nat (mkSeed 4 [(0%nat, 4)] 0 0 0 0) (0%nat, []))) =
    [EAdmitted; EExec 0%nat; EFail; EDecide RETRY_SAME_ENDPOINT; ESleep 3 600;
     EAdmitted; EExec 0%nat; EFail; EDecide RETRY_SAME_ENDPOINT].
Proof. split; vm_compute; reflexivity. Qed.

(** With the endpoint's attempts used up, the retry becomes a switch. *)
Example switched_run :
  snd (run nobody (mkConfig (mkBudget 6 1 5 5 5 600 180 60) policy_decide classify_failure
                     (fun p => p)) 0%nat 1%nat (mkSeed 0 [] 0 0 0 0) (0%nat, [])) = Ok 8%nat.
Proof. vm_compute. reflexivity. Qed.
End AttemptOrchestrator.
