(* ===== verification/Planner.v ===== *)
(** Failover planning: the runtime snapshot of the model topology
    ([runtime/models/failover/snapshot.py]) and the planner that turns an
    invocation into the ordered endpoints it may use
    ([runtime/models/failover/planner.py]). *)

From S2P Require Import Prelude Orchestrator.

Local Open Scope Z_scope.

Inductive ResponseMode : Type := TEXT | NATIVE_TOOLS | NATIVE_SCHEMA | PROMPTED_SCHEMA.

Inductive ModelOperation : Type :=
| GENERATE | EMBEDDING | IMAGE_GENERATION | SPEECH | TRANSCRIPTION | WEB_SEARCH | IMAGE_DESCRIPTION.

#[export] Instance ResponseMode_eq_dec : EqDecision ResponseMode.
Proof. solve_decision. Defined.
#[export] Instance ModelOperation_eq_dec : EqDecision ModelOperation.
Proof. solve_decision. Defined.

Record EndpointCapabilities : Type := mkCaps {
  supports_tools : bool;
  supports_native_schema : bool;
  supports_server_web_search : bool;
  supports_vision : bool;
  supports_pdf : bool;
  supports_native_tool_search : bool;
  context_tokens : Z
}.

(** [EndpointDescriptor], with the fields the planner reads. *)
Record EndpointDescriptor : Type := mkEndpoint {
  ed_endpoint_id : string;
  ed_capabilities : EndpointCapabilities;
  ed_governance_domain : string;
  ed_region : string
}.

#[export] Instance EndpointCapabilities_eq_dec : EqDecision EndpointCapabilities.
Proof. solve_decision. Defined.
#[export] Instance EndpointDescriptor_eq_dec : EqDecision EndpointDescriptor.
Proof. solve_decision. Defined.

Record RequestRequirements : Type := mkReq {
  response_mode : ResponseMode;
  needs_tools : bool;
  needs_native_schema : bool;
  needs_server_web_search : bool;
  needs_vision : bool;
  needs_pdf : bool;
  needs_native_tool_search : bool;
  min_context_tokens : Z;
  rq_governance_domain : string;
  allowed_regions : gset string
}.

Record ModelInvocation : Type := mkInvocation {
  mi_model_call_id : string;
  mi_route_id : string;
  mi_operation : ModelOperation;
  mi_requirements : RequestRequirements
}.

Record RuntimeFailoverGroup : Type := mkGroup {
  rg_group_id : string;
  rg_endpoint_ids : list string;
  rg_policy_id : string;
  rg_budget : AttemptBudget
}.

Record FailoverPlan : Type := mkPlan {
  fp_plan_id : string;
  fp_model_call_id : string;
  fp_config_revision : string;
  fp_policy_id : string;
  fp_endpoints : list EndpointDescriptor;
  fp_budget : AttemptBudget
}.

Module CanonicalModelRuntimeSnapshot.

(** Routes are compared by their encoded identifiers. *)
Record t : Type := mk {
  revision : string;
  endpoints : list EndpointDescriptor;
  groups : list RuntimeFailoverGroup;
  route_groups : list (string * string);
  credential_slots : list (string * list string)
}.

Definition endpoint (s : t) (id : string) : option EndpointDescriptor :=
  snd <$> list_find (fun e => ed_endpoint_id e = id) (endpoints s).

Definition group (s : t) (id : string) : option RuntimeFailoverGroup :=
  snd <$> list_find (fun g => rg_group_id g = id) (groups s).

Definition group_for_route (s : t) (route : string) : option RuntimeFailoverGroup :=
  match Dict.get route (route_groups s) with
  | Some gid => group s gid
  | None => None
  end.

Definition slots_for_endpoint (s : t) (id : string) : list string :=
  default [] (Dict.get id (credential_slots s)).

Lemma endpoint_id s id e : endpoint s id = Some e -> ed_endpoint_id e = id.
Proof.
  unfold endpoint. destruct (list_find _ _) as [[i x]|] eqn:E; simpl; [|done].
  apply list_find_Some in E. intros [= <-]. naive_solver.
Qed.

End CanonicalModelRuntimeSnapshot.

Module FailoverPlanner.
Import CanonicalModelRuntimeSnapshot.

Inductive exn : Type :=
| ModelRouteUnavailableError
| ModelGovernanceViolationError (candidates : list string)
| ModelCapabilityUnsatisfiedError (missing_by_endpoint : list (string * list string)).

Definition _governance_allows (e : EndpointDescriptor) (r : RequestRequirements) : bool :=
  if decide (ed_governance_domain e <> rq_governance_domain r) then false
  else bool_decide (allowed_regions r = ∅) || bool_decide (ed_region e ∈ allowed_regions r).

Definition _missing_capabilities (e : EndpointDescriptor) (i : ModelInvocation) : list string :=
  let r := mi_requirements i in
  let c := ed_capabilities e in
  let miss (need have : bool) name := if need && negb have then [name] else [] in
  miss (needs_tools r || bool_decide (response_mode r = NATIVE_TOOLS)) (supports_tools c) "tools" ++
  miss (needs_native_schema r || bool_decide (response_mode r = NATIVE_SCHEMA))
       (supports_native_schema c) "native_schema" ++
  miss (needs_server_web_search r || bool_decide (mi_operation i = WEB_SEARCH))
       (supports_server_web_search c) "server_web_search" ++
  miss (needs_vision r || bool_decide (mi_operation i = IMAGE_DESCRIPTION))
       (supports_vision c) "vision" ++
  miss (needs_pdf r) (supports_pdf c) "pdf" ++
  miss (needs_native_tool_search r) (supports_native_tool_search c) "native_tool_search" ++
  (if context_tokens c <? min_context_tokens r then ["context_tokens"] else []).

Definition _resolve_group (s : t) (route : string) : outcome exn RuntimeFailoverGroup :=
  match group_for_route s route with
  | Some g => Ok g
  | None => Raise ModelRouteUnavailableError
  end.

(** The separator of the text the plan id is computed from. *)
Definition NUL : string := String Ascii.zero EmptyString.

Section plan.
(** The first 32 digits of the SHA-256 of a text. *)
Context (digest32 : string -> string).

Definition plan (s : t) (i : ModelInvocation) : outcome exn FailoverPlan :=
  let? g := _resolve_group s (mi_route_id i) in
  let candidates := omap (endpoint s) (rg_endpoint_ids g) in
  if negb (length candidates =? length (rg_endpoint_ids g))%nat then
    Raise ModelRouteUnavailableError
  else
    let governed := filter (fun e => _governance_allows e (mi_requirements i) = true) candidates in
    match governed with
    | [] => Raise (ModelGovernanceViolationError (ed_endpoint_id <$> candidates))
    | _ =>
      let missing := foldl (fun d e => Dict.set (ed_endpoint_id e) (_missing_capabilities e i) d)
                       [] governed in
      let eligible :=
        filter (fun e => default [] (Dict.get (ed_endpoint_id e) missing) = []) governed in
      match eligible with
      | [] => Raise (ModelCapabilityUnsatisfiedError missing)
      | _ =>
          Ok (mkPlan
                (digest32 (mi_model_call_id i +:+ NUL +:+ revision s +:+ NUL +:+ rg_group_id g +:+
                           NUL +:+ String.concat "," (ed_endpoint_id <$> eligible)))
                (mi_model_call_id i) (revision s) (rg_policy_id g) eligible (rg_budget g))
      end
    end.

(** ** Properties *)

(** When an endpoint may serve an invocation. *)
Definition serves (i : ModelInvocation) (e : EndpointDescriptor) : Prop :=
  _governance_allows e (mi_requirements i) = true /\ _missing_capabilities e i = [].

Lemma missing_get i (l : list EndpointDescriptor) d e :
  (forall e1 e2, e1 ∈ l -> e2 ∈ l -> ed_endpoint_id e1 = ed_endpoint_id e2 -> e1 = e2) ->
  e ∈ l ->
  Dict.get (ed_endpoint_id e)
    (foldl (fun d e => Dict.set (ed_endpoint_id e) (_missing_capabilities e i) d) d l)
  = Some (_missing_capabilities e i).
Proof.
  intros Hinj. revert d.
  assert (forall l' d, e ∉ l' -> (forall e', e' ∈ l' -> e' ∈ l) -> e ∈ l ->
    Dict.get (ed_endpoint_id e)
      (foldl (fun d e => Dict.set (ed_endpoint_id e) (_missing_capabilities e i) d) d l') =
    Dict.get (ed_endpoint_id e) d) as Hout.
  { induction l' as [|x l' IH]; intros d Hn Hsub He; simpl; [done|].
    apply not_elem_of_cons in Hn as [Hne Hn]. rewrite IH; [|done|intros; apply Hsub; by right|done].
    apply Dict.get_set_ne. intros E. apply Hne, Hinj; [done|apply Hsub; by left|done]. }
  enough (forall l' d, (forall e', e' ∈ l' -> e' ∈ l) -> e ∈ l' ->
    Dict.get (ed_endpoint_id e)
      (foldl (fun d e => Dict.set (ed_endpoint_id e) (_missing_capabilities e i) d) d l') =
    Some (_missing_capabilities e i)) by auto.
  induction l' as [|x l' IH]; intros d Hsub; simpl; [by intros ?%not_elem_of_nil|].
  intros He. destruct (decide (e ∈ l')) as [Hin|Hn].
  - apply IH; [|done]. intros; apply Hsub; by right.
  - apply elem_of_cons in He as [<-|]; [|done].
    rewrite Hout; [apply Dict.get_set_eq|done|intros; apply Hsub; by right|apply Hsub; by left].
Qed.

(** Planning selects exactly what may serve. On a known route all of whose
    endpoints exist, a plan is produced if and only if some endpoint of the group
    is allowed by governance and has every required capability; it then lists all
    of these and nothing else, in the group's order, with the group's budget and
    policy and the snapshot's revision. *)
Theorem plan_exact s i g :
  group_for_route s (mi_route_id i) = Some g ->
  Forall (fun id => is_Some (endpoint s id)) (rg_endpoint_ids g) ->
  ((exists p, plan s i = Ok p) <->
     exists id e, id ∈ rg_endpoint_ids g /\ endpoint s id = Some e /\ serves i e) /\
  (forall p, plan s i = Ok p ->
     fp_budget p = rg_budget g /\ fp_policy_id p = rg_policy_id g /\
     fp_config_revision p = revision s /\
     (forall e, e ∈ fp_endpoints p <->
        (exists id, id ∈ rg_endpoint_ids g /\ endpoint s id = Some e) /\ serves i e) /\
     (ed_endpoint_id <$> fp_endpoints p) `sublist_of` rg_endpoint_ids g).
Proof.
  intros Hg Hall. unfold plan, _resolve_group. rewrite Hg; simpl.
  set (cands := omap (endpoint s) (rg_endpoint_ids g)).
  assert (ed_endpoint_id <$> cands = rg_endpoint_ids g) as Hids.
  { unfold cands. clear Hg cands. induction Hall as [|id l [e He] _ IH]; [done|].
    simpl. rewrite He; simpl. f_equal; [by eapply endpoint_id|exact IH]. }
  assert (length cands = length (rg_endpoint_ids g)) as Hlen by (by rewrite <- Hids, length_fmap).
  rewrite Hlen, Nat.eqb_refl; simpl.
  assert (forall e, e ∈ cands <-> exists id, id ∈ rg_endpoint_ids g /\ endpoint s id = Some e) as Hc
    by (intros e; apply list_elem_of_omap).
  set (gov := filter _ cands).
  set (missing := foldl _ [] gov). set (elig := filter _ gov).
  assert (elig = filter (fun e => _missing_capabilities e i = []) gov) as Hel.
  { unfold elig. apply filter_ext_in. intros e Hin. unfold missing.
    rewrite missing_get; [done| |done]. intros e1 e2 H1 H2 E.
    apply list_elem_of_filter in H1 as [_ H1]. apply list_elem_of_filter in H2 as [_ H2].
    apply Hc in H1 as (id1 & _ & H1). apply Hc in H2 as (id2 & _ & H2).
    apply endpoint_id in H1 as E1. apply endpoint_id in H2 as E2. congruence. }
  assert (forall e, e ∈ elig <->
    (exists id, id ∈ rg_endpoint_ids g /\ endpoint s id = Some e) /\ serves i e) as He.
  { intros e. rewrite Hel. unfold gov, serves. rewrite !list_elem_of_filter, Hc. tauto. }
  assert ((ed_endpoint_id <$> elig) `sublist_of` rg_endpoint_ids g) as Hsub.
  { rewrite <- Hids. apply fmap_sublist. rewrite Hel. unfold gov.
    etransitivity; apply sublist_filter. }
  clearbody elig missing. clear Hel.
  assert ((exists p, elig = p) /\ (elig = [] <-> ~ exists id e,
     id ∈ rg_endpoint_ids g /\ endpoint s id = Some e /\ serves i e)) as [_ Hnil].
  { split; [by eexists|]. destruct elig as [|e l].
    - split; [|done]. intros _ (id & e & H1 & H2 & H3). apply (not_elem_of_nil e), He. eauto.
    - split; [done|]. intros Hn. destruct Hn. destruct (proj1 (He e)) as [(id & ? & ?) ?]; [by left|].
      exists id, e. done. }
  assert (gov = [] -> elig = []) as Hgov.
  { intros Hg0. apply Hnil. intros (id & e & H1 & H2 & H3 & _).
    assert (e ∈ gov) as Hin by (apply list_elem_of_filter; split; [done|apply Hc; eauto]).
    rewrite Hg0 in Hin. by apply not_elem_of_nil in Hin. }
  destruct gov as [|e0 gov0]; [|destruct elig as [|e1 l]].
  - rewrite Hgov in Hnil by done. split; [|done]. split; [by intros [? ?]|]. intros H.
    by destruct (proj1 Hnil eq_refl).
  - split; [|done]. split; [by intros [? ?]|]. intros H. by destruct (proj1 Hnil eq_refl).
  - split.
    + split; [|by eexists]. intros _. destruct (proj1 (He e1)) as [(id & ? & ?) ?]; [by left|]. eauto.
    + intros p [= <-]; simpl. split_and!; done.
Qed.
End plan.

Definition caps0 : EndpointCapabilities := mkCaps true false false false false false 1000.
Definition snap0 : t :=
  mk "r1" [mkEndpoint "a" caps0 "default" "eu"; mkEndpoint "b" (mkCaps false false false false false false 9) "default" "us"]
     [mkGroup "g" ["b"; "a"] "canonical-v1" default_budget] [("chat", "g")] [].
Definition call0 : ModelInvocation :=
  mkInvocation "c1" "chat" GENERATE (mkReq NATIVE_TOOLS false false false false false false 100 "default" ∅).

Example plan_exact_witness :
  exists p, plan (fun x => x) snap0 call0 = Ok p /\ fp_budget p = default_budget /\
            ed_endpoint_id <$> fp_endpoints p = ["a"].
Proof.
  destruct (plan_exact (fun x => x) snap0 call0 (mkGroup "g" ["b"; "a"] "canonical-v1" default_budget))
    as [Hex Hp]; [reflexivity|repeat constructor; by eexists|].
  eexists. split; [reflexivity|].
  split; [exact (proj1 (Hp _ eq_refl))|reflexivity].
Defined.
End FailoverPlanner.
