(* ===== verification/AgentPath.v ===== *)
(** Agent paths ([orchestration/agents/identity/path.py]): validated absolute
    paths that name the agents of a session's tree. *)

From Stdlib Require Import Ascii.
From S2P Require Import Prelude.

Local Open Scope string_scope.
Local Arguments String.append !_ _ / : simpl nomatch.

Module AgentPath.

Definition ROOT : string := "/root".
Definition MORPHEUS : string := "/morpheus".
Definition ROOT_SEGMENT : string := "root".
Definition SLASH : ascii := "/"%char.

(** [s.split("/")] *)
Fixpoint split (s : string) : list string :=
  match s with
  | EmptyString => [""]
  | String c s' =>
      if decide (c = SLASH) then "" :: split s'
      else match split s' with
           | [] => [String c ""]
           | h :: t => String c h :: t
           end
  end.

Fixpoint has_slash (s : string) : bool :=
  match s with
  | EmptyString => false
  | String c s' => bool_decide (c = SLASH) || has_slash s'
  end.

Fixpoint ends_slash (s : string) : bool :=
  match s with
  | EmptyString => false
  | String c EmptyString => bool_decide (c = SLASH)
  | String _ s' => ends_slash s'
  end.

(** [s.rpartition("/")] as the parts around the last separator, if there is one. *)
Fixpoint rpartition (s : string) : option (string * string) :=
  match s with
  | EmptyString => None
  | String c s' =>
      match rpartition s' with
      | Some (a, b) => Some (String c a, b)
      | None => if decide (c = SLASH) then Some ("", s') else None
      end
  end.

(** ["a" <= ch <= "z" or "0" <= ch <= "9" or ch == "_"], on the byte. *)
Definition name_char (c : ascii) : bool :=
  let n := nat_of_ascii c in
  ((97 <=? n) && (n <=? 122))%nat || ((48 <=? n) && (n <=? 57))%nat || (n =? 95)%nat.

Fixpoint all_chars (f : ascii -> bool) (s : string) : bool :=
  match s with EmptyString => true | String c s' => f c && all_chars f s' end.

(** The validators return or raise [ValueError] with a message. *)
Definition _validate_agent_name (n : string) : outcome string unit :=
  if decide (n = "") then Raise "agent_name must not be empty"
  else if decide (n = ROOT_SEGMENT) then Raise "agent_name `root` is reserved"
  else if bool_decide (n = ".") || bool_decide (n = "..") then Raise "agent_name is reserved"
  else if has_slash n then Raise "agent_name must not contain `/`"
  else if negb (all_chars name_char n) then
    Raise "agent_name must use only lowercase letters, digits, and underscores"
  else Ok tt.

Fixpoint _validate_names (l : list string) : outcome string unit :=
  match l with
  | [] => Ok tt
  | n :: l => let? _ := _validate_agent_name n in _validate_names l
  end.

Definition _validate_absolute_path (p : string) : outcome string unit :=
  if decide (p = MORPHEUS) then Ok tt
  else match p with
  | String c stripped =>
      if decide (c <> SLASH) then
        Raise "absolute agent paths must start with `/root` or be `/morpheus`"
      else match split stripped with
      | root :: rest =>
          if decide (root <> ROOT_SEGMENT) then
            Raise "absolute agent paths must start with `/root` or be `/morpheus`"
          else if ends_slash stripped then Raise "absolute agent path must not end with `/`"
          else _validate_names rest
      | [] => Ok tt
      end
  | EmptyString => Raise "absolute agent paths must start with `/root` or be `/morpheus`"
  end.

Definition _validate_relative_reference (r : string) : outcome string unit :=
  if ends_slash r then Raise "relative agent path must not end with `/`"
  else _validate_names (split r).

(** [AgentPath(value)]: the path is its validated text. *)
Definition make (value : string) : outcome string string :=
  let? _ := _validate_absolute_path value in Ok value.

Definition is_root (p : string) : bool := bool_decide (p = ROOT).

Definition name (p : string) : string :=
  if is_root p then ROOT_SEGMENT
  else
    let segment := match rpartition p with Some (_, b) => b | None => p end in
    if decide (segment = "") then ROOT_SEGMENT else segment.

Definition parent (p : string) : option string :=
  if is_root p || bool_decide (p = MORPHEUS) then None
  else
    let parent := match rpartition p with Some (a, _) => a | None => "" end in
    if decide (parent = "") then None
    else match make parent with Ok q => Some q | Raise _ => None end.

Definition join (p agent_name : string) : outcome string string :=
  let? _ := _validate_agent_name agent_name in make (p +:+ "/" +:+ agent_name).

Definition resolve (p reference : string) : outcome string string :=
  if decide (reference = "") then Raise "agent path must not be empty"
  else if decide (reference = ROOT) then make ROOT
  else if String.prefix "/" reference then make reference
  else let? _ := _validate_relative_reference reference in make (p +:+ "/" +:+ reference).

(** ** The tree the paths describe *)

Definition valid_name (n : string) : Prop := _validate_agent_name n = Ok tt.
Definition valid (p : string) : Prop := make p = Ok p.

(** The path of a list of names below the root. *)
Definition render (names : list string) : string :=
  foldl (fun p n => p +:+ "/" +:+ n) ROOT names.

Fixpoint slashed (names : list string) : string :=
  match names with [] => "" | n :: l => "/" +:+ n +:+ slashed l end.

Lemma app_assoc_s (a b c : string) : a +:+ (b +:+ c) = (a +:+ b) +:+ c.
Proof. induction a; simpl; congruence. Qed.

Lemma app_nil_r_s (a : string) : a +:+ "" = a.
Proof. induction a; simpl; congruence. Qed.

Lemma foldl_slashed p names : foldl (fun p n => p +:+ "/" +:+ n) p names = p +:+ slashed names.
Proof.
  revert p. induction names as [|n l IH]; intros p; simpl; [by rewrite app_nil_r_s|].
  rewrite IH. rewrite <- app_assoc_s. simpl. done.
Qed.

Lemma render_slashed names : render names = ROOT +:+ slashed names.
Proof. apply foldl_slashed. Qed.

Lemma render_snoc names n : render (names ++ [n]) = render names +:+ "/" +:+ n.
Proof. unfold render. by rewrite foldl_app. Qed.

Lemma valid_name_inv n :
  valid_name n -> n <> "" /\ n <> ROOT_SEGMENT /\ has_slash n = false /\ all_chars name_char n = true.
Proof.
  unfold valid_name, _validate_agent_name. repeat case_decide; try done.
  case_match; [done|]. destruct (has_slash n); [done|]. destruct (all_chars name_char n); done.
Qed.

Lemma split_no_slash s : has_slash s = false -> split s = [s].
Proof.
  induction s as [|c s IH]; simpl; [done|]. intros [Hc Hs]%orb_false_iff.
  apply bool_decide_eq_false in Hc. rewrite decide_False by done. by rewrite IH.
Qed.

Lemma split_app s t : has_slash s = false -> split (s +:+ "/" +:+ t) = s :: split t.
Proof.
  induction s as [|c s IH]; simpl; [done|]. intros [Hc Hs]%orb_false_iff.
  apply bool_decide_eq_false in Hc. rewrite decide_False by done.
  simpl in IH. by rewrite IH.
Qed.

Lemma split_slashed s names :
  has_slash s = false -> Forall (fun n => has_slash n = false) names ->
  split (s +:+ slashed names) = s :: names.
Proof.
  intros Hs Hl. revert s Hs. induction Hl as [|n l Hn _ IH]; intros s Hs; simpl.
  - rewrite app_nil_r_s. by apply split_no_slash.
  - transitivity (split (s +:+ "/" +:+ (n +:+ slashed l))); [reflexivity|].
    rewrite split_app by done. by rewrite IH.
Qed.

Lemma split_cons s : exists h t, split s = h :: t.
Proof.
  induction s as [|c s (h & t & E)]; simpl; [by eexists _, _|].
  case_decide; [by eexists _, _|]. rewrite E. by eexists _, _.
Qed.

Lemma split_join s h t : split s = h :: t -> s = h +:+ slashed t.
Proof.
  revert h t. induction s as [|c s IH]; simpl; intros h t.
  - by intros [= <- <-].
  - destruct (split_cons s) as (h' & t' & E). case_decide as Hc.
    + intros [= <- <-]. rewrite E, Hc. simpl. f_equal. by apply IH.
    + rewrite E. intros [= <- <-]. simpl. f_equal. by apply IH.
Qed.

Lemma concat_head h t : String.concat "/" (h :: t) = h +:+ slashed t.
Proof.
  revert h. induction t as [|m l IH]; intros h; [simpl; by rewrite app_nil_r_s|].
  change (String.concat "/" (h :: m :: l)) with (h +:+ "/" +:+ String.concat "/" (m :: l)).
  by rewrite IH.
Qed.

Lemma validate_names_spec l : _validate_names l = Ok tt <-> Forall valid_name l.
Proof.
  induction l as [|n l IH]; simpl; [done|]. rewrite outcome_bind_ok, Forall_cons, <- IH.
  unfold valid_name. split; [intros ([] & ? & ?); done|intros [? ?]; by exists tt].
Qed.

Lemma ends_slash_app a b : ends_slash (a +:+ b) = if decide (b = "") then ends_slash a else ends_slash b.
Proof.
  case_decide as Hb; [by subst; rewrite app_nil_r_s|].
  induction a as [|c a IH]; simpl; [done|]. rewrite IH.
  destruct a; simpl; [|done]. by destruct b.
Qed.

Lemma no_slash_end n : has_slash n = false -> ends_slash n = false.
Proof.
  induction n as [|c n IH]; simpl; [done|]. intros [Hc Hn]%orb_false_iff. destruct n; auto.
Qed.

Lemma slashed_end l : Forall valid_name l -> ends_slash (slashed l) = false.
Proof.
  induction 1 as [|n l Hn _ IH]; [done|]. apply valid_name_inv in Hn as (Hne & _ & Hs & _).
  change (slashed (n :: l)) with ("/" +:+ n +:+ slashed l).
  rewrite ends_slash_app, decide_False; [|by destruct n].
  rewrite ends_slash_app. case_decide; [by apply no_slash_end|done].
Qed.

(** A valid path is [/morpheus] or the path of a list of valid names. *)
Lemma valid_render p : valid p <-> p = MORPHEUS \/ exists l, Forall valid_name l /\ p = render l.
Proof.
  unfold valid, make. rewrite outcome_bind_ok. split.
  - intros ([] & Hv & _). unfold _validate_absolute_path in Hv.
    case_decide; [by left|right]. destruct p as [|c s]; [done|].
    destruct (decide (c <> SLASH)) as [|Hc%dec_stable]; [done|].
    destruct (split_cons s) as (h & t & E). rewrite E in Hv.
    destruct (decide (h <> ROOT_SEGMENT)) as [|Hh%dec_stable]; [done|].
    destruct (ends_slash s); [done|]. apply validate_names_spec in Hv. exists t. split; [done|].
    rewrite render_slashed. apply split_join in E. by rewrite E, Hc, Hh.
  - intros [->|(l & Hl & ->)]; [by exists tt|]. exists tt. split; [|done].
    rewrite render_slashed. unfold _validate_absolute_path. case_decide as Hm; [done|].
    change (ROOT +:+ slashed l) with (String SLASH ("root" +:+ slashed l)).
    cbv beta iota. rewrite decide_False by (intros Hn; by destruct Hn).
    rewrite split_slashed; [|done|].
    + rewrite decide_False by (intros Hn; by destruct Hn). rewrite ends_slash_app.
      assert ((if decide (slashed l = "") then ends_slash "root" else ends_slash (slashed l)) = false)
        as -> by (destruct (decide (slashed l = "")); [done|by apply slashed_end]).
      by apply validate_names_spec.
    + eapply Forall_impl; [done|]. intros n Hn. by apply valid_name_inv in Hn as (_ & _ & ? & _).
Qed.

Lemma rpartition_no_slash b : has_slash b = false -> rpartition b = None.
Proof.
  induction b as [|c b IH]; simpl; [done|]. intros [Hc Hb]%orb_false_iff.
  apply bool_decide_eq_false in Hc. by rewrite IH, decide_False.
Qed.

Lemma rpartition_app a b : has_slash b = false -> rpartition (a +:+ "/" +:+ b) = Some (a, b).
Proof.
  intros Hb. induction a as [|c a IH]; simpl in *.
  - by rewrite rpartition_no_slash.
  - by rewrite IH.
Qed.

Lemma app_long (a b : string) : b <> "" -> a +:+ b <> a.
Proof. intros Hb. induction a; simpl; congruence. Qed.

Lemma render_not_morpheus l : render l <> MORPHEUS.
Proof. rewrite render_slashed. done. Qed.

Lemma render_root l : render l = ROOT <-> l = [].
Proof.
  rewrite render_slashed. split; [|by intros ->]. destruct l; [done|].
  intros H. exfalso. by apply app_long in H.
Qed.

(** Agent paths are the nodes of a tree. A text is accepted exactly when it is
    [/morpheus] or the rendering of a list of valid names below the root; different
    lists render differently; joining a valid name makes the child whose parent
    and name are the ones joined, and every path other than the root is obtained
    that way; nothing can be joined to [/morpheus]. *)
Theorem agent_path_tree :
  (forall p, valid p <-> p = MORPHEUS \/ exists l, Forall valid_name l /\ p = render l) /\
  (forall l1 l2, Forall valid_name l1 -> Forall valid_name l2 -> render l1 = render l2 -> l1 = l2) /\
  (forall l n, Forall valid_name l -> valid_name n ->
     join (render l) n = Ok (render (l ++ [n])) /\
     parent (render (l ++ [n])) = Some (render l) /\ name (render (l ++ [n])) = n) /\
  (parent ROOT = None /\ name ROOT = "root") /\
  (forall n, is_ok (join MORPHEUS n) = false).
Proof.
  split_and!.
  - apply valid_render.
  - intros l1 l2 H1 H2. rewrite !render_slashed. intros E.
    assert (forall l, Forall valid_name l -> split (ROOT_SEGMENT +:+ slashed l) = ROOT_SEGMENT :: l) as Hs.
    { intros l Hl. apply split_slashed; [done|]. eapply Forall_impl; [done|].
      intros n Hn. by apply valid_name_inv in Hn as (_ & _ & ? & _). }
    assert (slashed l1 = slashed l2) as E' by (by injection E).
    apply Hs in H1. apply Hs in H2. rewrite E', H2 in H1. by injection H1.
  - intros l n Hl Hn. pose proof (valid_name_inv _ Hn) as (Hne & _ & Hs & _).
    assert (valid (render l)) as Hv by (apply valid_render; right; eauto).
    assert (valid (render (l ++ [n]))) as Hv' by
      (apply valid_render; right; exists (l ++ [n])%list; split; [by apply Forall_app; auto|done]).
    assert (render (l ++ [n]) <> ROOT) as Hr by (rewrite render_root; by destruct l).
    split_and!.
    + unfold join. rewrite Hn. simpl. rewrite render_snoc in Hv'. rewrite render_snoc. exact Hv'.
    + unfold parent, is_root. rewrite bool_decide_eq_false_2 by done.
      rewrite bool_decide_eq_false_2 by apply render_not_morpheus. simpl.
      rewrite render_snoc, rpartition_app by done.
      rewrite decide_False by (by rewrite render_slashed). by rewrite Hv.
    + unfold name, is_root. rewrite bool_decide_eq_false_2 by done.
      by rewrite render_snoc, rpartition_app, decide_False.
  - done.
  - done.
  - intros n. unfold join. destruct (_validate_agent_name n) as [[]|e]; [|done]. done.
Qed.

Lemma render_descend base l :
  l <> [] -> render base +:+ "/" +:+ String.concat "/" l = render (base ++ l).
Proof.
  intros Hne. unfold render. rewrite foldl_app. fold (render base). rewrite foldl_slashed. f_equal.
  destruct l as [|n l]; [done|]. by rewrite concat_head.
Qed.

Lemma make_inv x y : make x = Ok y -> y = x /\ valid x.
Proof.
  intros Hxy. assert (y = x) as ->; [|done].
  unfold make in Hxy. destruct (_validate_absolute_path x); by simplify_eq/=.
Qed.

(** The text of a relative reference made of names. *)
Lemma reference_names n l :
  Forall valid_name (n :: l) ->
  let r := String.concat "/" (n :: l) in
  r <> "" /\ r <> ROOT /\ String.prefix "/" r = false /\ _validate_relative_reference r = Ok tt.
Proof.
  intros Hn. pose proof Hn as [Hn1 Hl]%Forall_cons.
  pose proof (valid_name_inv _ Hn1) as (Hne & _ & Hs & _).
  assert (exists c s, String.concat "/" (n :: l) = String c s /\ c <> SLASH) as (c & s & Ec & Hc).
  { destruct n as [|c n]; [done|]. simpl in Hs. apply orb_false_iff in Hs as [Hc%bool_decide_eq_false _].
    exists c. destruct l; simpl; by eexists. }
  assert (split (String.concat "/" (n :: l)) = n :: l) as Hsp.
  { rewrite concat_head. apply split_slashed; [done|].
    eapply Forall_impl; [done|]. intros m Hm. by apply valid_name_inv in Hm as (_ & _ & ? & _). }
  cbv zeta. split_and!.
  - by rewrite Ec.
  - rewrite Ec. intros E; injection E; intros _ E'; by apply Hc.
  - rewrite Ec. unfold String.prefix. destruct (ascii_dec "/" c) as [E|]; [|done].
    destruct Hc. by rewrite <- E.
  - unfold _validate_relative_reference. rewrite Hsp.
    assert (ends_slash (String.concat "/" (n :: l)) = false) as ->.
    { pose proof (slashed_end (n :: l) Hn) as He.
      change (slashed (n :: l)) with ("/" +:+ n +:+ slashed l) in He.
      rewrite <- concat_head, ends_slash_app, decide_False in He; [done|by rewrite Ec]. }
    by apply validate_names_spec.
Qed.

(** Resolving a reference stays in the tree. A relative reference made of valid
    names is the descendant they spell, whatever the starting agent; an absolute
    one ignores the starting agent; whatever the reference, a result is a valid
    path, and from an agent of the tree a relative reference never leaves its
    subtree. *)
Theorem agent_path_resolve base names reference q :
  Forall valid_name base ->
  (names <> [] -> Forall valid_name names ->
     resolve (render base) (String.concat "/" names) = Ok (render (base ++ names))) /\
  (resolve (render base) reference = Ok q ->
     valid q /\
     (String.prefix "/" reference = false ->
        exists l, l <> [] /\ Forall valid_name l /\ q = render (base ++ l)) /\
     (String.prefix "/" reference = true -> q = reference)).
Proof.
  intros Hb. split.
  - intros Hne Hn. destruct names as [|n l]; [done|].
    destruct (reference_names n l Hn) as (H1 & H2 & H3 & H4).
    unfold resolve. rewrite decide_False, decide_False, H3, H4 by done. cbn [outcome_bind].
    rewrite (render_descend base (n :: l)) by done.
    apply valid_render. right. exists (base ++ n :: l)%list. split; [by apply Forall_app|done].
  - intros Hr. unfold resolve in Hr. destruct (decide (reference = "")); [done|].
    destruct (decide (reference = ROOT)) as [->|].
    { apply make_inv in Hr as [-> ?]. split_and!; done. }
    destruct (String.prefix "/" reference) eqn:Ep.
    { apply make_inv in Hr as [-> ?]. split_and!; done. }
    apply outcome_bind_ok in Hr as ([] & Hrel & Hr). apply make_inv in Hr as [-> Hv].
    split_and!; [done| |done]. intros _. unfold _validate_relative_reference in Hrel.
    destruct (ends_slash reference); [done|].
    apply validate_names_spec in Hrel. exists (split reference).
    destruct (split_cons reference) as (h & t & E). rewrite E in *. split_and!; [done|done|].
    rewrite <- (render_descend base (h :: t)) by done. f_equal. f_equal.
    rewrite concat_head. by apply split_join.
Qed.

Example agent_path_resolve_witness :
  resolve (render ["a"]) (String.concat "/" ["b"; "c"]) = Ok "/root/a/b/c".
Proof.
  refine (proj1 (agent_path_resolve ["a"] ["b"; "c"] "" "" _) _ _).
  - repeat constructor.
  - discriminate.
  - repeat constructor.
Defined.

End AgentPath.
