(* ===== verification/AgentRegistry.v ===== *)
(** The agent registry of a session ([orchestration/agents/identity/registry.py]):
    the tree of agents by path, the index by agent id, the nickname pool and the
    count that caps the session, with the spawn reservations made on it. *)

From stdpp Require Import pretty.
From S2P Require Import Prelude AgentPath.

Local Open Scope Z_scope.

Record AgentMetadata : Type := mkMeta {
  agent_id : option string;
  agent_path : option string;
  agent_nickname : option string;
  agent_role : option string;
  last_task_message : option string
}.

Definition format_agent_nickname (name : string) (nickname_reset_count : N) : string :=
  if (nickname_reset_count =? 0)%N then name
  else
    let value := (nickname_reset_count + 1)%N in
    let suffix :=
      if ((11 <=? value mod 100) && (value mod 100 <=? 13))%N then "th"
      else match (value mod 10)%N with
           | 1%N => "st" | 2%N => "nd" | 3%N => "rd" | _ => "th"
           end in
    name +:+ " the " +:+ pretty value +:+ suffix.

Definition next_agent_spawn_depth (depth : Z) : Z := depth + 1.
Definition exceeds_agent_spawn_depth_limit (depth max_depth : Z) : bool := max_depth <? depth.

Module AgentRegistry.

Inductive exn : Type :=
| AgentLimitReached (max_agents : Z)
| AgentPathExists (path : string)
| AgentNotKnown.

(** The metadata objects are shared by the two indexes: both hold addresses. *)
Record t : Type := mk {
  heap : gmap nat AgentMetadata;
  next_address : nat;
  _agent_tree : list (string * nat);
  _by_agent_id : gmap string nat;
  _used_agent_nicknames : gset string;
  _nickname_reset_count : N;
  _total_count : Z
}.

Definition init : t := mk ∅ 0 [] ∅ ∅ 0 0.

Definition with_total n (r : t) : t :=
  mk (heap r) (next_address r) (_agent_tree r) (_by_agent_id r) (_used_agent_nicknames r)
     (_nickname_reset_count r) n.
Definition with_nicknames u c (r : t) : t :=
  mk (heap r) (next_address r) (_agent_tree r) (_by_agent_id r) u c (_total_count r).
Definition with_tree tr (r : t) : t :=
  mk (heap r) (next_address r) tr (_by_agent_id r) (_used_agent_nicknames r)
     (_nickname_reset_count r) (_total_count r).
Definition with_index ix (r : t) : t :=
  mk (heap r) (next_address r) (_agent_tree r) ix (_used_agent_nicknames r)
     (_nickname_reset_count r) (_total_count r).
Definition with_heap h (r : t) : t :=
  mk h (next_address r) (_agent_tree r) (_by_agent_id r) (_used_agent_nicknames r)
     (_nickname_reset_count r) (_total_count r).

(** A new metadata object. *)
Definition alloc (m : AgentMetadata) (r : t) : t * nat :=
  (mk (<[next_address r := m]> (heap r)) (S (next_address r)) (_agent_tree r) (_by_agent_id r)
      (_used_agent_nicknames r) (_nickname_reset_count r) (_total_count r), next_address r).

Definition id_text (i : option string) : string := default "None" i.

Definition _tree_key (m : AgentMetadata) : string :=
  match agent_path m with
  | Some p => p
  | None => "agent:" +:+ id_text (agent_id m)
  end.

Definition is_root_meta (m : AgentMetadata) : bool :=
  match agent_path m with Some p => AgentPath.is_root p | None => false end.

Definition reserve_spawn_slot (max_agents : option Z) (r : t) : t * outcome exn unit :=
  match max_agents with
  | Some n => if n <=? _total_count r then (r, Raise (AgentLimitReached n))
              else (with_total (_total_count r + 1) r, Ok tt)
  | None => (with_total (_total_count r + 1) r, Ok tt)
  end.

Definition _decrement_total (r : t) : t := with_total (Z.max 0 (_total_count r - 1)) r.

Definition release_spawned_agent (id : string) (r : t) : t :=
  match _by_agent_id r !! id with
  | None => r
  | Some a =>
      let r := with_index (delete id (_by_agent_id r)) r in
      match heap r !! a with
      | None => r
      | Some m =>
          let r := with_tree (Dict.pop (_tree_key m) (_agent_tree r)) r in
          if is_root_meta m then r else _decrement_total r
      end
  end.

Definition register_root_agent (id : string) (r : t) : t :=
  if Dict.mem AgentPath.ROOT (_agent_tree r) then r
  else
    let (r, a) := alloc (mkMeta (Some id) (Some AgentPath.ROOT) None None None) r in
    let r := with_tree (Dict.set AgentPath.ROOT a (_agent_tree r)) r in
    with_index (<[id := a]> (_by_agent_id r)) r.

Definition meta_at (a : nat) (r : t) : option AgentMetadata := heap r !! a.

Definition agent_id_for_path (p : string) (r : t) : option string :=
  a ← Dict.get p (_agent_tree r); m ← meta_at a r; agent_id m.

Definition agent_metadata_for_id (id : string) (r : t) : option AgentMetadata :=
  a ← _by_agent_id r !! id; meta_at a r.

Definition tree_values (r : t) : list AgentMetadata :=
  omap (fun a => meta_at a r) (Dict.values (_agent_tree r)).

Definition agent_metadata_for_nickname (n : string) (r : t) : option AgentMetadata :=
  snd <$> list_find (fun m => agent_nickname m = Some n /\ agent_id m <> None) (tree_values r).

Definition live_agents (r : t) : list AgentMetadata :=
  filter (fun m => agent_id m <> None /\ is_root_meta m = false) (tree_values r).

Definition set_task (v : option string) (m : AgentMetadata) : AgentMetadata :=
  mkMeta (agent_id m) (agent_path m) (agent_nickname m) (agent_role m) v.

Definition set_last_task_message (id : string) (v : option string) (r : t) : t :=
  match _by_agent_id r !! id with
  | None => r
  | Some a => with_heap (alter (set_task v) a (heap r)) r
  end.
Definition update_last_task_message (id msg : string) : t -> t := set_last_task_message id (Some msg).
Definition clear_last_task_message (id : string) : t -> t := set_last_task_message id None.

Definition truthy (s : option string) : bool :=
  match s with Some s => negb (bool_decide (s = ""%string)) | None => false end.

Definition _register_spawned_agent (m : AgentMetadata) (r : t) : t :=
  match agent_id m with
  | None => r
  | Some id =>
      let r := if truthy (agent_nickname m)
               then with_nicknames ({[ default ""%string (agent_nickname m) ]} ∪ _used_agent_nicknames r)
                      (_nickname_reset_count r) r
               else r in
      let (r, a) := alloc m r in
      let r := with_tree (Dict.set (_tree_key m) a (_agent_tree r)) r in
      with_index (<[id := a]> (_by_agent_id r)) r
  end.
Definition register_spawned_agent : AgentMetadata -> t -> t := _register_spawned_agent.

(** [random.choice], with the drawn index as an argument. *)
Definition choose (i : nat) (l : list string) : string := default ""%string (l !! (i mod length l)%nat).

Definition available (names : list string) (r : t) : list string :=
  filter (fun n => n ∉ _used_agent_nicknames r)
    ((fun n => format_agent_nickname n (_nickname_reset_count r)) <$> names).

Definition _reserve_agent_nickname (draw : nat) (names : list string) (preferred : option string)
    (r : t) : t * option string :=
  match preferred with
  | Some n => (with_nicknames ({[ n ]} ∪ _used_agent_nicknames r) (_nickname_reset_count r) r, Some n)
  | None =>
      match names with
      | [] => (r, None)
      | _ =>
          match available names r with
          | [] =>
              let c := (_nickname_reset_count r + 1)%N in
              let n := format_agent_nickname (choose draw names) c in
              (with_nicknames {[ n ]} c r, Some n)
          | l =>
              let n := choose draw l in
              (with_nicknames ({[ n ]} ∪ _used_agent_nicknames r) (_nickname_reset_count r) r, Some n)
          end
      end
  end.

Definition _reserve_agent_path (p : string) (r : t) : t * outcome exn unit :=
  if Dict.mem p (_agent_tree r) then (r, Raise (AgentPathExists p))
  else
    let (r, a) := alloc (mkMeta None (Some p) None None None) r in
    (with_tree (Dict.set p a (_agent_tree r)) r, Ok tt).

Definition _release_reserved_agent_path (p : string) (r : t) : t :=
  match Dict.get p (_agent_tree r) with
  | None => r
  | Some a =>
      match meta_at a r with
      | Some m => if decide (agent_id m = None) then with_tree (Dict.pop p (_agent_tree r)) r else r
      | None => r
      end
  end.

(** [class SpawnReservation] *)
Record reservation : Type := mk_reservation {
  _active : bool;
  _reserved_path : option string
}.

Definition new_reservation : reservation := mk_reservation true None.

Definition reserve_agent_nickname_with_preference (draw : nat) (names : list string)
    (preferred : option string) (r : t) : t * outcome exn string :=
  let (r, n) := _reserve_agent_nickname draw names preferred r in
  (r, match n with Some n => Ok n | None => Raise AgentNotKnown end).

Definition reserve_agent_path (p : string) (s : reservation) (r : t)
    : reservation * t * outcome exn unit :=
  let (r, o) := _reserve_agent_path p r in
  match o with
  | Raise e => (s, r, Raise e)
  | Ok _ => (mk_reservation (_active s) (Some p), r, Ok tt)
  end.

Definition commit (m : AgentMetadata) (s : reservation) (r : t) : reservation * t :=
  (mk_reservation false None, _register_spawned_agent m r).

Definition rollback (s : reservation) (r : t) : reservation * t :=
  if negb (_active s) then (s, r)
  else
    let r := match _reserved_path s with
             | Some p => _release_reserved_agent_path p r
             | None => r
             end in
    (mk_reservation false None, _decrement_total r).

(** ** A session: the registry and the reservations made on it *)

Record world : Type := mkWorld { reg : t; reservations : list reservation }.

Inductive op : Type :=
| ReserveSlot (max_agents : option Z)
| ReservePath (i : nat) (p : string)
| ReserveNickname (draw : nat) (names : list string) (preferred : option string)
| Commit (i : nat) (m : AgentMetadata)
| Register (m : AgentMetadata)
| Rollback (i : nat)
| Release (id : string)
| RegisterRoot (id : string)
| SetTask (id : string) (v : option string).

Definition run_op (o : op) (w : world) : world :=
  match o with
  | ReserveSlot cap =>
      let (r, res) := reserve_spawn_slot cap (reg w) in
      mkWorld r (reservations w ++ if is_ok res then [new_reservation] else [])
  | ReservePath i p =>
      match reservations w !! i with
      | None => w
      | Some s => let '(s, r, _) := reserve_agent_path p s (reg w) in
                  mkWorld r (<[i := s]> (reservations w))
      end
  | ReserveNickname draw names preferred =>
      mkWorld (fst (reserve_agent_nickname_with_preference draw names preferred (reg w)))
        (reservations w)
  | Commit i m =>
      match reservations w !! i with
      | None => w
      | Some s => let (s, r) := commit m s (reg w) in mkWorld r (<[i := s]> (reservations w))
      end
  | Register m => mkWorld (register_spawned_agent m (reg w)) (reservations w)
  | Rollback i =>
      match reservations w !! i with
      | None => w
      | Some s => let (s, r) := rollback s (reg w) in mkWorld r (<[i := s]> (reservations w))
      end
  | Release id => mkWorld (release_spawned_agent id (reg w)) (reservations w)
  | RegisterRoot id => mkWorld (register_root_agent id (reg w)) (reservations w)
  | SetTask id v => mkWorld (set_last_task_message id v (reg w)) (reservations w)
  end.

(** How the control plane uses a reservation: one path at most, none of them the
    root; a commit on an active reservation, for a fresh agent id, at the path it
    reserved (or, without a path, under a key nobody uses); an agent added without
    a reservation ([AgentControl.add_agent] with metadata) under a fresh id and a key
    nobody uses. Nothing is asked of releases, rollbacks and reservations of slots. *)
Definition proper (o : op) (w : world) : Prop :=
  match o with
  | ReservePath i p =>
      forall s, reservations w !! i = Some s -> _active s = true /\ _reserved_path s = None /\
        p <> AgentPath.ROOT
  | Commit i m =>
      forall s, reservations w !! i = Some s ->
        _active s = true /\ is_Some (agent_id m) /\
        (forall id, agent_id m = Some id -> _by_agent_id (reg w) !! id = None) /\
        match _reserved_path s with
        | Some p => agent_path m = Some p
        | None => Dict.get (_tree_key m) (_agent_tree (reg w)) = None /\ is_root_meta m = false
        end
  | Register m =>
      is_Some (agent_id m) /\
      (forall id, agent_id m = Some id -> _by_agent_id (reg w) !! id = None) /\
      Dict.get (_tree_key m) (_agent_tree (reg w)) = None /\ is_root_meta m = false
  | RegisterRoot id => _by_agent_id (reg w) !! id = None
  | _ => True
  end.

(** The agents registered without a reservation, which the total does not count. *)
Definition uncounted (o : op) : Z := match o with Register _ => 1 | _ => 0 end.

(** What a session reaches, with the number of agents it registered without a
    reservation. *)
Inductive reachable : Z -> world -> Prop :=
| reach_init : reachable 0 (mkWorld init [])
| reach_step u o w : reachable u w -> proper o w -> reachable (u + uncounted o) (run_op o w).

(** ** The invariant *)

Definition is_member (h : gmap nat AgentMetadata) (x : string * nat) : Prop :=
  from_option is_root_meta true (h !! x.2) = false.

#[local] Instance is_member_dec h x : Decision (is_member h x).
Proof. unfold is_member. apply _. Defined.

(** The registered agents other than the root. *)
Definition members (r : t) : Z := Z.of_nat (size (filter (is_member (heap r)) (_by_agent_id r))).

(** A path entry that stands for a reservation. *)
Definition reserved (r : t) (p : string) : Prop :=
  exists a m, Dict.get p (_agent_tree r) = Some a /\ heap r !! a = Some m /\
              agent_id m = None /\ agent_path m = Some p /\ p <> AgentPath.ROOT.

(** The total against what it stands for: it never counts more, and it misses at
    most one for every agent registered without a reservation. *)
Definition counted (u live total : Z) : Prop := 0 <= total /\ live - u <= total <= live.

Record wf (u : Z) (w : world) : Prop := {
  wf_index id a : _by_agent_id (reg w) !! id = Some a ->
    exists m, heap (reg w) !! a = Some m /\ agent_id m = Some id /\
              Dict.get (_tree_key m) (_agent_tree (reg w)) = Some a;
  wf_tree k a : Dict.get k (_agent_tree (reg w)) = Some a ->
    exists m, heap (reg w) !! a = Some m /\ _tree_key m = k /\
      match agent_id m with
      | Some id => _by_agent_id (reg w) !! id = Some a
      | None => exists i s, reservations w !! i = Some s /\ _reserved_path s = Some k
      end;
  wf_paths i s p : reservations w !! i = Some s -> _reserved_path s = Some p ->
    _active s = true /\ reserved (reg w) p /\
    forall j s', reservations w !! j = Some s' -> _reserved_path s' = Some p -> j = i;
  wf_fresh a m : heap (reg w) !! a = Some m -> (a < next_address (reg w))%nat;
  wf_count : counted u (count_if _active (reservations w) + members (reg w)) (_total_count (reg w))
}.

Lemma members_ext r r' :
  _by_agent_id r' = _by_agent_id r ->
  (forall id a, _by_agent_id r !! id = Some a ->
     from_option is_root_meta true (heap r' !! a) = from_option is_root_meta true (heap r !! a)) ->
  members r' = members r.
Proof.
  intros E H. unfold members. rewrite E. do 2 f_equal. apply map_filter_ext.
  intros id a Ha. unfold is_member; simpl. by rewrite (H id a Ha).
Qed.

Lemma members_insert r r' id a m :
  _by_agent_id r' = <[id := a]> (_by_agent_id r) -> _by_agent_id r !! id = None ->
  heap r' !! a = Some m -> is_root_meta m = false ->
  (forall id' a', _by_agent_id r !! id' = Some a' -> heap r' !! a' = heap r !! a') ->
  members r' = members r + 1.
Proof.
  intros E Hid Hm Hroot Hold. unfold members. rewrite E, map_filter_insert_True.
  - rewrite map_size_insert_None; [|by rewrite map_lookup_filter, Hid].
    replace (filter (is_member (heap r')) (_by_agent_id r))
      with (filter (is_member (heap r)) (_by_agent_id r)); [lia|].
    apply map_filter_ext. intros id' a' Ha'. unfold is_member; simpl. by rewrite (Hold id' a' Ha').
  - unfold is_member; simpl. by rewrite Hm.
Qed.

Lemma members_insert_root r r' id a m :
  _by_agent_id r' = <[id := a]> (_by_agent_id r) -> _by_agent_id r !! id = None ->
  heap r' !! a = Some m -> is_root_meta m = true ->
  (forall id' a', _by_agent_id r !! id' = Some a' -> heap r' !! a' = heap r !! a') ->
  members r' = members r.
Proof.
  intros E Hid Hm Hroot Hold. unfold members. rewrite E, map_filter_insert_False.
  - rewrite delete_id by done. do 2 f_equal. apply map_filter_ext. intros id' a' Ha'.
    unfold is_member; simpl. by rewrite (Hold id' a' Ha').
  - unfold is_member; simpl. rewrite Hm. simpl. congruence.
Qed.

Lemma members_delete r r' id a m :
  _by_agent_id r' = delete id (_by_agent_id r) -> heap r' = heap r ->
  _by_agent_id r !! id = Some a -> heap r !! a = Some m ->
  members r' = members r - (if is_root_meta m then 0 else 1).
Proof.
  intros E Eh Ha Hm. unfold members. rewrite E, Eh, map_filter_delete.
  destruct (is_root_meta m) eqn:Er.
  - rewrite delete_id; [lia|]. rewrite map_lookup_filter, Ha. simpl.
    rewrite option_guard_False; [done|]. unfold is_member; simpl. rewrite Hm. simpl. congruence.
  - assert (filter (is_member (heap r)) (_by_agent_id r) !! id = Some a) as Hl.
    { apply map_lookup_filter_Some. split; [done|]. unfold is_member; simpl. by rewrite Hm. }
    rewrite map_size_delete, Hl.
    assert (size (filter (is_member (heap r)) (_by_agent_id r)) <> 0)%nat.
    { intros H0. apply map_size_empty_iff in H0. by rewrite H0, lookup_empty in Hl. }
    lia.
Qed.

Lemma members_nonneg r : 0 <= members r.
Proof. apply Zle_0_nat. Qed.

(** Steps that leave tree, index and reservations' paths alone. *)
Lemma wf_same u w r :
  wf u w -> _agent_tree r = _agent_tree (reg w) -> _by_agent_id r = _by_agent_id (reg w) ->
  heap r = heap (reg w) -> next_address r = next_address (reg w) ->
  _total_count r = _total_count (reg w) ->
  wf u (mkWorld r (reservations w)).
Proof.
  intros [H1 H2 H3 H4 H5] E1 E2 E3 E4 E5.
  split; simpl; unfold reserved; rewrite ?E1, ?E2, ?E3, ?E4, ?E5; try done.
  assert (members r = members (reg w)) as ->; [|done]. apply members_ext; [done|]. by rewrite E3.
Qed.

Lemma reserve_slot_wf u cap w : wf u w -> wf u (run_op (ReserveSlot cap) w).
Proof.
  intros Hw. simpl.
  assert (wf u (mkWorld (with_total (_total_count (reg w) + 1) (reg w))
                (reservations w ++ [new_reservation]))) as Hok.
  { destruct Hw as [H1 H2 H3 H4 H5]. split; simpl.
    - apply H1.
    - intros k a Hk. destruct (H2 k a Hk) as (m & ? & ? & Hm). exists m. split_and!; try done.
      destruct (agent_id m); [done|]. destruct Hm as (i & s & Hi & ?). exists i, s.
      split; [|done]. by rewrite lookup_app_l by (by eapply lookup_lt_Some).
    - intros i s p [Hi|[_ Hi]]%lookup_app_Some Hp.
      + destruct (H3 i s p Hi Hp) as (? & ? & Hu). split_and!; try done.
        intros j s' [Hj|[_ Hj]]%lookup_app_Some Hp'; [eauto|].
        apply list_lookup_singleton_Some in Hj as [_ <-]. done.
      + apply list_lookup_singleton_Some in Hi as [_ <-]. done.
    - apply H4.
    - unfold counted in *. rewrite count_if_app; simpl. unfold members in *; simpl. lia. }
  assert (wf u (mkWorld (reg w) (reservations w ++ []))) as Hno by (rewrite app_nil_r; by apply wf_same).
  unfold reserve_spawn_slot. destruct cap as [n|]; [|exact Hok]. by destruct (n <=? _).
Qed.

Lemma set_task_wf u id v w : wf u w -> wf u (run_op (SetTask id v) w).
Proof.
  intros Hw. simpl. unfold set_last_task_message.
  destruct (_by_agent_id (reg w) !! id) as [a0|]; [|by apply wf_same].
  destruct Hw as [H1 H2 H3 H4 H5].
  assert (forall a m, heap (reg w) !! a = Some m ->
    exists m', alter (set_task v) a0 (heap (reg w)) !! a = Some m' /\ agent_id m' = agent_id m /\
      agent_path m' = agent_path m /\ _tree_key m' = _tree_key m /\ is_root_meta m' = is_root_meta m)
    as Hh.
  { intros a m Ha. destruct (decide (a = a0)) as [->|].
    - rewrite lookup_alter_eq, Ha. by eexists.
    - rewrite lookup_alter_ne by done. by eexists. }
  split; simpl.
  - intros id' a Ha. destruct (H1 id' a Ha) as (m & Hm & Hid & Hk).
    destruct (Hh a m Hm) as (m' & ? & E1 & _ & E2 & _). exists m'. by rewrite E1, E2.
  - intros k a Hk. destruct (H2 k a Hk) as (m & Hm & Hid & Hx).
    destruct (Hh a m Hm) as (m' & ? & E1 & _ & E2 & _). exists m'. by rewrite E1, E2.
  - intros i s p Hi Hp. destruct (H3 i s p Hi Hp) as (? & (a & m & ? & Ha & ? & ? & ?) & ?).
    split_and!; try done. destruct (Hh a m Ha) as (m' & ? & E1 & E3 & _).
    exists a, m'. by rewrite E1, E3.
  - intros a m Ha. destruct (heap (reg w) !! a) eqn:E.
    + by eapply H4.
    + destruct (decide (a = a0)) as [->|]; [rewrite lookup_alter_eq in Ha|rewrite lookup_alter_ne in Ha by done];
        by rewrite E in Ha.
  - rewrite (members_ext (reg w)); [exact H5|done|]. intros id' a Ha. simpl.
    destruct (H1 id' a Ha) as (m & Hm & _). destruct (Hh a m Hm) as (m' & -> & _ & _ & _ & E).
    rewrite Hm. done.
Qed.

Lemma nickname_wf u draw names preferred w : wf u w -> wf u (run_op (ReserveNickname draw names preferred) w).
Proof.
  intros Hw. simpl. unfold reserve_agent_nickname_with_preference, _reserve_agent_nickname.
  apply wf_same; [done|..]; repeat (case_match; simpl); simplify_eq; done.
Qed.

(** The fresh address is not in use. *)
Lemma wf_next u w a m : wf u w -> heap (reg w) !! a = Some m -> a <> next_address (reg w).
Proof. intros [_ _ _ H _] Ha. specialize (H a m Ha). lia. Qed.

Lemma reserve_path_wf u i p w :
  proper (ReservePath i p) w -> wf u w -> wf u (run_op (ReservePath i p) w).
Proof.
  intros Hp Hw. simpl in *. destruct (reservations w !! i) as [s|] eqn:Ei; [|done].
  destruct (Hp s eq_refl) as (Hact & Hnone & Hroot). clear Hp.
  unfold reserve_agent_path, _reserve_agent_path, Dict.mem.
  destruct (Dict.get p (_agent_tree (reg w))) as [a0|] eqn:Eg.
  { rewrite list_insert_id by done. by apply wf_same. }
  simpl. destruct Hw as [H1 H2 H3 H4 H5].
  assert (Hkey : forall a m, heap (reg w) !! a = Some m -> forall x,
     <[next_address (reg w) := x]> (heap (reg w)) !! a = Some m).
  { intros a m Ha x. rewrite lookup_insert_ne; [done|]. intros E. specialize (H4 a m Ha). lia. }
  split; simpl.
  - intros id a Ha. destruct (H1 id a Ha) as (m & Hm & Hid & Hk). exists m. split_and!; [by apply Hkey|done|].
    rewrite Dict.get_set_ne; [done|]. congruence.
  - intros k a Hk. destruct (decide (k = p)) as [->|Hne].
    + rewrite Dict.get_set_eq in Hk. simplify_eq. rewrite lookup_insert_eq.
      eexists. split_and!; [done|done|]. simpl. exists i. eexists.
      rewrite list_lookup_insert_eq by (by eapply lookup_lt_Some). done.
    + rewrite Dict.get_set_ne in Hk by done. destruct (H2 k a Hk) as (m & Hm & Hid & Hx).
      exists m. split_and!; [by apply Hkey|done|]. destruct (agent_id m); [done|].
      destruct Hx as (j & s' & Hj & Hs'). exists j, s'. split; [|done].
      rewrite list_lookup_insert_ne; [done|]. intros <-. congruence.
  - intros j s' q Hj Hq. apply list_lookup_insert_Some in Hj as [(<- & <- & _)|(Hne & Hj)].
    + simpl in Hq. simplify_eq. split_and!; [done| |].
      * exists (next_address (reg w)). eexists. simpl. rewrite Dict.get_set_eq, lookup_insert_eq. done.
      * intros j s' Hj Hs'. apply list_lookup_insert_Some in Hj as [(<- & _)|(Hne & Hj)]; [done|].
        destruct (H3 j s' q Hj Hs') as (_ & (a & m & ? & _) & _). congruence.
    + destruct (H3 j s' q Hj Hq) as (? & (a & m & Ha & Hm & ? & ? & ?) & Hu). split_and!; [done| |].
      * exists a, m. simpl. split_and!; try done; [|by apply Hkey].
        rewrite Dict.get_set_ne; [done|]. congruence.
      * intros j' s2 Hj' Hs2. apply list_lookup_insert_Some in Hj' as [(<- & <- & _)|(Hne' & Hj')]; [|eauto].
        simpl in Hs2. congruence.
  - intros a m Ha. apply lookup_insert_Some in Ha as [[<- _]|[_ Ha]]; [lia|]. specialize (H4 a m Ha). lia.
  - unfold counted in *. rewrite (count_if_insert _ _ _ _ _ Ei); simpl. rewrite Hact; simpl.
    rewrite (members_ext (reg w)); [lia|done|].
    intros id a Ha. simpl. destruct (H1 id a Ha) as (m & Hm & _). by rewrite (Hkey a m Hm), Hm.
Qed.

Lemma meta_root_key m p : agent_path m = Some p -> p <> AgentPath.ROOT -> is_root_meta m = false.
Proof. unfold is_root_meta, AgentPath.is_root. intros ->. apply bool_decide_eq_false_2. Qed.

Lemma register_nickname_frame m r :
  let r' := if truthy (agent_nickname m)
            then with_nicknames ({[ default ""%string (agent_nickname m) ]} ∪ _used_agent_nicknames r)
                   (_nickname_reset_count r) r
            else r in
  heap r' = heap r /\ next_address r' = next_address r /\ _agent_tree r' = _agent_tree r /\
  _by_agent_id r' = _by_agent_id r /\ _total_count r' = _total_count r.
Proof. simpl. by destruct (truthy _). Qed.

(** What registering a metadata object under a fresh id does. *)
Lemma register_spec m id r :
  agent_id m = Some id ->
  let r' := _register_spawned_agent m r in
  heap r' = <[next_address r := m]> (heap r) /\ next_address r' = S (next_address r) /\
  _agent_tree r' = Dict.set (_tree_key m) (next_address r) (_agent_tree r) /\
  _by_agent_id r' = <[id := next_address r]> (_by_agent_id r) /\
  _total_count r' = _total_count r.
Proof.
  intros Hid. unfold _register_spawned_agent. rewrite Hid.
  pose proof (register_nickname_frame m r) as (E1 & E2 & E3 & E4 & E5). cbv zeta.
  set (r0 := if truthy _ then _ else _) in *. clearbody r0. simpl. by rewrite E1, E2, E3, E4, E5.
Qed.

(** The tree's entry at the key a commit writes belongs to its own reservation, if any. *)
Lemma commit_key u i m w s :
  wf u w -> reservations w !! i = Some s ->
  match _reserved_path s with
  | Some p => agent_path m = Some p
  | None => Dict.get (_tree_key m) (_agent_tree (reg w)) = None /\ is_root_meta m = false
  end ->
  is_root_meta m = false /\
  (forall a, Dict.get (_tree_key m) (_agent_tree (reg w)) = Some a ->
     exists m', heap (reg w) !! a = Some m' /\ agent_id m' = None) /\
  (forall p, _reserved_path s = Some p -> _tree_key m = p).
Proof.
  intros [_ _ H3 _ _] Ei Hpath. destruct (_reserved_path s) as [p|] eqn:Es.
  - destruct (H3 i s p Ei Es) as (_ & (a & m' & Ha & Hm & Hn & ? & Hr) & _).
    assert (_tree_key m = p) as Hk by (unfold _tree_key; by rewrite Hpath).
    split_and!; [by eapply meta_root_key| |naive_solver].
    intros a' Ha'. rewrite Hk in Ha'. simplify_eq. eauto.
  - destruct Hpath as [Hn Hr]. split_and!; [done| |done]. intros a Ha. congruence.
Qed.

Lemma commit_wf u i m w : proper (Commit i m) w -> wf u w -> wf u (run_op (Commit i m) w).
Proof.
  intros Hp Hw. simpl in *. destruct (reservations w !! i) as [s|] eqn:Ei; [|done].
  destruct (Hp s eq_refl) as (Hact & [id Hid] & Hfresh & Hpath). clear Hp. specialize (Hfresh id Hid).
  unfold commit. pose proof (register_spec m id (reg w) Hid) as (E1 & E2 & E3 & E4 & E5).
  set (r' := _register_spawned_agent m (reg w)) in *. clearbody r'.
  destruct (commit_key u i m w s Hw Ei Hpath) as (Hroot & Hold & Hsame). destruct Hw as [H1 H2 H3 H4 H5].
  assert (Hkey : forall a m', heap (reg w) !! a = Some m' -> heap r' !! a = Some m').
  { intros a m' Ha. rewrite E1, lookup_insert_ne; [done|]. intros E. specialize (H4 a m' Ha). lia. }
  split; simpl.
  - intros id' a Ha. rewrite E4 in Ha. apply lookup_insert_Some in Ha as [[<- <-]|[Hne Ha]].
    + exists m. rewrite E1, lookup_insert_eq, E3, Dict.get_set_eq. done.
    + destruct (H1 id' a Ha) as (m' & Hm & Hi & Hk). exists m'. split_and!; [by apply Hkey|done|].
      rewrite E3, Dict.get_set_ne; [done|]. intros E. rewrite E in Hk.
      destruct (Hold a Hk) as (m2 & ? & ?). congruence.
  - intros k a Hk. rewrite E3 in Hk. destruct (decide (k = _tree_key m)) as [->|Hne].
    + rewrite Dict.get_set_eq in Hk. simplify_eq. exists m.
      rewrite E1, lookup_insert_eq, Hid, E4, lookup_insert_eq. done.
    + rewrite Dict.get_set_ne in Hk by done. destruct (H2 k a Hk) as (m' & Hm & Hk' & Hx).
      exists m'. split_and!; [by apply Hkey|done|]. destruct (agent_id m') as [id'|] eqn:Eid.
      * rewrite E4, lookup_insert_ne; [done|]. intros <-. congruence.
      * destruct Hx as (j & s' & Hj & Hs'). exists j, s'. split; [|done].
        rewrite list_lookup_insert_ne; [done|]. intros <-. simplify_eq.
        by specialize (Hsame _ Hs').
  - intros j s' q Hj Hq. apply list_lookup_insert_Some in Hj as [(<- & <- & _)|(Hne & Hj)]; [done|].
    destruct (H3 j s' q Hj Hq) as (? & (a & m' & Ha & Hm & Hn & ? & ?) & Hu). split_and!; [done| |].
    + exists a, m'. simpl. split_and!; try done; [|by apply Hkey].
      rewrite E3, Dict.get_set_ne; [done|]. intros E.
      destruct (_reserved_path s) as [p|] eqn:Es.
      * rewrite (Hsame p eq_refl) in E. subst. apply Hne. by eapply Hu.
      * destruct Hpath as [Hnone _]. congruence.
    + intros j' s2 Hj' Hs2. apply list_lookup_insert_Some in Hj' as [(<- & <- & _)|(? & Hj')]; [done|eauto].
  - intros a m' Ha. rewrite E1 in Ha. rewrite E2.
    apply lookup_insert_Some in Ha as [[<- _]|[_ Ha]]; [lia|]. specialize (H4 a m' Ha). lia.
  - unfold counted in *. rewrite (count_if_insert _ _ _ _ _ Ei), E5; simpl. rewrite Hact; simpl.
    rewrite (members_insert (reg w) r' id (next_address (reg w)) m); try done; [lia| |].
    + by rewrite E1, lookup_insert_eq.
    + intros id' a' Ha'. destruct (H1 id' a' Ha') as (m' & Hm & _). by rewrite (Hkey a' m' Hm), Hm.
Qed.

(** An agent added without a reservation takes a fresh key and is not counted. *)
Lemma register_wf u m w : proper (Register m) w -> wf u w -> wf (u + 1) (run_op (Register m) w).
Proof.
  intros ([id Hid] & Hfresh & Hkeyfree & Hroot) Hw. simpl. specialize (Hfresh id Hid).
  unfold register_spawned_agent. pose proof (register_spec m id (reg w) Hid) as (E1 & E2 & E3 & E4 & E5).
  set (r' := _register_spawned_agent m (reg w)) in *. clearbody r'. destruct Hw as [H1 H2 H3 H4 H5].
  assert (Hkey : forall a m', heap (reg w) !! a = Some m' -> heap r' !! a = Some m').
  { intros a m' Ha. rewrite E1, lookup_insert_ne; [done|]. intros E. specialize (H4 a m' Ha). lia. }
  split; simpl.
  - intros id' a Ha. rewrite E4 in Ha. apply lookup_insert_Some in Ha as [[<- <-]|[Hne Ha]].
    + exists m. rewrite E1, lookup_insert_eq, E3, Dict.get_set_eq. done.
    + destruct (H1 id' a Ha) as (m' & Hm & Hi & Hk). exists m'. split_and!; [by apply Hkey|done|].
      rewrite E3, Dict.get_set_ne; [done|]. intros E. rewrite E in Hk. congruence.
  - intros k a Hk. rewrite E3 in Hk. destruct (decide (k = _tree_key m)) as [->|Hne].
    + rewrite Dict.get_set_eq in Hk. simplify_eq. exists m.
      rewrite E1, lookup_insert_eq, Hid, E4, lookup_insert_eq. done.
    + rewrite Dict.get_set_ne in Hk by done. destruct (H2 k a Hk) as (m' & Hm & Hk' & Hx).
      exists m'. split_and!; [by apply Hkey|done|]. destruct (agent_id m') as [id'|]; [|done].
      rewrite E4, lookup_insert_ne; [done|]. intros <-. congruence.
  - intros j s' q Hj Hq. destruct (H3 j s' q Hj Hq) as (? & (a & m' & Ha & Hm & Hn & ? & ?) & Hu).
    split_and!; [done| |done]. exists a, m'. simpl. split_and!; try done; [|by apply Hkey].
    rewrite E3, Dict.get_set_ne; [done|]. congruence.
  - intros a m' Ha. rewrite E1 in Ha. rewrite E2.
    apply lookup_insert_Some in Ha as [[<- _]|[_ Ha]]; [lia|]. specialize (H4 a m' Ha). lia.
  - unfold counted in *. rewrite E5.
    rewrite (members_insert (reg w) r' id (next_address (reg w)) m); try done; [lia| |].
    + by rewrite E1, lookup_insert_eq.
    + intros id' a' Ha'. destruct (H1 id' a' Ha') as (m' & Hm & _). by rewrite (Hkey a' m' Hm), Hm.
Qed.

Lemma rollback_wf u i w : wf u w -> wf u (run_op (Rollback i) w).
Proof.
  intros Hw. simpl. destruct (reservations w !! i) as [s|] eqn:Ei; [|done].
  unfold rollback. destruct (_active s) eqn:Hact; simpl.
  2:{ rewrite list_insert_id by done. by apply wf_same. }
  pose proof (count_if_pos _ _ _ _ Ei Hact) as Hpos. pose proof (members_nonneg (reg w)) as Hmn.
  assert (exists r, match _reserved_path s with
            | Some p => _release_reserved_agent_path p (reg w) | None => reg w end = r /\
     heap r = heap (reg w) /\ next_address r = next_address (reg w) /\
     _by_agent_id r = _by_agent_id (reg w) /\ _total_count r = _total_count (reg w) /\
     _agent_tree r = match _reserved_path s with Some p => Dict.pop p (_agent_tree (reg w))
                     | None => _agent_tree (reg w) end) as (r & -> & E1 & E2 & E3 & E4 & E5).
  { destruct (_reserved_path s) as [p|] eqn:Es; [|by eexists]. eexists. split; [done|].
    destruct (wf_paths u w Hw i s p Ei Es) as (_ & (a & m & Ha & Hm & Hn & _) & _).
    unfold _release_reserved_agent_path, meta_at. rewrite Ha, Hm, decide_True by done. done. }
  destruct Hw as [H1 H2 H3 H4 H5].
  assert (forall p k, _reserved_path s = Some p ->
    (exists m a, Dict.get k (_agent_tree (reg w)) = Some a /\ heap (reg w) !! a = Some m /\
       is_Some (agent_id m)) -> k <> p) as Hother.
  { intros p k Es (m & a & Hk & Hm & [id Hid]) ->.
    destruct (H3 i s p Ei Es) as (_ & (a' & m' & Ha & Hm' & Hn & _) & _). congruence. }
  split; simpl; unfold reserved; simpl; rewrite ?E1, ?E2, ?E3.
  - intros id a Ha. destruct (H1 id a Ha) as (m & Hm & Hid & Hk). exists m. split_and!; [done|done|].
    rewrite E5. destruct (_reserved_path s) as [p|] eqn:Es; [|done].
    rewrite Dict.get_pop_ne; [done|]. apply (Hother p); [done|]. exists m, a. rewrite Hid. eauto.
  - intros k a Hk. assert (Dict.get k (_agent_tree (reg w)) = Some a /\ _reserved_path s <> Some k) as [Hk' Hne].
    { rewrite E5 in Hk. destruct (_reserved_path s) as [p|] eqn:Es; [|done].
      destruct (decide (k = p)) as [->|]; [by rewrite Dict.get_pop_eq in Hk|].
      rewrite Dict.get_pop_ne in Hk by done. split; congruence. }
    destruct (H2 k a Hk') as (m & Hm & Hkk & Hx). exists m. split_and!; [done|done|].
    destruct (agent_id m); [done|]. destruct Hx as (j & s' & Hj & Hs'). exists j, s'. split; [|done].
    rewrite list_lookup_insert_ne; [done|]. intros <-. congruence.
  - intros j s' q Hj Hq. apply list_lookup_insert_Some in Hj as [(<- & <- & _)|(Hne & Hj)]; [done|].
    destruct (H3 j s' q Hj Hq) as (? & (a & m & Ha & Hm & Hn & ? & ?) & Hu). split_and!; [done| |].
    + exists a, m. split_and!; try done. rewrite E5. destruct (_reserved_path s) as [p|] eqn:Es; [|done].
      rewrite Dict.get_pop_ne; [done|]. intros ->. apply Hne. by eapply Hu.
    + intros j' s2 Hj' Hs2. apply list_lookup_insert_Some in Hj' as [(<- & <- & _)|(? & Hj')]; [done|eauto].
  - apply H4.
  - unfold counted in *. rewrite (count_if_insert _ _ _ _ _ Ei), E4, Hact; simpl.
    rewrite (members_ext (reg w)); [lia|done|]. intros id a _. simpl. by rewrite E1.
Qed.

Lemma release_wf u id w : wf u w -> wf u (run_op (Release id) w).
Proof.
  intros Hw. simpl. unfold release_spawned_agent.
  destruct (_by_agent_id (reg w) !! id) as [a|] eqn:Ea; [|by apply wf_same].
  destruct (wf_index u w Hw id a Ea) as (m & Hm & Hid & Hk). simpl. rewrite Hm.
  pose proof (members_delete (reg w) (with_index (delete id (_by_agent_id (reg w))) (reg w)) id a m
                eq_refl eq_refl Ea Hm) as Hmem.
  assert (forall r, heap r = heap (reg w) -> next_address r = next_address (reg w) ->
    _by_agent_id r = delete id (_by_agent_id (reg w)) ->
    _agent_tree r = Dict.pop (_tree_key m) (_agent_tree (reg w)) ->
    _total_count r = Z.max 0 (_total_count (reg w) - (if is_root_meta m then 0 else 1)) ->
    wf u (mkWorld r (reservations w))) as Hgo.
  { destruct Hw as [H1 H2 H3 H4 H5]. intros r E1 E2 E3 E4 E5.
    split; simpl; unfold reserved; rewrite ?E1, ?E2, ?E3, ?E4, ?E5.
    - intros id' a' Ha'. apply lookup_delete_Some in Ha' as [Hne Ha'].
      destruct (H1 id' a' Ha') as (m' & Hm' & Hid' & Hk'). exists m'. split_and!; [done|done|].
      rewrite Dict.get_pop_ne; [done|]. intros E. rewrite E in Hk'. congruence.
    - intros k a' Hka. destruct (decide (k = _tree_key m)) as [->|Hne].
      { by rewrite Dict.get_pop_eq in Hka. }
      rewrite Dict.get_pop_ne in Hka by done. destruct (H2 k a' Hka) as (m' & Hm' & Hkk & Hx).
      exists m'. split_and!; [done|done|]. destruct (agent_id m') as [id'|] eqn:E; [|done].
      rewrite lookup_delete_ne; [done|]. intros <-. congruence.
    - intros i s p Hi Hp. destruct (H3 i s p Hi Hp) as (? & (a' & m' & Ha' & Hm' & Hn & ? & ?) & ?).
      split_and!; try done. exists a', m'. split_and!; try done.
      rewrite Dict.get_pop_ne; [done|]. intros E. rewrite E in Ha'. congruence.
    - apply H4.
    - assert (members r = members (reg w) - (if is_root_meta m then 0 else 1)) as ->.
      { rewrite <- Hmem. apply members_ext; [done|]. intros id' a' _. simpl. by rewrite E1. }
      match type of Hmem with members ?r' = _ => pose proof (members_nonneg r') end.
      pose proof (count_if_nonneg _active (reservations w)).
      unfold counted in *. lia. }
  destruct (wf_count u w Hw) as [Hnn _].
  destruct (is_root_meta m) eqn:Er; apply Hgo; simpl; try done; lia.
Qed.

Lemma register_root_wf u id w : proper (RegisterRoot id) w -> wf u w -> wf u (run_op (RegisterRoot id) w).
Proof.
  intros Hp Hw. simpl in *. unfold register_root_agent, Dict.mem.
  destruct (Dict.get AgentPath.ROOT (_agent_tree (reg w))) as [a0|] eqn:Eg; [by apply wf_same|].
  simpl. destruct Hw as [H1 H2 H3 H4 H5].
  set (m0 := mkMeta (Some id) (Some AgentPath.ROOT) None None None).
  assert (Hkey : forall a m, heap (reg w) !! a = Some m -> <[next_address (reg w) := m0]> (heap (reg w)) !! a = Some m).
  { intros a m Ha. rewrite lookup_insert_ne; [done|]. intros E. specialize (H4 a m Ha). lia. }
  split; simpl; unfold reserved; simpl.
  - intros id' a Ha. apply lookup_insert_Some in Ha as [[<- <-]|[Hne Ha]].
    + exists m0. rewrite lookup_insert_eq. split_and!; [done|done|]. apply Dict.get_set_eq.
    + destruct (H1 id' a Ha) as (m' & Hm & Hi & Hk). exists m'. split_and!; [by apply Hkey|done|].
      rewrite Dict.get_set_ne; [done|]. congruence.
  - intros k a Hk. destruct (decide (k = AgentPath.ROOT)) as [->|Hne].
    + rewrite Dict.get_set_eq in Hk. simplify_eq. exists m0. rewrite lookup_insert_eq. split_and!; try done.
      simpl. by rewrite lookup_insert_eq.
    + rewrite Dict.get_set_ne in Hk by done. destruct (H2 k a Hk) as (m' & Hm & Hk' & Hx).
      exists m'. split_and!; [by apply Hkey|done|]. destruct (agent_id m') as [id'|]; [|done].
      rewrite lookup_insert_ne; [done|]. intros <-. congruence.
  - intros j s' q Hj Hq. destruct (H3 j s' q Hj Hq) as (? & (a & m' & Ha & Hm & Hn & ? & ?) & Hu).
    split_and!; try done. exists a, m'. split_and!; try done; [|by apply Hkey].
    rewrite Dict.get_set_ne; done.
  - intros a m' Ha. apply lookup_insert_Some in Ha as [[<- _]|[_ Ha]]; [lia|]. specialize (H4 a m' Ha). lia.
  - erewrite (members_insert_root _ _ id (next_address (reg w)) m0); simpl; try done.
    + by rewrite lookup_insert_eq.
    + intros id' a' Ha'. destruct (H1 id' a' Ha') as (m' & Hm & _). by rewrite (Hkey a' m' Hm), Hm.
Qed.

Lemma registry_reachable_wf u w : reachable u w -> wf u w.
Proof.
  induction 1 as [|u o w Hr IH Hp].
  - split; simpl; done.
  - destruct o; simpl uncounted; rewrite ?Z.add_0_r;
      eauto using reserve_slot_wf, reserve_path_wf, nickname_wf, commit_wf, register_wf, rollback_wf,
        release_wf, register_root_wf, set_task_wf.
Qed.

Lemma reachable_uncounted u w : reachable u w -> 0 <= u.
Proof. induction 1 as [|u o w _ IH _]; [done|]. destruct o; simpl; lia. Qed.

(** ** Properties *)

(** The registry counts exactly. In every state a session reaches by proper use
    of its reservations, with no agent registered but through one, the total is the
    number of pending reservations plus the number of registered agents other than
    the root, whatever was rolled back, committed or released and in whatever order. *)
Theorem registry_count_exact w :
  reachable 0 w -> _total_count (reg w) = count_if _active (reservations w) + members (reg w).
Proof. intros Hw%registry_reachable_wf. pose proof (wf_count 0 w Hw). unfold counted in *. lia. Qed.

Definition capped (n : Z) (o : op) : Prop :=
  match o with ReserveSlot cap => cap = Some n | _ => True end.

Inductive reachable_capped (n : Z) : Z -> world -> Prop :=
| rc_init : reachable_capped n 0 (mkWorld init [])
| rc_step u o w : reachable_capped n u w -> proper o w -> capped n o ->
    reachable_capped n (u + uncounted o) (run_op o w).

Lemma rc_op n u u' o w :
  reachable_capped n u w -> proper o w -> capped n o -> u' = u + uncounted o ->
  reachable_capped n u' (run_op o w).
Proof. intros ? ? ? ->. by apply rc_step. Qed.

Lemma reachable_capped_reachable n u w : reachable_capped n u w -> reachable u w.
Proof. induction 1; eauto using reachable. Qed.

Lemma run_op_total o w :
  (forall cap, o <> ReserveSlot cap) -> 0 <= _total_count (reg w) ->
  _total_count (reg (run_op o w)) <= _total_count (reg w).
Proof.
  intros Hno Hnn. destruct o as [cap|i p|d ns pr|i m|m|i|id|id|id v]; simpl.
  - by destruct (Hno cap).
  - destruct (reservations w !! i); [|done]. unfold reserve_agent_path, _reserve_agent_path.
    by destruct (Dict.mem p _).
  - unfold reserve_agent_nickname_with_preference, _reserve_agent_nickname.
    by repeat (case_match; simpl); simplify_eq.
  - destruct (reservations w !! i); [|done]. simpl. unfold _register_spawned_agent.
    destruct (agent_id m); [|done]. simpl. by destruct (truthy _).
  - unfold register_spawned_agent, _register_spawned_agent.
    destruct (agent_id m); [|done]. simpl. by destruct (truthy _).
  - destruct (reservations w !! i) as [s|]; [|done]. unfold rollback. destruct (_active s); simpl; [|done].
    assert (forall r, _total_count r = _total_count (reg w) ->
              Z.max 0 (_total_count r - 1) <= _total_count (reg w)) as Hle by lia.
    apply Hle. destruct (_reserved_path s); [|done]. unfold _release_reserved_agent_path.
    by repeat case_match.
  - unfold release_spawned_agent. destruct (_by_agent_id (reg w) !! id); [|done]. simpl.
    destruct (heap (reg w) !! n); [|done]. destruct (is_root_meta a); simpl; lia.
  - unfold register_root_agent. by destruct (Dict.mem _ _).
  - unfold set_last_task_message. by destruct (_by_agent_id (reg w) !! id).
Qed.

Lemma total_capped n u w : 0 <= n -> reachable_capped n u w -> _total_count (reg w) <= n.
Proof.
  intros Hn Hr. induction Hr as [|u o w Hr IH Hp Hc]; [done|].
  pose proof (reachable_capped_reachable n u w Hr) as Hw%registry_reachable_wf.
  destruct (wf_count u w Hw) as [Hnn _].
  destruct o as [cap| | | | | | | |]; simpl in Hc;
    try (etransitivity; [apply run_op_total; [done|done]|done]).
  subst cap. simpl. destruct (n <=? _) eqn:E; simpl; zbool; [done|lia].
Qed.

(** C12: The cap, and how far it holds. Take any session in which every slot is
    reserved under the cap [n], reservations are used properly (see [proper]) and [u]
    agents were registered without a reservation. Then the agents and the spawns
    under way are never more than [n + u] together; a reservation is refused whenever
    they are [n + u] or more and granted whenever they are fewer than [n]. So with no
    agent registered outside a reservation the cap [n] is never exceeded and a
    reservation is refused exactly at it; every agent registered outside one loosens
    the cap by at most one, for good. *)
Theorem registry_capped n u w :
  0 <= n -> reachable_capped n u w ->
  let live := count_if _active (reservations w) + members (reg w) in
  let refused := snd (reserve_spawn_slot (Some n) (reg w)) = Raise (AgentLimitReached n) in
  live <= n + u /\ (n + u <= live -> refused) /\ (refused -> n <= live) /\
  (u = 0 -> live <= n /\ (refused <-> n <= live)).
Proof.
  intros Hn Hr live refused. pose proof (total_capped n u w Hn Hr) as Hcap.
  pose proof (reachable_capped_reachable n u w Hr) as Hw%registry_reachable_wf.
  destruct (wf_count u w Hw) as [_ [Hlo Hhi]]. fold live in Hlo, Hhi.
  assert (refused <-> n <= _total_count (reg w)) as Hiff.
  { unfold refused. simpl. destruct (n <=? _) eqn:E; zbool; simpl; split; try done; lia. }
  rewrite Hiff. split_and!; lia.
Qed.

Definition alice : AgentMetadata := mkMeta (Some "s1"%string) (Some "/root/a"%string) (Some "Alice"%string) None None.
Definition team : world :=
  run_op (Rollback 1) (run_op (ReserveSlot (Some 2))
    (run_op (Commit 0 alice) (run_op (ReservePath 0 "/root/a")
      (run_op (ReserveSlot (Some 2)) (run_op (RegisterRoot "s0") (mkWorld init [])))))).

Lemma team_reachable : reachable_capped 2 0 team.
Proof.
  unfold team. repeat (eapply (rc_op 2 0 0); [| |done|done]); [apply rc_init|..]; try done.
  - intros s [= <-]. done.
  - intros s [= <-]. split_and!; [done|by eexists| |done]. intros id [= <-]. reflexivity.
Defined.

Example registry_count_exact_witness :
  members (reg team) = 1 /\
  _total_count (reg team) = count_if _active (reservations team) + members (reg team).
Proof.
  split; [vm_compute; reflexivity|].
  exact (registry_count_exact team (reachable_capped_reachable 2 0 team team_reachable)).
Defined.

(** Agents the cap does not see: an agent added without a reservation fills no
    slot, so a session under the cap 1 holds it and a spawn under way; and when it is
    released the total goes down for it all the same, so a second spawn is let in
    while the first one's agent is there. *)
Definition guest : AgentMetadata := mkMeta (Some "g"%string) None (Some "Guest"%string) None None.
Definition crowded : world :=
  run_op (ReserveSlot (Some 1)) (run_op (Register guest)
    (run_op (RegisterRoot "s0") (mkWorld init []))).
Definition loosened : world :=
  run_op (ReserveSlot (Some 1)) (run_op (Release "g")
    (run_op (Commit 0 alice) (run_op (ReservePath 0 "/root/a") crowded))).

Lemma crowded_reachable : reachable_capped 1 1 crowded.
Proof.
  unfold crowded. eapply (rc_op 1 1 1); [|done..]. eapply (rc_op 1 0 1); [| |done|done].
  - eapply (rc_op 1 0 0); [apply rc_init|done..].
  - split_and!; [by eexists| |done|done]. intros id [= <-]. reflexivity.
Defined.

Example guests_are_not_counted :
  _total_count (reg crowded) = 1 /\
  count_if _active (reservations crowded) + members (reg crowded) = 2 /\
  _by_agent_id (reg loosened) !! "g"%string = None /\ _total_count (reg loosened) = 1 /\
  count_if _active (reservations loosened) + members (reg loosened) = 2.
Proof. vm_compute. done. Qed.

Example registry_capped_witness :
  count_if _active (reservations team) + members (reg team) <= 2 /\
  (snd (reserve_spawn_slot (Some 2) (reg team)) <> Raise (AgentLimitReached 2)) /\
  snd (reserve_spawn_slot (Some 1) (reg crowded)) = Raise (AgentLimitReached 1).
Proof.
  pose proof (registry_capped 2 0 team ltac:(lia) team_reachable) as (Hle & _ & Href & _).
  pose proof (registry_capped 1 1 crowded ltac:(lia) crowded_reachable) as (_ & Hc & _).
  split_and!; [exact Hle| |].
  - intros H. apply Href in H. vm_compute in H. by apply H.
  - apply Hc. vm_compute. done.
Defined.

(** The two indexes agree. Through any proper use, an agent id is found under a
    path exactly when its metadata is found by id and belongs at that path; an id
    is found under one path only; and a path that a pending spawn reserved shows
    no agent yet and refuses a second reservation. *)
Theorem registry_indexes_agree u w k id :
  reachable u w ->
  (agent_id_for_path k (reg w) = Some id <->
     exists m, agent_metadata_for_id id (reg w) = Some m /\ _tree_key m = k) /\
  (forall i s, reservations w !! i = Some s -> _reserved_path s = Some k ->
     agent_id_for_path k (reg w) = None /\
     snd (_reserve_agent_path k (reg w)) = Raise (AgentPathExists k)).
Proof.
  intros [H1 H2 H3 _ _]%registry_reachable_wf. unfold agent_id_for_path, agent_metadata_for_id, meta_at.
  split; [split|].
  - destruct (Dict.get k (_agent_tree (reg w))) as [a|] eqn:Ea; simpl; [|done].
    destruct (H2 k a Ea) as (m & Hm & Hk & Hx). rewrite Hm; simpl. intros Hid. rewrite Hid in Hx.
    exists m. rewrite Hx; simpl. by rewrite Hm.
  - intros (m & Hm & Hk). destruct (_by_agent_id (reg w) !! id) as [a|] eqn:Ea; simpl in Hm; [|done].
    destruct (H1 id a Ea) as (m' & Hm' & Hid & Hk'). simplify_eq.
    rewrite Hk'; simpl. rewrite Hm; simpl. done.
  - intros i s Hi Hs. destruct (H3 i s k Hi Hs) as (_ & (a & m & Ha & Hm & Hn & _) & _).
    unfold _reserve_agent_path, Dict.mem. rewrite Ha; simpl. by rewrite Hm.
Qed.

Example registry_indexes_agree_witness :
  agent_id_for_path "/root/a" (reg team) = Some "s1"%string.
Proof.
  refine (proj2 (proj1 (registry_indexes_agree 0 team "/root/a" "s1"
            (reachable_capped_reachable 2 0 team team_reachable))) _).
  eexists. split; reflexivity.
Defined.

(** *** Nicknames *)

Lemma choose_in i l : l <> [] -> choose i l ∈ l.
Proof.
  intros Hne. unfold choose.
  destruct (l !! (i mod length l)%nat) as [x|] eqn:E; simpl; [by eapply list_elem_of_lookup_2|].
  apply lookup_ge_None in E. destruct l; [done|].
  pose proof (Nat.mod_upper_bound i (length (s :: l)) ltac:(done)). lia.
Qed.

(** A drawn nickname comes from the names, and is new unless the pool had to be
    reset; either way it is in the used set afterwards. *)
Lemma nickname_fresh draw names r n :
  names <> [] -> snd (_reserve_agent_nickname draw names None r) = Some n ->
  let r' := fst (_reserve_agent_nickname draw names None r) in
  n ∈ _used_agent_nicknames r' /\
  (exists base, base ∈ names /\ n = format_agent_nickname base (_nickname_reset_count r')) /\
  (_nickname_reset_count r' = _nickname_reset_count r /\ n ∉ _used_agent_nicknames r \/
   _nickname_reset_count r' = (_nickname_reset_count r + 1)%N /\ available names r = []).
Proof.
  intros Hne. unfold _reserve_agent_nickname. destruct names as [|x l]; [done|].
  set (names := x :: l) in *. destruct (available names r) as [|y l'] eqn:E; simpl; intros [= <-].
  - split_and!; [set_solver| |by right].
    exists (choose draw names). split; [|done]. by apply choose_in.
  - pose proof (choose_in draw (y :: l') ltac:(done)) as Hin. rewrite <- E in Hin.
    rewrite <- E. apply list_elem_of_filter in Hin as [Hn Hin].
    apply list_elem_of_fmap in Hin as (base & Hb & ?).
    split_and!; [set_solver|by exists base|by left].
Qed.

End AgentRegistry.
