(* ===== verification/Messaging.v ===== *)
(** Inter-agent messaging: the mailbox of an agent
    ([orchestration/agents/messaging/mailbox.py]), the queue of parked deliveries
    ([pending.py]) and the communication graph ([routing.py]). *)

From S2P Require Import Prelude Text AgentPath.

Local Open Scope Z_scope.

Inductive CommKind : Type := TASK | NOTIFICATION | RESULT | QUERY | BROADCAST.

Definition CommKind_value (k : CommKind) : string :=
  match k with
  | TASK => "task" | NOTIFICATION => "notification" | RESULT => "result"
  | QUERY => "query" | BROADCAST => "broadcast"
  end.

Inductive DeliveryMode : Type := QUEUE_ONLY | TRIGGER_TURN.
#[export] Instance DeliveryMode_eq_dec : EqDecision DeliveryMode.
Proof. solve_decision. Defined.

(** The parts of a message the messaging code reads or writes. *)
Record Message : Type := mkMessage {
  m_content : string;
  m_sent_from : string;
  m_metadata : list (string * string)
}.

Record InterAgentCommunication : Type := mkComm {
  author : string;
  recipient : string;
  content : string;
  trigger_turn : bool;
  comm_kind : CommKind;
  channel : option string
}.

Definition MAILBOX_AUTHOR_PATH : string := "mailbox_author_path".
Definition MAILBOX_RECIPIENT_PATH : string := "mailbox_recipient_path".
Definition MAILBOX_KIND : string := "mailbox_kind".
Definition MAILBOX_CHANNEL : string := "mailbox_channel".

Definition add_metadata (k v : string) (m : Message) : Message :=
  mkMessage (m_content m) (m_sent_from m) (Dict.set k v (m_metadata m)).

Definition to_message (c : InterAgentCommunication) : Message :=
  let m := mkMessage (content c) (author c) [] in
  let m := add_metadata MAILBOX_AUTHOR_PATH (author c) m in
  let m := add_metadata MAILBOX_RECIPIENT_PATH (recipient c) m in
  let m := add_metadata MAILBOX_KIND (CommKind_value (comm_kind c)) m in
  match channel c with Some ch => add_metadata MAILBOX_CHANNEL ch m | None => m end.

Module Mailbox.

Record _MailboxItem : Type := mkItem { message : Message; trigger : bool }.

Record t : Type := mk { _items : list _MailboxItem; _data_event : bool }.

Definition init : t := mk [] false.

(** [metadata.get("output_publication_id")], if it is a non-empty text. *)
Definition publication_id (m : Message) : option string :=
  match Dict.get "output_publication_id"%string (m_metadata m) with
  | Some p => if decide (p = ""%string) then None else Some p
  | None => None
  end.

Definition already (p : string) (b : t) : bool :=
  existsb (fun i => bool_decide (publication_id (message i) = Some p)) (_items b).

Definition enqueue (m : Message) (mode : DeliveryMode) (b : t) : t :=
  match publication_id m with
  | Some p => if already p b then b
              else mk (_items b ++ [mkItem m (bool_decide (mode = TRIGGER_TURN))]) true
  | None => mk (_items b ++ [mkItem m (bool_decide (mode = TRIGGER_TURN))]) true
  end.

Definition enqueue_communication (c : InterAgentCommunication) (b : t) : t :=
  mk (_items b ++ [mkItem (to_message c) (trigger_turn c)]) true.

Definition drain_for_turn (b : t) : t * list Message := (mk [] false, message <$> _items b).

Definition has_trigger_turn (b : t) : bool := existsb trigger (_items b).
Definition empty (b : t) : bool := match _items b with [] => true | _ => false end.

Section persistence.
(** [Message.dump] and [Message.load] belong to the conversation contracts. *)
Context {Blob : Type} (dump_message : Message -> Blob) (load_message : Blob -> option Message).

Definition dump (b : t) : list (Blob * bool) :=
  (fun i => (dump_message (message i), trigger i)) <$> _items b.

Definition load (data : list (Blob * bool)) : t :=
  let items := omap (fun e => match load_message e.1 with
                              | Some m => Some (mkItem m e.2)
                              | None => None
                              end) data in
  mk items (match items with [] => false | _ => true end).

(** The event tells whether mail is pending. *)
Definition wf (b : t) : Prop :=
  _data_event b = negb (empty b) /\ NoDup (omap (fun i => publication_id (message i)) (_items b)).
End persistence.

Lemma already_spec p b :
  already p b = true <-> p ∈ omap (fun i => publication_id (message i)) (_items b).
Proof.
  unfold already. rewrite existsb_exists, list_elem_of_omap. split.
  - intros (i & Hi & H%bool_decide_eq_true). exists i. by rewrite list_elem_of_In.
  - intros (i & Hi & H). exists i. rewrite <- list_elem_of_In. by rewrite bool_decide_eq_true_2.
Qed.

Inductive op : Type :=
| Enqueue (m : Message) (mode : DeliveryMode)
| EnqueueComm (c : InterAgentCommunication)
| Drain.

(** Run the operations, collecting the batches handed to the scheduler. *)
Fixpoint run (l : list op) (b : t) : t * list (list Message) :=
  match l with
  | [] => (b, [])
  | Enqueue m mode :: l => run l (enqueue m mode b)
  | EnqueueComm c :: l => run l (enqueue_communication c b)
  | Drain :: l =>
      let (b, batch) := drain_for_turn b in
      let (b, batches) := run l b in (b, batch :: batches)
  end.

(** The messages that were offered, in order. *)
Definition offered (l : list op) : list Message :=
  omap (fun o => match o with
                 | Enqueue m _ => Some m | EnqueueComm c => Some (to_message c) | Drain => None
                 end) l.

(** A message carrying no publication id is never taken for a duplicate. *)
Definition plain (m : Message) : Prop := publication_id m = None.

Lemma to_message_plain c : plain (to_message c).
Proof. unfold plain, publication_id, to_message. by destruct (channel c). Qed.

Lemma mailbox_wf_snoc m tr b :
  wf b -> (forall p, publication_id m = Some p -> already p b = false) ->
  wf (mk (_items b ++ [mkItem m tr]) true).
Proof.
  intros [He Hn] Hp. split; simpl.
  - unfold empty; simpl. by destruct (_items b).
  - rewrite omap_app; simpl. destruct (publication_id m) as [p|] eqn:E; simpl.
    + apply NoDup_app. split_and!; [done| |apply NoDup_singleton].
      intros x Hx ->%list_elem_of_singleton. apply already_spec in Hx. by rewrite Hp in Hx.
    + by rewrite app_nil_r.
Qed.

Lemma mailbox_run_spec l b :
  wf b ->
  let (b', batches) := run l b in
  wf b' /\ exists acc, concat batches ++ (message <$> _items b') = (message <$> _items b) ++ acc /\
    acc `sublist_of` offered l /\
    filter plain acc = filter plain (offered l).
Proof.
  revert b. induction l as [|o l IH]; intros b Hb; simpl.
  { split; [done|]. exists []. by rewrite app_nil_r. }
  assert (forall m tr, (forall p, publication_id m = Some p -> already p b = false) ->
    let (b', batches) := run l (mk (_items b ++ [mkItem m tr]) true) in
    wf b' /\ exists acc, concat batches ++ (message <$> _items b') = (message <$> _items b) ++ acc /\
      acc `sublist_of` (m :: offered l) /\ filter plain acc = filter plain (m :: offered l)) as Hadd.
  { intros m tr Hp. specialize (IH _ (mailbox_wf_snoc m tr b Hb Hp)).
    destruct (run l _) as [b' batches]. destruct IH as [Hw (acc & E & Hs & Hf)].
    split; [done|]. exists (m :: acc). simpl in E. rewrite fmap_app in E; simpl in E. split_and!.
    - rewrite E. by rewrite <- app_assoc.
    - by apply sublist_skip.
    - rewrite !filter_cons, Hf. done. }
  destruct o as [m mode|c|].
  - unfold enqueue. destruct (publication_id m) as [p|] eqn:Ep.
    + destruct (already p b) eqn:Ea.
      * specialize (IH b Hb). destruct (run l b) as [b' batches].
        destruct IH as [Hw (acc & E & Hs & Hf)]. split; [done|]. exists acc. split_and!; [done| |].
        -- by apply sublist_cons.
        -- change (offered (Enqueue m mode :: l)) with (m :: offered l).
           rewrite filter_cons_False; [done|]. unfold plain. congruence.
      * apply Hadd. intros p' Hp'. by assert (p' = p) as -> by congruence.
    + apply Hadd. congruence.
  - apply Hadd. intros p Hp. pose proof (to_message_plain c) as Hpl. unfold plain in Hpl. congruence.
  - simpl. specialize (IH (mk [] false) ltac:(split; [done|constructor])).
    destruct (run l (mk [] false)) as [b' batches]. destruct IH as [Hw (acc & E & Hs & Hf)].
    split; [done|]. exists acc. simpl in E. split_and!; [|done|done].
    simpl. by rewrite <- E, app_assoc.
Qed.

(** Mail is delivered once and in order. Over any sequence of deliveries and
    turn boundaries, the batches the scheduler drained followed by what is still
    pending are the offered messages in their order, where only a repetition of a
    publication still pending may be left out; the event is set exactly when mail
    is pending. *)
Theorem mailbox_delivers l :
  let (b, batches) := run l init in
  (exists acc, concat batches ++ (message <$> _items b) = acc /\ acc `sublist_of` offered l /\
     filter plain acc = filter plain (offered l)) /\
  _data_event b = negb (empty b) /\
  NoDup (omap (fun i => publication_id (message i)) (_items b)).
Proof.
  pose proof (mailbox_run_spec l init ltac:(split; [done|constructor])) as H.
  destruct (run l init) as [b batches]. destruct H as [[He Hn] (acc & E & Hs & Hf)].
  split_and!; [|done|done]. exists acc. simpl in E. done.
Qed.

Definition hello : Message := mkMessage "hello" "/root" [].

(** An agent's mail survives its eviction: after any deliveries and turns, loading
    what [dump] wrote gives the same mailbox, items, wake flags and event included. *)
Theorem mailbox_dump_load {Blob} (dump_message : Message -> Blob) (load_message : Blob -> option Message) l :
  (forall m, load_message (dump_message m) = Some m) ->
  let b := fst (run l init) in load load_message (dump dump_message b) = b.
Proof.
  intros Hrt b. assert (_data_event b = negb (empty b)) as He.
  { pose proof (mailbox_run_spec l init ltac:(split; [done|constructor])) as H. unfold b.
    by destruct (run l init); destruct H as [[? _] _]. }
  clearbody b. unfold load, dump. destruct b as [items ev]; simpl in *.
  assert (omap (fun e => match load_message e.1 with Some m => Some (mkItem m e.2) | None => None end)
            ((fun i => (dump_message (message i), trigger i)) <$> items) = items) as ->.
  { clear He. induction items as [|[m tr] l' IH]; [done|]. simpl. rewrite Hrt. by f_equal. }
  rewrite He. by destruct items.
Qed.

Example mailbox_dump_load_witness :
  let b := fst (run [Enqueue hello TRIGGER_TURN; Drain; Enqueue hello QUEUE_ONLY] init) in
  empty b = false /\ load (fun b => Some b) (dump (fun m => m) b) = b.
Proof.
  split; [reflexivity|].
  exact (mailbox_dump_load (fun m => m) (fun b => Some b) [Enqueue hello TRIGGER_TURN; Drain; Enqueue hello QUEUE_ONLY]
           (fun m => eq_refl)).
Defined.

End Mailbox.

Module PendingDeliveryQueue.

Inductive PendingDelivery : Type :=
| OfMessage (m : Message) (mode : DeliveryMode)
| OfCommunication (c : InterAgentCommunication).

Definition triggers (d : PendingDelivery) : bool :=
  match d with
  | OfCommunication c => trigger_turn c
  | OfMessage _ mode => bool_decide (mode = TRIGGER_TURN)
  end.

Record t : Type := mk {
  _queues : list (string * list PendingDelivery);
  _back_pressure : gmap string Z;
  _waker : bool
}.

Definition init : t := mk [] ∅ false.

Definition queue (a : string) (q : t) : list PendingDelivery := default [] (Dict.get a (_queues q)).

Definition park (a : string) (d : PendingDelivery) (q : t) : t :=
  mk (Dict.set a (queue a q ++ [d]) (_queues q)) (_back_pressure q) true.

Definition agents_with_pending (q : t) : list string :=
  omap (fun kv : string * list PendingDelivery => match kv.2 with [] => None | _ => Some kv.1 end)
    (_queues q).

Definition take_all (a : string) (q : t) : t * list PendingDelivery :=
  (mk (Dict.pop a (_queues q)) (delete a (_back_pressure q)) (_waker q), queue a q).

Definition has_pending (a : option string) (q : t) : bool :=
  match a with
  | Some a => match queue a q with [] => false | _ => true end
  | None => existsb (fun kv : string * list PendingDelivery => match kv.2 with [] => false | _ => true end)
              (_queues q)
  end.

Definition has_trigger_pending (q : t) : bool :=
  existsb (fun kv : string * list PendingDelivery => existsb triggers kv.2) (_queues q).

Definition drop (a : string) (q : t) : t :=
  mk (Dict.pop a (_queues q)) (delete a (_back_pressure q)) (_waker q).

Definition note_back_pressure (a : string) (q : t) : t * Z :=
  let count := default 0 (_back_pressure q !! a) + 1 in
  (mk (_queues q) (<[a := count]> (_back_pressure q)) (_waker q), count).

Definition clear_waker (q : t) : t := mk (_queues q) (_back_pressure q) false.

Inductive op : Type :=
| Park (a : string) (d : PendingDelivery)
| TakeAll (a : string)
| Drop (a : string)
| NoteBackPressure (a : string).

Definition run_op (o : op) (q : t) : t :=
  match o with
  | Park a d => park a d q
  | TakeAll a => fst (take_all a q)
  | Drop a => drop a q
  | NoteBackPressure a => fst (note_back_pressure a q)
  end.

Definition run (l : list op) (q : t) : t := foldl (fun q o => run_op o q) q l.

(** What should be parked for [a] after the operations: everything parked for it
    since it was last taken or dropped. *)
Definition expected (a : string) (l : list op) (acc : list PendingDelivery) : list PendingDelivery :=
  foldl (fun acc o => match o with
                      | Park a' d => if decide (a' = a) then acc ++ [d] else acc
                      | TakeAll a' | Drop a' => if decide (a' = a) then [] else acc
                      | NoteBackPressure _ => acc
                      end) acc l.

Lemma queue_set a a' v q bp w :
  queue a (mk (Dict.set a' v (_queues q)) bp w) = if decide (a' = a) then v else queue a q.
Proof.
  unfold queue; simpl. case_decide; subst; [by rewrite Dict.get_set_eq|by rewrite Dict.get_set_ne].
Qed.

Lemma queue_pop a a' q bp w :
  queue a (mk (Dict.pop a' (_queues q)) bp w) = if decide (a' = a) then [] else queue a q.
Proof.
  unfold queue; simpl. case_decide; subst; [by rewrite Dict.get_pop_eq|by rewrite Dict.get_pop_ne].
Qed.

Lemma queue_run a l q : queue a (run l q) = expected a l (queue a q).
Proof.
  revert q. induction l as [|o l IH]; intros q; simpl; [done|]. rewrite IH. f_equal.
  destruct o; simpl; unfold park, drop, take_all; simpl; rewrite ?queue_set, ?queue_pop; try done.
  case_decide; by subst.
Qed.

Lemma queues_nodup l q : NoDup (Dict.keys (_queues q)) -> NoDup (Dict.keys (_queues (run l q))).
Proof.
  revert q. induction l as [|o l IH]; intros q Hq; simpl; [done|]. apply IH.
  destruct o; simpl; auto with mote.
Qed.

Lemma queue_elem (P : list PendingDelivery -> bool) q :
  NoDup (Dict.keys (_queues q)) -> P [] = false ->
  existsb (fun kv => P kv.2) (_queues q) = true <-> exists a, P (queue a q) = true.
Proof.
  intros Hn H0. rewrite existsb_exists. split.
  - intros ([a l] & Hin & Hp). exists a. rewrite <- list_elem_of_In in Hin.
    unfold queue. by rewrite (Dict.elem_get _ _ _ Hn Hin).
  - intros [a Hp]. unfold queue in Hp. destruct (Dict.get a (_queues q)) as [l|] eqn:E; simpl in Hp; [|congruence].
    exists (a, l). rewrite <- list_elem_of_In. split; [by apply Dict.get_Some_elem|done].
Qed.

(** Parked mail is never lost or reordered. After any operations on an empty
    queue, what is parked for an agent is exactly what was parked since it was last
    taken or dropped, in order; [take_all] hands over all of it at once; and the
    queue reports pending work, and work that must start a turn, exactly when some
    agent has it. *)
Theorem pending_conserved l a :
  let q := run l init in
  queue a q = expected a l [] /\
  snd (take_all a q) = expected a l [] /\ queue a (fst (take_all a q)) = [] /\
  (has_pending None q = true <-> exists b, expected b l [] <> []) /\
  (has_trigger_pending q = true <-> exists b, existsb triggers (expected b l []) = true) /\
  (a ∈ agents_with_pending q <-> expected a l [] <> []).
Proof.
  intros q. assert (forall b, queue b q = expected b l []) as Hq by (intros b; apply (queue_run b l init)).
  assert (NoDup (Dict.keys (_queues q))) as Hn by (apply queues_nodup; constructor).
  split_and!; try apply Hq.
  - unfold take_all; simpl. rewrite queue_pop. by rewrite decide_True.
  - unfold has_pending. rewrite (queue_elem (fun l => match l with [] => false | _ => true end)) by done.
    split; intros [b Hb]; exists b; [rewrite <- Hq|rewrite Hq]; by case_match.
  - unfold has_trigger_pending. rewrite (queue_elem (existsb triggers)) by done.
    split; intros [b Hb]; exists b; by rewrite ?Hq in *.
  - unfold agents_with_pending. rewrite list_elem_of_omap, <- Hq. split.
    + intros ([k v] & Hin & E); simpl in E. destruct v; simplify_eq.
      unfold queue. rewrite (Dict.elem_get _ _ _ Hn Hin). done.
    + intros Hne. unfold queue in Hne. destruct (Dict.get a (_queues q)) as [v|] eqn:E; [|done].
      exists (a, v). split; [by apply Dict.get_Some_elem|]. by destruct v.
Qed.

Lemma waker_stays l q : _waker q = true -> _waker (run l q) = true.
Proof.
  revert q. induction l as [|o l IH]; intros q H; [done|]. simpl. apply IH. by destruct o.
Qed.

(** No lost wake-up. A fulfilment pass that clears the waker and then takes its
    snapshot of agents cannot miss mail: whatever is parked, taken or dropped
    afterwards, an agent with parked mail is in the snapshot or the waker is set
    again. *)
Theorem pending_no_lost_wakeup q l a :
  let q0 := clear_waker q in
  let q1 := run l q0 in
  queue a q1 <> [] -> a ∈ agents_with_pending q0 \/ _waker q1 = true.
Proof.
  cbv zeta. generalize (clear_waker q) as q0. clear q. intros q0 Ha.
  destruct (queue a q0) as [|d ds] eqn:E.
  - right. revert q0 Ha E. induction l as [|o l IH]; intros q0 Ha E; [done|]. simpl in *.
    destruct o as [a' d|a'|a'|a']; [by apply waker_stays|..]; apply IH; try done;
      simpl; unfold drop; simpl; rewrite ?queue_pop; by case_decide.
  - left. unfold queue in E. destruct (Dict.get a (_queues q0)) as [v|] eqn:Ev; simplify_eq/=.
    apply list_elem_of_omap. exists (a, d :: ds). split; [by apply Dict.get_Some_elem|done].
Qed.

Example pending_no_lost_wakeup_witness :
  "s"%string ∈ agents_with_pending (clear_waker init) \/
  _waker (run [Park "s" (OfMessage Mailbox.hello QUEUE_ONLY)] (clear_waker init)) = true.
Proof.
  apply (pending_no_lost_wakeup init [Park "s" (OfMessage Mailbox.hello QUEUE_ONLY)] "s").
  vm_compute. discriminate.
Defined.
End PendingDeliveryQueue.

Module CommGraph.

Record t : Type := mk {
  _addresses : list (string * gset string);
  _channels : list (string * gset string);
  _paths : list (string * string)
}.

Definition init : t := mk [] [] [].
Definition MESSAGE_ROUTE_TO_ALL : string := "<all>".

Definition register (id : string) (addresses : option (gset string)) (path : option string) (g : t) : t :=
  let g := match addresses with
           | Some a => mk (Dict.set id a (_addresses g)) (_channels g) (_paths g)
           | None => g
           end in
  match path with
  | Some p => mk (_addresses g) (_channels g) (Dict.set id p (_paths g))
  | None => g
  end.

Definition set_addresses (id : string) (addresses : option (gset string)) (g : t) : t :=
  mk (Dict.set id (default ∅ addresses) (_addresses g)) (_channels g) (_paths g).

Definition addresses_for (id : string) (g : t) : gset string := default ∅ (Dict.get id (_addresses g)).
Definition path_for (id : string) (g : t) : option string := Dict.get id (_paths g).

Definition discard_member (id : string) (c : string * gset string) : string * gset string :=
  (c.1, c.2 ∖ {[ id ]}).

Definition remove (id : string) (g : t) : t :=
  mk (Dict.pop id (_addresses g)) (discard_member id <$> _channels g) (Dict.pop id (_paths g)).

Definition members (ch : string) (g : t) : gset string := default ∅ (Dict.get ch (_channels g)).

Definition join_channel (ch id : string) (g : t) : t :=
  mk (_addresses g) (Dict.set ch ({[ id ]} ∪ members ch g) (_channels g)) (_paths g).

Definition leave_channel (ch id : string) (g : t) : t :=
  match Dict.get ch (_channels g) with
  | None => g
  | Some m =>
      let m := m ∖ {[ id ]} in
      if decide (m = ∅) then mk (_addresses g) (Dict.pop ch (_channels g)) (_paths g)
      else mk (_addresses g) (Dict.set ch m (_channels g)) (_paths g)
  end.

Definition channel_members (ch : string) (g : t) : list string := Text.sorted (elements (members ch g)).
Definition channels (g : t) : list string := Text.sorted (Dict.keys (_channels g)).

Definition resolve_recipients (send_to : gset string) (all_ids : list string) (g : t) : list string :=
  if decide (MESSAGE_ROUTE_TO_ALL ∈ send_to) then all_ids
  else omap (fun kv : string * gset string => if decide (kv.2 ∩ send_to = ∅) then None else Some kv.1)
         (_addresses g).

Definition subtree_members (root_path : string) (include_root : bool) (g : t) : list string :=
  omap (fun kv : string * string =>
    if decide (kv.2 = root_path) then (if include_root then Some kv.1 else None)
    else if String.prefix (root_path +:+ "/") kv.2 then Some kv.1 else None) (_paths g).

(** *** Subtrees *)

Lemma prefix_spec p s : String.prefix p s = true <-> exists r, s = p +:+ r.
Proof.
  revert s. induction p as [|c p IH]; intros s; simpl.
  - split; [by eexists|]. by destruct s.
  - destruct s as [|c' s]; simpl; [split; [done|by intros [r ?]]|].
    destruct (Ascii.ascii_dec c c') as [->|Hne].
    + rewrite IH. split; intros [r E]; exists r; [by rewrite E|by injection E].
    + split; [done|]. intros [r E]. by injection E.
Qed.

Lemma split_descend s names r :
  AgentPath.has_slash s = false -> Forall (fun n => AgentPath.has_slash n = false) names ->
  AgentPath.split (s +:+ AgentPath.slashed names +:+ "/" +:+ r) = s :: names ++ AgentPath.split r.
Proof.
  intros Hs Hn. revert s Hs. induction Hn as [|n l Hn _ IH]; intros s Hs.
  - by apply AgentPath.split_app.
  - transitivity (AgentPath.split (s +:+ "/" +:+ (n +:+ AgentPath.slashed l +:+ "/" +:+ r))).
    + f_equal. f_equal. simpl. change (AgentPath.slashed (n :: l)) with ("/" +:+ n +:+ AgentPath.slashed l).
      by rewrite <- !AgentPath.app_assoc_s.
    + rewrite AgentPath.split_app by done. by rewrite IH.
Qed.

Lemma names_no_slash l :
  Forall AgentPath.valid_name l -> Forall (fun n => AgentPath.has_slash n = false) l.
Proof.
  intros Hl. eapply Forall_impl; [done|]. intros n Hn.
  by apply AgentPath.valid_name_inv in Hn as (_ & _ & ? & _).
Qed.

Lemma render_app base k : AgentPath.render (base ++ k) = AgentPath.render base +:+ AgentPath.slashed k.
Proof. unfold AgentPath.render. rewrite foldl_app. apply AgentPath.foldl_slashed. Qed.

(** The text prefix test is the tree's descendant relation. *)
Lemma prefix_tree base l :
  Forall AgentPath.valid_name base -> Forall AgentPath.valid_name l ->
  String.prefix (AgentPath.render base +:+ "/") (AgentPath.render l) = true <->
  exists k, k <> [] /\ l = base ++ k.
Proof.
  intros Hb%names_no_slash Hl%names_no_slash. rewrite prefix_spec. split.
  - intros [r E]. rewrite !AgentPath.render_slashed, <- !AgentPath.app_assoc_s in E.
    exists (AgentPath.split r).
    assert (AgentPath.slashed l = AgentPath.slashed base +:+ "/" +:+ r) as E' by (by injection E).
    apply (f_equal (fun x => "root" +:+ x)) in E'.
    apply (f_equal AgentPath.split) in E'.
    rewrite AgentPath.split_slashed, split_descend in E' by done.
    destruct (AgentPath.split_cons r) as (h & t & Er). rewrite Er in *. split; [done|]. by injection E'.
  - intros (k & Hk & ->). destruct k as [|n k]; [done|].
    exists (n +:+ AgentPath.slashed k). rewrite render_app, <- AgentPath.app_assoc_s. done.
Qed.

Lemma tree_not_below_morpheus l : String.prefix (AgentPath.MORPHEUS +:+ "/") (AgentPath.render l) = false.
Proof.
  apply not_true_iff_false. rewrite prefix_spec, AgentPath.render_slashed. by intros [r ?].
Qed.

(** Broadcasting to a subtree reaches exactly the subtree. For graphs whose paths
    are valid, the members below an agent's path are the registered agents whose
    path extends it by at least one name, and the agents at the path itself when
    asked for: never an agent whose path only starts with the same text. *)
Theorem subtree_members_exact g base incl id :
  NoDup (Dict.keys (_paths g)) ->
  Forall (fun kv => AgentPath.valid kv.2) (_paths g) ->
  Forall AgentPath.valid_name base ->
  id ∈ subtree_members (AgentPath.render base) incl g <->
  exists k, path_for id g = Some (AgentPath.render (base ++ k)) /\ Forall AgentPath.valid_name k /\
            (k = [] -> incl = true).
Proof.
  intros Hn Hv Hb. unfold subtree_members, path_for. rewrite list_elem_of_omap. split.
  - intros ([id' p] & Hin & E); simpl in E.
    assert (AgentPath.valid p) as Hp by (rewrite Forall_forall in Hv; apply (Hv _ Hin)).
    assert (id' = id /\ (p = AgentPath.render base /\ incl = true \/
      p <> AgentPath.render base /\ String.prefix (AgentPath.render base +:+ "/") p = true)) as [-> Hor].
    { case_decide; [destruct incl|case_match]; naive_solver. }
    rewrite (Dict.elem_get _ _ _ Hn Hin). destruct Hor as [[-> ->]|[Hne Hpre]].
    + exists []. by rewrite app_nil_r.
    + apply AgentPath.valid_render in Hp as [->|(l & Hl & ->)].
      { exfalso. apply prefix_spec in Hpre as [r Hr]. by rewrite AgentPath.render_slashed in Hr. }
      apply prefix_tree in Hpre as (k & Hk & ->); [|done..]. exists k. split_and!; [done| |done].
      by apply Forall_app in Hl as [_ ?].
  - intros (k & Hg & Hk & Hi). exists (id, AgentPath.render (base ++ k)).
    split; [by apply Dict.get_Some_elem|]. simpl. case_decide as Heq.
    + destruct k as [|n k]; [by rewrite Hi|]. exfalso. revert Heq. rewrite render_app.
      apply AgentPath.app_long. done.
    + assert (String.prefix (AgentPath.render base +:+ "/") (AgentPath.render (base ++ k)) = true) as ->; [|done].
      apply prefix_tree; [done|by apply Forall_app|]. exists k. split; [|done]. intros ->. by rewrite app_nil_r in Heq.
Qed.

Definition graph0 : t :=
  register "s2" None (Some "/root/ab"%string)
    (register "s1" (Some {[ "x"%string ]}) (Some "/root/a/b"%string) (register "s0" None (Some "/root/a"%string) init)).

Example subtree_members_exact_witness :
  "s1"%string ∈ subtree_members (AgentPath.render ["a"%string]) false graph0 /\
  subtree_members (AgentPath.render ["a"%string]) false graph0 = ["s1"%string].
Proof.
  split; [|reflexivity].
  apply (subtree_members_exact graph0 ["a"%string] false "s1").
  - vm_compute. repeat constructor; set_solver.
  - repeat constructor.
  - repeat constructor.
  - exists ["b"%string]. split_and!; [reflexivity|repeat constructor|discriminate].
Defined.

(** An agent that is removed is in no channel and receives nothing by address. *)
Lemma remove_forgets id g ch send_to :
  NoDup (Dict.keys (_channels g)) ->
  id ∉ members ch (remove id g) /\
  (MESSAGE_ROUTE_TO_ALL ∉ send_to -> id ∉ resolve_recipients send_to [] (remove id g)) /\
  path_for id (remove id g) = None.
Proof.
  intros Hn. split_and!.
  - unfold members, remove; simpl. destruct (Dict.get ch _) as [m|] eqn:E; simpl; [|set_solver].
    apply Dict.get_Some_elem, list_elem_of_fmap in E as ([c m'] & [= -> ->] & _). set_solver.
  - intros Hs. unfold resolve_recipients. rewrite decide_False by done. rewrite list_elem_of_omap.
    intros ([k v] & Hin & E); simpl in *. apply Dict.elem_pop in Hin as [Hne _].
    case_decide; naive_solver.
  - unfold path_for, remove; simpl. apply Dict.get_pop_eq.
Qed.
End CommGraph.
