(* ===== verification/Residency.v ===== *)
(** Keeping agents in memory and running: LRU residency
    ([orchestration/agents/residency/manager.py]) and the limiter of concurrent
    turns ([orchestration/agents/execution/limiter.py]). *)

From S2P Require Import Prelude.

Local Open Scope Z_scope.

Module Residency.

(** Front of the list: least recently used. *)
Record t : Type := mk { _residents : list string; _pending_slots : Z }.

Definition init : t := mk [] 0.

(** [deque.remove]: the first occurrence. *)
Fixpoint remove_first (id : string) (l : list string) : list string :=
  match l with
  | [] => []
  | x :: l => if decide (x = id) then l else x :: remove_first id l
  end.

Definition _discard_locked (id : string) (s : t) : t :=
  mk (remove_first id (_residents s)) (_pending_slots s).

Definition touch (id : string) (s : t) : t :=
  let s := _discard_locked id s in mk (_residents s ++ [id]) (_pending_slots s).

Definition remove (id : string) (s : t) : t := _discard_locked id s.

Definition _try_reserve_pending_slot (capacity : option Z) (s : t) : t * bool :=
  if match capacity with
     | Some c => c <=? Z.of_nat (length (_residents s)) + _pending_slots s
     | None => false
     end
  then (s, false)
  else (mk (_residents s) (_pending_slots s + 1), true).

Definition _release_pending_slot (s : t) : t := mk (_residents s) (Z.max 0 (_pending_slots s - 1)).

Definition _commit_slot (id : string) (s : t) : t := touch id (_release_pending_slot s).

(** The loop of [_pop_lru_candidate]: skip the protected agent, moving it back. *)
Fixpoint pop_lru (fuel : nat) (protected : option string) (l : list string)
    : list string * option string :=
  match fuel, l with
  | S fuel, x :: l =>
      if decide (Some x = protected) then pop_lru fuel protected (l ++ [x]) else (l, Some x)
  | _, _ => (l, None)
  end.

Definition _pop_lru_candidate (protected : option string) (s : t) : t * option string :=
  let (l, c) := pop_lru (length (_residents s)) protected (_residents s) in
  (mk l (_pending_slots s), c).

(** What trying to unload an agent does: it is already gone, it is busy or its
    eviction raised (it is touched), or it is evicted. *)
Inductive attempt : Type := Gone | Kept | Evicted.
#[export] Instance attempt_eq_dec : EqDecision attempt.
Proof. solve_decision. Defined.

(** [_try_unload_one_resident], when nothing else runs during its awaits. *)
Fixpoint unload_loop (n : nat) (try_unload : string -> attempt) (protected : option string) (s : t)
    : t * option string :=
  match n with
  | O => (s, None)
  | S n =>
      let (s, c) := _pop_lru_candidate protected s in
      match c with
      | None => (s, None)
      | Some c =>
          match try_unload c with
          | Gone => unload_loop n try_unload protected s
          | Kept => unload_loop n try_unload protected (touch c s)
          | Evicted => (s, Some c)
          end
      end
  end.

Definition _try_unload_one_resident (try_unload : string -> attempt) (protected : option string)
    (s : t) : t * option string :=
  unload_loop (length (_residents s)) try_unload protected s.

(** [reserve_slot]: [Ok] with the agents evicted for it, or [AgentLimitReached]. *)
Inductive exn : Type := AgentLimitReached (capacity : option Z) | OutOfFuel.

Fixpoint reserve_loop (fuel : nat) (try_unload : string -> attempt) (capacity : option Z)
    (protected : option string) (s : t) : t * outcome exn (list string) :=
  match fuel with
  | O => (s, Raise OutOfFuel)
  | S fuel =>
      let (s, ok) := _try_reserve_pending_slot capacity s in
      if ok then (s, Ok [])
      else
        let (s, c) := _try_unload_one_resident try_unload protected s in
        match c with
        | None => (s, Raise (AgentLimitReached capacity))
        | Some c =>
            let (s, o) := reserve_loop fuel try_unload capacity protected s in
            (s, match o with Ok l => Ok (c :: l) | Raise e => Raise e end)
        end
  end.

Definition reserve_slot (try_unload : string -> attempt) (capacity : option Z)
    (protected : option string) (s : t) : t * outcome exn (list string) :=
  reserve_loop (S (length (_residents s))) try_unload capacity protected s.

Definition try_reserve_sync (capacity : option Z) (s : t) : t * bool :=
  _try_reserve_pending_slot capacity s.

(** [class ResidencySlot]: whether the slot is active. *)
Definition slot_commit (id : string) (active : bool) (s : t) : bool * t :=
  if active then (false, _commit_slot id s) else (active, s).
Definition slot_rollback (active : bool) (s : t) : bool * t :=
  if active then (false, _release_pending_slot s) else (active, s).

(** ** Eviction order *)

Definition others (protected : option string) (l : list string) : list string :=
  filter (fun x => Some x <> protected) l.

Lemma remove_first_notin id l : id ∉ l -> remove_first id l = l.
Proof.
  induction l as [|x l IH]; [done|]. rewrite not_elem_of_cons. intros [? ?]; simpl.
  rewrite decide_False by done. by rewrite IH.
Qed.

Lemma elem_remove_first x id l : x ∈ remove_first id l -> x ∈ l.
Proof.
  induction l as [|y l IH]; [done|]; simpl. case_decide; [by right|].
  rewrite !elem_of_cons. naive_solver.
Qed.

Lemma NoDup_remove_first id l : NoDup l -> NoDup (remove_first id l) /\ id ∉ remove_first id l.
Proof.
  induction 1 as [|x l Hx Hl [IH1 IH2]]; simpl; [by split; [constructor|apply not_elem_of_nil]|].
  case_decide; [by subst|]. split.
  - constructor; [|done]. intros Hin. by apply Hx, (elem_remove_first x id).
  - rewrite not_elem_of_cons. auto.
Qed.

Lemma length_remove_first id l :
  id ∈ l -> length l = S (length (remove_first id l)).
Proof.
  induction l as [|x l IH]; [by intros ?%not_elem_of_nil|]. simpl. intros Hin.
  case_decide; [done|]. simpl. f_equal. apply IH. apply elem_of_cons in Hin as [->|]; done.
Qed.

Lemma NoDup_touch id s : NoDup (_residents s) -> NoDup (_residents (touch id s)).
Proof.
  intros Hn. simpl. destruct (NoDup_remove_first id _ Hn) as [H1 H2].
  apply NoDup_app. split_and!; [done| |apply NoDup_singleton].
  intros x Hx ->%list_elem_of_singleton. done.
Qed.

Lemma others_app p l1 l2 : others p (l1 ++ l2) = others p l1 ++ others p l2.
Proof. apply filter_app. Qed.

(** Popping takes the first unprotected agent; the rest is only rotated. *)
Lemma pop_lru_spec n p l :
  NoDup l -> (length l <= n)%nat ->
  let (l', c) := pop_lru n p l in
  match c with
  | None => others p l = [] /\ l' ≡ₚ l
  | Some c => others p l = c :: others p l' /\ l ≡ₚ c :: l'
  end.
Proof.
  intros Hn Hlen. destruct l as [|x l]; [by destruct n|].
  destruct n as [|n]; [simpl in Hlen; lia|]. simpl in Hlen. cbn [pop_lru].
  destruct (decide (Some x = p)) as [<-|Hx].
  - apply NoDup_cons in Hn as [Hnin Hn].
    assert (others (Some x) l = l) as Ho.
    { apply filter_all, Forall_forall. intros y Hy [= ->]. done. }
    destruct l as [|y l]; simpl.
    + assert (pop_lru n (Some x) [x] = ([x], None)) as ->.
      { clear. induction n as [|n IH]; [done|]. simpl. by rewrite decide_True. }
      split; [|done]. unfold others. rewrite filter_cons_False; [done|tauto].
    + destruct n as [|n]; [simpl in Hlen; lia|]. simpl.
      rewrite decide_False by (intros [= ->]; apply Hnin; by left).
      rewrite others_app. unfold others in Ho |- *.
      rewrite filter_cons_False by tauto. rewrite Ho.
      rewrite (filter_cons_False _ x) by tauto. split.
      * rewrite filter_nil, app_nil_r. f_equal.
        rewrite filter_cons_True in Ho by (intros [= ->]; apply Hnin; by left). by injection Ho.
      * rewrite <- Permutation_cons_append. apply Permutation_swap.
  - split; [|done]. unfold others. by rewrite filter_cons_True by congruence.
Qed.

(** What a scan keeps: agents of the memory, no agent twice, the pending slots, and
    the protected agent if it was there. *)
Record shrinks (protected : option string) (s s' : t) : Prop := {
  sh_nodup : NoDup (_residents s');
  sh_pending : _pending_slots s' = _pending_slots s;
  sh_sub x : x ∈ _residents s' -> x ∈ _residents s;
  sh_protected x : Some x = protected -> x ∈ _residents s -> x ∈ _residents s'
}.

Lemma shrinks_trans p s1 s2 s3 : shrinks p s1 s2 -> shrinks p s2 s3 -> shrinks p s1 s3.
Proof. intros [] []. split; eauto; congruence. Qed.

Lemma pop_candidate_spec p s :
  NoDup (_residents s) ->
  let (s', c) := _pop_lru_candidate p s in
  shrinks p s s' /\
  match c with
  | None => others p (_residents s) = []
  | Some c => others p (_residents s) = c :: others p (_residents s') /\ c ∉ _residents s' /\
              c ∈ _residents s /\ length (_residents s) = S (length (_residents s')) /\ Some c <> p
  end.
Proof.
  intros Hn. unfold _pop_lru_candidate.
  pose proof (pop_lru_spec (length (_residents s)) p (_residents s) Hn (le_n _)) as H.
  destruct (pop_lru _ p (_residents s)) as [l' [c|]].
  - destruct H as [Ho Hp]. rewrite Hp in Hn. apply NoDup_cons in Hn as [Hc Hl].
    assert (Some c <> p) as Hcp.
    { assert (c ∈ others p (_residents s)) as Hin by (rewrite Ho; left).
      by apply list_elem_of_filter in Hin as [? _]. }
    split; [split; simpl; [done|done| |]|split_and!; simpl; try done].
    + intros x Hx. rewrite Hp. by right.
    + intros x <-. rewrite Hp, elem_of_cons. intros [->|]; done.
    + rewrite Hp. left.
    + by rewrite Hp.
  - destruct H as [Ho Hp]. split; [|done]. split; simpl; [by rewrite Hp|done| |]; intros x; by rewrite Hp.
Qed.

Lemma touch_fresh c s : c ∉ _residents s -> touch c s = mk (_residents s ++ [c]) (_pending_slots s).
Proof. intros Hc. unfold touch, _discard_locked; simpl. by rewrite remove_first_notin. Qed.

Lemma unload_loop_shrinks n try p s :
  NoDup (_residents s) ->
  let (s', r) := unload_loop n try p s in
  shrinks p s s' /\
  match r with
  | Some c => try c = Evicted /\ c ∈ _residents s /\ c ∉ _residents s' /\ Some c <> p /\
              (length (_residents s') < length (_residents s))%nat
  | None => (length (_residents s') <= length (_residents s))%nat
  end.
Proof.
  revert s. induction n as [|n IH]; intros s Hn; simpl.
  { split; [by split|done]. }
  pose proof (pop_candidate_spec p s Hn) as Hpop.
  destruct (_pop_lru_candidate p s) as [s1 [c|]].
  2:{ destruct Hpop as [Hs _]. split; [done|]. apply submseteq_length.
      apply NoDup_submseteq; [by destruct Hs|]. intros x. by destruct Hs as [_ _ Hs _]; auto. }
  destruct Hpop as (Hs & _ & Hc & Hin & Hlen & Hcp).
  destruct (try c) eqn:Et.
  - specialize (IH s1 ltac:(by destruct Hs)). destruct (unload_loop n try p s1) as [s' r].
    destruct IH as [Hs' Hr]. split; [by eapply shrinks_trans|]. destruct r; [|lia].
    destruct Hs as [_ _ Hsub _]. naive_solver lia.
  - assert (shrinks p s (touch c s1)) as Hs2.
    { destruct Hs as [H1 H2 H3 H4]. rewrite touch_fresh by done. split; simpl; [|done| |].
      - apply NoDup_app. split_and!; [done|set_solver|apply NoDup_singleton].
      - intros x Hx. apply elem_of_app in Hx as [?|Hx]; [auto|]. apply list_elem_of_singleton in Hx. by subst.
      - intros x Hx Hxs. apply elem_of_app. left. auto. }
    specialize (IH (touch c s1) ltac:(by destruct Hs2)). destruct (unload_loop n try p _) as [s' r].
    destruct IH as [Hs' Hr]. split; [by eapply shrinks_trans|].
    assert (length (_residents (touch c s1)) = length (_residents s)) as Hl.
    { rewrite touch_fresh by done. simpl. rewrite length_app; simpl. lia. }
    rewrite Hl in Hr. destruct r; [|done]. destruct Hs2 as [_ _ Hsub _]. naive_solver.
  - split; [done|]. split_and!; try done. lia.
Qed.

Lemma unload_loop_first n try p s a c b :
  NoDup (_residents s) -> others p (_residents s) = a ++ c :: b ->
  Forall (fun x => try x <> Evicted) a -> try c = Evicted -> (length a < n)%nat ->
  snd (unload_loop n try p s) = Some c /\
  others p (_residents (fst (unload_loop n try p s))) = b ++ filter (fun x => try x = Kept) a.
Proof.
  revert s a b. induction n as [|n IH]; intros s a b Hn Ho Ha Hc Hlen; [lia|]. simpl.
  pose proof (pop_candidate_spec p s Hn) as Hpop.
  destruct (_pop_lru_candidate p s) as [s1 [c'|]].
  2:{ destruct Hpop as [_ Hpop]. rewrite Hpop in Ho. by destruct a. }
  destruct Hpop as (Hs & Ho' & Hc' & _ & _ & Hcp). rewrite Ho' in Ho. destruct a as [|x a]; simpl in Ho.
  - injection Ho as -> Ho. rewrite Hc; simpl. by rewrite Ho, app_nil_r.
  - injection Ho as <- Ho. apply Forall_cons in Ha as [Hx Ha]. simpl in Hlen.
    destruct (try c') eqn:Et; [| |done].
    + rewrite filter_cons_False by congruence. apply IH; try done; [by destruct Hs|lia].
    + assert (others p (_residents (touch c' s1)) = a ++ c :: (b ++ [c'])) as Ho2.
      { rewrite touch_fresh by done. simpl. rewrite others_app, Ho. rewrite <- app_assoc. simpl.
        do 3 f_equal. unfold others. by rewrite filter_cons_True by done. }
      assert (NoDup (_residents (touch c' s1))) as Hn2 by (apply NoDup_touch; by destruct Hs).
      destruct (IH _ _ _ Hn2 Ho2 Ha Hc ltac:(lia)) as [E1 E2]. split; [done|].
      rewrite E2. rewrite filter_cons_True by done. rewrite <- app_assoc. done.
Qed.

Lemma unload_loop_none n try p s :
  NoDup (_residents s) -> Forall (fun x => try x <> Evicted) (others p (_residents s)) ->
  snd (unload_loop n try p s) = None.
Proof.
  intros Hn Ha. pose proof (unload_loop_shrinks n try p s Hn) as H.
  destruct (unload_loop n try p s) as [s' [c|]]; [|done]. destruct H as (_ & Hc & Hin & _ & Hp & _).
  rewrite Forall_forall in Ha. exfalso. apply (Ha c); [|done]. by apply list_elem_of_filter.
Qed.

(** Eviction is least-recently-used first. One scan, nothing else running, evicts
    the first resident, oldest first, that is not protected and lets itself be
    unloaded; the ones it had to pass over become the most recently used, in their
    order, those already gone are forgotten; the protected agent is never touched;
    and the scan gives up only when nobody can be unloaded. *)
Theorem eviction_lru try p s :
  NoDup (_residents s) ->
  let (s', r) := _try_unload_one_resident try p s in
  (forall a c b, others p (_residents s) = a ++ c :: b ->
     Forall (fun x => try x <> Evicted) a -> try c = Evicted ->
     r = Some c /\ others p (_residents s') = b ++ filter (fun x => try x = Kept) a) /\
  (r = None <-> Forall (fun x => try x <> Evicted) (others p (_residents s))) /\
  shrinks p s s'.
Proof.
  intros Hn. unfold _try_unload_one_resident.
  pose proof (unload_loop_shrinks (length (_residents s)) try p s Hn) as Hsh.
  pose proof (unload_loop_none (length (_residents s)) try p s Hn) as Hnone.
  assert (forall a c b, others p (_residents s) = a ++ c :: b ->
     Forall (fun x => try x <> Evicted) a -> try c = Evicted ->
     snd (unload_loop (length (_residents s)) try p s) = Some c /\
     others p (_residents (fst (unload_loop (length (_residents s)) try p s))) =
       b ++ filter (fun x => try x = Kept) a) as Hfirst.
  { intros a c b Ho Ha Hc. apply unload_loop_first; try done.
    assert (length (others p (_residents s)) <= length (_residents s))%nat as Hle by apply length_filter.
    rewrite Ho, length_app in Hle. simpl in Hle. lia. }
  destruct (unload_loop _ try p s) as [s' r]; simpl in *. split_and!; [done| |by destruct Hsh].
  split; [|done]. intros ->. destruct (decide (Forall (fun x => try x <> Evicted) (others p (_residents s))))
    as [|Hno]; [done|]. exfalso.
  assert (exists a c b, others p (_residents s) = a ++ c :: b /\
     Forall (fun x => try x <> Evicted) a /\ try c = Evicted) as (a & c & b & Ho & Ha & Hc).
  { clear -Hno. induction (others p (_residents s)) as [|x l IH]; [by destruct Hno|].
    destruct (decide (try x = Evicted)) as [Hx|Hx]; [by exists [], x, l|].
    destruct IH as (a & c & b & -> & ? & ?); [intros ?; by apply Hno; constructor|].
    exists (x :: a), c, b. split_and!; [done|by constructor|done]. }
  by destruct (Hfirst a c b Ho Ha Hc).
Qed.

(** Reserving a slot ends and keeps the cap. Nothing else running, [reserve_slot]
    always finishes; a slot it grants leaves residents and pending slots together
    within the capacity, the agents evicted for it were unprotected residents that
    could be unloaded and no longer are resident; it refuses only when the memory is
    full and no unprotected resident left can be unloaded. *)
Theorem reserve_slot_spec try cap p s :
  NoDup (_residents s) -> 0 <= _pending_slots s ->
  let (s', o) := reserve_slot try cap p s in
  o <> Raise OutOfFuel /\ NoDup (_residents s') /\
  (forall x, Some x = p -> x ∈ _residents s -> x ∈ _residents s') /\
  (forall l, o = Ok l ->
     _pending_slots s' = _pending_slots s + 1 /\
     (forall c, cap = Some c -> Z.of_nat (length (_residents s')) + _pending_slots s' <= c) /\
     Forall (fun x => try x = Evicted /\ x ∈ _residents s /\ x ∉ _residents s' /\ Some x <> p) l) /\
  (forall e, o = Raise e -> _pending_slots s' = _pending_slots s /\
     Forall (fun x => try x <> Evicted) (others p (_residents s'))).
Proof.
  unfold reserve_slot. intros Hn Hpend.
  assert (forall n s, (length (_residents s) < n)%nat -> NoDup (_residents s) ->
    let (s', o) := reserve_loop n try cap p s in
    o <> Raise OutOfFuel /\ shrinks p (mk (_residents s) (_pending_slots s')) s' /\
    (forall l, o = Ok l ->
       _pending_slots s' = _pending_slots s + 1 /\
       (forall c, cap = Some c -> Z.of_nat (length (_residents s')) + _pending_slots s' <= c) /\
       Forall (fun x => try x = Evicted /\ x ∈ _residents s /\ x ∉ _residents s' /\ Some x <> p) l) /\
    (forall e, o = Raise e -> _pending_slots s' = _pending_slots s /\
       Forall (fun x => try x <> Evicted) (others p (_residents s')))) as Hloop.
  { induction n as [|n IH]; intros s0 Hlen Hn0; [lia|]. simpl.
    unfold _try_reserve_pending_slot. destruct (match cap with Some c => _ | None => false end) eqn:Ef.
    - pose proof (eviction_lru try p s0 Hn0) as Hev. unfold _try_unload_one_resident in *.
      pose proof (unload_loop_shrinks (length (_residents s0)) try p s0 Hn0) as Hsh.
      destruct (unload_loop _ try p s0) as [s1 [c|]].
      + destruct Hsh as ([S1 S2 S3 S4] & Hc & Hin & Hout & Hcp & Hlt).
        specialize (IH s1 ltac:(lia) S1). destruct (reserve_loop n try cap p s1) as [s' o].
        destruct IH as (F & [T1 T2 T3 T4] & Hok & Hr). simpl in *. split_and!.
        * destruct o; congruence.
        * split; simpl; auto.
        * intros l. destruct o as [l'|]; [|done]. intros [= <-].
          destruct (Hok l' eq_refl) as (P1 & P2 & P3). split_and!; [by rewrite P1, S2|done|].
          constructor; [split_and!; auto|]. eapply Forall_impl; [done|].
          intros x (? & ? & ? & ?). split_and!; auto.
        * intros e. destruct o as [|e']; [done|]. intros [= <-].
          destruct (Hr e' eq_refl) as [P1 P2]. by rewrite P1, S2.
      + destruct Hev as (_ & [Hnone _] & [S1 S2 S3 S4]). specialize (Hnone eq_refl). simpl.
        split_and!; [done|by split|done|]. intros e [= <-]. split; [done|].
        rewrite Forall_forall in Hnone |- *. intros x Hx. apply Hnone.
        apply list_elem_of_filter in Hx as [? ?]. apply list_elem_of_filter. auto.
    - simpl. split_and!; [done|by split|intros l [= <-]|done]. split_and!; [done| |done].
      intros c ->. simpl in Ef. zbool. lia. }
  specialize (Hloop (S (length (_residents s))) s ltac:(lia) Hn).
  destruct (reserve_loop _ try cap p s) as [s' o]. destruct Hloop as (F & [T1 T2 T3 T4] & Hok & Hr).
  split_and!; done.
Qed.

(** Two agents resident, room for two; the older one is protected. *)
Definition full : t := mk ["p"; "q"; "r"]%string 0.
Definition lenient (x : string) : attempt := if decide (x = "q"%string) then Kept else Evicted.

Example eviction_lru_witness :
  others (Some "p"%string) (_residents (fst (_try_unload_one_resident lenient (Some "p"%string) full)))
    = ["q"%string].
Proof.
  destruct (_try_unload_one_resident lenient (Some "p"%string) full) as [s' r] eqn:E.
  pose proof (eviction_lru lenient (Some "p"%string) full) as H. rewrite E in H.
  refine (proj2 (proj1 (H _) ["q"%string] "r"%string [] eq_refl _ eq_refl)).
  - repeat constructor; set_solver.
  - repeat constructor. vm_compute. discriminate.
Defined.

Example reserve_slot_spec_witness :
  snd (reserve_slot lenient (Some 3) (Some "p"%string) full) = Ok ["r"%string] /\
  NoDup (_residents (fst (reserve_slot lenient (Some 3) (Some "p"%string) full))).
Proof.
  split; [reflexivity|].
  pose proof (reserve_slot_spec lenient (Some 3) (Some "p"%string) full) as H.
  destruct (reserve_slot lenient (Some 3) (Some "p"%string) full) as [s' o].
  refine (proj1 (proj2 (H _ _))).
  - repeat constructor; set_solver.
  - vm_compute. discriminate.
Defined.

(** With two reservations interleaved, an eviction that fails after its agent was
    taken out of the deque puts it back beside the slot granted meanwhile: one
    agent and one pending slot under a capacity of one. *)
Example failed_eviction_exceeds_capacity :
  let s0 := mk ["a"%string] 0 in
  let (s1, c) := _pop_lru_candidate None s0 in
  let (s2, granted) := _try_reserve_pending_slot (Some 1) s1 in
  let s3 := match c with Some c => touch c s2 | None => s2 end in
  granted = true /\ Z.of_nat (length (_residents s3)) + _pending_slots s3 = 2.
Proof. split; reflexivity. Qed.

End Residency.

Module AgentExecutionLimiter.

Record t : Type := mk { _active : Z; _max_agents : option Z }.

Definition init : t := mk 0 None.

Definition initialize (n : Z) (l : t) : t :=
  match _max_agents l with None => mk (_active l) (Some n) | Some _ => l end.

Definition has_capacity (l : t) : bool :=
  match _max_agents l with None => true | Some n => _active l <? n end.

Definition ensure_capacity (l : t) : outcome (option Z) unit :=
  if has_capacity l then Ok tt else Raise (_max_agents l).

(** [guard] hands out a guard that is not released. *)
Definition guard (l : t) : t * bool := (mk (_active l + 1) (_max_agents l), false).

Definition _release (l : t) : t := mk (Z.max 0 (_active l - 1)) (_max_agents l).

(** [AgentExecutionGuard.release]: its flag and the limiter. *)
Definition guard_release (released : bool) (l : t) : bool * t :=
  if released then (released, l) else (true, _release l).

Record world : Type := mkWorld { limiter : t; guards : list bool }.

(** A turn starts when [ensure_capacity] passes; guards are released, some twice. *)
Inductive op : Type := Initialize (n : Z) | StartTurn | EndTurn (i : nat).

Definition run_op (o : op) (w : world) : world :=
  match o with
  | Initialize n => mkWorld (initialize n (limiter w)) (guards w)
  | StartTurn =>
      match ensure_capacity (limiter w) with
      | Ok _ => let (l, g) := guard (limiter w) in mkWorld l (guards w ++ [g])
      | Raise _ => w
      end
  | EndTurn i =>
      match guards w !! i with
      | None => w
      | Some g => let (g, l) := guard_release g (limiter w) in mkWorld l (<[i := g]> (guards w))
      end
  end.

Definition run (l : list op) : world := foldl (fun w o => run_op o w) (mkWorld init []) l.

Lemma limiter_step o w :
  _active (limiter w) = count_if negb (guards w) ->
  _active (limiter (run_op o w)) = count_if negb (guards (run_op o w)).
Proof.
  intros H. destruct o as [n| |i]; simpl.
  - unfold initialize. by case_match.
  - destruct (ensure_capacity (limiter w)); [|done]. simpl. rewrite count_if_app, H. simpl. lia.
  - destruct (guards w !! i) as [g|] eqn:Ei; [|done]. unfold guard_release. destruct g; simpl.
    + by rewrite list_insert_id.
    + rewrite (count_if_insert _ _ _ _ _ Ei), H; simpl.
      pose proof (count_if_pos negb _ _ _ Ei eq_refl). lia.
Qed.

(** Running turns are counted exactly and capped. Over any sequence of turns, the
    active count is the number of guards not released, however often a guard is
    released; once initialised to [n] at the start, it never exceeds [n], and the
    ceiling never changes. *)
Theorem limiter_exact l n :
  _active (limiter (run l)) = count_if negb (guards (run l)) /\
  (0 <= n ->
   _active (limiter (run (Initialize n :: l))) <= n /\
   _max_agents (limiter (run (Initialize n :: l))) = Some n).
Proof.
  assert (forall l w, _active (limiter w) = count_if negb (guards w) ->
    _active (limiter (foldl (fun w o => run_op o w) w l)) =
      count_if negb (guards (foldl (fun w o => run_op o w) w l))) as Hex.
  { clear. induction l as [|o l IH]; intros w Hw; [done|]. by apply IH, limiter_step. }
  split; [by apply Hex|]. intros Hn. unfold run; simpl.
  assert (forall l w, _active (limiter w) = count_if negb (guards w) ->
    _max_agents (limiter w) = Some n -> _active (limiter w) <= n ->
    _active (limiter (foldl (fun w o => run_op o w) w l)) <= n /\
    _max_agents (limiter (foldl (fun w o => run_op o w) w l)) = Some n) as Hcap; [|by apply Hcap].
  clear. induction l as [|o l IH]; intros w Hw Hm Hle; [done|]. simpl.
  apply IH; [by apply limiter_step| |]; destruct o as [m| |i]; simpl.
  - unfold initialize. by rewrite Hm.
  - destruct (ensure_capacity (limiter w)); done.
  - destruct (guards w !! i) as [[]|]; done.
  - unfold initialize. by rewrite Hm.
  - unfold ensure_capacity, has_capacity. rewrite Hm. destruct (_ <? n) eqn:E; [|done].
    simpl. zbool. lia.
  - destruct (guards w !! i) as [[]|] eqn:Ei; simpl; try done.
    pose proof (count_if_pos negb _ _ _ Ei eq_refl). lia.
Qed.
End AgentExecutionLimiter.
