(* ===== verification/Leases.v ===== *)
(** Leases with fencing tokens ([runtime/control/leases.py]): the coordinator as an
    interface, its in-memory and file-backed implementations, and the handles that
    guard a critical section with a lease. *)

From S2P Require Import Prelude.

Local Open Scope Z_scope.

Record RuntimeLease : Type := mkLease {
  subject : string;
  owner_id : string;
  fencing_token : Z;
  expires_at : Z
}.

Inductive lease_error : Type :=
| ValueError
| LeaseUnavailableError
| LeaseFencedError
| LeaseCoordinatorUnavailableError
| AttributeError
| RuntimeError.

Notation leases := (gmap string RuntimeLease).

(** ** The functions both coordinators share *)

Definition _validate_request (subj owner : string) (ttl : Z) : outcome lease_error unit :=
  if bool_decide (subj = ""%string) || bool_decide (owner = ""%string) then Raise ValueError
  else if ttl <=? 0 then Raise ValueError
  else Ok tt.

Definition _acquire (m : leases) (subj owner : string) (ttl now : Z) : outcome lease_error RuntimeLease :=
  let fresh token := Ok (mkLease subj owner token (now + ttl)) in
  match m !! subj with
  | None => fresh 1
  | Some current =>
      if bool_decide (owner_id current = owner) && (now <? expires_at current) then
        fresh (fencing_token current)
      else if negb (bool_decide (owner_id current = ""%string)) && (now <? expires_at current) then
        Raise LeaseUnavailableError
      else fresh (fencing_token current + 1)
  end.

Definition _assert_current (m : leases) (subj : string) (token now : Z) (owner : option string)
    : outcome lease_error unit :=
  match m !! subj with
  | None => Raise LeaseFencedError
  | Some current =>
      if bool_decide (owner_id current = ""%string) || negb (fencing_token current =? token) ||
         (expires_at current <=? now) ||
         match owner with Some o => negb (bool_decide (owner_id current = o)) | None => false end
      then Raise LeaseFencedError
      else Ok tt
  end.

(** The calls of a coordinator that take its lock and give it back before they
    return. [get] is the view below; [guard], which holds the lock over the caller's
    body, is with the locks below. *)
Inductive op : Type :=
| Acquire (subj owner : string) (ttl : Z)
| Renew (lease : RuntimeLease) (ttl : Z)
| Release (lease : RuntimeLease)
| AssertCurrent (subj : string) (token : Z).

(** What each call does to the table of leases; [clk 0], [clk 1] are its readings. *)
Definition body (clk : readings) (o : op) (m : leases) : leases * outcome lease_error (option RuntimeLease) :=
  match o with
  | Acquire subj owner ttl =>
      match _acquire m subj owner ttl (clk 0%nat) with
      | Ok lease => (<[subj := lease]> m, Ok (Some lease))
      | Raise e => (m, Raise e)
      end
  | Renew l ttl =>
      match _assert_current m (subject l) (fencing_token l) (clk 0%nat) (Some (owner_id l)) with
      | Ok _ =>
          let renewed := mkLease (subject l) (owner_id l) (fencing_token l) (clk 1%nat + ttl) in
          (<[subject l := renewed]> m, Ok (Some renewed))
      | Raise e => (m, Raise e)
      end
  | Release l =>
      match _assert_current m (subject l) (fencing_token l) (clk 0%nat) (Some (owner_id l)) with
      | Ok _ => (<[subject l := mkLease (subject l) "" (fencing_token l) (clk 1%nat)]> m, Ok None)
      | Raise e => (m, Raise e)
      end
  | AssertCurrent subj token =>
      match _assert_current m subj token (clk 0%nat) None with
      | Ok _ => (m, Ok None)
      | Raise e => (m, Raise e)
      end
  end.

Definition validate (o : op) : outcome lease_error unit :=
  match o with
  | Acquire subj owner ttl => _validate_request subj owner ttl
  | Renew l ttl => _validate_request (subject l) (owner_id l) ttl
  | _ => Ok tt
  end.

(** Whether a successful call stores the table again. *)
Definition writes (o : op) : bool := match o with AssertCurrent _ _ => false | _ => true end.

(** The specification of a coordinator: validate, then act on the table. *)
Definition spec_step (clk : readings) (o : op) (m : leases) : leases * outcome lease_error (option RuntimeLease) :=
  match validate o with
  | Ok _ => body clk o m
  | Raise e => (m, Raise e)
  end.

(** ** The interface *)

(** How the body of a [with guard(...)] ends. *)
Inductive body_end : Type := Returned | RaisedOSError | RaisedOther.

(** A coordinator: its calls and, when its store is readable, its table; what [guard]
    does under the lock before it yields, and what leaving the guard makes of the
    body's end ([None]: it goes through); and whether its lock lets the thread that
    holds it in again. [F] is what the surroundings do to a call. *)
Class LeaseCoordinator (F S : Type) : Type := {
  co_step : F -> readings -> op -> S -> S * outcome lease_error (option RuntimeLease);
  co_view : S -> option leases;
  co_enter : F -> readings -> string -> Z -> S -> outcome lease_error unit;
  co_exit : F -> body_end -> option lease_error;
  co_reentrant : bool
}.

(** How a call says that its store cannot be used. *)
Definition unusable (e : lease_error) : Prop :=
  e = LeaseCoordinatorUnavailableError \/ e = AttributeError.

(** What clients may rely on: a call acts as the specification says, reporting its
    result or that the coordinator is unavailable, or it raises because the store is
    unusable or the arguments are invalid, and changes nothing; and a guard lets its
    body start only when an assertion on the table passes. *)
Class LeaseLaws (F S : Type) `{LeaseCoordinator F S} : Prop := {
  law_step f clk o s :
    let (s', res) := co_step f clk o s in
    (co_view s' = co_view s /\
       exists e, res = Raise e /\ (unusable e \/ validate o = Raise e)) \/
    (exists m m' r, co_view s = Some m /\ spec_step clk o m = (m', r) /\ co_view s' = Some m' /\
       (res = r \/ res = Raise LeaseCoordinatorUnavailableError));
  law_enter f clk subj token s :
    co_enter f clk subj token s = Ok tt ->
    exists m, co_view s = Some m /\ _assert_current m subj token (clk 0%nat) None = Ok tt
}.

(** ** The implementations *)

Module InMemoryLeaseCoordinator.

Definition step (clk : readings) (o : op) (m : leases) : leases * outcome lease_error (option RuntimeLease) :=
  spec_step clk o m.

Definition get (subj : string) (m : leases) : option RuntimeLease := m !! subj.

(** [guard]: the assertion made under the lock before the body runs. *)
Definition guard_entry (clk : readings) (subj : string) (token : Z) (m : leases) : outcome lease_error unit :=
  _assert_current m subj token (clk 0%nat) None.

(** The lock is an [RLock]; leaving it never fails and passes on what the body did. *)
#[export] Instance coordinator : LeaseCoordinator unit leases := {
  co_step _ := step;
  co_view m := Some m;
  co_enter _ := guard_entry;
  co_exit _ _ := None;
  co_reentrant := true
}.

#[export] Instance laws : LeaseLaws unit leases.
Proof.
  split.
  - intros f clk o m. simpl. destruct (step clk o m) as [m' r] eqn:E. right.
    exists m, m', r. split_and!; auto.
  - intros f clk subj token m Hok. by exists m.
Qed.
End InMemoryLeaseCoordinator.

Module FileLeaseCoordinator.

(** The lease file: absent, a JSON object of lease records, another JSON value (whose
    [items] does not exist), or text that is not JSON or has a malformed record. *)
Inductive t : Type :=
| Absent
| Records (payload : gmap string (string * Z * Z))
| NotAnObject
| Garbage.

(** Which operating-system calls fail: opening or taking the lock, reading the file,
    replacing it atomically, giving the lock back. *)
Record faults : Type := mkFaults {
  lock_fails : bool;
  read_fails : bool;
  write_fails : bool;
  unlock_fails : bool
}.

Definition no_faults : faults := mkFaults false false false false.

Definition of_item (subj : string) (item : string * Z * Z) : RuntimeLease :=
  mkLease subj item.1.1 item.1.2 item.2.
Definition to_item (l : RuntimeLease) : string * Z * Z := (owner_id l, fencing_token l, expires_at l).

Definition _read (f : faults) (s : t) : outcome lease_error leases :=
  if read_fails f then Raise LeaseCoordinatorUnavailableError
  else match s with
  | Absent => Ok ∅
  | NotAnObject => Raise AttributeError
  | Garbage => Raise LeaseCoordinatorUnavailableError
  | Records p => Ok (map_imap (fun k i => Some (of_item k i)) p)
  end.

Definition _write (f : faults) (m : leases) (s : t) : t * outcome lease_error unit :=
  if write_fails f then (s, Raise LeaseCoordinatorUnavailableError)
  else (Records (to_item <$> m), Ok tt).

(** [with self._locked()]: the lock around [k]. *)
Definition locked {A} (f : faults) (s : t) (k : t * outcome lease_error A) : t * outcome lease_error A :=
  if lock_fails f then (s, Raise LeaseCoordinatorUnavailableError)
  else if unlock_fails f then (fst k, Raise LeaseCoordinatorUnavailableError)
  else k.

(** The body of a locked call, on a readable file. *)
Definition locked_body (f : faults) (clk : readings) (o : op) (m : leases) (s : t)
    : t * outcome lease_error (option RuntimeLease) :=
  let (m', res) := body clk o m in
  match res with
  | Raise e => (s, Raise e)
  | Ok r =>
      if writes o then
        let (s', w) := _write f m' s in
        (s', match w with Ok _ => Ok r | Raise e => Raise e end)
      else (s, Ok r)
  end.

Definition step (f : faults) (clk : readings) (o : op) (s : t)
    : t * outcome lease_error (option RuntimeLease) :=
  match validate o with
  | Raise e => (s, Raise e)
  | Ok _ =>
      locked f s
        match _read f s with
        | Raise e => (s, Raise e)
        | Ok m => locked_body f clk o m s
        end
  end.

Definition view (s : t) : option leases :=
  match _read no_faults s with Ok m => Some m | Raise _ => None end.

Definition get (f : faults) (subj : string) (s : t) : outcome lease_error (option RuntimeLease) :=
  snd (locked f s (s, match _read f s with Ok m => Ok (m !! subj) | Raise e => Raise e end)).

(** [guard] up to its [yield]: the lock, the file, the assertion; an error gives the
    lock back on its way out. *)
Definition guard_entry (f : faults) (clk : readings) (subj : string) (token : Z) (s : t)
    : outcome lease_error unit :=
  if lock_fails f then Raise LeaseCoordinatorUnavailableError
  else
    match match _read f s with
          | Ok m => _assert_current m subj token (clk 0%nat) None
          | Raise e => Raise e
          end with
    | Ok _ => Ok tt
    | Raise e => if unlock_fails f then Raise LeaseCoordinatorUnavailableError else Raise e
    end.

(** [guard] after its [yield]: [_locked] reports an [OSError] of the body, and a failing
    unlock, as its own error. Closing the file gives the lock back in any case. *)
Definition guard_exit (f : faults) (b : body_end) : option lease_error :=
  if unlock_fails f then Some LeaseCoordinatorUnavailableError
  else match b with
       | RaisedOSError => Some LeaseCoordinatorUnavailableError
       | _ => None
       end.

(** The lock is a [flock] on a file opened anew by every call, so a thread that holds
    it waits for itself. *)
#[export] Instance coordinator : LeaseCoordinator faults t := {
  co_step := step;
  co_view := view;
  co_enter := guard_entry;
  co_exit := guard_exit;
  co_reentrant := false
}.

(** Every lease is stored under its own subject. *)
Definition keyed (m : leases) : Prop := map_Forall (fun k l => subject l = k) m.

Lemma read_keyed f s m : _read f s = Ok m -> keyed m /\ view s = Some m.
Proof.
  unfold view, _read. destruct (read_fails f); [done|]. destruct s as [|p| |]; simpl; [| |done..].
  - intros [= <-]. split; [apply map_Forall_empty|done].
  - intros [= <-]. split; [|done]. intros k l Hl. rewrite map_lookup_imap in Hl.
    destruct (p !! k); by simplify_eq/=.
Qed.

Lemma body_keyed clk o m : keyed m -> keyed (fst (body clk o m)).
Proof.
  intros Hk. destruct o as [subj owner ttl|l ttl|l|subj token]; simpl.
  - destruct (_acquire m subj owner ttl (clk 0%nat)) as [l|e] eqn:E; simpl; [|done].
    apply map_Forall_insert_2; [|done]. unfold _acquire in E.
    repeat case_match; simplify_eq; done.
  - destruct (_assert_current _ _ _ _ _); simpl; [|done]. by apply map_Forall_insert_2.
  - destruct (_assert_current _ _ _ _ _); simpl; [|done]. by apply map_Forall_insert_2.
  - by destruct (_assert_current _ _ _ _ _).
Qed.

Lemma write_view m : keyed m -> view (Records (to_item <$> m)) = Some m.
Proof.
  intros Hk. unfold view; simpl. f_equal. apply map_eq. intros k.
  rewrite map_lookup_imap, lookup_fmap. destruct (m !! k) as [l|] eqn:E; simpl; [|done].
  specialize (Hk k l E). f_equal. destruct l; simpl in *. by subst.
Qed.

Lemma body_read_only clk o m : writes o = false -> fst (body clk o m) = m.
Proof. destruct o; [done..|]. intros _. simpl. by destruct (_assert_current _ _ _ _ _). Qed.

Lemma body_raise clk o m m' e : body clk o m = (m', Raise e) -> m' = m.
Proof. destruct o; simpl; repeat case_match; intros; by simplify_eq. Qed.

Lemma locked_body_spec f clk o s m :
  _read f s = Ok m ->
  (view (fst (locked_body f clk o m s)) = view s /\
     snd (locked_body f clk o m s) = Raise LeaseCoordinatorUnavailableError /\ write_fails f = true) \/
  (view (fst (locked_body f clk o m s)) = Some (fst (body clk o m)) /\
     snd (locked_body f clk o m s) = snd (body clk o m)).
Proof.
  intros Hr. apply read_keyed in Hr as [Hm Hv]. unfold locked_body.
  pose proof (body_keyed clk o m Hm) as Hm'. pose proof (body_read_only clk o m) as Hro.
  destruct (body clk o m) as [m' [r|e]] eqn:E; simpl in *.
  - destruct (writes o); simpl.
    + unfold _write. destruct (write_fails f); simpl; [by left|right]. by rewrite write_view.
    + right. by rewrite Hro.
  - right. apply body_raise in E as ->. by rewrite Hv.
Qed.

Lemma read_raise f s e : _read f s = Raise e -> unusable e.
Proof. unfold _read, unusable. repeat case_match; intros; simplify_eq; auto. Qed.

Definition step_law (f : faults) (clk : readings) (o : op) (s : t) : Prop :=
  let (s', res) := step f clk o s in
  (view s' = view s /\
     exists e, res = Raise e /\ (unusable e \/ validate o = Raise e)) \/
  (exists m m' r, view s = Some m /\ spec_step clk o m = (m', r) /\ view s' = Some m' /\
     (res = r \/ res = Raise LeaseCoordinatorUnavailableError)).

Lemma step_law_holds f clk o s : step_law f clk o s.
Proof.
  unfold step_law, step, spec_step.
  destruct (validate o) as [[]|e] eqn:Ev; [|left; split; [done|exists e; by auto]].
  assert (unusable LeaseCoordinatorUnavailableError) as Hun by (by left).
  unfold locked. destruct (lock_fails f); [left; by eauto|].
  destruct (_read f s) as [m|e] eqn:Er.
  - pose proof (locked_body_spec f clk o s m Er) as Hk. apply read_keyed in Er as [_ Hv].
    fold (locked_body f clk o m s). destruct (locked_body f clk o m s) as [s' res]; simpl in *.
    destruct (body clk o m) as [m' r] eqn:Eb; simpl in *.
    destruct (unlock_fails f); simpl; (destruct Hk as [(H1 & H2 & _)|[H1 H2]]; [left; by eauto|right]);
      exists m, m', r; auto.
  - apply read_raise in Er. destruct (unlock_fails f); left; eauto.
Qed.

(** C15: The file-backed coordinator implements the specification. Whatever the lease
    file holds and whichever operating-system calls fail, a call either acts on the
    stored table exactly as the specification does, or changes nothing and raises; a failing unlock may hide the result of a call
    that took effect. Without faults and with a readable file the result is the
    specification's. *)
Theorem file_coordinator_refines f clk o s :
  step_law f clk o s /\
  (forall m, view s = Some m ->
     let (s', res) := step no_faults clk o s in
     view s' = Some (fst (spec_step clk o m)) /\ res = snd (spec_step clk o m)).
Proof.
  split; [apply step_law_holds|]. intros m Hv. unfold step, spec_step.
  destruct (validate o) as [[]|e] eqn:Ev; [|done].
  unfold locked. simpl. unfold view in Hv. destruct (_read no_faults s) as [m0|e] eqn:Er; simplify_eq.
  destruct (locked_body_spec no_faults clk o s m Er) as [(_ & _ & ?)|[H1 H2]]; [done|].
  fold (locked_body no_faults clk o m s). by destruct (locked_body no_faults clk o m s).
Qed.

#[export] Instance laws : LeaseLaws faults t.
Proof.
  split; [intros f clk o s; apply step_law_holds|]. intros f clk subj token s. simpl. unfold guard_entry.
  destruct (lock_fails f); [done|]. destruct (_read f s) as [m|e] eqn:Er; [|by destruct (unlock_fails f)].
  apply read_keyed in Er as [_ Hv]. intros Hok. exists m. split; [done|].
  by destruct (_assert_current _ _ _ _ _) as [[]|e]; [|destruct (unlock_fails f)].
Qed.
End FileLeaseCoordinator.

(** ** Fencing, for any lawful coordinator *)

(** A later state of a subject's lease: tokens never decrease, and a token keeps its
    owner until it is released for good. *)
Definition lease_later (l l' : RuntimeLease) : Prop :=
  fencing_token l < fencing_token l' \/
  (fencing_token l = fencing_token l' /\
   (owner_id l' = owner_id l \/ owner_id l' = ""%string)).

Definition table_later (m m' : leases) : Prop :=
  forall k l, m !! k = Some l -> exists l', m' !! k = Some l' /\ lease_later l l'.

#[export] Instance lease_later_preorder : PreOrder lease_later.
Proof.
  split; unfold lease_later.
  - intros l. right. auto.
  - intros l1 l2 l3 [H1|[E1 O1]] [H2|[E2 O2]]; [left; lia..|]. right. split; [lia|].
    destruct O1 as [O1|O1], O2 as [O2|O2]; rewrite ?O2; auto.
Qed.

#[export] Instance table_later_preorder : PreOrder table_later.
Proof.
  split.
  - intros m k l H. exists l. split; [done|reflexivity].
  - intros m1 m2 m3 H1 H2 k l H. destruct (H1 k l H) as (l' & H' & ?).
    destruct (H2 k l' H') as (l2 & ? & ?). exists l2. split; [done|]. by transitivity l'.
Qed.

Lemma table_later_insert m k l :
  (forall l0, m !! k = Some l0 -> lease_later l0 l) -> table_later m (<[k := l]> m).
Proof.
  intros H k' l0 Hl. destruct (decide (k = k')) as [<- | ].
  - exists l. rewrite lookup_insert_eq. auto.
  - exists l0. rewrite lookup_insert_ne by done. split; [done|reflexivity].
Qed.

Lemma assert_current_inv m subj token now owner :
  _assert_current m subj token now owner = Ok tt ->
  exists l, m !! subj = Some l /\ owner_id l <> ""%string /\ fencing_token l = token /\
            now < expires_at l /\ (forall o, owner = Some o -> owner_id l = o).
Proof.
  unfold _assert_current. destruct (m !! subj) as [l|]; [|done].
  destruct (_ || _) eqn:E; [done|]. intros _. zbool.
  apply bool_decide_eq_false in H. apply negb_false_iff in H2. zbool.
  exists l. split_and!; try done. intros o ->. apply negb_false_iff, bool_decide_eq_true in H0. done.
Qed.

Lemma acquire_later m subj owner ttl now l :
  _acquire m subj owner ttl now = Ok l ->
  owner_id l = owner /\ subject l = subj /\ forall l0, m !! subj = Some l0 ->
    lease_later l0 l /\ (owner_id l0 <> owner -> fencing_token l0 < fencing_token l).
Proof.
  unfold _acquire. destruct (m !! subj) as [c|]; [|intros [= <-]; done].
  destruct (bool_decide _ && _) eqn:E; [|destruct (negb _ && _); [done|]]; intros [= <-];
    (split_and!; [done|done|]); intros l0 [= <-]; unfold lease_later; simpl.
  - zbool. apply bool_decide_eq_true in H. split; [right; auto|]. by intros [].
  - split; [left; lia|lia].
Qed.

Lemma spec_step_later clk o m : table_later m (fst (spec_step clk o m)).
Proof.
  unfold spec_step. destruct (validate o); [|reflexivity].
  destruct o as [subj owner ttl|l ttl|l|subj token]; simpl.
  - destruct (_acquire m subj owner ttl (clk 0%nat)) as [l|e] eqn:E; [|reflexivity].
    apply table_later_insert. intros l0 H0. by eapply acquire_later.
  - destruct (_assert_current _ _ _ _ _) as [[]|e] eqn:E; [|reflexivity].
    apply assert_current_inv in E as (l0 & H0 & _ & Ht & _ & Ho). apply table_later_insert.
    intros l1 H1. simplify_eq. right. simpl. rewrite (Ho _ eq_refl). auto.
  - destruct (_assert_current _ _ _ _ _) as [[]|e] eqn:E; [|reflexivity].
    apply assert_current_inv in E as (l0 & H0 & _ & Ht & _ & Ho). apply table_later_insert.
    intros l1 H1. simplify_eq. right. simpl. auto.
  - by destruct (_assert_current _ _ _ _ _).
Qed.

Section clients.
Context {F S : Type} `{CO : LeaseCoordinator F S} {CL : LeaseLaws F S}.
#[local] Set Default Proof Using "All".

(** Any calls on a coordinator, by any clients. *)
Inductive steps : S -> S -> Prop :=
| steps_refl s : steps s s
| steps_step f clk o s s' : steps (fst (co_step f clk o s)) s' -> steps s s'.

Lemma co_step_later f clk o s m :
  co_view s = Some m ->
  exists m', co_view (fst (co_step f clk o s)) = Some m' /\ table_later m m'.
Proof.
  intros Hv. pose proof (law_step f clk o s) as L. destruct (co_step f clk o s) as [s' res]; simpl.
  destruct L as [[E _]|(m0 & m' & r & Hv0 & Hs & Hv' & _)].
  - exists m. split; [congruence|reflexivity].
  - simplify_eq. exists m'. split; [done|]. pose proof (spec_step_later clk o m) as Hl. by rewrite Hs in Hl.
Qed.

Lemma steps_later s s' m :
  steps s s' -> co_view s = Some m -> exists m', co_view s' = Some m' /\ table_later m m'.
Proof.
  intros Hs. revert m. induction Hs as [s|f clk o s s' _ IH]; intros m Hv.
  - exists m. split; [done|reflexivity].
  - destruct (co_step_later f clk o s m Hv) as (m1 & H1 & L1).
    destruct (IH m1 H1) as (m2 & H2 & L2). exists m2. split; [done|]. by transitivity m1.
Qed.

(** A successful assertion shows the lease in the table. *)
Lemma co_assert_ok f clk subj token s r :
  snd (co_step f clk (AssertCurrent subj token) s) = Ok r ->
  exists m l, co_view s = Some m /\ m !! subj = Some l /\ owner_id l <> ""%string /\
              fencing_token l = token /\ clk 0%nat < expires_at l.
Proof.
  intros Hr. pose proof (law_step f clk (AssertCurrent subj token) s) as L.
  destruct (co_step f clk (AssertCurrent subj token) s) as [s' res]; simpl in Hr; subst.
  destruct L as [[_ (e & ? & _)]|(m & m' & r' & Hv & Hs & _ & [<- | ])]; try done.
  unfold spec_step in Hs; simpl in Hs.
  destruct (_assert_current m subj token (clk 0%nat) None) as [[]|e] eqn:E; simplify_eq.
  apply assert_current_inv in E as (l & ? & ? & ? & ? & _). eexists _, l. split_and!; [exact Hv|done..].
Qed.

(** A granted lease is in the table. *)
Lemma co_acquire_ok f clk subj owner ttl s l :
  snd (co_step f clk (Acquire subj owner ttl) s) = Ok (Some l) ->
  exists m m', co_view s = Some m /\ co_view (fst (co_step f clk (Acquire subj owner ttl) s)) = Some m' /\
    m' !! subj = Some l /\ owner_id l = owner /\ owner <> ""%string /\
    forall l0, m !! subj = Some l0 -> owner_id l0 <> owner -> fencing_token l0 < fencing_token l.
Proof.
  intros Hr. pose proof (law_step f clk (Acquire subj owner ttl) s) as L.
  destruct (co_step f clk (Acquire subj owner ttl) s) as [s' res]; simpl in Hr; subst; simpl.
  destruct L as [[_ (e & ? & _)]|(m & m' & r' & Hv & Hs & Hv' & [<- | ])]; try done.
  unfold spec_step in Hs. destruct (validate (Acquire subj owner ttl)) as [[]|] eqn:Ev; [|by simplify_eq].
  simpl in Hs. destruct (_acquire m subj owner ttl (clk 0%nat)) as [l1|e] eqn:E; simplify_eq.
  exists m, (<[subj := l]> m). destruct (acquire_later _ _ _ _ _ _ E) as (Ho & _ & Hl).
  split_and!; [done|done|by rewrite lookup_insert_eq|done| |].
  - simpl in Ev. unfold _validate_request in Ev.
    destruct (bool_decide (owner = ""%string)) eqn:Eo; [by rewrite orb_true_r in Ev|].
    by apply bool_decide_eq_false in Eo.
  - intros l0 H0 Hne. by apply Hl.
Qed.

(** C14: Fencing tokens protect against stale holders, whatever the coordinator. Once a
    subject's lease passes from one owner to another, the new token is larger, and
    from then on, whatever further calls happen, no assertion, renewal or release
    with the old token succeeds again. *)
Theorem lease_fencing f clk s m l0 l owner ttl s2 f2 clk2 :
  co_view s = Some m -> m !! subject l0 = Some l0 -> owner_id l0 <> owner ->
  snd (co_step f clk (Acquire (subject l0) owner ttl) s) = Ok (Some l) ->
  steps (fst (co_step f clk (Acquire (subject l0) owner ttl) s)) s2 ->
  fencing_token l0 < fencing_token l /\
  is_ok (snd (co_step f2 clk2 (AssertCurrent (subject l0) (fencing_token l0)) s2)) = false /\
  (forall ttl', is_ok (snd (co_step f2 clk2 (Renew l0 ttl') s2)) = false) /\
  is_ok (snd (co_step f2 clk2 (Release l0) s2)) = false.
Proof.
  intros Hv Hm Hne Hok Hsteps.
  destruct (co_acquire_ok _ _ _ _ _ _ _ Hok) as (m0 & m' & Hv0 & Hv' & Hl & _ & _ & Hlt). simplify_eq.
  specialize (Hlt l0 Hm Hne). destruct (steps_later _ _ _ Hsteps Hv') as (m2 & Hv2 & Hlater).
  destruct (Hlater _ _ Hl) as (l2 & Hl2 & Hll).
  assert (fencing_token l0 < fencing_token l2) as Hlt2 by (unfold lease_later in Hll; lia).
  assert (forall now o, is_ok (_assert_current m2 (subject l0) (fencing_token l0) now o) = false) as Hno.
  { intros now o. destruct (_assert_current _ _ _ _ _) as [[]|] eqn:E; [|done].
    apply assert_current_inv in E as (l3 & H3 & _ & Ht & _). simplify_eq. lia. }
  assert (forall o, is_ok (snd (spec_step clk2 o m2)) = false ->
            is_ok (snd (co_step f2 clk2 o s2)) = false) as Hstep.
  { intros o Ho. pose proof (law_step f2 clk2 o s2) as L. destruct (co_step f2 clk2 o s2) as [s3 res]; simpl.
    destruct L as [[_ (e & -> & _)]|(m3 & m4 & r & Hv3 & Hs3 & _ & [->| ->])]; try done.
    simplify_eq. by rewrite Hs3 in Ho. }
  split_and!; [done|..]; [|intros ttl'|]; apply Hstep; unfold spec_step; simpl.
  - specialize (Hno (clk2 0%nat) None). by destruct (_assert_current _ _ _ _ _).
  - destruct (_validate_request _ _ _); [|done].
    specialize (Hno (clk2 0%nat) (Some (owner_id l0))). by destruct (_assert_current _ _ _ _ _).
  - specialize (Hno (clk2 0%nat) (Some (owner_id l0))). by destruct (_assert_current _ _ _ _ _).
Qed.

(** Whether an assertion of the lease passes. *)
Definition asserts (f : F) (clk : readings) (l : RuntimeLease) (s : S) : bool :=
  is_ok (snd (co_step f clk (AssertCurrent (subject l) (fencing_token l)) s)).

(** A live lease excludes other owners. While a lease would pass an assertion, an
    acquisition by anyone else is refused and leaves the table as it is. *)
Theorem lease_exclusion f clk s m l f2 clk2 owner ttl :
  co_view s = Some m -> m !! subject l = Some l -> owner_id l <> owner ->
  asserts f clk l s = true ->
  clk2 0%nat <= clk 0%nat ->
  is_ok (snd (co_step f2 clk2 (Acquire (subject l) owner ttl) s)) = false /\
  co_view (fst (co_step f2 clk2 (Acquire (subject l) owner ttl) s)) = Some m.
Proof.
  intros Hv Hm Hne Hok Hclk. unfold asserts in Hok.
  destruct (snd (co_step f clk (AssertCurrent (subject l) (fencing_token l)) s)) as [r|] eqn:Er; [|done].
  destruct (co_assert_ok _ _ _ _ _ _ Er) as (m0 & l1 & Hv0 & Hl1 & Hown & _ & Hexp). simplify_eq.
  pose proof (law_step f2 clk2 (Acquire (subject l) owner ttl) s) as L.
  destruct (co_step f2 clk2 (Acquire (subject l) owner ttl) s) as [s' res]; simpl.
  destruct L as [[E (e & -> & _)]|(m1 & m' & r' & Hv1 & Hs & Hv' & Hres)]; [split; [done|congruence]|].
  simplify_eq. unfold spec_step in Hs.
  destruct (validate (Acquire (subject l) owner ttl)); simplify_eq; [|split; [by destruct Hres as [->| ->]|done]].
  simpl in Hs. unfold _acquire in Hs. rewrite Hm in Hs.
  rewrite bool_decide_eq_false_2 in Hs by done. simpl in Hs.
  rewrite bool_decide_eq_false_2 in Hs by done. simpl in Hs.
  rewrite (proj2 (Z.ltb_lt _ _)) in Hs by lia. simplify_eq.
  split; [by destruct Hres as [->| ->]|done].
Qed.
End clients.

(** ** Handles *)

Module LeaseHandle.

(** The handle's own attributes; its coordinator is the shared store. *)
Record t : Type := mk {
  h_subject : string;
  h_owner_id : string;
  ttl_seconds : Z;
  lease : option RuntimeLease;
  _heartbeat : bool;
  _renew_error : bool
}.

Definition make (subj owner : string) (ttl : Z) : t := mk subj owner ttl None false false.

Section handle.
Context {F S : Type} `{CO : LeaseCoordinator F S} {CL : LeaseLaws F S}.
#[local] Set Default Proof Using "All".

Definition start (f : F) (clk : readings) (h : t) (s : S) : t * S * outcome lease_error unit :=
  match lease h with
  | Some _ => (h, s, Ok tt)
  | None =>
      let (s, r) := co_step f clk (Acquire (h_subject h) (h_owner_id h) (ttl_seconds h)) s in
      match r with
      | Ok l => (mk (h_subject h) (h_owner_id h) (ttl_seconds h) l true (_renew_error h), s, Ok tt)
      | Raise e => (h, s, Raise e)
      end
  end.

(** [close]: stop the heartbeat, then give the lease back if it is still held. *)
Definition close (f : F) (clk : readings) (h : t) (s : S) : t * S * outcome lease_error unit :=
  let h' := mk (h_subject h) (h_owner_id h) (ttl_seconds h) None false (_renew_error h) in
  match lease h with
  | None => (h', s, Ok tt)
  | Some l =>
      let (s, r) := co_step f clk (Release l) s in
      match r with
      | Ok _ | Raise LeaseFencedError | Raise LeaseCoordinatorUnavailableError => (h', s, Ok tt)
      | Raise e => (h', s, Raise e)
      end
  end.

(** One round of [_renew_loop]. *)
Definition heartbeat (f : F) (clk : readings) (h : t) (s : S) : t * S :=
  match _heartbeat h, lease h with
  | true, Some l =>
      let (s, r) := co_step f clk (Renew l (ttl_seconds h)) s in
      match r with
      | Ok l' => (mk (h_subject h) (h_owner_id h) (ttl_seconds h) l' true (_renew_error h), s)
      | Raise _ => (mk (h_subject h) (h_owner_id h) (ttl_seconds h) (lease h) false true, s)
      end
  | _, _ => (h, s)
  end.

(** The coordinator's lock: the thread (of any process) that holds it, and how often.
    [take] is [None] when the thread has to wait. *)
Definition lock : Type := option (nat * nat).

Definition take (re_entrant : bool) (th : nat) (lk : lock) : option lock :=
  match lk with
  | None => Some (Some (th, 1%nat))
  | Some (holder, n) =>
      if re_entrant && (holder =? th)%nat then Some (Some (holder, (n + 1)%nat)) else None
  end.

Definition give (lk : lock) : lock :=
  match lk with
  | Some (holder, n) => if (n <=? 1)%nat then None else Some (holder, (n - 1)%nat)
  | None => None
  end.

Definition assert_current (f : F) (clk : readings) (h : t) (s : S) : outcome lease_error unit :=
  if _renew_error h then Raise LeaseCoordinatorUnavailableError
  else match lease h with
       | None => Raise RuntimeError
       | Some l =>
           match snd (co_step f clk (AssertCurrent (h_subject h) (fencing_token l)) s) with
           | Ok _ => Ok tt
           | Raise e => Raise e
           end
       end.

(** What becomes of a thread that enters [with guard()]: it waits for the lock, it is
    refused with an error (and holds nothing), or its body starts with the lock held. *)
Inductive entry : Type :=
| Waits
| Refused (e : lease_error)
| Entered (held : lock).

(** The coordinator's [guard]: take the lock, assert under it, then run the body with
    the lock still held; an assertion that fails gives the lock back. *)
Definition coordinator_guard (f : F) (clk : readings) (th : nat) (subj : string) (token : Z)
    (lk : lock) (s : S) : entry :=
  match take co_reentrant th lk with
  | None => Waits
  | Some held =>
      match co_enter f clk subj token s with
      | Ok _ => Entered held
      | Raise e => Refused e
      end
  end.

Definition guard (f : F) (clk : readings) (th : nat) (h : t) (lk : lock) (s : S) : entry :=
  if _renew_error h then Refused LeaseCoordinatorUnavailableError
  else match lease h with
       | None => Refused RuntimeError
       | Some l => coordinator_guard f clk th (h_subject h) (fencing_token l) lk s
       end.

(** Handles of any clients on one coordinator, its lock, and the guarded bodies that
    are running, innermost first: the thread and the handle of each. *)
Record world : Type := mkWorld {
  handles : list t;
  store : S;
  coordinator_lock : lock;
  bodies : list (nat * nat)
}.

(** What a thread does; [Call] stands for every other use of the coordinator, [Enter]
    and [Leave] for the two ends of a guarded body. *)
Inductive event : Type :=
| Start (i : nat)
| Close (i : nat)
| Heartbeat (i : nat)
| Call (o : op)
| Enter (i : nat)
| Leave (b : body_end).

Definition with_handle (i : nat) (h : t) (s : S) (w : world) : world :=
  mkWorld (<[i := h]> (handles w)) s (coordinator_lock w) (bodies w).

(** A call under the lock happens when the thread gets the lock; until then it waits. *)
Definition locked (th : nat) (w w' : world) : world :=
  match take co_reentrant th (coordinator_lock w) with Some _ => w' | None => w end.

Fixpoint leave (th : nat) (bs : list (nat * nat)) : list (nat * nat) :=
  match bs with
  | [] => []
  | b :: bs => if (fst b =? th)%nat then bs else b :: leave th bs
  end.

Definition run_event (f : F) (clk : readings) (th : nat) (e : event) (w : world) : world :=
  match e with
  | Start i =>
      match handles w !! i with
      | Some h => let '(h, s, _) := start f clk h (store w) in locked th w (with_handle i h s w)
      | None => w
      end
  | Close i =>
      match handles w !! i with
      | Some h =>
          let '(h', s, _) := close f clk h (store w) in
          if lease h then locked th w (with_handle i h' s w) else with_handle i h' s w
      | None => w
      end
  | Heartbeat i =>
      match handles w !! i with
      | Some h => let (h, s) := heartbeat f clk h (store w) in locked th w (with_handle i h s w)
      | None => w
      end
  | Call o =>
      locked th w (mkWorld (handles w) (fst (co_step f clk o (store w))) (coordinator_lock w) (bodies w))
  | Enter i =>
      match handles w !! i with
      | Some h =>
          match guard f clk th h (coordinator_lock w) (store w) with
          | Entered held => mkWorld (handles w) (store w) held ((th, i) :: bodies w)
          | _ => w
          end
      | None => w
      end
  | Leave b =>
      if bool_decide (th ∈ (bodies w).*1) then
        mkWorld (handles w) (store w) (give (coordinator_lock w)) (leave th (bodies w))
      else w
  end.

Inductive reachable : world -> Prop :=
| reach_init hs s : Forall (fun h => lease h = None) hs -> reachable (mkWorld hs s None [])
| reach_event f clk th e w : reachable w -> reachable (run_event f clk th e w).

(** Any events of threads other than [th]. *)
Inductive others (th : nat) : world -> world -> Prop :=
| others_refl w : others th w w
| others_event f clk th' e w w' :
    th' <> th -> others th (run_event f clk th' e w) w' -> others th w w'.

(** A handle's lease was granted to its owner for its subject, and is the table's
    entry or an earlier state of it. *)
Definition handle_ok (s : S) (h : t) : Prop :=
  forall l, lease h = Some l ->
    subject l = h_subject h /\ owner_id l = h_owner_id h /\ owner_id l <> ""%string /\
    exists m l', co_view s = Some m /\ m !! h_subject h = Some l' /\ lease_later l l'.

Lemma handle_ok_later f clk o s h : handle_ok s h -> handle_ok (fst (co_step f clk o s)) h.
Proof.
  intros Hh l Hl. destruct (Hh l Hl) as (E1 & E2 & E3 & m & l' & Hv & Hm & Hlater).
  split_and!; [done..|]. destruct (co_step_later f clk o s m Hv) as (m2 & Hv2 & Ht).
  destruct (Ht _ _ Hm) as (l2 & Hl2 & Hlt). exists m2, l2. split_and!; [done|done|]. by transitivity l'.
Qed.

Lemma co_renew_ok f clk l ttl s l' :
  snd (co_step f clk (Renew l ttl) s) = Ok l' ->
  exists m r, co_view (fst (co_step f clk (Renew l ttl) s)) = Some m /\ l' = Some r /\
    subject r = subject l /\ owner_id r = owner_id l /\ m !! subject l = Some r.
Proof.
  intros Hr. pose proof (law_step f clk (Renew l ttl) s) as L.
  destruct (co_step f clk (Renew l ttl) s) as [s' res]; simpl in Hr; subst; simpl.
  destruct L as [[_ (e & ? & _)]|(m & m' & r' & Hv & Hs & Hv' & [<- | ])]; try done.
  unfold spec_step in Hs. destruct (validate (Renew l ttl)) as [[]|]; [|by simplify_eq].
  simpl in Hs. destruct (_assert_current _ _ _ _ _) as [[]|]; simplify_eq.
  eexists _, _. split_and!; [exact Hv'|done|done|done|]. by rewrite lookup_insert_eq.
Qed.

(** Only a granting call returns a lease. *)
Lemma co_acquire_some f clk subj owner ttl s r :
  snd (co_step f clk (Acquire subj owner ttl) s) = Ok r -> exists l, r = Some l /\ subject l = subj.
Proof.
  intros Hr. pose proof (law_step f clk (Acquire subj owner ttl) s) as L.
  destruct (co_step f clk (Acquire subj owner ttl) s) as [s' res]; simpl in Hr; subst.
  destruct L as [[_ (e & ? & _)]|(m & m' & r' & Hv & Hs & Hv' & [<- | ])]; try done.
  unfold spec_step in Hs. destruct (validate (Acquire subj owner ttl)) as [[]|]; [|by simplify_eq].
  simpl in Hs. destruct (_acquire _ _ _ _ _) as [l|] eqn:E; simplify_eq.
  exists l. split; [done|]. by destruct (acquire_later _ _ _ _ _ _ E) as (_ & ? & _).
Qed.

Lemma start_ok f clk h s :
  handle_ok s h -> let '(h', s', _) := start f clk h s in
  handle_ok s' h' /\ (s' = s \/ exists o, s' = fst (co_step f clk o s)).
Proof.
  intros Hh. unfold start. destruct (lease h) as [l0|] eqn:El; [by auto|].
  pose proof (co_acquire_ok f clk (h_subject h) (h_owner_id h) (ttl_seconds h) s) as Ha.
  pose proof (co_acquire_some f clk (h_subject h) (h_owner_id h) (ttl_seconds h) s) as Hs.
  destruct (co_step f clk (Acquire _ _ _) s) as [s' [r|e]] eqn:E; simpl in *.
  - split; [|right; eexists; by rewrite E]. destruct (Hs r eq_refl) as (l & -> & Hsub).
    destruct (Ha l eq_refl) as (m & m' & _ & Hv' & Hm' & Ho & Hne & _).
    intros l1 [= <-]; simpl. split_and!; [done|done|by rewrite Ho|]. exists m', l. split_and!; [done|done|reflexivity].
  - split; [|right; eexists; by rewrite E]. intros l Hl. congruence.
Qed.

Lemma heartbeat_ok f clk h s :
  handle_ok s h -> let '(h', s') := heartbeat f clk h s in
  handle_ok s' h' /\ (s' = s \/ exists o, s' = fst (co_step f clk o s)).
Proof.
  intros Hh. unfold heartbeat. destruct (_heartbeat h), (lease h) as [l0|] eqn:El; try by auto.
  destruct (Hh l0 El) as (E1 & E2 & E3 & _).
  pose proof (co_renew_ok f clk l0 (ttl_seconds h) s) as Hr.
  pose proof (handle_ok_later f clk (Renew l0 (ttl_seconds h)) s h Hh) as Hlater.
  destruct (co_step f clk (Renew l0 (ttl_seconds h)) s) as [s' [r|e]] eqn:E; simpl in *;
    (split; [|right; eexists; by rewrite E]).
  - destruct (Hr r eq_refl) as (m & l & Hv & -> & Hsub & Ho & Hm). intros l1 [= <-]; simpl.
    rewrite Hsub, Ho. split_and!; [done..|]. exists m, l. rewrite <- E1. split_and!; [done|done|reflexivity].
  - intros l1 Hl1. apply (Hlater l1). simpl in Hl1. congruence.
Qed.

Lemma close_ok f clk h s :
  let '(h', s', _) := close f clk h s in
  handle_ok s' h' /\ (s' = s \/ exists o, s' = fst (co_step f clk o s)).
Proof.
  unfold close. destruct (lease h) as [l|]; [|by split; [|left]].
  destruct (co_step f clk (Release l) s) as [s' r] eqn:E.
  assert (s' = fst (co_step f clk (Release l) s)) as Hs' by (by rewrite E).
  by destruct r as [|[]]; (split; [|right; eexists; exact Hs']).
Qed.

(** What an event does to the store is what calls on the coordinator do. *)
Definition called (s s' : S) : Prop := s' = s \/ exists f clk o, s' = fst (co_step f clk o s).

Definition handles_ok (w : world) : Prop := Forall (handle_ok (store w)) (handles w).

Lemma with_handle_ok i h s w :
  handles_ok w -> handle_ok s h -> called (store w) s -> handles_ok (with_handle i h s w).
Proof.
  intros Hw Hh Hs. apply Forall_insert; [|done]. eapply Forall_impl; [exact Hw|].
  simpl. intros h0 Hh0. destruct Hs as [->|(f & clk & o & ->)]; [done|by apply handle_ok_later].
Qed.

Lemma locked_ok th w w' : handles_ok w -> handles_ok w' -> handles_ok (locked th w w').
Proof. unfold locked. by destruct (take _ _ _). Qed.

Lemma run_event_handles f clk th e w : handles_ok w -> handles_ok (run_event f clk th e w).
Proof.
  intros IH. pose proof IH as IH'. unfold handles_ok in IH'. rewrite Forall_lookup in IH'.
  destruct e as [i|i|i|o|i|b]; simpl.
  - destruct (handles w !! i) as [h|] eqn:Ei; [|done].
    pose proof (start_ok f clk h (store w) (IH' i h Ei)) as Hst.
    destruct (start f clk h (store w)) as [[h' s'] o]. destruct Hst as [Hh Hs].
    apply locked_ok; [done|]. apply with_handle_ok; [done..|]. unfold called. naive_solver.
  - destruct (handles w !! i) as [h|] eqn:Ei; [|done].
    pose proof (close_ok f clk h (store w)) as Hcl.
    destruct (close f clk h (store w)) as [[h' s'] o]. destruct Hcl as [Hh Hs].
    assert (handles_ok (with_handle i h' s' w)).
    { apply with_handle_ok; [done..|]. unfold called. naive_solver. }
    destruct (lease h); [by apply locked_ok|done].
  - destruct (handles w !! i) as [h|] eqn:Ei; [|done].
    pose proof (heartbeat_ok f clk h (store w) (IH' i h Ei)) as Hhb.
    destruct (heartbeat f clk h (store w)) as [h' s']. destruct Hhb as [Hh Hs].
    apply locked_ok; [done|]. apply with_handle_ok; [done..|]. unfold called. naive_solver.
  - apply locked_ok; [done|]. eapply Forall_impl; [exact IH|]. intros h. apply handle_ok_later.
  - destruct (handles w !! i) as [h|]; [|done]. by destruct (guard _ _ _ _ _ _).
  - by destruct (bool_decide _).
Qed.

(** The lock is held as often as there are bodies running, all of the thread that
    holds it; and once at most when it is not re-entrant. *)
Definition lock_ok (w : world) : Prop :=
  match coordinator_lock w with
  | None => bodies w = []
  | Some (holder, n) =>
      n = length (bodies w) /\ (0 < n)%nat /\ Forall (fun b => fst b = holder) (bodies w) /\
      (co_reentrant = false -> n = 1%nat)
  end.

Lemma leave_head th b bs : fst b = th -> leave th (b :: bs) = bs.
Proof. intros E. simpl. by rewrite (proj2 (Nat.eqb_eq _ _) E). Qed.

Lemma locked_lock th w w' :
  coordinator_lock w' = coordinator_lock w -> bodies w' = bodies w -> lock_ok w -> lock_ok (locked th w w').
Proof. intros E1 E2 H. unfold locked, lock_ok in *. destruct (take _ _ _); [by rewrite E1, E2|done]. Qed.

Lemma guard_entered f clk th h lk s held :
  guard f clk th h lk s = Entered held ->
  take co_reentrant th lk = Some held /\
  exists l, lease h = Some l /\ co_enter f clk (h_subject h) (fencing_token l) s = Ok tt.
Proof.
  unfold guard, coordinator_guard. destruct (_renew_error h); [done|].
  destruct (lease h) as [l|]; [|done]. destruct (take _ _ _); [|done].
  destruct (co_enter _ _ _ _ _) as [[]|] eqn:E; [|done]. intros [= <-]. eauto.
Qed.

Lemma take_ok th i w held :
  lock_ok w -> take co_reentrant th (coordinator_lock w) = Some held ->
  lock_ok (mkWorld (handles w) (store w) held ((th, i) :: bodies w)) /\
  (co_reentrant = false -> bodies w = []) /\ Forall (fun b => fst b = th) (bodies w).
Proof.
  unfold lock_ok, take. destruct (coordinator_lock w) as [[holder n]|]; simpl.
  - intros (-> & Hn & Hall & Hre). destruct co_reentrant; [simpl|done].
    destruct (holder =? th)%nat eqn:E; [|done]. apply Nat.eqb_eq in E as ->. intros [= <-].
    split_and!; [lia|lia|by constructor|done|done|done].
  - intros -> [= <-]. split_and!; [done|lia|repeat constructor|done|done|constructor].
Qed.

Lemma run_event_lock f clk th e w : lock_ok w -> lock_ok (run_event f clk th e w).
Proof.
  intros Hw. destruct e as [i|i|i|o|i|b]; simpl.
  - destruct (handles w !! i) as [h|]; [|done]. destruct (start f clk h (store w)) as [[h' s'] ?].
    by apply locked_lock.
  - destruct (handles w !! i) as [h|]; [|done]. destruct (close f clk h (store w)) as [[h' s'] ?].
    destruct (lease h); [by apply locked_lock|exact Hw].
  - destruct (handles w !! i) as [h|]; [|done]. destruct (heartbeat f clk h (store w)) as [h' s'].
    by apply locked_lock.
  - by apply locked_lock.
  - destruct (handles w !! i) as [h|]; [|done]. destruct (guard _ _ _ _ _ _) as [|?|held] eqn:E; [done..|].
    apply guard_entered in E as [E _]. by apply (take_ok th i w held Hw).
  - destruct (bool_decide _) eqn:E; [|done]. apply bool_decide_eq_true in E. unfold lock_ok in *; simpl.
    destruct (coordinator_lock w) as [[holder n]|]; simpl; [|by rewrite Hw].
    destruct Hw as (-> & Hn & Hall & Hre). destruct (bodies w) as [|b0 bs]; [by apply elem_of_nil in E|].
    assert (fst b0 = th) as Hb0.
    { rewrite Forall_forall in Hall. apply list_elem_of_fmap in E as (b1 & -> & Hb1).
      rewrite (Hall b1 Hb1). apply Hall. left. }
    rewrite leave_head by done. simpl in *. inversion Hall; subst.
    destruct (length bs <=? 0)%nat eqn:El.
    + apply Nat.leb_le in El. destruct bs; [reflexivity|simpl in El; lia].
    + apply Nat.leb_gt in El. rewrite Nat.sub_0_r. split_and!; [done|done|done|]. intros H. specialize (Hre H). lia.
Qed.

Lemma reachable_ok w : reachable w -> handles_ok w /\ lock_ok w.
Proof.
  induction 1 as [hs s Hnone|f clk th e w Hr [IH1 IH2]].
  - split; [|done]. eapply Forall_impl; [done|]. simpl. intros h Hh l Hl. simpl in *. congruence.
  - split; [by apply run_event_handles|by apply run_event_lock].
Qed.

(** While a thread is in a guarded body, what others do leaves the store, the lock
    and the bodies alone. *)
Definition frozen (w w' : world) : Prop :=
  store w' = store w /\ coordinator_lock w' = coordinator_lock w /\ bodies w' = bodies w.

Lemma take_other re th th' n : th' <> th -> take re th' (Some (th, n)) = None.
Proof. intros H. simpl. rewrite (proj2 (Nat.eqb_neq _ _)) by done. by rewrite andb_false_r. Qed.

Lemma locked_frozen th th' n w w' :
  coordinator_lock w = Some (th, n) -> th' <> th -> locked th' w w' = w.
Proof. intros E H. unfold locked. by rewrite E, take_other. Qed.

Lemma run_event_frozen f clk th th' n e w :
  coordinator_lock w = Some (th, n) -> Forall (fun b => fst b = th) (bodies w) -> th' <> th ->
  frozen w (run_event f clk th' e w).
Proof.
  intros E Hall H. assert (frozen w w) as Hw by done. destruct e as [i|i|i|o|i|b]; simpl.
  - destruct (handles w !! i) as [h|]; [|done]. destruct (start f clk h (store w)) as [[h' s'] ?].
    by erewrite locked_frozen.
  - destruct (handles w !! i) as [h|]; [|done]. unfold close.
    destruct (lease h) as [l|]; [|done]. destruct (co_step f clk (Release l) (store w)) as [s' r].
    by destruct r as [|[]]; erewrite locked_frozen.
  - destruct (handles w !! i) as [h|]; [|done]. destruct (heartbeat f clk h (store w)) as [h' s'].
    by erewrite locked_frozen.
  - by erewrite locked_frozen.
  - destruct (handles w !! i) as [h|]; [|done]. destruct (guard _ _ _ _ _ _) as [|?|held] eqn:Eg; [done..|].
    apply guard_entered in Eg as [Eg _]. by rewrite E, take_other in Eg.
  - rewrite bool_decide_eq_false_2; [done|]. intros (b1 & -> & Hb1)%list_elem_of_fmap.
    rewrite Forall_forall in Hall. by apply H, Hall.
Qed.

Lemma others_frozen th n w w' :
  others th w w' -> coordinator_lock w = Some (th, n) -> Forall (fun b => fst b = th) (bodies w) ->
  frozen w w'.
Proof.
  induction 1 as [w|f clk th' e w w' Hne _ IH]; intros E Hall; [done|].
  pose proof (run_event_frozen f clk th th' n e w E Hall Hne) as (E1 & E2 & E3).
  destruct IH as (F1 & F2 & F3); [congruence|by rewrite E3|]. unfold frozen. by rewrite F1, F2, F3.
Qed.

(** C13: Two owners are never inside a lease's critical section together. Take any
    lawful coordinator, any handles of any clients and any interleaving of what the
    threads do, calls that fail included. When a thread's [guard] lets its body start,
    every body running is of that thread, and none was running at all when the
    coordinator's lock is not re-entrant (the file-backed one). From then on, whatever
    other threads do with whatever clocks, until the thread itself leaves the body or
    calls the coordinator again, no other body starts, the stored leases do not
    change, and the subject's lease is the handle's owner's, under the handle's token:
    nobody takes it over, even when it expires meanwhile. *)
Theorem guard_mutual_exclusion w f clk th i h w' :
  reachable w -> handles w !! i = Some h ->
  let w1 := run_event f clk th (Enter i) w in
  bodies w1 <> bodies w -> others th w1 w' ->
  bodies w' = (th, i) :: bodies w /\ Forall (fun b => fst b = th) (bodies w') /\
  (co_reentrant = false -> bodies w = []) /\ store w' = store w /\
  exists l m l', lease h = Some l /\ co_view (store w') = Some m /\ m !! h_subject h = Some l' /\
    owner_id l' = h_owner_id h /\ fencing_token l' = fencing_token l.
Proof.
  intros Hr Hi w1 Hstart Hothers. apply reachable_ok in Hr as [Hhs Hlk].
  unfold w1, run_event in Hstart, Hothers. rewrite Hi in Hstart, Hothers. clear w1.
  destruct (guard f clk th h (coordinator_lock w) (store w)) as [|?|held] eqn:Eg; [done..|].
  apply guard_entered in Eg as (Ht & l & Hl & Hent).
  destruct (take_ok th i w held Hlk Ht) as (Hlk1 & Hone & Hall).
  assert (exists n, held = Some (th, n)) as [n ->].
  { unfold lock_ok in Hlk1. simpl in Hlk1. destruct held as [[holder n]|]; [|done].
    destruct Hlk1 as (_ & _ & Hb & _). inversion Hb. simpl in *. subst. by exists n. }
  apply (others_frozen th n) in Hothers as (E1 & _ & E3); [|done|by constructor]. simpl in *.
  rewrite E1, E3. split_and!; [done|by constructor|done|done|].
  apply law_enter in Hent as (m & Hv & Ha). apply assert_current_inv in Ha as (l1 & Hm & Hne & Htok & _).
  unfold handles_ok in Hhs. rewrite Forall_lookup in Hhs.
  destruct (Hhs i h Hi l Hl) as (_ & Ho & _ & m' & l' & Hv' & Hm' & Hlater). simplify_eq.
  exists l, m, l1. split_and!; try done. destruct Hlater as [?|[_ [E|E]]]; [lia|congruence|done].
Qed.
End handle.
End LeaseHandle.

(** ** Concrete runs *)

Import (hints) InMemoryLeaseCoordinator.
Import (hints) FileLeaseCoordinator.
Existing Instance InMemoryLeaseCoordinator.coordinator.
Existing Instance FileLeaseCoordinator.coordinator.

Definition lock0 : leases := fst (spec_step (fun _ => 0) (Acquire "db" "a" 10) ∅).
Definition lease_a : RuntimeLease := mkLease "db" "a" 1 10.

(** Owner [a]'s lease expires at 10; [b] takes over at 11 with token 2. *)
Example lease_fencing_witness :
  fencing_token lease_a < 2 /\
  is_ok (snd (co_step (S := leases) tt (fun _ => 12) (AssertCurrent "db" 1)
           (fst (co_step (S := leases) tt (fun _ => 11) (Acquire "db" "b" 5) lock0)))) = false.
Proof.
  destruct (lease_fencing (S := leases) tt (fun _ => 11) lock0 lock0 lease_a (mkLease "db" "b" 2 16) "b" 5
              (fst (co_step (S := leases) tt (fun _ => 11) (Acquire "db" "b" 5) lock0)) tt (fun _ => 12))
    as (H1 & H2 & _); try reflexivity; [discriminate|apply steps_refl|].
  split; [exact H1|exact H2].
Defined.

Example lease_exclusion_witness :
  is_ok (snd (co_step (S := leases) tt (fun _ => 4) (Acquire "db" "b" 5) lock0)) = false.
Proof.
  refine (proj1 (lease_exclusion (S := leases) tt (fun _ => 5) lock0 lock0 lease_a tt (fun _ => 4) "b" 5
            eq_refl eq_refl _ eq_refl _)); vm_compute; discriminate.
Defined.

(** Two owners and two threads on the file-backed coordinator. [a] holds the lease
    until 10 and enters its section at 2; at 100 thread 2 wants the lease for [b],
    which it would get, were thread 1 not inside. *)
Definition two_handles : LeaseHandle.world (S := FileLeaseCoordinator.t) :=
  LeaseHandle.run_event FileLeaseCoordinator.no_faults (fun _ => 0) 1 (LeaseHandle.Start 0)
    (LeaseHandle.mkWorld [LeaseHandle.make "db" "a" 10; LeaseHandle.make "db" "b" 20]
       FileLeaseCoordinator.Absent None []).
Definition inside : LeaseHandle.world :=
  LeaseHandle.run_event FileLeaseCoordinator.no_faults (fun _ => 2) 1 (LeaseHandle.Enter 0) two_handles.
Definition contended : LeaseHandle.world :=
  LeaseHandle.run_event FileLeaseCoordinator.no_faults (fun _ => 100) 2 (LeaseHandle.Enter 1)
    (LeaseHandle.run_event FileLeaseCoordinator.no_faults (fun _ => 100) 2 (LeaseHandle.Start 1) inside).

Example takeover_after_leaving :
  let left := LeaseHandle.run_event FileLeaseCoordinator.no_faults (fun _ => 100) 1
                (LeaseHandle.Leave Returned) contended in
  let later := LeaseHandle.run_event FileLeaseCoordinator.no_faults (fun _ => 101) 2 (LeaseHandle.Enter 1)
                 (LeaseHandle.run_event FileLeaseCoordinator.no_faults (fun _ => 100) 2
                    (LeaseHandle.Start 1) left) in
  LeaseHandle.bodies later = [(2%nat, 1%nat)].
Proof. vm_compute. done. Qed.

(** The [RLock] of the in-memory coordinator excludes threads, not tasks: a body that
    called the coordinator again, or awaited something that does, could see its expired
    lease taken over and the new owner's body start inside its own. The bodies of the
    program ([runtime/interactive/host.py]) do neither. *)
Example nested_on_one_thread :
  let run clk e w := LeaseHandle.run_event (S := leases) tt (fun _ => clk) 1%nat e w in
  let w := run 100 (LeaseHandle.Enter 1) (run 100 (LeaseHandle.Start 1)
             (run 2 (LeaseHandle.Enter 0) (run 0 (LeaseHandle.Start 0)
                (LeaseHandle.mkWorld [LeaseHandle.make "db" "a" 10; LeaseHandle.make "db" "b" 20] ∅ None [])))) in
  LeaseHandle.bodies w = [(1%nat, 1%nat); (1%nat, 0%nat)].
Proof. vm_compute. done. Qed.

(** The file-backed [guard] reports an [OSError] of the body as its own error. *)
Example body_error_masked :
  co_exit (S := FileLeaseCoordinator.t) FileLeaseCoordinator.no_faults RaisedOSError =
    Some LeaseCoordinatorUnavailableError /\
  co_exit (S := leases) tt RaisedOSError = None.
Proof. done. Qed.

Example guard_mutual_exclusion_witness :
  LeaseHandle.bodies contended = [(1%nat, 0%nat)] /\
  exists m l, co_view (LeaseHandle.store contended) = Some m /\ m !! "db"%string = Some l /\ owner_id l = "a"%string.
Proof.
  destruct (LeaseHandle.guard_mutual_exclusion two_handles FileLeaseCoordinator.no_faults (fun _ => 2) 1 0
              (LeaseHandle.mk "db" "a" 10 (Some lease_a) true false) contended)
    as (E & _ & _ & _ & l & m & l' & _ & Hv & Hm & Ho & _).
  - apply LeaseHandle.reach_event, LeaseHandle.reach_init. repeat constructor.
  - vm_compute. reflexivity.
  - vm_compute. discriminate.
  - unfold contended, inside.
    eapply (LeaseHandle.others_event 1 FileLeaseCoordinator.no_faults (fun _ => 100) 2 (LeaseHandle.Start 1));
      [discriminate|].
    eapply (LeaseHandle.others_event 1 FileLeaseCoordinator.no_faults (fun _ => 100) 2 (LeaseHandle.Enter 1));
      [discriminate|apply LeaseHandle.others_refl].
  - split; [exact E|]. exists m, l'. split; [exact Hv|]. split; [exact Hm|exact Ho].
Defined.
