(* ===== verification/Lifecycle.v ===== *)
(** Phased, retryable shutdown of runtime resources ([runtime/control/lifecycle.py]). *)

From Stdlib Require Import Ascii.
From S2P Require Import Prelude.

Local Open Scope Z_scope.

Inductive LifecycleState : Type := OPEN | CLOSING | CLOSED.
#[export] Instance LifecycleState_eq_dec : EqDecision LifecycleState.
Proof. solve_decision. Defined.

Module LifecycleStack.

Record LifecycleResource : Type := mkResource {
  name : string;
  phase : Z;
  close : nat   (* the close callback *)
}.

#[export] Instance LifecycleResource_eq_dec : EqDecision LifecycleResource.
Proof. solve_decision. Defined.

Record t : Type := mk {
  _resources : list (string * LifecycleResource);
  _state : LifecycleState
}.

Definition init : t := mk [] OPEN.

Inductive exn : Type :=
| RuntimeError
| ValueError
| LifecycleCloseError (phase : Z) (failures : list string)
| OutOfFuel.

(** [str.strip] on the ASCII white space. *)
Definition is_space (c : ascii) : bool :=
  let n := nat_of_ascii c in
  ((9 <=? n) && (n <=? 13))%nat || ((28 <=? n) && (n <=? 32))%nat.

Fixpoint lstrip (s : string) : string :=
  match s with
  | String c s' => if is_space c then lstrip s' else s
  | EmptyString => EmptyString
  end.

Definition strip (s : string) : string := String.rev (lstrip (String.rev (lstrip s))).

Definition register (r : LifecycleResource) (s : t) : t * outcome exn unit :=
  if decide (_state s <> OPEN) then (s, Raise RuntimeError)
  else
    let normalized := strip (name r) in
    if decide (normalized = ""%string) then (s, Raise ValueError)
    else if Dict.mem normalized (_resources s) then (s, Raise ValueError)
    else (mk (Dict.set normalized (mkResource normalized (phase r) (close r)) (_resources s)) (_state s), Ok tt).

Definition register_close (n : string) (cb : nat) (ph : Z) (s : t) : t * outcome exn unit :=
  register (mkResource n ph cb) s.

Section closing.
(** What a close callback does to the rest of the process, and whether it returned. *)
Context {Env : Type} (call : nat -> Env -> Env * bool).

(** The [for] loop over one phase: the names whose callback raised, and the
    resources left. *)
Fixpoint close_phase (rs : list LifecycleResource) (env : Env) (d : list (string * LifecycleResource))
    : Env * list (string * LifecycleResource) * list string :=
  match rs with
  | [] => (env, d, [])
  | r :: rs =>
      let (env, ok) := call (close r) env in
      let d := if ok then Dict.pop (name r) d else d in
      let '(env, d, failures) := close_phase rs env d in
      (env, d, if ok then failures else name r :: failures)
  end.

Definition min_phase (r : LifecycleResource) (rs : list LifecycleResource) : Z :=
  foldr (fun r m => Z.min (phase r) m) (phase r) rs.

(** The [while] loop of [_close]; the last component is every callback that was
    started, in order. *)
Fixpoint close_loop (fuel : nat) (env : Env) (d : list (string * LifecycleResource))
    : Env * list (string * LifecycleResource) * outcome exn unit * list LifecycleResource :=
  match fuel with
  | O => (env, d, Raise OutOfFuel, [])
  | S fuel =>
      match Dict.values d with
      | [] => (env, d, Ok tt, [])
      | r :: rs =>
          let ph := min_phase r rs in
          let resources := filter (fun r => phase r = ph) (rev (r :: rs)) in
          let '(env, d, failures) := close_phase resources env d in
          match failures with
          | [] =>
              let '(env, d, o, started) := close_loop fuel env d in
              (env, d, o, resources ++ started)
          | _ => (env, d, Raise (LifecycleCloseError ph failures), resources)
          end
      end
  end.

Definition _close (env : Env) (s : t) : Env * t * outcome exn unit * list LifecycleResource :=
  let '(env, d, o, started) := close_loop (S (length (_resources s))) env (_resources s) in
  (env, mk d (match o with Ok _ => CLOSED | Raise _ => CLOSING end), o, started).

(** [aclose], run by one caller; a closed stack is left alone. *)
Definition aclose (env : Env) (s : t) : Env * t * outcome exn unit * list LifecycleResource :=
  if decide (_state s = CLOSED) then (env, s, Ok tt, []) else _close env s.

(** ** Correctness *)

(** Names are keys: the invariant of a registered stack. *)
Definition keyed (d : list (string * LifecycleResource)) : Prop :=
  NoDup (Dict.keys d) /\ Forall (fun kv => name kv.2 = kv.1) d.

Definition of_phase (ph : Z) (l : list LifecycleResource) : list LifecycleResource :=
  filter (fun r => phase r = ph) l.

Definition phase_le (r1 r2 : LifecycleResource) : Prop := phase r1 <= phase r2.

Lemma keyed_filter P `{forall x, Decision (P x)} d : keyed d -> keyed (filter P d).
Proof.
  intros [Hn Hf]. split.
  - eapply sublist_NoDup; [exact Hn|]. apply fmap_sublist, sublist_filter.
  - eapply sublist_Forall'; [apply sublist_filter|done].
Qed.

Lemma pop_filter k d : Dict.pop k d = filter (fun kv : string * LifecycleResource => k <> kv.1) d.
Proof.
  induction d as [|[k' r] d IH]; [done|]. simpl. case_decide.
  - rewrite filter_cons_False by (simpl; tauto). done.
  - rewrite filter_cons_True by done. by rewrite IH.
Qed.

(** A phase keeps exactly the resources outside it and those that failed. *)
Lemma close_phase_spec rs env d :
  NoDup (name <$> rs) ->
  let '(_, d', failures) := close_phase rs env d in
  failures `sublist_of` (name <$> rs) /\
  d' = filter (fun kv => kv.1 ∉ name <$> rs \/ kv.1 ∈ failures) d.
Proof.
  revert env d. induction rs as [|r rs IH]; intros env d Hn; simpl.
  { split; [done|]. symmetry. apply filter_all, Forall_forall. intros x _. left. apply not_elem_of_nil. }
  apply NoDup_cons in Hn as [Hr Hn]. destruct (call (close r) env) as [env1 ok].
  specialize (IH env1 (if ok then Dict.pop (name r) d else d) Hn).
  destruct (close_phase rs env1 _) as [[env2 d'] failures]. destruct IH as [Hsub ->].
  assert (name r ∉ failures) as Hrf by (intros Hin; by apply Hr; eapply sublist_subseteq).
  destruct ok; (split; [by constructor|]).
  - rewrite pop_filter, list_filter_filter. apply filter_ext_in. intros kv _. simpl.
    rewrite not_elem_of_cons. destruct (decide (kv.1 = name r)) as [->|]; tauto || (split; intuition congruence).
  - apply filter_ext_in. intros kv _. simpl. rewrite not_elem_of_cons, elem_of_cons.
    destruct (decide (kv.1 = name r)) as [->|]; tauto || (split; intuition congruence).
Qed.

Lemma values_filter (P : string -> Prop) `{forall x, Decision (P x)} d :
  keyed d -> Dict.values (filter (fun kv => P kv.1) d) = filter (fun r => P (name r)) (Dict.values d).
Proof.
  intros [_ Hf]. unfold Dict.values. induction Hf as [|[k r] d Hk _ IH]; [done|]. simpl in Hk.
  rewrite fmap_cons; simpl. destruct (decide (P k)).
  - rewrite !filter_cons_True by (simpl; congruence). simpl. by rewrite <- IH.
  - rewrite !filter_cons_False by (simpl; congruence). by rewrite <- IH.
Qed.

Lemma values_names d : keyed d -> name <$> Dict.values d = Dict.keys d.
Proof.
  intros [_ Hf]. unfold Dict.values, Dict.keys. rewrite <- list_fmap_compose.
  apply list_fmap_ext. intros i kv Hi. rewrite Forall_lookup in Hf. by apply (Hf i).
Qed.

Lemma names_inj l r1 r2 :
  NoDup (name <$> l) -> r1 ∈ l -> r2 ∈ l -> name r1 = name r2 -> r1 = r2.
Proof.
  intros Hn [i Hi]%list_elem_of_lookup [j Hj]%list_elem_of_lookup E.
  assert (i = j) as ->; [|congruence]. eapply NoDup_lookup; [exact Hn|..].
  - by rewrite list_lookup_fmap, Hi.
  - rewrite list_lookup_fmap, Hj; simpl. by rewrite E.
Qed.

Lemma min_phase_spec r rs :
  min_phase r rs ∈ phase <$> (r :: rs) /\ Forall (fun x => min_phase r rs <= phase x) (r :: rs).
Proof.
  unfold min_phase. induction rs as [|x rs [IH1 IH2]]; simpl; [split; [left|repeat constructor; lia]|].
  apply Forall_cons in IH2 as [Hr Hrs]. split.
  - destruct (Z.min_spec (phase x) (foldr (fun r m => Z.min (phase r) m) (phase r) rs)) as [[_ ->]|[_ ->]].
    + right. left.
    + simpl in IH1. apply elem_of_cons in IH1 as [->|?]; [left|by right; right].
  - constructor; [lia|]. constructor; [lia|]. eapply Forall_impl; [done|]. simpl. lia.
Qed.

Lemma of_phase_rev ph l : of_phase ph (rev l) = rev (of_phase ph l).
Proof.
  unfold of_phase. induction l as [|x l IH]; [done|]. simpl. rewrite filter_app, IH.
  destruct (decide (phase x = ph)).
  - rewrite !(filter_cons_True _ x) by done. done.
  - rewrite !(filter_cons_False _ x) by done. by rewrite filter_nil, app_nil_r.
Qed.

Lemma of_phase_other ph q l : ph <> q -> of_phase ph (of_phase q l) = [].
Proof.
  intros Hne. unfold of_phase. rewrite list_filter_filter.
  induction l as [|x l IH]; [done|]. rewrite filter_cons_False; [done|]. intros [? ?]. congruence.
Qed.

Lemma of_phase_below q l : (forall r, r ∈ l -> phase r <> q) -> of_phase q l = [].
Proof.
  induction l as [|x l IH]; intros H; [done|]. unfold of_phase in *.
  rewrite filter_cons_False by (apply H; left). apply IH. intros r Hr. apply H. by right.
Qed.

Lemma elem_of_rev' (r : LifecycleResource) l : r ∈ rev l <-> r ∈ l.
Proof. by rewrite <- Permutation_rev. Qed.

Lemma of_phase_same ph l : of_phase ph (of_phase ph l) = of_phase ph l.
Proof. apply filter_all, Forall_forall. intros x Hx. by apply list_elem_of_filter in Hx as [? _]. Qed.

Lemma elem_of_phase r l : r ∈ l -> r ∈ of_phase (phase r) l.
Proof. intros. by apply list_elem_of_filter. Qed.

Definition upto (p : option Z) (q : Z) : bool :=
  match p with Some p => q <=? p | None => true end.

(** What a shutdown that stops at phase [p] ([None]: at the end) has started. *)
Definition started_upto (p : option Z) (l started : list LifecycleResource) : Prop :=
  StronglySorted phase_le started /\
  forall q, of_phase q started =
    if upto p q then rev (of_phase q l) else [].

Lemma started_elem p l started r : started_upto p l started -> r ∈ started -> r ∈ l.
Proof.
  intros [_ Hq] Hr. apply elem_of_phase in Hr. rewrite Hq in Hr.
  destruct (upto p (phase r)); [|by apply not_elem_of_nil in Hr].
  apply elem_of_rev', list_elem_of_filter in Hr as [_ ?]. done.
Qed.

Lemma sorted_phase ph l : StronglySorted phase_le (of_phase ph l).
Proof.
  unfold of_phase. induction l as [|x l IH]; [constructor|].
  destruct (decide (phase x = ph)) as [E|]; [rewrite filter_cons_True by done|by rewrite filter_cons_False].
  constructor; [done|]. apply Forall_forall. intros y [Hy _]%list_elem_of_filter. unfold phase_le. lia.
Qed.

(** One phase in front of a shutdown of the later ones. *)
Lemma started_cons ph p l started :
  (forall r, r ∈ l -> ph <= phase r) -> match p with Some p => ph < p | None => True end ->
  started_upto p (filter (fun r => phase r <> ph) l) started ->
  started_upto p l (of_phase ph (rev l) ++ started).
Proof.
  intros Hmin Hp Hs. destruct Hs as [Hss Hq].
  assert (forall r, r ∈ started -> phase r <> ph /\ r ∈ l) as Hin.
  { intros r Hr. apply (started_elem p (filter (fun r => phase r <> ph) l)) in Hr; [|done].
    by apply list_elem_of_filter in Hr. }
  split.
  - assert (Forall (fun r => ph <= phase r) started) as Hge.
    { apply Forall_forall. intros r Hr. by apply Hmin, Hin. }
    assert (forall l1, Forall (fun r => phase r = ph) l1 -> StronglySorted phase_le l1 ->
              StronglySorted phase_le (l1 ++ started)) as Happ.
    { intros l1 H1 H2. induction H2 as [|x l1 H2 IH Hx]; [done|]. simpl.
      apply Forall_cons in H1 as [E H1]. constructor; [by apply IH|]. apply Forall_app. split; [done|].
      eapply Forall_impl; [exact Hge|]. unfold phase_le. simpl. lia. }
    apply Happ; [|apply sorted_phase]. apply Forall_forall. by intros r [? _]%list_elem_of_filter.
  - intros q. unfold of_phase at 1. rewrite filter_app. fold (of_phase q started).
    fold (of_phase q (of_phase ph (rev l))). rewrite Hq. destruct (decide (q = ph)) as [->|Hne].
    + rewrite of_phase_same, of_phase_rev.
      assert (of_phase ph (filter (fun r => phase r <> ph) l) = []) as ->.
      { unfold of_phase. rewrite list_filter_filter. clear.
        induction l as [|x l IH]; [done|]. rewrite filter_cons_False; [done|]. tauto. }
      assert (upto p ph = true) as -> by (destruct p; simpl; [by apply Z.leb_le; lia|done]).
      by rewrite app_nil_r.
    + rewrite of_phase_other by done. simpl. destruct (upto p q); [|done].
      f_equal. unfold of_phase. rewrite list_filter_filter. apply filter_ext_in. intros x _. naive_solver.
Qed.

(** The outcome of a shutdown of [l], against what is left and what was started. *)
Definition close_post (l left started : list LifecycleResource) (o : outcome exn unit) : Prop :=
  match o with
  | Ok _ => left = [] /\ started_upto None l started
  | Raise (LifecycleCloseError p failures) =>
      failures <> [] /\ failures `sublist_of` (name <$> of_phase p started) /\
      started_upto (Some p) l started /\
      left = filter (fun r => p < phase r \/ name r ∈ failures) l
  | Raise _ => False
  end.

(** One phase: its names are distinct, and it keeps what failed and every other phase. *)
Lemma one_phase_spec env d l ph :
  keyed d -> Dict.values d = l ->
  let '(_, d1, failures) := close_phase (of_phase ph (rev l)) env d in
  keyed d1 /\ failures `sublist_of` (name <$> of_phase ph (rev l)) /\
  Dict.values d1 = filter (fun x => phase x <> ph \/ name x ∈ failures) l.
Proof.
  intros Hk Ev. assert (NoDup (name <$> l)) as Hnames by (rewrite <- Ev, values_names by done; apply Hk).
  assert (NoDup (name <$> of_phase ph (rev l))) as Hnp.
  { eapply sublist_NoDup; [|apply fmap_sublist, sublist_filter].
    eapply NoDup_Permutation_proper; [|exact Hnames]. by rewrite <- Permutation_rev. }
  pose proof (close_phase_spec (of_phase ph (rev l)) env d Hnp) as Hph.
  destruct (close_phase _ env d) as [[env1 d1] failures]. destruct Hph as [Hsub Ed1].
  assert (forall x, x ∈ l -> name x ∉ name <$> of_phase ph (rev l) <-> phase x <> ph) as Hout.
  { intros x Hx. rewrite list_elem_of_fmap. split.
    - intros Hno E. apply Hno. exists x. split; [done|]. apply list_elem_of_filter. by rewrite elem_of_rev'.
    - intros Hne (y & E & Hy). apply list_elem_of_filter in Hy as [Hy1 Hy2]. rewrite elem_of_rev' in Hy2.
      apply Hne. by rewrite (names_inj l x y). }
  split_and!; [rewrite Ed1; by apply keyed_filter|done|].
  pose proof (values_filter (fun k => k ∉ name <$> of_phase ph (rev l) \/ k ∈ failures) d Hk) as Ef.
  rewrite Ed1. etrans; [exact Ef|]. rewrite Ev. apply filter_ext_in. intros x Hx. by rewrite Hout.
Qed.

(** A clean phase in front of a shutdown of the later ones. *)
Lemma close_post_cons ph l left started o :
  NoDup (name <$> l) -> (forall r, r ∈ l -> ph <= phase r) ->
  close_post (filter (fun x => phase x <> ph) l) left started o ->
  close_post l left (of_phase ph (rev l) ++ started) o.
Proof.
  intros Hnames Hmin Hpost. unfold close_post in *. destruct o as [|[| |p fs|]]; try done.
  { destruct Hpost as [-> Hs]. split; [done|]. by apply started_cons. }
  destruct Hpost as (Hne & Hsub2 & Hs & Hleft).
  assert (forall f, f ∈ fs -> exists x, name x = f /\ phase x = p /\ phase x <> ph /\ x ∈ l) as Hfs.
  { intros f Hf. apply (sublist_subseteq _ _ Hsub2), list_elem_of_fmap in Hf as (x & -> & Hx).
    apply list_elem_of_filter in Hx as [Hx1 Hx2].
    apply (started_elem _ _ _ _ Hs), list_elem_of_filter in Hx2 as [Hx2 Hx3]. by exists x. }
  assert (ph < p) as Hlt.
  { destruct fs as [|f fs]; [done|]. destruct (Hfs f ltac:(left)) as (x & _ & <- & Hx2 & Hx3).
    specialize (Hmin x Hx3). lia. }
  split_and!; [done| |by apply started_cons|].
  - unfold of_phase at 1. rewrite filter_app, fmap_app. by apply sublist_inserts_l.
  - rewrite Hleft, list_filter_filter. apply filter_ext_in. intros x Hx. specialize (Hmin x Hx).
    split; [tauto|]. intros Hor. split; [done|]. destruct Hor as [?|Hf]; [lia|].
    destruct (Hfs _ Hf) as (y & E & Hy1 & Hy2 & Hy3). by rewrite (names_inj l x y).
Qed.

(** A phase that failed ends the shutdown. *)
Lemma close_post_stop ph l failures :
  (forall r, r ∈ l -> ph <= phase r) -> failures <> [] ->
  failures `sublist_of` (name <$> of_phase ph (rev l)) ->
  close_post l (filter (fun x => phase x <> ph \/ name x ∈ failures) l) (of_phase ph (rev l))
    (Raise (LifecycleCloseError ph failures)).
Proof.
  intros Hmin Hne Hsub. unfold close_post. split_and!; [done| | |].
  - by rewrite of_phase_same.
  - split; [apply sorted_phase|]. intros q. destruct (decide (q = ph)) as [->|Hq].
    + unfold upto. by rewrite of_phase_same, of_phase_rev, Z.leb_refl.
    + rewrite of_phase_other by done. unfold upto. destruct (Z.leb_spec q ph); [|done].
      assert (of_phase q l = []) as ->; [|done].
      apply of_phase_below. intros x Hx. specialize (Hmin x Hx). lia.
  - apply filter_ext_in. intros x Hx. specialize (Hmin x Hx).
    assert (phase x <> ph <-> ph < phase x) by lia. tauto.
Qed.

Lemma close_loop_spec fuel env d :
  keyed d -> (length d < fuel)%nat ->
  let '(_, d', o, started) := close_loop fuel env d in
  keyed d' /\ close_post (Dict.values d) (Dict.values d') started o.
Proof.
  revert env d. induction fuel as [|fuel IH]; intros env d Hk Hlen; [lia|]. simpl.
  destruct (Dict.values d) as [|r rs] eqn:Ev.
  { split; [done|]. simpl. split; [done|]. split; [constructor|]. done. }
  destruct (min_phase_spec r rs) as [Hin Hmin]. rewrite Forall_forall in Hmin.
  set (ph := min_phase r rs) in *. set (l := r :: rs) in *.
  change (filter (fun r => phase r = ph) (rev rs ++ [r])) with (of_phase ph (rev l)).
  pose proof (one_phase_spec env d l ph Hk Ev) as Hph.
  destruct (close_phase _ env d) as [[env1 d1] failures]. destruct Hph as (Hk1 & Hsub & Ev1).
  destruct failures as [|f fs]; [|by split; [|rewrite Ev1; apply close_post_stop]].
  assert (Dict.values d1 = filter (fun x => phase x <> ph) l) as Ev2.
  { rewrite Ev1. apply filter_ext_in. intros x _. rewrite elem_of_nil. tauto. }
  assert (length d1 < fuel)%nat as Hlen1.
  { assert (length (Dict.values d1) < length l)%nat as Hlt.
    { rewrite Ev2. apply list_elem_of_fmap in Hin as (x & E & Hx).
      apply (length_filter_lt (fun x => phase x <> ph) l x); [done|]. intros Hne. by apply Hne. }
    rewrite <- Ev in Hlt. unfold Dict.values in Hlt. rewrite !length_fmap in Hlt. lia. }
  specialize (IH env1 d1 Hk1 Hlen1). destruct (close_loop fuel env1 d1) as [[[env2 d2] o] started].
  destruct IH as [Hk2 Hpost]. split; [done|]. rewrite Ev2 in Hpost.
  apply close_post_cons; [rewrite <- Ev, values_names by done; apply Hk|done|done].
Qed.

(** Calling [aclose] again and again, as a caller that retries does. *)
Fixpoint aclose_n (n : nat) (env : Env) (s : t) : Env * t :=
  match n with
  | O => (env, s)
  | S n => let '(env, s, _, _) := aclose env s in aclose_n n env s
  end.
End closing.

Definition wf (s : t) : Prop := keyed (_resources s) /\ (_state s = CLOSED -> _resources s = []).

Lemma _close_spec {Env} (call : nat -> Env -> Env * bool) env s :
  wf s ->
  let '(_, s', o, started) := _close call env s in
  wf s' /\ (_state s' = CLOSED <-> o = Ok tt) /\ _state s' <> OPEN /\
  close_post (Dict.values (_resources s)) (Dict.values (_resources s')) started o.
Proof.
  intros [Hk _]. unfold _close.
  pose proof (close_loop_spec call (S (length (_resources s))) env (_resources s) Hk ltac:(lia)) as H.
  destruct (close_loop _ _ _ _) as [[[env' d] o] started]. destruct H as [Hk' Hp]. simpl.
  assert (o = Ok tt -> d = []) as Hd by (intros ->; destruct Hp as [Hd _]; by destruct d).
  split_and!; [split|..|done]; destruct o as [[]|e]; simpl in *; naive_solver.
Qed.

Lemma aclose_wf {Env} (call : nat -> Env -> Env * bool) env s :
  wf s -> let '(_, s', _, _) := aclose call env s in wf s'.
Proof.
  intros Hs. unfold aclose. case_decide; [done|].
  pose proof (_close_spec call env s Hs) as Hw. destruct (_close call env s) as [[[? ?] ?] ?]. tauto.
Qed.

Lemma stack_register_spec r s :
  wf s ->
  let n := strip (name r) in
  let (s', o) := register r s in
  wf s' /\
  match o with
  | Ok _ => _state s = OPEN /\ n <> EmptyString /\ n ∉ Dict.keys (_resources s) /\ _state s' = OPEN /\
            Dict.values (_resources s') = Dict.values (_resources s) ++ [mkResource n (phase r) (close r)]
  | Raise _ => s' = s /\ (_state s <> OPEN \/ n = EmptyString \/ n ∈ Dict.keys (_resources s))
  end.
Proof.
  intros [[Hn Hf] Hc]. unfold register. set (n := strip (name r)). simpl.
  destruct (decide (_state s <> OPEN)) as [|Ho]; [by split; [|split; [|left]]|].
  apply dec_stable in Ho. destruct (decide (n = "")) as [|Hne]; [by split; [|split; [|right; left]]|].
  unfold Dict.mem. destruct (Dict.get n (_resources s)) eqn:Eg.
  { split; [done|]. split; [done|]. right. right.
    apply Dict.get_Some_elem, (list_elem_of_fmap_2 fst) in Eg. done. }
  apply Dict.get_None_keys in Eg. split.
  - split; [|simpl; congruence]. simpl. split; [by apply Dict.NoDup_keys_set|].
    rewrite Dict.keys_set_new by done. apply Forall_app. split; [done|]. by repeat constructor.
  - simpl. split_and!; try done. rewrite Dict.keys_set_new by done. unfold Dict.values. by rewrite fmap_app.
Qed.

(** ** Histories of callbacks *)

(** The process that also writes down each callback and whether it returned. *)
Definition logging {Env} (call : nat -> Env -> Env * bool) (c : nat) (e : Env * list (nat * bool))
    : (Env * list (nat * bool)) * bool :=
  let (env, ok) := call c e.1 in ((env, e.2 ++ [(c, ok)]), ok).

(** The callbacks that returned. *)
Definition returned (log : list (nat * bool)) : list nat := (filter (fun e => e.2 = true) log).*1.

Definition callbacks (d : list (string * LifecycleResource)) : list nat := close <$> Dict.values d.

Lemma callbacks_pop k r d :
  NoDup (Dict.keys d) -> (k, r) ∈ d -> callbacks d ≡ₚ close r :: callbacks (Dict.pop k d).
Proof.
  unfold callbacks, Dict.values. induction d as [|[k' r'] d IH]; [by intros _ ?%not_elem_of_nil|].
  intros [Hk Hn]%NoDup_cons [[= -> ->]|Hin]%elem_of_cons; simpl.
  - rewrite decide_True by done. by rewrite Dict.pop_notin.
  - rewrite decide_False; [simpl; rewrite (IH Hn Hin); apply Permutation_swap|].
    intros ->. apply Hk. by apply (list_elem_of_fmap_2 fst) in Hin.
Qed.

Section log.
Context {Env : Type} (call : nat -> Env -> Env * bool).

Lemma close_phase_log rs e d :
  keyed d -> NoDup (name <$> rs) -> (forall r, r ∈ rs -> (name r, r) ∈ d) ->
  let '(e', d', _) := close_phase (logging call) rs e d in
  returned e'.2 ++ callbacks d' ≡ₚ returned e.2 ++ callbacks d.
Proof.
  revert e d. induction rs as [|r rs IH]; intros [env log] d Hk Hn Hin; [simpl; reflexivity|].
  apply NoDup_cons in Hn as [Hr Hn]. cbn [close_phase]. unfold logging at 1. cbn [fst snd].
  destruct (call (close r) env) as [env1 ok].
  assert (keyed (if ok then Dict.pop (name r) d else d)) as Hk1.
  { destruct ok; [|done]. rewrite pop_filter. by apply keyed_filter. }
  assert (forall x, x ∈ rs -> (name x, x) ∈ (if ok then Dict.pop (name r) d else d)) as Hin1.
  { intros x Hx. pose proof (Hin x ltac:(by right)) as Hxd. destruct ok; [|done].
    apply Dict.elem_pop. split; [|done]. intros E. apply Hr. rewrite <- E. by apply list_elem_of_fmap_2. }
  specialize (IH (env1, log ++ [(close r, ok)]) _ Hk1 Hn Hin1).
  destruct (close_phase _ rs _ _) as [[e' d'] fs]. rewrite IH. cbn [fst snd].
  unfold returned. rewrite filter_app, fmap_app. destruct ok; simpl; [|by rewrite app_nil_r].
  rewrite (callbacks_pop (name r) r d) by (apply Hk || (apply Hin; by left)).
  by rewrite <- app_assoc.
Qed.

Lemma close_loop_log fuel e d :
  keyed d ->
  let '(e', d', _, _) := close_loop (logging call) fuel e d in
  returned e'.2 ++ callbacks d' ≡ₚ returned e.2 ++ callbacks d.
Proof.
  revert e d. induction fuel as [|fuel IH]; intros e d Hk; [simpl; reflexivity|]. cbn [close_loop].
  destruct (Dict.values d) as [|r rs] eqn:Ev; [done|]. rewrite <- Ev. set (ph := min_phase r rs).
  assert (NoDup (name <$> filter (fun r => phase r = ph) (rev (Dict.values d)))) as Hn.
  { eapply sublist_NoDup; [|apply fmap_sublist, sublist_filter].
    apply (NoDup_Permutation_proper (name <$> Dict.values d)); [by rewrite <- Permutation_rev|].
    rewrite values_names by done. apply Hk. }
  assert (forall x, x ∈ filter (fun r => phase r = ph) (rev (Dict.values d)) -> (name x, x) ∈ d) as Hin.
  { intros x [_ Hx]%list_elem_of_filter. rewrite elem_of_rev' in Hx.
    apply list_elem_of_fmap in Hx as ([k y] & -> & Hx). destruct Hk as [_ Hf].
    rewrite Forall_forall in Hf. specialize (Hf _ Hx). simpl in *. by rewrite Hf. }
  pose proof (close_phase_log _ e d Hk Hn Hin) as Hlog.
  pose proof (close_phase_spec (logging call) _ e d Hn) as Hsp.
  destruct (close_phase _ _ e d) as [[e1 d1] [|f fs]]; [|done]. destruct Hsp as [_ Hd1].
  assert (keyed d1) as Hk1 by (rewrite Hd1; by apply keyed_filter).
  specialize (IH e1 d1 Hk1). destruct (close_loop _ fuel e1 d1) as [[[e2 d2] o] st].
  by rewrite IH.
Qed.

Lemma aclose_n_log n e s :
  wf s ->
  let (e', s') := aclose_n (logging call) n e s in
  wf s' /\ returned e'.2 ++ callbacks (_resources s') ≡ₚ returned e.2 ++ callbacks (_resources s).
Proof.
  revert e s. induction n as [|n IH]; intros e s Hs; [split; [done|reflexivity]|]. cbn [aclose_n].
  pose proof (aclose_wf (logging call) e s Hs) as Hwf.
  unfold aclose in *. case_decide as Hc.
  - specialize (IH e s Hs). destruct (aclose_n _ n e s). done.
  - unfold _close in *. pose proof (close_loop_log (S (length (_resources s))) e (_resources s) (proj1 Hs)) as Hl.
    destruct (close_loop _ _ e (_resources s)) as [[[e1 d1] o] st].
    specialize (IH e1 _ Hwf). destruct (aclose_n _ n e1 _) as [e2 s2]. destruct IH as [? IH].
    split; [done|]. rewrite IH. done.
Qed.
End log.

Lemma aclose_n_wf {Env} (call : nat -> Env -> Env * bool) n env s :
  wf s -> wf (aclose_n call n env s).2.
Proof.
  revert env s. induction n as [|n IH]; intros env s Hs; [done|]. simpl.
  pose proof (aclose_wf call env s Hs) as Hw. destruct (aclose call env s) as [[[e s'] o] st]. by apply IH.
Qed.

Definition register_all (rs : list LifecycleResource) (s : t) : t :=
  foldl (fun s r => (register r s).1) s rs.

Lemma register_all_wf rs s : wf s -> wf (register_all rs s).
Proof.
  revert s. induction rs as [|r rs IH]; intros s Hs; [done|]. simpl. apply IH.
  pose proof (stack_register_spec r s Hs) as H. cbv zeta in H. by destruct (register r s) as [? ?]; destruct H.
Qed.

Lemma stack_init_wf : wf init.
Proof. split; [split; constructor|done]. Qed.

(** ** Properties *)

(** shutting down what was registered closes resources in ascending phases and, inside
    a phase, in the reverse order of their registration. Every sibling of a failing
    resource is still attempted, a phase with a failure blocks every later phase, and
    what is kept for a retry is exactly the resources that failed and those of later
    phases. The stack becomes [CLOSED] exactly when nothing failed, and the shutdown
    always ends. *)
Theorem shutdown_order {Env} (call : nat -> Env -> Env * bool) rs env n :
  let '(env, s) := aclose_n call n env (register_all rs init) in
  _state s <> CLOSED ->
  let '(_, s', o, started) := aclose call env s in
  (_state s' = CLOSED <-> o = Ok tt) /\
  close_post (Dict.values (_resources s)) (Dict.values (_resources s')) started o.
Proof.
  pose proof (aclose_n_wf call n env (register_all rs init) (register_all_wf rs init stack_init_wf)) as Hn.
  destruct (aclose_n call n env _) as [env1 s]. simpl in Hn. intros Hc.
  unfold aclose. rewrite decide_False by done.
  pose proof (_close_spec call env1 s Hn) as H. destruct (_close call env1 s) as [[[? ?] ?] ?]. tauto.
Qed.

(** C16: however often shutdown is retried, the callbacks that have returned together with
    those still owned are exactly the registered ones: no callback returns twice, none is
    dropped before it returned, and a stack that reached [CLOSED] has seen every callback
    return exactly once. *)
Theorem shutdown_exactly_once {Env} (call : nat -> Env -> Env * bool) rs env n :
  let s0 := register_all rs init in
  let '(e, s) := aclose_n (logging call) n (env, []) s0 in
  returned e.2 ++ callbacks (_resources s) ≡ₚ callbacks (_resources s0) /\
  (_state s = CLOSED -> returned e.2 ≡ₚ callbacks (_resources s0)).
Proof.
  simpl. pose proof (aclose_n_log call n (env, []) _ (register_all_wf rs init stack_init_wf)) as H.
  destruct (aclose_n _ n _ _) as [e s]. destruct H as [[_ Hc] H]. split; [done|].
  intros Hcl. rewrite (Hc Hcl) in H. simpl in H. by rewrite app_nil_r in H.
Qed.

(** Registration keeps names unique and non-empty after stripping, appends in order,
    changes nothing when it refuses, and is refused as soon as shutdown has begun. *)
Lemma register_guarded {Env} (call : nat -> Env -> Env * bool) rs m env r :
  let s := (aclose_n call m env (register_all rs init)).2 in
  let n := strip (name r) in
  let (s', o) := register r s in
  NoDup (Dict.keys (_resources s')) /\
  match o with
  | Ok _ => _state s = OPEN /\ n <> EmptyString /\ n ∉ Dict.keys (_resources s) /\
            Dict.values (_resources s') = Dict.values (_resources s) ++ [mkResource n (phase r) (close r)]
  | Raise _ => s' = s /\ (_state s <> OPEN \/ n = EmptyString \/ n ∈ Dict.keys (_resources s))
  end.
Proof.
  intros s n.
  pose proof (stack_register_spec r s (aclose_n_wf call m env _ (register_all_wf rs init stack_init_wf))) as H.
  fold n in H. cbv zeta in H. destruct (register r s) as [s' [u|e]]; destruct H as [[[? _] _] H]; naive_solver.
Qed.

(** Two resources share phase 200 and the later one fails the first time. *)
Definition demo_call (c : nat) (fails : nat) : nat * bool :=
  if decide (c = 2%nat /\ fails <> 0%nat) then (pred fails, false) else (fails, true).

Definition demo : list LifecycleResource :=
  [mkResource "log" 400 0; mkResource " db " 200 1; mkResource "http" 200 2; mkResource "worker" 100 3].

Lemma shutdown_order_witness :
  let '(_, s', o, started) := aclose demo_call 1%nat (register_all demo init) in
  o = Raise (LifecycleCloseError 200 ["http"%string]) /\
  close <$> started = [3; 2; 1]%nat /\ Dict.keys (_resources s') = ["log"; "http"]%string /\
  close_post (Dict.values (_resources (register_all demo init))) (Dict.values (_resources s')) started o.
Proof.
  pose proof (shutdown_order demo_call demo 1%nat 0) as H. cbn [aclose_n] in H.
  specialize (H ltac:(vm_compute; discriminate)).
  destruct (aclose demo_call 1%nat (register_all demo init)) as [[[e s'] o] started] eqn:E.
  split_and!; [..|apply H]; clear H; vm_compute in E; injection E as <- <- <- <-; reflexivity.
Defined.

Lemma shutdown_exactly_once_witness :
  let '(e, s) := aclose_n (logging demo_call) 2 (1%nat, []) (register_all demo init) in
  _state s = CLOSED /\ returned e.2 ≡ₚ [0; 1; 2; 3]%nat.
Proof.
  pose proof (shutdown_exactly_once demo_call demo 1%nat 2) as H. cbv zeta in H.
  destruct (aclose_n _ 2 _ _) as [e s] eqn:E. destruct H as [_ H].
  assert (_state s = CLOSED) as Hc by (vm_compute in E; injection E as <- <-; reflexivity).
  split; [exact Hc|exact (H Hc)].
Defined.
End LifecycleStack.
