(* ===== verification/FairQueue.v ===== *)
(** Inference admission: the hierarchical deficit-round-robin queue
    ([runtime/inference/fair_queue.py]). Its condition variable makes every
    method one atomic step; [dequeue] is one round of its loop, which returns
    an entry, raises, or waits for a notification. *)

From S2P Require Import Prelude.

Local Open Scope Z_scope.

(** ** Lists read through their keys *)

Lemma filter_ne_perm {A} `{EqDecision A} (x : A) l :
  NoDup l -> x ∈ l -> l ≡ₚ x :: filter (fun y => y <> x) l.
Proof.
  induction 1 as [|y l Hy Hl IH]; [by intros ?%not_elem_of_nil|].
  intros [->|Hx]%elem_of_cons.
  - rewrite filter_cons_False by tauto. rewrite filter_all; [done|].
    apply Forall_forall. intros z Hz ->. done.
  - rewrite filter_cons_True by (intros ->; done). rewrite (IH Hx) at 1. apply Permutation_swap.
Qed.

Lemma concat_perm {A B} (f : A -> list B) l1 l2 : l1 ≡ₚ l2 -> concat (f <$> l1) ≡ₚ concat (f <$> l2).
Proof.
  induction 1 as [|x l1 l2 _ IH|x y l|l1 l2 l3 _ IH1 _ IH2]; simpl; [done|by rewrite IH| |by rewrite IH1].
  rewrite !app_assoc. apply Permutation_app_tail, Permutation_app_comm.
Qed.

Lemma concat_ext {A B} (f g : A -> list B) l :
  (forall x, x ∈ l -> f x = g x) -> concat (f <$> l) = concat (g <$> l).
Proof.
  intros H. f_equal. apply list_fmap_ext. intros i x Hi. apply H. by eapply list_elem_of_lookup_2.
Qed.

(** Focus on one key: the rest of the concatenation does not depend on it. *)
Lemma concat_focus {A B} `{EqDecision A} (f : A -> list B) x l :
  NoDup l -> x ∈ l ->
  concat (f <$> l) ≡ₚ f x ++ concat (f <$> filter (fun y => y <> x) l).
Proof. intros Hn Hx. by rewrite (concat_perm f _ _ (filter_ne_perm x l Hn Hx)). Qed.

Module FairAdmissionQueue.

Record QueueEntry : Type := mkEntry {
  entry_id : Z;
  tenant_id : string;
  project_id : string;
  payload : nat;
  cost_units : Z;
  priority : Z;
  enqueued_at : Z;
  deadline : Z
}.

Record _ProjectQueue : Type := mkProject {
  p_weight : Z;
  p_deficit : Z;
  entries : list QueueEntry
}.

Record _TenantQueue : Type := mkTenant {
  t_weight : Z;
  t_deficit : Z;
  projects : gmap string _ProjectQueue;
  active_projects : list string
}.

Record config : Type := mkConfig {
  _capacity : Z;
  _base_quantum : Z;
  _aging_seconds : Z
}.

Record t : Type := mk {
  _tenants : gmap string _TenantQueue;
  _active_tenants : list string;
  _cancelled : gset Z;
  _ids : Z;
  _size : Z;
  _unfinished : Z;
  _closed : bool
}.

Definition init : t := mk ∅ [] ∅ 1 0 0 false.

Inductive exn : Type :=
| QueueClosedError
| QueueFullError
| QueueDeadlineExceededError
| ValueError
| RuntimeError
| KeyError
| IndexError.

(** [__init__]'s check. *)
Definition valid_config (c : config) : bool :=
  negb ((_capacity c <=? 0) || (_base_quantum c <=? 0) || (_aging_seconds c <=? 0)).

(** [class TrustedSchedulingClass], with the bounds its contract enforces. *)
Record scheduling : Type := mkScheduling {
  s_tenant_weight : Z;
  s_project_weight : Z;
  s_priority : Z;
  s_cost_units : Z
}.

Definition valid_scheduling (s : scheduling) : bool :=
  (1 <=? s_tenant_weight s) && (s_tenant_weight s <=? 1000) &&
  (1 <=? s_project_weight s) && (s_project_weight s <=? 1000) &&
  (-100 <=? s_priority s) && (s_priority s <=? 100) && (1 <=? s_cost_units s).

Definition set_tenant (tid : string) (tn : _TenantQueue) (s : t) : t :=
  mk (<[tid := tn]> (_tenants s)) (_active_tenants s) (_cancelled s) (_ids s) (_size s)
     (_unfinished s) (_closed s).

Definition set_project (pid : string) (p : _ProjectQueue) (tn : _TenantQueue) : _TenantQueue :=
  mkTenant (t_weight tn) (t_deficit tn) (<[pid := p]> (projects tn)) (active_projects tn).

Fixpoint _remove_once (x : string) (l : list string) : list string :=
  match l with
  | [] => []
  | y :: l => if decide (y = x) then l else y :: _remove_once x l
  end.

Definition _remove_empty (tid pid : string) (s : t) : t :=
  match _tenants s !! tid with
  | None => s
  | Some tn =>
      let tn :=
        match projects tn !! pid with
        | Some p =>
            match entries p with
            | [] => mkTenant (t_weight tn) (t_deficit tn) (delete pid (projects tn))
                      (_remove_once pid (active_projects tn))
            | _ => tn
            end
        | None => tn
        end in
      if decide (projects tn = ∅)
      then mk (delete tid (_tenants s)) (_remove_once tid (_active_tenants s)) (_cancelled s) (_ids s)
             (_size s) (_unfinished s) (_closed s)
      else set_tenant tid tn s
  end.

Section queue.
Context (c : config).

(** [int(max(now - enqueued_at, 0.0) / aging_seconds)] on an integer clock. *)
Definition _effective_cost (now : Z) (e : QueueEntry) : Z :=
  let age_steps := Z.max (now - enqueued_at e) 0 / _aging_seconds c in
  let priority_credit := Z.max (priority e) 0 + age_steps in
  Z.max (cost_units e - priority_credit) 1.

(** The queues [enqueue] appends to, made when they are missing. *)
Definition enqueue_project (e : QueueEntry) (sch : scheduling) (tn : _TenantQueue)
    : outcome exn _TenantQueue :=
  match projects tn !! project_id e with
  | None =>
      Ok (mkTenant (t_weight tn) (t_deficit tn)
            (<[project_id e := mkProject (s_project_weight sch) 0 [e]]> (projects tn))
            (active_projects tn ++ [project_id e]))
  | Some p =>
      if p_weight p =? s_project_weight sch
      then Ok (set_project (project_id e) (mkProject (p_weight p) (p_deficit p) (entries p ++ [e])) tn)
      else Raise ValueError
  end.

Definition enqueue (now : Z) (pl : nat) (tid pid : string) (sch : scheduling) (dl : Z) (s : t)
    : t * outcome exn QueueEntry :=
  if bool_decide (tid = ""%string) || bool_decide (pid = ""%string) then (s, Raise ValueError)
  else if _closed s then (s, Raise QueueClosedError)
  else if dl <=? now then (s, Raise QueueDeadlineExceededError)
  else if _capacity c <=? _size s then (s, Raise QueueFullError)
  else
    let e := mkEntry (_ids s) tid pid pl (s_cost_units sch) (s_priority sch) now dl in
    let s := mk (_tenants s) (_active_tenants s) (_cancelled s) (_ids s + 1) (_size s) (_unfinished s) (_closed s) in
    match
      match _tenants s !! tid with
      | None =>
          match enqueue_project e sch (mkTenant (s_tenant_weight sch) 0 ∅ []) with
          | Ok tn => Ok (tn, _active_tenants s ++ [tid])
          | Raise x => Raise x
          end
      | Some tn =>
          if t_weight tn =? s_tenant_weight sch then
            match enqueue_project e sch tn with
            | Ok tn => Ok (tn, _active_tenants s)
            | Raise x => Raise x
            end
          else Raise ValueError
      end
    with
    | Raise x => (s, Raise x)
    | Ok (tn, active) =>
        (mk (<[tid := tn]> (_tenants s)) active (_cancelled s) (_ids s) (_size s + 1)
            (_unfinished s + 1) (_closed s), Ok e)
    end.

(** The inner [while] of [_discard_invalid_heads]: what is left of the entries and of
    the cancelled ids, and how many were dropped. *)
Fixpoint drop_heads (now : Z) (cancelled : gset Z) (es : list QueueEntry)
    : list QueueEntry * gset Z * Z :=
  match es with
  | [] => ([], cancelled, 0)
  | e :: es' =>
      if decide (entry_id e ∈ cancelled \/ deadline e <= now) then
        let '(rest, cancelled, n) := drop_heads now (cancelled ∖ {[ entry_id e ]}) es' in
        (rest, cancelled, n + 1)
      else (es, cancelled, 0)
  end.

Definition discard_project (now : Z) (tid pid : string) (s : t) : outcome exn t :=
  match _tenants s !! tid with
  | None => Raise KeyError
  | Some tn =>
      match projects tn !! pid with
      | None => Raise KeyError
      | Some p =>
          let '(rest, cancelled, n) := drop_heads now (_cancelled s) (entries p) in
          let tn := set_project pid (mkProject (p_weight p) (p_deficit p) rest) tn in
          Ok (_remove_empty tid pid
                (mk (<[tid := tn]> (_tenants s)) (_active_tenants s) cancelled (_ids s) (_size s - n)
                    (_unfinished s - n) (_closed s)))
      end
  end.

Fixpoint discard_projects (now : Z) (tid : string) (pids : list string) (s : t) : outcome exn t :=
  match pids with
  | [] => Ok s
  | pid :: pids => outcome_bind (discard_project now tid pid s) (discard_projects now tid pids)
  end.

Fixpoint discard_tenants (now : Z) (tids : list string) (s : t) : outcome exn t :=
  match tids with
  | [] => Ok s
  | tid :: tids =>
      match _tenants s !! tid with
      | None => Raise KeyError
      | Some tn => outcome_bind (discard_projects now tid (active_projects tn) s) (discard_tenants now tids)
      end
  end.

Definition _discard_invalid_heads (now : Z) (s : t) : outcome exn t :=
  discard_tenants now (_active_tenants s) s.

(** The [for] loop of [_select_project]; each costing reads the clock. *)
Fixpoint select_project_loop (n : nat) (clk : readings) (tn : _TenantQueue)
    : outcome exn (readings * _TenantQueue * option QueueEntry) :=
  match n with
  | O => Ok (clk, tn, None)
  | S n =>
      match active_projects tn with
      | [] => Ok (clk, tn, None)
      | pid :: rest =>
          match projects tn !! pid with
          | None => Raise KeyError
          | Some p =>
              let deficit := p_deficit p + _base_quantum c * p_weight p in
              match entries p with
              | [] => Raise IndexError
              | e :: _ =>
                  let tn := mkTenant (t_weight tn) (t_deficit tn)
                              (<[pid := mkProject (p_weight p) deficit (entries p)]> (projects tn))
                              (rest ++ [pid]) in
                  if _effective_cost (clk 0%nat) e <=? deficit
                  then Ok (later 1 clk, tn, Some e)
                  else select_project_loop n (later 1 clk) tn
              end
          end
      end
  end.

Definition _select_project (clk : readings) (tn : _TenantQueue)
    : outcome exn (readings * _TenantQueue * option QueueEntry) :=
  select_project_loop (Nat.max (length (active_projects tn)) 1) clk tn.

(** Taking the selected entry [e] of tenant [tid] off its queue, for [cost]. *)
Definition take (tid : string) (e : QueueEntry) (cost : Z) (tn : _TenantQueue) (s : t)
    : outcome exn (t * QueueEntry) :=
  match projects tn !! project_id e with
  | None => Raise KeyError
  | Some p =>
      match entries p with
      | [] => Raise IndexError
      | _ :: es =>
          let tn := mkTenant (t_weight tn) (t_deficit tn - cost)
                      (<[project_id e := mkProject (p_weight p) (p_deficit p - cost) es]> (projects tn))
                      (active_projects tn) in
          Ok (_remove_empty (tenant_id e) (project_id e)
                (mk (<[tid := tn]> (_tenants s)) (_active_tenants s) (_cancelled s) (_ids s)
                    (_size s - 1) (_unfinished s) (_closed s)), e)
      end
  end.

Fixpoint select_loop (n : nat) (clk : readings) (s : t) : outcome exn (t * option QueueEntry) :=
  match n with
  | O => Ok (s, None)
  | S n =>
      match _active_tenants s with
      | [] => Ok (s, None)
      | tid :: rest =>
          match _tenants s !! tid with
          | None => Raise KeyError
          | Some tn =>
              let tn := mkTenant (t_weight tn) (t_deficit tn + _base_quantum c * t_weight tn)
                          (projects tn) (active_projects tn) in
              match _select_project clk tn with
              | Raise x => Raise x
              | Ok (clk, tn, r) =>
                  let s := mk (<[tid := tn]> (_tenants s)) (rest ++ [tid]) (_cancelled s) (_ids s)
                             (_size s) (_unfinished s) (_closed s) in
                  match r with
                  | None => select_loop n clk s
                  | Some e =>
                      let cost := _effective_cost (clk 0%nat) e in
                      if t_deficit tn <? cost then select_loop n (later 1 clk) s
                      else match take tid e cost tn s with
                           | Ok (s, e) => Ok (s, Some e)
                           | Raise x => Raise x
                           end
                  end
              end
          end
      end
  end.

Definition rounds (s : t) : nat :=
  Z.to_nat (Z.max (Z.max (_size s * 2) (Z.of_nat (length (_active_tenants s)))) 1).

Definition _select (clk : readings) (s : t) : outcome exn (t * option QueueEntry) :=
  select_loop (rounds s) clk s.

(** One round of [dequeue]'s loop: an entry, or [None] when it waits. *)
Definition dequeue (clk : readings) (s : t) : t * outcome exn (option QueueEntry) :=
  match _discard_invalid_heads (clk 0%nat) s with
  | Raise x => (s, Raise x)
  | Ok s =>
      match (if decide (_size s = 0) then Ok (s, None) else _select (later 1 clk) s) with
      | Raise x => (s, Raise x)
      | Ok (s, Some e) => (s, Ok (Some e))
      | Ok (s, None) => (s, if _closed s then Raise QueueClosedError else Ok None)
      end
  end.

Definition cancel (now : Z) (id : Z) (s : t) : t * outcome exn bool :=
  if id <=? 0 then (s, Ok false)
  else
    let s := mk (_tenants s) (_active_tenants s) ({[ id ]} ∪ _cancelled s) (_ids s) (_size s)
               (_unfinished s) (_closed s) in
    match _discard_invalid_heads now s with
    | Raise x => (s, Raise x)
    | Ok s' => (s', Ok (_size s' <? _size s))
    end.

Definition close (s : t) : t :=
  mk (_tenants s) (_active_tenants s) (_cancelled s) (_ids s) (_size s) (_unfinished s) true.

Definition task_done (s : t) : t * outcome exn unit :=
  if _unfinished s <=? 0 then (s, Raise RuntimeError)
  else (mk (_tenants s) (_active_tenants s) (_cancelled s) (_ids s) (_size s) (_unfinished s - 1) (_closed s), Ok tt).
End queue.

(** Two concrete runs: round robin, and an entry dearer than the rounds afford. *)
Definition cfg : config := mkConfig 10 1 30.
Definition unit_cost : scheduling := mkScheduling 1 1 0 1.
Definition offer (tid : string) (pl : nat) (sch : scheduling) (s : t) : t :=
  fst (enqueue cfg 0 pl tid "p" sch 100 s).
Fixpoint serve (n : nat) (s : t) : list nat :=
  match n with
  | O => []
  | S n => match dequeue cfg (fun _ => 0) s with
           | (s, Ok (Some e)) => payload e :: serve n s
           | _ => []
           end
  end.

Example serves_round_robin :
  serve 5 (offer "b" 4 unit_cost (offer "a" 3 unit_cost (offer "a" 2 unit_cost (offer "a" 1 unit_cost init))))
  = [1; 4; 2; 3]%nat.
Proof. reflexivity. Qed.

(** The queue holds one valid entry, and the consumer that asks for it waits. *)
Example dear_entry_stalls :
  let s := offer "a" 1 (mkScheduling 1 1 0 3) init in
  _size s = 1 /\ snd (dequeue cfg (fun _ => 0) s) = Ok None.
Proof. split; reflexivity. Qed.

(** A tenant of weight 1000 gets the same turns as one of weight 1. *)
Example weights_do_not_share :
  let a := mkScheduling 1000 1 0 1 in
  serve 5 (offer "b" 12 unit_cost (offer "b" 11 unit_cost (offer "a" 3 a (offer "a" 2 a (offer "a" 1 a init)))))
  = [1; 11; 2; 12; 3]%nat.
Proof. reflexivity. Qed.

(** ** The invariant *)

Definition project_entries (tn : _TenantQueue) (pid : string) : list QueueEntry :=
  match projects tn !! pid with Some p => entries p | None => [] end.

Definition tenant_entries (s : t) (tid : string) : list QueueEntry :=
  match _tenants s !! tid with
  | Some tn => concat (project_entries tn <$> active_projects tn)
  | None => []
  end.

(** Every entry in the queue. *)
Definition queued (s : t) : list QueueEntry := concat (tenant_entries s <$> _active_tenants s).

Definition id_lt (e1 e2 : QueueEntry) : Prop := entry_id e1 < entry_id e2.

Record wf_project (tid pid : string) (p : _ProjectQueue) : Prop := {
  wp_weight : 1 <= p_weight p;
  wp_deficit : 0 <= p_deficit p;
  wp_nonempty : entries p <> [];
  wp_owner : Forall (fun e => tenant_id e = tid /\ project_id e = pid) (entries p);
  wp_sorted : StronglySorted id_lt (entries p)
}.

(** A list of keys enumerates a map. *)
Definition enumerates {A} (l : list string) (m : gmap string A) : Prop :=
  NoDup l /\ forall k, k ∈ l <-> is_Some (m !! k).

Record wf_tenant (tid : string) (tn : _TenantQueue) : Prop := {
  wt_weight : 1 <= t_weight tn;
  wt_deficit : 0 <= t_deficit tn;
  wt_active : enumerates (active_projects tn) (projects tn);
  wt_nonempty : projects tn <> ∅;
  wt_projects : map_Forall (wf_project tid) (projects tn)
}.

(** The shape of the queue, whatever its counters say. *)
Record shape (s : t) : Prop := {
  sh_active : enumerates (_active_tenants s) (_tenants s);
  sh_tenants : map_Forall wf_tenant (_tenants s);
  sh_ids : Forall (fun e => entry_id e < _ids s) (queued s)
}.

Lemma remove_once_filter x l : NoDup l -> _remove_once x l = filter (fun y => y <> x) l.
Proof.
  induction 1 as [|y l Hy Hl IH]; [done|]. simpl. case_decide.
  - subst. rewrite filter_cons_False by tauto. rewrite filter_all; [done|].
    apply Forall_forall. intros z Hz ->. done.
  - rewrite filter_cons_True by done. by rewrite IH.
Qed.

Lemma enumerates_update {A} l (m : gmap string A) k v :
  k ∈ l -> enumerates l m -> enumerates l (<[k := v]> m).
Proof.
  intros Hk [Hn He]. split; [done|]. intros k'. rewrite He. destruct (decide (k = k')) as [<-|].
  - rewrite lookup_insert_eq. rewrite <- He. split; [by eexists|done].
  - by rewrite lookup_insert_ne.
Qed.

Lemma enumerates_add {A} l (m : gmap string A) k v :
  m !! k = None -> enumerates l m -> enumerates (l ++ [k]) (<[k := v]> m).
Proof.
  intros Hk [Hn He]. split.
  - apply NoDup_app. split_and!; [done| |apply NoDup_singleton].
    intros x Hx ->%list_elem_of_singleton. apply He in Hx. rewrite Hk in Hx. by destruct Hx.
  - intros k'. rewrite elem_of_app, list_elem_of_singleton, He. destruct (decide (k = k')) as [<-|].
    + rewrite lookup_insert_eq. split; [by eexists|by right].
    + rewrite lookup_insert_ne by done. split; [intros [?|?]; congruence|by left].
Qed.

Lemma enumerates_delete {A} l (m : gmap string A) k :
  enumerates l m -> enumerates (_remove_once k l) (delete k m).
Proof.
  intros [Hn He]. rewrite remove_once_filter by done. split.
  - eapply sublist_NoDup; [exact Hn|apply sublist_filter].
  - intros k'. rewrite list_elem_of_filter, He. destruct (decide (k = k')) as [<-|].
    + rewrite lookup_delete_eq. split; [tauto|by intros [? ?]].
    + rewrite lookup_delete_ne by done. split; [tauto|split; congruence].
Qed.

Lemma enumerates_perm {A} l l' (m : gmap string A) : l ≡ₚ l' -> enumerates l m -> enumerates l' m.
Proof.
  intros Hp [Hn He]. split; [by rewrite <- Hp|]. intros k. by rewrite <- Hp.
Qed.

(** What a tenant holds besides one project, and the queue besides one tenant. *)
Definition other_projects (pid : string) (tn : _TenantQueue) : list QueueEntry :=
  concat (project_entries tn <$> filter (fun y => y <> pid) (active_projects tn)).
Definition other_tenants (tid : string) (s : t) : list QueueEntry :=
  concat (tenant_entries s <$> filter (fun y => y <> tid) (_active_tenants s)).

Lemma queued_focus s tid tn :
  enumerates (_active_tenants s) (_tenants s) -> _tenants s !! tid = Some tn ->
  queued s ≡ₚ concat (project_entries tn <$> active_projects tn) ++ other_tenants tid s.
Proof.
  intros [Hn He] Ht. unfold queued. rewrite (concat_focus _ tid) by (done || (apply He; by eexists)).
  unfold tenant_entries at 1. by rewrite Ht.
Qed.

Lemma tenant_focus tn pid p :
  enumerates (active_projects tn) (projects tn) -> projects tn !! pid = Some p ->
  concat (project_entries tn <$> active_projects tn) ≡ₚ entries p ++ other_projects pid tn.
Proof.
  intros [Hn He] Hp. rewrite (concat_focus _ pid) by (done || (apply He; by eexists)).
  unfold project_entries at 1. by rewrite Hp.
Qed.

(** Two states that agree off tenant [tid] hold the same beside it. *)
Lemma other_tenants_ext tid s s' :
  (forall k, k <> tid -> _tenants s' !! k = _tenants s !! k) ->
  filter (fun y => y <> tid) (_active_tenants s') ≡ₚ filter (fun y => y <> tid) (_active_tenants s) ->
  other_tenants tid s' ≡ₚ other_tenants tid s.
Proof.
  intros Hk Hf. unfold other_tenants. rewrite (concat_perm _ _ _ Hf). erewrite concat_ext; [done|].
  intros x [Hx _]%list_elem_of_filter. unfold tenant_entries. by rewrite Hk.
Qed.

Lemma other_projects_ext pid tn tn' :
  (forall k, k <> pid -> projects tn' !! k = projects tn !! k) ->
  filter (fun y => y <> pid) (active_projects tn') ≡ₚ filter (fun y => y <> pid) (active_projects tn) ->
  other_projects pid tn' ≡ₚ other_projects pid tn.
Proof.
  intros Hk Hf. unfold other_projects. rewrite (concat_perm _ _ _ Hf). erewrite concat_ext; [done|].
  intros x [Hx _]%list_elem_of_filter. unfold project_entries. by rewrite Hk.
Qed.

Lemma filter_remove_once x l : NoDup l -> filter (fun y => y <> x) (_remove_once x l) = filter (fun y => y <> x) l.
Proof.
  intros Hn. rewrite remove_once_filter by done. rewrite list_filter_filter.
  apply filter_ext_in. intros; tauto.
Qed.

(** *** Replacing the entries of one project

    [drop_heads] and [take] rewrite one project's entries and call [_remove_empty]. *)
Definition rewrite_project (tid pid : string) (tn : _TenantQueue) (p : _ProjectQueue) (s : t) : t :=
  _remove_empty tid pid (set_tenant tid (set_project pid p tn) s).

(** The project may have become empty; everything else is as the invariant wants. *)
Record rewritable (tid pid : string) (tn : _TenantQueue) (p : _ProjectQueue) (s : t) : Prop := {
  rw_active : enumerates (_active_tenants s) (_tenants s);
  rw_tenant : tid ∈ _active_tenants s;
  rw_others : forall k tn', k <> tid -> _tenants s !! k = Some tn' -> wf_tenant k tn';
  rw_weight : 1 <= t_weight tn;
  rw_deficit : 0 <= t_deficit tn;
  rw_enum : enumerates (active_projects tn) (projects tn);
  rw_project : pid ∈ active_projects tn;
  rw_projects : forall k p', k <> pid -> projects tn !! k = Some p' -> wf_project tid k p';
  rw_new : entries p = [] \/ wf_project tid pid p
}.

(** The tenant once its project was rewritten, and dropped if it became empty. *)
Definition shrink_tenant (pid : string) (p : _ProjectQueue) (tn : _TenantQueue) : _TenantQueue :=
  match entries p with
  | [] => mkTenant (t_weight tn) (t_deficit tn) (delete pid (<[pid := p]> (projects tn)))
            (_remove_once pid (active_projects tn))
  | _ => set_project pid p tn
  end.

Lemma shrink_tenant_wf tid pid tn p s :
  rewritable tid pid tn p s ->
  let tn1 := shrink_tenant pid p tn in
  1 <= t_weight tn1 /\ 0 <= t_deficit tn1 /\
  enumerates (active_projects tn1) (projects tn1) /\ map_Forall (wf_project tid) (projects tn1).
Proof.
  intros [Ha Hta Hot Hw Hd Hen Hpid Hop Hnew]. unfold shrink_tenant.
  split_and!; [by case_match..| |].
  - case_match; simpl; [by apply enumerates_delete, enumerates_update|by apply enumerates_update].
  - intros k p' Hk. case_match eqn:Ee; simpl in Hk.
    + apply lookup_delete_Some in Hk as [Hne Hk]. rewrite lookup_insert_ne in Hk by done. by eapply Hop.
    + destruct (decide (pid = k)) as [<-|Hne].
      * rewrite lookup_insert_eq in Hk. simplify_eq. destruct Hnew; [congruence|done].
      * rewrite lookup_insert_ne in Hk by done. by eapply Hop.
Qed.

Lemma shrink_tenant_entries pid tn p :
  enumerates (active_projects tn) (projects tn) -> pid ∈ active_projects tn ->
  let tn1 := shrink_tenant pid p tn in
  concat (project_entries tn1 <$> active_projects tn1) ≡ₚ entries p ++ other_projects pid tn.
Proof.
  intros Hen Hpid. cbv zeta. unfold shrink_tenant. destruct (entries p) as [|e es] eqn:Ee.
  - unfold other_projects. cbn [active_projects app].
    rewrite remove_once_filter by (by destruct Hen). erewrite concat_ext; [done|].
    intros x [Hx _]%list_elem_of_filter. unfold project_entries; simpl.
    by rewrite lookup_delete_ne, lookup_insert_ne.
  - rewrite (tenant_focus (set_project pid p tn) pid p);
      [|by apply enumerates_update|apply lookup_insert_eq].
    rewrite Ee. apply Permutation_app_head, other_projects_ext; [|done].
    intros k Hk. simpl. by rewrite lookup_insert_ne.
Qed.

Lemma no_projects_no_entries tn :
  enumerates (active_projects tn) (projects tn) -> projects tn = ∅ ->
  concat (project_entries tn <$> active_projects tn) = [].
Proof.
  intros [_ Hi] Hemp. destruct (active_projects tn) as [|x l]; [done|].
  destruct (proj1 (Hi x) ltac:(left)) as [y Hy]. by rewrite Hemp in Hy.
Qed.

Lemma rewrite_project_spec tid pid tn p s :
  rewritable tid pid tn p s ->
  let s' := rewrite_project tid pid tn p s in
  enumerates (_active_tenants s') (_tenants s') /\ map_Forall wf_tenant (_tenants s') /\
  queued s' ≡ₚ entries p ++ other_projects pid tn ++ other_tenants tid s /\
  _size s' = _size s /\ _unfinished s' = _unfinished s /\ _ids s' = _ids s /\
  _cancelled s' = _cancelled s /\ _closed s' = _closed s.
Proof.
  intros Hrw. destruct (shrink_tenant_wf _ _ _ _ _ Hrw) as (Hw1 & Hd1 & Hen1 & Hwp1).
  destruct Hrw as [Ha Hta Hot Hw Hd Hen Hpid Hop Hnew].
  pose proof (shrink_tenant_entries pid tn p Hen Hpid) as Hq1. cbv zeta in *.
  unfold rewrite_project, _remove_empty, set_tenant. cbn [_tenants]. rewrite lookup_insert_eq.
  cbn [projects set_project t_weight t_deficit active_projects]. rewrite lookup_insert_eq.
  fold (set_project pid p tn). fold (shrink_tenant pid p tn).
  set (tn1 := shrink_tenant pid p tn) in *. clearbody tn1.
  destruct (decide (projects tn1 = ∅)) as [Hemp|Hne]; cbn [_tenants _active_tenants _size _unfinished _ids _cancelled _closed]; split_and!; try done.
  - by apply enumerates_delete, enumerates_update.
  - intros k tn' Hk. apply lookup_delete_Some in Hk as [Hne Hk].
    rewrite lookup_insert_ne in Hk by done. by eapply Hot.
  - rewrite app_assoc, <- Hq1, no_projects_no_entries by done. cbn [app].
    unfold queued, other_tenants; cbn [_active_tenants].
    rewrite remove_once_filter by (by destruct Ha). erewrite concat_ext; [done|].
    intros x [Hx _]%list_elem_of_filter. unfold tenant_entries; cbn [_tenants].
    by rewrite lookup_delete_ne, lookup_insert_ne.
  - rewrite insert_insert_eq. by apply enumerates_update.
  - rewrite insert_insert_eq. intros k tn' Hk. destruct (decide (tid = k)) as [<-|].
    + rewrite lookup_insert_eq in Hk. simplify_eq. by split.
    + rewrite lookup_insert_ne in Hk by done. by eapply Hot.
  - rewrite app_assoc, <- Hq1, insert_insert_eq. erewrite (queued_focus _ tid tn1);
      [|by apply enumerates_update|apply lookup_insert_eq].
    apply Permutation_app_head, other_tenants_ext; [|done]. intros k Hk. cbn [_tenants].
    by rewrite lookup_insert_ne.
Qed.

Definition get_project (s : t) (tid pid : string) : option _ProjectQueue :=
  match _tenants s !! tid with Some tn => projects tn !! pid | None => None end.

Lemma shrink_tenant_lookup pid tn p k :
  projects (shrink_tenant pid p tn) !! k =
    if decide (k = pid) then match entries p with [] => None | _ => Some p end else projects tn !! k.
Proof.
  unfold shrink_tenant. case_decide as Hk.
  - subst. case_match; simpl; [by rewrite lookup_delete_eq|by rewrite lookup_insert_eq].
  - case_match; simpl; [rewrite lookup_delete_ne by done|]; by rewrite lookup_insert_ne.
Qed.

Lemma rewrite_project_frame tid pid tn p s k q :
  _tenants s !! tid = Some tn ->
  get_project (rewrite_project tid pid tn p s) k q =
    if decide (k = tid /\ q = pid) then match entries p with [] => None | _ => Some p end
    else get_project s k q.
Proof.
  intros Ht. unfold rewrite_project, _remove_empty, set_tenant. cbn [_tenants]. rewrite lookup_insert_eq.
  cbn [projects set_project t_weight t_deficit active_projects]. rewrite lookup_insert_eq.
  fold (set_project pid p tn). fold (shrink_tenant pid p tn).
  pose proof (shrink_tenant_lookup pid tn p q) as Hl. set (tn1 := shrink_tenant pid p tn) in *. clearbody tn1.
  destruct (decide (projects tn1 = ∅)) as [Hemp|Hne]; unfold get_project; cbn [_tenants];
    destruct (decide (k = tid)) as [->|Hk].
  - rewrite lookup_delete_eq. rewrite Hemp, lookup_empty in Hl. rewrite Ht.
    destruct (decide (q = pid)); [rewrite decide_True by done|rewrite decide_False by tauto]; done.
  - rewrite lookup_delete_ne, lookup_insert_ne by done. by rewrite decide_False by tauto.
  - rewrite lookup_insert_eq, Ht, Hl.
    destruct (decide (q = pid)); [rewrite decide_True by done|rewrite decide_False by tauto]; done.
  - rewrite !lookup_insert_ne by done. by rewrite decide_False by tauto.
Qed.

Lemma rewritable_shape s tid tn pid p0 p :
  shape s -> _tenants s !! tid = Some tn -> projects tn !! pid = Some p0 ->
  (entries p = [] \/ wf_project tid pid p) -> rewritable tid pid tn p s.
Proof.
  intros [Ha Ht _] Htn Hp Hnew. destruct (Ht _ _ Htn) as [Hw Hd Hen Hne Hps]. split; try done.
  - apply Ha. by eexists.
  - intros k tn' _ Hk. by apply Ht.
  - apply Hen. by eexists.
  - intros k p' _ Hk. by apply Hps.
Qed.

(** *** Dropping invalid entries *)

Definition invalid (now : Z) (cancelled : gset Z) (e : QueueEntry) : Prop :=
  entry_id e ∈ cancelled \/ deadline e <= now.

Definition ids (l : list QueueEntry) : gset Z := list_to_set (entry_id <$> l).

Lemma drop_heads_spec now c es :
  StronglySorted id_lt es ->
  let '(rest, c', n) := drop_heads now c es in
  exists dropped, es = dropped ++ rest /\ n = Z.of_nat (length dropped) /\
    Forall (invalid now c) dropped /\ c' = c ∖ ids dropped /\
    match rest with [] => True | e :: _ => ~ invalid now c' e end.
Proof.
  revert c. induction es as [|e es IH]; intros c Hs; simpl.
  { exists []. split_and!; try done. unfold ids. set_solver. }
  apply StronglySorted_inv in Hs as [Hs He]. case_decide as Hi.
  - specialize (IH (c ∖ {[ entry_id e ]}) Hs).
    destruct (drop_heads now _ es) as [[rest c'] n]. destruct IH as (d & -> & -> & Hd & -> & Hr).
    exists (e :: d). split_and!; [done|simpl; lia| | |].
    + constructor; [done|]. eapply Forall_impl; [exact Hd|]. unfold invalid. set_solver.
    + unfold ids. rewrite fmap_cons, list_to_set_cons. set_solver.
    + done.
  - exists []. split_and!; try done. unfold ids. set_solver.
Qed.

(** Some queued entries were dropped, and nothing else happened. *)
Record discards (now : Z) (s s' : t) (dropped : list QueueEntry) : Prop := {
  di_shape : shape s';
  di_queued : queued s ≡ₚ dropped ++ queued s';
  di_size : _size s' = _size s - Z.of_nat (length dropped);
  di_unfinished : _unfinished s' = _unfinished s - Z.of_nat (length dropped);
  di_ids : _ids s' = _ids s;
  di_closed : _closed s' = _closed s;
  di_cancelled : _cancelled s' = _cancelled s ∖ ids dropped;
  di_invalid : Forall (invalid now (_cancelled s)) dropped
}.

Lemma discards_refl now s : shape s -> discards now s s [].
Proof. intros. split; try done; [simpl; lia..|unfold ids; set_solver]. Qed.

Lemma discards_trans now s1 s2 s3 d1 d2 :
  discards now s1 s2 d1 -> discards now s2 s3 d2 -> discards now s1 s3 (d1 ++ d2).
Proof.
  intros [] []. split; try done.
  - by rewrite di_queued0, di_queued1, app_assoc.
  - rewrite length_app. lia.
  - rewrite length_app. lia.
  - congruence.
  - congruence.
  - rewrite di_cancelled1, di_cancelled0. unfold ids. rewrite fmap_app, list_to_set_app_L. set_solver.
  - apply Forall_app. split; [done|]. eapply Forall_impl; [exact di_invalid1|].
    unfold invalid. rewrite di_cancelled0. set_solver.
Qed.

(** The head of a project, if there is one, may be served. *)
Definition head_valid (now : Z) (s : t) (tid pid : string) : Prop :=
  forall p e es, get_project s tid pid = Some p -> entries p = e :: es -> ~ invalid now (_cancelled s) e.

Lemma get_project_wf s tid pid p :
  shape s -> get_project s tid pid = Some p ->
  wf_project tid pid p /\ exists tn, _tenants s !! tid = Some tn /\ projects tn !! pid = Some p.
Proof.
  intros [_ Ht _] Hp. unfold get_project in Hp. destruct (_tenants s !! tid) as [tn|] eqn:E; [|done].
  split; [by apply (Ht _ _ E)|by eauto].
Qed.

Lemma wf_project_suffix tid pid p d rest :
  wf_project tid pid p -> entries p = d ++ rest ->
  rest = [] \/ wf_project tid pid (mkProject (p_weight p) (p_deficit p) rest).
Proof.
  intros [] E. destruct rest as [|e rest]; [by left|right]. split; simpl; try done.
  - rewrite E in wp_owner0. by apply Forall_app in wp_owner0 as [_ ?].
  - rewrite E in wp_sorted0. eapply StronglySorted_sublist; [|exact wp_sorted0]. by apply sublist_inserts_l.
Qed.

Lemma shape_subset s s' d :
  enumerates (_active_tenants s') (_tenants s') -> map_Forall wf_tenant (_tenants s') ->
  queued s ≡ₚ d ++ queued s' -> _ids s' = _ids s -> shape s -> shape s'.
Proof.
  intros Ha Ht Hq Hi [_ _ Hids]. split; [done..|]. rewrite Hi. rewrite Hq in Hids.
  by apply Forall_app in Hids as [_ ?].
Qed.

Lemma discard_project_spec now tid pid s :
  shape s -> is_Some (get_project s tid pid) ->
  exists s' d, discard_project now tid pid s = Ok s' /\ discards now s s' d /\
    head_valid now s' tid pid /\
    forall k q, ~ (k = tid /\ q = pid) -> get_project s' k q = get_project s k q.
Proof.
  intros Hs [p Hp]. destruct (get_project_wf _ _ _ _ Hs Hp) as (Hwp & tn & Ht & Hpr).
  unfold discard_project. rewrite Ht, Hpr.
  pose proof (drop_heads_spec now (_cancelled s) (entries p) (wp_sorted _ _ _ Hwp)) as Hd.
  destruct (drop_heads now (_cancelled s) (entries p)) as [[rest c'] n].
  destruct Hd as (d & Ed & -> & Hinv & -> & Hhead).
  set (p' := mkProject (p_weight p) (p_deficit p) rest).
  set (s0 := mk (_tenants s) (_active_tenants s) (_cancelled s ∖ ids d) (_ids s)
               (_size s - Z.of_nat (length d)) (_unfinished s - Z.of_nat (length d)) (_closed s)).
  change (_remove_empty tid pid _) with (rewrite_project tid pid tn p' s0).
  assert (shape s0) as Hs0 by (by destruct Hs).
  assert (rewritable tid pid tn p' s0) as Hrw.
  { apply (rewritable_shape s0 tid tn pid p p' Hs0 Ht Hpr). by eapply wf_project_suffix. }
  destruct (rewrite_project_spec tid pid tn p' s0 Hrw) as (H1 & H2 & H3 & H4 & H5 & H6 & H7 & H8).
  assert (queued s ≡ₚ d ++ queued (rewrite_project tid pid tn p' s0)) as Hq.
  { rewrite H3. rewrite (queued_focus s tid tn) by (apply Hs || done).
    rewrite (tenant_focus tn pid p) by (apply (sh_tenants _ Hs _ _ Ht) || done).
    rewrite Ed, <- !app_assoc. done. }
  eexists _, d. split; [done|]. split_and!.
  - split; try done. eapply shape_subset; [done..|exact Hq|by rewrite H6|done].
  - intros p1 e es Hp1 He. rewrite (rewrite_project_frame tid pid tn p' s0) in Hp1 by done.
    rewrite decide_True in Hp1 by done. simpl in Hp1. destruct rest as [|e' rest]; simplify_eq.
    rewrite H7. simpl. by simplify_eq/=.
  - intros k q Hne. rewrite (rewrite_project_frame tid pid tn p' s0) by done. by rewrite decide_False.
Qed.

Lemma head_valid_frame now s s' d tid pid :
  discards now s s' d -> get_project s' tid pid = get_project s tid pid ->
  head_valid now s tid pid -> head_valid now s' tid pid.
Proof.
  intros [] Hg Hh p e es Hp He. rewrite Hg in Hp. specialize (Hh p e es Hp He).
  unfold invalid in *. rewrite di_cancelled0. set_solver.
Qed.

Lemma discard_projects_spec now tid pids s :
  shape s -> NoDup pids -> (forall pid, pid ∈ pids -> is_Some (get_project s tid pid)) ->
  exists s' d, discard_projects now tid pids s = Ok s' /\ discards now s s' d /\
    (forall pid, pid ∈ pids -> head_valid now s' tid pid) /\
    forall k q, ~ (k = tid /\ q ∈ pids) -> get_project s' k q = get_project s k q.
Proof.
  revert s. induction pids as [|pid pids IH]; intros s Hs Hn Hin.
  { exists s, []. split_and!; [done|by apply discards_refl|by intros ? ?%not_elem_of_nil|done]. }
  apply NoDup_cons in Hn as [Hnin Hn].
  destruct (discard_project_spec now tid pid s Hs (Hin pid ltac:(left))) as (s1 & d1 & E1 & D1 & V1 & F1).
  destruct (IH s1 (di_shape _ _ _ _ D1) Hn) as (s2 & d2 & E2 & D2 & V2 & F2).
  { intros q Hq. rewrite F1 by (intros [_ ->]; done). apply Hin. by right. }
  exists s2, (d1 ++ d2). simpl. rewrite E1; simpl. split_and!; [done|by eapply discards_trans| |].
  - intros q [->|Hq]%elem_of_cons; [|by apply V2].
    eapply head_valid_frame; [exact D2|apply F2; tauto|done].
  - intros k q Hne. rewrite F2, F1; [done|..]; rewrite elem_of_cons in Hne; naive_solver.
Qed.

Definition all_heads_valid (now : Z) (s : t) : Prop := forall tid pid, head_valid now s tid pid.

Lemma discard_tenants_spec now tids s :
  shape s -> NoDup tids -> (forall tid, tid ∈ tids -> is_Some (_tenants s !! tid)) ->
  exists s' d, discard_tenants now tids s = Ok s' /\ discards now s s' d /\
    (forall tid pid, tid ∈ tids -> head_valid now s' tid pid) /\
    forall k q, k ∉ tids -> get_project s' k q = get_project s k q.
Proof.
  revert s. induction tids as [|tid tids IH]; intros s Hs Hn Hin.
  { exists s, []. split_and!; [done|by apply discards_refl|by intros ? ? ?%not_elem_of_nil|done]. }
  apply NoDup_cons in Hn as [Hnin Hn].
  destruct (Hin tid ltac:(left)) as [tn Ht]. destruct (sh_tenants _ Hs _ _ Ht) as [_ _ Hen _ _].
  assert (forall pid, is_Some (get_project s tid pid) <-> pid ∈ active_projects tn) as Hget.
  { intros pid. unfold get_project. rewrite Ht. symmetry. apply Hen. }
  destruct (discard_projects_spec now tid (active_projects tn) s Hs) as (s1 & d1 & E1 & D1 & V1 & F1).
  { apply Hen. }
  { intros pid. apply Hget. }
  destruct (IH s1 (di_shape _ _ _ _ D1) Hn) as (s2 & d2 & E2 & D2 & V2 & F2).
  { intros k Hk. assert (k <> tid) as Hne by (intros ->; done).
    destruct (Hin k ltac:(by right)) as [tk Hk'].
    (* the tenant has a project, which is still there *)
    destruct (sh_tenants _ Hs _ _ Hk') as [_ _ _ Hk0 _]. apply map_choose in Hk0 as (q & p & Hq).
    assert (get_project s1 k q = Some p) as Hg.
    { rewrite F1 by tauto. unfold get_project. by rewrite Hk'. }
    unfold get_project in Hg. destruct (_tenants s1 !! k); [by eexists|done]. }
  exists s2, (d1 ++ d2). simpl. rewrite Ht, E1; simpl. split_and!; [done|by eapply discards_trans| |].
  - intros k pid [->|Hk]%elem_of_cons; [|by apply V2].
    eapply head_valid_frame; [exact D2|by apply F2|].
    destruct (decide (pid ∈ active_projects tn)) as [Hp|Hp]; [by apply V1|].
    intros p e es Hg. exfalso. rewrite F1 in Hg by tauto. apply Hp, Hget. by eexists.
  - intros k q Hne. rewrite not_elem_of_cons in Hne. rewrite F2, F1; tauto.
Qed.

Lemma discard_spec now s :
  shape s ->
  exists s' d, _discard_invalid_heads now s = Ok s' /\ discards now s s' d /\ all_heads_valid now s'.
Proof.
  intros Hs. destruct (sh_active _ Hs) as [Hn He].
  destruct (discard_tenants_spec now (_active_tenants s) s Hs Hn) as (s' & d & E & D & V & F).
  { intros tid. apply He. }
  exists s', d. split_and!; [done|done|]. intros tid pid.
  destruct (decide (tid ∈ _active_tenants s)) as [Hin|Hin]; [by apply V|].
  intros p e es Hg. exfalso. rewrite F in Hg by done. apply Hin, He.
  unfold get_project in Hg. destruct (_tenants s !! tid); [by eexists|done].
Qed.

(** *** Selecting an entry *)

(** A tenant whose projects were only turned and credited. *)
Record turned (tid : string) (tn tn' : _TenantQueue) : Prop := {
  tu_wf : wf_tenant tid tn';
  tu_weight : t_weight tn' = t_weight tn;
  tu_deficit : t_deficit tn' = t_deficit tn;
  tu_active : active_projects tn' ≡ₚ active_projects tn;
  tu_entries : forall q, project_entries tn' q = project_entries tn q
}.

Lemma turned_trans tid tn1 tn2 tn3 : turned tid tn1 tn2 -> turned tid tn2 tn3 -> turned tid tn1 tn3.
Proof.
  intros [] []. split; [done|congruence|congruence|by rewrite tu_active1|].
  intros q. by rewrite tu_entries1.
Qed.

(** A queue whose tenants were only turned and credited. *)
Record rotated (s s' : t) : Prop := {
  ro_shape : shape s';
  ro_queued : queued s ≡ₚ queued s';
  ro_project : forall k q p', get_project s' k q = Some p' ->
                 exists p, get_project s k q = Some p /\ entries p = entries p';
  ro_counters : (_cancelled s', _ids s', _size s', _unfinished s', _closed s') =
                (_cancelled s, _ids s, _size s, _unfinished s, _closed s)
}.

Lemma rotated_refl s : shape s -> rotated s s.
Proof. split; eauto. Qed.

Lemma rotated_trans s1 s2 s3 : rotated s1 s2 -> rotated s2 s3 -> rotated s1 s3.
Proof.
  intros [] []. split; [done|by etrans| |congruence].
  intros k q p' Hp. destruct (ro_project1 _ _ _ Hp) as (p2 & Hp2 & E2).
  destruct (ro_project0 _ _ _ Hp2) as (p1 & Hp1 & E1). exists p1. split; congruence.
Qed.

Section selection.
Context (c : config) (Hc : valid_config c = true).
#[local] Set Default Proof Using "All".

Lemma config_pos : 0 < _capacity c /\ 0 < _base_quantum c /\ 0 < _aging_seconds c.
Proof.
  unfold valid_config in Hc. apply negb_true_iff in Hc. clear - Hc.
  repeat (apply orb_false_iff in Hc as [Hc ?]). zbool. lia.
Qed.

(** Waiting only makes an entry cheaper. *)
Lemma effective_cost_later t1 t2 e :
  t1 <= t2 -> _effective_cost c t2 e <= _effective_cost c t1 e.
Proof.
  intros H. destruct config_pos as (_ & _ & Ha). unfold _effective_cost.
  assert (Z.max (t1 - enqueued_at e) 0 / _aging_seconds c <= Z.max (t2 - enqueued_at e) 0 / _aging_seconds c)
    by (apply Z.div_le_mono; lia). lia.
Qed.

Lemma effective_cost_pos now e : 1 <= _effective_cost c now e.
Proof. unfold _effective_cost. lia. Qed.

(** One visit to the first project credits it and turns it to the back. *)
Definition visit_project (pid : string) (rest : list string) (p : _ProjectQueue) (tn : _TenantQueue) : _TenantQueue :=
  mkTenant (t_weight tn) (t_deficit tn)
    (<[pid := mkProject (p_weight p) (p_deficit p + _base_quantum c * p_weight p) (entries p)]> (projects tn))
    (rest ++ [pid]).

Lemma visit_project_turned tid tn pid rest p :
  wf_tenant tid tn -> active_projects tn = pid :: rest -> projects tn !! pid = Some p ->
  turned tid tn (visit_project pid rest p tn).
Proof.
  intros [Hw Hd Hen Hne Hps] Ha Hp. destruct config_pos as (_ & Hq & _).
  pose proof (Hps _ _ Hp) as [Hpw Hpd Hpn Hpo Hpss].
  assert (rest ++ [pid] ≡ₚ active_projects tn) as Hperm by (rewrite Ha; symmetry; apply Permutation_cons_append).
  assert (pid ∈ active_projects tn) as Hin by (rewrite Ha; left).
  split; simpl; try done.
  - split; simpl; try done.
    + apply (enumerates_perm (active_projects tn)); [done|]. by apply enumerates_update.
    + apply insert_non_empty.
    + apply map_Forall_insert_2; [|done]. split; simpl; try done. nia.
  - intros q. unfold project_entries; simpl. destruct (decide (pid = q)) as [<-|].
    + by rewrite lookup_insert_eq, Hp.
    + by rewrite lookup_insert_ne.
Qed.

Lemma select_project_loop_spec n clk tid tn :
  monotone clk -> wf_tenant tid tn ->
  exists clk' tn' r, select_project_loop c n clk tn = Ok (clk', tn', r) /\
    turned tid tn tn' /\ monotone clk' /\
    match r with
    | None => True
    | Some e => exists p es, projects tn' !! project_id e = Some p /\ entries p = e :: es /\
                  tenant_id e = tid /\ _effective_cost c (clk' 0%nat) e <= p_deficit p
    end.
Proof.
  revert clk tn. induction n as [|n IH]; intros clk tn Hclk Hwf; simpl.
  { exists clk, tn, None. split_and!; try done. }
  destruct (active_projects tn) as [|pid rest] eqn:Ea; [exists clk, tn, None; by split_and!|].
  assert (is_Some (projects tn !! pid)) as [p Hp].
  { apply (wt_active _ _ Hwf). rewrite Ea. left. }
  rewrite Hp. pose proof (visit_project_turned tid tn pid rest p Hwf Ea Hp) as Hv.
  destruct (wt_projects _ _ Hwf _ _ Hp) as [Hpw Hpd Hpn Hpo Hpss].
  destruct (entries p) as [|e es] eqn:Ee; [done|]. apply Forall_cons in Hpo as [[Eo1 Eo2] _].
  pose proof (monotone_later 1 clk Hclk) as Hclk'.
  rewrite <- Ee. fold (visit_project pid rest p tn).
  destruct (_effective_cost c (clk 0%nat) e <=? _) eqn:Ecost.
  - eexists _, _, _. split_and!; [done|done|done|]. eexists _, es. simpl. rewrite Eo2, lookup_insert_eq.
    split_and!; [done|done|done|]. simpl. zbool. etrans; [|exact Ecost].
    apply effective_cost_later. apply Hclk. lia.
  - destruct (IH (later 1 clk) _ Hclk' (tu_wf _ _ _ Hv)) as (clk2 & tn2 & r & -> & Ht & Hclk2 & Hr).
    exists clk2, tn2, r. split_and!; [done|by eapply turned_trans|done|done].
Qed.

(** The tenant visited by [_select], turned to the back. *)
Definition visit_tenant (tid : string) (rest : list string) (tn : _TenantQueue) (s : t) : t :=
  mk (<[tid := tn]> (_tenants s)) (rest ++ [tid]) (_cancelled s) (_ids s) (_size s) (_unfinished s) (_closed s).

Definition credit (tn : _TenantQueue) : _TenantQueue :=
  mkTenant (t_weight tn) (t_deficit tn + _base_quantum c * t_weight tn) (projects tn) (active_projects tn).

Lemma credit_wf tid tn : wf_tenant tid tn -> wf_tenant tid (credit tn).
Proof. intros [Hw Hd ? ? ?]. destruct config_pos as (_ & Hq & _). split; simpl; try done. nia. Qed.

Lemma visit_tenant_rotated s tid rest tn tn' :
  shape s -> _active_tenants s = tid :: rest -> _tenants s !! tid = Some tn ->
  turned tid (credit tn) tn' -> rotated s (visit_tenant tid rest tn' s).
Proof.
  intros Hs Ha Ht [Hwf _ _ Hact Hent]. destruct Hs as [Hen Hts Hids].
  assert (rest ++ [tid] ≡ₚ _active_tenants s) as Hperm by (rewrite Ha; symmetry; apply Permutation_cons_append).
  assert (tid ∈ _active_tenants s) as Hin by (rewrite Ha; left).
  assert (enumerates (rest ++ [tid]) (<[tid := tn']> (_tenants s))) as Hen'.
  { apply (enumerates_perm (_active_tenants s)); [done|]. by apply enumerates_update. }
  assert (queued s ≡ₚ queued (visit_tenant tid rest tn' s)) as Hq.
  { rewrite (queued_focus s tid tn) by done.
    rewrite (queued_focus (visit_tenant tid rest tn' s) tid tn') by (done || apply lookup_insert_eq).
    apply Permutation_app.
    - rewrite (concat_perm _ _ _ Hact). simpl. erewrite concat_ext; [done|]. intros q _. symmetry. apply Hent.
    - symmetry. apply other_tenants_ext; simpl; [intros; by rewrite lookup_insert_ne|by rewrite Hperm]. }
  split; [split|..]; try done.
  - simpl. by apply map_Forall_insert_2.
  - simpl. by rewrite <- Hq.
  - intros k q p' Hp. unfold get_project in *; simpl in Hp. destruct (decide (tid = k)) as [<-|].
    + rewrite lookup_insert_eq in Hp. specialize (Hent q). unfold project_entries in Hent. rewrite Hp in Hent.
      rewrite Ht. simpl in Hent. destruct (projects tn !! q) as [p|]; [by exists p|].
      destruct (wt_projects _ _ Hwf _ _ Hp) as [_ _ Hn _ _]. done.
    + rewrite lookup_insert_ne in Hp by done. rewrite Hp. by exists p'.
Qed.

(** What a selection that returns [e] did. *)
Record served_one (s s' : t) (e : QueueEntry) : Prop := {
  so_shape : shape s';
  so_queued : queued s ≡ₚ e :: queued s';
  so_head : exists p es, get_project s (tenant_id e) (project_id e) = Some p /\ entries p = e :: es;
  so_counters : (_cancelled s', _ids s', _size s', _unfinished s', _closed s') =
                (_cancelled s, _ids s, _size s - 1, _unfinished s, _closed s)
}.

Lemma take_spec s tid tn e p es cost :
  shape s -> _tenants s !! tid = Some tn -> tenant_id e = tid ->
  projects tn !! project_id e = Some p -> entries p = e :: es ->
  cost <= t_deficit tn -> cost <= p_deficit p ->
  exists s', take tid e cost tn s = Ok (s', e) /\ served_one s s' e.
Proof.
  intros Hs Ht He Hp Ee Hc1 Hc2. unfold take. rewrite Hp, Ee, He.
  set (p' := mkProject (p_weight p) (p_deficit p - cost) es).
  set (tn0 := mkTenant (t_weight tn) (t_deficit tn - cost) (projects tn) (active_projects tn)).
  set (s0 := mk (_tenants s) (_active_tenants s) (_cancelled s) (_ids s) (_size s - 1) (_unfinished s) (_closed s)).
  change (_remove_empty tid (project_id e) _) with (rewrite_project tid (project_id e) tn0 p' s0).
  pose proof (sh_tenants _ Hs _ _ Ht) as [Hw Hd Hen Hne Hps]. pose proof (Hps _ _ Hp) as Hwp.
  assert (rewritable tid (project_id e) tn0 p' s0) as Hrw.
  { split; simpl; try done.
    - apply Hs.
    - apply Hs. by eexists.
    - intros k tn' _ Hk. by apply Hs.
    - lia.
    - apply Hen. by eexists.
    - intros k p1 _ Hk. by apply Hps.
    - destruct (wf_project_suffix tid (project_id e) p [e] es Hwp Ee) as [|[? ? ? ? ?]]; [by left|right].
      split; simpl in *; try done. lia. }
  destruct (rewrite_project_spec _ _ _ _ _ Hrw) as (H1 & H2 & H3 & H4 & H5 & H6 & H7 & H8).
  assert (queued s ≡ₚ e :: queued (rewrite_project tid (project_id e) tn0 p' s0)) as Hq.
  { rewrite H3. rewrite (queued_focus s tid tn) by (apply Hs || done).
    rewrite (tenant_focus tn (project_id e) p) by done. rewrite Ee. simpl. by rewrite <- app_assoc. }
  eexists. split; [done|]. split.
  - eapply (shape_subset s _ [e]); [done|done|exact Hq|by rewrite H6|done].
  - done.
  - exists p, es. unfold get_project. by rewrite He, Ht.
  - by rewrite H4, H5, H6, H7, H8.
Qed.

Lemma served_after_rotation s s1 s2 e : rotated s s1 -> served_one s1 s2 e -> served_one s s2 e.
Proof.
  intros [] []. split; [done|by rewrite ro_queued0| |congruence].
  destruct so_head0 as (p1 & es & Hp1 & E). destruct (ro_project0 _ _ _ Hp1) as (p & Hp & E').
  exists p, es. split; congruence.
Qed.

Lemma select_loop_spec n clk s :
  monotone clk -> shape s ->
  exists s' r, select_loop c n clk s = Ok (s', r) /\
    match r with None => rotated s s' | Some e => served_one s s' e end.
Proof.
  revert clk s. induction n as [|n IH]; intros clk s Hclk Hs; simpl.
  { exists s, None. split; [done|by apply rotated_refl]. }
  destruct (_active_tenants s) as [|tid rest] eqn:Ea.
  { exists s, None. split; [done|by apply rotated_refl]. }
  destruct (proj1 (proj2 (sh_active _ Hs) tid) ltac:(rewrite Ea; left)) as [tn Ht]. rewrite Ht.
  fold (credit tn). pose proof (credit_wf tid tn (sh_tenants _ Hs _ _ Ht)) as Hcr. unfold _select_project.
  destruct (select_project_loop_spec (Nat.max (length (active_projects (credit tn))) 1) clk tid (credit tn) Hclk Hcr)
    as (clk1 & tn1 & r & -> & Htu & Hclk1 & Hr).
  pose proof (visit_tenant_rotated s tid rest tn tn1 Hs Ea Ht Htu) as Hro.
  fold (visit_tenant tid rest tn1 s). set (s1 := visit_tenant tid rest tn1 s) in *.
  assert (forall clk2, monotone clk2 -> exists s' r, select_loop c n clk2 s1 = Ok (s', r) /\
            match r with None => rotated s s' | Some e => served_one s s' e end) as Hcont.
  { intros clk2 Hclk2. destruct (IH clk2 s1 Hclk2 (ro_shape _ _ Hro)) as (s' & r' & E & Hpost).
    exists s', r'. split; [done|]. destruct r'; [by eapply served_after_rotation|by eapply rotated_trans]. }
  destruct r as [e|]; [|by apply Hcont].
  destruct (t_deficit tn1 <? _) eqn:Ed; [apply Hcont; by apply monotone_later|].
  destruct Hr as (p & es & Hp & Ee & He & Hcost). zbool.
  destruct (take_spec s1 tid tn1 e p es (_effective_cost c (clk1 0%nat) e)) as (s' & -> & Hso);
    [apply Hro|apply lookup_insert_eq|done..|].
  exists s', (Some e). split; [done|]. by eapply served_after_rotation.
Qed.
End selection.

(** *** Accepting an entry *)

Lemma other_tenants_new s s' tid :
  tid ∉ _active_tenants s -> (forall k, k <> tid -> _tenants s' !! k = _tenants s !! k) ->
  _active_tenants s' = _active_tenants s ++ [tid] -> other_tenants tid s' ≡ₚ queued s.
Proof.
  intros Hn Hk Ha. unfold other_tenants, queued. rewrite Ha, filter_app, (filter_all _ (_active_tenants s)).
  - rewrite filter_cons_False by tauto. rewrite filter_nil, app_nil_r. erewrite concat_ext; [done|].
    intros x Hx. unfold tenant_entries. rewrite Hk; [done|]. intros ->. done.
  - apply Forall_forall. intros x Hx ->. done.
Qed.

Lemma enqueue_project_spec tid e sch tn tn' :
  valid_scheduling sch = true -> tenant_id e = tid ->
  1 <= t_weight tn -> 0 <= t_deficit tn -> enumerates (active_projects tn) (projects tn) ->
  map_Forall (wf_project tid) (projects tn) ->
  Forall (fun x => id_lt x e) (concat (project_entries tn <$> active_projects tn)) ->
  enqueue_project e sch tn = Ok tn' ->
  wf_tenant tid tn' /\
  concat (project_entries tn' <$> active_projects tn') ≡ₚ e :: concat (project_entries tn <$> active_projects tn).
Proof.
  intros Hsch He Hw Hd Hen Hps Hlt E. unfold enqueue_project in E.
  assert (1 <= s_project_weight sch) as Hpw by (unfold valid_scheduling in Hsch; zbool; done).
  destruct (projects tn !! project_id e) as [p|] eqn:Hp.
  - destruct (p_weight p =? s_project_weight sch) eqn:Ew; simplify_eq. zbool.
    assert (project_id e ∈ active_projects tn) as Hin by (apply Hen; by eexists).
    destruct (Hps _ _ Hp) as [Hpw' Hpd Hpn Hpo Hpss].
    rewrite (tenant_focus tn _ p) in Hlt by done. apply Forall_app in Hlt as [Hlt _].
    split; [split; simpl; try done|].
    + by apply enumerates_update.
    + apply insert_non_empty.
    + apply map_Forall_insert_2; [|done]. split; simpl; try done.
      * by destruct (entries p).
      * apply Forall_app. split; [done|]. by repeat constructor.
      * by apply StronglySorted_snoc.
    + rewrite (tenant_focus (set_project _ _ tn) (project_id e) (mkProject (p_weight p) (p_deficit p) (entries p ++ [e])));
        [|by apply enumerates_update|apply lookup_insert_eq].
      rewrite (tenant_focus tn (project_id e) p) by done. simpl.
      rewrite (other_projects_ext (project_id e) tn (set_project _ _ tn)); [| |done].
      * rewrite <- app_assoc. simpl. by rewrite <- Permutation_middle.
      * intros k Hk. simpl. by rewrite lookup_insert_ne.
  - simplify_eq. split; [split; simpl; try done|].
    + by apply enumerates_add.
    + apply insert_non_empty.
    + apply map_Forall_insert_2; [|done]. split; simpl; try done; repeat constructor.
    + cbn [active_projects]. rewrite fmap_app, concat_app. simpl. unfold project_entries at 2; simpl.
      rewrite lookup_insert_eq. simpl. rewrite <- Permutation_cons_append. constructor.
      erewrite concat_ext; [done|]. intros q Hq. unfold project_entries; simpl.
      rewrite lookup_insert_ne; [done|]. intros <-. apply Hen in Hq. rewrite Hp in Hq. by destruct Hq.
Qed.

(** What an enqueue that returned [o] did. *)
Definition enqueued (c : config) (now : Z) (tid pid : string) (dl : Z) (s s' : t) (o : outcome exn QueueEntry) : Prop :=
  shape s' /\ _cancelled s' = _cancelled s /\ _closed s' = _closed s /\ _ids s <= _ids s' /\
  match o with
  | Raise _ => queued s' = queued s /\ _size s' = _size s /\ _unfinished s' = _unfinished s
  | Ok e => queued s' ≡ₚ e :: queued s /\ _size s' = _size s + 1 /\ _unfinished s' = _unfinished s + 1 /\
            entry_id e = _ids s /\ _ids s' = _ids s + 1 /\ tenant_id e = tid /\ project_id e = pid /\
            now < deadline e /\ _size s < _capacity c
  end.

Lemma enqueue_spec c now pl tid pid sch dl s :
  shape s -> valid_scheduling sch = true ->
  let (s', o) := enqueue c now pl tid pid sch dl s in enqueued c now tid pid dl s s' o.
Proof.
  intros Hs Hsch. unfold enqueue, enqueued.
  destruct (bool_decide (tid = ""%string) || bool_decide (pid = ""%string)); [by split_and!|].
  destruct (_closed s) eqn:Ecl; [by split_and!|]. destruct (dl <=? now) eqn:Edl; [by split_and!|].
  destruct (_capacity c <=? _size s) eqn:Ecap; [by split_and!|]. zbool.
  set (e := mkEntry (_ids s) tid pid pl (s_cost_units sch) (s_priority sch) now dl).
  set (s0 := mk (_tenants s) (_active_tenants s) (_cancelled s) (_ids s + 1) (_size s) (_unfinished s) false).
  cbn [_tenants _active_tenants s0]. destruct Hs as [Hen Hts Hids].
  assert (Forall (fun x => id_lt x e) (queued s)) as Hlt by done.
  assert (shape s0) as Hs0.
  { split; [done|done|]. eapply Forall_impl; [exact Hids|]. simpl. lia. }
  assert (1 <= s_tenant_weight sch) as Htw by (unfold valid_scheduling in Hsch; zbool; done).
  assert (forall tn active, enumerates active (<[tid := tn]> (_tenants s)) -> wf_tenant tid tn ->
    queued (mk (<[tid := tn]> (_tenants s)) active (_cancelled s) (_ids s + 1) (_size s + 1) (_unfinished s + 1) false)
      ≡ₚ e :: queued s ->
    shape (mk (<[tid := tn]> (_tenants s)) active (_cancelled s) (_ids s + 1) (_size s + 1) (_unfinished s + 1) false))
    as Hnew.
  { intros tn active H1 H2 H3. split; [done|by apply map_Forall_insert_2|]. rewrite H3. constructor; [simpl; lia|].
    eapply Forall_impl; [exact Hids|]. simpl. lia. }
  destruct (_tenants s !! tid) as [tn|] eqn:Ht.
  - destruct (t_weight tn =? s_tenant_weight sch) eqn:Ew; [|by split_and!; [exact Hs0|done|done|simpl; lia|..]].
    destruct (enqueue_project e sch tn) as [tn'|x] eqn:Ee; [|by split_and!; [exact Hs0|done|done|simpl; lia|..]].
    destruct (Hts _ _ Ht) as [Hw Hd Hep Hne Hps].
    assert (tid ∈ _active_tenants s) as Hin by (apply Hen; by eexists).
    rewrite (queued_focus s tid tn) in Hlt by done. apply Forall_app in Hlt as [Hlt _].
    destruct (enqueue_project_spec tid e sch tn tn') as [Hwf Hq]; try done.
    assert (enumerates (_active_tenants s) (<[tid := tn']> (_tenants s))) as Hen' by (by apply enumerates_update).
    match goal with |- shape ?s1 /\ _ => assert (queued s1 ≡ₚ e :: queued s) as Hq1 end.
    { rewrite (queued_focus _ tid tn') by (done || apply lookup_insert_eq). cbn [active_projects].
      rewrite Hq, (queued_focus s tid tn) by done. simpl. constructor. apply Permutation_app_head.
      apply other_tenants_ext; simpl; [intros; by rewrite lookup_insert_ne|done]. }
    split_and!; try done; [by apply Hnew|simpl; lia].
  - destruct (enqueue_project e sch (mkTenant (s_tenant_weight sch) 0 ∅ [])) as [tn'|x] eqn:Ee;
      [|by split_and!; [exact Hs0|done|done|simpl; lia|..]].
    assert (tid ∉ _active_tenants s) as Hin by (intros [? Hx]%Hen; congruence).
    destruct (enqueue_project_spec tid e sch (mkTenant (s_tenant_weight sch) 0 ∅ []) tn') as [Hwf Hq]; try done.
    { split; [constructor|]. intros k. simpl. rewrite lookup_empty. split; [by intros ?%not_elem_of_nil|by intros [? ?]]. }
    assert (enumerates (_active_tenants s ++ [tid]) (<[tid := tn']> (_tenants s))) as Hen' by (by apply enumerates_add).
    match goal with |- shape ?s1 /\ _ => assert (queued s1 ≡ₚ e :: queued s) as Hq1 end.
    { rewrite (queued_focus _ tid tn') by (done || apply lookup_insert_eq). rewrite Hq. simpl. constructor.
      apply other_tenants_new; simpl; [done|intros; by rewrite lookup_insert_ne|done]. }
    split_and!; try done; [by apply Hnew|simpl; lia].
Qed.

(** *** Dequeueing *)

(** What a dequeue at [now] that returned [o] did. *)
Definition dequeued (now : Z) (s s' : t) (o : outcome exn (option QueueEntry)) : Prop :=
  exists s1 d, discards now s s1 d /\ all_heads_valid now s1 /\
  match o with
  | Ok (Some e) => served_one s1 s' e
  | Ok None => rotated s1 s' /\ _closed s = false
  | Raise x => x = QueueClosedError /\ rotated s1 s' /\ _closed s = true
  end.

Lemma dequeue_spec c clk s :
  valid_config c = true -> monotone clk -> shape s ->
  let (s', o) := dequeue c clk s in dequeued (clk 0%nat) s s' o.
Proof.
  intros Hc Hclk Hs. unfold dequeue, dequeued.
  destruct (discard_spec (clk 0%nat) s Hs) as (s1 & d & -> & Hd & Hv).
  assert (forall s2, rotated s1 s2 -> _closed s2 = _closed s) as Hcl.
  { intros s2 [_ _ _ E]. destruct Hd. congruence. }
  assert (exists s2 r, (if decide (_size s1 = 0) then Ok (s1, None) else _select c (later 1 clk) s1) = Ok (s2, r) /\
    match r with None => rotated s1 s2 | Some e => served_one s1 s2 e end) as (s2 & r & -> & Hr).
  { case_decide; [exists s1, None; split; [done|by apply rotated_refl; destruct Hd]|].
    apply select_loop_spec; [done|by apply monotone_later|by destruct Hd]. }
  destruct r as [e|]; [by exists s1, d|].
  specialize (Hcl s2 Hr). exists s1, d. destruct (_closed s2); by split_and!.
Qed.

Lemma cancel_spec now id s :
  shape s ->
  let (s', o) := cancel now id s in
  is_ok o = true /\
  exists d, discards now (if id <=? 0 then s else
    mk (_tenants s) (_active_tenants s) ({[ id ]} ∪ _cancelled s) (_ids s) (_size s) (_unfinished s) (_closed s)) s' d.
Proof.
  intros Hs. unfold cancel. destruct (id <=? 0).
  { split; [done|]. exists []. by apply discards_refl. }
  match goal with |- context [_discard_invalid_heads now ?x] => set (s0 := x) end.
  assert (shape s0) as Hs0 by (by destruct Hs).
  destruct (discard_spec now s0 Hs0) as (s1 & d & -> & Hd & _). split; [done|]. by exists d.
Qed.

Lemma elem_of_concat_fmap {A B} (f : A -> list B) l x :
  x ∈ concat (f <$> l) -> exists a, a ∈ l /\ x ∈ f a.
Proof.
  induction l as [|a l IH]; [by intros ?%not_elem_of_nil|]. simpl. intros [Hx|Hx]%elem_of_app.
  - exists a. split; [left|done].
  - destruct (IH Hx) as (b & ? & ?). exists b. split; [by right|done].
Qed.

(** An entry of the queue is in the queue of its own project. *)
Lemma queued_project s e :
  shape s -> e ∈ queued s ->
  exists p, get_project s (tenant_id e) (project_id e) = Some p /\ e ∈ entries p /\
            StronglySorted id_lt (entries p).
Proof.
  intros [Hen Hts _] He. unfold queued in He.
  apply elem_of_concat_fmap in He as (tid & _ & He).
  unfold tenant_entries in He. destruct (_tenants s !! tid) as [tn|] eqn:Ht; [|by apply not_elem_of_nil in He].
  apply elem_of_concat_fmap in He as (pid & _ & He).
  unfold project_entries in He. destruct (projects tn !! pid) as [p|] eqn:Hp; [|by apply not_elem_of_nil in He].
  destruct (wt_projects _ _ (Hts _ _ Ht) _ _ Hp) as [_ _ _ Ho Hss].
  rewrite Forall_forall in Ho. destruct (Ho e He) as [-> ->].
  exists p. unfold get_project. by rewrite Ht.
Qed.

Lemma served_first s s' e x :
  shape s -> served_one s s' e -> x ∈ queued s' ->
  tenant_id x = tenant_id e -> project_id x = project_id e -> NoDup (entry_id <$> queued s) ->
  id_lt e x.
Proof.
  intros Hs [Hs' Hq (p & es & Hp & Ee) _] Hx E1 E2 Hn.
  assert (x ∈ queued s) as Hxs by (rewrite Hq; by right).
  destruct (queued_project s x Hs Hxs) as (p' & Hp' & Hin & Hss). rewrite E1, E2, Hp in Hp'. simplify_eq.
  rewrite Ee in Hin, Hss. apply elem_of_cons in Hin as [->|Hin].
  - rewrite Hq in Hn. simpl in Hn. apply NoDup_cons in Hn as [Hn _]. destruct Hn. by apply list_elem_of_fmap_2.
  - apply StronglySorted_inv in Hss as [_ Hlt]. rewrite Forall_forall in Hlt. by apply Hlt.
Qed.

(** ** Histories *)

(** A queue with what it accepted and served so far, in order, the [task_done]s that
    succeeded, the ids ever cancelled and the clock readings of its operations. *)
Record world : Type := mkWorld {
  q : t;
  accepted : list QueueEntry;
  served : list QueueEntry;
  finished : Z;
  cancels : gset Z;
  nows : list Z
}.

Inductive op : Type :=
| Enqueue (now : Z) (pl : nat) (tid pid : string) (sch : scheduling) (dl : Z)
| Dequeue (clk : readings)
| Cancel (now id : Z)
| Close
| TaskDone.

(** What the callers and the event loop's clock guarantee. *)
Definition op_ok (o : op) : Prop :=
  match o with
  | Enqueue _ _ _ _ sch _ => valid_scheduling sch = true
  | Dequeue clk => monotone clk
  | _ => True
  end.

Definition run_op (c : config) (o : op) (w : world) : world :=
  match o with
  | Enqueue now pl tid pid sch dl =>
      let (s, r) := enqueue c now pl tid pid sch dl (q w) in
      mkWorld s (match r with Ok e => accepted w ++ [e] | Raise _ => accepted w end)
        (served w) (finished w) (cancels w) (now :: nows w)
  | Dequeue clk =>
      let (s, r) := dequeue c clk (q w) in
      mkWorld s (accepted w) (match r with Ok (Some e) => served w ++ [e] | _ => served w end)
        (finished w) (cancels w) (clk 0%nat :: nows w)
  | Cancel now id =>
      mkWorld (fst (cancel now id (q w))) (accepted w) (served w) (finished w)
        (if id <=? 0 then cancels w else {[ id ]} ∪ cancels w) (now :: nows w)
  | Close => mkWorld (close (q w)) (accepted w) (served w) (finished w) (cancels w) (nows w)
  | TaskDone =>
      let (s, r) := task_done (q w) in
      mkWorld s (accepted w) (served w) (if is_ok r then finished w + 1 else finished w) (cancels w) (nows w)
  end.

Definition run (c : config) (l : list op) : world :=
  foldl (fun w o => run_op c o w) (mkWorld init [] [] 0 ∅ []) l.

Definition same_project (e1 e2 : QueueEntry) : Prop :=
  tenant_id e1 = tenant_id e2 /\ project_id e1 = project_id e2.

(** Why an entry may be dropped: it was cancelled, or some reading was past its deadline. *)
Definition droppable (w : world) (e : QueueEntry) : Prop :=
  entry_id e ∈ cancels w \/ exists n, n ∈ nows w /\ deadline e <= n.

Record winv (c : config) (w : world) (dropped : list QueueEntry) : Prop := {
  wi_shape : shape (q w);
  wi_conserved : accepted w ≡ₚ served w ++ dropped ++ queued (q w);
  wi_dropped : Forall (droppable w) dropped;
  wi_cancelled : _cancelled (q w) ⊆ cancels w /\ cancels w ⊆ _cancelled (q w) ∪ ids dropped;
  wi_size : _size (q w) = Z.of_nat (length (queued (q w)));
  wi_bound : _size (q w) <= Z.max 0 (_capacity c);
  wi_unfinished : _unfinished (q w) = _size (q w) + Z.of_nat (length (served w)) - finished w;
  wi_accepted : StronglySorted id_lt (accepted w);
  wi_ids : Forall (fun e => entry_id e < _ids (q w)) (accepted w);
  wi_fifo : forall tid pid, StronglySorted id_lt
              (filter (fun e => tenant_id e = tid /\ project_id e = pid) (served w));
  wi_first : forall e x, e ∈ served w -> x ∈ queued (q w) -> same_project e x -> id_lt e x
}.

Lemma sorted_ids_NoDup l : StronglySorted id_lt l -> NoDup (entry_id <$> l).
Proof.
  induction 1 as [|e l _ IH He]; simpl; [constructor|]. constructor; [|done].
  intros Hin. apply list_elem_of_fmap in Hin as (x & E & Hx). rewrite Forall_forall in He.
  specialize (He x Hx). unfold id_lt in He. lia.
Qed.

Lemma winv_nodup c w d : winv c w d -> NoDup (entry_id <$> served w ++ d ++ queued (q w)).
Proof. intros []. rewrite <- wi_conserved0. by apply sorted_ids_NoDup. Qed.

(** Entries that leave the queue without being served. *)
Lemma winv_discard c w d now s1 d1 nows' cancels' :
  winv c w d -> discards now (q w) s1 d1 ->
  cancels' = cancels w -> nows' = now :: nows w ->
  winv c (mkWorld s1 (accepted w) (served w) (finished w) cancels' nows') (d ++ d1).
Proof.
  intros [] [] -> ->. split; simpl; try done.
  - rewrite wi_conserved0, di_queued0. by rewrite <- !app_assoc.
  - apply Forall_app. split; eapply Forall_impl; try done.
    + intros e [He|(n & Hn & He)]; [by left|right]. exists n. split; [by right|done].
    + intros e [He|He]; [left|right; exists now; split; [left|done]].
      set_solver.
  - rewrite di_cancelled0. unfold ids in *. rewrite fmap_app, list_to_set_app_L.
    revert wi_cancelled0. generalize (list_to_set (C := gset Z) (entry_id <$> d)), (list_to_set (C := gset Z) (entry_id <$> d1)).
    intros D D1 [Hc1 Hc2]. split; [set_solver|].
    intros x Hx. destruct (decide (x ∈ D1)); set_solver.
  - rewrite di_size0, wi_size0, di_queued0, length_app. lia.
  - lia.
  - rewrite di_unfinished0, wi_unfinished0. lia.
  - by rewrite di_ids0.
  - intros e x He Hx. apply wi_first0; [done|]. rewrite di_queued0, elem_of_app. by right.
Qed.

Lemma winv_rotate c w d s1 :
  winv c w d -> rotated (q w) s1 ->
  winv c (mkWorld s1 (accepted w) (served w) (finished w) (cancels w) (nows w)) d.
Proof.
  intros [] [Hs Hq _ E]. injection E as E1 E2 E3 E4 E5. split; simpl; try done.
  - by rewrite wi_conserved0, Hq.
  - by rewrite E1.
  - by rewrite E3, wi_size0, Hq.
  - lia.
  - rewrite E4, E3. done.
  - by rewrite E2.
  - intros e x He Hx. apply wi_first0; [done|]. by rewrite Hq.
Qed.

Lemma winv_serve c w d s1 e :
  winv c w d -> served_one (q w) s1 e ->
  winv c (mkWorld s1 (accepted w) (served w ++ [e]) (finished w) (cancels w) (nows w)) d.
Proof.
  intros Hw Hso. pose proof Hso as Hso'. pose proof (winv_nodup _ _ _ Hw) as Hn. destruct Hw, Hso as [Hs Hq Hh E].
  injection E as E1 E2 E3 E4 E5.
  assert (NoDup (entry_id <$> queued (q w))) as Hnq.
  { rewrite !fmap_app in Hn. apply NoDup_app in Hn as (_ & _ & Hn). by apply NoDup_app in Hn as (_ & _ & Hn). }
  assert (e ∈ queued (q w)) as Heq by (rewrite Hq; left).
  split; simpl; try done.
  - rewrite wi_conserved0, Hq, <- app_assoc. simpl. apply Permutation_app_head.
    by rewrite <- Permutation_middle.
  - by rewrite E1.
  - rewrite E3, wi_size0, Hq. simpl. lia.
  - lia.
  - rewrite E4, wi_unfinished0, E3, length_app. simpl. lia.
  - by rewrite E2.
  - intros tid pid. rewrite filter_app. destruct (decide (tenant_id e = tid /\ project_id e = pid)) as [[<- <-]|Hne].
    + rewrite filter_cons_True by done. rewrite filter_nil. apply StronglySorted_snoc; [done|].
      apply Forall_forall. intros x [[Hx1 Hx2] Hx]%list_elem_of_filter. by apply wi_first0.
    + rewrite filter_cons_False by done. by rewrite filter_nil, app_nil_r.
  - intros e' x He Hx Hp. rewrite elem_of_app, list_elem_of_singleton in He. destruct He as [He| ->].
    + apply wi_first0; [done| |done]. rewrite Hq. by right.
    + destruct Hp as [P1 P2]. by apply (served_first (q w) s1 e x).
Qed.

Lemma winv_now c w d n :
  winv c w d -> winv c (mkWorld (q w) (accepted w) (served w) (finished w) (cancels w) (n :: nows w)) d.
Proof.
  intros []. split; try done. eapply Forall_impl; [done|].
  intros e [He|(m & Hm & He)]; [by left|right]. exists m. split; [by right|done].
Qed.

Lemma winv_enqueue c w d now tid pid dl s1 r :
  winv c w d -> enqueued c now tid pid dl (q w) s1 r ->
  winv c (mkWorld s1 (match r with Ok e => accepted w ++ [e] | Raise _ => accepted w end)
            (served w) (finished w) (cancels w) (nows w)) d.
Proof.
  intros [] (Hs & Hcn & Hcl & Hids & Hr). destruct r as [e|x].
  - destruct Hr as (Hq & Hsz & Hun & Hid & Hids' & _ & _ & _ & Hcap). split; simpl; try done.
    + rewrite wi_conserved0, Hq, <- !app_assoc. do 2 apply Permutation_app_head.
      symmetry. apply Permutation_cons_append.
    + by rewrite Hcn.
    + rewrite Hsz, wi_size0, Hq. simpl. lia.
    + lia.
    + rewrite Hun, Hsz, wi_unfinished0. lia.
    + apply StronglySorted_snoc; [done|]. eapply Forall_impl; [exact wi_ids0|]. unfold id_lt. simpl. lia.
    + apply Forall_app. split; [|by repeat constructor; lia]. eapply Forall_impl; [exact wi_ids0|]. simpl. lia.
    + intros e' x He. rewrite Hq. intros [->|Hx]%elem_of_cons; [|by apply wi_first0]. intros _.
      unfold id_lt. rewrite Hid. rewrite Forall_forall in wi_ids0. apply wi_ids0.
      rewrite wi_conserved0, elem_of_app. by left.
  - destruct Hr as (Hq & Hsz & Hun). split; simpl; try done; rewrite ?Hq, ?Hsz, ?Hun; try done; [by rewrite Hcn|].
    eapply Forall_impl; [exact wi_ids0|]. simpl. lia.
Qed.

Lemma winv_step c o w d :
  valid_config c = true -> op_ok o -> winv c w d -> exists d', winv c (run_op c o w) d'.
Proof.
  intros Hc Hok Hw. destruct o as [now pl tid pid sch dl|clk|now id| |]; simpl in *.
  - pose proof (enqueue_spec c now pl tid pid sch dl (q w) (wi_shape _ _ _ Hw) Hok) as H.
    destruct (enqueue c now pl tid pid sch dl (q w)) as [s1 r]. exists d.
    by apply (winv_now c (mkWorld s1 _ _ _ _ _)), (winv_enqueue c w d now tid pid dl).
  - pose proof (dequeue_spec c clk (q w) Hc Hok (wi_shape _ _ _ Hw)) as H.
    destruct (dequeue c clk (q w)) as [s2 r]. destruct H as (s1 & d1 & Hd & _ & Hr).
    pose proof (winv_discard c w d _ s1 d1 _ _ Hw Hd eq_refl eq_refl) as Hw1. exists (d ++ d1).
    destruct r as [[e|]|x].
    + by apply (winv_serve c _ _ s2 e Hw1).
    + destruct Hr as [Hr _]. by apply (winv_rotate c _ _ s2 Hw1).
    + destruct Hr as (_ & Hr & _). by apply (winv_rotate c _ _ s2 Hw1).
  - pose proof (cancel_spec now id (q w) (wi_shape _ _ _ Hw)) as H.
    destruct (cancel now id (q w)) as [s1 r]. destruct H as (_ & d1 & Hd). exists (d ++ d1). simpl.
    destruct (id <=? 0) eqn:Ei; [by apply (winv_discard c w d now s1 d1)|]. zbool.
    match type of Hd with discards _ ?s0 _ _ =>
      refine (winv_discard c (mkWorld s0 (accepted w) (served w) (finished w) ({[ id ]} ∪ cancels w) (nows w))
                d now s1 d1 _ _ _ Hd eq_refl eq_refl) end.
    destruct Hw. split; simpl; try done.
    + by destruct wi_shape0.
    + eapply Forall_impl; [exact wi_dropped0|]. intros e [He|He]; [left; by apply elem_of_union_r|by right].
    + destruct wi_cancelled0 as [H1 H2]. split; [by apply union_mono_l|].
      rewrite <- assoc_L by apply _. by apply union_mono_l.
  - exists d. by destruct Hw as [[] ? ? ? ? ? ? ? ? ? ?].
  - unfold task_done. destruct (_unfinished (q w) <=? 0); [exists d; by destruct w|]. exists d.
    destruct Hw as [[] ? ? ? ? ? ? ? ? ? ?]. split; simpl; try done. lia.
Qed.

Lemma run_winv c l : valid_config c = true -> Forall op_ok l -> exists d, winv c (run c l) d.
Proof.
  intros Hc Hl. unfold run. assert (exists d, winv c (mkWorld init [] [] 0 ∅ []) d) as H0.
  { exists []. split; simpl; try done; try lia; try (by constructor).
    - split; [|done|constructor]. split; [constructor|]. intros k. simpl. rewrite lookup_empty.
      split; [by intros ?%not_elem_of_nil|by intros [? ?]].
    - intros e x He. by apply not_elem_of_nil in He. }
  revert H0. generalize (mkWorld init [] [] 0 ∅ []). induction Hl as [|o l Ho _ IH]; intros w [d Hw]; [by exists d|].
  simpl. apply IH. by apply (winv_step c o w d).
Qed.

(** ** Properties *)

(** C17: The queue neither loses nor duplicates work and stays within its bound. After any
    history, the accepted entries are those served, those queued and those dropped,
    each once; an entry is dropped only when it was cancelled or its deadline was
    passed; the size is the number of queued entries, never above the capacity; the
    unfinished count is what is queued plus what was served and not finished; and each
    project is served in the order of acceptance. *)
Theorem fair_queue_conserves c l :
  valid_config c = true -> Forall op_ok l ->
  let w := run c l in
  (exists dropped, accepted w ≡ₚ served w ++ dropped ++ queued (q w) /\ Forall (droppable w) dropped) /\
  NoDup (entry_id <$> accepted w) /\
  _size (q w) = Z.of_nat (length (queued (q w))) /\ _size (q w) <= _capacity c /\
  _unfinished (q w) = _size (q w) + Z.of_nat (length (served w)) - finished w /\
  forall e1 e2, same_project e1 e2 -> entry_id e1 < entry_id e2 -> e2 ∈ served w -> e1 ∉ queued (q w) /\
    forall l1 l2 l3, served w <> l1 ++ e2 :: l2 ++ e1 :: l3.
Proof.
  intros Hc Hl w. destruct (run_winv c l Hc Hl) as [d Hw]. fold w in Hw. destruct Hw.
  destruct (config_pos c Hc) as (Hcap & _ & _).
  split_and!; [by exists d|by apply sorted_ids_NoDup|done|lia|done|].
  intros e1 e2 [P1 P2] Hlt H2. split.
  - intros H1. specialize (wi_first0 e2 e1 H2 H1 ltac:(done)). unfold id_lt in *. lia.
  - intros l1 l2 l3 E. specialize (wi_fifo0 (tenant_id e1) (project_id e1)). rewrite E in wi_fifo0.
    rewrite filter_app, filter_cons_True, filter_app, filter_cons_True in wi_fifo0 by done.
    apply (StronglySorted_sublist id_lt [e2; e1]) in wi_fifo0.
    + apply StronglySorted_inv in wi_fifo0 as [_ Hf]. apply Forall_cons in Hf as [Hf _]. unfold id_lt in Hf. lia.
    + apply sublist_inserts_l, sublist_skip, sublist_inserts_l, sublist_skip, sublist_nil_l.
Qed.

(** A consumer is only ever handed work that is still wanted. An entry that [dequeue]
    returns was queued, was never cancelled, has its deadline ahead of the clock, and
    every older entry of its project still queued was cancelled or expired; the call
    never fails on the queue's own bookkeeping, and raises only when the queue is closed. *)
Theorem fair_queue_serves_valid c l clk :
  valid_config c = true -> Forall op_ok l -> monotone clk ->
  let w := run c l in
  match snd (dequeue c clk (q w)) with
  | Ok (Some e) =>
      e ∈ queued (q w) /\ clk 0%nat < deadline e /\ entry_id e ∉ cancels w /\
      forall x, x ∈ queued (q w) -> same_project x e -> entry_id x < entry_id e ->
        invalid (clk 0%nat) (_cancelled (q w)) x
  | Ok None => _closed (q w) = false
  | Raise x => x = QueueClosedError /\ _closed (q w) = true
  end.
Proof.
  intros Hc Hl Hclk w. destruct (run_winv c l Hc Hl) as [d Hw]. fold w in Hw.
  pose proof (winv_nodup _ _ _ Hw) as Hn. destruct Hw.
  pose proof (dequeue_spec c clk (q w) Hc Hclk wi_shape0) as H.
  destruct (dequeue c clk (q w)) as [s' r]. simpl. destruct H as (s1 & d1 & Hd & Hv & Hr).
  destruct r as [[e|]|x]; [|by destruct Hr|by destruct Hr as (? & _ & ?)].
  destruct Hr as [Hs' Hq (p & es & Hp & Ee) _]. destruct Hd.
  specialize (Hv _ _ p e es Hp Ee).
  assert (e ∈ queued s1) as He1 by (rewrite Hq; left).
  rewrite !fmap_app, !NoDup_app in Hn. destruct Hn as (_ & _ & Hdn & Hdis & Hnq).
  rewrite di_queued0, fmap_app, NoDup_app in Hnq. destruct Hnq as (_ & Hdis1 & _).
  assert (entry_id e ∈ entry_id <$> queued s1) as Hid by (by apply list_elem_of_fmap_2).
  split_and!.
  - rewrite di_queued0, elem_of_app. by right.
  - unfold invalid in Hv. lia.
  - intros Hcan. apply Hv. left. rewrite di_cancelled0. apply elem_of_difference.
    destruct wi_cancelled0 as [_ Hsub]. apply Hsub, elem_of_union in Hcan. unfold ids in *.
    rewrite elem_of_list_to_set. split.
    + destruct Hcan as [|Hcan]; [done|]. apply elem_of_list_to_set in Hcan. exfalso. apply (Hdis _ Hcan).
      rewrite di_queued0, fmap_app, elem_of_app. by right.
    + intros Hin. by apply (Hdis1 _ Hin).
  - intros x Hx [E1 E2] Hlt. rewrite di_queued0 in Hx. apply elem_of_app in Hx as [Hx|Hx].
    + rewrite Forall_forall in di_invalid0. by apply di_invalid0.
    + exfalso. destruct (queued_project s1 x di_shape0 Hx) as (p' & Hp' & Hin & Hss).
      rewrite E1, E2, Hp in Hp'. simplify_eq. rewrite Ee in Hin, Hss.
      apply elem_of_cons in Hin as [->|Hin]; [lia|]. apply StronglySorted_inv in Hss as [_ Hall].
      rewrite Forall_forall in Hall. specialize (Hall x Hin). unfold id_lt in Hall. lia.
Qed.

Definition history : list op :=
  [Enqueue 0 1 "a" "p" unit_cost 50; Enqueue 0 2 "a" "p" unit_cost 5; Enqueue 0 3 "a" "p" unit_cost 50;
   Cancel 1 1; Enqueue 2 4 "b" "p" unit_cost 50].

Lemma history_ok : Forall op_ok history.
Proof. repeat constructor. Defined.

Example fair_queue_conserves_witness :
  let w := run cfg (history ++ [Dequeue (fun _ => 10)]) in
  payload <$> served w = [3%nat] /\ payload <$> queued (q w) = [4%nat] /\
  _size (q w) <= _capacity cfg /\
  (exists dropped, accepted w ≡ₚ served w ++ dropped ++ queued (q w) /\ Forall (droppable w) dropped).
Proof.
  assert (Forall op_ok (history ++ [Dequeue (fun _ => 10)])) as Hok.
  { apply Forall_app. split; [exact history_ok|]. constructor; [exact (monotone_const 10)|constructor]. }
  pose proof (fair_queue_conserves cfg (history ++ [Dequeue (fun _ => 10)]) eq_refl Hok) as H. cbv zeta in H.
  destruct H as (H1 & _ & _ & H2 & _).
  split_and!; [reflexivity|reflexivity|exact H2|exact H1].
Defined.

Example fair_queue_serves_valid_witness :
  match snd (dequeue cfg (fun _ => 10) (q (run cfg history))) with
  | Ok (Some e) => payload e = 3%nat /\ entry_id e ∉ cancels (run cfg history)
  | _ => False
  end.
Proof.
  pose proof (fair_queue_serves_valid cfg history (fun _ => 10) eq_refl history_ok (monotone_const 10)) as H.
  cbv zeta in H.
  destruct (snd (dequeue cfg (fun _ => 10) (q (run cfg history)))) as [[e|]|x] eqn:E;
    [|vm_compute in E; discriminate E..].
  split; [vm_compute in E; injection E as <-; reflexivity|]. exact (proj1 (proj2 (proj2 H))).
Defined.

(** ** Round robin *)

(** Work that is still wanted and whose cost one visit can pay. *)
Definition live (c : config) (now : Z) (s : t) : Prop :=
  forall e, e ∈ queued s -> ~ invalid now (_cancelled s) e /\ cost_units e <= _base_quantum c.

Lemma project_queued s tid pid p e :
  shape s -> get_project s tid pid = Some p -> e ∈ entries p -> e ∈ queued s.
Proof.
  intros Hs Hp He. destruct (get_project_wf _ _ _ _ Hs Hp) as (_ & tn & Ht & Hpr).
  rewrite (queued_focus s tid tn) by (apply Hs || done).
  rewrite (tenant_focus tn pid p) by (apply (sh_tenants _ Hs _ _ Ht) || done).
  rewrite !elem_of_app. auto.
Qed.

Lemma drop_heads_valid now cn e es :
  ~ invalid now cn e -> drop_heads now cn (e :: es) = (e :: es, cn, 0).
Proof. intros H. simpl. by rewrite decide_False. Qed.

Lemma discard_project_live c now s tid pid :
  shape s -> live c now s -> is_Some (get_project s tid pid) -> discard_project now tid pid s = Ok s.
Proof.
  intros Hs Hlive [p Hp]. pose proof (get_project_wf _ _ _ _ Hs Hp) as (Hwp & tn & Ht & Hpr).
  unfold discard_project. rewrite Ht, Hpr. destruct (entries p) as [|e es] eqn:Ee; [by destruct Hwp|].
  rewrite drop_heads_valid by (apply Hlive; eapply project_queued; [done..|rewrite Ee; left]).
  assert (set_project pid (mkProject (p_weight p) (p_deficit p) (e :: es)) tn = tn) as ->.
  { unfold set_project. destruct p as [w d es']; simpl in *. subst. rewrite insert_id by done. by destruct tn. }
  rewrite insert_id by done. rewrite !Z.sub_0_r. f_equal.
  assert (mk (_tenants s) (_active_tenants s) (_cancelled s) (_ids s) (_size s) (_unfinished s) (_closed s) = s)
    as -> by (by destruct s).
  unfold _remove_empty. rewrite Ht, Hpr, Ee. rewrite decide_False.
  - unfold set_tenant. rewrite insert_id by done. by destruct s.
  - intros H0. rewrite H0, lookup_empty in Hpr. done.
Qed.

Lemma discard_projects_live c now s tid pids :
  shape s -> live c now s -> (forall pid, pid ∈ pids -> is_Some (get_project s tid pid)) ->
  discard_projects now tid pids s = Ok s.
Proof.
  intros Hs Hl. induction pids as [|pid pids IH]; intros Hin; [done|]. simpl.
  rewrite (discard_project_live c) by (done || (apply Hin; left)). simpl. apply IH. intros q Hq. apply Hin. by right.
Qed.

Lemma discard_live c now s : shape s -> live c now s -> _discard_invalid_heads now s = Ok s.
Proof.
  intros Hs Hl. unfold _discard_invalid_heads. destruct (sh_active _ Hs) as [_ He].
  assert (forall tid, tid ∈ _active_tenants s -> is_Some (_tenants s !! tid)) as Hin by (intros; by apply He).
  revert Hin. generalize (_active_tenants s). intros tids. induction tids as [|tid tids IH]; intros Hin; [done|].
  simpl. destruct (Hin tid ltac:(left)) as [tn Ht]. rewrite Ht.
  rewrite (discard_projects_live c); [simpl; apply IH; intros q Hq; apply Hin; by right|done|done|].
  intros pid Hpid. unfold get_project. rewrite Ht. by apply (wt_active _ _ (sh_tenants _ Hs _ _ Ht)).
Qed.

Lemma remove_once_last x l : x ∉ l -> _remove_once x (l ++ [x]) = l.
Proof.
  induction l as [|y l IH]; simpl; [by rewrite decide_True|]. rewrite not_elem_of_cons. intros [? ?].
  rewrite decide_False by done. by rewrite IH.
Qed.

Lemma take_active tid e cost tn s s' rest :
  tenant_id e = tid -> _active_tenants s = rest ++ [tid] -> tid ∉ rest ->
  take tid e cost tn s = Ok (s', e) -> exists tail, _active_tenants s' = rest ++ tail.
Proof.
  intros He Ha Hn E. unfold take in E. destruct (projects tn !! project_id e) as [p|]; [|done].
  destruct (entries p) as [|x es]; [done|]. injection E as <-. unfold _remove_empty.
  rewrite He. cbn [_tenants]. rewrite lookup_insert_eq.
  match goal with |- context [decide (projects ?x = ∅)] => destruct (decide (projects x = ∅)) end; simpl; rewrite Ha.
  - exists []. by rewrite remove_once_last, app_nil_r.
  - by exists [tid].
Qed.

Section live.
Context (c : config) (Hc : valid_config c = true) (now : Z).
#[local] Set Default Proof Using "All".

Lemma live_cost s e : live c now s -> e ∈ queued s -> _effective_cost c now e <= _base_quantum c.
Proof.
  intros Hl He. destruct (Hl e He) as [_ Hcost]. destruct (config_pos c Hc) as (_ & Hq & Ha).
  unfold _effective_cost.
  assert (0 <= Z.max (now - enqueued_at e) 0 / _aging_seconds c) by (apply Z.div_pos; lia). lia.
Qed.

(** The first project of the first tenant is served at once. *)
Lemma select_live n s tid rest :
  shape s -> live c now s -> _active_tenants s = tid :: rest ->
  exists s' e tail, select_loop c (S n) (fun _ => now) s = Ok (s', Some e) /\
    served_one s s' e /\ tenant_id e = tid /\ _active_tenants s' = rest ++ tail.
Proof.
  intros Hs Hl Ha.
  destruct (select_loop_spec c Hc (S n) (fun _ => now) s (monotone_const now) Hs) as (s' & r & E & Hr).
  destruct (sh_active _ Hs) as [Hnd He]. rewrite Ha in Hnd, He. apply NoDup_cons in Hnd as [Hnd _].
  destruct (proj1 (He tid) ltac:(left)) as [tn Ht]. pose proof E as E0. cbn [select_loop] in E.
  rewrite Ha, Ht in E. fold (credit c tn) in E.
  pose proof (sh_tenants _ Hs _ _ Ht) as Hwt. pose proof (credit_wf c Hc tid tn Hwt) as Hcr.
  destruct (active_projects tn) as [|pid prest] eqn:Eap.
  { exfalso. destruct Hwt as [_ _ [_ Hen] Hne _]. apply map_choose in Hne as (q & p & Hq).
    rewrite Eap in Hen. apply (not_elem_of_nil q), Hen. by eexists. }
  assert (is_Some (projects tn !! pid)) as [p Hp] by (apply (wt_active _ _ Hwt); rewrite Eap; left).
  destruct (wt_projects _ _ Hwt _ _ Hp) as [Hpw Hpd Hpn Hpo Hpss].
  destruct (entries p) as [|e es] eqn:Ee; [done|]. apply Forall_cons in Hpo as [[Eo1 Eo2] _].
  assert (_effective_cost c now e <= _base_quantum c) as Hcost.
  { apply (live_cost s); [done|]. apply (project_queued s tid pid p); [done| |rewrite Ee; left].
    unfold get_project. by rewrite Ht. }
  destruct (config_pos c Hc) as (_ & Hq & _). destruct Hwt as [Htw Htd _ _ _].
  unfold _select_project in E. destruct (Nat.max (length (active_projects (credit c tn))) 1) as [|k] eqn:Ek; [lia|].
  cbn [select_project_loop credit active_projects projects] in E. rewrite Eap, Hp, Ee in E.
  assert (_base_quantum c <= _base_quantum c * p_weight p) as Hqp by nia.
  assert (_base_quantum c <= _base_quantum c * t_weight tn) as Hqt by nia.
  rewrite (proj2 (Z.leb_le _ _)) in E by lia. cbn [t_deficit t_weight projects active_projects] in E.
  change (later 1 (fun _ => now) 0%nat) with now in E.
  assert (_effective_cost c now e <= t_deficit (credit c tn)) as Hafford by (simpl; lia).
  rewrite (proj2 (Z.ltb_ge _ _) Hafford) in E.
  match type of E with context [take tid e ?k0 ?t0 ?s0] => destruct (take tid e k0 t0 s0) as [[s2 e2]|] eqn:Et end; [|done].
  injection E as -> <-. assert (e2 = e) as ->.
  { unfold take in Et. repeat case_match; by simplify_eq. }
  assert (exists tail, _active_tenants s' = rest ++ tail) as [tail Htail].
  { eapply take_active; [exact Eo1| |exact Hnd|exact Et]. done. }
  exists s', e, tail. split_and!; [exact E0|exact Hr|done|done].
Qed.

Lemma live_served s s' e : live c now s -> served_one s s' e -> live c now s'.
Proof.
  intros Hl [_ Hq _ E] x Hx. injection E as -> _ _ _ _. apply Hl. rewrite Hq. by right.
Qed.
End live.

Fixpoint dequeue_n (c : config) (clk : readings) (n : nat) (s : t) : list QueueEntry :=
  match n with
  | O => []
  | S n => match dequeue c clk s with
           | (s, Ok (Some e)) => e :: dequeue_n c clk n s
           | _ => []
           end
  end.

Lemma dequeue_n_live c now n s :
  valid_config c = true -> shape s -> live c now s -> _size s = Z.of_nat (length (queued s)) ->
  (n <= length (_active_tenants s))%nat ->
  tenant_id <$> dequeue_n c (fun _ => now) n s = firstn n (_active_tenants s).
Proof.
  intros Hc. revert s. induction n as [|n IH]; intros s Hs Hl Hsz Hn; [done|]. cbn [dequeue_n].
  destruct (_active_tenants s) as [|tid rest] eqn:Ea; [simpl in Hn; lia|].
  unfold dequeue. rewrite (discard_live c) by done.
  destruct (rounds s) as [|k] eqn:Ek; [unfold rounds in Ek; lia|].
  destruct (select_live c Hc now k s tid rest Hs Hl Ea) as (s' & e & tail & E & Hso & He & Ha').
  assert (_size s <> 0) as Hne.
  { destruct Hso as [_ Hq _ _]. rewrite Hsz, Hq. simpl. lia. }
  rewrite decide_False by done. unfold _select. rewrite Ek.
  change (later 1 (fun _ => now)) with (fun _ : nat => now). rewrite E. simpl. rewrite He. f_equal.
  pose proof (live_served c Hc now s s' e Hl Hso) as Hl'. destruct Hso as [Hs' Hq _ Ecnt]. injection Ecnt as _ _ Esz _ _.
  rewrite IH; [|done|done| |].
  - rewrite Ha', take_app_le; [done|]. simpl in Hn. lia.
  - rewrite Esz, Hsz, Hq. simpl. lia.
  - rewrite Ha', length_app. simpl in Hn. lia.
Qed.

Lemma tenant_active s tid :
  shape s -> tid ∈ _active_tenants s <-> exists e, e ∈ queued s /\ tenant_id e = tid.
Proof.
  intros Hs. destruct (sh_active _ Hs) as [_ He]. rewrite He. split.
  - intros [tn Ht]. destruct (sh_tenants _ Hs _ _ Ht) as [_ _ _ Hne Hps].
    apply map_choose in Hne as (pid & p & Hp). destruct (Hps _ _ Hp) as [_ _ Hpn Hpo _].
    destruct (entries p) as [|e es] eqn:Ee; [done|]. apply Forall_cons in Hpo as [[Eo _] _].
    exists e. split; [|done]. apply (project_queued s tid pid p); [done| |rewrite Ee; left].
    unfold get_project. by rewrite Ht.
  - intros (e & Hq & <-). destruct (queued_project s e Hs Hq) as (p & Hp & _).
    unfold get_project in Hp. destruct (_tenants s !! tenant_id e); [by eexists|done].
Qed.

(** What one visit per rotation comes to. When nothing queued is cancelled or expired and no entry costs
    more than a quantum, as many dequeues as there are tenants with work serve each of
    them exactly once, in the order of the rotation, whatever their weights and however
    much work the others have queued. *)
Theorem fair_queue_round_robin c l now :
  valid_config c = true -> Forall op_ok l ->
  let s := q (run c l) in
  live c now s ->
  let tenants := tenant_id <$> dequeue_n c (fun _ => now) (length (_active_tenants s)) s in
  tenants = _active_tenants s /\ NoDup tenants /\
  forall tid, tid ∈ tenants <-> exists e, e ∈ queued s /\ tenant_id e = tid.
Proof.
  intros Hc Hl s Hlive. destruct (run_winv c l Hc Hl) as [d []]. fold s in wi_shape0, wi_size0.
  assert (tenant_id <$> dequeue_n c (fun _ => now) (length (_active_tenants s)) s = _active_tenants s) as ->.
  { rewrite dequeue_n_live by done. by rewrite firstn_all. }
  split_and!; [done|by apply wi_shape0|]. intros tid. by apply tenant_active.
Qed.

Definition busy : list op :=
  [Enqueue 0 1 "a" "p" (mkScheduling 1000 1 0 1) 50; Enqueue 0 2 "a" "p" (mkScheduling 1000 1 0 1) 50;
   Enqueue 0 3 "b" "p" unit_cost 50].

Example fair_queue_round_robin_witness :
  tenant_id <$> dequeue_n cfg (fun _ => 1) 2 (q (run cfg busy)) = ["a"; "b"]%string.
Proof.
  refine (proj1 (fair_queue_round_robin cfg busy 1 eq_refl _ _)).
  - repeat constructor.
  - assert (queued (q (run cfg busy)) =
      [mkEntry 1 "a" "p" 1 1 0 0 50; mkEntry 2 "a" "p" 2 1 0 0 50; mkEntry 3 "b" "p" 3 1 0 0 50]) as E
      by (vm_compute; reflexivity).
    assert (_cancelled (q (run cfg busy)) = ∅) as E2 by (vm_compute; reflexivity).
    intros e. rewrite E, !elem_of_cons. unfold invalid. rewrite E2.
    intros [->|[->|[->|?%not_elem_of_nil]]]; [..|done]; simpl;
      (split; [intros [?%not_elem_of_empty|?]; [done|lia]|lia]).
Defined.
End FairAdmissionQueue.
