(* ===== verification/SpawnAdmission.v ===== *)
(** Admission of child agents ([orchestration/agents/lifecycle/admission.py], with the
    types of [contracts/agent/policy.py]): the framework's own limits and the chain of
    extensions that may only narrow them. *)

From S2P Require Import Prelude.

Local Open Scope Z_scope.

(** Costs are Python floats: exact values, the infinities and NaN, which every
    comparison answers with [False]. *)
Inductive float : Type :=
| NaN
| NegInf
| Fin (x : Q)
| PosInf.

Definition float_lt (a b : float) : bool :=
  match a, b with
  | NaN, _ | _, NaN => false
  | NegInf, NegInf => false
  | NegInf, _ => true
  | Fin x, Fin y => negb (Qle_bool y x)
  | Fin _, PosInf => true
  | _, _ => false
  end.

(** [a >= b]. *)
Definition float_ge (a b : float) : bool :=
  match a, b with
  | NaN, _ | _, NaN => false
  | _, _ => negb (float_lt a b)
  end.

Record SpawnIntent : Type := mkIntent {
  parent_path : string;
  child_depth : Z;
  max_depth : option Z;
  fleet_cost_usd : float;
  max_cost_usd : option float;
  fleet_total_tokens : Z;
  max_total_tokens : option Z;
  agent_role : string;
  nickname : string
}.

Record SpawnPolicyContribution : Type := mkContribution {
  allowed : bool;
  c_max_depth : option Z;
  c_max_cost_usd : option float;
  c_max_total_tokens : option Z;
  c_reason : string
}.

(** [SpawnPolicyContribution.deny]. *)
Definition deny (reason : string) : SpawnPolicyContribution := mkContribution false None None None reason.

Inductive disposition : Type := Deny | Narrow | Allow | FailedClosed.

(** [step] and [detail] of a trace entry. *)
Record SpawnPolicyTraceEntry : Type := mkTrace {
  step : string;
  disp : disposition;
  detail : string
}.

(** The texts of a refusal, before they are formatted. *)
Inductive denial : Type :=
| DepthLimit (limit : Z) (parent : string)
| CostBudget (limit spent : float)
| TokenBudget (limit used : Z)
| ExtensionFailed (identity : string)
| ExtensionReason (reason : string)
| ExtensionDenied (identity : string).

Record SpawnDecision : Type := mkDecision {
  accepted : bool;
  reason : option denial;
  trace : list SpawnPolicyTraceEntry
}.

Module SpawnAdmissionPolicy.

(** An installed extension: its identity and what awaiting its [evaluate] under the
    timeout gives, a contribution or the name of the exception. *)
Record extension : Type := mkExtension {
  identity : string;
  evaluate : SpawnIntent -> outcome string SpawnPolicyContribution
}.

Definition _core_denial (i : SpawnIntent) (tr : list SpawnPolicyTraceEntry)
    : list SpawnPolicyTraceEntry * option denial :=
  let tokens :=
    match max_total_tokens i with
    | Some m => if m <=? fleet_total_tokens i
                then (tr ++ [mkTrace "fleet_token_budget" Deny ""], Some (TokenBudget m (fleet_total_tokens i)))
                else (tr, None)
    | None => (tr, None)
    end in
  let cost :=
    match max_cost_usd i with
    | Some m => if float_ge (fleet_cost_usd i) m
                then (tr ++ [mkTrace "fleet_cost_budget" Deny ""], Some (CostBudget m (fleet_cost_usd i)))
                else tokens
    | None => tokens
    end in
  match max_depth i with
  | Some m => if m <? child_depth i
              then (tr ++ [mkTrace "framework_depth_limit" Deny ""], Some (DepthLimit m (parent_path i)))
              else cost
  | None => cost
  end.

(** [_narrow], on integers and on floats. *)
Section narrow.
Context {A : Type} (lt : A -> A -> bool) (zero : A).

Definition _narrow (current proposed : option A) : outcome string (option A) :=
  match proposed with
  | None => Ok current
  | Some p =>
      if lt p zero || match current with Some c => lt c p | None => false end
      then Raise "ValueError"%string
      else Ok (Some p)
  end.
End narrow.

Definition _apply_narrowing (i : SpawnIntent) (c : SpawnPolicyContribution) : outcome string SpawnIntent :=
  let? d := _narrow Z.ltb 0 (max_depth i) (c_max_depth c) in
  let? m := _narrow float_lt (Fin 0) (max_cost_usd i) (c_max_cost_usd c) in
  let? t := _narrow Z.ltb 0 (max_total_tokens i) (c_max_total_tokens c) in
  Ok (mkIntent (parent_path i) (child_depth i) d (fleet_cost_usd i) m (fleet_total_tokens i) t
        (agent_role i) (nickname i)).

(** The [for] loop over the installed extensions. *)
Fixpoint process_extensions (exts : list extension) (effective : SpawnIntent)
    (tr : list SpawnPolicyTraceEntry) : SpawnDecision :=
  match exts with
  | [] => mkDecision true None (tr ++ [mkTrace "final_admission" Allow ""])
  | x :: exts =>
      let stp := ("extension:" +:+ identity x)%string in
      match (let? c := evaluate x effective in
             let? e := _apply_narrowing effective c in Ok (c, e)) with
      | Raise n => mkDecision false (Some (ExtensionFailed (identity x))) (tr ++ [mkTrace stp FailedClosed n])
      | Ok (c, effective) =>
          if allowed c then
            let tr := tr ++ [mkTrace stp Narrow ""] in
            match _core_denial effective tr with
            | (tr, Some d) => mkDecision false (Some d) tr
            | (tr, None) => process_extensions exts effective tr
            end
          else
            mkDecision false
              (Some (if decide (c_reason c = ""%string) then ExtensionDenied (identity x)
                     else ExtensionReason (c_reason c)))
              (tr ++ [mkTrace stp Deny ""])
      end
  end.

Definition process (exts : list extension) (i : SpawnIntent) : SpawnDecision :=
  match _core_denial i [] with
  | (tr, Some d) => mkDecision false (Some d) tr
  | (tr, None) => process_extensions exts i tr
  end.

(** [__init__] accepts extensions with distinct, non-blank identities and positive
    timeouts; [blank] is [not identity.strip()]. *)
Definition is_space (a : Ascii.ascii) : bool :=
  let n := Ascii.nat_of_ascii a in ((9 <=? n) && (n <=? 13))%nat || ((28 <=? n) && (n <=? 32))%nat.
Fixpoint blank (s : string) : bool :=
  match s with String a s => is_space a && blank s | EmptyString => true end.

Fixpoint install (specs : list (string * Z)) (identities : list string) : outcome string unit :=
  match specs with
  | [] => Ok tt
  | (n, timeout) :: specs =>
      if blank n || bool_decide (n ∈ identities) then Raise "ValueError"%string
      else if timeout <=? 0 then Raise "ValueError"%string
      else install specs (n :: identities)
  end.

(** ** Limits *)

(** What the framework's limits allow. *)
Definition within (i : SpawnIntent) : Prop :=
  (forall m, max_depth i = Some m -> child_depth i <= m) /\
  (forall m, max_cost_usd i = Some m -> float_ge (fleet_cost_usd i) m = false) /\
  (forall m, max_total_tokens i = Some m -> fleet_total_tokens i < m).

Lemma core_denial_spec i tr :
  (snd (_core_denial i tr) = None <-> within i) /\
  (snd (_core_denial i tr) = None -> fst (_core_denial i tr) = tr).
Proof.
  unfold _core_denial, within.
  destruct (max_depth i) as [d|]; [destruct (Z.ltb_spec d (child_depth i))|];
  (destruct (max_cost_usd i) as [m|]; [destruct (float_ge (fleet_cost_usd i) m) eqn:Em|]);
  (destruct (max_total_tokens i) as [t|]; [destruct (Z.leb_spec t (fleet_total_tokens i))|]);
  simpl; (split; [split; [try done; intros _|intros (H1 & H2 & H3)]|done]);
  try (split_and!; intros ? [= <-]; done || lia);
  try (specialize (H1 _ eq_refl); lia); try (specialize (H2 _ eq_refl); congruence);
  try (specialize (H3 _ eq_refl); lia); done.
Qed.

Lemma core_denial_none i tr : within i -> _core_denial i tr = (tr, None).
Proof.
  intros H. destruct (core_denial_spec i tr) as [[_ H1] H2]. specialize (H1 H).
  destruct (_core_denial i tr) as [tr' d]; simpl in *. rewrite H2; congruence.
Qed.

(** A ceiling that is at most as high, as the code compares: an absent ceiling is the
    highest, and NaN, which is above and below nothing, passes for a lower one. *)
Definition at_most {A} (lt : A -> A -> bool) (new old : option A) : Prop :=
  match old with
  | None => True
  | Some o => exists n, new = Some n /\ lt o n = false
  end.

Record narrower (i' i : SpawnIntent) : Prop := {
  na_depth : at_most Z.ltb (max_depth i') (max_depth i);
  na_cost : at_most float_lt (max_cost_usd i') (max_cost_usd i);
  na_tokens : at_most Z.ltb (max_total_tokens i') (max_total_tokens i);
  na_same : (parent_path i', child_depth i', fleet_cost_usd i', fleet_total_tokens i') =
            (parent_path i, child_depth i, fleet_cost_usd i, fleet_total_tokens i)
}.

Lemma narrow_at_most {A} (lt : A -> A -> bool) zero cur prop new :
  (forall x, cur = Some x -> lt x x = false) ->
  _narrow lt zero cur prop = Ok new -> at_most lt new cur.
Proof.
  intros Hirr. unfold _narrow, at_most. destruct prop as [p|].
  - destruct (lt p zero); [done|]. destruct cur as [c|]; simpl; [|done].
    destruct (lt c p) eqn:E; intros; simplify_eq. eauto.
  - intros [= <-]. destruct cur; eauto.
Qed.

Lemma apply_narrowing_narrower i c i' : _apply_narrowing i c = Ok i' -> narrower i' i.
Proof.
  unfold _apply_narrowing. rewrite outcome_bind_ok. intros (d & Hd & H).
  rewrite outcome_bind_ok in H. destruct H as (m & Hm & H). rewrite outcome_bind_ok in H.
  destruct H as (t & Ht & [= <-]). split; simpl; [..|done].
  - eapply narrow_at_most; [|exact Hd]. intros. apply Z.ltb_irrefl.
  - eapply narrow_at_most; [|exact Hm]. intros x _. destruct x; try done. simpl.
    apply negb_false_iff, Qle_bool_iff, Qle_refl.
  - eapply narrow_at_most; [|exact Ht]. intros. apply Z.ltb_irrefl.
Qed.

(** ** Chains of extensions *)

(** The extensions contributed in order, each seeing the intent narrowed so far; all of
    them allowed it and every intent was within the limits. *)
Inductive admits : list extension -> SpawnIntent -> SpawnIntent -> Prop :=
| admits_nil i : within i -> admits [] i i
| admits_cons x exts i c i' final :
    within i -> evaluate x i = Ok c -> allowed c = true -> _apply_narrowing i c = Ok i' ->
    admits exts i' final -> admits (x :: exts) i final.

Lemma admits_within exts i final : admits exts i final -> within i.
Proof. by destruct 1. Qed.

Lemma process_extensions_accepted exts i tr :
  within i -> accepted (process_extensions exts i tr) = true <-> exists final, admits exts i final.
Proof.
  revert i tr. induction exts as [|x exts IH]; intros i tr Hi; simpl.
  { split; [|done]. intros _. exists i. by constructor. }
  destruct (evaluate x i) as [c|n] eqn:Ee; simpl.
  2:{ split; [done|]. intros [final H]. inversion H. congruence. }
  destruct (_apply_narrowing i c) as [i'|n] eqn:En; simpl.
  2:{ split; [done|]. intros [final H]. inversion H. congruence. }
  destruct (allowed c) eqn:Ea; simpl.
  2:{ split; [done|]. intros [final H]. inversion H. congruence. }
  set (tr' := tr ++ _). destruct (core_denial_spec i' tr') as [Hw _].
  destruct (_core_denial i' tr') as [tr2 [d|]]; simpl in Hw.
  - split; [done|]. intros [final H]. inversion H as [|? ? ? c2 i2 ? _ E1 _ E2 Hrest]; subst.
    rewrite Ee in E1; injection E1 as <-. rewrite En in E2; injection E2 as <-.
    apply admits_within in Hrest. by apply Hw in Hrest.
  - rewrite IH by (by apply Hw). split; intros [final H]; exists final.
    + by econstructor.
    + inversion H as [|? ? ? c2 i2 ? _ E1 _ E2 Hrest]; subst.
      rewrite Ee in E1; injection E1 as <-. rewrite En in E2; by injection E2 as <-.
Qed.

Lemma process_accepted exts i : accepted (process exts i) = true <-> exists final, admits exts i final.
Proof.
  unfold process. destruct (core_denial_spec i []) as [Hw _].
  destruct (_core_denial i []) as [tr [d|]]; simpl in *.
  - split; [done|]. intros [final H]. apply admits_within in H. by apply Hw in H.
  - apply process_extensions_accepted. by apply Hw.
Qed.

Lemma admits_app exts1 exts2 i final :
  admits (exts1 ++ exts2) i final <-> exists mid, admits exts1 i mid /\ admits exts2 mid final.
Proof.
  revert i. induction exts1 as [|x exts1 IH]; intros i; simpl; split.
  - intros H. exists i. split; [constructor; by eapply admits_within|done].
  - intros (mid & H1 & H2). by inversion H1; subst.
  - intros H. inversion H as [|? ? ? c i' ? Hw E1 Ea E2 Hrest]; subst.
    apply IH in Hrest as (mid & H1 & H2). exists mid. split; [by econstructor|done].
  - intros (mid & H1 & H2). inversion H1 as [|? ? ? c i' ? Hw E1 Ea E2 Hrest]; subst.
    econstructor; [done..|]. apply IH. by exists mid.
Qed.

(** The intents along a chain. *)
Fixpoint intents (exts : list extension) (i : SpawnIntent) : list SpawnIntent :=
  match exts with
  | [] => [i]
  | x :: exts =>
      i :: match evaluate x i with
           | Ok c => match _apply_narrowing i c with Ok i' => intents exts i' | Raise _ => [] end
           | Raise _ => []
           end
  end.

Lemma admits_intents exts i final :
  admits exts i final ->
  Forall within (intents exts i) /\ length (intents exts i) = S (length exts) /\
  forall k a b, intents exts i !! k = Some a -> intents exts i !! S k = Some b -> narrower b a.
Proof.
  induction 1 as [i Hw|x exts i c i' final Hw Ee Ea En Hrest (IH1 & IH2 & IH3)]; simpl.
  - split_and!; [by apply Forall_singleton|done|]. by intros [|k] a b.
  - rewrite Ee, En. split_and!; [by constructor|simpl; by rewrite IH2|].
    intros [|k] a b; simpl.
    + intros [= <-] Hb. destruct exts; simpl in Hb; simplify_eq; by eapply apply_narrowing_narrower.
    + apply IH3.
Qed.

(** Spawn admission fails closed and extensions never widen it. A spawn is accepted
    exactly when the framework's limits allow it, every extension in turn answers, allows
    it and only lowers ceilings, and the limits still allow it after each of them. No
    ceiling along the chain is above the previous one, and whatever extensions are
    installed after others can only turn an acceptance into a refusal. *)
Theorem spawn_admission_exact exts i :
  (accepted (process exts i) = true <-> exists final, admits exts i final) /\
  (accepted (process exts i) = true ->
     Forall within (intents exts i) /\ length (intents exts i) = S (length exts) /\
     (forall k a b, intents exts i !! k = Some a -> intents exts i !! S k = Some b -> narrower b a) /\
     (forall exts1 exts2, exts = exts1 ++ exts2 -> accepted (process exts1 i) = true)) /\
  (forall x n exts1 exts2 mid, exts = exts1 ++ x :: exts2 -> admits exts1 i mid ->
     evaluate x mid = Raise n ->
     accepted (process exts i) = false /\ reason (process exts i) = Some (ExtensionFailed (identity x))).
Proof.
  split_and!.
  - apply process_accepted.
  - rewrite process_accepted. intros [final H]. destruct (admits_intents _ _ _ H) as (H1 & H2 & H3).
    split_and!; [done..|]. intros exts1 exts2 ->. rewrite process_accepted.
    apply admits_app in H as (mid & H & _). by exists mid.
  - intros x n exts1 exts2 mid -> Hm Hx.
    pose proof (admits_within _ _ _ Hm) as Hi. unfold process. rewrite core_denial_none by done.
    generalize (@nil SpawnPolicyTraceEntry) as tr. clear Hi.
    induction Hm as [j Hw|y ys j c j' final Hw Ee Ea En Hrest IH]; intros tr; simpl.
    + by rewrite Hx.
    + rewrite Ee. simpl. rewrite En. simpl. rewrite Ea. rewrite core_denial_none by (by eapply admits_within). by apply IH.
Qed.

(** A cap and an extension that lowers it, then one that fails. *)
Definition intent0 : SpawnIntent := mkIntent "/root" 1 (Some 3) (Fin 1) (Some (Fin 5)) 10 None "coder" "".
Definition capping : extension := mkExtension "cap" (fun _ => Ok (mkContribution true (Some 2) None (Some 100) "")).
Definition crashing : extension := mkExtension "crash" (fun _ => Raise "TimeoutError"%string).
Definition widening : extension := mkExtension "widen" (fun _ => Ok (mkContribution true (Some 9) None None "")).

Example spawn_admission_exact_witness :
  accepted (process [capping] intent0) = true /\ accepted (process [capping; crashing] intent0) = false /\
  accepted (process [capping; widening] intent0) = false /\
  Forall within (intents [capping] intent0).
Proof.
  split_and!; [reflexivity| |reflexivity|].
  - refine (proj1 (proj2 (proj2 (spawn_admission_exact [capping; crashing] intent0)) crashing
              "TimeoutError"%string [capping] [] _ eq_refl _ eq_refl)).
    econstructor; [|reflexivity|reflexivity|reflexivity|constructor];
      apply (core_denial_spec _ []); reflexivity.
  - apply (proj1 (proj2 (spawn_admission_exact [capping] intent0))). reflexivity.
Defined.

(** NaN passes [_narrow] and answers every later budget test with [False]: an extension
    can lift a budget that is already spent. *)
Example nan_lifts_the_budget :
  let spent := mkIntent "/root" 1 None (Fin 10) (Some (Fin 10)) 0 None "" "" in
  let almost := mkIntent "/root" 1 None (Fin 9) (Some (Fin 10)) 0 None "" "" in
  let nan := mkExtension "nan" (fun _ => Ok (mkContribution true None (Some NaN) None "")) in
  let zero := mkExtension "zero" (fun _ => Ok (mkContribution true None (Some (Fin 0)) None "")) in
  accepted (process [] spent) = false /\ accepted (process [zero] almost) = false /\
  accepted (process [nan; zero] almost) = false /\ accepted (process [nan] almost) = true /\
  max_cost_usd (default spent (last (intents [nan] almost))) = Some NaN.
Proof. by split_and!. Qed.
End SpawnAdmissionPolicy.
