(* ===== verification/Bulkhead.v ===== *)
(** In-flight bounds of the inference runtime: the nested bulkheads
    ([runtime/inference/bulkhead.py]) and the wire capacity
    ([runtime/inference/capacity.py]). A method under the condition variable is one
    atomic step; one round of an [acquire] loop takes a permit, raises or waits. *)

From S2P Require Import Prelude.

Local Open Scope Z_scope.

Inductive exn : Type := ValueError | RuntimeError | TimeoutError | KeyError.

(** What one round of an [acquire] loop ends with. *)
Inductive round : Type := Granted | Waits.

Module InFlightCapacity.

Record t : Type := mk { _limit : Z; _in_flight : Z; _closed : bool }.

Definition init (limit : Z) : outcome exn t :=
  if limit <=? 0 then Raise ValueError else Ok (mk limit 0 false).

(** [expired]: the deadline is not ahead of the loop's clock. *)
Definition acquire (expired : bool) (s : t) : t * outcome exn round :=
  if _limit s <=? _in_flight s then
    if _closed s then (s, Raise RuntimeError)
    else if expired then (s, Raise TimeoutError)
    else (s, Ok Waits)
  else if _closed s then (s, Raise RuntimeError)
  else (mk (_limit s) (_in_flight s + 1) (_closed s), Ok Granted).

Definition close (s : t) : t := mk (_limit s) (_in_flight s) true.

Definition _release (s : t) : t * outcome exn unit :=
  if _in_flight s <=? 0 then (s, Raise RuntimeError)
  else (mk (_limit s) (_in_flight s - 1) (_closed s), Ok tt).

(** [InFlightCapacityPermit.release]: a permit is whether it was released. *)
Definition permit_release (released : bool) (s : t) : bool * t * outcome exn unit :=
  if released then (true, s, Raise RuntimeError)
  else let (s, o) := _release s in (true, s, o).
End InFlightCapacity.

Module Bulkhead.

Record BulkheadIdentity : Type := mkIdentity { provider : string; endpoint : string; wire_protocol : string }.
#[export] Instance BulkheadIdentity_eq_dec : EqDecision BulkheadIdentity.
Proof. solve_decision. Defined.

(** [__post_init__]. *)
Definition valid_identity (i : BulkheadIdentity) : bool :=
  negb (bool_decide (provider i = ""%string) || bool_decide (endpoint i = ""%string) ||
        bool_decide (wire_protocol i = ""%string)).

Record limits : Type := mkLimits { _global_limit : Z; _provider_limit : Z; _endpoint_limit : Z }.

(** [BulkheadController.__init__]'s checks. *)
Definition valid_limits (l : limits) : bool :=
  negb (Z.min (_global_limit l) (Z.min (_provider_limit l) (_endpoint_limit l)) <=? 0) &&
  negb ((_provider_limit l <? _endpoint_limit l) || (_global_limit l <? _provider_limit l)).

Record t : Type := mk {
  _global_in_flight : Z;
  _provider_in_flight : list (string * Z);
  _endpoint_in_flight : list (BulkheadIdentity * Z);
  _closed : bool
}.

Definition init : t := mk 0 [] [] false.

(** [counts.get(key, 0)]. *)
Definition count {K} `{EqDecision K} (k : K) (counts : list (K * Z)) : Z := default 0 (Dict.get k counts).

Definition in_flight (i : BulkheadIdentity) (s : t) : Z := count i (_endpoint_in_flight s).

Definition _decrement {K} `{EqDecision K} (k : K) (counts : list (K * Z)) : outcome exn (list (K * Z)) :=
  match Dict.get k counts with
  | None => Raise KeyError
  | Some n => Ok (if decide (n - 1 = 0) then Dict.pop k counts else Dict.set k (n - 1) counts)
  end.

Section controller.
Context (l : limits).

Definition _available (i : BulkheadIdentity) (s : t) : bool :=
  (_global_in_flight s <? _global_limit l) &&
  (count (provider i) (_provider_in_flight s) <? _provider_limit l) &&
  (count i (_endpoint_in_flight s) <? _endpoint_limit l).

Definition acquire (expired : bool) (i : BulkheadIdentity) (s : t) : t * outcome exn round :=
  if negb (_available i s) then
    if _closed s then (s, Raise RuntimeError)
    else if expired then (s, Raise TimeoutError)
    else (s, Ok Waits)
  else if _closed s then (s, Raise RuntimeError)
  else
    (mk (_global_in_flight s + 1)
        (Dict.set (provider i) (count (provider i) (_provider_in_flight s) + 1) (_provider_in_flight s))
        (Dict.set i (count i (_endpoint_in_flight s) + 1) (_endpoint_in_flight s)) (_closed s), Ok Granted).

Definition close (s : t) : t :=
  mk (_global_in_flight s) (_provider_in_flight s) (_endpoint_in_flight s) true.

Definition _release (i : BulkheadIdentity) (s : t) : t * outcome exn unit :=
  let provider_count := count (provider i) (_provider_in_flight s) in
  let endpoint_count := count i (_endpoint_in_flight s) in
  if (_global_in_flight s <=? 0) || (provider_count <=? 0) || (endpoint_count <=? 0)
  then (s, Raise RuntimeError)
  else
    let g := _global_in_flight s - 1 in
    match _decrement (provider i) (_provider_in_flight s) with
    | Raise e => (mk g (_provider_in_flight s) (_endpoint_in_flight s) (_closed s), Raise e)
    | Ok ps =>
        match _decrement i (_endpoint_in_flight s) with
        | Raise e => (mk g ps (_endpoint_in_flight s) (_closed s), Raise e)
        | Ok es => (mk g ps es (_closed s), Ok tt)
        end
    end.

(** [class BulkheadPermit]: its identity and whether it was released. *)
Definition permit : Type := BulkheadIdentity * bool.

Definition permit_release (p : permit) (s : t) : permit * t * outcome exn unit :=
  if p.2 then (p, s, Raise RuntimeError)
  else let (s, o) := _release p.1 s in ((p.1, true), s, o).

(** ** Histories *)

(** The controller and every permit it ever gave. *)
Record world : Type := mkWorld { ctl : t; permits : list permit }.

Inductive op : Type :=
| Acquire (expired : bool) (i : BulkheadIdentity)
| Release (k : nat)
| Close.

Definition run_op (o : op) (w : world) : world :=
  match o with
  | Acquire expired i =>
      let (s, r) := acquire expired i (ctl w) in
      mkWorld s (match r with Ok Granted => permits w ++ [(i, false)] | _ => permits w end)
  | Release k =>
      match permits w !! k with
      | None => w
      | Some p => let '(p, s, _) := permit_release p (ctl w) in mkWorld s (<[k := p]> (permits w))
      end
  | Close => mkWorld (close (ctl w)) (permits w)
  end.

Definition run (ops : list op) : world := foldl (fun w o => run_op o w) (mkWorld init []) ops.

(** The permits still held, of those that satisfy [f]. *)
Definition held (f : BulkheadIdentity -> bool) (ps : list permit) : Z :=
  count_if (fun p => negb p.2 && f p.1) ps.

(** A counter dictionary holds exactly the positive counts. *)
Definition counts_ok {K} `{EqDecision K} (counts : list (K * Z)) (n : K -> Z) : Prop :=
  forall k, Dict.get k counts = if decide (n k = 0) then None else Some (n k).

Lemma counts_ok_count {K} `{EqDecision K} (counts : list (K * Z)) n k : counts_ok counts n -> count k counts = n k.
Proof. intros H. unfold count. rewrite (H k). by case_decide. Qed.

Lemma counts_ok_incr {K} `{EqDecision K} (counts : list (K * Z)) n n' k :
  counts_ok counts n -> (forall x, 0 <= n x) -> n' k = n k + 1 -> (forall x, x <> k -> n' x = n x) ->
  counts_ok (Dict.set k (count k counts + 1) counts) n'.
Proof.
  intros H Hpos Hk Ho x. rewrite (counts_ok_count _ _ _ H). specialize (Hpos k).
  destruct (decide (x = k)) as [->|].
  - rewrite Dict.get_set_eq, Hk. by rewrite decide_False by lia.
  - rewrite Dict.get_set_ne, H, Ho by done. done.
Qed.

Lemma counts_ok_decr {K} `{EqDecision K} (counts : list (K * Z)) n n' k :
  counts_ok counts n -> 0 < n k -> n' k = n k - 1 -> (forall x, x <> k -> n' x = n x) ->
  exists counts', _decrement k counts = Ok counts' /\ counts_ok counts' n'.
Proof.
  intros H Hpos Hk Ho. unfold _decrement. rewrite (H k), decide_False by lia. eexists. split; [done|].
  intros x. destruct (decide (x = k)) as [->|Hne]; case_decide as Hz.
  - rewrite Dict.get_pop_eq, Hk. by rewrite decide_True by lia.
  - rewrite Dict.get_set_eq, Hk. by rewrite decide_False by lia.
  - by rewrite Dict.get_pop_ne, H, Ho.
  - by rewrite Dict.get_set_ne, H, Ho.
Qed.

Definition of_provider (q : string) (i : BulkheadIdentity) : bool := bool_decide (provider i = q).
Definition of_identity (j i : BulkheadIdentity) : bool := bool_decide (i = j).

Record inv (w : world) : Prop := {
  in_global : _global_in_flight (ctl w) = held (fun _ => true) (permits w);
  in_provider : counts_ok (_provider_in_flight (ctl w)) (fun q => held (of_provider q) (permits w));
  in_endpoint : counts_ok (_endpoint_in_flight (ctl w)) (fun i => held (of_identity i) (permits w));
  in_bounds : held (fun _ => true) (permits w) <= Z.max 0 (_global_limit l) /\
    (forall q, held (of_provider q) (permits w) <= Z.max 0 (_provider_limit l)) /\
    (forall i, held (of_identity i) (permits w) <= Z.max 0 (_endpoint_limit l))
}.

Lemma held_nonneg f ps : 0 <= held f ps.
Proof. apply count_if_nonneg. Qed.

Lemma held_grant f ps i : held f (ps ++ [(i, false)]) = held f ps + Z.b2z (f i).
Proof. unfold held. rewrite count_if_app. simpl. lia. Qed.

Lemma held_release f ps k i :
  ps !! k = Some (i, false) -> held f (<[k := (i, true)]> ps) = held f ps - Z.b2z (f i).
Proof. intros Hk. unfold held. rewrite (count_if_insert _ _ _ _ _ Hk). simpl. lia. Qed.

Lemma held_pos f ps k i : ps !! k = Some (i, false) -> f i = true -> 0 < held f ps.
Proof. intros Hk Hf. pose proof (count_if_pos (fun p => negb p.2 && f p.1) ps k _ Hk) as H. unfold held. simpl in H. specialize (H Hf). lia. Qed.

Lemma provider_of i : of_provider (provider i) i = true.
Proof. by apply bool_decide_eq_true_2. Qed.
Lemma identity_of i : of_identity i i = true.
Proof. by apply bool_decide_eq_true_2. Qed.

Lemma acquire_inv expired i w : inv w -> inv (run_op (Acquire expired i) w).
Proof.
  intros [Hg Hp He (B1 & B2 & B3)]. simpl. unfold acquire.
  destruct (_available i (ctl w)) eqn:Ea; simpl; [|destruct (_closed (ctl w)); [done|by destruct expired]].
  destruct (_closed (ctl w)); [done|]. unfold _available in Ea. zbool.
  rewrite (counts_ok_count _ _ _ Hp) in *. rewrite (counts_ok_count _ _ _ He) in *.
  split; simpl.
  - rewrite held_grant, Hg. simpl. lia.
  - rewrite <- (counts_ok_count _ _ (provider i) Hp). eapply counts_ok_incr; [exact Hp|intros; apply held_nonneg| |].
    + by rewrite held_grant, provider_of.
    + intros q Hq. rewrite held_grant. unfold of_provider at 2. rewrite bool_decide_eq_false_2 by done. simpl. lia.
  - rewrite <- (counts_ok_count _ _ i He). eapply counts_ok_incr; [exact He|intros; apply held_nonneg| |].
    + by rewrite held_grant, identity_of.
    + intros j Hj. rewrite held_grant. unfold of_identity at 2. rewrite bool_decide_eq_false_2 by done. simpl. lia.
  - split_and!; [rewrite held_grant; simpl; lia|intros q|intros j]; rewrite held_grant.
    + specialize (B2 q). unfold of_provider at 2. case_bool_decide; simpl; [subst; lia|lia].
    + specialize (B3 j). unfold of_identity at 2. case_bool_decide; simpl; [subst; lia|lia].
Qed.

Lemma release_live i w k :
  inv w -> permits w !! k = Some (i, false) ->
  exists s', _release i (ctl w) = (s', Ok tt) /\ _closed s' = _closed (ctl w) /\
    inv (mkWorld s' (<[k := (i, true)]> (permits w))).
Proof.
  intros [Hg Hp He (B1 & B2 & B3)] Hk. unfold _release.
  rewrite (counts_ok_count _ _ _ Hp), (counts_ok_count _ _ _ He), Hg.
  pose proof (held_pos (fun _ => true) _ _ _ Hk eq_refl) as P1.
  pose proof (held_pos (of_provider (provider i)) _ _ _ Hk (provider_of i)) as P2.
  pose proof (held_pos (of_identity i) _ _ _ Hk (identity_of i)) as P3.
  rewrite !(proj2 (Z.leb_gt _ _)) by done. simpl.
  destruct (counts_ok_decr _ _ (fun q => held (of_provider q) (<[k := (i, true)]> (permits w))) (provider i) Hp)
    as (ps & -> & Hps); [done|by rewrite (held_release _ _ _ _ Hk), provider_of| |].
  { intros q Hq. rewrite (held_release _ _ _ _ Hk). unfold of_provider at 2.
    rewrite bool_decide_eq_false_2 by done. simpl. lia. }
  destruct (counts_ok_decr _ _ (fun j => held (of_identity j) (<[k := (i, true)]> (permits w))) i He)
    as (es & -> & Hes); [done|by rewrite (held_release _ _ _ _ Hk), identity_of| |].
  { intros j Hj. rewrite (held_release _ _ _ _ Hk). unfold of_identity at 2.
    rewrite bool_decide_eq_false_2 by done. simpl. lia. }
  eexists. split_and!; [done|done|]. split; simpl; [|done|done|].
  - rewrite (held_release _ _ _ _ Hk). done.
  - split_and!; [|intros q|intros j]; rewrite (held_release _ _ _ _ Hk).
    + simpl. lia.
    + specialize (B2 q). destruct (of_provider q i); simpl; lia.
    + specialize (B3 j). destruct (of_identity j i); simpl; lia.
Qed.

Lemma run_op_inv o w : inv w -> inv (run_op o w).
Proof.
  intros Hw. destruct o as [expired i|k|]; [by apply acquire_inv| |by destruct Hw].
  simpl. destruct (permits w !! k) as [[i [|]]|] eqn:Ek; [..|done]; unfold permit_release; simpl.
  - rewrite list_insert_id by done. by destruct w.
  - destruct (release_live i w k Hw Ek) as (s' & -> & _ & Hinv). done.
Qed.

Lemma run_inv ops : inv (run ops).
Proof.
  unfold run. assert (inv (mkWorld init [])) as H0.
  { split; simpl; try done; [by intros k; rewrite decide_True..|]. unfold held; simpl. split_and!; intros; lia. }
  revert H0. generalize (mkWorld init []). induction ops as [|o ops IH]; intros w Hw; [done|].
  simpl. apply IH. by apply run_op_inv.
Qed.

(** The bulkheads count exactly the permits in flight and never exceed their bounds.
    After any history, the global, provider and endpoint counters are the numbers of
    permits held there, within their limits; a caller waits or times out exactly when
    one of the three bounds is reached; releasing a held permit always succeeds and
    frees its three places, and releasing it again raises and changes nothing. *)
Theorem bulkhead_exact ops :
  let w := run ops in
  (_global_in_flight (ctl w) = held (fun _ => true) (permits w) /\ _global_in_flight (ctl w) <= Z.max 0 (_global_limit l)) /\
  (forall q, let n := count q (_provider_in_flight (ctl w)) in
     n = held (of_provider q) (permits w) /\ n <= Z.max 0 (_provider_limit l)) /\
  (forall i, let n := in_flight i (ctl w) in
     n = held (of_identity i) (permits w) /\ n <= Z.max 0 (_endpoint_limit l)) /\
  (forall i expired, _closed (ctl w) = false ->
     snd (acquire expired i (ctl w)) = Ok Granted <->
     held (fun _ => true) (permits w) < _global_limit l /\
     held (of_provider (provider i)) (permits w) < _provider_limit l /\
     held (of_identity i) (permits w) < _endpoint_limit l) /\
  (forall k i, permits w !! k = Some (i, false) ->
     let '(p, s, o) := permit_release (i, false) (ctl w) in
     o = Ok tt /\ p = (i, true) /\ in_flight i s = in_flight i (ctl w) - 1 /\
     permit_release p s = (p, s, Raise RuntimeError)).
Proof.
  intros w. pose proof (run_inv ops) as Hw. fold w in Hw.
  pose proof Hw as [Hg Hp He (B1 & B2 & B3)]. split_and!.
  - done.
  - by rewrite Hg.
  - intros q. cbv zeta. by rewrite (counts_ok_count _ _ _ Hp).
  - intros i. cbv zeta. unfold in_flight. by rewrite (counts_ok_count _ _ _ He).
  - intros i expired Hc. unfold acquire, _available. rewrite Hc, Hg.
    rewrite (counts_ok_count _ _ _ Hp), (counts_ok_count _ _ _ He).
    rewrite <- !Z.ltb_lt. destruct (_ <? _global_limit l), (_ <? _provider_limit l), (_ <? _endpoint_limit l);
      simpl; destruct expired; naive_solver.
  - intros k i Hk. destruct (release_live i w k Hw Hk) as (s' & E & _ & [_ _ He' _]).
    unfold permit_release; simpl. rewrite E. split_and!; try done.
    unfold in_flight. rewrite (counts_ok_count _ _ _ He), (counts_ok_count _ _ _ He').
    simpl. by rewrite (held_release _ _ _ _ Hk), identity_of.
Qed.
End controller.

Definition demo : limits := mkLimits 3 2 1.
Definition azure : BulkheadIdentity := mkIdentity "azure" "east" "responses".

Example bulkhead_exact_witness :
  valid_limits demo = true /\
  let w := run demo [Acquire false azure; Release 0; Acquire true azure] in
  (forall k i, permits w !! k = Some (i, false) ->
     let '(p, s, o) := permit_release (i, false) (ctl w) in o = Ok tt) /\
  snd (acquire demo true azure (ctl w)) = Raise TimeoutError.
Proof.
  split; [reflexivity|]. split; [|reflexivity]. intros k i Hk.
  pose proof (proj2 (proj2 (proj2 (proj2 (bulkhead_exact demo [Acquire false azure; Release 0; Acquire true azure]))))
    k i Hk) as H.
  destruct (permit_release _ _) as [[p s] o]. exact (proj1 H).
Defined.
End Bulkhead.
