(* ===== verification/Calendar.v ===== *)
(** * Naive date-times

    Python's [datetime] without a zone, to the minute, as the cron code uses it: the
    proleptic Gregorian calendar of the years 1 to 9999, [weekday], [replace] and the
    addition of one minute, hour or day. [minutes] counts from the first of January of
    the year 1; the additions are shown to be additions of that count, and the order of
    the counts is the order of the fields. *)

From S2P Require Import Prelude.
From stdpp Require Import base list.

Open Scope mote_scope.
Open Scope Z_scope.

Module DateTime.

Record t := mk { year : Z; month : Z; day : Z; hour : Z; minute : Z }.

#[export] Instance t_eq_dec : EqDecision t.
Proof. solve_decision. Defined.

Inductive error := ValueError | OverflowError.

Definition leap (y : Z) : bool :=
  (y mod 4 =? 0) && (negb (y mod 100 =? 0) || (y mod 400 =? 0)).

Definition days_in_month (y m : Z) : Z :=
  if m =? 2 then (if leap y then 29 else 28)
  else if (m =? 4) || (m =? 6) || (m =? 9) || (m =? 11) then 30 else 31.

Definition days_before_year (y : Z) : Z :=
  (y - 1) * 365 + (y - 1) / 4 - (y - 1) / 100 + (y - 1) / 400.

Definition days_before_month (y m : Z) : Z :=
  match m with
  | 1 => 0 | 2 => 31 | 3 => 59 | 4 => 90 | 5 => 120 | 6 => 151
  | 7 => 181 | 8 => 212 | 9 => 243 | 10 => 273 | 11 => 304 | _ => 334
  end + (if (2 <? m) && leap y then 1 else 0).

Definition toordinal (d : t) : Z :=
  days_before_year (year d) + days_before_month (year d) (month d) + day d.

(** Monday is 0. *)
Definition weekday (d : t) : Z := (toordinal d + 6) mod 7.

Definition valid (d : t) : bool :=
  (1 <=? year d) && (year d <=? 9999) && (1 <=? month d) && (month d <=? 12)
  && (1 <=? day d) && (day d <=? days_in_month (year d) (month d))
  && (0 <=? hour d) && (hour d <=? 23) && (0 <=? minute d) && (minute d <=? 59).

Definition minutes (d : t) : Z := toordinal d * 1440 + hour d * 60 + minute d.

(** [datetime(...)] and [d.replace(...)]: the fields are checked. *)
Definition make (d : t) : outcome error t := if valid d then Ok d else Raise ValueError.

(** [d + timedelta(days=1)]. *)
Definition plus_day (d : t) : outcome error t :=
  if day d <? days_in_month (year d) (month d)
  then Ok (mk (year d) (month d) (day d + 1) (hour d) (minute d))
  else if month d <? 12 then Ok (mk (year d) (month d + 1) 1 (hour d) (minute d))
  else if year d <? 9999 then Ok (mk (year d + 1) 1 1 (hour d) (minute d))
  else Raise OverflowError.

(** [d + timedelta(hours=1)]. *)
Definition plus_hour (d : t) : outcome error t :=
  if hour d <? 23 then Ok (mk (year d) (month d) (day d) (hour d + 1) (minute d))
  else plus_day (mk (year d) (month d) (day d) 0 (minute d)).

(** [d + timedelta(minutes=1)]. *)
Definition plus_minute (d : t) : outcome error t :=
  if minute d <? 59 then Ok (mk (year d) (month d) (day d) (hour d) (minute d + 1))
  else plus_hour (mk (year d) (month d) (day d) (hour d) 0).

Definition at_midnight (d : t) : t := mk (year d) (month d) (day d) 0 0.

Definition at_hour (d : t) : t := mk (year d) (month d) (day d) (hour d) 0.

Lemma valid_fields d :
  valid d = true <->
  1 <= year d <= 9999 /\ 1 <= month d <= 12
  /\ 1 <= day d <= days_in_month (year d) (month d)
  /\ 0 <= hour d <= 23 /\ 0 <= minute d <= 59.
Proof. unfold valid. rewrite !andb_true_iff, !Z.leb_le. lia. Qed.

Lemma leap_spec y :
  (if leap y then 1 else 0) = days_before_year (y + 1) - days_before_year y - 365.
Proof.
  unfold leap, days_before_year. replace (y + 1 - 1) with y by lia.
  assert (forall k, 0 < k -> y / k = (y - 1) / k + (if y mod k =? 0 then 1 else 0)) as H.
  { intros k Hk. pose proof (Z.div_mod y k ltac:(lia)) as E.
    pose proof (Z.mod_pos_bound y k Hk) as B.
    destruct (Z.eqb_spec (y mod k) 0) as [Z0|Z0].
    - replace (y - 1) with ((y / k - 1) * k + (k - 1)) by lia.
      rewrite Z.div_add_l, (Z.div_small (k - 1)); lia.
    - replace (y - 1) with (y / k * k + (y mod k - 1)) by lia.
      rewrite Z.div_add_l, (Z.div_small (y mod k - 1)); lia. }
  rewrite (H 4), (H 100), (H 400) by lia.
  assert (y mod 400 = 0 -> y mod 100 = 0) as H1.
  { intros [q ->]%Z.mod_divide; [|lia]. replace (q * 400) with (q * 4 * 100) by lia.
    apply Z.mod_mul. lia. }
  assert (y mod 100 = 0 -> y mod 4 = 0) as H2.
  { intros [q ->]%Z.mod_divide; [|lia]. replace (q * 100) with (q * 25 * 4) by lia.
    apply Z.mod_mul. lia. }
  destruct (Z.eqb_spec (y mod 4) 0), (Z.eqb_spec (y mod 100) 0),
    (Z.eqb_spec (y mod 400) 0); simpl; lia.
Qed.

Lemma days_before_year_mono y y' : y <= y' -> days_before_year y <= days_before_year y'.
Proof.
  intros H. replace y' with (y + Z.of_nat (Z.to_nat (y' - y))) by lia.
  induction (Z.to_nat (y' - y)) as [|n IH]; [rewrite Z.add_0_r; lia|].
  pose proof (leap_spec (y + Z.of_nat n)) as E.
  replace (y + Z.of_nat (S n)) with (y + Z.of_nat n + 1) by lia.
  destruct (leap _); lia.
Qed.

Ltac by_month m :=
  let H := fresh in
  assert (m = 1 \/ m = 2 \/ m = 3 \/ m = 4 \/ m = 5 \/ m = 6 \/ m = 7 \/ m = 8
          \/ m = 9 \/ m = 10 \/ m = 11 \/ m = 12) as H by lia;
  destruct H as [H|[H|[H|[H|[H|[H|[H|[H|[H|[H|[H|H]]]]]]]]]]]; rewrite ?H in *.

Lemma days_before_month_step y m :
  1 <= m <= 11 ->
  days_before_month y (m + 1) = days_before_month y m + days_in_month y m.
Proof.
  intros H. unfold days_before_month, days_in_month.
  by_month m; try lia; simpl; destruct (leap y); reflexivity.
Qed.

Lemma days_before_month_mono y m m' :
  1 <= m -> m < m' -> m' <= 12 ->
  days_before_month y m + days_in_month y m <= days_before_month y m'.
Proof.
  intros H1 H2 H3. unfold days_before_month, days_in_month.
  by_month m; by_month m'; try lia; simpl; destruct (leap y); lia.
Qed.

Lemma days_before_month_year y m :
  1 <= m <= 12 ->
  days_before_year y + days_before_month y m + days_in_month y m
  <= days_before_year (y + 1).
Proof.
  intros H. pose proof (leap_spec y) as E. unfold days_before_month, days_in_month.
  by_month m; simpl; destruct (leap y); lia.
Qed.

Lemma days_in_december y :
  days_before_month y 12 + 31 = 365 + (if leap y then 1 else 0).
Proof. unfold days_before_month. simpl. destruct (leap y); reflexivity. Qed.

Lemma days_in_month_pos y m : 28 <= days_in_month y m <= 31.
Proof. unfold days_in_month. repeat case_match; lia. Qed.

Definition month_start (d : t) : Z :=
  days_before_year (year d) + days_before_month (year d) (month d).

Definition month_before (u v : t) : Prop :=
  year u < year v \/ year u = year v /\ month u < month v.

Lemma month_before_ordinal u v :
  valid u = true -> valid v = true -> month_before u v -> toordinal u <= month_start v.
Proof.
  rewrite !valid_fields. intros Hu Hv [Hb|[Hb1 Hb2]]; unfold toordinal, month_start.
  - pose proof (days_before_month_year (year u) (month u) ltac:(lia)).
    pose proof (days_before_year_mono (year u + 1) (year v) ltac:(lia)).
    assert (0 <= days_before_month (year v) (month v)); [|lia].
    assert (month v = 1 \/ 1 < month v) as [E|E] by lia.
    { rewrite E. done. }
    pose proof (days_before_month_mono (year v) 1 (month v) ltac:(lia) E ltac:(lia)).
    pose proof (days_in_month_pos (year v) 1). unfold days_before_month in *. simpl in *. lia.
  - rewrite Hb1 in *.
    pose proof (days_before_month_mono (year v) (month u) (month v)). lia.
Qed.

Lemma same_month u v :
  valid u = true -> valid v = true ->
  month_start v < toordinal u <= month_start v + days_in_month (year v) (month v) ->
  year u = year v /\ month u = month v.
Proof.
  intros Hu Hv H.
  destruct (decide (year u = year v /\ month u = month v)) as [|Hne]; [done|].
  assert (month_before u v \/ month_before v u) as [Hb|Hb].
  { unfold month_before. lia. }
  - pose proof (month_before_ordinal _ _ Hu Hv Hb). lia.
  - assert (valid (mk (year v) (month v) (days_in_month (year v) (month v))
                      (hour v) (minute v)) = true) as Hv'.
    { apply valid_fields in Hv. apply valid_fields. simpl.
      pose proof (days_in_month_pos (year v) (month v)). lia. }
    assert (toordinal (mk (year v) (month v) (days_in_month (year v) (month v))
                         (hour v) (minute v)) <= month_start u) as Hle.
    { by apply month_before_ordinal. }
    apply valid_fields in Hu. unfold toordinal, month_start in *. simpl in *. lia.
Qed.

(** Two dates with one ordinal are one date. *)
Lemma same_day u v :
  valid u = true -> valid v = true -> toordinal u = toordinal v ->
  year u = year v /\ month u = month v /\ day u = day v.
Proof.
  intros Hu Hv H.
  destruct (same_month u v Hu Hv) as [E1 E2].
  { apply valid_fields in Hv. unfold toordinal, month_start in *. lia. }
  unfold toordinal in H. rewrite E1, E2 in H. lia.
Qed.

Lemma minutes_split u v :
  valid u = true -> valid v = true -> minutes u <= minutes v ->
  toordinal u <= toordinal v.
Proof. rewrite !valid_fields. unfold minutes. lia. Qed.

Lemma minutes_inj u v :
  valid u = true -> valid v = true -> minutes u = minutes v -> u = v.
Proof.
  intros Hu Hv H.
  assert (toordinal u = toordinal v) as E.
  { pose proof (minutes_split u v Hu Hv ltac:(lia)).
    pose proof (minutes_split v u Hv Hu ltac:(lia)). lia. }
  destruct (same_day u v Hu Hv E) as (? & ? & ?).
  apply valid_fields in Hu, Hv. unfold minutes in H. rewrite E in H.
  destruct u, v. simpl in *. f_equal; lia.
Qed.

(** What a step forward of [n] minutes does: it lands on the date-time that many
    minutes later, or raises because the calendar ends before it. *)
Definition advances (n : Z) (d : t) (o : outcome error t) : Prop :=
  match o with
  | Ok d' => valid d' = true /\ minutes d' = minutes d + n
  | Raise _ => forall u, valid u = true -> minutes u < minutes d + n
  end.

Lemma plus_day_raises d e :
  valid d = true -> plus_day d = Raise e ->
  year d = 9999 /\ month d = 12 /\ day d = 31.
Proof.
  rewrite valid_fields. unfold plus_day. intros Hv.
  destruct (Z.ltb_spec (day d) (days_in_month (year d) (month d))); [done|].
  destruct (Z.ltb_spec (month d) 12); [done|].
  destruct (Z.ltb_spec (year d) 9999); [done|]. intros _.
  assert (month d = 12) as E by lia.
  assert (days_in_month (year d) (month d) = 31) by (rewrite E; done). lia.
Qed.

Lemma last_day u d :
  valid u = true -> year d = 9999 -> month d = 12 -> day d = 31 ->
  toordinal u <= toordinal d.
Proof.
  rewrite valid_fields. intros Hu E1 E2 E3. unfold toordinal. rewrite E1, E2, E3.
  pose proof (days_before_month_year (year u) (month u) ltac:(lia)) as H.
  pose proof (days_before_year_mono (year u + 1) 10000 ltac:(lia)).
  pose proof (leap_spec 9999) as L. change (9999 + 1) with 10000 in L.
  pose proof (days_in_december 9999). change (leap 9999) with false in *. lia.
Qed.

Lemma plus_day_ordinal d d' :
  valid d = true -> plus_day d = Ok d' ->
  valid d' = true /\ toordinal d' = toordinal d + 1
  /\ hour d' = hour d /\ minute d' = minute d.
Proof.
  rewrite !valid_fields. unfold plus_day, toordinal. intros Hv.
  destruct (Z.ltb_spec (day d) (days_in_month (year d) (month d))).
  { intros [= <-]. simpl. lia. }
  destruct (Z.ltb_spec (month d) 12).
  { intros [= <-]. simpl.
    rewrite days_before_month_step by lia.
    pose proof (days_in_month_pos (year d) (month d + 1)). lia. }
  destruct (Z.ltb_spec (year d) 9999); [|done]. intros [= <-]. simpl.
  assert (month d = 12) as E by lia.
  assert (days_in_month (year d) (month d) = 31) by (rewrite E; done).
  rewrite !E in *. pose proof (days_in_december (year d)). pose proof (leap_spec (year d)).
  pose proof (days_in_month_pos (year d + 1) 1).
  change (days_before_month (year d + 1) 1) with 0. lia.
Qed.

Lemma plus_day_advances d : valid d = true -> advances 1440 d (plus_day d).
Proof.
  intros Hv. destruct (plus_day d) as [d'|e] eqn:E; simpl.
  - destruct (plus_day_ordinal d d' Hv E) as (? & ? & ? & ?).
    split; [done|]. unfold minutes. lia.
  - intros u Hu. destruct (plus_day_raises d e Hv E) as (? & ? & ?).
    pose proof (last_day u d Hu ltac:(done) ltac:(done) ltac:(done)).
    apply valid_fields in Hu, Hv. unfold minutes. lia.
Qed.

Lemma valid_at_midnight d : valid d = true -> valid (at_midnight d) = true.
Proof. rewrite !valid_fields. simpl. lia. Qed.

Lemma valid_at_hour d : valid d = true -> valid (at_hour d) = true.
Proof. rewrite !valid_fields. simpl. lia. Qed.

Lemma advances_shift n n' d d' o :
  advances n d o -> minutes d + n = minutes d' + n' -> advances n' d' o.
Proof.
  destruct o as [r|e]; simpl.
  - intros [? ?] ?. split; [done|lia].
  - intros H E u Hu. specialize (H u Hu). lia.
Qed.

Lemma plus_hour_advances d : valid d = true -> advances 60 d (plus_hour d).
Proof.
  intros Hv. pose proof (proj1 (valid_fields d) Hv) as B. unfold plus_hour.
  destruct (Z.ltb_spec (hour d) 23) as [H|H].
  - simpl. rewrite valid_fields. unfold minutes, toordinal. simpl. lia.
  - eapply advances_shift.
    + apply plus_day_advances. apply valid_fields. simpl. lia.
    + unfold minutes, toordinal. simpl. lia.
Qed.

Lemma plus_minute_advances d : valid d = true -> advances 1 d (plus_minute d).
Proof.
  intros Hv. pose proof (proj1 (valid_fields d) Hv) as B. unfold plus_minute.
  destruct (Z.ltb_spec (minute d) 59) as [H|H].
  - simpl. rewrite valid_fields. unfold minutes, toordinal. simpl. lia.
  - eapply advances_shift.
    + apply plus_hour_advances. apply valid_fields. simpl. lia.
    + unfold minutes, toordinal. simpl. lia.
Qed.

End DateTime.
