(* ===== verification/Cron.v ===== *)
(** * Cron expressions

    [orchestration/automation/cron/expression.py]: the five fields of an expression, the
    next minute that matches it, the jitter added to it, and its rendering for people.
    The local zone is an argument ([Zone]): the minute a time stamp falls in, and the
    time stamp of a minute. Times are in milliseconds; the product of the jitter is an
    exact rational, truncated where the code truncates it. *)

From S2P Require Import Prelude Text Calendar.
From Stdlib Require Import Ascii String.
From stdpp Require Import base list strings gmap sorting.

Open Scope string_scope.
Open Scope list_scope.
Open Scope mote_scope.
Open Scope Z_scope.

Module Cron.

Inductive exn := ValueError | OverflowError | ZeroDivisionError.

Definition of_text {A} (o : outcome Text.error A) : outcome exn A :=
  match o with Ok a => Ok a | Raise Text.ValueError => Raise ValueError end.

Definition of_datetime {A} (o : outcome DateTime.error A) : outcome exn A :=
  match o with
  | Ok a => Ok a
  | Raise DateTime.ValueError => Raise ValueError
  | Raise DateTime.OverflowError => Raise OverflowError
  end.

(** [int(s)] of a string that is all digits. *)
Definition int (s : string) : outcome exn Z := of_text (Text.int_of s).

(** ** Fields *)

Record CronFields := mk_fields {
  minute : list Z;
  hour : list Z;
  day_of_month : list Z;
  month : list Z;
  day_of_week : list Z
}.

Definition _FIELD_RANGES : list (Z * Z) := [(0, 59); (0, 23); (1, 31); (1, 12); (0, 6)].

Definition add_all (vs : list Z) (out : gset Z) : gset Z := list_to_set vs ∪ out.

Definition is_dow (rng : Z * Z) : bool := (rng.1 =? 0) && (rng.2 =? 6).

(** One comma-separated part; [Ok None] is the early [return None]. *)
Definition expand_part (rng : Z * Z) (part : string) : outcome exn (option (list Z)) :=
  let '(lo_bound, hi_bound) := rng in
  if bool_decide (part = "*") || Text.startswith part "*/" then
    if bool_decide (part = "*") then Ok (Some (Text.py_range lo_bound (hi_bound + 1) 1))
    else
      let step_str := Text.drop_chars 2 part in
      if negb (Text.isdigit step_str) then Ok None
      else
        let? step := int step_str in
        if step <? 1 then Ok None
        else Ok (Some (Text.py_range lo_bound (hi_bound + 1) step))
  else if Text.contains "-" part then
    let '(range_part, _, step_part) := Text.partition "/" part in
    let '(lo_str, _, hi_str) := Text.partition "-" range_part in
    if negb (Text.isdigit lo_str && Text.isdigit hi_str) then Ok None
    else
      let? lo := int lo_str in
      let? hi := int hi_str in
      if negb (bool_decide (step_part = "")) && negb (Text.isdigit step_part) then Ok None
      else
        let? step := if bool_decide (step_part = "") then Ok 1 else int step_part in
        let eff_max := if is_dow rng then 7 else hi_bound in
        if (hi <? lo) || (step <? 1) || (lo <? lo_bound) || (eff_max <? hi) then Ok None
        else Ok (Some ((fun i => if is_dow rng && (i =? 7) then 0 else i)
                         <$> Text.py_range lo (hi + 1) step))
  else if Text.isdigit part then
    let? n := int part in
    let n := if is_dow rng && (n =? 7) then 0 else n in
    if (n <? lo_bound) || (hi_bound <? n) then Ok None else Ok (Some [n])
  else Ok None.

Fixpoint expand_parts (rng : Z * Z) (parts : list string) (out : gset Z) :
    outcome exn (option (gset Z)) :=
  match parts with
  | [] => Ok (Some out)
  | part :: rest =>
      let? r := expand_part rng part in
      match r with
      | None => Ok None
      | Some vs => expand_parts rng rest (add_all vs out)
      end
  end.

Definition _expand_field (field : string) (rng : Z * Z) : outcome exn (option (list Z)) :=
  let? r := expand_parts rng (Text.split_on "," field) ∅ in
  match r with
  | None => Ok None
  | Some out =>
      if bool_decide (out = ∅) then Ok None else Ok (Some (merge_sort Z.le (elements out)))
  end.

Fixpoint expand_fields (parts : list string) (rngs : list (Z * Z)) :
    outcome exn (option (list (list Z))) :=
  match parts, rngs with
  | part :: parts', rng :: rngs' =>
      let? r := _expand_field part rng in
      match r with
      | None => Ok None
      | Some result =>
          let? rest := expand_fields parts' rngs' in
          Ok (cons result <$> rest)
      end
  | _, _ => Ok (Some [])
  end.

Definition parse_cron_expression (expr : string) : outcome exn (option CronFields) :=
  let parts := Text.split_ws (Text.strip expr) in
  if negb (length parts =? 5)%nat then Ok None
  else
    let? r := expand_fields parts _FIELD_RANGES in
    match r with
    | Some [mi; ho; dom; mo; dow] => Ok (Some (mk_fields mi ho dom mo dow))
    | _ => Ok None
    end.

(** ** The next run *)

Definition _start_of_next_month (t : DateTime.t) : outcome DateTime.error DateTime.t :=
  if DateTime.month t =? 12
  then DateTime.make (DateTime.mk (DateTime.year t + 1) 1 1 0 0)
  else DateTime.make (DateTime.mk (DateTime.year t) (DateTime.month t + 1) 1 0 0).

Definition mem (z : Z) (l : list Z) : bool := bool_decide (z ∈ l).

Definition dom_wild (fields : CronFields) : bool := (length (day_of_month fields) =? 31)%nat.

Definition dow_wild (fields : CronFields) : bool := (length (day_of_week fields) =? 7)%nat.

Definition day_matches (fields : CronFields) (t : DateTime.t) : bool :=
  let dom := DateTime.day t in
  let dow := (DateTime.weekday t + 1) mod 7 in
  if dom_wild fields && dow_wild fields then true
  else if dom_wild fields then mem dow (day_of_week fields)
  else if dow_wild fields then mem dom (day_of_month fields)
  else mem dom (day_of_month fields) || mem dow (day_of_week fields).

(** The loop of [compute_next_cron_run], for [n] iterations. *)
Fixpoint search (fields : CronFields) (n : nat) (t : DateTime.t) :
    outcome DateTime.error (option DateTime.t) :=
  match n with
  | O => Ok None
  | S n' =>
      if negb (mem (DateTime.month t) (month fields)) then
        let? t := _start_of_next_month t in search fields n' t
      else if negb (day_matches fields t) then
        let? t := DateTime.plus_day (DateTime.at_midnight t) in search fields n' t
      else if negb (mem (DateTime.hour t) (hour fields)) then
        let? t := DateTime.plus_hour (DateTime.at_hour t) in search fields n' t
      else if negb (mem (DateTime.minute t) (minute fields)) then
        let? t := DateTime.plus_minute t in search fields n' t
      else Ok (Some t)
  end.

Definition max_iter : nat := Z.to_nat (366 * 24 * 60).

#[local] Arguments max_iter : simpl never.

Lemma max_iter_eq : Z.of_nat max_iter = 366 * 24 * 60.
Proof. unfold max_iter. apply Z2Nat.id. discriminate. Qed.

(** The local zone: [fromtimestamp] to the minute, and [timestamp] in milliseconds. *)
Record Zone := {
  fromtimestamp : Z -> outcome exn DateTime.t;
  timestamp : DateTime.t -> outcome exn Z
}.

Definition compute_next_cron_run (zone : Zone) (fields : CronFields) (from_ms : Z) :
    outcome exn (option Z) :=
  let? t := fromtimestamp zone from_ms in
  let? t := of_datetime (DateTime.plus_minute t) in
  let? r := of_datetime (search fields max_iter t) in
  match r with
  | None => Ok None
  | Some t => let? ms := timestamp zone t in Ok (Some ms)
  end.

Definition _next_cron_run_ms (zone : Zone) (cron : string) (from_ms : Z) :
    outcome exn (option Z) :=
  let? fields := parse_cron_expression cron in
  match fields with
  | None => Ok None
  | Some fields => compute_next_cron_run zone fields from_ms
  end.

(** ** Jitter *)

(** [CronJitterConfig] of [task.py]. *)
Record CronJitterConfig := {
  recurring_frac : Q;
  recurring_cap_ms : Z;
  one_shot_max_ms : Z;
  one_shot_floor_ms : Z;
  one_shot_minute_mod : Z;
  recurring_max_age_ms : Z
}.

Definition DEFAULT_CRON_JITTER_CONFIG : CronJitterConfig := {|
  recurring_frac := 1 # 10;
  recurring_cap_ms := 15 * 60 * 1000;
  one_shot_max_ms := 90 * 1000;
  one_shot_floor_ms := 0;
  one_shot_minute_mod := 30;
  recurring_max_age_ms := 7 * 24 * 60 * 60 * 1000
|}.

(** [hashlib.md5] read as the code reads it: the first eight hex digits of the digest. *)
Definition digest_head := string -> Z.

(** The fraction as the numerator over [2 ^ 32]; [int(head, 16)] may raise. *)
Definition _jitter_value (md5 : digest_head) (task_id : string) : Z :=
  match Text.int16 (Text.take_chars 8 task_id) with
  | Ok value => value
  | Raise Text.ValueError => md5 task_id
  end.

Definition _jitter_frac (md5 : digest_head) (task_id : string) : Q :=
  _jitter_value md5 task_id # 4294967296.

(** [int(q)]: towards zero. *)
Definition trunc (q : Q) : Z := Z.quot (Qnum q) (Zpos (Qden q)).

Definition jittered_next_cron_run_ms (zone : Zone) (md5 : digest_head) (cron : string)
    (from_ms : Z) (task_id : string) (cfg : CronJitterConfig) : outcome exn (option Z) :=
  let? t1 := _next_cron_run_ms zone cron from_ms in
  match t1 with
  | None => Ok None
  | Some t1 =>
      let? t2 := _next_cron_run_ms zone cron t1 in
      match t2 with
      | None => Ok (Some t1)
      | Some t2 =>
          let spread := (_jitter_frac md5 task_id * recurring_frac cfg * inject_Z (t2 - t1))%Q in
          let cap := inject_Z (recurring_cap_ms cfg) in
          let jitter := if Qle_bool spread cap then spread else cap in
          Ok (Some (trunc (inject_Z t1 + jitter)%Q))
      end
  end.

Definition one_shot_jittered_next_cron_run_ms (zone : Zone) (md5 : digest_head)
    (cron : string) (from_ms : Z) (task_id : string) (cfg : CronJitterConfig) :
    outcome exn (option Z) :=
  let? t1 := _next_cron_run_ms zone cron from_ms in
  match t1 with
  | None => Ok None
  | Some t1 =>
      let? t := fromtimestamp zone t1 in
      if one_shot_minute_mod cfg =? 0 then Raise ZeroDivisionError
      else if negb (DateTime.minute t mod one_shot_minute_mod cfg =? 0) then Ok (Some t1)
      else
        let lead := (inject_Z (one_shot_floor_ms cfg)
                     + _jitter_frac md5 task_id
                       * inject_Z (one_shot_max_ms cfg - one_shot_floor_ms cfg))%Q in
        let early := (inject_Z t1 - lead)%Q in
        Ok (Some (trunc (if Qle_bool (inject_Z from_ms) early then early else inject_Z from_ms)))
  end.

(** ** Rendering *)

Definition _DAY_NAMES : list string :=
  ["Sunday"; "Monday"; "Tuesday"; "Wednesday"; "Thursday"; "Friday"; "Saturday"].

(** [strftime("%I:%M %p")] with the leading zeros stripped. The arguments of [datetime]
    are C integers. *)
Definition _format_local_time (minute hour : Z) : outcome exn string :=
  let? d := if (2147483647 <? hour) || (2147483647 <? minute) then Raise OverflowError
            else of_datetime (DateTime.make (DateTime.mk 2000 1 1 hour minute)) in
  let h := DateTime.hour d in
  let i := if h mod 12 =? 0 then 12 else h mod 12 in
  Ok (Text.lstrip (fun c => bool_decide (c = "0"%char))
        (Text.fmt02 i +:+ ":" +:+ Text.fmt02 (DateTime.minute d) +:+ " "
           +:+ (if h <? 12 then "AM" else "PM"))).

Definition isdigit_step (s : string) : bool :=
  Text.startswith s "*/" && Text.isdigit (Text.drop_chars 2 s).

Definition cron_to_human (cron : string) : outcome exn string :=
  match Text.split_ws (Text.strip cron) with
  | [mi; ho; dom; mo; dow] =>
      let star s := bool_decide (s = "*") in
      let wild_rest := star dom && star mo && star dow in
      if isdigit_step mi && star ho && wild_rest then
        let? n := int (Text.drop_chars 2 mi) in
        Ok (if n =? 1 then "Every minute" else "Every " +:+ Text.fmt n +:+ " minutes")
      else if Text.isdigit mi && star ho && wild_rest then
        let? m := int mi in
        Ok (if m =? 0 then "Every hour" else "Every hour at :" +:+ Text.fmt02 m)
      else if Text.isdigit mi && isdigit_step ho && wild_rest then
        let? n := int (Text.drop_chars 2 ho) in
        let? m := int mi in
        let suffix := if m =? 0 then "" else " at :" +:+ Text.fmt02 m in
        Ok (if n =? 1 then "Every hour" +:+ suffix
            else "Every " +:+ Text.fmt n +:+ " hours" +:+ suffix)
      else if negb (Text.isdigit mi && Text.isdigit ho) then Ok cron
      else
        let? m := int mi in
        let? h := int ho in
        if wild_rest then
          let? time := _format_local_time m h in Ok ("Every day at " +:+ time)
        else if star dom && star mo && (String.length dow =? 1)%nat && Text.isdigit dow then
          let? day := int dow in
          let? time := _format_local_time m h in
          Ok ("Every " +:+ nth (Z.to_nat (day mod 7)) _DAY_NAMES "" +:+ " at " +:+ time)
        else if star dom && star mo && bool_decide (dow = "1-5") then
          let? time := _format_local_time m h in Ok ("Weekdays at " +:+ time)
        else Ok cron
  | _ => Ok cron
  end.

(** ** The search finds the least match *)

(** A minute matches when every field does; the days are joined as in [day_matches]. *)
Definition matches (fields : CronFields) (t : DateTime.t) : bool :=
  mem (DateTime.month t) (month fields) && day_matches fields t
  && mem (DateTime.hour t) (hour fields) && mem (DateTime.minute t) (minute fields).

(** No minute from [t] up to the count [stop] matches. *)
Definition none_before (fields : CronFields) (t : DateTime.t) (stop : Z) : Prop :=
  forall u, DateTime.valid u = true ->
    DateTime.minutes t <= DateTime.minutes u < stop -> matches fields u = false.

Definition search_post (fields : CronFields) (n : nat) (t : DateTime.t)
    (o : outcome DateTime.error (option DateTime.t)) : Prop :=
  match o with
  | Ok (Some r) =>
      DateTime.valid r = true /\ matches fields r = true
      /\ DateTime.minutes t <= DateTime.minutes r
      /\ none_before fields t (DateTime.minutes r)
  | Ok None => none_before fields t (DateTime.minutes t + Z.of_nat n)
  | Raise _ => forall stop, none_before fields t stop
  end.

(** One iteration that moves [t] forward over minutes that do not match. *)
Lemma search_skip fields n t k o :
  0 < k ->
  DateTime.advances k t o ->
  none_before fields t (DateTime.minutes t + k) ->
  (forall t', DateTime.valid t' = true -> search_post fields n t' (search fields n t')) ->
  search_post fields (S n) t (let? t' := o in search fields n t').
Proof.
  intros Hk Ha Hn IH. destruct o as [t'|e]; simpl in *.
  - destruct Ha as [Hv Hm]. specialize (IH t' Hv).
    assert (forall stop, none_before fields t' stop -> none_before fields t stop) as Hs.
    { intros stop H u Hu [H1 H2].
      destruct (Z.lt_ge_cases (DateTime.minutes u) (DateTime.minutes t')).
      - apply Hn; [done|lia].
      - apply H; [done|lia]. }
    destruct (search fields n t') as [[r|]|e]; simpl in *.
    + destruct IH as (? & ? & ? & ?). repeat split; [done|done|lia|auto].
    + intros u Hu [? ?].
      destruct (Z.lt_ge_cases (DateTime.minutes u) (DateTime.minutes t')).
      * apply Hn; [done|lia].
      * apply IH; [done|lia].
    + auto.
  - intros stop u Hu [? ?]. apply Hn; [done|]. specialize (Ha u Hu). lia.
Qed.

(** A minute of the day, the hour and the month of [t] has what [t] has of them. *)
Lemma same_day_no_match fields t u :
  DateTime.year u = DateTime.year t -> DateTime.month u = DateTime.month t ->
  DateTime.day u = DateTime.day t ->
  day_matches fields t = false -> matches fields u = false.
Proof.
  intros E1 E2 E3 Hd. unfold matches.
  assert (day_matches fields u = day_matches fields t) as ->.
  { unfold day_matches, DateTime.weekday, DateTime.toordinal. by rewrite E1, E2, E3. }
  rewrite Hd, andb_false_r. done.
Qed.

Lemma next_month_advances t :
  DateTime.valid t = true ->
  DateTime.advances
    ((DateTime.month_start t + DateTime.days_in_month (DateTime.year t) (DateTime.month t) + 1)
       * 1440 - DateTime.minutes t) t (_start_of_next_month t).
Proof.
  intros Hv. pose proof (proj1 (DateTime.valid_fields t) Hv) as B.
  unfold _start_of_next_month. destruct (Z.eqb_spec (DateTime.month t) 12) as [E|E].
  - unfold DateTime.make. case_match eqn:V; simpl.
    + split; [done|]. unfold DateTime.minutes, DateTime.month_start, DateTime.toordinal.
      cbn [DateTime.year DateTime.month DateTime.day DateTime.hour DateTime.minute].
      change (DateTime.days_before_month (DateTime.year t + 1) 1) with 0.
      pose proof (DateTime.leap_spec (DateTime.year t)).
      pose proof (DateTime.days_in_december (DateTime.year t)).
      assert (DateTime.days_in_month (DateTime.year t) 12 = 31) by done.
      rewrite E. lia.
    + intros u Hu. assert (DateTime.year t = 9999) as Ey.
      { apply Bool.not_true_iff_false in V. rewrite DateTime.valid_fields in V.
        simpl in V. change (DateTime.days_in_month (DateTime.year t + 1) 1) with 31 in V. lia. }
      pose proof (DateTime.last_day u (DateTime.mk 9999 12 31 0 0) Hu eq_refl eq_refl eq_refl).
      apply DateTime.valid_fields in Hu.
      unfold DateTime.minutes, DateTime.month_start, DateTime.toordinal in *. simpl in *.
      assert (DateTime.days_in_month 9999 12 = 31) by done. rewrite Ey, E in *. lia.
  - pose proof (DateTime.days_in_month_pos (DateTime.year t) (DateTime.month t + 1)).
    unfold DateTime.make. replace (DateTime.valid _) with true.
    2:{ symmetry. apply DateTime.valid_fields. simpl. lia. }
    simpl. split; [apply DateTime.valid_fields; simpl; lia|].
    unfold DateTime.minutes, DateTime.month_start, DateTime.toordinal. simpl.
    rewrite DateTime.days_before_month_step by lia. lia.
Qed.

Lemma skip_month fields t :
  DateTime.valid t = true -> mem (DateTime.month t) (month fields) = false ->
  none_before fields t
    ((DateTime.month_start t + DateTime.days_in_month (DateTime.year t) (DateTime.month t) + 1)
       * 1440).
Proof.
  intros Hv Hm u Hu [H1 H2].
  destruct (DateTime.same_month u t Hu Hv) as [E1 E2].
  { pose proof (DateTime.minutes_split t u Hv Hu H1).
    apply DateTime.valid_fields in Hv, Hu.
    unfold DateTime.minutes in *. unfold DateTime.month_start, DateTime.toordinal in *. lia. }
  unfold matches. by rewrite E2, Hm.
Qed.

Lemma same_ordinal u t :
  DateTime.valid u = true -> DateTime.valid t = true ->
  DateTime.minutes t <= DateTime.minutes u < (DateTime.toordinal t + 1) * 1440 ->
  DateTime.toordinal u = DateTime.toordinal t.
Proof.
  intros Hu Hv [H1 H2]. pose proof (DateTime.minutes_split t u Hv Hu H1).
  apply DateTime.valid_fields in Hv, Hu. unfold DateTime.minutes in *. lia.
Qed.

Lemma skip_day fields t :
  DateTime.valid t = true -> day_matches fields t = false ->
  none_before fields t ((DateTime.toordinal t + 1) * 1440).
Proof.
  intros Hv Hd u Hu H.
  destruct (DateTime.same_day u t Hu Hv (same_ordinal u t Hu Hv H)) as (? & ? & ?).
  by apply (same_day_no_match fields t).
Qed.

Lemma skip_hour fields t :
  DateTime.valid t = true -> mem (DateTime.hour t) (hour fields) = false ->
  none_before fields t (DateTime.minutes t + (60 - DateTime.minute t)).
Proof.
  intros Hv Hh u Hu H. pose proof (proj1 (DateTime.valid_fields t) Hv).
  assert (DateTime.toordinal u = DateTime.toordinal t) as E.
  { apply same_ordinal; [done|done|]. unfold DateTime.minutes in *. lia. }
  assert (DateTime.hour u = DateTime.hour t) as Eh.
  { apply DateTime.valid_fields in Hu. unfold DateTime.minutes in *. rewrite E in *. lia. }
  unfold matches. by rewrite Eh, Hh, andb_false_r.
Qed.

Lemma skip_minute fields t :
  DateTime.valid t = true -> mem (DateTime.minute t) (minute fields) = false ->
  none_before fields t (DateTime.minutes t + 1).
Proof.
  intros Hv Hh u Hu H. assert (u = t) as -> by (apply DateTime.minutes_inj; [done|done|lia]).
  unfold matches. by rewrite Hh, andb_false_r.
Qed.

Lemma day_skip_advances t :
  DateTime.valid t = true ->
  DateTime.advances ((DateTime.toordinal t + 1) * 1440 - DateTime.minutes t) t
    (DateTime.plus_day (DateTime.at_midnight t)).
Proof.
  intros Hv. eapply DateTime.advances_shift;
    [apply DateTime.plus_day_advances, DateTime.valid_at_midnight, Hv|].
  unfold DateTime.minutes, DateTime.toordinal. simpl. lia.
Qed.

Lemma hour_skip_advances t :
  DateTime.valid t = true ->
  DateTime.advances (60 - DateTime.minute t) t (DateTime.plus_hour (DateTime.at_hour t)).
Proof.
  intros Hv. eapply DateTime.advances_shift;
    [apply DateTime.plus_hour_advances, DateTime.valid_at_hour, Hv|].
  unfold DateTime.minutes, DateTime.toordinal. simpl. lia.
Qed.

Lemma search_spec fields n t :
  DateTime.valid t = true -> search_post fields n t (search fields n t).
Proof.
  revert t. induction n as [|n IH]; intros t Hv; simpl.
  { intros u Hu ?. lia. }
  pose proof (proj1 (DateTime.valid_fields t) Hv) as B.
  destruct (mem (DateTime.month t) _) eqn:Em; simpl.
  2:{ eapply (search_skip fields n t _ _); [|by apply next_month_advances| |exact IH].
      - unfold DateTime.minutes, DateTime.month_start, DateTime.toordinal. lia.
      - rewrite Zplus_minus. by apply skip_month. }
  destruct (day_matches fields t) eqn:Ed; simpl.
  2:{ eapply (search_skip fields n t ((DateTime.toordinal t + 1) * 1440 - DateTime.minutes t));
        [|by apply day_skip_advances|rewrite Zplus_minus; by apply skip_day|exact IH].
      unfold DateTime.minutes. lia. }
  destruct (mem (DateTime.hour t) _) eqn:Eh; simpl.
  2:{ eapply (search_skip fields n t (60 - DateTime.minute t));
        [lia|by apply hour_skip_advances|by apply skip_hour|exact IH]. }
  destruct (mem (DateTime.minute t) _) eqn:Emi; simpl.
  2:{ eapply (search_skip fields n t 1);
        [lia|by apply DateTime.plus_minute_advances|by apply skip_minute|exact IH]. }
  repeat split; [done| |lia|].
  - unfold matches. by rewrite Em, Ed, Eh, Emi.
  - intros u Hu ?. lia.
Qed.

(** ** The search finds a match that is near enough *)

(** What parsing promises of one field, and of all five. *)
Definition field_ok (rng : Z * Z) (l : list Z) : Prop :=
  l <> [] /\ StronglySorted Z.lt l /\ Forall (fun v => rng.1 <= v <= rng.2) l.

Definition fields_ok (f : CronFields) : Prop :=
  field_ok (0, 59) (minute f) /\ field_ok (0, 23) (hour f)
  /\ field_ok (1, 31) (day_of_month f) /\ field_ok (1, 12) (month f)
  /\ field_ok (0, 6) (day_of_week f).

Definition time_of_day (t : DateTime.t) : Z := DateTime.hour t * 60 + DateTime.minute t.

(** The day of [t] has a match at [t] or later. *)
Definition day_good (fields : CronFields) (t : DateTime.t) : Prop :=
  exists h m, h ∈ hour fields /\ m ∈ minute fields
    /\ 0 <= m <= 59 /\ time_of_day t <= h * 60 + m < 1440.

Lemma midnight_good (fields : CronFields) t : fields_ok fields -> time_of_day t = 0 -> day_good fields t.
Proof.
  intros ([Nm [_ Fm]] & [Nh [_ Fh]] & _) Ht.
  destruct (minute fields) as [|m ?] eqn:Em; [done|].
  destruct (hour fields) as [|h ?] eqn:Eh; [done|].
  apply Forall_cons in Fm as [Fm _], Fh as [Fh _]. simpl in Fm, Fh.
  exists h, m. rewrite Em, Eh. repeat split; [left|left|lia..].
Qed.

(** A move inside a day that stays before its match. *)
Lemma in_day_step t t' k :
  DateTime.valid t = true -> DateTime.valid t' = true ->
  DateTime.minutes t' = DateTime.minutes t + k -> 0 < k ->
  time_of_day t + k < 1440 ->
  DateTime.toordinal t' = DateTime.toordinal t /\ time_of_day t' = time_of_day t + k.
Proof.
  intros Hv Hv' Hm Hk Hd.
  pose proof (proj1 (DateTime.valid_fields t) Hv).
  pose proof (proj1 (DateTime.valid_fields t') Hv').
  unfold DateTime.minutes, time_of_day in *. lia.
Qed.

Lemma not_mem z l : mem z l = false <-> z ∉ l.
Proof. unfold mem. apply bool_decide_eq_false. Qed.

Lemma hour_skip_good (fields : CronFields) t :
  DateTime.valid t = true -> day_good fields t -> mem (DateTime.hour t) (hour fields) = false ->
  time_of_day t + (60 - DateTime.minute t) < 1440
  /\ forall t', time_of_day t' = time_of_day t + (60 - DateTime.minute t) -> day_good fields t'.
Proof.
  intros Hv (h & m & Hh & Hm & Bm & H) Hn%not_mem. apply DateTime.valid_fields in Hv.
  assert (h <> DateTime.hour t) by congruence. unfold time_of_day in *.
  split; [lia|]. intros t' E. exists h, m. unfold time_of_day. repeat split; [done|done|lia..].
Qed.

Lemma minute_skip_good (fields : CronFields) t :
  DateTime.valid t = true -> day_good fields t ->
  mem (DateTime.minute t) (minute fields) = false ->
  time_of_day t + 1 < 1440
  /\ forall t', time_of_day t' = time_of_day t + 1 -> day_good fields t'.
Proof.
  intros Hv (h & m & Hh & Hm & Bm & H) Hn%not_mem. apply DateTime.valid_fields in Hv.
  assert (m <> DateTime.minute t) by congruence. unfold time_of_day in *.
  split; [lia|]. intros t' E. exists h, m. unfold time_of_day. repeat split; [done|done|lia..].
Qed.

Section Near.
Context (fields : CronFields) (u : DateTime.t).
Hypothesis Hok : fields_ok fields.
Hypothesis Hu : DateTime.valid u = true.
Hypothesis Hmatch : matches fields u = true.
#[local] Set Default Proof Using "All".

Definition found (o : outcome DateTime.error (option DateTime.t)) : Prop :=
  exists r, o = Ok (Some r).

(** The iterations still needed: the days to go, and the rest of the day; a day that
    is entered after its last match costs one more. *)
Definition near (n : nat) (t : DateTime.t) : Prop :=
  let days := DateTime.toordinal u - DateTime.toordinal t in
  (time_of_day t = 0 \/ (day_matches fields t = true
                         /\ mem (DateTime.month t) (month fields) = true
                         /\ day_good fields t))
  /\ days + 1440 - time_of_day t < Z.of_nat n
  \/ days + 2881 - time_of_day t < Z.of_nat n.

(** A step to a later minute that skips no match reaches a minute up to [u]. *)
Lemma near_step n t k o :
  0 < k -> DateTime.minutes t <= DateTime.minutes u ->
  DateTime.advances k t o ->
  none_before fields t (DateTime.minutes t + k) ->
  (forall t', o = Ok t' -> DateTime.valid t' = true ->
     DateTime.minutes t' = DateTime.minutes t + k ->
     DateTime.minutes t' <= DateTime.minutes u -> near n t') ->
  (forall t', DateTime.valid t' = true -> DateTime.minutes t' <= DateTime.minutes u ->
     near n t' -> found (search fields n t')) ->
  found (let? t' := o in search fields n t').
Proof.
  intros Hk Htu Ha Hn Hnear IH.
  assert (DateTime.minutes t + k <= DateTime.minutes u) as Hle.
  { destruct (Z.le_gt_cases (DateTime.minutes t + k) (DateTime.minutes u)); [done|].
    rewrite (Hn u Hu) in Hmatch; [done|lia]. }
  destruct o as [t'|e]; simpl in *.
  - destruct Ha as [Hv' Hm]. apply IH; [done|lia|]. apply Hnear; [done|done|done|lia].
  - specialize (Ha u Hu). lia.
Qed.

(** Leaving the day: the next stop is a midnight. *)
Lemma near_next_day n t t' k :
  DateTime.valid t = true -> DateTime.valid t' = true ->
  DateTime.minutes t' = DateTime.minutes t + k ->
  time_of_day t' = 0 -> 0 < k ->
  near (S n) t ->
  (day_matches fields t = true -> mem (DateTime.month t) (month fields) = true ->
   day_good fields t -> time_of_day t = 0) ->
  near n t'.
Proof.
  intros Hv Hv' Hm H0 Hk Hn Hnot. pose proof (proj1 (DateTime.valid_fields t) Hv).
  left. split; [by left|].
  assert (time_of_day t = 0 \/ 0 < time_of_day t < 1440) as Ht
    by (unfold time_of_day; lia).
  assert (DateTime.toordinal t' >= DateTime.toordinal t + 1) as Ho.
  { pose proof (proj1 (DateTime.valid_fields t') Hv').
    unfold DateTime.minutes, time_of_day in *. lia. }
  destruct Hn as [[[E|(E1 & E2 & E3)] Hd]|Hd]; [lia| |lia].
  specialize (Hnot E1 E2 E3). lia.
Qed.

(** A step inside a day that matches, or over its end when nothing is left of it. *)
Lemma near_in_day n t t' k :
  DateTime.valid t = true -> DateTime.valid t' = true ->
  DateTime.minutes t' = DateTime.minutes t + k -> 0 < k ->
  day_matches fields t = true -> mem (DateTime.month t) (month fields) = true ->
  near (S n) t -> time_of_day t + k <= 1440 ->
  (day_good fields t ->
     time_of_day t + k < 1440
     /\ forall v, time_of_day v = time_of_day t + k -> day_good fields v) ->
  near n t'.
Proof.
  intros Hv Hv' Hm Hk Ed Emo Hn Hend Hstep.
  destruct (Z.eq_dec (time_of_day t + k) 1440) as [E|E].
  - apply (near_next_day n t t' k); [done|done|done| |done|done|].
    + apply DateTime.valid_fields in Hv, Hv'. unfold DateTime.minutes, time_of_day in *. lia.
    + intros _ _ Hg. destruct (Hstep Hg). lia.
  - destruct (in_day_step t t' k Hv Hv' Hm Hk ltac:(lia)) as [Eo Et].
    destruct Hn as [[Hf Hd]|Hd]; [left|right; rewrite Eo, Et; lia].
    assert (day_good fields t) as Hg.
    { destruct Hf as [E0|(_ & _ & ?)]; [by apply midnight_good|done]. }
    split; [|rewrite Eo, Et; lia]. right.
    destruct (DateTime.same_day t' t Hv' Hv Eo) as (E1 & E2 & E3).
    split; [|split].
    + unfold day_matches, DateTime.weekday, DateTime.toordinal in *. by rewrite E1, E2, E3.
    + by rewrite E2.
    + by apply Hstep.
Qed.

Lemma near_found n t :
  DateTime.valid t = true -> DateTime.minutes t <= DateTime.minutes u -> near n t ->
  found (search fields n t).
Proof.
  revert t. induction n as [|n IH]; intros t Hv Htu Hn.
  { pose proof (DateTime.minutes_split t u Hv Hu Htu).
    apply DateTime.valid_fields in Hv. unfold near, time_of_day in Hn. lia. }
  pose proof (proj1 (DateTime.valid_fields t) Hv) as B. simpl.
  destruct (mem (DateTime.month t) _) eqn:Em; simpl.
  2:{ eapply near_step; [|exact Htu|by apply next_month_advances| | |exact IH].
      - unfold DateTime.minutes, DateTime.month_start, DateTime.toordinal. lia.
      - rewrite Zplus_minus. by apply skip_month.
      - intros t' E Hv' Hm Hle. eapply near_next_day; [exact Hv|done|exact Hm| | |done|].
        + unfold _start_of_next_month, DateTime.make in E.
          by repeat case_match; simplify_eq/=.
        + unfold DateTime.minutes, DateTime.month_start, DateTime.toordinal. lia.
        + congruence. }
  destruct (day_matches fields t) eqn:Ed; simpl.
  2:{ eapply near_step; [|exact Htu|by apply day_skip_advances
                         |rewrite Zplus_minus; by apply skip_day| |exact IH].
      - unfold DateTime.minutes. lia.
      - intros t' E Hv' Hm Hle. eapply near_next_day; [exact Hv|done|exact Hm| | |done|].
        + apply DateTime.plus_day_ordinal in E as (_ & _ & E1 & E2);
            [|by apply DateTime.valid_at_midnight].
          unfold time_of_day. rewrite E1, E2. done.
        + unfold DateTime.minutes. lia.
        + congruence. }
  destruct (mem (DateTime.hour t) _) eqn:Eh; simpl.
  2:{ eapply near_step; [|exact Htu|by apply hour_skip_advances|by apply skip_hour| |exact IH];
        [lia|].
      intros t' E Hv' Hm Hle.
      apply (near_in_day n t t' (60 - DateTime.minute t)); try done; [lia| |].
      - unfold time_of_day. lia.
      - intros Hg. by apply hour_skip_good. }
  destruct (mem (DateTime.minute t) _) eqn:Emi; simpl.
  2:{ eapply near_step; [|exact Htu|by apply DateTime.plus_minute_advances
                         |by apply skip_minute| |exact IH]; [lia|].
      intros t' E Hv' Hm Hle.
      apply (near_in_day n t t' 1); try done; [|].
      - unfold time_of_day. lia.
      - intros Hg. by apply minute_skip_good. }
  by exists t.
Qed.

End Near.

(** ** Parsing *)

(** What a part of a field denotes. *)
Definition decimal (s : string) (n : Z) : Prop := Text.isdigit s = true /\ int s = Ok n.

Definition wrap (rng : Z * Z) (i : Z) : Z := if is_dow rng && (i =? 7) then 0 else i.

Definition range_max (rng : Z * Z) : Z := if is_dow rng then 7 else rng.2.

Inductive step_suffix : string -> Z -> Prop :=
| suffix_none : step_suffix "" 1
| suffix_bare : step_suffix "/" 1
| suffix_step s k : decimal s k -> 1 <= k -> step_suffix (String "/" s) k.

Inductive part_denotes (rng : Z * Z) : string -> Z -> Prop :=
| denotes_star v : rng.1 <= v <= rng.2 -> part_denotes rng "*" v
| denotes_step s n v :
    decimal s n -> 1 <= n -> rng.1 <= v <= rng.2 -> (v - rng.1) mod n = 0 ->
    part_denotes rng ("*/" +:+ s) v
| denotes_range a i b j suffix k w :
    decimal a i -> decimal b j -> step_suffix suffix k ->
    rng.1 <= i -> j <= range_max rng -> i <= w <= j -> (w - i) mod k = 0 ->
    part_denotes rng ((a +:+ String "-" b) +:+ suffix) (wrap rng w)
| denotes_number s n :
    decimal s n -> rng.1 <= wrap rng n <= rng.2 -> part_denotes rng s (wrap rng n).

Lemma startswith_star_app s : Text.startswith ("*/" +:+ s) "*/" = true.
Proof. unfold Text.startswith. simpl. by destruct s. Qed.

Lemma startswith_star s :
  Text.startswith s "*/" = true -> s = "*/" +:+ Text.drop_chars 2 s.
Proof.
  unfold Text.startswith. destruct s as [|c [|d s]]; [done| |];
    rewrite !Text.prefix_cons; [by rewrite andb_false_r|].
  intros [E1%bool_decide_eq_true [E2%bool_decide_eq_true _]%andb_prop]%andb_prop.
  by subst.
Qed.

Lemma int_digits s n : Text.isdigit s = true -> int s = Ok n -> decimal s n.
Proof. by split. Qed.

Lemma range_part_sound rng lo hi step a b suffix vs v :
  decimal a lo -> decimal b hi -> step_suffix suffix step ->
  (if (hi <? lo) || (step <? 1) || (lo <? rng.1) || (range_max rng <? hi) then Ok None
   else Ok (Some (wrap rng <$> Text.py_range lo (hi + 1) step))) = Ok (E := exn) (Some vs) ->
  v ∈ vs -> part_denotes rng ((a +:+ String "-" b) +:+ suffix) v.
Proof.
  intros Ha Hb Hs.
  destruct (_ || _) eqn:E; [done|]. intros [= <-] (w & -> & Hw)%list_elem_of_fmap.
  rewrite !orb_false_iff, !Z.ltb_ge in E.
  apply Text.elem_of_py_range in Hw as [? ?]; [|lia].
  eapply denotes_range; [exact Ha|exact Hb|exact Hs|lia..|done].
Qed.

Lemma expand_part_sound rng part vs v :
  expand_part rng part = Ok (Some vs) -> v ∈ vs -> part_denotes rng part v.
Proof.
  destruct rng as [lo_bound hi_bound]. unfold expand_part.
  destruct (bool_decide (part = "*")) eqn:Es; simpl.
  { apply bool_decide_eq_true in Es as ->. intros [= <-] Hv.
    apply Text.elem_of_py_range in Hv; [|lia]. constructor. simpl. lia. }
  destruct (Text.startswith part "*/") eqn:Ep; simpl.
  { apply startswith_star in Ep. destruct (Text.isdigit _) eqn:Ed; simpl; [|done].
    intros (n & Hn & H)%outcome_bind_ok Hv.
    destruct (Z.ltb_spec n 1); [done|]. injection H as <-.
    apply Text.elem_of_py_range in Hv as [Hv ?]; [|lia]. rewrite Ep.
    econstructor; [by split|lia|simpl; lia|done]. }
  destruct (Text.contains "-" part) eqn:Ec; simpl.
  - destruct (Text.partition "/" part) as [[range_part f1] step_part] eqn:P1.
    destruct (Text.partition "-" range_part) as [[lo_str f2] hi_str] eqn:P2.
    destruct (Text.isdigit lo_str && Text.isdigit hi_str) eqn:Ed; simpl; [|done].
    apply andb_prop in Ed as [Ed1 Ed2].
    intros (lo & Hlo & H)%outcome_bind_ok Hv. apply outcome_bind_ok in H as (hi & Hhi & H).
    apply Text.partition_spec in P1 as [_ P1], P2 as [_ P2].
    destruct f2; [|by destruct P2 as [_ ->]]. subst range_part.
    assert (part = (lo_str +:+ String "-" hi_str)
                   +:+ (if f1 then String "/" step_part else "")) as ->.
    { destruct f1; [done|]. destruct P1 as [-> _]. by rewrite Text.append_nil_r. }
    destruct (bool_decide (step_part = "")) eqn:Esp; simpl in H.
    + apply bool_decide_eq_true in Esp as ->.
      eapply (range_part_sound (lo_bound, hi_bound) lo hi 1); [by split|by split| |exact H|done].
      destruct f1; constructor.
    + apply bool_decide_eq_false in Esp. destruct f1; [|by destruct P1].
      destruct (Text.isdigit step_part) eqn:Eds; [|done]. simpl in H.
      apply outcome_bind_ok in H as (k & Hk & H).
      eapply (range_part_sound (lo_bound, hi_bound) lo hi k); [by split|by split| |exact H|done].
      constructor; [by split|]. destruct (Z.ltb_spec k 1); [|done].
      rewrite orb_true_r in H. done.
  - destruct (Text.isdigit part) eqn:Ed; [|done].
    intros (n & Hn & H)%outcome_bind_ok Hv. destruct (_ || _) eqn:E; [done|].
    injection H as <-. apply list_elem_of_singleton in Hv as ->.
    rewrite orb_false_iff, !Z.ltb_ge in E.
    apply (denotes_number (lo_bound, hi_bound)); [by split|]. unfold wrap; simpl; lia.
Qed.

Lemma digit_not_star s t : Text.isdigit s = true ->
  bool_decide (s +:+ t = "*") = false /\ Text.startswith (s +:+ t) "*/" = false.
Proof.
  destruct s as [|c s]; [done|]. intros Hd.
  assert (c <> "*"%char) as Hc.
  { intros ->. simpl in Hd. done. }
  split.
  - apply bool_decide_eq_false. by intros [= -> _].
  - unfold Text.startswith. change (String c s +:+ t) with (String c (s +:+ t)).
    rewrite Text.prefix_cons, bool_decide_false by done. done.
Qed.

Lemma range_part_shape a b suffix k :
  Text.isdigit a = true -> Text.isdigit b = true -> step_suffix suffix k ->
  let part := (a +:+ String "-" b) +:+ suffix in
  bool_decide (part = "*") = false /\ Text.startswith part "*/" = false
  /\ Text.contains "-" part = true
  /\ exists found step_part,
       Text.partition "/" part = (a +:+ String "-" b, found, step_part)
       /\ Text.partition "-" (a +:+ String "-" b) = (a, true, b)
       /\ negb (bool_decide (step_part = "")) && negb (Text.isdigit step_part) = false
       /\ (if bool_decide (step_part = "") then Ok 1 else int step_part) = Ok k.
Proof.
  intros Ha Hb Hs part. unfold part. rewrite <- Text.append_assoc.
  destruct (digit_not_star a (String "-" b +:+ suffix) Ha) as [-> ->].
  split; [done|]. split; [done|]. rewrite !Text.append_assoc, !Text.contains_app.
  split; [by rewrite orb_true_r|].
  assert (Text.contains "/" (a +:+ String "-" b) = false) as Hc.
  { rewrite Text.contains_app. simpl. by rewrite !Text.isdigit_no_char. }
  pose proof (Text.partition_app "-" a b (Text.isdigit_no_char a "-" Ha eq_refl)) as P.
  destruct Hs as [| |s k [Hd Hn] Hk].
  - exists false, "". rewrite Text.append_nil_r. by rewrite (Text.partition_absent _ _ Hc).
  - exists true, "". by rewrite (Text.partition_app _ _ _ Hc).
  - exists true, s. rewrite (Text.partition_app _ _ _ Hc), Hd.
    rewrite bool_decide_false; [done|]. by intros ->.
Qed.

Lemma expand_part_digits rng s :
  Text.isdigit s = true ->
  expand_part rng s =
    let? n := int s in
    if (wrap rng n <? rng.1) || (rng.2 <? wrap rng n) then Ok None else Ok (Some [wrap rng n]).
Proof.
  intros Hd. destruct rng as [l h]. unfold expand_part.
  destruct (digit_not_star s "" Hd) as [E1 E2]. rewrite Text.append_nil_r in E1, E2.
  rewrite E1, E2. cbn [orb]. by rewrite (Text.isdigit_no_char s "-" Hd), Hd.
Qed.

Lemma expand_part_complete rng part v :
  part_denotes rng part v -> exists vs, expand_part rng part = Ok (Some vs) /\ v ∈ vs.
Proof.
  destruct rng as [lo_bound hi_bound]. unfold expand_part.
  intros [w Hw|s n w [Hd Hn] H1 Hw Hm|a i b j suffix k w [Ha Hi] [Hb Hj] Hs H1 H2 Hw Hm
         |s n [Hd Hn] Hw]; cbn [fst snd] in *.
  - eexists; split; [done|]. apply Text.elem_of_py_range; [lia|].
    rewrite Z.mod_1_r. lia.
  - rewrite startswith_star_app. rewrite bool_decide_false by done. simpl.
    change ("" +:+ s) with s.
    rewrite Hd, Hn. simpl. destruct (Z.ltb_spec n 1); [lia|].
    eexists; split; [done|]. apply Text.elem_of_py_range; [lia|]. by split; [lia|].
  - pose proof (range_part_shape a b suffix k Ha Hb Hs) as (E1 & E2 & E3 & f & st & P1 & P2 & E4 & E5).
    rewrite E1, E2, E3, P1. simpl. rewrite P2. simpl.
    rewrite Ha, Hb, Hi, Hj. simpl. rewrite E4. simpl. rewrite E5. simpl.
    assert (1 <= k) by (inversion Hs; lia).
    destruct (_ || _) eqn:E.
    { rewrite !orb_true_iff, !Z.ltb_lt in E. unfold range_max in *. simpl in *. lia. }
    eexists; split; [done|]. apply list_elem_of_fmap_2. apply Text.elem_of_py_range; [lia|].
    split; [lia|done].
  - fold (expand_part (lo_bound, hi_bound) s). rewrite expand_part_digits, Hn by done. simpl.
    destruct (_ || _) eqn:E; [rewrite orb_true_iff, !Z.ltb_lt in E; lia|].
    eexists; split; [done|]. by left.
Qed.

Lemma py_range_start lo stop step : 0 < step -> lo < stop -> lo ∈ Text.py_range lo stop step.
Proof.
  intros. apply Text.elem_of_py_range; [done|]. rewrite Z.sub_diag, Z.mod_0_l; lia.
Qed.

Lemma part_in_range rng part v : part_denotes rng part v -> rng.1 <= v <= rng.2.
Proof.
  intros [| | |]; [done|done| |done]. unfold wrap, range_max, is_dow in *.
  destruct rng as [l h]. simpl in *.
  destruct (Z.eqb_spec l 0), (Z.eqb_spec h 6), (Z.eqb_spec w 7); simpl in *; lia.
Qed.

(** An accepted part denotes something, and a part that denotes is accepted. *)
Lemma expand_part_nonempty rng part vs :
  rng.1 <= rng.2 -> expand_part rng part = Ok (Some vs) -> exists v, v ∈ vs.
Proof.
  destruct rng as [lo_bound hi_bound]. cbn [fst snd]. intros Hr. unfold expand_part.
  destruct (bool_decide (part = "*")) eqn:Es; cbn [orb].
  { intros [= <-]. eexists. apply py_range_start; lia. }
  destruct (Text.startswith part "*/").
  { destruct (Text.isdigit _); simpl; [|done].
    intros (n & _ & H)%outcome_bind_ok. destruct (Z.ltb_spec n 1); [done|].
    injection H as <-. eexists. apply py_range_start; lia. }
  destruct (Text.contains "-" part).
  - destruct (Text.partition "/" part) as [[range_part f1] step_part].
    destruct (Text.partition "-" range_part) as [[lo_str f2] hi_str].
    destruct (_ && _); simpl; [|done].
    intros (lo & _ & H)%outcome_bind_ok. apply outcome_bind_ok in H as (hi & _ & H).
    destruct (_ && _); [done|]. apply outcome_bind_ok in H as (step & _ & H).
    destruct (_ || _) eqn:E; [done|]. rewrite !orb_false_iff, !Z.ltb_ge in E.
    injection H as <-. eexists. apply list_elem_of_fmap_2, py_range_start; lia.
  - destruct (Text.isdigit part); [|done]. intros (n & _ & H)%outcome_bind_ok.
    destruct (_ || _); [done|]. injection H as <-. eexists. by left.
Qed.

Lemma elem_of_add_all v vs out : v ∈ add_all vs out <-> v ∈ vs \/ v ∈ out.
Proof. unfold add_all. by rewrite elem_of_union, elem_of_list_to_set. Qed.

Definition accepted (rng : Z * Z) (parts : list string) : Prop :=
  Forall (fun p => exists v, part_denotes rng p v) parts.

Lemma expand_parts_sound rng parts out out' :
  rng.1 <= rng.2 -> expand_parts rng parts out = Ok (Some out') ->
  accepted rng parts
  /\ forall v, v ∈ out' <-> v ∈ out \/ exists p, p ∈ parts /\ part_denotes rng p v.
Proof.
  intros Hr. revert out. induction parts as [|p parts IH]; simpl; intros out.
  { intros [= <-]. split; [by constructor|]. intros v. split; [by left|].
    by intros [?|(p & Hp%not_elem_of_nil & _)]. }
  intros (r & Hp & H)%outcome_bind_ok. destruct r as [vs|]; [|done].
  destruct (IH _ H) as [Ha Hv]. split.
  { constructor; [|done]. destruct (expand_part_nonempty _ _ _ Hr Hp) as [v Hin].
    exists v. by eapply expand_part_sound. }
  intros v. rewrite Hv, elem_of_add_all. setoid_rewrite elem_of_cons.
  assert (v ∈ vs <-> part_denotes rng p v) as ->.
  { split; [by apply (expand_part_sound _ _ _ _ Hp)|].
    intros (vs' & E & Hin)%expand_part_complete. congruence. }
  naive_solver.
Qed.

Lemma expand_parts_complete rng parts out :
  accepted rng parts -> exists out', expand_parts rng parts out = Ok (Some out').
Proof.
  intros Ha. revert out. induction Ha as [|p parts [v Hv] _ IH]; simpl; intros out.
  { by eexists. }
  apply expand_part_complete in Hv as (vs & -> & _). simpl. apply IH.
Qed.

(** What a field of an expression is expanded to. *)
Definition field_parsed (rng : Z * Z) (field : string) (l : list Z) : Prop :=
  let parts := Text.split_on "," field in
  accepted rng parts /\ field_ok rng l
  /\ forall v, v ∈ l <-> exists p, p ∈ parts /\ part_denotes rng p v.

Lemma sorted_lt_NoDup (l : list Z) : StronglySorted Z.lt l -> NoDup l.
Proof.
  induction 1 as [|x l _ IH Hx]; constructor; [|done].
  intros Hin. rewrite Forall_forall in Hx. specialize (Hx x Hin). lia.
Qed.

Lemma sorted_elements (out : gset Z) :
  StronglySorted Z.lt (merge_sort Z.le (elements out))
  /\ forall v, v ∈ merge_sort Z.le (elements out) <-> v ∈ out.
Proof.
  split.
  - assert (StronglySorted Z.le (merge_sort Z.le (elements out))) as Hs.
    { apply (StronglySorted_merge_sort Z.le). }
    assert (NoDup (merge_sort Z.le (elements out))) as Hn.
    { rewrite merge_sort_Permutation. apply NoDup_elements. }
    induction Hs as [|x l Hs IH Hx]; constructor.
    + apply IH. by inversion Hn.
    + apply Forall_forall. intros y Hy.
      apply NoDup_cons in Hn as [Hn _].
      rewrite Forall_forall in Hx. specialize (Hx y Hy).
      assert (x <> y) by congruence. lia.
  - intros v. by rewrite merge_sort_Permutation, elem_of_elements.
Qed.

Lemma expand_field_exact rng field l :
  rng.1 <= rng.2 -> _expand_field field rng = Ok (Some l) <-> field_parsed rng field l.
Proof.
  intros Hr. unfold _expand_field, field_parsed. split.
  - intros (r & Hp & H)%outcome_bind_ok. destruct r as [out|]; [|done].
    case_bool_decide as E; [done|]. injection H as <-.
    destruct (expand_parts_sound _ _ _ _ Hr Hp) as [Ha Hv].
    destruct (sorted_elements out) as [Hs He].
    assert (forall v, v ∈ out <-> exists p, p ∈ Text.split_on "," field /\ part_denotes rng p v)
      as Hv' by (intros v; rewrite Hv; set_solver).
    split; [done|]. split; [|intros v; by rewrite He].
    split; [|split; [done|]].
    + intros E'. apply E. apply set_eq. intros v. rewrite <- He, E'. set_solver.
    + apply Forall_forall. intros v (p & _ & ?%part_in_range)%He%Hv'. done.
  - intros (Ha & (Hne & Hs & _) & Hv).
    destruct (expand_parts_complete _ _ ∅ Ha) as [out Ho].
    rewrite Ho. simpl.
    destruct (expand_parts_sound _ _ _ _ Hr Ho) as [_ Hv'].
    destruct (sorted_elements out) as [Hs2 He].
    assert (forall v, v ∈ out <-> v ∈ l) as Hol by (intros v; rewrite Hv, Hv'; set_solver).
    rewrite bool_decide_false.
    2:{ intros ->. destruct l as [|v l]; [done|]. assert (v ∈ (∅ : gset Z)); [|set_solver].
        apply Hol. by left. }
    do 2 f_equal.
    apply (StronglySorted_unique_strong Z.lt);
      [intros ?? _ _ ??; lia|done|done|].
    apply NoDup_Permutation; [by apply sorted_lt_NoDup|by apply sorted_lt_NoDup|].
    intros v. by rewrite He.
Qed.

Definition expression_parsed (expr : string) (f : CronFields) : Prop :=
  exists a b c d e, Text.split_ws (Text.strip expr) = [a; b; c; d; e]
    /\ field_parsed (0, 59) a (minute f) /\ field_parsed (0, 23) b (hour f)
    /\ field_parsed (1, 31) c (day_of_month f) /\ field_parsed (1, 12) d (month f)
    /\ field_parsed (0, 6) e (day_of_week f).

Lemma expand_fields_cons part parts rng rngs ls :
  expand_fields (part :: parts) (rng :: rngs) = Ok (Some ls) <->
  exists l ls', ls = l :: ls' /\ _expand_field part rng = Ok (Some l)
    /\ expand_fields parts rngs = Ok (Some ls').
Proof.
  simpl. rewrite outcome_bind_ok. split.
  - intros ([l|] & H1 & H2); [|done].
    apply outcome_bind_ok in H2 as ([ls'|] & H2 & [= <-]).
    by exists l, ls'.
  - intros (l & ls' & -> & H1 & H2). exists (Some l). split; [done|]. by rewrite H2.
Qed.

Lemma expand_fields_nil ls : expand_fields [] [] = Ok (Some ls) <-> ls = [].
Proof. simpl. split; [by intros [= <-]|by intros ->]. Qed.

Lemma parse_spec expr f :
  parse_cron_expression expr = Ok (Some f) <-> expression_parsed expr f.
Proof.
  unfold parse_cron_expression, expression_parsed, _FIELD_RANGES.
  generalize (Text.split_ws (Text.strip expr)) as words. intros words.
  destruct (Nat.eqb_spec (length words) 5) as [E|E]; cbn [negb].
  2:{ split; [done|]. intros (? & ? & ? & ? & ? & -> & _). done. }
  destruct words as [|a [|b [|c [|d [|e [|? ?]]]]]]; try done. clear E. split.
  - intros ([ls|] & H & Hf)%outcome_bind_ok; [|done].
    apply expand_fields_cons in H as (mi & ls1 & -> & H1 & H).
    apply expand_fields_cons in H as (ho & ls2 & -> & H2 & H).
    apply expand_fields_cons in H as (dom & ls3 & -> & H3 & H).
    apply expand_fields_cons in H as (mo & ls4 & -> & H4 & H).
    apply expand_fields_cons in H as (dow & ls5 & -> & H5 & ->%expand_fields_nil).
    injection Hf as <-. exists a, b, c, d, e.
    split; [done|]. simpl. rewrite <- !expand_field_exact by done. done.
  - intros (? & ? & ? & ? & ? & [= <- <- <- <- <-] & H).
    rewrite <- !expand_field_exact in H by done. destruct H as (H1 & H2 & H3 & H4 & H5).
    cbn [expand_fields]. rewrite H1, H2, H3, H4, H5. simpl. by destruct f.
Qed.

Lemma expression_fields_ok expr f : expression_parsed expr f -> fields_ok f.
Proof. unfold expression_parsed, fields_ok, field_parsed. intros (a & b & c & d & e & _ & H). tauto. Qed.

(** C18: An expression is accepted exactly when it has five words and every comma-separated
    part of each is a star, a star with a step, a range, a range with a step, or a
    number inside the bounds of its field (a seven is a Sunday). The fields then hold
    exactly the values these parts denote: never empty, in range, strictly sorted. *)
Theorem cron_parse_exact expr f :
  (parse_cron_expression expr = Ok (Some f) <-> expression_parsed expr f)
  /\ (parse_cron_expression expr = Ok (Some f) -> fields_ok f).
Proof.
  split; [apply parse_spec|]. intros H. eapply expression_fields_ok. by apply parse_spec.
Qed.

Lemma cron_parse_exact_witness :
  fields_ok (mk_fields [0; 20; 40] [9] [1; 15] [6] [0; 5; 6]).
Proof.
  apply (cron_parse_exact "*/20 9 15,1 6 5-7"). vm_compute. reflexivity.
Defined.

(** ** The zone and the next run *)

(** No minute strictly between the two counts matches. *)
Definition none_between (f : CronFields) (start stop : Z) : Prop :=
  forall u, DateTime.valid u = true ->
    start < DateTime.minutes u < stop -> matches f u = false.

Definition next_run_post (zone : Zone) (f : CronFields) (t0 : DateTime.t)
    (o : outcome exn (option Z)) : Prop :=
  match o with
  | Ok (Some ms) =>
      exists r, DateTime.valid r = true /\ matches f r = true
        /\ DateTime.minutes t0 < DateTime.minutes r /\ timestamp zone r = Ok ms
        /\ none_between f (DateTime.minutes t0) (DateTime.minutes r)
  | Ok None => none_between f (DateTime.minutes t0) (DateTime.minutes t0 + 366 * 24 * 60 + 1)
  | Raise e =>
      (exists r, DateTime.valid r = true /\ matches f r = true
         /\ DateTime.minutes t0 < DateTime.minutes r /\ timestamp zone r = Raise e)
      \/ forall stop, none_between f (DateTime.minutes t0) stop
  end.

Lemma none_before_between f t t0 stop :
  DateTime.minutes t = DateTime.minutes t0 + 1 -> none_before f t stop ->
  none_between f (DateTime.minutes t0) stop.
Proof. intros E H u Hu ?. apply H; [done|lia]. Qed.

Lemma next_run_spec zone f from_ms t0 :
  fromtimestamp zone from_ms = Ok t0 -> DateTime.valid t0 = true ->
  next_run_post zone f t0 (compute_next_cron_run zone f from_ms).
Proof.
  intros Hf Hv. unfold compute_next_cron_run.
  generalize max_iter, max_iter_eq. intros n Hn. rewrite Hf. simpl.
  pose proof (DateTime.plus_minute_advances t0 Hv) as Ha.
  destruct (DateTime.plus_minute t0) as [t|e]; simpl in *.
  2:{ destruct e; simpl; right; intros stop u Hu ?; specialize (Ha u Hu); lia. }
  destruct Ha as [Hvt Hm]. pose proof (search_spec f n t Hvt) as Hs.
  destruct (search f n t) as [[r|]|e]; simpl in *.
  - destruct Hs as (Hr & Hmr & Hle & Hb).
    destruct (timestamp zone r) as [ms|e] eqn:Et; simpl.
    + exists r. repeat split; [done|done|lia|done|]. by eapply none_before_between.
    + left. exists r. repeat split; [done|done|lia|done].
  - eapply none_before_between; [done|]. intros u Hu ?. apply Hs; [done|]. lia.
  - destruct e; simpl; right; intros stop; by eapply none_before_between.
Qed.

(** A zone whose offset does not change: a later minute has a later time stamp. *)
Class ZoneLaws (zone : Zone) : Prop := {
  zone_valid : forall ms t, fromtimestamp zone ms = Ok t -> DateTime.valid t = true;
  zone_after : forall ms t r ts,
    fromtimestamp zone ms = Ok t -> DateTime.valid r = true ->
    DateTime.minutes t < DateTime.minutes r -> timestamp zone r = Ok ts -> ms < ts
}.

(** UTC, from the epoch on. *)
Fixpoint plus_days (n : nat) (d : DateTime.t) : outcome DateTime.error DateTime.t :=
  match n with
  | O => Ok d
  | S n' => let? d := DateTime.plus_day d in plus_days n' d
  end.

Definition epoch : DateTime.t := DateTime.mk 1970 1 1 0 0.

Definition utc : Zone := {|
  fromtimestamp ms :=
    if ms <? 0 then Raise OverflowError
    else
      let minute := ms / 60000 in
      let? d := of_datetime (plus_days (Z.to_nat (minute / 1440)) epoch) in
      Ok (DateTime.mk (DateTime.year d) (DateTime.month d) (DateTime.day d)
            (minute / 60 mod 24) (minute mod 60));
  timestamp t := Ok ((DateTime.minutes t - DateTime.minutes epoch) * 60000)
|}.

Lemma plus_days_spec n d d' :
  DateTime.valid d = true -> plus_days n d = Ok d' ->
  DateTime.valid d' = true /\ DateTime.toordinal d' = DateTime.toordinal d + Z.of_nat n.
Proof.
  revert d. induction n as [|n IH]; simpl; intros d Hv.
  { intros [= <-]. split; [done|lia]. }
  intros (d1 & H1 & H2)%outcome_bind_ok.
  apply DateTime.plus_day_ordinal in H1 as (Hv1 & Ho & _); [|done].
  destruct (IH d1 Hv1 H2). split; [done|lia].
Qed.

Lemma of_datetime_ok {A} (o : outcome DateTime.error A) a : of_datetime o = Ok a -> o = Ok a.
Proof. destruct o as [|[]]; simpl; congruence. Qed.

Lemma utc_minutes ms t :
  fromtimestamp utc ms = Ok t ->
  DateTime.valid t = true /\ DateTime.minutes t = DateTime.minutes epoch + ms / 60000.
Proof.
  cbn [fromtimestamp utc]. destruct (Z.ltb_spec ms 0) as [|H0]; [done|].
  intros (d & Hd & H)%outcome_bind_ok. injection H as <-.
  apply of_datetime_ok, plus_days_spec in Hd as [Hv Ho]; [|done].
  assert (0 <= ms / 60000) as Hm by (apply Z.div_pos; lia).
  generalize dependent (ms / 60000). intros m Ho Hm.
  assert (0 <= m / 1440) by (apply Z.div_pos; lia). rewrite Z2Nat.id in Ho by done.
  assert (m / 60 / 24 = m / 1440) as E by (rewrite Z.div_div by lia; done).
  pose proof (Z.div_mod m 60 ltac:(lia)). pose proof (Z.div_mod (m / 60) 24 ltac:(lia)).
  pose proof (Z.mod_pos_bound m 60 ltac:(lia)).
  pose proof (Z.mod_pos_bound (m / 60) 24 ltac:(lia)).
  split.
  - apply DateTime.valid_fields in Hv. apply DateTime.valid_fields. simpl. lia.
  - unfold DateTime.minutes in *. unfold DateTime.toordinal in *. simpl in *. lia.
Qed.

#[export] Instance utc_laws : ZoneLaws utc.
Proof.
  split.
  - intros ms t H. by apply utc_minutes in H as [? _].
  - intros ms t r ts H _ Hlt. cbn [timestamp utc]. intros [= <-].
    apply utc_minutes in H as [_ E].
    pose proof (Z.div_mod ms 60000 ltac:(lia)). pose proof (Z.mod_pos_bound ms 60000).
    lia.
Qed.

(** The next run is the least minute after [from_ms] that the fields match: no
    matching minute in between is skipped, although the search jumps over whole months,
    days and hours. [None] means that no minute of the next 366 days matches; a raise
    means that the zone has no time stamp for the match, or that no minute up to the
    end of the calendar matches. *)
Theorem cron_next_run_least zone f from_ms t0 :
  fromtimestamp zone from_ms = Ok t0 -> DateTime.valid t0 = true ->
  next_run_post zone f t0 (compute_next_cron_run zone f from_ms).
Proof. apply next_run_spec. Qed.

Lemma cron_next_run_least_witness :
  exists f, parse_cron_expression "30 13 * * 1" = Ok (Some f)
    /\ next_run_post utc f epoch (compute_next_cron_run utc f 59000)
    /\ compute_next_cron_run utc f 59000 = Ok (Some 394200000).
Proof.
  destruct (parse_cron_expression "30 13 * * 1") as [[f|]|] eqn:E; [|discriminate E..].
  exists f. split; [done|]. vm_compute in E. injection E as <-.
  split; [apply cron_next_run_least; reflexivity|vm_compute; reflexivity].
Defined.

(** The search of a parsed expression finds a run whenever one exists in the next
    1,400 years, so the bound on its iterations never hides a run that the calendar
    has, such as the twenty-ninth of February. *)
Theorem cron_next_run_found expr f t u :
  parse_cron_expression expr = Ok (Some f) ->
  DateTime.valid t = true -> DateTime.valid u = true -> matches f u = true ->
  DateTime.minutes t <= DateTime.minutes u <= DateTime.minutes t + 1400 * 365 * 1440 ->
  exists r, search f max_iter t = Ok (Some r) /\ matches f r = true
    /\ DateTime.minutes t <= DateTime.minutes r <= DateTime.minutes u.
Proof.
  intros Hp Hv Hu Hm Hle. generalize max_iter, max_iter_eq. intros n En.
  assert (fields_ok f) as Hok by (apply parse_spec in Hp; by eapply expression_fields_ok).
  assert (found (search f n t)) as [r Hr].
  { apply (near_found f u Hok Hu Hm n t Hv); [lia|]. right.
    apply DateTime.valid_fields in Hv, Hu. unfold DateTime.minutes, time_of_day in *. lia. }
  pose proof (search_spec f n t Hv) as H. rewrite Hr in H.
  destruct H as (? & ? & ? & Hn). exists r. repeat split; [done|done|done|].
  destruct (Z.le_gt_cases (DateTime.minutes r) (DateTime.minutes u)); [done|].
  rewrite (Hn u Hu) in Hm; [done|lia].
Qed.

Lemma cron_next_run_found_witness :
  exists f r, parse_cron_expression "0 0 29 2 *" = Ok (Some f)
    /\ search f max_iter (DateTime.mk 2025 3 1 0 0) = Ok (Some r)
    /\ DateTime.minutes r <= DateTime.minutes (DateTime.mk 2028 2 29 0 0).
Proof.
  destruct (parse_cron_expression "0 0 29 2 *") as [[f|]|] eqn:E; [|discriminate E..].
  destruct (cron_next_run_found "0 0 29 2 *" f (DateTime.mk 2025 3 1 0 0)
              (DateTime.mk 2028 2 29 0 0)) as (r & H & _ & _ & Hr);
    [done|done|done| |vm_compute; split; discriminate|by exists f, r].
  vm_compute in E. injection E as <-. reflexivity.
Defined.

(** ** Jitter keeps between the runs *)

Lemma next_run_after `{ZoneLaws zone} cron from_ms ms :
  _next_cron_run_ms zone cron from_ms = Ok (Some ms) -> from_ms < ms.
Proof.
  intros (f & _ & Hc)%outcome_bind_ok. destruct f as [f|]; [|done].
  destruct (fromtimestamp zone from_ms) as [t0|e] eqn:Ht.
  - pose proof (next_run_spec zone f from_ms t0 Ht (zone_valid _ _ Ht)) as Hp.
    rewrite Hc in Hp. destruct Hp as (r & Hr & _ & Hlt & Hts & _).
    by eapply zone_after.
  - unfold compute_next_cron_run in Hc. by rewrite Ht in Hc.
Qed.

Lemma trunc_bounds q lo hi :
  0 <= lo -> (inject_Z lo <= q)%Q -> (q <= inject_Z hi)%Q -> lo <= trunc q <= hi.
Proof.
  unfold trunc, Qle, inject_Z. simpl. intros H0 H1 H2.
  assert (0 <= Qnum q) by nia. rewrite Z.quot_div_nonneg by lia.
  split; [apply Z.div_le_lower_bound; lia|].
  apply Z.div_le_upper_bound; lia.
Qed.

(** What a fresh task id has: eight hex digits, so a value below [2 ^ 32]. *)
Definition frac_in_unit (md5 : digest_head) (task_id : string) : Prop :=
  0 <= _jitter_value md5 task_id < 4294967296.

Lemma jitter_frac_unit md5 task_id :
  frac_in_unit md5 task_id -> (0 <= _jitter_frac md5 task_id <= 1)%Q.
Proof. unfold frac_in_unit, _jitter_frac, Qle. simpl. lia. Qed.

Lemma spread_bounds (frac rf : Q) (gap : Z) :
  (0 <= frac <= 1)%Q -> (0 <= rf <= 1)%Q -> 0 <= gap ->
  (0 <= frac * rf * inject_Z gap <= inject_Z gap)%Q.
Proof.
  intros [F1 F2] [R1 R2] Hg.
  assert (0 <= inject_Z gap)%Q as G by (unfold Qle; simpl; lia).
  assert (0 <= frac * rf)%Q as P by (by apply Qmult_le_0_compat).
  split; [by apply Qmult_le_0_compat|].
  rewrite <- (Qmult_1_l (inject_Z gap)) at 2. apply Qmult_le_compat_r; [|done].
  rewrite <- (Qmult_1_l 1). apply Qmult_le_compat_nonneg; by split.
Qed.

Definition config_ok (cfg : CronJitterConfig) : Prop :=
  (0 <= recurring_frac cfg <= 1)%Q /\ 0 <= recurring_cap_ms cfg
  /\ 0 <= one_shot_floor_ms cfg <= one_shot_max_ms cfg.

Lemma Qle_bool_min (a b : Q) :
  let m := if Qle_bool a b then a else b in (m <= a)%Q /\ (m <= b)%Q.
Proof.
  simpl. destruct (Qle_bool a b) eqn:E.
  - apply Qle_bool_iff in E. split; [apply Qle_refl|done].
  - split; [|apply Qle_refl]. apply Qlt_le_weak, Qnot_le_lt.
    intros H%Qle_bool_iff. congruence.
Qed.

Lemma Qle_shift (z hi : Z) (q : Q) :
  (0 <= q)%Q -> (q <= inject_Z (hi - z))%Q ->
  (inject_Z z <= inject_Z z + q)%Q /\ (inject_Z z + q <= inject_Z hi)%Q.
Proof. unfold Qle, Qplus, inject_Z. simpl. intros. split; nia. Qed.

Lemma recurring_bounds `{ZoneLaws zone} md5 cron from_ms task_id cfg r :
  frac_in_unit md5 task_id -> config_ok cfg -> 0 <= from_ms ->
  jittered_next_cron_run_ms zone md5 cron from_ms task_id cfg = Ok (Some r) ->
  exists t1, _next_cron_run_ms zone cron from_ms = Ok (Some t1)
    /\ from_ms < t1 <= r /\ r <= t1 + recurring_cap_ms cfg
    /\ forall t2, _next_cron_run_ms zone cron t1 = Ok (Some t2) -> r <= t2.
Proof.
  intros Hf (Hr & Hcap & _) H0 (t1' & H1 & Hj)%outcome_bind_ok. destruct t1' as [t1|]; [|done].
  apply outcome_bind_ok in Hj as (t2' & H2 & Hj). exists t1.
  pose proof (next_run_after _ _ _ H1) as Hlt. split; [done|].
  destruct t2' as [t2|]; injection Hj as <-.
  2:{ repeat split; [done|lia|lia|]. intros t2 E. congruence. }
  pose proof (next_run_after _ _ _ H2) as Hlt2.
  destruct (spread_bounds (_jitter_frac md5 task_id) (recurring_frac cfg) (t2 - t1)
              (jitter_frac_unit _ _ Hf) Hr ltac:(lia)) as [P1 P2].
  set (spread := (_ * _ * _)%Q) in *.
  destruct (Qle_bool_min spread (inject_Z (recurring_cap_ms cfg))) as [M1 M2].
  assert (0 <= if Qle_bool spread (inject_Z (recurring_cap_ms cfg)) then spread
               else inject_Z (recurring_cap_ms cfg))%Q as M0.
  { destruct (Qle_bool _ _); [done|]. unfold Qle; simpl; lia. }
  set (j := if Qle_bool _ _ then _ else _) in *. simpl in M1, M2.
  destruct (Qle_shift t1 t2 j M0 (Qle_trans _ _ _ M1 P2)) as [B1 B2].
  destruct (Qle_shift t1 (t1 + recurring_cap_ms cfg) j M0) as [_ B3].
  { replace (t1 + recurring_cap_ms cfg - t1) with (recurring_cap_ms cfg) by lia. done. }
  destruct (trunc_bounds _ t1 t2 ltac:(lia) B1 B2).
  destruct (trunc_bounds _ t1 _ ltac:(lia) B1 B3).
  repeat split; [done|done|done|]. intros t2' E. rewrite E in H2. injection H2 as ->. done.
Qed.

Lemma lead_bounds (frac : Q) (floor span : Z) :
  (0 <= frac <= 1)%Q -> 0 <= floor -> 0 <= span ->
  (0 <= inject_Z floor + frac * inject_Z span <= inject_Z (floor + span))%Q.
Proof.
  unfold Qle, Qplus, Qmult, inject_Z. simpl. intros [F1 F2] Hf Hs. split; nia.
Qed.

Lemma one_shot_bounds `{ZoneLaws zone} md5 cron from_ms task_id cfg r :
  frac_in_unit md5 task_id -> config_ok cfg -> 0 <= from_ms ->
  one_shot_jittered_next_cron_run_ms zone md5 cron from_ms task_id cfg = Ok (Some r) ->
  exists t1, _next_cron_run_ms zone cron from_ms = Ok (Some t1)
    /\ from_ms <= r <= t1 /\ t1 - one_shot_max_ms cfg <= r.
Proof.
  intros Hf (_ & _ & Hs1 & Hs2) H0 (t1' & H1 & Hj)%outcome_bind_ok.
  destruct t1' as [t1|]; [|done].
  apply outcome_bind_ok in Hj as (t & Ht & Hj). exists t1.
  pose proof (next_run_after _ _ _ H1) as Hlt. split; [done|].
  destruct (_ =? 0); [done|]. destruct (negb _); injection Hj as <-; [lia|].
  destruct (lead_bounds _ (one_shot_floor_ms cfg) (one_shot_max_ms cfg - one_shot_floor_ms cfg)
              (jitter_frac_unit _ _ Hf) Hs1 ltac:(lia)) as [L1 L2].
  rewrite Zplus_minus in L2. set (lead := (_ + _ * _)%Q) in *.
  assert (forall lo, lo <= t1 - one_shot_max_ms cfg ->
            (inject_Z lo <= inject_Z t1 - lead <= inject_Z t1)%Q) as B.
  { clear - L1 L2. intros lo Hlo. revert L1 L2.
    unfold Qle, Qminus, Qplus, Qopp, inject_Z. simpl. intros. split; nia. }
  destruct (Qle_bool (inject_Z from_ms) (inject_Z t1 - lead)) eqn:E.
  - apply Qle_bool_iff in E. destruct (B _ (Z.le_refl _)) as [B1 B2].
    destruct (trunc_bounds _ from_ms t1 H0 E B2). split; [done|].
    destruct (Z.le_gt_cases 0 (t1 - one_shot_max_ms cfg)); [|lia].
    by destruct (trunc_bounds _ (t1 - one_shot_max_ms cfg) t1 ltac:(done) B1 B2).
  - assert (trunc (inject_Z from_ms) = from_ms) as -> by apply Z.quot_1_r.
    split; [lia|]. destruct (B _ (Z.le_refl _)) as [B1 _].
    assert (~ (inject_Z from_ms <= inject_Z t1 - lead)%Q) as N%Qnot_le_lt.
    { intros ?%Qle_bool_iff. congruence. }
    assert (inject_Z (t1 - one_shot_max_ms cfg) < inject_Z from_ms)%Q as L
      by (by eapply Qle_lt_trans).
    rewrite <- Zlt_Qlt in L. lia.
Qed.

(** Jitter never reorders runs. A recurring task fires at its next run or later, at
    most the cap later, and never after the run that follows; a one-shot task fires at
    its run or earlier, at most the longest lead earlier, and never before the time it
    is computed from. *)
Theorem cron_jitter_bounds `{ZoneLaws zone} md5 cron from_ms task_id cfg r :
  frac_in_unit md5 task_id -> config_ok cfg -> 0 <= from_ms ->
  (jittered_next_cron_run_ms zone md5 cron from_ms task_id cfg = Ok (Some r) ->
   exists t1, _next_cron_run_ms zone cron from_ms = Ok (Some t1)
     /\ from_ms < t1 <= r /\ r <= t1 + recurring_cap_ms cfg
     /\ forall t2, _next_cron_run_ms zone cron t1 = Ok (Some t2) -> r <= t2)
  /\ (one_shot_jittered_next_cron_run_ms zone md5 cron from_ms task_id cfg = Ok (Some r) ->
      exists t1, _next_cron_run_ms zone cron from_ms = Ok (Some t1)
        /\ from_ms <= r <= t1 /\ t1 - one_shot_max_ms cfg <= r).
Proof.
  intros Hf Hc H0. split; [by apply recurring_bounds|by apply (one_shot_bounds md5)].
Qed.

Lemma cron_jitter_bounds_witness :
  exists r t1, jittered_next_cron_run_ms utc (fun _ => 0) "0 * * * *" 0 "80000000"
                 DEFAULT_CRON_JITTER_CONFIG = Ok (Some r)
    /\ _next_cron_run_ms utc "0 * * * *" 0 = Ok (Some t1)
    /\ t1 = 3600000 /\ r = 3780000 /\ t1 <= r.
Proof.
  destruct (jittered_next_cron_run_ms utc (fun _ => 0) "0 * * * *" 0 "80000000"
              DEFAULT_CRON_JITTER_CONFIG) as [[r|]|] eqn:E;
    [|vm_compute in E; discriminate E..].
  destruct (cron_jitter_bounds (zone := utc) (fun _ => 0) "0 * * * *" 0 "80000000"
              DEFAULT_CRON_JITTER_CONFIG r) as [B _];
    [vm_compute; split; [discriminate|reflexivity]
    |repeat split; discriminate|discriminate|].
  destruct (B E) as (t1 & H1 & H2 & _). exists r, t1.
  split; [done|]. split; [done|]. vm_compute in E, H1. injection E as <-. injection H1 as <-.
  repeat split; discriminate.
Defined.

(** ** Rendering an expression that parses *)

Lemma accepted_single rng s :
  Text.contains "," s = false -> accepted rng (Text.split_on "," s) ->
  exists vs, expand_part rng s = Ok (Some vs).
Proof.
  intros Hc. rewrite (Text.split_on_absent _ _ Hc).
  intros [[v Hv] _]%Forall_cons. apply expand_part_complete in Hv as (vs & ? & _). by exists vs.
Qed.

Lemma digits_parsed rng s l :
  field_parsed rng s l -> Text.isdigit s = true ->
  exists n, int s = Ok n /\ rng.1 <= wrap rng n <= rng.2.
Proof.
  intros [Ha _] Hd.
  destruct (accepted_single rng s) as [vs Hvs]; [by apply Text.isdigit_no_char|done|].
  rewrite expand_part_digits in Hvs by done. apply outcome_bind_ok in Hvs as (n & Hn & H).
  exists n. split; [done|]. destruct (_ || _) eqn:E; [done|].
  rewrite orb_false_iff, !Z.ltb_ge in E. lia.
Qed.

Lemma step_parsed rng s l :
  field_parsed rng s l -> isdigit_step s = true ->
  exists n, int (Text.drop_chars 2 s) = Ok n.
Proof.
  intros [Ha _] [Hs Hd]%andb_prop.
  assert (Text.contains "," s = false) as Hc.
  { rewrite (startswith_star s Hs), Text.contains_app, orb_false_iff.
    split; [done|]. by apply Text.isdigit_no_char. }
  destruct (accepted_single rng s Hc Ha) as [vs Hvs]. destruct rng as [lo hi].
  unfold expand_part in Hvs. rewrite Hs, orb_true_r, Hd in Hvs.
  destruct (bool_decide_reflect (s = "*")) as [->|]; [done|]. simpl in Hvs.
  apply outcome_bind_ok in Hvs. destruct Hvs as (k & Hk & _). by exists k.
Qed.

Lemma format_local_time_ok m h :
  0 <= m <= 59 -> 0 <= h <= 23 -> exists s, _format_local_time m h = Ok s.
Proof.
  intros Hm Hh. unfold _format_local_time, DateTime.make.
  destruct (Z.ltb_spec 2147483647 h); [lia|]. destruct (Z.ltb_spec 2147483647 m); [lia|].
  cbn [orb]. replace (DateTime.valid _) with true.
  { simpl. by eexists. }
  symmetry. apply DateTime.valid_fields. simpl.
  change (DateTime.days_in_month 2000 1) with 31. lia.
Qed.

(** Rendering is total on expressions: it answers for every string that parses. A
    string that does not parse can make it raise. *)
Theorem cron_to_human_total expr f :
  parse_cron_expression expr = Ok (Some f) -> exists s, cron_to_human expr = Ok s.
Proof.
  intros (mi & ho & dom & mo & dow & E & Hmi & Hho & _ & _ & Hdow)%parse_spec.
  unfold cron_to_human. rewrite E.
  destruct (isdigit_step mi && _ && _) eqn:C1.
  { apply andb_prop in C1 as [[C1 _]%andb_prop _].
    destruct (step_parsed _ _ _ Hmi C1) as [n ->]. by eexists. }
  destruct (Text.isdigit mi) eqn:Dmi; cbn [andb negb]; [|by eexists].
  destruct (digits_parsed _ _ _ Hmi Dmi) as (m & Em & Bm). rewrite Em. simpl in Bm.
  destruct (bool_decide (ho = "*") && _) eqn:C2; [by eexists|].
  destruct (isdigit_step ho && _) eqn:C3.
  { apply andb_prop in C3 as [C3 _].
    destruct (step_parsed _ _ _ Hho C3) as [n ->]. by eexists. }
  destruct (Text.isdigit ho) eqn:Dho; cbn [andb negb]; [|by eexists].
  destruct (digits_parsed _ _ _ Hho Dho) as (h & Eh & Bh). rewrite Eh. simpl in Bh.
  destruct (format_local_time_ok m h) as [s Hs]; [done|done|].
  cbn [outcome_bind]. rewrite Hs.
  destruct (bool_decide (dom = "*") && bool_decide (mo = "*")); cbn [andb]; [|by eexists].
  destruct (bool_decide (dow = "*")); cbn [andb]; [by eexists|].
  destruct (_ && Text.isdigit dow) eqn:C5.
  { apply andb_prop in C5 as [_ C5].
    destruct (digits_parsed _ _ _ Hdow C5) as (d & -> & _). by eexists. }
  destruct (bool_decide (dow = "1-5")); by eexists.
Qed.

Lemma cron_to_human_total_witness :
  (exists s, cron_to_human "30 13 * * 1-5" = Ok s)
  /\ cron_to_human "99 99 * * *" = Raise ValueError.
Proof.
  split; [|reflexivity].
  destruct (parse_cron_expression "30 13 * * 1-5") as [[f|]|] eqn:E; [|discriminate E..].
  exact (cron_to_human_total "30 13 * * 1-5" f E).
Defined.

End Cron.
