(* ===== verification/Recovery.v ===== *)
(** * The recovery loop

    [runtime/errors/recovery.py]: one call retried under a registry of recovery
    strategies, with a budget. The call and the strategies act on a state of the caller's;
    what the loop decides is proved exactly, for any of them. *)

From S2P Require Import Prelude Failure.
From stdpp Require Import base list.

Open Scope mote_scope.
Open Scope Z_scope.

Module Recovery.

Inductive RecoveryAction :=
| ABORT | RETRY | COMPRESS | ROTATE_CREDENTIAL | FALLBACK | SHRINK_IMAGE
| DOWNGRADE_TOOL_CONTENT | STRIP_REQUEST_STATE.

#[global] Instance RecoveryAction_eq_dec : EqDecision RecoveryAction.
Proof. solve_decision. Defined.

(** [MoteError.recovery]: the class's own hint, else what [retryable] says. *)
Definition recovery (default_recovery : option RecoveryAction) (retryable : bool) :
    RecoveryAction :=
  match default_recovery with
  | Some a => a
  | None => if retryable then RETRY else ABORT
  end.

(** An exception as the loop sees it: typed with its hint, or any other. *)
Inductive error :=
| Typed (default_recovery : option RecoveryAction) (retryable : bool)
| Untyped (e : exc).

Definition _action_for (e : error) : RecoveryAction :=
  match e with
  | Typed d r => recovery d r
  | Untyped e => if is_retryable e then RETRY else ABORT
  end.

Section Runner.
Context {St A E : Type}.
Context (action_for : E -> RecoveryAction).
Context (call : St -> St * outcome E A).
Context (strategies : RecoveryAction -> option (E -> St -> St * outcome E bool)).

(** The [while True] of [run]; [left] is [max_recoveries - recoveries]. *)
Fixpoint loop (left : nat) (s : St) : St * outcome E A :=
  match call s with
  | (s1, Ok a) => (s1, Ok a)
  | (s1, Raise e) =>
      let action := action_for e in
      if bool_decide (action = ABORT) then (s1, Raise e)
      else
        match left with
        | O => (s1, Raise e)
        | S left' =>
            match strategies action with
            | None => (s1, Raise e)
            | Some strategy =>
                match strategy e s1 with
                | (s2, Ok true) => loop left' s2
                | (s2, Ok false) => (s2, Raise e)
                | (s2, Raise e') => (s2, Raise e')
                end
            end
        end
  end.

Definition run (max_recoveries : Z) (s : St) : St * outcome E A :=
  loop (Z.to_nat max_recoveries) s.

(** [recovered n s s']: [n] failed calls in a row, each repaired by its strategy. *)
Inductive recovered : nat -> St -> St -> Prop :=
| recovered_none s : recovered O s s
| recovered_more n s s1 e strategy s2 s' :
    call s = (s1, Raise e) -> action_for e <> ABORT ->
    strategies (action_for e) = Some strategy -> strategy e s1 = (s2, Ok true) ->
    recovered n s2 s' -> recovered (S n) s s'.

(** How the last call ends the run, when [left] recoveries are left. *)
Inductive ends (left : nat) (s : St) : St -> outcome E A -> Prop :=
| ends_value s1 a : call s = (s1, Ok a) -> ends left s s1 (Ok a)
| ends_abort s1 e : call s = (s1, Raise e) -> action_for e = ABORT -> ends left s s1 (Raise e)
| ends_budget s1 e : call s = (s1, Raise e) -> left = O -> ends left s s1 (Raise e)
| ends_no_strategy s1 e :
    call s = (s1, Raise e) -> strategies (action_for e) = None -> ends left s s1 (Raise e)
| ends_not_repaired s1 e strategy s2 :
    call s = (s1, Raise e) -> left <> O -> action_for e <> ABORT ->
    strategies (action_for e) = Some strategy -> strategy e s1 = (s2, Ok false) ->
    ends left s s2 (Raise e)
| ends_strategy_raises s1 e strategy s2 e' :
    call s = (s1, Raise e) -> left <> O -> action_for e <> ABORT ->
    strategies (action_for e) = Some strategy -> strategy e s1 = (s2, Raise e') ->
    ends left s s2 (Raise e').

Lemma loop_sound left s s' o :
  loop left s = (s', o) ->
  exists n sn, (n <= left)%nat /\ recovered n s sn /\ ends (left - n) sn s' o.
Proof.
  revert s. induction left as [|left IH]; intros s; simpl;
    destruct (call s) as [s1 [a|e]] eqn:Hc;
    try (intros [= <- <-]; exists O, s; split; [lia|]; split; constructor; assumption).
  - case_bool_decide as Ha; intros [= <- <-]; exists O, s;
      (split; [lia|]); (split; [constructor|]).
    + by apply ends_abort.
    + by apply ends_budget.
  - case_bool_decide as Ha.
    { intros [= <- <-]; exists O, s. split; [lia|]. split; [constructor|]. by apply ends_abort. }
    destruct (strategies (action_for e)) as [strategy|] eqn:Hs.
    2:{ intros [= <- <-]; exists O, s. split; [lia|]. split; [constructor|].
        by apply ends_no_strategy. }
    destruct (strategy e s1) as [s2 [[]|e']] eqn:Hr.
    + intros (n & sn & Hn & Hrec & He)%IH. exists (S n), sn.
      split; [lia|]. split; [by eapply recovered_more|done].
    + intros [= <- <-]; exists O, s. split; [lia|]. split; [constructor|].
      by eapply ends_not_repaired.
    + intros [= <- <-]; exists O, s. split; [lia|]. split; [constructor|].
      by eapply ends_strategy_raises.
Qed.

Lemma loop_complete n left s sn s' o :
  recovered n s sn -> (n <= left)%nat -> ends (left - n) sn s' o -> loop left s = (s', o).
Proof.
  intros Hr. revert left.
  induction Hr as [s|n s s1 e strategy s2 sn Hc Ha Hs Hr _ IH]; intros left Hn He.
  - rewrite Nat.sub_0_r in He. clear Hn.
    destruct left; simpl; inversion He; subst;
      repeat match goal with H : call _ = _ |- _ => rewrite H; clear H end;
      try done; case_bool_decide; try done;
      repeat match goal with
        | H : strategies _ = _ |- _ => rewrite H; clear H
        | H : _ _ _ = (_, _) |- _ => rewrite H; clear H end; done.
  - destruct left as [|left]; [lia|]. simpl in *. rewrite Hc, bool_decide_false, Hs, Hr by done.
    apply IH; [lia|done].
Qed.

End Runner.

(** A run is a row of failed calls, each classified as repairable and repaired by the
    strategy registered for its action, at most [max_recoveries] of them, and one last
    call that ends it: with its value, or by re-raising what is permanent, over budget,
    without a strategy or not repaired. Permanent failures never reach a strategy. The
    runs that exist are exactly these, so there are at most [max_recoveries + 1] calls. *)
Theorem recovery_run_exact {St A E : Type} (action_for : E -> RecoveryAction)
    (call : St -> St * outcome E A)
    (strategies : RecoveryAction -> option (E -> St -> St * outcome E bool))
    (max_recoveries : Z) (s s' : St) (o : outcome E A) :
  run action_for call strategies max_recoveries s = (s', o) <->
  exists n sn, (n <= Z.to_nat max_recoveries)%nat
    /\ recovered action_for call strategies n s sn
    /\ ends action_for call strategies (Z.to_nat max_recoveries - n) sn s' o.
Proof.
  unfold run. split; [apply loop_sound|].
  intros (n & sn & Hn & Hr & He). by eapply loop_complete.
Qed.

End Recovery.
