(* ===== verification/WorkflowGraph.v ===== *)
(** * Workflow graphs

    [orchestration/workflows/graph.py]: the declaration of a workflow, the folding of
    static edges into AND-joins, the validation of the topology and of the parameters,
    and the queries the engine makes. Routers are functions of the state that may raise;
    what a node does is an argument of [WorkflowEngine.v], not part of the graph. *)

From S2P Require Import Prelude Text.
From Stdlib Require Import String.
From stdpp Require Import base list strings gmap.

Open Scope string_scope.
Open Scope list_scope.
Open Scope mote_scope.
Open Scope Z_scope.

Definition START : string := "__start__".
Definition END : string := "__end__".

Record _Edge := mkEdge { from_node : string; to_node : string }.

Record _WaitingEdge := mkWaiting { sources : list string; target : string }.

(** An LLM edge pauses the graph; [prompt] is what it pushes. *)
Record _LlmEdge := mkLlm {
  llm_from : string;
  prompt : string;
  llm_mapping : list (string * string)
}.

#[export] Instance Edge_eq_dec : EqDecision _Edge.
Proof. solve_decision. Defined.
#[export] Instance WaitingEdge_eq_dec : EqDecision _WaitingEdge.
Proof. solve_decision. Defined.

(** Python's types as the check of parameters looks at them. *)
Inductive ty {C : Type} :=
| TAny
| TNone
| TUnion (args : list ty)
| TClass (c : C).
Arguments ty : clear implicits.

Definition is_none {C} (x : ty C) : bool := match x with TNone => true | _ => false end.

(** [issubclass] on anything but [Any] and unions; [None] is its [TypeError]. *)
Definition subclass_test (C : Type) := ty C -> ty C -> option bool.

Fixpoint _types_compatible {C} (issubclass : subclass_test C) (source target : ty C) : bool :=
  match source, target with
  | TAny, _ | _, TAny => true
  | TUnion args, _ =>
      if forallb is_none args then is_none target
      else
        (fix arms (l : list (ty C)) : bool :=
           match l with
           | [] => true
           | a :: rest => (is_none a || _types_compatible issubclass a target) && arms rest
           end) args
  | _, _ => default true (issubclass source target)
  end.

Module WorkflowBuilder.

(** Why a workflow is refused: the [ValueError] of the builder, by its cause. *)
Inductive error :=
| UnknownNode (n : string)
| UnknownWaitingSource (n : string)
| UnknownWaitingTarget (n : string)
| UnknownConditionalNode (n : string)
| UnknownConditionalTarget (n : string)
| UnknownLlmNode (n : string)
| UnknownLlmTarget (n : string)
| NoStart
| NoEnd
| DynamicJoinTarget (n : string) (routers llms : list string)
| UnknownInputField (node param field : string)
| IncompatibleInput (node param field : string)
| NoOutputDeclared.

Section Builder.
(** The state of a run, and the classes of the parameters' types. *)
Context {State C : Type}.
Notation Ty := (ty C).

Record _ConditionalEdge := mkConditional {
  cond_from : string;
  router : State -> option string;
  mapping : list (string * string)
}.

(** A declared parameter of a node: where it comes from and its type, if any. *)
Record param := mkParam { p_from : string; p_type : option Ty }.

Record _NodeDef := mkNode {
  description : string;
  params : list (string * param)
}.

Record t := mk {
  _nodes : list (string * _NodeDef);
  _edges : list _Edge;
  _waiting_edges : list _WaitingEdge;
  _conditional_edges : list _ConditionalEdge;
  _llm_edges : list _LlmEdge;
  recursion_limit : Z;
  (** The fields of the schema, with their annotation if they have one. *)
  model_fields : list (string * option Ty);
  _output_fields : list string;
  _no_output : bool
}.

(** The builder, empty. *)
Definition init (limit : Z) (schema : list (string * option Ty)) (outputs : list string)
    (no_output : bool) : t :=
  mk [] [] [] [] [] limit schema outputs no_output.

Definition set_edges (g : t) (es : list _Edge) (ws : list _WaitingEdge) : t :=
  mk (_nodes g) es ws (_conditional_edges g) (_llm_edges g) (recursion_limit g)
    (model_fields g) (_output_fields g) (_no_output g).

Definition add_node (g : t) (name : string) (d : _NodeDef) : t :=
  mk (Dict.set name d (_nodes g)) (_edges g) (_waiting_edges g) (_conditional_edges g)
    (_llm_edges g) (recursion_limit g) (model_fields g) (_output_fields g) (_no_output g).

(** [add_edge] with one source, or with a list of them. *)
Definition add_edge (g : t) (from : string + list string) (to : string) : t :=
  match from with
  | inl a => set_edges g (_edges g ++ [mkEdge a to]) (_waiting_edges g)
  | inr [a] => set_edges g (_edges g ++ [mkEdge a to]) (_waiting_edges g)
  | inr srcs => set_edges g (_edges g) (_waiting_edges g ++ [mkWaiting srcs to])
  end.

Definition add_conditional_edges (g : t) (from : string) (r : State -> option string)
    (m : list (string * string)) : t :=
  mk (_nodes g) (_edges g) (_waiting_edges g)
    (_conditional_edges g ++ [mkConditional from r m])
    (_llm_edges g) (recursion_limit g) (model_fields g) (_output_fields g) (_no_output g).

Definition add_llm_edges (g : t) (from prompt : string) (m : list (string * string)) : t :=
  mk (_nodes g) (_edges g) (_waiting_edges g) (_conditional_edges g)
    (_llm_edges g ++ [mkLlm from prompt m])
    (recursion_limit g) (model_fields g) (_output_fields g) (_no_output g).

Definition mem (n : string) (l : list string) : bool := bool_decide (n ∈ l).

Definition is_self_loop (g : t) (name : string) : bool :=
  existsb (fun ce => bool_decide (cond_from ce = name) && mem name (Dict.values (mapping ce)))
    (_conditional_edges g)
  || existsb (fun le => bool_decide (llm_from le = name)
                        && mem name (Dict.values (llm_mapping le))) (_llm_edges g).

(** ** Normalization *)

Definition add_source (bucket : list string) (s : string) : list string :=
  if mem s bucket then bucket else bucket ++ [s].

Definition bucket_of (merged : list (string * list string)) (target : string) : list string :=
  default [] (Dict.get target merged).

Definition merge_waiting (merged : list (string * list string)) (we : _WaitingEdge) :
    list (string * list string) :=
  if bool_decide (target we = END) then merged
  else Dict.set (target we)
         (foldl add_source (bucket_of merged (target we)) (sources we)) merged.

(** The plain edges that point at a join are folded into it, those from [START] kept. *)
Fixpoint absorb (merged : list (string * list string)) (edges : list _Edge) :
    list (string * list string) * list _Edge :=
  match edges with
  | [] => (merged, [])
  | e :: rest =>
      if Dict.mem (to_node e) merged && negb (bool_decide (from_node e = START)) then
        absorb (Dict.set (to_node e) (add_source (bucket_of merged (to_node e)) (from_node e))
                  merged) rest
      else let '(merged', surviving) := absorb merged rest in (merged', e :: surviving)
  end.

Definition to_end (we : _WaitingEdge) : bool := bool_decide (target we = END).

Definition _normalize_waiting_edges (g : t) : t :=
  if forallb to_end (_waiting_edges g) then g
  else
    let merged := foldl merge_waiting [] (_waiting_edges g) in
    let '(merged, surviving) := absorb merged (_edges g) in
    set_edges g surviving
      (List.filter to_end (_waiting_edges g)
         ++ ((fun '(target, srcs) => mkWaiting srcs target) <$> merged)).

(** ** Validation *)

Fixpoint first_error {A} (f : A -> option error) (l : list A) : outcome error unit :=
  match l with
  | [] => Ok tt
  | a :: rest => match f a with Some e => Raise e | None => first_error f rest end
  end.

Definition unknown (all_names : list string) (mk_error : string -> error) (n : string) :
    option error :=
  if mem n all_names then None else Some (mk_error n).

Definition all_names (g : t) : list string := Dict.keys (_nodes g) ++ [START; END].

(** The routers and the LLM edges that lead to a join. *)
Definition dynamic_routers (g : t) (target : string) : list string :=
  cond_from <$> List.filter (fun ce => mem target (Dict.values (mapping ce)))
                  (_conditional_edges g).
Definition dynamic_llms (g : t) (target : string) : list string :=
  llm_from <$> List.filter (fun le => mem target (Dict.values (llm_mapping le)))
                 (_llm_edges g).

Definition dynamic_join (g : t) (we : _WaitingEdge) : option error :=
  if bool_decide (target we = END) then None
  else
    match dynamic_routers g (target we), dynamic_llms g (target we) with
    | [], [] => None
    | routers, llms => Some (DynamicJoinTarget (target we) routers llms)
    end.

Definition has_end (g : t) : bool :=
  existsb (fun e => bool_decide (to_node e = END)) (_edges g)
  || existsb (fun we => bool_decide (target we = END)) (_waiting_edges g)
  || existsb (fun ce => mem END (Dict.values (mapping ce))) (_conditional_edges g)
  || existsb (fun le => mem END (Dict.values (llm_mapping le))) (_llm_edges g).

Definition _validate (g : t) : outcome error unit :=
  let names := all_names g in
  let? _ := first_error (fun e =>
              match unknown names UnknownNode (from_node e) with
              | Some err => Some err
              | None => unknown names UnknownNode (to_node e)
              end) (_edges g) in
  let? _ := first_error (fun we =>
              match List.filter (fun s => negb (mem s names)) (sources we) with
              | s :: _ => Some (UnknownWaitingSource s)
              | [] => unknown names UnknownWaitingTarget (target we)
              end) (_waiting_edges g) in
  let? _ := first_error (fun ce =>
              if negb (mem (cond_from ce) names) then Some (UnknownConditionalNode (cond_from ce))
              else head (UnknownConditionalTarget <$>
                     List.filter (fun s => negb (mem s names)) (Dict.values (mapping ce))))
              (_conditional_edges g) in
  let? _ := first_error (fun le =>
              if negb (mem (llm_from le) names) then Some (UnknownLlmNode (llm_from le))
              else head (UnknownLlmTarget <$>
                     List.filter (fun s => negb (mem s names)) (Dict.values (llm_mapping le))))
              (_llm_edges g) in
  if negb (existsb (fun e => bool_decide (from_node e = START)) (_edges g)) then Raise NoStart
  else if negb (has_end g) then Raise NoEnd
  else first_error (dynamic_join g) (_waiting_edges g).

(** [$input.] sources name a field of the schema, and their types agree with it. *)
Definition check_param (issubclass : subclass_test C) (g : t) (name : string)
    (p : string * param) : option error :=
  let '(param_name, info) := p in
  if Text.startswith (p_from info) "$input." then
    let field := Text.drop_chars 7 (p_from info) in
    match Dict.get field (model_fields g), p_type info with
    | None, _ => Some (UnknownInputField name param_name field)
    | Some (Some source_type), Some expected =>
        if _types_compatible issubclass source_type expected then None
        else Some (IncompatibleInput name param_name field)
    | Some _, _ => None
    end
  else None.

Definition _validate_params (issubclass : subclass_test C) (g : t) : outcome error unit :=
  first_error (fun '(name, d) =>
      match first_error (check_param issubclass g name) (params d) with
      | Ok _ => None
      | Raise e => Some e
      end) (_nodes g).

(** The graph is normalized even when it is then refused. *)
Definition _prepare (issubclass : subclass_test C) (g : t) : t * outcome error unit :=
  let g := _normalize_waiting_edges g in
  (g, let? _ := _validate g in
      let? _ := _validate_params issubclass g in
      match _output_fields g with
      | [] => if _no_output g then Ok tt else Raise NoOutputDeclared
      | _ => Ok tt
      end).

(** ** Queries *)

(** [list(dict.fromkeys(l))]. *)
Fixpoint fromkeys (l : list string) : list string :=
  match l with
  | [] => []
  | x :: rest => x :: List.filter (fun y => negb (bool_decide (x = y))) (fromkeys rest)
  end.

Definition _get_entry_nodes (g : t) : list string :=
  fromkeys (to_node <$> List.filter (fun e => bool_decide (from_node e = START)) (_edges g)).

Definition _get_finish_nodes (g : t) : list string :=
  fromkeys
    ((from_node <$> List.filter (fun e => bool_decide (to_node e = END)) (_edges g))
       ++ (w ← List.filter to_end (_waiting_edges g); sources w)
       ++ (cond_from <$> List.filter (fun ce => mem END (Dict.values (mapping ce)))
                           (_conditional_edges g))
       ++ (llm_from <$> List.filter (fun le => mem END (Dict.values (llm_mapping le)))
                          (_llm_edges g))).

(** The static predecessors of a declared node. *)
Definition _build_predecessors (g : t) (name : string) : gset string :=
  list_to_set
    (List.filter (fun s => negb (bool_decide (s = START)))
       ((from_node <$> List.filter (fun e => bool_decide (to_node e = name)) (_edges g))
          ++ (w ← List.filter (fun w => bool_decide (target w = name)) (_waiting_edges g);
              sources w))).

End Builder.
Arguments t : clear implicits.
Arguments _ConditionalEdge : clear implicits.

(** ** Normalization folds every join's static edges, and nothing else *)

Notation merged_t := (list (string * list string)).

(** What a dictionary of buckets keeps to while it is built. *)
Definition good (d : merged_t) : Prop :=
  NoDup (Dict.keys d) /\ END ∉ Dict.keys d /\ forall t, NoDup (bucket_of d t).

Lemma bucket_set k v d t :
  bucket_of (Dict.set k v d) t = if decide (k = t) then v else bucket_of d t.
Proof.
  unfold bucket_of. case_decide as E; subst.
  - by rewrite Dict.get_set_eq.
  - by rewrite Dict.get_set_ne.
Qed.

Lemma elem_of_mem n l : mem n l = true <-> n ∈ l.
Proof. unfold mem. apply bool_decide_eq_true. Qed.

Lemma elem_of_add_source l s x : x ∈ add_source l s <-> x ∈ l \/ x = s.
Proof. unfold add_source, mem. case_bool_decide; set_solver. Qed.

Lemma NoDup_add_source l s : NoDup l -> NoDup (add_source l s).
Proof.
  intros H. unfold add_source, mem. case_bool_decide; [done|].
  apply NoDup_app. split; [done|]. split; [set_solver|apply NoDup_singleton].
Qed.

Lemma elem_of_add_sources ss l x : x ∈ foldl add_source l ss <-> x ∈ l \/ x ∈ ss.
Proof.
  revert l. induction ss as [|s ss IH]; intros l; simpl; [set_solver|].
  rewrite IH, elem_of_add_source. set_solver.
Qed.

Lemma NoDup_add_sources ss l : NoDup l -> NoDup (foldl add_source l ss).
Proof. revert l. induction ss; simpl; auto using NoDup_add_source. Qed.

Lemma good_set k v d : good d -> k <> END -> NoDup v -> good (Dict.set k v d).
Proof.
  intros (H1 & H2 & H3) Hk Hv. split; [auto with mote|]. split.
  - rewrite Dict.elem_keys_set. naive_solver.
  - intros t. rewrite bucket_set. case_decide; [done|apply H3].
Qed.

Lemma merge_waiting_spec d w :
  good d ->
  good (merge_waiting d w)
  /\ (forall t, t ∈ Dict.keys (merge_waiting d w) <->
        t ∈ Dict.keys d \/ (t = target w /\ t <> END))
  /\ forall s t, s ∈ bucket_of (merge_waiting d w) t <->
        s ∈ bucket_of d t \/ (target w = t /\ t <> END /\ s ∈ sources w).
Proof.
  intros Hg. unfold merge_waiting. case_bool_decide as E.
  { split; [done|]. split; [|]; naive_solver. }
  split; [|split].
  - apply good_set; [done|done|]. apply NoDup_add_sources. apply Hg.
  - intros t. rewrite Dict.elem_keys_set. naive_solver.
  - intros s t. rewrite bucket_set. case_decide; subst.
    + rewrite elem_of_add_sources. naive_solver.
    + naive_solver.
Qed.

Lemma merge_all_spec ws d :
  good d ->
  good (foldl merge_waiting d ws)
  /\ (forall t, t ∈ Dict.keys (foldl merge_waiting d ws) <->
        t ∈ Dict.keys d \/ exists w, w ∈ ws /\ target w = t /\ t <> END)
  /\ forall s t, s ∈ bucket_of (foldl merge_waiting d ws) t <->
        s ∈ bucket_of d t
        \/ exists w, w ∈ ws /\ target w = t /\ t <> END /\ s ∈ sources w.
Proof.
  revert d. induction ws as [|w ws IH]; intros d Hg; simpl.
  { split; [done|]. split; set_solver. }
  destruct (merge_waiting_spec d w Hg) as (Hg1 & Hk1 & Hb1).
  destruct (IH _ Hg1) as (Hg2 & Hk2 & Hb2). split; [done|]. split.
  - intros t. rewrite Hk2, Hk1. set_solver.
  - intros s t. rewrite Hb2, Hb1. set_solver.
Qed.

Definition folded (d : merged_t) (e : _Edge) : bool :=
  Dict.mem (to_node e) d && negb (bool_decide (from_node e = START)).

Lemma dict_mem_keys (d : merged_t) t : Dict.mem t d = true <-> t ∈ Dict.keys d.
Proof.
  unfold Dict.mem. destruct (Dict.get t d) eqn:E.
  - split; [|done]. intros _. destruct (decide (t ∈ Dict.keys d)) as [|Hn]; [done|].
    apply Dict.get_None_keys in Hn. congruence.
  - apply Dict.get_None_keys in E. done.
Qed.

Lemma folded_iff d e : folded d e = true <-> to_node e ∈ Dict.keys d /\ from_node e <> START.
Proof. unfold folded. rewrite andb_true_iff, negb_true_iff, bool_decide_eq_false, dict_mem_keys. done. Qed.

Lemma absorb_spec es d :
  good d ->
  let '(d', rest) := absorb d es in
  good d' /\ Dict.keys d' = Dict.keys d
  /\ rest = List.filter (fun e => negb (folded d e)) es
  /\ forall s t, s ∈ bucket_of d' t <->
        s ∈ bucket_of d t \/ (t ∈ Dict.keys d /\ s <> START /\ mkEdge s t ∈ es).
Proof.
  revert d. induction es as [|e es IH]; intros d Hg; simpl.
  { split; [done|]. split; [done|]. split; [done|]. set_solver. }
  fold (folded d e). destruct (folded d e) eqn:Ef; simpl.
  - pose proof (proj1 (folded_iff d e) Ef) as [Hk Hs].
    assert (to_node e <> END) as HE by (intros E; destruct Hg as (_ & Hn & _); by rewrite <- E in Hn).
    specialize (IH (Dict.set (to_node e) (add_source (bucket_of d (to_node e)) (from_node e)) d)).
    destruct (absorb _ es) as [d' rest].
    destruct IH as (Hg' & Hk' & Hr & Hb).
    { apply good_set; [done|done|]. apply NoDup_add_source, Hg. }
    rewrite Dict.keys_set_in in Hk', Hb by done. split; [done|]. split; [done|]. split.
    + rewrite Hr. apply filter_ext_in. intros e' _. unfold folded. do 2 f_equal.
      apply eq_bool_prop_intro. rewrite !Is_true_true, !dict_mem_keys.
      by rewrite Dict.keys_set_in.
    + intros s t. rewrite Hb, bucket_set, elem_of_cons. destruct e as [a b]; simpl in *.
      case_decide; subst; rewrite ?elem_of_add_source; naive_solver.
  - specialize (IH d Hg). destruct (absorb d es) as [d' rest].
    destruct IH as (Hg' & Hk' & Hr & Hb). split; [done|]. split; [done|].
    split; [by rewrite Hr|]. intros s t. rewrite Hb, elem_of_cons.
    assert (~ (t ∈ Dict.keys d /\ s <> START /\ mkEdge s t = e)) as Hno.
    { intros (H1 & H2 & <-). apply Bool.not_true_iff_false in Ef.
      apply Ef, folded_iff. done. }
    naive_solver.
Qed.

Definition join_of (b : string * list string) : _WaitingEdge := mkWaiting (snd b) (fst b).

Lemma good_bucket d b : good d -> b ∈ d -> NoDup (snd b) /\ fst b <> END.
Proof.
  intros (Hn & He & Hb) Hin. destruct b as [t v]. split.
  - specialize (Hb t). unfold bucket_of in Hb. by rewrite (Dict.elem_get t v d Hn Hin) in Hb.
  - cbn [fst]. intros ->. apply He. by apply (list_elem_of_fmap_2 fst) in Hin.
Qed.

Lemma add_sources_new l k :
  NoDup (k ++ l) -> foldl add_source k l = k ++ l.
Proof.
  revert k. induction l as [|x l IH]; intros k Hn; simpl; [by rewrite app_nil_r|].
  assert (add_source k x = k ++ [x]) as ->.
  { unfold add_source, mem. rewrite bool_decide_false; [done|].
    apply NoDup_app in Hn as (_ & Hn & _). intros Hk. apply (Hn x Hk). left. }
  rewrite IH; [by rewrite <- app_assoc|]. by rewrite <- app_assoc.
Qed.

(** Merging joins that are already merged gives them back. *)
Lemma merge_joins l d :
  NoDup (Dict.keys (d ++ l)) -> Forall (fun b => NoDup (snd b) /\ fst b <> END) l ->
  foldl merge_waiting d (join_of <$> l) = d ++ l.
Proof.
  intros Hn Hl. revert d Hn. induction Hl as [|[t v] l [Hv Ht] _ IH]; intros d Hn; simpl in *.
  { by rewrite app_nil_r. }
  assert (t ∉ Dict.keys d) as Hd.
  { unfold Dict.keys in Hn. rewrite fmap_app in Hn. apply NoDup_app in Hn as (_ & Hn & _).
    intros Hin. apply (Hn t Hin). left. }
  assert (merge_waiting d (join_of (t, v)) = d ++ [(t, v)]) as ->.
  { unfold merge_waiting, join_of. cbn [target sources fst snd].
    rewrite bool_decide_false by done. unfold bucket_of. rewrite (proj2 (Dict.get_None_keys t d) Hd). simpl.
    rewrite add_sources_new by done. by rewrite Dict.keys_set_new. }
  rewrite IH; [by rewrite <- app_assoc|]. by rewrite <- app_assoc.
Qed.

Lemma merge_ends ws d : forallb to_end ws = true -> foldl merge_waiting d ws = d.
Proof.
  revert d. induction ws as [|w ws IH]; intros d; simpl; [done|].
  intros [Hw Hws]%andb_prop. unfold merge_waiting.
  unfold to_end in Hw. rewrite Hw. by apply IH.
Qed.

Lemma filter_to_end ws : forallb to_end (List.filter to_end ws) = true.
Proof.
  induction ws as [|w ws IH]; simpl; [done|]. destruct (to_end w) eqn:E; simpl; [|done].
  by rewrite E.
Qed.

Lemma absorb_none d es :
  List.filter (fun e => negb (folded d e)) es = es -> absorb d es = (d, es).
Proof.
  induction es as [|e es IH]; simpl; [done|]. fold (folded d e).
  destruct (folded d e) eqn:E; simpl.
  - intros H. exfalso.
    assert (length (List.filter (fun e => negb (folded d e)) es) <= length es)%nat
      by apply List.filter_length_le.
    rewrite H in H0. simpl in H0. lia.
  - intros [= H]. by rewrite IH.
Qed.

Section Normal.
Context {State C : Type}.
Implicit Types g : t State C.

(** One merged join per target, and no static edge beside it except from [START]. *)
Definition normalized g : Prop :=
  NoDup (target <$> List.filter (fun w => negb (to_end w)) (_waiting_edges g))
  /\ forall w, w ∈ _waiting_edges g -> target w <> END ->
       NoDup (sources w)
       /\ forall e, e ∈ _edges g -> to_node e = target w -> from_node e = START.

(** A static edge, plain or of a join, from [s] to [n]. *)
Definition static_pred g (s n : string) : Prop :=
  mkEdge s n ∈ _edges g \/ exists w, w ∈ _waiting_edges g /\ target w = n /\ s ∈ sources w.

Lemma good_nil : good [].
Proof. split; [constructor|]. split; [set_solver|]. intros t. constructor. Qed.

(** The two dictionaries of a normalization, and what it builds of them. *)
Lemma normalize_parts g :
  forallb to_end (_waiting_edges g) = false ->
  exists d0 d rest,
    d0 = foldl merge_waiting [] (_waiting_edges g) /\ good d0
    /\ absorb d0 (_edges g) = (d, rest)
    /\ _normalize_waiting_edges g =
         set_edges g rest (List.filter to_end (_waiting_edges g) ++ (join_of <$> d)).
Proof.
  intros E. exists (foldl merge_waiting [] (_waiting_edges g)).
  destruct (absorb (foldl merge_waiting [] (_waiting_edges g)) (_edges g)) as [d rest] eqn:Ha.
  exists d, rest. split; [done|]. split; [apply merge_all_spec, good_nil|]. split; [done|].
  unfold _normalize_waiting_edges. rewrite E, Ha. f_equal. f_equal.
  apply list_fmap_ext. by intros _ [? ?] _.
Qed.

Lemma filter_joins d :
  Forall (fun b : string * list string => fst b <> END) d ->
  List.filter (fun w => negb (to_end w)) (join_of <$> d) = join_of <$> d
  /\ List.filter to_end (join_of <$> d) = [].
Proof.
  induction 1 as [|b d Hb _ [IH1 IH2]]; [done|]. rewrite fmap_cons. simpl.
  assert (to_end (join_of b) = false) as -> by (by apply bool_decide_eq_false).
  simpl. by rewrite IH1, IH2.
Qed.

Lemma filter_ends ws :
  List.filter (fun w => negb (to_end w)) (List.filter to_end ws) = []
  /\ List.filter to_end (List.filter to_end ws) = List.filter to_end ws.
Proof.
  induction ws as [|w ws [IH1 IH2]]; simpl; [done|]. destruct (to_end w) eqn:E; simpl; [|done].
  rewrite E. simpl. by rewrite IH1, IH2.
Qed.

Lemma good_targets d : good d -> Forall (fun b : string * list string => fst b <> END) d.
Proof. intros Hg. apply Forall_forall. intros b Hb. by apply (good_bucket d b Hg). Qed.

Lemma normalize_normalized g : normalized (_normalize_waiting_edges g).
Proof.
  destruct (forallb to_end (_waiting_edges g)) eqn:E.
  - unfold _normalize_waiting_edges. rewrite E. rewrite forallb_forall in E. split.
    + assert (List.filter (fun w => negb (to_end w)) (_waiting_edges g) = []) as ->; [|constructor].
      induction (_waiting_edges g) as [|w ws IH]; simpl; [done|].
      rewrite E by (by left). apply IH. intros w' Hw'. apply E. by right.
    + intros w Hw Ht. destruct Ht. apply list_elem_of_In, E in Hw.
      by apply bool_decide_eq_true in Hw.
  - destruct (normalize_parts g E) as (d0 & d & rest & Hd0 & Hg0 & Ha & ->).
    pose proof (absorb_spec (_edges g) d0 Hg0) as H. rewrite Ha in H.
    destruct H as (Hg & Hk & Hr & Hb).
    destruct (filter_joins d (good_targets d Hg)) as [F1 F2].
    split; simpl.
    + rewrite List.filter_app, (proj1 (filter_ends _)), F1. simpl.
      rewrite <- list_fmap_compose. apply Hg.
    + intros w [Hw|Hw]%elem_of_app Ht.
      { apply list_elem_of_In, filter_In in Hw as [_ Hw]. by apply bool_decide_eq_true in Hw. }
      apply list_elem_of_fmap in Hw as ([n v] & -> & Hin). simpl in *.
      split; [by apply (good_bucket d (n, v) Hg)|].
      intros e He Hn. rewrite Hr in He. apply list_elem_of_In, filter_In in He as [_ He].
      apply negb_true_iff, Bool.not_true_iff_false in He. rewrite folded_iff in He.
      destruct (decide (from_node e = START)) as [|Hs]; [done|]. destruct He.
      split; [|done]. rewrite Hn, <- Hk. by apply (list_elem_of_fmap_2 fst) in Hin.
Qed.

Lemma normalize_idempotent g :
  _normalize_waiting_edges (_normalize_waiting_edges g) = _normalize_waiting_edges g.
Proof.
  destruct (forallb to_end (_waiting_edges g)) eqn:E.
  { assert (_normalize_waiting_edges g = g) as H
      by (unfold _normalize_waiting_edges; by rewrite E). by rewrite !H. }
  destruct (normalize_parts g E) as (d0 & d & rest & Hd0 & Hg0 & Ha & Hn). rewrite Hn.
  pose proof (absorb_spec (_edges g) d0 Hg0) as H. rewrite Ha in H.
  destruct H as (Hg & Hk & Hr & _).
  set (ends := List.filter to_end (_waiting_edges g)) in *.
  unfold _normalize_waiting_edges at 1. simpl. case_match; [done|].
  rewrite foldl_app, (merge_ends ends) by apply filter_to_end.
  rewrite merge_joins; simpl.
  2:{ apply Hg. }
  2:{ apply Forall_forall. intros b Hb. by apply (good_bucket d b Hg). }
  rewrite absorb_none.
  2:{ rewrite Hr. rewrite (filter_ext_in _ (fun e => negb (folded d0 e))).
      - clear. induction (_edges g) as [|e es IH]; simpl; [done|].
        destruct (folded d0 e) eqn:Ef; simpl; [done|]. rewrite Ef. simpl. by rewrite IH.
      - intros e _. unfold folded. do 2 f_equal. apply eq_bool_prop_intro.
        rewrite !Is_true_true, !dict_mem_keys. by rewrite Hk. }
  unfold set_edges. simpl. f_equal.
  rewrite List.filter_app. unfold ends at 1. rewrite (proj2 (filter_ends _)).
  rewrite (proj2 (filter_joins d (good_targets d Hg))), app_nil_r. f_equal.
  apply list_fmap_ext. by intros _ [? ?] _.
Qed.

Lemma elem_of_join d s n :
  good d -> (exists w, w ∈ join_of <$> d /\ target w = n /\ s ∈ sources w) <-> s ∈ bucket_of d n.
Proof.
  intros Hg. unfold bucket_of. split.
  - intros (w & ([m v] & -> & Hin)%list_elem_of_fmap & <- & Hs). simpl in *.
    by rewrite (Dict.elem_get m v d (proj1 Hg) Hin).
  - destruct (Dict.get n d) as [v|] eqn:E; simpl; [|by intros ?%not_elem_of_nil].
    intros Hs. exists (mkWaiting v n). split; [|done].
    apply list_elem_of_fmap. exists (n, v). split; [done|]. by apply Dict.get_Some_elem.
Qed.

Lemma normalize_preds g s n :
  static_pred (_normalize_waiting_edges g) s n <-> static_pred g s n.
Proof.
  destruct (forallb to_end (_waiting_edges g)) eqn:E.
  { unfold _normalize_waiting_edges. by rewrite E. }
  destruct (normalize_parts g E) as (d0 & d & rest & Hd0 & Hg0 & Ha & ->).
  pose proof (absorb_spec (_edges g) d0 Hg0) as H. rewrite Ha in H.
  destruct H as (Hg & Hk & Hr & Hb).
  destruct (merge_all_spec (_waiting_edges g) [] good_nil) as (_ & Hk0 & Hb0).
  rewrite <- Hd0 in Hk0, Hb0.
  unfold static_pred. simpl.
  assert ((exists w, w ∈ List.filter to_end (_waiting_edges g) ++ (join_of <$> d)
             /\ target w = n /\ s ∈ sources w)
          <-> (exists w, w ∈ _waiting_edges g /\ target w = END /\ target w = n /\ s ∈ sources w)
              \/ s ∈ bucket_of d n) as ->.
  { rewrite <- elem_of_join by done. split.
    - intros (w & [Hw|Hw]%elem_of_app & H1 & H2); [left|right; by exists w].
      apply list_elem_of_In, filter_In in Hw as [Hw He]. exists w.
      apply bool_decide_eq_true in He. by rewrite list_elem_of_In.
    - intros [(w & Hw & He & H1 & H2)|(w & Hw & H1 & H2)]; exists w; split; try done;
        apply elem_of_app; [left|by right].
      apply list_elem_of_In, filter_In. split; [by apply list_elem_of_In|].
      by apply bool_decide_eq_true. }
  rewrite Hb, Hb0, Hr.
  assert (mkEdge s n ∈ List.filter (fun e => negb (folded d0 e)) (_edges g)
          <-> mkEdge s n ∈ _edges g /\ folded d0 (mkEdge s n) = false) as ->.
  { rewrite !list_elem_of_In, filter_In. by rewrite negb_true_iff. }
  destruct (folded d0 (mkEdge s n)) eqn:Ef.
  - apply folded_iff in Ef as [Ef1 Ef2]. simpl in *. split.
    + intros [[_ ?]|[(w & ? & _ & ? & ?)|[[[]%not_elem_of_nil|(w & ? & ? & _ & ?)]|(_ & _ & ?)]]];
        [done|right; by exists w|right; by exists w|by left].
    + assert (n <> END) as Hne by (intros ->; by apply Hg0 in Ef1).
      intros [?|(w & ? & ? & ?)]; right; right; [by right|left; right; by exists w].
  - apply Bool.not_true_iff_false in Ef. rewrite folded_iff in Ef. simpl in Ef. split.
    + intros [[? _]|[(w & ? & _ & ? & ?)|[[[]%not_elem_of_nil|(w & ? & ? & _ & ?)]|(? & ? & ?)]]];
        [by left|right; by exists w|right; by exists w|by destruct Ef].
    + intros [?|(w & ? & <- & ?)].
      { by left. }
      right. destruct (decide (target w = END)); [left; by exists w|].
      right. left. right. by exists w.
Qed.

(** Compiling a workflow folds its static edges without losing any. Afterwards every
    join target but [END] has one join with distinct sources and no plain edge beside
    it except from [START]; every node has the static predecessors it was declared
    with; and compiling again changes nothing. *)
Theorem normalize_exact g :
  let g' := _normalize_waiting_edges g in
  normalized g' /\ (forall s n, static_pred g' s n <-> static_pred g s n)
  /\ _normalize_waiting_edges g' = g'.
Proof.
  split; [apply normalize_normalized|]. split; [apply normalize_preds|].
  apply normalize_idempotent.
Qed.

(** ** What validation accepts *)

Definition closed (names l : list string) : Prop := Forall (fun n => n ∈ names) l.

(** Every end of an edge is a node, [START] or [END]; there is a way in and a way out;
    and no router or LLM edge leads to a join. *)
Record well_formed g : Prop := {
  wf_edges e : e ∈ _edges g -> from_node e ∈ all_names g /\ to_node e ∈ all_names g;
  wf_waiting w : w ∈ _waiting_edges g ->
    closed (all_names g) (sources w) /\ target w ∈ all_names g;
  wf_conditional c : c ∈ _conditional_edges g ->
    cond_from c ∈ all_names g /\ closed (all_names g) (Dict.values (mapping c));
  wf_llm l : l ∈ _llm_edges g ->
    llm_from l ∈ all_names g /\ closed (all_names g) (Dict.values (llm_mapping l));
  wf_start : exists n, mkEdge START n ∈ _edges g;
  wf_end : has_end g = true;
  wf_joins w : w ∈ _waiting_edges g -> target w <> END ->
    (forall c, c ∈ _conditional_edges g -> target w ∉ Dict.values (mapping c))
    /\ (forall l, l ∈ _llm_edges g -> target w ∉ Dict.values (llm_mapping l))
}.

Lemma first_error_ok {A} (f : A -> option error) l :
  first_error f l = Ok tt <-> forall a, a ∈ l -> f a = None.
Proof.
  induction l as [|a l IH]; simpl.
  { split; [by intros _ a ?%not_elem_of_nil|done]. }
  destruct (f a) eqn:E.
  - split; [done|]. intros H. by rewrite H in E by left.
  - rewrite IH. split.
    + intros H b [->|Hb]%elem_of_cons; auto.
    + intros H b Hb. apply H. by right.
Qed.

Lemma outcome_then {E B} (o : outcome E unit) (k : outcome E B) (b : B) :
  (let? _ := o in k) = Ok b <-> o = Ok tt /\ k = Ok b.
Proof. destruct o as [[]|]; simpl; naive_solver. Qed.

Lemma unknown_none names mk n : unknown names mk n = None <-> n ∈ names.
Proof. unfold unknown, mem. case_bool_decide; naive_solver. Qed.

Lemma unknown_filter names l :
  List.filter (fun s => negb (mem s names)) l = [] <-> closed names l.
Proof.
  unfold closed. induction l as [|x l IH]; simpl; [by rewrite Forall_nil|].
  rewrite Forall_cons. unfold mem at 1. case_bool_decide; simpl; [|naive_solver].
  rewrite IH. naive_solver.
Qed.

Lemma head_map_none {A B} (f : A -> B) l : head (f <$> l) = None <-> l = [].
Proof. by destruct l. Qed.

Lemma filter_nil_iff {A} (f : A -> bool) l :
  List.filter f l = [] <-> forall a, a ∈ l -> f a = false.
Proof.
  induction l as [|a l IH]; simpl.
  { split; [by intros _ a ?%not_elem_of_nil|done]. }
  destruct (f a) eqn:E.
  - split; [done|]. intros H. by rewrite H in E by left.
  - rewrite IH. setoid_rewrite elem_of_cons. naive_solver.
Qed.

Lemma fmap_nil_iff {A B} (f : A -> B) l : f <$> l = [] <-> l = [].
Proof. by destruct l. Qed.

Lemma mem_false n l : mem n l = false <-> n ∉ l.
Proof. unfold mem. apply bool_decide_eq_false. Qed.

Lemma dynamic_join_none g w :
  dynamic_join g w = None <->
  (target w <> END ->
   (forall c, c ∈ _conditional_edges g -> target w ∉ Dict.values (mapping c))
   /\ (forall l, l ∈ _llm_edges g -> target w ∉ Dict.values (llm_mapping l))).
Proof.
  unfold dynamic_join. case_bool_decide as E; [naive_solver|].
  assert (dynamic_routers g (target w) = []
          <-> forall c, c ∈ _conditional_edges g -> target w ∉ Dict.values (mapping c)) as H1.
  { unfold dynamic_routers. etrans; [apply fmap_nil_iff|]. rewrite filter_nil_iff.
    by setoid_rewrite mem_false. }
  assert (dynamic_llms g (target w) = []
          <-> forall l, l ∈ _llm_edges g -> target w ∉ Dict.values (llm_mapping l)) as H2.
  { unfold dynamic_llms. etrans; [apply fmap_nil_iff|]. rewrite filter_nil_iff.
    by setoid_rewrite mem_false. }
  destruct (dynamic_routers g (target w)), (dynamic_llms g (target w)); naive_solver.
Qed.

Lemma has_start g :
  existsb (fun e => bool_decide (from_node e = START)) (_edges g) = true <->
  exists n, mkEdge START n ∈ _edges g.
Proof.
  rewrite existsb_exists. setoid_rewrite bool_decide_eq_true.
  setoid_rewrite <- list_elem_of_In. split.
  - intros ([a b] & Hin & E). simpl in E. subst. by exists b.
  - intros [n Hn]. by exists (mkEdge START n).
Qed.

Lemma validate_spec g : _validate g = Ok tt <-> well_formed g.
Proof.
  assert (forall a b mk1 mk2, match unknown (all_names g) mk1 a with
            | Some err => Some err | None => unknown (all_names g) mk2 b end = None
          <-> a ∈ all_names g /\ b ∈ all_names g) as Hpair.
  { intros a b mk1 mk2. rewrite <- (unknown_none (all_names g) mk1 a).
    rewrite <- (unknown_none (all_names g) mk2 b).
    destruct (unknown (all_names g) mk1 a); naive_solver. }
  assert (forall s l (mk1 : error) (mk2 : string -> error), (if negb (mem s (all_names g)) then Some mk1
            else head (mk2 <$> List.filter (fun s => negb (mem s (all_names g))) l)) = None
          <-> s ∈ all_names g /\ closed (all_names g) l) as Hmap.
  { intros s l mk1 mk2. rewrite <- (elem_of_mem s).
    destruct (mem s (all_names g)); simpl; [|naive_solver].
    rewrite head_map_none, unknown_filter. naive_solver. }
  unfold _validate. rewrite !outcome_then, !first_error_ok. split.
  - intros (H1 & H2 & H3 & H4 & H).
    destruct (existsb _ (_edges g)) eqn:Es; simpl in H; [|done].
    destruct (has_end g) eqn:Ee; simpl in H; [|done].
    rewrite first_error_ok in H. split; try done.
    + intros e He. by apply Hpair with (mk1 := UnknownNode) (mk2 := UnknownNode), H1.
    + intros w Hw. specialize (H2 w Hw).
      destruct (List.filter _ (sources w)) eqn:Ef; [|done].
      apply unknown_filter in Ef. by apply unknown_none in H2.
    + intros c Hc. specialize (H3 c Hc). by apply Hmap in H3.
    + intros l Hl. specialize (H4 l Hl). by apply Hmap in H4.
    + by apply has_start.
    + intros w Hw. by apply dynamic_join_none, H.
  - intros [We Ww Wc Wl Ws Wend Wj]. split; [|split; [|split; [|split]]].
    + intros e He. by apply Hpair, We.
    + intros w Hw. destruct (Ww w Hw) as [Hc Ht].
      rewrite (proj2 (unknown_filter _ _) Hc). by apply unknown_none.
    + intros c Hc. by apply Hmap, Wc.
    + intros l Hl. by apply Hmap, Wl.
    + rewrite (proj2 (has_start g) Ws), Wend. simpl. apply first_error_ok.
      intros w Hw. by apply dynamic_join_none, Wj.
Qed.

(** Every [$input.] source names a field of the schema, of a compatible type. *)
Definition params_ok (issubclass : subclass_test C) g : Prop :=
  forall name d param_name info,
    (name, d) ∈ _nodes g -> (param_name, info) ∈ params d ->
    Text.startswith (p_from info) "$input." = true ->
    exists annotation,
      Dict.get (Text.drop_chars 7 (p_from info)) (model_fields g) = Some annotation
      /\ forall source_type expected,
           annotation = Some source_type -> p_type info = Some expected ->
           _types_compatible issubclass source_type expected = true.

Lemma check_param_none issubclass g name param_name info :
  check_param issubclass g name (param_name, info) = None <->
  (Text.startswith (p_from info) "$input." = true ->
   exists annotation,
     Dict.get (Text.drop_chars 7 (p_from info)) (model_fields g) = Some annotation
     /\ forall source_type expected,
          annotation = Some source_type -> p_type info = Some expected ->
          _types_compatible issubclass source_type expected = true).
Proof.
  unfold check_param. destruct (Text.startswith _ _); [|naive_solver].
  destruct (Dict.get _ _) as [[source_type|]|]; [| |naive_solver].
  - destruct (p_type info) as [expected|]; [|naive_solver].
    destruct (_types_compatible _ _ _) eqn:E; [naive_solver|]. split; [done|].
    intros (? & [= <-] & H); [done|]. rewrite (H source_type expected) in E; done.
  - destruct (p_type info); naive_solver.
Qed.

Lemma validate_params_spec issubclass g :
  _validate_params issubclass g = Ok tt <-> params_ok issubclass g.
Proof.
  unfold _validate_params, params_ok. rewrite first_error_ok. split.
  - intros H name d param_name info Hn Hp. apply (check_param_none _ _ name param_name).
    specialize (H (name, d) Hn). simpl in H.
    destruct (first_error _ (params d)) as [[]|] eqn:E; [|done].
    rewrite first_error_ok in E. by apply E.
  - intros H [name d] Hn. simpl.
    destruct (first_error _ (params d)) as [[]|e] eqn:E; [done|].
    assert (first_error (check_param issubclass g name) (params d) = Ok tt); [|congruence].
    apply first_error_ok. intros [param_name info] Hp. apply check_param_none. by eapply H.
Qed.

(** A workflow compiles exactly when its normalized topology is well formed, its
    [$input] parameters name fields of compatible types, and it declares its output or
    says that it has none. Every other workflow is refused with an error. *)
Theorem prepare_exact issubclass g :
  let '(g', o) := _prepare issubclass g in
  g' = _normalize_waiting_edges g
  /\ (o = Ok tt <->
       well_formed g' /\ params_ok issubclass g'
       /\ (_output_fields g' = [] -> _no_output g' = true)).
Proof.
  unfold _prepare. split; [done|].
  rewrite !outcome_then, validate_spec, validate_params_spec.
  destruct (_output_fields _); [|naive_solver]. destruct (_no_output _); naive_solver.
Qed.

End Normal.

End WorkflowBuilder.
