(* ===== verification/WorkflowEngine.v ===== *)
(** * The workflow engine

    [orchestration/workflows/engine.py], with the run records of [types.py], the channel
    updates of [channels.py] and the pause of [control.py]. A run is a sequence of events
    of its tasks: a task begins, a task ends with what its node did, the driver reaps an
    ended task. [asyncio.wait] may hand over several ended tasks at once and in any order,
    so every order of these events is a run of the model. Nodes, routers and reducers are
    arguments; a node that is cancelled is taken to stop. *)

From S2P Require Import Prelude Text Failure Recovery WorkflowGraph.
From Stdlib Require Import String.
From stdpp Require Import base list strings gmap sorting.

Open Scope string_scope.
Open Scope list_scope.
Open Scope mote_scope.
Open Scope Z_scope.

(** What ends a node's task with an exception. The texts of the exceptions are kept as
    the exceptions themselves. *)
Inductive node_exn :=
| GraphNodeTimeoutError
| GraphParamTypeError (param : string)
| RaisedError (e : Recovery.error)
| GraphNodeRetryExhaustedError (node : string) (attempts : Z)
| ReducerError (field : string)
| KeyError (node : string).

Inductive BgStatus :=
| PENDING | RUNNING | SUCCESS | FAILED | CANCELLED | TIMEOUT | SKIPPED
| WAITING_FOR_ROUTE | STALLED.

#[export] Instance BgStatus_eq_dec : EqDecision BgStatus.
Proof. solve_decision. Defined.

(** ** Run records *)
Module GraphRunState.

Record NodeRecord := mkRecord {
  name : string;
  status : BgStatus;
  attempts : Z;
  last_error : option node_exn;
  started_at : option Z;
  ended_at : option Z;
  last_route_key : option string;
  writes : list string;
  retries_attempted : Z;
  retries_limit : Z
}.

Definition new_record (n : string) : NodeRecord :=
  mkRecord n PENDING 0 None None None None [] 0 0.

(** The records, in the order of their creation. *)
Definition t := list (string * NodeRecord).

Definition for_names (nodes : list string) : t := (fun n => (n, new_record n)) <$> nodes.

Definition ensure (nodes : list string) (run_state : option t) : t :=
  match run_state with Some r => r | None => for_names nodes end.

Definition get (n : string) (r : t) : NodeRecord := default (new_record n) (Dict.get n r).

(** [get] followed by writes to the record it returns. *)
Definition update (n : string) (f : NodeRecord -> NodeRecord) (r : t) : t :=
  Dict.set n (f (get n r)) r.

Definition done (s : BgStatus) : bool :=
  bool_decide (s = SUCCESS) || bool_decide (s = SKIPPED).

Definition completed_names (r : t) : gset string :=
  list_to_set (Dict.keys (List.filter (fun kv => done (status (snd kv))) r)).

Definition running_names (r : t) : list string :=
  Dict.keys (List.filter (fun kv => bool_decide (status (snd kv) = RUNNING)) r).

Definition mark_running (n : string) (now : Z) : t -> t :=
  update n (fun c => mkRecord (name c) RUNNING (attempts c + 1) (last_error c) (Some now) None
                       (last_route_key c) (writes c) (retries_attempted c) (retries_limit c)).

Definition mark_success (n : string) (ws : list string) (now : Z) : t -> t :=
  update n (fun c => mkRecord (name c) SUCCESS (attempts c) None (started_at c) (Some now)
                       (last_route_key c) ws (retries_attempted c) (retries_limit c)).

Definition mark_failed (n : string) (error : node_exn) (attempted limit now : Z) : t -> t :=
  update n (fun c => mkRecord (name c) FAILED (attempts c) (Some error) (started_at c) (Some now)
                       (last_route_key c) (writes c) attempted limit).

Definition mark_cancelled (n : string) (now : Z) : t -> t :=
  update n (fun c => mkRecord (name c) CANCELLED (attempts c) (last_error c) (started_at c)
                       (Some now) (last_route_key c) (writes c) (retries_attempted c)
                       (retries_limit c)).

Definition mark_skipped (n : string) (now : Z) : t -> t :=
  update n (fun c => mkRecord (name c) SKIPPED (attempts c) (last_error c) (started_at c)
                       (Some now) (last_route_key c) (writes c) (retries_attempted c)
                       (retries_limit c)).

Definition reset (n : string) : t -> t :=
  update n (fun c => mkRecord (name c) PENDING (attempts c) None None None
                       (last_route_key c) (writes c) (retries_attempted c) (retries_limit c)).

Definition set_route (n key : string) : t -> t :=
  update n (fun c => mkRecord (name c) (status c) (attempts c) (last_error c) (started_at c)
                       (ended_at c) (Some key) (writes c) (retries_attempted c)
                       (retries_limit c)).

Definition status_of (n : string) (r : t) : BgStatus := status (get n r).

End GraphRunState.

Module Engine.
Import GraphRunState.

Section Engine.
Context {V C : Type}.

(** The fields of the state. *)
Definition fields := list (string * V).

(** A reducer combines the current value of a field, if it has one, with an update. *)
Definition reducer := option V -> V -> option V.

Notation graph := (WorkflowBuilder.t fields C).

(** ** Channels *)

Fixpoint apply_updates (reducers : string -> option reducer) (state : fields)
    (updates : list (string * V)) : fields * outcome node_exn unit :=
  match updates with
  | [] => (state, Ok tt)
  | (key, value) :: rest =>
      match reducers key with
      | Some r =>
          match r (Dict.get key state) value with
          | Some merged => apply_updates reducers (Dict.set key merged state) rest
          | None => (state, Raise (ReducerError key))
          end
      | None => apply_updates reducers (Dict.set key value state) rest
      end
  end.

(** ** Running one node *)

Definition _AUTO_RETRIES : Z := 3.

(** What a node returns: nothing, a dictionary of updates, or something else. *)
Inductive node_return :=
| RNone
| RDict (updates : list (string * V))
| ROther.

(** One attempt: the parameter the validation rejects, or what the node then does. *)
Inductive attempt :=
| BadParam (param : string)
| Body (o : outcome Recovery.error node_return).

(** The behaviour of a node in one activation: its attempts, counted from 1. *)
Definition behaviour := Z -> attempt.

Definition action_for (e : node_exn) : Recovery.RecoveryAction :=
  match e with
  | GraphNodeTimeoutError => Recovery.recovery None true
  | RaisedError e => Recovery._action_for e
  | _ => Recovery.recovery None false
  end.

(** Timeouts and connection errors of the body become [GraphNodeTimeoutError]. *)
Definition convert (e : Recovery.error) : node_exn :=
  match e with
  | Recovery.Untyped ConnectionErr | Recovery.Untyped TimeoutErr => GraphNodeTimeoutError
  | _ => RaisedError e
  end.

Definition _execute (b : behaviour) (attempts : Z) : Z * outcome node_exn node_return :=
  let attempts := attempts + 1 in
  (attempts, match b attempts with
             | BadParam p => Raise (GraphParamTypeError p)
             | Body (Ok r) => Ok r
             | Body (Raise e) => Raise (convert e)
             end).

(** [_retry] backs off and always asks for another attempt. *)
Definition strategies (a : Recovery.RecoveryAction) :
    option (node_exn -> Z -> Z * outcome node_exn bool) :=
  if bool_decide (a = Recovery.RETRY) then Some (fun _ attempts => (attempts, Ok true))
  else None.

Definition run_attempts (b : behaviour) : Z * outcome node_exn node_return :=
  Recovery.run action_for (_execute b) strategies _AUTO_RETRIES 0.

(** The objects every task of a run shares. *)
Record shared := mkShared {
  state : fields;
  completed : gset string;
  run_state : GraphRunState.t
}.

(** The end of [_run_one_node_body]: the attempts, the records and the updates. *)
Definition finish_node (reducers : string -> option reducer) (node : string) (b : behaviour)
    (now : Z) (s : shared) : shared * outcome node_exn unit :=
  let '(attempts, r) := run_attempts b in
  let failed e := mkShared (state s) (completed s)
                    (mark_failed node e (attempts - 1) _AUTO_RETRIES now (run_state s)) in
  match r with
  | Raise GraphNodeTimeoutError =>
      let e := GraphNodeRetryExhaustedError node attempts in (failed e, Raise e)
  | Raise e => (failed e, Raise e)
  | Ok ROther => (s, Raise (GraphParamTypeError "<return>"))
  | Ok r =>
      let result := match r with RDict u => u | _ => [] end in
      match apply_updates reducers (state s) result with
      | (st, Raise e) => (mkShared st (completed s) (run_state s), Raise e)
      | (st, Ok _) =>
          (mkShared st (completed s ∪ {[node]})
             (mark_success node (Text.sorted (Dict.keys result)) now (run_state s)), Ok tt)
      end
  end.

(** ** Forward transition *)

Notation arrivals := (gmap string (gset string)).

Definition arrived (tc : arrivals) (t : string) : gset string := default ∅ (tc !! t).

Inductive fatal := GraphRouterError (node : string) | GraphRecursionError.

Inductive hops :=
| Next (out : list string)
| LlmPause (edge : _LlmEdge)
| RouterFails (node : string).

(** The conditional edges, in order: the routers see the state, their keys are recorded. *)
Fixpoint run_routers (node : string) (st : fields)
    (ces : list (WorkflowBuilder._ConditionalEdge fields)) (r : GraphRunState.t) :
    GraphRunState.t * option (list string) :=
  match ces with
  | [] => (r, Some [])
  | ce :: rest =>
      if bool_decide (WorkflowBuilder.cond_from ce = node) then
        match WorkflowBuilder.router ce st with
        | None => (r, None)
        | Some key =>
            match Dict.get key (WorkflowBuilder.mapping ce) with
            | None => (r, None)
            | Some target =>
                let '(r, out) := run_routers node st rest (set_route node key r) in
                (r, cons target <$> out)
            end
        end
      else run_routers node st rest r
  end.

(** The AND-joins [node] is a source of: each fires when all its sources are there,
    and is then reset. *)
Fixpoint arrive (node : string) (wes : list _WaitingEdge) (tc : arrivals) :
    arrivals * list string :=
  match wes with
  | [] => (tc, [])
  | we :: rest =>
      if bool_decide (node ∈ sources we) then
        let there := arrived tc (target we) ∪ {[node]} in
        if bool_decide (list_to_set (sources we) ⊆ there) then
          let '(tc, out) := arrive node rest (<[target we := ∅]> tc) in (tc, target we :: out)
        else arrive node rest (<[target we := there]> tc)
      else arrive node rest tc
  end.

Definition llm_edge_of (g : graph) (node : string) : option _LlmEdge :=
  List.find (fun le => bool_decide (llm_from le = node)) (WorkflowBuilder._llm_edges g).

Definition static_targets (g : graph) (node : string) : list string :=
  to_node <$> List.filter (fun e => bool_decide (from_node e = node)) (WorkflowBuilder._edges g).

Definition successors (g : graph) (node : string) (st : fields) (tc : arrivals)
    (r : GraphRunState.t) : arrivals * GraphRunState.t * hops :=
  match llm_edge_of g node with
  | Some le => (tc, r, LlmPause le)
  | None =>
      match run_routers node st (WorkflowBuilder._conditional_edges g) r with
      | (r, None) => (tc, r, RouterFails node)
      | (r, Some routed) =>
          let '(tc, joined) := arrive node (WorkflowBuilder._waiting_edges g) tc in
          (tc, r, Next (routed ++ static_targets g node ++ joined))
      end
  end.

Definition _detect_stall (g : graph) (completed : gset string) (tc : arrivals) : list string :=
  WorkflowBuilder.fromkeys
    (target <$> List.filter (fun we =>
       negb (bool_decide (target we ∈ completed))
       && negb (bool_decide (arrived tc (target we) = ∅))
       && negb (bool_decide (list_to_set (sources we) ⊆ arrived tc (target we))))
       (WorkflowBuilder._waiting_edges g)).

Definition _prefill_trigger_count (g : graph) (completed : gset string) (tc : arrivals) :
    arrivals :=
  foldl (fun tc we =>
           foldl (fun tc s =>
                    if bool_decide (s ∈ completed)
                    then <[target we := arrived tc (target we) ∪ {[s]}]> tc else tc)
             tc (sources we))
    tc (WorkflowBuilder._waiting_edges g).

(** ** The driver *)

(** A task of the driver: not yet begun, begun, or ended and not yet reaped. *)
Inductive phase :=
| Spawned
| Started
| Finished (o : outcome node_exn unit).

Record driver := mkDriver {
  sh : shared;
  trigger_count : arrivals;
  running : list (string * phase);
  scheduled : gset string;
  all_errors : list (string * node_exn);
  activations : Z
}.

Definition with_shared (d : driver) (s : shared) (tc : arrivals) : driver :=
  mkDriver s tc (running d) (scheduled d) (all_errors d) (activations d).

Definition with_running (d : driver) (l : list (string * phase)) : driver :=
  mkDriver (sh d) (trigger_count d) l (scheduled d) (all_errors d) (activations d).

(** How a run ends. *)
Inductive terminal :=
| Paused_llm (edge : _LlmEdge)
| Paused_stall (stalled : list string)
| Failed_fatal (e : fatal)
| Failed_batch (errors : list (string * node_exn))
| Succeeded (result : fields).

Inductive status := Live | Ended (t : terminal).

Definition config : Type := status * driver.

Inductive signal := Continue | Stop (t : terminal).

Definition spawn (g : graph) (node : string) (d : driver) : driver * signal :=
  if bool_decide (node = END) || bool_decide (node ∈ scheduled d) then (d, Continue)
  else
    let n := activations d + 1 in
    if WorkflowBuilder.recursion_limit g <? n
    then (mkDriver (sh d) (trigger_count d) (running d) (scheduled d) (all_errors d) n,
          Stop (Failed_fatal GraphRecursionError))
    else (mkDriver (sh d) (trigger_count d) (running d ++ [(node, Spawned)])
            (scheduled d ∪ {[node]}) (all_errors d) n, Continue).

Fixpoint spawn_all (g : graph) (nodes : list string) (d : driver) : driver * signal :=
  match nodes with
  | [] => (d, Continue)
  | n :: rest =>
      match spawn g n d with
      | (d, Continue) => spawn_all g rest d
      | r => r
      end
  end.

(** The hops after [node], and their tasks. *)
Definition advance (g : graph) (node : string) (d : driver) : driver * signal :=
  let '(tc, r, h) := successors g node (state (sh d)) (trigger_count d) (run_state (sh d)) in
  let d := with_shared d (mkShared (state (sh d)) (completed (sh d)) r) tc in
  match h with
  | LlmPause le => (d, Stop (Paused_llm le))
  | RouterFails n => (d, Stop (Failed_fatal (GraphRouterError n)))
  | Next out => spawn_all g out d
  end.

(** [_cancel_running]: begun tasks record the cancellation, the others never run. *)
Definition _cancel_running (now : Z) (d : driver) : driver :=
  let r := foldl (fun r kv => match snd kv with
                              | Started => mark_cancelled (fst kv) now r
                              | _ => r
                              end) (run_state (sh d)) (running d) in
  with_running (with_shared d (mkShared (state (sh d)) (completed (sh d)) r) (trigger_count d)) [].

(** The declared output; no declared output is an empty payload. *)
Definition _collect_finish_result (g : graph) (st : fields) : fields :=
  omap (fun n => pair n <$> Dict.get n st) (WorkflowBuilder._output_fields g).

(** The frontier has drained: errors, then a stall, then success. *)
Definition conclude (g : graph) (d : driver) : terminal :=
  match all_errors d with
  | [] =>
      match _detect_stall g (completed (sh d)) (trigger_count d) with
      | [] => Succeeded (_collect_finish_result g (state (sh d)))
      | stalled => Paused_stall stalled
      end
  | errors => Failed_batch errors
  end.

Definition settle (g : graph) (now : Z) (r : driver * signal) : config :=
  match r with
  | (d, Stop t) => (Ended t, _cancel_running now d)
  | (d, Continue) =>
      match running d with
      | [] => (Ended (conclude g d), d)
      | _ => (Live, d)
      end
  end.

(** The start of [_run_driver]: the hops of the skipped nodes, then the nodes to run. *)
Fixpoint advance_all (g : graph) (nodes : list string) (d : driver) : driver * signal :=
  match nodes with
  | [] => (d, Continue)
  | n :: rest =>
      match advance g n d with
      | (d, Continue) => advance_all g rest d
      | r => r
      end
  end.

Definition start (g : graph) (s : shared) (tc : arrivals)
    (precompleted execute_nodes : list string) (now : Z) : config :=
  settle g now
    match advance_all g precompleted (mkDriver s tc [] ∅ [] 0) with
    | (d, Continue) => spawn_all g execute_nodes d
    | r => r
    end.

(** The driver reaps the ended task of [node]. *)
Definition reap (g : graph) (node : string) (o : outcome node_exn unit) (d : driver) :
    driver * signal :=
  let d := mkDriver (sh d) (trigger_count d) (Dict.pop node (running d))
             (scheduled d ∖ {[node]}) (all_errors d) (activations d) in
  match o with
  | Raise e => (mkDriver (sh d) (trigger_count d) (running d) (scheduled d)
                  (all_errors d ++ [(node, e)]) (activations d), Continue)
  | Ok _ => advance g node d
  end.

(** A task begins: a node that the graph does not declare fails at once. *)
Definition begin_task (g : graph) (node : string) (now : Z) (d : driver) : driver :=
  if Dict.mem node (WorkflowBuilder._nodes g) then
    with_running
      (with_shared d (mkShared (state (sh d)) (completed (sh d))
                        (mark_running node now (run_state (sh d)))) (trigger_count d))
      (Dict.set node Started (running d))
  else with_running d (Dict.set node (Finished (Raise (KeyError node))) (running d)).

Definition end_task (reducers : string -> option reducer) (node : string) (b : behaviour)
    (now : Z) (d : driver) : driver :=
  let '(s, o) := finish_node reducers node b now (sh d) in
  with_running (with_shared d s (trigger_count d)) (Dict.set node (Finished o) (running d)).

Inductive event :=
| EBegin (node : string) (now : Z)
| EEnd (node : string) (b : behaviour) (now : Z)
| EReap (node : string) (now : Z).

(** One event, if it can happen. *)
Definition apply_event (g : graph) (reducers : string -> option reducer) (e : event)
    (c : config) : option config :=
  match c with
  | (Ended _, _) => None
  | (Live, d) =>
      match e with
      | EBegin n now =>
          match Dict.get n (running d) with
          | Some Spawned => Some (Live, begin_task g n now d)
          | _ => None
          end
      | EEnd n b now =>
          match Dict.get n (running d) with
          | Some Started => Some (Live, end_task reducers n b now d)
          | _ => None
          end
      | EReap n now =>
          match Dict.get n (running d) with
          | Some (Finished o) => Some (settle g now (reap g n o d))
          | _ => None
          end
      end
  end.

Fixpoint run_events (g : graph) (reducers : string -> option reducer) (es : list event)
    (c : config) : option config :=
  match es with
  | [] => Some c
  | e :: rest => c ← apply_event g reducers e c; run_events g reducers rest c
  end.

(** ** Entry points *)

(** [arun] and the executor: a fresh run from the entry nodes. *)
Definition arun (g : graph) (initial : fields) (now : Z) : config :=
  start g (mkShared initial ∅ (for_names (Dict.keys (WorkflowBuilder._nodes g)))) ∅ []
    (WorkflowBuilder._get_entry_nodes g) now.

Definition graph_names (g : graph) : list string := Dict.keys (WorkflowBuilder._nodes g).

(** [resume], [resume_skip] and [resume_skip_and_from]. *)
Definition resume (g : graph) (st : fields) (from_nodes : list string)
    (r : option GraphRunState.t) (now : Z) : config :=
  let r := ensure (graph_names g) r in
  let completed := completed_names r ∖ list_to_set from_nodes in
  let r := foldl (fun r n => reset n r) r from_nodes in
  start g (mkShared st completed r) (_prefill_trigger_count g completed ∅) [] from_nodes now.

Definition _apply_skip (skip_nodes : list string) (now : Z) (r : GraphRunState.t) :
    GraphRunState.t := foldl (fun r n => mark_skipped n now r) r skip_nodes.

Definition resume_skip (g : graph) (st : fields) (skip_nodes : list string)
    (r : option GraphRunState.t) (now : Z) : config :=
  let r := _apply_skip skip_nodes now (ensure (graph_names g) r) in
  let completed := completed_names r ∪ list_to_set skip_nodes in
  start g (mkShared st completed r) (_prefill_trigger_count g completed ∅) skip_nodes [] now.

Definition resume_skip_and_from (g : graph) (st : fields) (skip_nodes from_nodes : list string)
    (r : option GraphRunState.t) (now : Z) : config :=
  let r := _apply_skip skip_nodes now (ensure (graph_names g) r) in
  let completed := (completed_names r ∪ list_to_set skip_nodes) ∖ list_to_set from_nodes in
  let r := foldl (fun r n => reset n r) r from_nodes in
  start g (mkShared st completed r) (_prefill_trigger_count g completed ∅) skip_nodes
    from_nodes now.

(** ** The frontier *)

Definition limit (g : graph) : Z := Z.max 0 (WorkflowBuilder.recursion_limit g).

(** The tasks are distinct nodes, none of them [END]; [scheduled] is their set; the
    activations are within the limit. *)
Record inv (g : graph) (d : driver) : Prop := {
  inv_scheduled n : n ∈ scheduled d <-> n ∈ Dict.keys (running d);
  inv_nodup : NoDup (Dict.keys (running d));
  inv_end : END ∉ Dict.keys (running d);
  inv_activations : 0 <= activations d <= limit g
}.

Definition weight (p : phase) : Z :=
  match p with Spawned => 3 | Started => 2 | Finished _ => 1 end.

Fixpoint weights (l : list (string * phase)) : Z :=
  match l with [] => 0 | (_, p) :: l' => weight p + weights l' end.

(** The events that can still happen: three per activation left, and those the tasks
    have before them. *)
Definition budget (g : graph) (d : driver) : Z :=
  3 * (limit g - activations d) + weights (running d).

Lemma weights_app l l' : weights (l ++ l') = weights l + weights l'.
Proof. induction l as [|[n p] l IH]; simpl; [done|]. rewrite IH. lia. Qed.

Lemma weights_pos l : l <> [] -> 1 <= weights l.
Proof.
  assert (forall l, 0 <= weights l) as H.
  { intros l'. induction l' as [|[n []] l' IH]; simpl; lia. }
  destruct l as [|[n p] l]; [done|]. intros _. specialize (H l). destruct p; simpl; lia.
Qed.

Lemma weights_set n p q l :
  Dict.get n l = Some p -> weights (Dict.set n q l) = weights l - weight p + weight q.
Proof.
  induction l as [|[m r] l IH]; simpl; [done|].
  case_decide; simpl; [intros [= ->]; lia|]. intros Hg. rewrite IH by done. lia.
Qed.

Lemma weights_pop n p l :
  NoDup (Dict.keys l) -> Dict.get n l = Some p ->
  weights (Dict.pop n l) = weights l - weight p.
Proof.
  induction l as [|[m r] l IH]; simpl; [done|]. intros [Hm Hl]%NoDup_cons.
  case_decide; simpl.
  - subst. intros [= ->]. rewrite Dict.pop_notin by done. lia.
  - intros H'. rewrite IH by done. lia.
Qed.

Lemma keys_set_same {B} n (q : B) (l : list (string * B)) :
  is_Some (Dict.get n l) -> Dict.keys (Dict.set n q l) = Dict.keys l.
Proof.
  intros [p Hp]. apply Dict.keys_set_in.
  destruct (decide (n ∈ Dict.keys l)) as [|Hn]; [done|].
  apply Dict.get_None_keys in Hn. congruence.
Qed.

Lemma get_app {B} n (l l' : list (string * B)) :
  Dict.get n (l ++ l') = match Dict.get n l with Some v => Some v | None => Dict.get n l' end.
Proof. induction l as [|[k v] l IH]; simpl; [done|]. by case_decide. Qed.

Lemma spawn_spec g n d :
  inv g d ->
  match spawn g n d with
  | (d', Continue) =>
      inv g d' /\ budget g d' = budget g d /\ sh d' = sh d /\ all_errors d' = all_errors d
      /\ trigger_count d' = trigger_count d
      /\ (forall m, m ∈ Dict.keys (running d') <->
            m ∈ Dict.keys (running d) \/ (m = n /\ n <> END))
      /\ (forall m p, Dict.get m (running d) = Some p -> Dict.get m (running d') = Some p)
      /\ (forall m p, Dict.get m (running d') = Some p ->
            Dict.get m (running d) = Some p \/ p = Spawned)
  | (d', Stop t) =>
      t = Failed_fatal GraphRecursionError
      /\ WorkflowBuilder.recursion_limit g < activations d' <= limit g + 1
  end.
Proof.
  intros [H1 H2 H3 H4]. unfold spawn.
  destruct (bool_decide (n = END) || bool_decide (n ∈ scheduled d)) eqn:E.
  { split_and!; try done; [|by left]. intros m.
    rewrite orb_true_iff, !bool_decide_eq_true, H1 in E. naive_solver. }
  rewrite orb_false_iff, !bool_decide_eq_false in E. destruct E as [En Es].
  rewrite H1 in Es.
  destruct (Z.ltb_spec (WorkflowBuilder.recursion_limit g) (activations d + 1)) as [Hl|Hl].
  - unfold limit in *. simpl. split; [done|lia].
  - assert (Dict.keys (running d ++ [(n, Spawned)]) = Dict.keys (running d) ++ [n]) as Hk
      by (unfold Dict.keys; by rewrite fmap_app).
    split; [split; simpl|].
    + intros m. rewrite Hk, elem_of_union, elem_of_app, H1. set_solver.
    + rewrite Hk. apply NoDup_app. split; [done|]. split; [set_solver|apply NoDup_singleton].
    + rewrite Hk, elem_of_app. set_solver.
    + unfold limit in *. lia.
    + split_and!; try done.
      * unfold budget. simpl. rewrite weights_app. simpl. lia.
      * intros m. simpl. rewrite Hk. set_solver.
      * intros m p Hp. simpl. rewrite get_app, Hp. done.
      * intros m p. simpl. rewrite get_app. destruct (Dict.get m (running d)); [by left|].
        simpl. case_decide; [|done]. intros [= <-]. by right.
Qed.

(** [spawn] over a list: the tasks it adds are those of the list that are not there. *)
Lemma spawn_all_spec g ns d :
  inv g d ->
  match spawn_all g ns d with
  | (d', Continue) =>
      inv g d' /\ budget g d' = budget g d /\ sh d' = sh d /\ all_errors d' = all_errors d
      /\ trigger_count d' = trigger_count d
      /\ (forall m, m ∈ Dict.keys (running d') <->
            m ∈ Dict.keys (running d) \/ (m ∈ ns /\ m <> END))
      /\ (forall m p, Dict.get m (running d) = Some p -> Dict.get m (running d') = Some p)
      /\ (forall m p, Dict.get m (running d') = Some p ->
            Dict.get m (running d) = Some p \/ p = Spawned)
  | (d', Stop t) =>
      t = Failed_fatal GraphRecursionError
      /\ WorkflowBuilder.recursion_limit g < activations d' <= limit g + 1
  end.
Proof.
  revert d. induction ns as [|n ns IH]; intros d Hd; simpl.
  { split_and!; try done; [set_solver|by left]. }
  pose proof (spawn_spec g n d Hd) as H. destruct (spawn g n d) as [d1 []]; [|done].
  destruct H as (Hi & Hb & Hs & He & Ht & Hk & Hg & Hw). specialize (IH d1 Hi).
  destruct (spawn_all g ns d1) as [d2 []]; [|done].
  destruct IH as (Hi2 & Hb2 & Hs2 & He2 & Ht2 & Hk2 & Hg2 & Hw2).
  split_and!; try congruence; auto.
  - intros m. rewrite Hk2, Hk, elem_of_cons. naive_solver.
  - intros m p Hp. destruct (Hw2 m p Hp); auto.
Qed.

(** What a step of the driver that goes on keeps, and what it adds. *)
Record goes_on (g : graph) (d d' : driver) (out : list string) : Prop := {
  on_inv : inv g d';
  on_budget : budget g d' = budget g d;
  on_errors : all_errors d' = all_errors d;
  on_state : state (sh d') = state (sh d);
  on_completed : completed (sh d') = completed (sh d);
  on_keys m : m ∈ Dict.keys (running d') <->
              m ∈ Dict.keys (running d) \/ (m ∈ out /\ m <> END);
  on_phase m p : Dict.get m (running d) = Some p -> Dict.get m (running d') = Some p;
  on_new m p : Dict.get m (running d') = Some p ->
               Dict.get m (running d) = Some p \/ p = Spawned
}.

Lemma advance_spec g n d :
  inv g d ->
  match advance g n d with
  | (d', Continue) =>
      exists out, successors g n (state (sh d)) (trigger_count d) (run_state (sh d))
                  = (trigger_count d', run_state (sh d'), Next out)
        /\ goes_on g d d' out
  | (d', Stop t) =>
      (exists le, llm_edge_of g n = Some le /\ t = Paused_llm le)
      \/ t = Failed_fatal (GraphRouterError n)
      \/ (t = Failed_fatal GraphRecursionError
          /\ WorkflowBuilder.recursion_limit g < activations d')
  end.
Proof.
  intros Hd. unfold advance.
  destruct (successors g n _ _ _) as [[tc r] [out|le|m]] eqn:E.
  - set (d1 := with_shared d _ tc).
    assert (inv g d1) as Hd1 by (destruct Hd; by split).
    pose proof (spawn_all_spec g out d1 Hd1) as H.
    destruct (spawn_all g out d1) as [d2 [|t]].
    + destruct H as (Hi & Hb & Hs & He & Ht & Hk & Hg & Hw). exists out.
      rewrite Ht, Hs. split; [done|]. split; try done; by rewrite ?Hs.
    + right. right. split; [apply H|apply H].
  - left. exists le. split; [|done]. unfold successors in E.
    destruct (llm_edge_of g n) as [le'|]; [by injection E as _ _ <-|].
    by destruct (run_routers _ _ _ _) as [? [?|]]; [destruct (arrive _ _ _)|].
  - right. left. unfold successors in E.
    destruct (llm_edge_of g n) as [le'|]; [done|].
    destruct (run_routers _ _ _ _) as [? [?|]]; [by destruct (arrive _ _ _)|].
    by injection E as _ _ <-.
Qed.

Lemma goes_on_refl g d : inv g d -> goes_on g d d [].
Proof. intros Hd. split; try done; [set_solver|by left]. Qed.

Lemma goes_on_trans g d d1 d2 l1 l2 :
  goes_on g d d1 l1 -> goes_on g d1 d2 l2 -> goes_on g d d2 (l1 ++ l2).
Proof.
  intros [] []. split; try congruence; auto.
  - intros m. rewrite elem_of_app. rewrite on_keys1, on_keys0. naive_solver.
  - intros m p Hp. destruct (on_new1 m p Hp); auto.
Qed.

(** ** Runs *)

Definition reachable (g : graph) (reducers : string -> option reducer) (c0 c : config) : Prop :=
  exists es, run_events g reducers es c0 = Some c.

(** A live configuration has a task and keeps the invariant. *)
Definition live_inv (g : graph) (c : config) : Prop :=
  match c with
  | (Live, d) => inv g d /\ running d <> []
  | (Ended _, _) => True
  end.

Definition events_left (g : graph) (c : config) : Z :=
  match c with (Live, d) => budget g d | (Ended _, _) => 0 end.

Lemma budget_pos g d : inv g d -> running d <> [] -> 1 <= budget g d.
Proof. intros [_ _ _ ?] Hr%weights_pos. unfold budget. lia. Qed.

Lemma settle_live g now r c :
  settle g now r = c -> (forall d, r = (d, Continue) -> inv g d) -> live_inv g c.
Proof.
  intros <- H. destruct r as [d []]; simpl; [|done]. specialize (H d eq_refl).
  destruct (running d) eqn:E; simpl; [done|]. split; [done|congruence].
Qed.

Lemma settle_budget g now r :
  (forall d, r = (d, Continue) -> inv g d) ->
  match r with
  | (d, Continue) => events_left g (settle g now r) <= budget g d
  | _ => events_left g (settle g now r) = 0
  end.
Proof.
  intros H. destruct r as [d []]; simpl; [|done]. specialize (H d eq_refl).
  destruct (running d) eqn:E; simpl; [|done]. unfold budget. rewrite E. simpl.
  destruct H as [_ _ _ ?]. lia.
Qed.

Lemma inv_set_phase g d n p q :
  inv g d -> Dict.get n (running d) = Some p ->
  let d' := with_running d (Dict.set n q (running d)) in
  inv g d' /\ budget g d' = budget g d - weight p + weight q /\ running d' <> [].
Proof.
  intros [H1 H2 H3 H4] Hp. simpl.
  assert (Dict.keys (Dict.set n q (running d)) = Dict.keys (running d)) as Hk
    by (by apply keys_set_same; rewrite Hp).
  split; [|split].
  - split; simpl; rewrite ?Hk; done.
  - unfold budget. simpl. rewrite (weights_set n p q) by done. lia.
  - destruct (running d) as [|[m r] l]; [done|]. simpl. by case_decide.
Qed.

Lemma inv_shared g d s tc : inv g d -> inv g (with_shared d s tc).
Proof. intros []. by split. Qed.

Lemma advance_all_spec g ns d :
  inv g d ->
  match advance_all g ns d with
  | (d', Continue) => exists out, goes_on g d d' out
  | (d', Stop t) => True
  end.
Proof.
  revert d. induction ns as [|n ns IH]; intros d Hd; simpl.
  { exists []. by apply goes_on_refl. }
  pose proof (advance_spec g n d Hd) as H. destruct (advance g n d) as [d1 []]; [|done].
  destruct H as (out & _ & H). specialize (IH d1 (on_inv _ _ _ _ H)).
  destruct (advance_all g ns d1) as [d2 []]; [|done].
  destruct IH as [out2 H2]. exists (out ++ out2). by eapply goes_on_trans.
Qed.

Lemma spawn_all_goes_on g ns d d' :
  inv g d -> spawn_all g ns d = (d', Continue) -> goes_on g d d' ns.
Proof.
  intros Hd E. pose proof (spawn_all_spec g ns d Hd) as H. rewrite E in H.
  destruct H as (Hi & Hb & Hs & He & Ht & Hk & Hg & Hw). split; try done; by rewrite Hs.
Qed.

Definition fresh (s : shared) (tc : arrivals) : driver := mkDriver s tc [] ∅ [] 0.

Lemma fresh_inv g s tc : inv g (fresh s tc) /\ budget g (fresh s tc) = 3 * limit g.
Proof.
  unfold budget, fresh, limit. simpl.
  split; [split; simpl; [set_solver|constructor|set_solver|unfold limit; lia]|]. lia.
Qed.

Lemma start_goes_on g s tc pre ex d :
  match advance_all g pre (fresh s tc) with
  | (d, Continue) => spawn_all g ex d
  | r => r
  end = (d, Continue) -> exists out, goes_on g (fresh s tc) d (out ++ ex).
Proof.
  destruct (fresh_inv g s tc) as [Hf _].
  pose proof (advance_all_spec g pre (fresh s tc) Hf) as H.
  destruct (advance_all g pre (fresh s tc)) as [d1 []]; [|done].
  destruct H as [out H]. intros Hs. exists out.
  eapply goes_on_trans; [done|]. apply spawn_all_goes_on; [by eapply on_inv|done].
Qed.

Lemma start_live g s tc pre ex now :
  live_inv g (start g s tc pre ex now)
  /\ events_left g (start g s tc pre ex now) <= 3 * limit g.
Proof.
  unfold start. fold (fresh s tc). destruct (fresh_inv g s tc) as [_ Hb].
  set (r := match advance_all g pre (fresh s tc) with
            | (d, Continue) => spawn_all g ex d | r => r end).
  assert (forall d, r = (d, Continue) -> inv g d /\ budget g d = 3 * limit g) as Hr.
  { intros d Hd. destruct (start_goes_on g s tc pre ex d Hd) as [out []].
    split; [done|congruence]. }
  split; [eapply settle_live; [done|]; intros d Hd; by apply Hr|].
  pose proof (settle_budget g now r (fun d Hd => proj1 (Hr d Hd))) as H.
  destruct r as [d []]; [|rewrite H; unfold limit; lia].
  by rewrite <- (proj2 (Hr d eq_refl)).
Qed.

Lemma popped_inv g d n o :
  inv g d -> Dict.get n (running d) = Some (Finished o) ->
  let d' := mkDriver (sh d) (trigger_count d) (Dict.pop n (running d))
              (scheduled d ∖ {[n]}) (all_errors d) (activations d) in
  inv g d' /\ budget g d' = budget g d - 1
  /\ forall m, m ∈ Dict.keys (running d') <-> m <> n /\ m ∈ Dict.keys (running d).
Proof.
  intros [H1 H2 H3 H4] Hn. simpl.
  split; [split; simpl|split].
  - intros m. rewrite Dict.elem_keys_pop, <- H1. set_solver.
  - auto with mote.
  - rewrite Dict.elem_keys_pop. naive_solver.
  - done.
  - unfold budget. simpl. rewrite (weights_pop n (Finished o)) by done. simpl. lia.
  - intros m. simpl. by rewrite Dict.elem_keys_pop.
Qed.

Lemma reap_spec g n o d d' :
  inv g d -> Dict.get n (running d) = Some (Finished o) -> reap g n o d = (d', Continue) ->
  inv g d' /\ budget g d' = budget g d - 1.
Proof.
  intros Hd Hn. destruct (popped_inv g d n o Hd Hn) as (Hi & Hb & _).
  unfold reap. set (d0 := mkDriver _ _ _ _ _ _) in *. destruct o as [u|e].
  - intros E. pose proof (advance_spec g n d0 Hi) as H. rewrite E in H.
    destruct H as (out & _ & []). split; [done|congruence].
  - intros [= <-]. split; [destruct Hi; by split|exact Hb].
Qed.

Lemma begin_task_inv g n now d :
  inv g d -> Dict.get n (running d) = Some Spawned ->
  inv g (begin_task g n now d) /\ budget g (begin_task g n now d) <= budget g d - 1
  /\ running (begin_task g n now d) <> [].
Proof.
  intros Hd Hn. unfold begin_task. destruct (Dict.mem n _).
  - set (d1 := with_shared d _ _).
    destruct (inv_set_phase g d1 n Spawned Started (inv_shared _ _ _ _ Hd) Hn) as (? & E & ?).
    split; [done|]. split; [|done]. simpl in *. rewrite E. change (budget g d1) with (budget g d). lia.
  - destruct (inv_set_phase g d n Spawned (Finished (Raise (KeyError n))) Hd Hn) as (? & E & ?).
    split; [done|]. split; [|done]. simpl in *. rewrite E. lia.
Qed.

Lemma end_task_inv g reducers n b now d :
  inv g d -> Dict.get n (running d) = Some Started ->
  inv g (end_task reducers n b now d)
  /\ budget g (end_task reducers n b now d) = budget g d - 1
  /\ running (end_task reducers n b now d) <> [].
Proof.
  intros Hd Hn. unfold end_task. destruct (finish_node _ _ _ _ _) as [s o].
  set (d1 := with_shared d s (trigger_count d)).
  destruct (inv_set_phase g d1 n Started (Finished o) (inv_shared _ _ _ _ Hd) Hn) as (? & E & ?).
  split; [done|]. split; [|done]. simpl in *. rewrite E. change (budget g d1) with (budget g d). lia.
Qed.

Lemma event_live g reducers e c c' :
  live_inv g c -> apply_event g reducers e c = Some c' ->
  live_inv g c' /\ events_left g c' + 1 <= events_left g c.
Proof.
  destruct c as [[|t] d]; simpl; [|done]. intros [Hd Hr].
  destruct e as [n now|n b now|n now];
    destruct (Dict.get n (running d)) as [[| |o]|] eqn:E; try done; intros [= <-].
  - destruct (begin_task_inv g n now d Hd E) as (? & ? & ?). simpl. split; [done|lia].
  - destruct (end_task_inv g reducers n b now d Hd E) as (? & ? & ?). simpl. split; [done|lia].
  - assert (forall d', reap g n o d = (d', Continue) -> inv g d' /\ budget g d' = budget g d - 1)
      as Hp by (intros d'; by apply reap_spec).
    split; [eapply settle_live; [done|]; intros d' Hd'; by apply Hp|].
    pose proof (settle_budget g now (reap g n o d) (fun d' H => proj1 (Hp d' H))) as H.
    pose proof (budget_pos g d Hd Hr).
    destruct (reap g n o d) as [d' []]; [|lia]. destruct (Hp d' eq_refl). lia.
Qed.

Lemma run_live g reducers es c c' :
  live_inv g c -> run_events g reducers es c = Some c' ->
  live_inv g c' /\ Z.of_nat (length es) + events_left g c' <= events_left g c.
Proof.
  revert c. induction es as [|e es IH]; intros c Hc; simpl.
  { intros [= <-]. split; [done|lia]. }
  destruct (apply_event g reducers e c) as [c1|] eqn:E; simpl; [|done].
  destruct (event_live g reducers e c c1 Hc E) as [Hc1 ?]. intros Hrun.
  destruct (IH c1 Hc1 Hrun). split; [done|lia].
Qed.

Lemma events_left_nonneg g c : live_inv g c -> 0 <= events_left g c.
Proof.
  destruct c as [[] d]; simpl; [|done]. intros [Hd Hr]. pose proof (budget_pos g d Hd Hr). lia.
Qed.

Definition idle_node : behaviour := fun _ => Body (Ok RNone).

Lemma live_progress g reducers d :
  inv g d -> running d <> [] -> exists e c, apply_event g reducers e (Live, d) = Some c.
Proof.
  intros _ Hr. destruct (running d) as [|[n p] l] eqn:E; [done|].
  assert (Dict.get n (running d) = Some p) as Hg by (rewrite E; simpl; by rewrite decide_True).
  destruct p.
  - exists (EBegin n 0). simpl. rewrite Hg. by eexists.
  - exists (EEnd n idle_node 0). simpl. rewrite Hg. by eexists.
  - exists (EReap n 0). simpl. rewrite Hg. by eexists.
Qed.

(** C20: Every run ends, whatever cycles its graph has: from any start, fresh or resumed,
    at most three events happen per activation the recursion limit allows, and a run
    that has not ended always has an event that can happen. *)
Theorem workflow_terminates g reducers s tc precompleted execute_nodes now es c :
  run_events g reducers es (start g s tc precompleted execute_nodes now) = Some c ->
  Z.of_nat (length es) <= 3 * Z.max 0 (WorkflowBuilder.recursion_limit g)
  /\ match c with
     | (Live, _) => exists e c', apply_event g reducers e c = Some c'
     | (Ended _, _) => True
     end.
Proof.
  intros H. destruct (start_live g s tc precompleted execute_nodes now) as [Hl Hb].
  destruct (run_live g reducers es _ c Hl H) as [Hc Hn].
  pose proof (events_left_nonneg g c Hc). unfold limit in *. split; [lia|].
  destruct c as [[] d]; [|done]. destruct Hc. by apply live_progress.
Qed.

(** No node runs twice at once and the activations stay within the recursion limit:
    in every configuration of a run the tasks are distinct nodes, none of them [END],
    [scheduled] is exactly their set, and the limit bounds the activations so far. *)
Theorem workflow_frontier g reducers s tc precompleted execute_nodes now es d :
  run_events g reducers es (start g s tc precompleted execute_nodes now) = Some (Live, d) ->
  NoDup (Dict.keys (running d)) /\ END ∉ Dict.keys (running d)
  /\ (forall n, n ∈ scheduled d <-> n ∈ Dict.keys (running d))
  /\ 0 <= activations d <= Z.max 0 (WorkflowBuilder.recursion_limit g).
Proof.
  intros H. destruct (start_live g s tc precompleted execute_nodes now) as [Hl _].
  destruct (run_live g reducers es _ _ Hl H) as [[[] _] _]. done.
Qed.

(** ** Arrivals at the joins *)

Lemma arrived_insert tc t u a :
  arrived (<[u := a]> tc) t = if decide (u = t) then a else arrived tc t.
Proof.
  unfold arrived. destruct (decide (u = t)) as [->|Hne].
  - by rewrite lookup_insert_eq.
  - by rewrite lookup_insert_ne.
Qed.

(** The joins that [node] is no source of, or that are not there, see nothing. *)
Lemma arrive_other node wes tc t :
  t ∉ (target <$> wes) ->
  arrived (fst (arrive node wes tc)) t = arrived tc t /\ t ∉ snd (arrive node wes tc).
Proof.
  revert tc. induction wes as [|we wes IH]; intros tc; simpl.
  { split; [done|apply not_elem_of_nil]. }
  rewrite not_elem_of_cons. intros [Hne Hn]. case_bool_decide; [|by apply IH].
  case_bool_decide.
  - specialize (IH (<[target we := ∅]> tc) Hn). destruct (arrive node wes _) as [tc' out].
    simpl in *. rewrite arrived_insert, decide_False in IH by done.
    rewrite not_elem_of_cons. naive_solver.
  - specialize (IH (<[target we := arrived tc (target we) ∪ {[node]}]> tc) Hn).
    by rewrite arrived_insert, decide_False in IH by done.
Qed.

(** What the arrival of [node] does to the join [w]. *)
Definition full (w : _WaitingEdge) (a : gset string) : Prop := list_to_set (sources w) ⊆ a.

#[local] Instance full_dec w a : Decision (full w a).
Proof. unfold full. apply _. Defined.

Definition after_arrival (w : _WaitingEdge) (node : string) (a : gset string) : gset string :=
  if decide (node ∈ sources w) then
    if decide (full w (a ∪ {[node]})) then ∅ else a ∪ {[node]}
  else a.

Definition fires (w : _WaitingEdge) (node : string) (a : gset string) : Prop :=
  node ∈ sources w /\ full w (a ∪ {[node]}).

Definition unique_joins (wes : list _WaitingEdge) : Prop :=
  NoDup (target <$> List.filter (fun w => negb (WorkflowBuilder.to_end w)) wes).

Lemma unique_joins_cons w wes :
  unique_joins (w :: wes) ->
  unique_joins wes /\ (target w <> END -> target w ∉ (target <$> wes)).
Proof.
  unfold unique_joins. simpl. destruct (WorkflowBuilder.to_end w) eqn:E; simpl.
  - apply bool_decide_eq_true in E. done.
  - apply bool_decide_eq_false in E. intros [Hn Hd]%NoDup_cons. split; [done|].
    intros _ (w' & Ht & Hw')%list_elem_of_fmap. apply Hn. rewrite Ht in E |- *.
    apply list_elem_of_fmap. exists w'. split; [done|].
    apply list_elem_of_In, filter_In. split; [by apply list_elem_of_In|].
    apply negb_true_iff, bool_decide_eq_false. done.
Qed.

Lemma arrive_spec node wes tc w :
  unique_joins wes -> w ∈ wes -> target w <> END ->
  arrived (fst (arrive node wes tc)) (target w) = after_arrival w node (arrived tc (target w))
  /\ (target w ∈ snd (arrive node wes tc) <-> fires w node (arrived tc (target w))).
Proof.
  revert tc. induction wes as [|w0 wes IH]; intros tc Hu Hin Ht; [by apply not_elem_of_nil in Hin|].
  apply unique_joins_cons in Hu as [Hu Hw0].
  apply elem_of_cons in Hin as [<-|Hin].
  - specialize (Hw0 Ht). unfold after_arrival, fires, full. simpl.
    case_bool_decide as Hs.
    2:{ rewrite decide_False by done. destruct (arrive_other node wes tc _ Hw0) as [E1 E2].
        rewrite E1. naive_solver. }
    rewrite decide_True by done. case_bool_decide as Hf.
    + rewrite decide_True by done.
      destruct (arrive_other node wes (<[target w := ∅]> tc) _ Hw0) as [E1 E2].
      destruct (arrive node wes _) as [tc' out]. simpl in *.
      rewrite arrived_insert, decide_True in E1 by done. rewrite elem_of_cons. naive_solver.
    + rewrite decide_False by done.
      destruct (arrive_other node wes
                  (<[target w := arrived tc (target w) ∪ {[node]}]> tc) _ Hw0) as [E1 E2].
      rewrite arrived_insert, decide_True in E1 by done. naive_solver.
  - assert (target w0 <> target w) as Hne.
    { intros E. destruct (decide (target w0 = END)) as [|H0]; [congruence|].
      apply (Hw0 H0). rewrite E. by apply list_elem_of_fmap_2. }
    assert (forall a, arrived (<[target w0 := a]> tc) (target w) = arrived tc (target w)) as Ha.
    { intros a. by rewrite arrived_insert, decide_False. }
    simpl. case_bool_decide; [|by apply IH]. case_bool_decide.
    + specialize (IH (<[target w0 := ∅]> tc) Hu Hin Ht).
      destruct (arrive node wes _) as [tc' out]. simpl in *. rewrite Ha in IH.
      rewrite elem_of_cons. naive_solver.
    + specialize (IH (<[target w0 := arrived tc (target w0) ∪ {[node]}]> tc) Hu Hin Ht).
      by rewrite Ha in IH.
Qed.

(** The joins of a set of arrivals that may still be waiting. *)
Definition none_full (g : graph) (tc : arrivals) : Prop :=
  forall w, w ∈ WorkflowBuilder._waiting_edges g -> target w <> END -> sources w <> [] ->
    ~ full w (arrived tc (target w)).

Lemma none_full_arrive g node tc :
  unique_joins (WorkflowBuilder._waiting_edges g) -> none_full g tc ->
  none_full g (fst (arrive node (WorkflowBuilder._waiting_edges g) tc)).
Proof.
  intros Hu Hn w Hw Ht Hs.
  destruct (arrive_spec node _ tc w Hu Hw Ht) as [-> _]. unfold after_arrival.
  repeat case_decide; [|done|by apply Hn].
  unfold full. destruct (sources w) as [|s l]; [done|]. set_solver.
Qed.

(** ** What a successful run has done *)

(** A node the run has dealt with: nothing to do, in flight, or completed. *)
Definition handled (d : driver) (n : string) : Prop :=
  n = END \/ n ∈ Dict.keys (running d) \/ n ∈ completed (sh d).

(** While no node has failed: finished tasks have completed their node; the entries, the
    targets of completed nodes and the joins they have reached are dealt with; and the
    records agree with the set of completed nodes. *)
Record trail (g : graph) (entries : list string) (d : driver) : Prop := {
  tr_finished n : Dict.get n (running d) = Some (Finished (Ok tt)) ->
    n ∈ completed (sh d) /\ status_of n (run_state (sh d)) = SUCCESS;
  tr_entry n : n ∈ entries -> handled d n;
  tr_edge e : e ∈ WorkflowBuilder._edges g -> from_node e ∈ completed (sh d) ->
    from_node e ∈ Dict.keys (running d) \/ handled d (to_node e);
  tr_join w s : w ∈ WorkflowBuilder._waiting_edges g -> target w <> END -> s ∈ sources w ->
    s ∈ completed (sh d) ->
    s ∈ Dict.keys (running d) \/ s ∈ arrived (trigger_count d) (target w)
    \/ handled d (target w);
  tr_full : none_full g (trigger_count d);
  tr_records n : n ∉ Dict.keys (running d) ->
    (n ∈ completed (sh d) <-> status_of n (run_state (sh d)) = SUCCESS)
    /\ (status_of n (run_state (sh d)) = SUCCESS \/ status_of n (run_state (sh d)) = PENDING)
}.

Definition trail_ok (g : graph) (entries : list string) (d : driver) : Prop :=
  all_errors d = [] -> trail g entries d.

Lemma status_update_ne n m f r : m <> n -> status_of m (update n f r) = status_of m r.
Proof. intros H. unfold status_of, update, get. by rewrite Dict.get_set_ne. Qed.

Lemma status_update_eq n f r : status_of n (update n f r) = GraphRunState.status (f (get n r)).
Proof. unfold status_of, update. unfold get at 1. by rewrite Dict.get_set_eq. Qed.

Lemma status_set_route n m key r : status_of m (set_route n key r) = status_of m r.
Proof.
  unfold set_route. destruct (decide (m = n)) as [->|Hne].
  - by rewrite status_update_eq.
  - by rewrite status_update_ne.
Qed.

Lemma status_routers node st ces r m :
  status_of m (fst (run_routers node st ces r)) = status_of m r.
Proof.
  revert r. induction ces as [|ce ces IH]; intros r; simpl; [done|].
  case_bool_decide; [|done]. destruct (WorkflowBuilder.router ce st) as [key|]; [|done].
  destruct (Dict.get key _); [|done]. specialize (IH (set_route node key r)).
  destruct (run_routers node st ces _) as [r' out]. simpl in *. by rewrite IH, status_set_route.
Qed.

(** What the hops of [node] are made of. *)
Lemma successors_spec g node st tc r tc' r' out :
  successors g node st tc r = (tc', r', Next out) ->
  exists routed,
    run_routers node st (WorkflowBuilder._conditional_edges g) r = (r', Some routed)
    /\ tc' = fst (arrive node (WorkflowBuilder._waiting_edges g) tc)
    /\ out = routed ++ static_targets g node
              ++ snd (arrive node (WorkflowBuilder._waiting_edges g) tc)
    /\ (forall m, status_of m r' = status_of m r).
Proof.
  unfold successors. destruct (llm_edge_of g node); [done|].
  pose proof (status_routers node st (WorkflowBuilder._conditional_edges g) r) as Hs.
  destruct (run_routers _ _ _ _) as [r1 [routed|]]; [|done].
  destruct (arrive node _ tc) as [tc1 joined]. intros [= <- <- <-].
  exists routed. by split_and!.
Qed.

Lemma elem_of_static_targets g e :
  e ∈ WorkflowBuilder._edges g -> to_node e ∈ static_targets g (from_node e).
Proof.
  intros He. unfold static_targets. apply list_elem_of_fmap_2.
  apply list_elem_of_In, filter_In. split; [by apply list_elem_of_In|].
  by apply bool_decide_eq_true.
Qed.

Lemma finish_node_spec reducers n b now s s' o :
  finish_node reducers n b now s = (s', o) ->
  (forall m, m <> n -> status_of m (run_state s') = status_of m (run_state s))
  /\ completed s ⊆ completed s' /\ completed s' ⊆ completed s ∪ {[n]}
  /\ (o = Ok tt -> n ∈ completed s' /\ status_of n (run_state s') = SUCCESS).
Proof.
  unfold finish_node. destruct (run_attempts b) as [attempts r].
  assert (forall e e', (mkShared (state s) (completed s)
             (mark_failed n e (attempts - 1) _AUTO_RETRIES now (run_state s)), Raise e')
           = (s', o) ->
    (forall m, m <> n -> status_of m (run_state s') = status_of m (run_state s))
    /\ completed s ⊆ completed s' /\ completed s' ⊆ completed s ∪ {[n]}
    /\ (o = Ok tt -> n ∈ completed s' /\ status_of n (run_state s') = SUCCESS)) as Hfail.
  { intros e e' [= <- <-]. simpl. split_and!; [|set_solver|set_solver|done].
    intros m Hm. by apply status_update_ne. }
  assert (forall u, (match apply_updates reducers (state s) u with
            | (st, Raise e) => (mkShared st (completed s) (run_state s), Raise e)
            | (st, Ok _) => (mkShared st (completed s ∪ {[n]})
                (mark_success n (Text.sorted (Dict.keys u)) now (run_state s)), Ok tt)
            end) = (s', o) ->
    (forall m, m <> n -> status_of m (run_state s') = status_of m (run_state s))
    /\ completed s ⊆ completed s' /\ completed s' ⊆ completed s ∪ {[n]}
    /\ (o = Ok tt -> n ∈ completed s' /\ status_of n (run_state s') = SUCCESS)) as Hok.
  { intros u. destruct (apply_updates _ _ _) as [st [[]|e]]; intros [= <- <-]; simpl.
    - split_and!; [|set_solver|set_solver|].
      + intros m Hm. by apply status_update_ne.
      + intros _. split; [set_solver|]. unfold mark_success. by rewrite status_update_eq.
    - split_and!; [done|set_solver|set_solver|done]. }
  destruct r as [[|u|]|[]]; try apply Hfail; try apply Hok.
  intros [= <- <-]. split_and!; [done|set_solver|set_solver|done].
Qed.

Lemma handled_mono d d' m :
  (forall n, n ∈ Dict.keys (running d) -> n ∈ Dict.keys (running d') \/ n ∈ completed (sh d')) ->
  completed (sh d) ⊆ completed (sh d') -> handled d m -> handled d' m.
Proof. unfold handled. set_solver. Qed.

Lemma status_mark_running n m now r :
  m <> n -> status_of m (mark_running n now r) = status_of m r.
Proof. apply status_update_ne. Qed.

Lemma get_set_phase {B} n (p q : B) m (l : list (string * B)) r :
  Dict.get n l = Some p -> Dict.get m (Dict.set n q l) = Some r ->
  m = n /\ r = q \/ m <> n /\ Dict.get m l = Some r.
Proof.
  intros _. destruct (decide (m = n)) as [->|Hne].
  - rewrite Dict.get_set_eq. intros [= <-]. by left.
  - rewrite Dict.get_set_ne by done. by right.
Qed.

(** A task changes phase: the keys stay, only its own record may change. *)
Lemma trail_phase g entries d n p q s :
  Dict.get n (running d) = Some p ->
  (forall m, m <> n -> status_of m (run_state s) = status_of m (run_state (sh d))) ->
  completed (sh d) ⊆ completed s -> completed s ⊆ completed (sh d) ∪ {[n]} ->
  (q = Finished (Ok tt) -> n ∈ completed s /\ status_of n (run_state s) = SUCCESS) ->
  trail g entries d ->
  trail g entries
    (with_running (with_shared d s (trigger_count d)) (Dict.set n q (running d))).
Proof.
  intros Hn Hst Hc Hc' Hq [T1 T2 T3 T4 T5 T6].
  assert (Dict.keys (Dict.set n q (running d)) = Dict.keys (running d)) as Hk
    by (apply keys_set_same; by rewrite Hn).
  assert (n ∈ Dict.keys (running d)) as Hnk.
  { destruct (decide (n ∈ Dict.keys (running d))) as [|Hx]; [done|].
    apply Dict.get_None_keys in Hx. congruence. }
  set (d' := with_running _ _).
  assert (forall m, handled d m -> handled d' m) as Hh.
  { intros m. apply handled_mono; simpl; [|done]. rewrite Hk. by left. }
  split; simpl; rewrite ?Hk.
  - intros m Hm. destruct (get_set_phase n p q m _ _ Hn Hm) as [[-> Hq']|[Hne Hm']]; [by apply Hq|].
    destruct (T1 m Hm') as [H1 H2]. rewrite Hst by done. set_solver.
  - auto.
  - intros e He Hf. destruct (decide (from_node e = n)) as [->|]; [by left|].
    destruct (T3 e He) as [|]; [set_solver|by left|right; auto].
  - intros w x Hw Ht Hs Hx. destruct (decide (x = n)) as [->|]; [by left|].
    destruct (T4 w x Hw Ht Hs) as [|[|]]; [set_solver|by left|by right; left|right; right; auto].
  - done.
  - intros m Hm. assert (m <> n) by congruence. rewrite Hst by done.
    destruct (T6 m Hm) as [H1 H2]. split; [|done]. rewrite <- H1. set_solver.
Qed.

Lemma trail_begin g entries d n now :
  Dict.get n (running d) = Some Spawned -> trail_ok g entries d ->
  trail_ok g entries (begin_task g n now d).
Proof.
  intros Hn Ht. unfold begin_task, trail_ok. destruct (Dict.mem n _); intros He.
  - eapply trail_phase; simpl; [exact Hn| |done|set_solver|done|by apply Ht].
    intros m Hm. by apply status_mark_running.
  - assert (with_running d (Dict.set n (Finished (Raise (KeyError n))) (running d))
            = with_running (with_shared d (sh d) (trigger_count d))
                (Dict.set n (Finished (Raise (KeyError n))) (running d))) as -> by done.
    eapply trail_phase; [exact Hn|done|done|set_solver|done|by apply Ht].
Qed.

Lemma trail_end g entries reducers d n b now :
  Dict.get n (running d) = Some Started -> trail_ok g entries d ->
  trail_ok g entries (end_task reducers n b now d).
Proof.
  intros Hn Ht He. unfold end_task in *.
  destruct (finish_node reducers n b now (sh d)) as [s o] eqn:E.
  destruct (finish_node_spec _ _ _ _ _ _ _ E) as (H1 & H2 & H3 & H4).
  eapply trail_phase; [exact Hn|done|done|done| |by apply Ht]. intros [= ->]. by apply H4.
Qed.

(** Reaping a node that succeeded: its edges and joins are dealt with. *)
Lemma trail_reap_ok g entries d n d' :
  unique_joins (WorkflowBuilder._waiting_edges g) ->
  inv g d -> trail g entries d -> Dict.get n (running d) = Some (Finished (Ok tt)) ->
  reap g n (Ok tt) d = (d', Continue) -> trail g entries d'.
Proof.
  intros Hu Hd [T1 T2 T3 T4 T5 T6] Hn Hr.
  destruct (popped_inv g d n (Ok tt) Hd Hn) as (Hi & _ & Hk). unfold reap in Hr.
  set (d0 := mkDriver _ _ _ _ _ _) in *.
  pose proof (advance_spec g n d0 Hi) as H. rewrite Hr in H.
  destruct H as (out & Hs & [O1 O2 O3 O4 O5 O6 O7 O8]). simpl in *.
  apply successors_spec in Hs as (routed & _ & Htc & Hout & Hst).
  destruct (T1 n Hn) as [Hnc Hns].
  assert (forall m, m ∈ Dict.keys (running d) -> m <> n -> m ∈ Dict.keys (running d')) as Hkeep.
  { intros m Hm Hne. apply O6. left. by apply Hk. }
  assert (forall m, handled d m -> handled d' m) as Hh.
  { intros m. apply handled_mono; rewrite O5; [|done]. intros x Hx.
    destruct (decide (x = n)) as [->|]; [by right|left; auto]. }
  assert (forall m, m ∈ out -> handled d' m) as Hout'.
  { intros m Hm. destruct (decide (m = END)); [by left|]. right. left. apply O6. by right. }
  split.
  - intros m Hm. rewrite O5, Hst. apply T1.
    destruct (O8 m _ Hm) as [Hm'|]; [|done].
    destruct (decide (m = n)) as [->|]; [done|]. by rewrite Dict.get_pop_ne in Hm'.
  - auto.
  - intros e He. rewrite O5. intros Hf. destruct (decide (from_node e = n)) as [<-|Hne].
    + right. apply Hout'. rewrite Hout, !elem_of_app. right. left. by apply elem_of_static_targets.
    + destruct (T3 e He Hf) as [|]; [left; auto|right; auto].
  - intros w s Hw Ht Hsw. rewrite O5. intros Hsc. rewrite Htc.
    destruct (arrive_spec n _ (trigger_count d) w Hu Hw Ht) as [-> Hfire].
    assert (fires w n (arrived (trigger_count d) (target w)) -> handled d' (target w)) as Hj.
    { intros Hf. apply Hout'. rewrite Hout, !elem_of_app. right. right. by apply Hfire. }
    unfold after_arrival. destruct (decide (s = n)) as [->|Hne].
    + rewrite decide_True by done. case_decide as Hf.
      * right. right. by apply Hj.
      * right. left. set_solver.
    + destruct (T4 w s Hw Ht Hsw Hsc) as [|[Ha|]]; [left; auto| |right; right; auto].
      case_decide; [|by right; left]. case_decide as Hf.
      * right. right. by apply Hj.
      * right. left. set_solver.
  - rewrite Htc. by apply none_full_arrive.
  - intros m Hm. rewrite O5, Hst. destruct (decide (m = n)) as [->|Hne].
    + split; [done|by left].
    + apply T6. intros Hx. apply Hm. auto.
Qed.

Lemma status_for_names n nodes : status_of n (for_names nodes) = PENDING.
Proof.
  unfold status_of, get, for_names. induction nodes as [|m nodes IH]; [done|].
  rewrite fmap_cons. simpl. by case_decide.
Qed.

Definition fresh_state (g : graph) (initial : fields) : shared :=
  mkShared initial ∅ (for_names (Dict.keys (WorkflowBuilder._nodes g))).

Lemma trail_start g initial ns d :
  spawn_all g ns (fresh (fresh_state g initial) ∅) = (d, Continue) -> trail g ns d.
Proof.
  intros E. destruct (fresh_inv g (fresh_state g initial) ∅) as [Hi _].
  pose proof (spawn_all_spec g ns _ Hi) as H. rewrite E in H.
  destruct H as (_ & _ & Hs & _ & Ht & Hk & _ & Hw). simpl in *. split.
  - intros n Hn. by destruct (Hw n _ Hn).
  - intros n Hn. destruct (decide (n = END)); [by left|]. right. left. apply Hk. by right.
  - intros e _. rewrite Hs. simpl. set_solver.
  - intros w s _ _ _. rewrite Hs. simpl. set_solver.
  - intros w _ _ Hsrc. rewrite Ht. unfold full, arrived. rewrite lookup_empty. simpl.
    destruct (sources w) as [|s l]; [done|]. set_solver.
  - intros n _. rewrite Hs. simpl. rewrite status_for_names. set_solver.
Qed.

(** The trail of a run up to its success. *)
Definition trail_config (g : graph) (entries : list string) (c : config) : Prop :=
  match c with
  | (Live, d) => inv g d /\ trail_ok g entries d
  | (Ended (Succeeded r), d) =>
      running d = [] /\ trail g entries d
      /\ _detect_stall g (completed (sh d)) (trigger_count d) = []
      /\ r = _collect_finish_result g (state (sh d))
  | (Ended _, _) => True
  end.

Lemma trail_settle g entries now r :
  match r with
  | (d, Continue) => inv g d /\ trail_ok g entries d
  | (_, Stop t) => forall r, t <> Succeeded r
  end -> trail_config g entries (settle g now r).
Proof.
  destruct r as [d [|t]]; simpl.
  - intros [Hd Ht]. destruct (running d) eqn:E; simpl; [|done].
    unfold conclude. destruct (all_errors d) eqn:Ee; [|done].
    destruct (_detect_stall _ _ _) eqn:Es; [|done].
    split_and!; [done|by apply Ht|done|done].
  - intros Ht. destruct t; try done. by destruct (Ht result).
Qed.

Lemma trail_event g entries reducers e c c' :
  unique_joins (WorkflowBuilder._waiting_edges g) ->
  trail_config g entries c -> apply_event g reducers e c = Some c' -> trail_config g entries c'.
Proof.
  intros Hu. destruct c as [[|t] d]; simpl; [|done]. intros [Hd Ht].
  destruct e as [n now|n b now|n now];
    destruct (Dict.get n (running d)) as [[| |o]|] eqn:E; try done; intros [= <-].
  - split; [by apply begin_task_inv|by apply trail_begin].
  - split; [by apply end_task_inv|by apply trail_end].
  - apply trail_settle. destruct (reap g n o d) as [d' [|t]] eqn:Hr.
    + split; [by eapply reap_spec|]. destruct o as [[]|x].
      * intros He. eapply trail_reap_ok; [done|exact Hd| |exact E|exact Hr]. apply Ht.
        destruct (popped_inv g d n (Ok tt) Hd E) as (Hi & _).
        pose proof (advance_spec g n _ Hi) as H. unfold reap in Hr. rewrite Hr in H.
        destruct H as (out & _ & []). simpl in *. congruence.
      * unfold reap in Hr. injection Hr as <-. intros He. simpl in He.
        by destruct (all_errors d).
    + intros r ->. destruct o as [[]|x]; [|done].
      destruct (popped_inv g d n (Ok tt) Hd E) as (Hi & _).
      pose proof (advance_spec g n _ Hi) as H. unfold reap in Hr. rewrite Hr in H.
      destruct H as [(? & _ & ?)|[?|[? _]]]; done.
Qed.

Lemma trail_run g entries reducers es c c' :
  unique_joins (WorkflowBuilder._waiting_edges g) ->
  trail_config g entries c -> run_events g reducers es c = Some c' -> trail_config g entries c'.
Proof.
  intros Hu. revert c. induction es as [|e es IH]; intros c Hc; simpl; [by intros [= <-]|].
  destruct (apply_event g reducers e c) as [c1|] eqn:E; simpl; [|done].
  apply IH. by eapply trail_event.
Qed.

Lemma trail_arun g initial now :
  trail_config g (WorkflowBuilder._get_entry_nodes g) (arun g initial now).
Proof.
  unfold arun, start. fold (fresh_state g initial). fold (fresh (fresh_state g initial) ∅).
  simpl. apply trail_settle.
  destruct (fresh_inv g (fresh_state g initial) ∅) as [Hi _].
  pose proof (spawn_all_spec g (WorkflowBuilder._get_entry_nodes g) _ Hi) as H.
  destruct (spawn_all _ _ _) as [d [|t]] eqn:E.
  - split; [apply H|]. intros _. by eapply trail_start.
  - intros r ->. by destruct H.
Qed.

Lemma fromkeys_nil l : WorkflowBuilder.fromkeys l = [] -> l = [].
Proof. by destruct l. Qed.

(** A drained frontier without a stall has no join that some source has reached. *)
Lemma no_stall_join g (done : gset string) tc w :
  none_full g tc -> _detect_stall g done tc = [] ->
  w ∈ WorkflowBuilder._waiting_edges g -> target w <> END -> sources w <> [] ->
  target w ∉ done -> arrived tc (target w) = ∅.
Proof.
  intros Hf Hs%fromkeys_nil Hw Ht Hsrc Hn. apply fmap_nil_inv in Hs.
  pose proof (proj1 (WorkflowBuilder.filter_nil_iff _ _) Hs w Hw) as H.
  rewrite !andb_false_iff, !negb_false_iff, !bool_decide_eq_true in H.
  destruct H as [[?|?]|?]; [done|done|]. by destruct (Hf w Hw Ht Hsrc).
Qed.

(** C19: A fresh run that succeeds has left nothing behind. Every entry node completed; of
    every completed node all static targets completed; every join that one of its
    sources reached completed its target; no node failed or is still running, and the
    nodes recorded as successful are exactly the completed ones. Its result is the
    declared output of the final state. *)
Theorem workflow_success_complete g initial reducers es now result d :
  unique_joins (WorkflowBuilder._waiting_edges g) ->
  run_events g reducers es (arun g initial now) = Some (Ended (Succeeded result), d) ->
  (forall n, n ∈ WorkflowBuilder._get_entry_nodes g -> n = END \/ n ∈ completed (sh d))
  /\ (forall e, e ∈ WorkflowBuilder._edges g -> from_node e ∈ completed (sh d) ->
       to_node e = END \/ to_node e ∈ completed (sh d))
  /\ (forall w s, w ∈ WorkflowBuilder._waiting_edges g -> s ∈ sources w ->
       s ∈ completed (sh d) -> target w = END \/ target w ∈ completed (sh d))
  /\ (forall n, n ∈ completed (sh d) <-> status_of n (run_state (sh d)) = SUCCESS)
  /\ (forall n, status_of n (run_state (sh d)) = SUCCESS
                \/ status_of n (run_state (sh d)) = PENDING)
  /\ result = _collect_finish_result g (state (sh d)).
Proof.
  intros Hu Hr.
  destruct (trail_run g _ reducers es _ _ Hu (trail_arun g initial now) Hr)
    as (Hd & [T1 T2 T3 T4 T5 T6] & Hs & Hres).
  assert (forall n, n ∉ Dict.keys (running d)) as Hk by (rewrite Hd; set_solver).
  assert (forall n, handled d n -> n = END \/ n ∈ completed (sh d)) as Hh.
  { intros n [?|[?|?]]; [by left| |by right]. by destruct (Hk n). }
  split_and!; [auto| | |intros n; by apply T6|intros n; by apply T6|done].
  - intros e He Hf. destruct (T3 e He Hf) as [Hx|]; [by destruct (Hk _ Hx)|auto].
  - intros w s Hw Hsw Hsc. destruct (decide (target w = END)) as [|Ht]; [by left|].
    destruct (T4 w s Hw Ht Hsw Hsc) as [Hx|[Hx|]]; [by destruct (Hk _ Hx)| |auto].
    destruct (decide (target w ∈ completed (sh d))) as [|Hn]; [by right|].
    assert (sources w <> []) as Hne by (intros E; rewrite E in Hsw; set_solver).
    rewrite (no_stall_join g _ _ w T5 Hs Hw Ht Hne Hn) in Hx. set_solver.
Qed.

(** ** A join fires once per full arrival *)

(** The nodes a run reaps with success, in order. *)
Definition reaped_by (e : event) (c : config) : list string :=
  match e with
  | EReap n _ =>
      match Dict.get n (running (snd c)) with Some (Finished (Ok _)) => [n] | _ => [] end
  | _ => []
  end.

Fixpoint reaped (g : graph) (reducers : string -> option reducer) (es : list event)
    (c : config) : list string :=
  match es with
  | [] => []
  | e :: rest =>
      match apply_event g reducers e c with
      | Some c' => reaped_by e c ++ reaped g reducers rest c'
      | None => []
      end
  end.

(** The sources of [w] among the nodes of [l], since all were there the last time. *)
Definition since_fire (w : _WaitingEdge) (l : list string) : gset string :=
  foldl (fun a n => after_arrival w n a) ∅ l.

(** How often all sources of [w] were there. *)
Fixpoint firings_from (w : _WaitingEdge) (a : gset string) (l : list string) : nat :=
  match l with
  | [] => 0
  | n :: rest =>
      (if bool_decide (n ∈ sources w /\ full w (a ∪ {[n]})) then 1 else 0)
      + firings_from w (after_arrival w n a) rest
  end.

Lemma firings_bound w a l s :
  s ∈ sources w ->
  (firings_from w a l <= length (List.filter (fun n => bool_decide (n = s)) l)
                         + (if bool_decide (s ∈ a) then 1 else 0))%nat.
Proof.
  intros Hs. revert a. induction l as [|n l IH]; intros a; simpl; [lia|].
  specialize (IH (after_arrival w n a)). unfold after_arrival in *.
  destruct (bool_decide_reflect (n ∈ sources w /\ full w (a ∪ {[n]}))) as [[Hn Hf]|Hf].
  - rewrite decide_True, decide_True in IH by done.
    rewrite decide_True, decide_True by done.
    rewrite (bool_decide_false (s ∈ ∅)) in IH by apply not_elem_of_empty.
    assert (s ∈ a ∪ {[n]}) as Hin by (apply Hf; by apply elem_of_list_to_set).
    apply elem_of_union in Hin as [Ha| ->%elem_of_singleton].
    + rewrite (bool_decide_true (s ∈ a)) by done. destruct (bool_decide (n = s)); simpl; lia.
    + rewrite (bool_decide_true (n = n)) by done. simpl. lia.
  - destruct (decide (n ∈ sources w)) as [Hn|Hn]; [rewrite decide_False in IH by naive_solver|].
    + rewrite decide_False by naive_solver.
      destruct (decide (n = s)) as [->|Hne].
      * rewrite (bool_decide_true (s = s)) by done. simpl.
        destruct (bool_decide (s ∈ a ∪ {[s]})); lia.
      * rewrite (bool_decide_false (n = s)) by done.
        rewrite (bool_decide_ext (s ∈ a ∪ {[n]}) (s ∈ a)) in IH by set_solver. lia.
    + destruct (bool_decide (n = s)); simpl; lia.
Qed.

(** The arrivals at a join, followed through a run. *)
Lemma arrivals_run g reducers es c w d0 d :
  unique_joins (WorkflowBuilder._waiting_edges g) ->
  w ∈ WorkflowBuilder._waiting_edges g -> target w <> END ->
  live_inv g c -> c = (Live, d0) -> run_events g reducers es c = Some (Live, d) ->
  arrived (trigger_count d) (target w)
  = foldl (fun a n => after_arrival w n a) (arrived (trigger_count d0) (target w))
      (reaped g reducers es c).
Proof.
  intros Hu Hw Ht. revert c d0. induction es as [|e es IH]; intros c d0 Hl ->; cbn [run_events reaped].
  { by intros [= <-]. }
  destruct (apply_event g reducers e (Live, d0)) as [[[|t] d1]|] eqn:E; simpl; [| |done].
  2:{ by destruct es. }
  intros Hr. destruct (event_live g reducers e _ _ Hl E) as [Hl1 _].
  rewrite (IH _ d1 Hl1 eq_refl Hr), foldl_app. f_equal.
  destruct Hl as [Hd _]. destruct e as [n now|n b now|n now]; simpl in *;
    destruct (Dict.get n (running d0)) as [[| |o]|] eqn:En; try done.
  - injection E as <-. unfold begin_task. by destruct (Dict.mem n _).
  - injection E as <-. unfold end_task. by destruct (finish_node _ _ _ _ _).
  - injection E as E. destruct (popped_inv g d0 n o Hd En) as (Hi & _ & _).
    pose proof (advance_spec g n _ Hi) as H.
    unfold reap in E. destruct o as [[]|x]; simpl.
    + destruct (advance g n _) as [d2 []]; [|done].
      destruct H as (out & Hs & _). simpl in E.
      assert (d2 = d1) as -> by (destruct (running d2); congruence).
      apply successors_spec in Hs as (? & _ & -> & _).
      by apply (arrive_spec n _ (trigger_count d0) w Hu Hw Ht).
    + simpl in E. destruct (Dict.pop n (running d0)); [done|by injection E as <-].
Qed.

Lemma routed_targets node st ces r r' routed t :
  run_routers node st ces r = (r', Some routed) -> t ∈ routed ->
  exists ce, ce ∈ ces /\ t ∈ Dict.values (WorkflowBuilder.mapping ce).
Proof.
  revert r routed. induction ces as [|ce ces IH]; intros r routed; simpl.
  { intros [= _ <-] []%not_elem_of_nil. }
  case_bool_decide.
  - destruct (WorkflowBuilder.router ce st) as [key|]; [|done].
    destruct (Dict.get key _) as [target|] eqn:Eg; [|done].
    destruct (run_routers node st ces _) as [r1 [out|]] eqn:Er; [|done].
    intros [= -> <-] [->|Ht]%elem_of_cons.
    + exists ce. split; [by left|]. apply Dict.get_Some_elem in Eg.
      by apply (list_elem_of_fmap_2 snd) in Eg.
    + destruct (IH _ _ Er Ht) as (ce' & ? & ?). exists ce'. split; [by right|done].
  - intros Hr Ht. destruct (IH _ _ Hr Ht) as (ce' & ? & ?). exists ce'. split; [by right|done].
Qed.

Lemma arun_empty_arrivals g initial now d :
  arun g initial now = (Live, d) -> trigger_count d = ∅.
Proof.
  unfold arun, start. fold (fresh_state g initial). fold (fresh (fresh_state g initial) ∅).
  simpl. destruct (fresh_inv g (fresh_state g initial) ∅) as [Hi _].
  pose proof (spawn_all_spec g (WorkflowBuilder._get_entry_nodes g) _ Hi) as H.
  destruct (spawn_all _ _ _) as [d1 [|t]]; simpl; [|done].
  destruct (running d1); [done|]. intros [= <-]. apply H.
Qed.

(** In a compiled workflow an AND-join fires exactly once per full arrival. Whenever
    a node of a run is reaped, the target of a join is among its hops just when the node
    is a source and every other source has been reaped since the join last fired; no
    edge, router or earlier lap fires it otherwise. So it never fires more often than
    any one of its sources completes. *)
Theorem join_fires_exactly g initial reducers es now d n tc r out w :
  WorkflowBuilder.normalized g -> WorkflowBuilder.well_formed g ->
  run_events g reducers es (arun g initial now) = Some (Live, d) ->
  n <> START ->
  successors g n (state (sh d)) (trigger_count d) (run_state (sh d)) = (tc, r, Next out) ->
  w ∈ WorkflowBuilder._waiting_edges g -> target w <> END ->
  let l := reaped g reducers es (arun g initial now) in
  (target w ∈ out <-> n ∈ sources w /\ full w (since_fire w l ∪ {[n]}))
  /\ forall s, s ∈ sources w ->
       (firings_from w ∅ l <= length (List.filter (fun m => bool_decide (m = s)) l))%nat.
Proof.
  intros [Hu Hnorm] Hwf Hrun Hstart Hs Hw Ht l. split.
  2:{ intros s Hsrc. pose proof (firings_bound w ∅ l s Hsrc) as Hb.
      rewrite bool_decide_false in Hb by set_solver. lia. }
  destruct (start_live g (fresh_state g initial) ∅ [] (WorkflowBuilder._get_entry_nodes g) now)
    as [Hl _]. fold (arun g initial now) in Hl.
  assert (exists d0, arun g initial now = (Live, d0)) as [d0 E0].
  { destruct (arun g initial now) as [[|t] d0]; [by exists d0|].
    destruct es as [|[]]; done. }
  pose proof (arrivals_run g reducers es _ w d0 d Hu Hw Ht Hl E0 Hrun) as Ha.
  rewrite (arun_empty_arrivals _ _ _ _ E0) in Ha.
  apply successors_spec in Hs as (routed & Hrt & _ & -> & _).
  rewrite !elem_of_app.
  destruct (arrive_spec n _ (trigger_count d) w Hu Hw Ht) as [_ ->].
  unfold fires, since_fire. rewrite Ha. unfold arrived at 1. rewrite lookup_empty. simpl.
  split; [|by auto].
  intros [Hr|[Hst|?]]; [| |done].
  - destruct (routed_targets _ _ _ _ _ _ _ Hrt Hr) as (ce & Hce & Hv).
    by destruct (WorkflowBuilder.wf_joins g Hwf w Hw Ht) as [Hc _]; destruct (Hc ce Hce).
  - unfold static_targets in Hst. apply list_elem_of_fmap in Hst as (e & He & Hin).
    apply list_elem_of_In, filter_In in Hin as [Hin Hf]. apply bool_decide_eq_true in Hf.
    destruct (Hnorm w Hw Ht) as [_ Hone]. destruct Hstart. rewrite <- Hf.
    apply Hone; [by apply list_elem_of_In|done].
Qed.

(** ** Retries *)

Definition attempt_outcome (b : behaviour) (k : Z) : outcome node_exn node_return :=
  snd (_execute b (k - 1)).

Definition transient (e : node_exn) : Prop := action_for e = Recovery.RETRY.

Lemma execute_at b k : _execute b (k - 1) = (k, attempt_outcome b k).
Proof. unfold attempt_outcome, _execute. simpl. by rewrite Z.sub_add. Qed.

Lemma recovered_attempts b n k0 k :
  Recovery.recovered action_for (_execute b) strategies n k0 k ->
  k = k0 + Z.of_nat n
  /\ forall i, k0 < i <= k -> exists e, attempt_outcome b i = Raise e /\ transient e.
Proof.
  induction 1 as [k0|n k0 s1 e strategy s2 k Hc Ha Hs Hr _ [IH1 IH2]].
  { split; [lia|]. intros i ?. lia. }
  assert (k0 = (k0 + 1) - 1) as E by lia. rewrite E, execute_at in Hc.
  injection Hc as <- Hc.
  unfold strategies in Hs. case_bool_decide as Et; [|done]. injection Hs as <-.
  injection Hr as <-. split; [lia|]. intros i Hi.
  destruct (Z.eq_dec i (k0 + 1)) as [->|]; [by exists e|apply IH2; lia].
Qed.

Lemma run_attempts_spec b k o :
  run_attempts b = (k, o) ->
  1 <= k <= _AUTO_RETRIES + 1 /\ attempt_outcome b k = o
  /\ (forall i, 1 <= i < k -> exists e, attempt_outcome b i = Raise e /\ transient e)
  /\ (forall e, o = Raise e -> transient e -> k = _AUTO_RETRIES + 1).
Proof.
  unfold run_attempts, Recovery.run. intros H.
  apply Recovery.loop_sound in H as (n & kn & Hn & Hrec & Hend).
  destruct (recovered_attempts _ _ _ _ Hrec) as [-> Hall].
  change (Z.to_nat _AUTO_RETRIES) with 3%nat in *. unfold _AUTO_RETRIES.
  assert (_execute b (0 + Z.of_nat n) = (Z.of_nat n + 1, attempt_outcome b (Z.of_nat n + 1)))
    as He.
  { rewrite <- execute_at. f_equal. lia. }
  assert (forall e strategy, strategies (action_for e) = Some strategy ->
            transient e /\ forall k, strategy e k = (k, Ok true)) as Hst.
  { intros e strategy. unfold strategies, transient. case_bool_decide; [|done].
    by intros [= <-]. }
  destruct Hend as [s1 a Hc|s1 e Hc Ha|s1 e Hc Hb|s1 e Hc Hs
                   |s1 e strategy s2 Hc Hb Ha Hs Hr|s1 e strategy s2 e' Hc Hb Ha Hs Hr];
    rewrite He in Hc; injection Hc as <- Hc; try rewrite Hc.
  5, 6: destruct (Hst _ _ Hs) as [_ Hk]; by rewrite Hk in Hr.
  all: split_and!; [lia|lia|done|intros i Hi; apply Hall; lia|].
  - done.
  - intros e' [= <-] Ht. unfold transient in Ht. congruence.
  - intros e' [= <-] Ht. lia.
  - intros e' [= <-] Ht. unfold strategies in Hs. by rewrite Ht, bool_decide_true in Hs.
Qed.

(** The exception that a node's task ends with after its last attempt, the [k]-th. *)
Definition final_exn (node : string) (k : Z) (e : node_exn) : node_exn :=
  match e with
  | GraphNodeTimeoutError => GraphNodeRetryExhaustedError node k
  | _ => e
  end.

(** A node runs at most four times per activation. Every attempt but the last failed
    transiently; a transient failure of the last means that the budget is used up. A
    value ends the node: its updates are merged, it is completed and recorded as a
    success. A failure is recorded with the retries it used, a timeout as an exhausted
    budget. A return value of the wrong shape, or a reducer that raises, fails the task
    without a record: the node stays recorded as it was. *)
Theorem node_run_exact reducers node b now s s' o :
  finish_node reducers node b now s = (s', o) ->
  exists k, 1 <= k <= _AUTO_RETRIES + 1
    /\ (forall i, 1 <= i < k -> exists e, attempt_outcome b i = Raise e /\ transient e)
    /\ match attempt_outcome b k with
       | Raise e =>
           (transient e -> k = _AUTO_RETRIES + 1)
           /\ o = Raise (final_exn node k e)
           /\ state s' = state s /\ completed s' = completed s
           /\ run_state s' = mark_failed node (final_exn node k e) (k - 1) _AUTO_RETRIES now
                               (run_state s)
       | Ok ROther => o = Raise (GraphParamTypeError "<return>") /\ s' = s
       | Ok r =>
           let u := match r with RDict u => u | _ => [] end in
           state s' = fst (apply_updates reducers (state s) u)
           /\ match snd (apply_updates reducers (state s) u) with
              | Ok _ => o = Ok tt /\ completed s' = completed s ∪ {[node]}
                        /\ run_state s' = mark_success node (Text.sorted (Dict.keys u)) now
                                            (run_state s)
              | Raise e => o = Raise e /\ completed s' = completed s
                           /\ run_state s' = run_state s
              end
       end.
Proof.
  unfold finish_node. destruct (run_attempts b) as [k r] eqn:E.
  destruct (run_attempts_spec b k r E) as (Hk & Ho & Hall & Htr).
  intros H. exists k. split; [done|]. split; [done|]. rewrite Ho.
  destruct r as [[|u|]|e].
  - simpl in *. injection H as <- <-. done.
  - destruct (apply_updates reducers (state s) u) as [st [[]|e]]; injection H as <- <-; done.
  - by injection H as <- <-.
  - split; [by apply Htr|]. destruct e; injection H as <- <-; done.
Qed.

(** ** Resuming *)

Lemma get_update_ne n m f r : m <> n -> get m (update n f r) = get m r.
Proof. intros H. unfold update, get. by rewrite Dict.get_set_ne. Qed.

Lemma get_update_eq n f r : get n (update n f r) = f (get n r).
Proof. unfold update. unfold get at 1. by rewrite Dict.get_set_eq. Qed.

Lemma get_resets ns r n :
  get n (foldl (fun r n => reset n r) r ns) = get n r
  \/ n ∈ ns /\ GraphRunState.status (get n (foldl (fun r n => reset n r) r ns)) = PENDING
     /\ attempts (get n (foldl (fun r n => reset n r) r ns)) = attempts (get n r).
Proof.
  revert r. induction ns as [|m ns IH]; intros r; simpl; [by left|].
  destruct (IH (reset m r)) as [E|(H1 & H2 & H3)].
  - rewrite E. unfold reset. destruct (decide (n = m)) as [->|Hne].
    + right. rewrite !get_update_eq. split; [by left|done].
    + left. by rewrite get_update_ne.
  - right. split; [by right|]. split; [done|]. rewrite H3. unfold reset.
    destruct (decide (n = m)) as [->|Hne]; [by rewrite get_update_eq|by rewrite get_update_ne].
Qed.

Lemma reset_pending ns r n :
  n ∈ ns -> GraphRunState.status (get n (foldl (fun r n => reset n r) r ns)) = PENDING.
Proof.
  revert r. induction ns as [|m ns IH]; intros r; simpl; [by intros []%not_elem_of_nil|].
  intros [->|Hn]%elem_of_cons; [|by apply IH].
  destruct (get_resets ns (reset m r) m) as [->|(_ & H & _)]; [|done].
  unfold reset. by rewrite get_update_eq.
Qed.

Lemma elem_of_prefill_sources (done : gset string) ss tc t u s :
  s ∈ arrived (foldl (fun tc s => if bool_decide (s ∈ done)
                                  then <[u := arrived tc u ∪ {[s]}]> tc else tc) tc ss) t
  <-> s ∈ arrived tc t \/ u = t /\ s ∈ ss /\ s ∈ done.
Proof.
  revert tc. induction ss as [|x ss IH]; intros tc; simpl; [set_solver|].
  rewrite IH, elem_of_cons. case_bool_decide as Hx; [|naive_solver].
  rewrite arrived_insert. destruct (decide (u = t)) as [->|]; [|naive_solver].
  rewrite elem_of_union, elem_of_singleton. naive_solver.
Qed.

Lemma elem_of_prefill g (done : gset string) s t :
  s ∈ arrived (_prefill_trigger_count g done ∅) t <->
  exists w, w ∈ WorkflowBuilder._waiting_edges g /\ target w = t /\ s ∈ sources w /\ s ∈ done.
Proof.
  unfold _prefill_trigger_count.
  assert (forall wes tc, s ∈ arrived (foldl (fun tc we => foldl (fun tc s =>
            if bool_decide (s ∈ done) then <[target we := arrived tc (target we) ∪ {[s]}]> tc
            else tc) tc (sources we)) tc wes) t
          <-> s ∈ arrived tc t \/ exists w, w ∈ wes /\ target w = t /\ s ∈ sources w /\ s ∈ done)
    as H.
  { intros wes. induction wes as [|w wes IH]; intros tc; simpl.
    { split; [by left|]. intros [?|(w & []%not_elem_of_nil & _)]; done. }
    rewrite IH, elem_of_prefill_sources. setoid_rewrite elem_of_cons. naive_solver. }
  rewrite H. unfold arrived. rewrite lookup_empty. simpl. split; [|by right].
  intros [[]%not_elem_of_empty|?]; done.
Qed.

(** Resuming from some nodes runs exactly these again. What the records call done,
    but for them, stays done and is not run at the start; their own records are pending
    again with the attempts they had; and every source that is done counts as arrived,
    so the last source of a join to complete again fires it. *)
Theorem resume_exact g st from_nodes r0 now d :
  resume g st from_nodes r0 now = (Live, d) ->
  let r := ensure (graph_names g) r0 in
  (forall n, n ∈ completed (sh d) <-> n ∈ completed_names r /\ n ∉ from_nodes)
  /\ (forall n, n ∈ Dict.keys (running d) <-> n ∈ from_nodes /\ n <> END)
  /\ (forall n, n ∈ from_nodes ->
       status_of n (run_state (sh d)) = PENDING
       /\ attempts (get n (run_state (sh d))) = attempts (get n r))
  /\ (forall n, n ∉ from_nodes -> get n (run_state (sh d)) = get n r)
  /\ (forall w n, w ∈ WorkflowBuilder._waiting_edges g -> n ∈ sources w ->
       (forall s, s ∈ sources w -> s <> n -> s ∈ completed (sh d)) ->
       fires w n (arrived (trigger_count d) (target w))).
Proof.
  unfold resume. set (r := ensure (graph_names g) r0).
  set (c := completed_names r ∖ list_to_set from_nodes).
  set (r1 := foldl _ r from_nodes). unfold start. simpl. fold (fresh (mkShared st c r1)
    (_prefill_trigger_count g c ∅)). set (f := fresh _ _).
  destruct (fresh_inv g (mkShared st c r1) (_prefill_trigger_count g c ∅)) as [Hi _].
  fold f in Hi. pose proof (spawn_all_spec g from_nodes f Hi) as H.
  destruct (spawn_all g from_nodes f) as [d1 [|t]]; simpl; [|done].
  destruct (running d1) eqn:Er; [done|]. intros [= <-]. rewrite <- Er in H. clear Er.
  destruct H as (_ & _ & Hs & _ & Ht & Hk & _). rewrite Hs, Ht. unfold f. simpl.
  split_and!.
  - intros n. unfold c. rewrite elem_of_difference, elem_of_list_to_set. done.
  - intros n. rewrite Hk. set_solver.
  - intros n Hn. split; [by apply reset_pending|].
    unfold r1. by destruct (get_resets from_nodes r n) as [E|(_ & _ & E)]; [rewrite E|].
  - intros n Hn. by destruct (get_resets from_nodes r n) as [?|(? & _)].
  - intros w n Hw Hn Hall. split; [done|]. intros s Hsw%elem_of_list_to_set.
    destruct (decide (s = n)) as [->|Hne]; [set_solver|].
    apply elem_of_union. left. apply elem_of_prefill. exists w. auto.
Qed.

End Engine.
Arguments fields : clear implicits.
Arguments shared : clear implicits.
Arguments behaviour : clear implicits.
Arguments reducer : clear implicits.
End Engine.

(** ** A concrete workflow *)
Module Example.
Import Engine.

Definition node : WorkflowBuilder._NodeDef (C := unit) := WorkflowBuilder.mkNode "" [].

(** Two entries joined into [c]; a plain edge into [c] as well, folded by the compiler. *)
Definition source : WorkflowBuilder.t (fields Z) unit :=
  let g := WorkflowBuilder.init 10 [] [] true in
  let g := WorkflowBuilder.add_node g "a" node in
  let g := WorkflowBuilder.add_node g "b" node in
  let g := WorkflowBuilder.add_node g "c" node in
  let g := WorkflowBuilder.add_edge g (inl START) "a" in
  let g := WorkflowBuilder.add_edge g (inl START) "b" in
  let g := WorkflowBuilder.add_edge g (inr ["a"; "b"]) "c" in
  let g := WorkflowBuilder.add_edge g (inl "a") "c" in
  WorkflowBuilder.add_edge g (inl "c") END.

Definition diamond : WorkflowBuilder.t (fields Z) unit :=
  fst (WorkflowBuilder._prepare (fun _ _ => None) source).

Definition no_reducers : string -> option (reducer Z) := fun _ => None.

Definition returns (n : string) : behaviour Z := fun _ => Body (Ok (RDict [(n, 1)])).

Definition once (n : string) : list event :=
  [EBegin n 0; EEnd n (returns n) 0; EReap n 0].

(** The run up to the point where [b] has ended and is not yet reaped. *)
Definition before_join : list event :=
  once "a" ++ [EBegin "b" 0; EEnd "b" (returns "b") 0].

Definition whole_run : list event := once "a" ++ once "b" ++ once "c".

Definition first : config := arun diamond [] 0.

(** The driver of a configuration, live or ended. *)
Definition driver_at (es : list event) : option driver :=
  snd <$> run_events diamond no_reducers es first.

Lemma diamond_ok : snd (WorkflowBuilder._prepare (fun _ _ => None) source) = Ok tt.
Proof. vm_compute. reflexivity. Qed.

Lemma diamond_normalized : WorkflowBuilder.normalized diamond.
Proof. apply WorkflowBuilder.normalize_normalized. Qed.

Lemma diamond_well_formed : WorkflowBuilder.well_formed diamond.
Proof.
  pose proof (WorkflowBuilder.validate_spec diamond) as H. apply H. vm_compute. reflexivity.
Qed.

Lemma workflow_terminates_witness :
  exists c, run_events diamond no_reducers before_join first = Some c
    /\ Z.of_nat (length before_join) <= 3 * 10.
Proof.
  destruct (run_events diamond no_reducers before_join first) as [c|] eqn:E;
    [|vm_compute in E; discriminate E].
  exists c. split; [done|]. unfold first, arun in E.
  destruct (workflow_terminates _ _ _ _ _ _ _ _ _ E) as [H _]. exact H.
Defined.

Lemma workflow_frontier_witness :
  exists d, run_events diamond no_reducers before_join first = Some (Live, d)
    /\ NoDup (Dict.keys (running d)) /\ Dict.keys (running d) = ["b"].
Proof.
  destruct (run_events diamond no_reducers before_join first) as [[[|t] d]|] eqn:E;
    [|vm_compute in E; discriminate E..].
  exists d. split; [done|]. unfold first, arun in E. split.
  - by apply (workflow_frontier _ _ _ _ _ _ _ _ _ E).
  - vm_compute in E. injection E as <-. reflexivity.
Defined.

Lemma workflow_success_complete_witness :
  exists d, run_events diamond no_reducers whole_run first = Some (Ended (Succeeded []), d)
    /\ "c" ∈ completed (sh d).
Proof.
  destruct (run_events diamond no_reducers whole_run first) as [[[|t] d]|] eqn:E;
    [vm_compute in E; discriminate E| |vm_compute in E; discriminate E].
  destruct t as [| | | |result]; try (vm_compute in E; discriminate E).
  assert (result = []) as -> by (vm_compute in E; injection E as <- _; reflexivity).
  exists d. split; [done|].
  destruct (workflow_success_complete diamond [] no_reducers whole_run 0 [] d
              (proj1 diamond_normalized) E) as (H1 & _ & H3 & _).
  destruct (H3 (mkWaiting ["a"; "b"] "c") "a") as [H|H]; [vm_compute; left|left| |done|done].
  destruct (H1 "a") as [Ha|Ha]; [vm_compute; left|done|done].
Defined.

Lemma join_fires_exactly_witness :
  exists d tc r out, driver_at before_join = Some d
    /\ successors diamond "b" (state (sh d)) (trigger_count d) (run_state (sh d))
       = (tc, r, Next out)
    /\ "c" ∈ out.
Proof.
  destruct (run_events diamond no_reducers before_join first) as [[[|t] d]|] eqn:E;
    [|vm_compute in E; discriminate E..].
  destruct (successors diamond "b" (state (sh d)) (trigger_count d) (run_state (sh d)))
    as [[tc r] [out|e|n]] eqn:Es.
  2, 3: vm_compute in E; injection E as <-; vm_compute in Es; discriminate Es.
  exists d, tc, r, out. split; [unfold driver_at; by rewrite E|]. split; [done|].
  destruct (join_fires_exactly diamond [] no_reducers before_join 0 d "b" tc r out
              (mkWaiting ["a"; "b"] "c") diamond_normalized diamond_well_formed E)
    as [[_ H] _]; [done|done|vm_compute; left|done|].
  apply H. split; [right; left|]. vm_compute. intros x Hx. exact Hx.
Defined.

(** Two timeouts, then nothing to report. *)
Definition flaky : behaviour Z := fun k =>
  if k <? 3 then Body (Raise (Recovery.Untyped TimeoutErr)) else Body (Ok RNone).

Lemma node_run_exact_witness :
  exists k s', finish_node no_reducers "a" flaky 0 (fresh_state diamond []) = (s', Ok tt)
    /\ 1 <= k <= 4 /\ completed s' = ∅ ∪ {["a"]}.
Proof.
  destruct (finish_node no_reducers "a" flaky 0 (fresh_state diamond [])) as [s' o] eqn:E.
  destruct (node_run_exact _ _ _ _ _ _ _ E) as (k & Hk & _).
  exists k, s'. vm_compute in E. injection E as <- <-. split; [done|]. split; [exact Hk|].
  reflexivity.
Defined.

(** A record in which everything is done but [c]. *)
Definition done_but_c : GraphRunState.t :=
  GraphRunState.mark_success "b" [] 0
    (GraphRunState.mark_success "a" [] 0 (GraphRunState.for_names ["a"; "b"; "c"])).

Lemma resume_exact_witness :
  exists d, resume diamond [] ["c"] (Some done_but_c) 0 = (Live, d)
    /\ "a" ∈ completed (sh d).
Proof.
  destruct (resume diamond [] ["c"] (Some done_but_c) 0) as [[|t] d] eqn:E;
    [|vm_compute in E; discriminate E].
  exists d. split; [done|].
  destruct (resume_exact diamond [] ["c"] (Some done_but_c) 0 d E) as (H & _).
  apply H. split; [vm_compute; done|]. intros Hx. vm_compute in Hx. inversion Hx. inversion H2.
Defined.

(** After a resume of [a] in a lap whose join has fired before, the arrivals of that lap
    are still there, and [a] alone fires the join again. *)
Lemma resumed_join_fires_early :
  exists d, resume diamond [] ["c"] (Some (GraphRunState.mark_success "c" [] 0 done_but_c)) 0
            = (Live, d)
    /\ arrived (trigger_count d) "c" = {["a"; "b"]}.
Proof. eexists. split; [vm_compute; reflexivity|vm_compute; reflexivity]. Qed.
End Example.
