(* ===== verification/KernelGraph.v ===== *)
(** * The execution graph of a turn

    [kernel/execution/graph/] and [kernel/execution/recovery.py]: the typed graph and its
    validation, the built-in nodes, the ReAct and the review/refine graphs, the bounded
    runner and its effect-aware lifecycle, and the text completion policy. The services
    the nodes call (observation, budget, inference, actions, output) are an argument; each
    may change the world, fail or be cancelled. *)

From S2P Require Import Prelude.
From Stdlib Require Import String.
From stdpp Require Import base list strings.

Open Scope list_scope.
Open Scope mote_scope.
Open Scope Z_scope.

Module Graph.

Inductive NodeId :=
| RESTORE | OBSERVE | BUDGET | THINK | INTERPRET | ACT | VALIDATE_OUTPUT | WAIT_BACKGROUND.

#[export] Instance NodeId_eq_dec : EqDecision NodeId.
Proof. solve_decision. Defined.

Inductive EffectKind := PURE | REPLAYABLE | LEDGERED | EXTERNAL | WAITABLE.

Inductive RecoveryDirective := RESTART | REINSTATE | RECONCILE | RESUME_WAIT.

Definition _RECOVERY_BY_EFFECT (e : EffectKind) : RecoveryDirective :=
  match e with
  | PURE => RESTART
  | REPLAYABLE => REINSTATE
  | LEDGERED => RECONCILE
  | EXTERNAL => RECONCILE
  | WAITABLE => RESUME_WAIT
  end.

(** What ends a run without a result. The errors the graph raises itself are apart from
    those of the services, and from a cancellation. *)
Inductive exn {E : Type} :=
| IllegalTransition (from to : NodeId)
| StepLimit
| MissingNode (n : NodeId)
| NeedsModelTurn (n : NodeId)
| NeedsCandidate
| BadCandidateIndex
| CompletionFailed
| CandidateRequired
| CorrectionExhausted
| Cancelled
| ServiceError (e : E).
Arguments exn : clear implicits.

Inductive structure_error :=
| StartMissing
| KeyMismatch (n : NodeId)
| MissingTargets (n : NodeId).

Inductive step {R : Type} := Transition (target : NodeId) | End (result : R).
Arguments step : clear implicits.

(** ** Graphs and their runner *)
Section Runner.
Context {St R E : Type}.

Record AgentNode := mkNode {
  node_id : NodeId;
  effect_kind : EffectKind;
  allowed_targets : list NodeId;
  node_run : St -> St * outcome (exn E) (step R)
}.

Record AgentGraph := mkGraph { start : NodeId; nodes : list (NodeId * AgentNode) }.

Definition validate_node (g : AgentGraph) (kv : NodeId * AgentNode) : option structure_error :=
  let '(key, node) := kv in
  if negb (bool_decide (node_id node = key)) then Some (KeyMismatch key)
  else if forallb (fun t => bool_decide (t ∈ Dict.keys (nodes g))) (allowed_targets node) then None
  else Some (MissingTargets key).

Fixpoint first_structure_error (g : AgentGraph) (l : list (NodeId * AgentNode)) :
    outcome structure_error unit :=
  match l with
  | [] => Ok tt
  | kv :: rest =>
      match validate_node g kv with
      | Some e => Raise e
      | None => first_structure_error g rest
      end
  end.

Definition _validate (g : AgentGraph) : outcome structure_error unit :=
  if negb (Dict.mem (start g) (nodes g)) then Raise StartMissing
  else first_structure_error g (nodes g).

(** The lifecycle of the attempts of a run, as the callbacks of the runner see it. *)
Inductive lifecycle :=
| NodeStarted (n : NodeId) (e : EffectKind) (r : RecoveryDirective)
| NodeCompleted (n : NodeId)
| NodeAbandoned (n : NodeId)
| NodeFailed (n : NodeId)
| OnCancel
| OnFailure.

(** [EffectAwareGraphRunner._execute_node]. *)
Definition _execute_node (node : AgentNode) (s : St) (log : list lifecycle) :
    St * list lifecycle * outcome (exn E) (step R) :=
  let log := log ++ [NodeStarted (node_id node) (effect_kind node)
                       (_RECOVERY_BY_EFFECT (effect_kind node))] in
  match node_run node s with
  | (s, Ok r) => (s, log ++ [NodeCompleted (node_id node)], Ok r)
  | (s, Raise Cancelled) => (s, log ++ [NodeAbandoned (node_id node)], Raise Cancelled)
  | (s, Raise e) => (s, log ++ [NodeFailed (node_id node)], Raise e)
  end.

(** [GraphRunner.run], with its bound on the steps. *)
Fixpoint run_steps (g : AgentGraph) (max_steps : nat) (current : NodeId) (s : St)
    (log : list lifecycle) : St * list lifecycle * outcome (exn E) R :=
  match max_steps with
  | O => (s, log, Raise StepLimit)
  | S steps =>
      match Dict.get current (nodes g) with
      | None => (s, log, Raise (MissingNode current))
      | Some node =>
          match _execute_node node s log with
          | (s, log, Raise e) => (s, log, Raise e)
          | (s, log, Ok (End r)) => (s, log, Ok r)
          | (s, log, Ok (Transition target)) =>
              if bool_decide (target ∈ allowed_targets node)
              then run_steps g steps target s log
              else (s, log, Raise (IllegalTransition current target))
          end
      end
  end.

(** [EffectAwareGraphRunner.run]. *)
Definition run (g : AgentGraph) (max_steps : nat) (s : St) :
    St * list lifecycle * outcome (exn E) R :=
  match run_steps g max_steps (start g) s [] with
  | (s, log, Ok r) => (s, log, Ok r)
  | (s, log, Raise Cancelled) => (s, log ++ [OnCancel], Raise Cancelled)
  | (s, log, Raise e) => (s, log ++ [OnFailure], Raise e)
  end.

(** ** What every run of a graph satisfies *)

(** [_validate] accepts exactly the graphs whose keys are the ids of their nodes and whose
    start and targets are all registered. *)
Definition well_formed (g : AgentGraph) : Prop :=
  start g ∈ Dict.keys (nodes g) /\
  Forall (fun kv => node_id kv.2 = kv.1
                    /\ Forall (fun t => t ∈ Dict.keys (nodes g)) (allowed_targets kv.2)) (nodes g).

Lemma validate_node_ok g kv :
  validate_node g kv = None <->
  node_id kv.2 = kv.1 /\ Forall (fun t => t ∈ Dict.keys (nodes g)) (allowed_targets kv.2).
Proof.
  destruct kv as [key node]. unfold validate_node. simpl. case_bool_decide as Hk; simpl.
  - destruct (forallb _ _) eqn:Hf.
    + split; [intros _; split; [done|]|done]. apply Forall_forall. intros t Ht.
      rewrite forallb_forall in Hf. apply list_elem_of_In, Hf, bool_decide_eq_true in Ht. done.
    + split; [done|]. intros [_ Ha]. exfalso. apply not_true_iff_false in Hf. apply Hf.
      apply forallb_forall. intros t Ht. apply bool_decide_eq_true.
      rewrite Forall_forall in Ha. by apply Ha, list_elem_of_In.
  - split; [done|]. by intros [? _].
Qed.

Lemma validate_exact g : _validate g = Ok tt <-> well_formed g.
Proof.
  unfold _validate, well_formed, Dict.mem.
  assert (forall l, first_structure_error g l = Ok tt <-> Forall (fun kv => validate_node g kv = None) l)
    as Hl.
  { induction l as [|kv l IH]; simpl; [by split; [constructor|]|]. rewrite Forall_cons, <- IH.
    destruct (validate_node g kv); naive_solver. }
  destruct (Dict.get (start g) (nodes g)) eqn:Hs; simpl.
  - rewrite Hl. assert (start g ∈ Dict.keys (nodes g)).
    { destruct (decide (start g ∈ Dict.keys (nodes g))) as [|Hn]; [done|].
      apply Dict.get_None_keys in Hn. congruence. }
    rewrite !Forall_forall. setoid_rewrite validate_node_ok. naive_solver.
  - apply Dict.get_None_keys in Hs. naive_solver.
Qed.

Lemma keys_is_Some (g : AgentGraph) t :
  t ∈ Dict.keys (nodes g) -> is_Some (Dict.get t (nodes g)).
Proof.
  intros Ht. destruct (Dict.get t (nodes g)) eqn:Hn; [eauto|]. by apply Dict.get_None_keys in Hn.
Qed.

(** The attempts of a run that went on: a walk of the graph from its start, each attempt
    started with the directive of its effect and completed. [n] is the node it comes to. *)
Definition started (node : AgentNode) : lifecycle :=
  NodeStarted (node_id node) (effect_kind node) (_RECOVERY_BY_EFFECT (effect_kind node)).

Inductive walk (g : AgentGraph) : NodeId -> list lifecycle -> nat -> Prop :=
| walk_start : walk g (start g) [] O
| walk_step n log k node t :
    walk g n log k -> Dict.get n (nodes g) = Some node -> t ∈ allowed_targets node ->
    walk g t (log ++ [started node; NodeCompleted (node_id node)]) (S k).

(** How a run ends at node [n] after [k] attempts. *)
Inductive ending (g : AgentGraph) (max : nat) (n : NodeId) (k : nat) :
    outcome (exn E) R -> list lifecycle -> Prop :=
| end_limit : k = max -> ending g max n k (Raise StepLimit) []
| end_missing : (k < max)%nat -> Dict.get n (nodes g) = None ->
    ending g max n k (Raise (MissingNode n)) []
| end_result node r : (k < max)%nat -> Dict.get n (nodes g) = Some node ->
    ending g max n k (Ok r) [started node; NodeCompleted (node_id node)]
| end_illegal node t : (k < max)%nat -> Dict.get n (nodes g) = Some node ->
    t ∉ allowed_targets node ->
    ending g max n k (Raise (IllegalTransition n t)) [started node; NodeCompleted (node_id node)]
| end_cancelled node : (k < max)%nat -> Dict.get n (nodes g) = Some node ->
    ending g max n k (Raise Cancelled) [started node; NodeAbandoned (node_id node)]
| end_failed node e : (k < max)%nat -> Dict.get n (nodes g) = Some node -> e <> Cancelled ->
    ending g max n k (Raise e) [started node; NodeFailed (node_id node)].

Lemma run_steps_log g k cur s log m :
  walk g cur log m ->
  let '(_, log', o) := run_steps g k cur s log in
  exists n done tail c, log' = done ++ tail /\ walk g n done c /\ ending g (m + k) n c o tail.
Proof.
  revert cur s log m. induction k as [|k IH]; intros cur s log m Hd; simpl.
  { exists cur, log, [], m. rewrite app_nil_r. split_and!; [done|done|]. constructor; lia. }
  destruct (Dict.get cur (nodes g)) as [node|] eqn:Hn.
  2:{ exists cur, log, [], m. rewrite app_nil_r. split_and!; [done|done|]. constructor; [lia|done]. }
  assert (m < m + S k)%nat as Hm by lia.
  unfold _execute_node. destruct (node_run node s) as [s' [[target|r]|e]]; rewrite <- ?app_assoc.
  - case_bool_decide as Ht.
    + specialize (IH target s' _ _ (walk_step g cur log m node target Hd Hn Ht)).
      rewrite Nat.add_succ_r. exact IH.
    + eexists cur, log, _, m. split_and!; [done|done|]. by constructor.
  - eexists cur, log, _, m. split_and!; [done|done|]. by constructor.
  - destruct e; rewrite <- ?app_assoc; eexists cur, log, _, m;
      (split_and!; [done|done|by constructor]).
Qed.

Lemma run_steps_ends g max s :
  let '(_, log, o) := run_steps g max (start g) s [] in
  exists n done tail k, log = done ++ tail /\ walk g n done k /\ ending g max n k o tail.
Proof. apply (run_steps_log g max (start g) s [] O), walk_start. Qed.

(** Every attempt of a run is accounted for. The log is a walk along the edges of the
    graph from its start, each attempt started with the recovery directive of its effect and
    completed, at most [max_steps] attempts in all. The last one completed when the run has a
    result, was abandoned when the run is cancelled, and failed when its node raised; without
    a last attempt the bound is used up or the node is unknown. The run's own callback
    follows, cancellation or failure and never both. *)
Theorem run_lifecycle g max_steps s :
  let '(_, log, o) := run g max_steps s in
  exists n done tail k, walk g n done k /\ ending g max_steps n k o tail
    /\ log = done ++ tail ++ match o with
                            | Ok _ => []
                            | Raise Cancelled => [OnCancel]
                            | Raise _ => [OnFailure]
                            end.
Proof.
  unfold run. pose proof (run_steps_ends g max_steps s) as H.
  destruct (run_steps g max_steps (start g) s []) as [[s' log] o].
  destruct H as (n & dn & tail & k & -> & Hw & He).
  destruct o as [r|[]]; exists n, dn, tail, k; rewrite <- ?app_assoc, ?app_nil_r; done.
Qed.

Lemma walk_known g n log k m e r :
  walk g n log k -> NodeStarted m e r ∈ log ->
  exists key node, Dict.get key (nodes g) = Some node /\ node_id node = m.
Proof.
  induction 1 as [|n log k node t Hw IH Hn Ht]; [by intros ?%not_elem_of_nil|].
  rewrite elem_of_app, !elem_of_cons. intros [H|[H|[H|H]]]; [auto| |done|by apply not_elem_of_nil in H].
  injection H as -> _ _. by exists n, node.
Qed.

(** Only nodes of the graph start. *)
Lemma started_known g max s m e r :
  NodeStarted m e r ∈ snd (fst (run g max s)) ->
  exists key node, Dict.get key (nodes g) = Some node /\ node_id node = m.
Proof.
  unfold run. pose proof (run_steps_ends g max s) as H.
  destruct (run_steps g max (start g) s []) as [[s' log] o].
  destruct H as (n & dn & tail & k & -> & Hw & He). intros Hin.
  assert (NodeStarted m e r ∈ dn ++ tail) as Hin'.
  { destruct o as [?|[]]; cbn in Hin; rewrite ?(elem_of_app _ [_]), ?list_elem_of_singleton in Hin;
      intuition discriminate. }
  apply elem_of_app in Hin' as [Hd|Ht]; [by eapply walk_known|].
  destruct He; apply list_elem_of_In in Ht; cbn [In] in Ht; destruct_or? Ht; try done;
    injection Ht as <- _ _; eauto.
Qed.

(** A property of the state before each node, kept along the transitions. *)
Lemma run_steps_inv g (I : NodeId -> St -> Prop) (Q : NodeId -> R -> Prop)
    (ok_exn : exn E -> Prop) :
  (forall n node s, Dict.get n (nodes g) = Some node -> I n s ->
     node_id node = n /\
     match node_run node s with
     | (s', Ok (Transition t)) =>
         t ∈ allowed_targets node /\ is_Some (Dict.get t (nodes g)) /\ I t s'
     | (s', Ok (End r)) => Q n r
     | (s', Raise e) => ok_exn e
     end) ->
  forall k cur s log, is_Some (Dict.get cur (nodes g)) -> I cur s ->
    match run_steps g k cur s log with
    | (_, log', Ok r) => exists n, last log' = Some (NodeCompleted n) /\ Q n r
    | (_, _, Raise e) => ok_exn e \/ e = StepLimit
    end.
Proof.
  intros Hnode k. induction k as [|k IH]; intros cur s log [node Hn] Hi; simpl; [by right|].
  rewrite Hn. destruct (Hnode cur node s Hn Hi) as [Hid H]. unfold _execute_node.
  destruct (node_run node s) as [s' [[t|r]|e]].
  - destruct H as (Ht & Hs & Hi'). rewrite bool_decide_true by done. by apply IH.
  - exists cur. rewrite last_snoc, Hid. done.
  - destruct e; by left.
Qed.

End Runner.
Arguments AgentNode : clear implicits.
Arguments AgentGraph : clear implicits.

(** ** The built-in nodes *)
Section Nodes.
Context {W Cand Resp Committed E : Type}.

Inductive AgentAction := TextAction | ToolCallAction | FinalCandidateAction (c : Cand).

Definition ModelTurn : Type := list AgentAction.

Definition final_candidates (turn : ModelTurn) : list Cand :=
  omap (fun a => match a with FinalCandidateAction c => Some c | _ => None end) turn.

Inductive ExecutionTurn :=
| NoModelTurn
| Model (turn : ModelTurn)
| CandidateSelection (turn : ModelTurn) (index : Z).

Record ExecutionResult := mkResult { presentation : Resp; result_committed : option Committed }.

Record ExecutionState := mkState {
  world : W;
  response : Resp;
  committed_output : option Committed;
  turn : ExecutionTurn;
  initial_observe_complete : bool
}.

(** A completion decision, as the policies of the kernel make it. *)
Inductive CompletionDecision :=
| CONTINUE
| FAIL
| VALIDATE_CANDIDATE (candidate_index : option Z).

Record evaluation := mkEvaluation { accepted : bool; correction_allowed : bool }.

(** A call of a service may raise an error of its own or be cancelled. *)
Inductive fault := FCancelled | FError (e : E).

Definition lift (f : fault) : exn E :=
  match f with FCancelled => Cancelled | FError e => ServiceError e end.

Definition call (A : Type) : Type := W -> W * outcome fault A.

Record Services := {
  svc_restore : call (option ExecutionResult);
  svc_observe : bool -> call bool;
  svc_set_active : W -> W;
  svc_enforce_budget : call (option Resp);
  svc_advance_turn : W -> W;
  svc_infer : call bool;
  svc_model_turn : call ModelTurn;
  svc_has_pending : W -> bool;
  svc_wait_any : call unit;
  svc_completion : ModelTurn -> call CompletionDecision;
  svc_execute : ModelTurn -> call Resp;
  svc_evaluate : Cand -> call evaluation;
  svc_reject : evaluation -> Cand -> call unit;
  svc_accept : Cand -> call Resp;
  svc_commit : call (option Committed)
}.

Notation result := (step (option ExecutionResult)).
Notation node_fn := (ExecutionState -> ExecutionState * outcome (exn E) result).

Definition on_world (s : ExecutionState) (w : W) : ExecutionState :=
  mkState w (response s) (committed_output s) (turn s) (initial_observe_complete s).

Definition with_turn (s : ExecutionState) (t : ExecutionTurn) : ExecutionState :=
  mkState (world s) (response s) (committed_output s) t (initial_observe_complete s).

Definition with_response (s : ExecutionState) (r : Resp) : ExecutionState :=
  mkState (world s) r (committed_output s) (turn s) (initial_observe_complete s).

(** [await service(...)]: the world it leaves stays, whether it raises or not. *)
Definition await {A B} (c : call A) (s : ExecutionState)
    (k : A -> ExecutionState -> ExecutionState * outcome (exn E) B) :
    ExecutionState * outcome (exn E) B :=
  match c (world s) with
  | (w, Ok a) => k a (on_world s w)
  | (w, Raise e) => (on_world s w, Raise (lift e))
  end.

Definition go (s : ExecutionState) (n : NodeId) : ExecutionState * outcome (exn E) result :=
  (s, Ok (Transition n)).

Definition finish (s : ExecutionState) : ExecutionState * outcome (exn E) result :=
  (s, Ok (End (Some (mkResult (response s) (committed_output s))))).

Definition RestoreNode (v : Services) : node_fn := fun s =>
  await (svc_restore v) s (fun restored s =>
    match restored with
    | Some r => (s, Ok (End (Some r)))
    | None => go s OBSERVE
    end).

Definition ObserveNode (v : Services) : node_fn := fun s =>
  if negb (initial_observe_complete s) then
    await (svc_observe v false) s (fun seen s =>
      if negb seen then (s, Ok (End None))
      else
        let s := mkState (svc_set_active v (world s)) (response s) (committed_output s) (turn s)
                   true in go s BUDGET)
  else
    await (svc_observe v true) s (fun seen s =>
      go (if seen : bool then on_world s (svc_set_active v (world s)) else s) BUDGET).

Definition BudgetNode (v : Services) : node_fn := fun s =>
  await (svc_enforce_budget v) s (fun stop s =>
    match stop with
    | Some message => finish (with_response s message)
    | None => go (on_world s (svc_advance_turn v (world s))) THINK
    end).

Definition InferenceNode (v : Services) : node_fn := fun s =>
  await (svc_infer v) s (fun more s =>
    if more : bool then
      await (svc_model_turn v) s (fun t s => go (with_turn s (Model t)) INTERPRET)
    else if svc_has_pending v (world s) then go s WAIT_BACKGROUND
    else finish s).

Definition ActNode (v : Services) : node_fn := fun s =>
  match turn s with
  | Model t =>
      await (svc_execute v t) s (fun r s =>
        go (with_turn (with_response s r) NoModelTurn) OBSERVE)
  | _ => (s, Raise (NeedsModelTurn ACT))
  end.

(** Python's [l[i]] for the non-negative indices a selection has. *)
Definition at_index (l : list Cand) (i : Z) : option Cand := l !! Z.to_nat i.

Definition ValidateOutputNode (v : Services) : node_fn := fun s =>
  match turn s with
  | CandidateSelection t i =>
      match at_index (final_candidates t) i with
      | None => (s, Raise BadCandidateIndex)
      | Some candidate =>
          await (svc_evaluate v candidate) s (fun ev s =>
            if negb (accepted ev) then
              await (svc_reject v ev candidate) s (fun _ s =>
                if negb (correction_allowed ev) then (s, Raise CorrectionExhausted)
                else go (with_turn s NoModelTurn) OBSERVE)
            else
              await (svc_accept v candidate) s (fun r s =>
                let s := with_response s r in
                await (svc_commit v) s (fun c s =>
                  finish (mkState (world s) (response s) c (turn s)
                            (initial_observe_complete s)))))
      end
  | _ => (s, Raise NeedsCandidate)
  end.

Definition WaitBackgroundNode (v : Services) : node_fn := fun s =>
  if svc_has_pending v (world s) then await (svc_wait_any v) s (fun _ s => go s OBSERVE)
  else go s OBSERVE.

(** [CandidateSelection(...)] checks its index. *)
Definition select (s : ExecutionState) (t : ModelTurn) (i : Z) :
    ExecutionState * outcome (exn E) result :=
  if (i <? 0) || (Z.of_nat (length (final_candidates t)) <=? i) then (s, Raise BadCandidateIndex)
  else go (with_turn s (CandidateSelection t i)) VALIDATE_OUTPUT.

Definition ReActInterpretNode (v : Services) : node_fn := fun s =>
  match turn s with
  | Model t =>
      await (svc_completion v t) s (fun c s =>
        match c with
        | FAIL => (s, Raise CompletionFailed)
        | VALIDATE_CANDIDATE i => select s t (default 0 i)
        | CONTINUE => go s ACT
        end)
  | _ => (s, Raise (NeedsModelTurn INTERPRET))
  end.

Definition ReviewInterpretNode (v : Services) : node_fn := fun s =>
  match turn s with
  | Model t =>
      await (svc_completion v t) s (fun c s =>
        match c with
        | FAIL => (s, Raise CompletionFailed)
        | VALIDATE_CANDIDATE i => select s t (default 0 i)
        | CONTINUE => (s, Raise CandidateRequired)
        end)
  | _ => (s, Raise (NeedsModelTurn INTERPRET))
  end.

Notation node := (AgentNode ExecutionState (option ExecutionResult) E).
Notation graph := (AgentGraph ExecutionState (option ExecutionResult) E).

Definition keyed (n : node) : NodeId * node := (node_id n, n).

Definition build_react_graph (v : Services) : graph := mkGraph RESTORE (keyed <$> [
  mkNode RESTORE LEDGERED [OBSERVE] (RestoreNode v);
  mkNode OBSERVE LEDGERED [BUDGET] (ObserveNode v);
  mkNode BUDGET PURE [THINK] (BudgetNode v);
  mkNode THINK REPLAYABLE [INTERPRET; WAIT_BACKGROUND] (InferenceNode v);
  mkNode INTERPRET PURE [ACT; VALIDATE_OUTPUT] (ReActInterpretNode v);
  mkNode ACT EXTERNAL [OBSERVE] (ActNode v);
  mkNode VALIDATE_OUTPUT LEDGERED [OBSERVE] (ValidateOutputNode v);
  mkNode WAIT_BACKGROUND WAITABLE [OBSERVE] (WaitBackgroundNode v)]).

Definition build_review_refine_graph (v : Services) : graph := mkGraph RESTORE (keyed <$> [
  mkNode RESTORE LEDGERED [OBSERVE] (RestoreNode v);
  mkNode OBSERVE LEDGERED [BUDGET] (ObserveNode v);
  mkNode BUDGET PURE [THINK] (BudgetNode v);
  mkNode THINK REPLAYABLE [INTERPRET; WAIT_BACKGROUND] (InferenceNode v);
  mkNode INTERPRET PURE [VALIDATE_OUTPUT] (ReviewInterpretNode v);
  mkNode VALIDATE_OUTPUT LEDGERED [OBSERVE] (ValidateOutputNode v);
  mkNode WAIT_BACKGROUND WAITABLE [OBSERVE] (WaitBackgroundNode v)]).

(** The state at the start of [ExecutionEngine.run]. *)
Definition initial (w : W) (no_actions_yet : Resp) : ExecutionState :=
  mkState w no_actions_yet None NoModelTurn false.

(** [TextCompletionPolicy.evaluate]. *)
Definition is_tool_call (a : AgentAction) : bool :=
  match a with ToolCallAction => true | _ => false end.

Definition text_completion (t : ModelTurn) : CompletionDecision :=
  match final_candidates t with
  | [] => CONTINUE
  | _ :: _ :: _ => FAIL
  | [_] => if existsb is_tool_call t then FAIL else VALIDATE_CANDIDATE (Some 0)
  end.

(** ** The built-in graphs are safe *)

(** What a node relies on in the state it is entered with: the phase of the turn, and that
    nothing is committed yet. *)
Definition ready (n : NodeId) (s : ExecutionState) : Prop :=
  committed_output s = None /\
  match n with
  | INTERPRET | ACT => exists t, turn s = Model t
  | VALIDATE_OUTPUT =>
      exists t i, turn s = CandidateSelection t i
        /\ 0 <= i < Z.of_nat (length (final_candidates t))
  | _ => True
  end.

(** The only nodes that may end a run with a committed output. *)
Definition commits (n : NodeId) (r : option ExecutionResult) : Prop :=
  match r with
  | Some res => result_committed res <> None -> n = RESTORE \/ n = VALIDATE_OUTPUT
  | None => True
  end.

(** What may end a run of a built-in graph without a result. *)
Definition expected (e : exn E) : Prop :=
  match e with
  | IllegalTransition _ _ | MissingNode _ | NeedsModelTurn _ | NeedsCandidate => False
  | _ => True
  end.

Definition node_safe (targets : list NodeId) (n : NodeId)
    (r : ExecutionState * outcome (exn E) result) : Prop :=
  match r with
  | (s', Ok (Transition t)) => t ∈ targets /\ ready t s'
  | (s', Ok (End r)) => commits n r
  | (s', Raise e) => expected e
  end.

Lemma await_safe {A} targets n (c : call A) s k :
  (forall a w, node_safe targets n (k a (on_world s w))) -> node_safe targets n (await c s k).
Proof.
  intros H. unfold await. destruct (c (world s)) as [w [a|e]]; [apply H|]. by destruct e.
Qed.

Ltac transition := simpl; split; [by repeat constructor|]; split; [done|]; simpl; eauto.

Lemma select_safe targets s t i :
  committed_output s = None -> VALIDATE_OUTPUT ∈ targets ->
  node_safe targets INTERPRET (select s t i).
Proof.
  intros Hc Hv. unfold select. destruct (_ || _) eqn:Hb; [done|].
  rewrite orb_false_iff, Z.ltb_ge, Z.leb_gt in Hb. simpl. split; [done|]. split; [done|].
  exists t, i. by split.
Qed.

Lemma restore_safe v s : ready RESTORE s -> node_safe [OBSERVE] RESTORE (RestoreNode v s).
Proof.
  intros [Hc _]. apply await_safe. intros [r|] w; [simpl; by left|transition].
Qed.

Lemma observe_safe v s : ready OBSERVE s -> node_safe [BUDGET] OBSERVE (ObserveNode v s).
Proof.
  intros [Hc _]. unfold ObserveNode. destruct (negb _).
  - apply await_safe. intros [] w; [transition|done].
  - apply await_safe. intros [] w; transition.
Qed.

Lemma budget_safe v s : ready BUDGET s -> node_safe [THINK] BUDGET (BudgetNode v s).
Proof. intros [Hc _]. apply await_safe. intros [m|] w; [simpl; by rewrite Hc|transition]. Qed.

Lemma inference_safe v s :
  ready THINK s -> node_safe [INTERPRET; WAIT_BACKGROUND] THINK (InferenceNode v s).
Proof.
  intros [Hc _]. apply await_safe. intros [] w.
  - apply await_safe. intros t w'. transition.
  - destruct (svc_has_pending v _); [transition|]. simpl. by rewrite Hc.
Qed.

Lemma act_safe v s : ready ACT s -> node_safe [OBSERVE] ACT (ActNode v s).
Proof.
  intros [Hc [t Ht]]. unfold ActNode. rewrite Ht. apply await_safe. intros r w. transition.
Qed.

Lemma validate_safe v s :
  ready VALIDATE_OUTPUT s -> node_safe [OBSERVE] VALIDATE_OUTPUT (ValidateOutputNode v s).
Proof.
  intros [Hc (t & i & Ht & Hi)]. unfold ValidateOutputNode. rewrite Ht.
  unfold at_index. destruct (lookup_lt_is_Some_2 (final_candidates t) (Z.to_nat i)) as [c ->]; [lia|].
  apply await_safe. intros ev w. destruct (negb (accepted ev)).
  - apply await_safe. intros _ w'. destruct (negb _); [done|transition].
  - apply await_safe. intros r w'. apply await_safe. intros co w2. simpl. by right.
Qed.

Lemma wait_safe v s : ready WAIT_BACKGROUND s -> node_safe [OBSERVE] WAIT_BACKGROUND (WaitBackgroundNode v s).
Proof.
  intros [Hc _]. unfold WaitBackgroundNode. destruct (svc_has_pending v _); [|transition].
  apply await_safe. intros _ w. transition.
Qed.

Lemma react_interpret_safe v s :
  ready INTERPRET s -> node_safe [ACT; VALIDATE_OUTPUT] INTERPRET (ReActInterpretNode v s).
Proof.
  intros [Hc [t Ht]]. unfold ReActInterpretNode. rewrite Ht. apply await_safe.
  intros [| |i] w; [transition|done|]. apply select_safe; [done|]. by repeat constructor.
Qed.

Lemma review_interpret_safe v s :
  ready INTERPRET s -> node_safe [VALIDATE_OUTPUT] INTERPRET (ReviewInterpretNode v s).
Proof.
  intros [Hc [t Ht]]. unfold ReviewInterpretNode. rewrite Ht. apply await_safe.
  intros [| |i] w; [done|done|]. apply select_safe; [done|]. by repeat constructor.
Qed.

(** The nodes of a graph are safe when each is entered ready. *)
Definition graph_safe (g : graph) : Prop :=
  forall n node s, Dict.get n (nodes g) = Some node -> ready n s ->
    node_safe (allowed_targets node) n (node_run node s).

Lemma react_safe v : graph_safe (build_react_graph v).
Proof.
  intros n node s Hn Hr. destruct n; cbn in Hn; injection Hn as <-;
    first [by apply restore_safe|by apply observe_safe|by apply budget_safe
          |by apply inference_safe|by apply react_interpret_safe|by apply act_safe
          |by apply validate_safe|by apply wait_safe].
Qed.

Lemma review_safe v : graph_safe (build_review_refine_graph v).
Proof.
  intros n node s Hn Hr. destruct n; cbn in Hn; try done; injection Hn as <-;
    first [by apply restore_safe|by apply observe_safe|by apply budget_safe
          |by apply inference_safe|by apply review_interpret_safe
          |by apply validate_safe|by apply wait_safe].
Qed.

Lemma safe_run g max s :
  well_formed g -> graph_safe g -> ready (start g) s ->
  match run_steps g max (start g) s [] with
  | (_, log', Ok r) => exists n, last log' = Some (NodeCompleted n) /\ commits n r
  | (_, _, Raise e) => expected e \/ e = StepLimit
  end.
Proof.
  intros [Hs Hw] Hg Hr. rewrite Forall_forall in Hw.
  apply (run_steps_inv g ready commits expected); [|by apply keys_is_Some|done].
  intros n node s' Hn Hi. specialize (Hg n node s' Hn Hi).
  destruct (Hw (n, node)) as [Hid Ht]; [by apply Dict.get_Some_elem|]. simpl in *. split; [done|].
  unfold node_safe in Hg. destruct (node_run node s') as [s2 [[t|r]|e]]; [|done|done].
  destruct Hg as [Hin Hready]. split_and!; [done| |done].
  rewrite Forall_forall in Ht. by apply keys_is_Some, Ht.
Qed.

(** The policy of text output selects the only candidate of a turn without tool calls. *)
Lemma text_completion_valid t i :
  text_completion t = VALIDATE_CANDIDATE i ->
  i = Some 0 /\ (exists c, final_candidates t = [c]) /\ existsb is_tool_call t = false.
Proof.
  unfold text_completion. destruct (final_candidates t) as [|c [|]]; [done| |done].
  destruct (existsb is_tool_call t); [done|]. intros [= <-]. eauto.
Qed.

Definition built_in (review : bool) (v : Services) : graph :=
  if review then build_review_refine_graph v else build_react_graph v.

Lemma built_in_well_formed review v : _validate (built_in review v) = Ok tt.
Proof. by destruct review. Qed.

Lemma review_no_act v max s e d :
  NodeStarted ACT e d ∉ (run (build_review_refine_graph v) max s).1.2.
Proof.
  intros (key & node & Hn & Hid)%started_known. destruct key; cbn in Hn; try done;
    injection Hn as <-; discriminate.
Qed.

(** C21: The built-in graphs are sound, whatever the services do. Both pass the validation;
    from the initial state no run takes an illegal edge, comes to an unknown node, or enters
    a node in the wrong phase of its turn; a result with a committed output comes only from
    the restored output or from a validated candidate; and the review graph never starts an
    action. *)
Theorem built_in_graphs_safe review v max w r :
  _validate (built_in review v) = Ok tt /\
  let '(_, log, o) := run (built_in review v) max (initial w r) in
  match o with
  | Raise e => expected e
  | Ok None => True
  | Ok (Some res) =>
      result_committed res <> None ->
      exists n, last log = Some (NodeCompleted n) /\ (n = RESTORE \/ n = VALIDATE_OUTPUT)
  end /\ (review = true -> forall e d, NodeStarted ACT e d ∉ log).
Proof.
  split; [apply built_in_well_formed|].
  assert (graph_safe (built_in review v)) as Hg by (destruct review; [apply review_safe|apply react_safe]).
  pose proof (safe_run (built_in review v) max (initial w r)
    (proj1 (validate_exact _) (built_in_well_formed review v)) Hg) as H.
  assert (review = true -> forall e d,
    NodeStarted ACT e d ∉ (run (built_in review v) max (initial w r)).1.2) as Ha.
  { intros ->. apply review_no_act. }
  unfold run in *. destruct (run_steps _ max _ _ []) as [[s' log] o].
  specialize (H ltac:(by destruct review)).
  destruct o as [[res|]|[]]; simpl in *; (split; [|exact Ha]); try done; try (by destruct H).
  destruct H as (n & Hl & Hc). eauto.
Qed.

End Nodes.
End Graph.
