(* ===== verification/LoopGuard.v ===== *)
(** * The loop guard of tool calls

    [runtime/tools/loop_guard/detector.py]: [ThrashDetector], the state machine that counts
    identical failures and unchanging reads per call signature, with its capped maps in
    least-recently-touched order. The reference it is compared with counts the streaks in
    the whole history of calls. *)

From S2P Require Import Prelude.
From Stdlib Require Import String.
From stdpp Require Import base list strings.

Open Scope list_scope.
Open Scope mote_scope.
Open Scope Z_scope.

Module ThrashDetector.

Inductive ThrashKind := repeated_failure | no_progress.

Record Verdict := mkVerdict { kind : ThrashKind; tool : string; count : Z }.

Notation key := (string * string)%type.

(** The facts of one finished call. *)
Record call := mkCall {
  tool_name : string;
  sig : string;
  success : bool;
  is_readonly : bool;
  result_fingerprint : string
}.

Definition key_of (c : call) : key := (tool_name c, sig c).

Record t := mk {
  _failure_threshold : Z;
  _no_progress_threshold : Z;
  _max_tracked_keys : Z;
  _failure_streak : list (key * Z);
  _no_progress : list (key * (string * Z))
}.

Definition init (failure_threshold no_progress_threshold max_tracked_keys : Z) : t :=
  mk (Z.max 1 failure_threshold) (Z.max 1 no_progress_threshold) (Z.max 1 max_tracked_keys) [] [].

(** [OrderedDict.move_to_end], of a key that is there. *)
Definition move_to_end {V} (k : key) (d : list (key * V)) : list (key * V) :=
  match Dict.get k d with
  | Some v => Dict.pop k d ++ [(k, v)]
  | None => d
  end.

Definition _touch {V} (cap : Z) (d : list (key * V)) (k : key) (v : V) : list (key * V) :=
  let d := move_to_end k (Dict.set k v d) in
  if cap <? Z.of_nat (length d) then tail d else d.

Definition with_failures (s : t) (f : list (key * Z)) : t :=
  mk (_failure_threshold s) (_no_progress_threshold s) (_max_tracked_keys s) f (_no_progress s).

Definition with_progress (s : t) (p : list (key * (string * Z))) : t :=
  mk (_failure_threshold s) (_no_progress_threshold s) (_max_tracked_keys s) (_failure_streak s) p.

Definition record (s : t) (c : call) : t * option Verdict :=
  let key := key_of c in
  if negb (success c) then
    let s := with_progress s (Dict.pop key (_no_progress s)) in
    let streak := default 0 (Dict.get key (_failure_streak s)) + 1 in
    let s := with_failures s (_touch (_max_tracked_keys s) (_failure_streak s) key streak) in
    (s, if _failure_threshold s <=? streak
        then Some (mkVerdict repeated_failure (tool_name c) streak) else None)
  else
    let s := with_failures s (Dict.pop key (_failure_streak s)) in
    if negb (is_readonly c) then (with_progress s (Dict.pop key (_no_progress s)), None)
    else
      let count :=
        match Dict.get key (_no_progress s) with
        | Some (fp, n) => if bool_decide (fp = result_fingerprint c) then n + 1 else 1
        | None => 1
        end in
      let s := with_progress s
        (_touch (_max_tracked_keys s) (_no_progress s) key (result_fingerprint c, count)) in
      (s, if _no_progress_threshold s <=? count
          then Some (mkVerdict no_progress (tool_name c) count) else None).

Fixpoint records (s : t) (cs : list call) : t :=
  match cs with
  | [] => s
  | c :: cs => records (fst (record s c)) cs
  end.

(** ** The reference: streaks of the whole history, the last call first *)
Fixpoint take_while (p : call -> bool) (l : list call) : list call :=
  match l with
  | [] => []
  | c :: l => if p c then c :: take_while p l else []
  end.

Definition streak (p : call -> bool) (k : key) (h : list call) : Z :=
  Z.of_nat (length (take_while p (filter (fun c => key_of c = k) h))).

Definition failed (c : call) : bool := negb (success c).

Definition same_read (fp : string) (c : call) : bool :=
  success c && is_readonly c && bool_decide (result_fingerprint c = fp).

Definition streak_of (kd : ThrashKind) (c : call) (h : list call) : Z :=
  match kd with
  | repeated_failure => streak failed (key_of c) h
  | no_progress => streak (same_read (result_fingerprint c)) (key_of c) h
  end.

Definition kind_of (c : call) : option ThrashKind :=
  if failed c then Some repeated_failure else if is_readonly c then Some no_progress else None.

Definition threshold (s : t) (kd : ThrashKind) : Z :=
  match kd with
  | repeated_failure => _failure_threshold s
  | no_progress => _no_progress_threshold s
  end.

(** The verdict of a detector that never forgets, on call [c] after the calls [h]. *)
Definition reference (s : t) (c : call) (h : list call) : option Verdict :=
  match kind_of c with
  | None => None
  | Some kd =>
      let n := streak_of kd c (c :: h) in
      if threshold s kd <=? n then Some (mkVerdict kd (tool_name c) n) else None
  end.

(** ** The maps *)
Section Touch.
Context {V : Type}.
Implicit Types (d : list (key * V)) (k : key).

Lemma touch_shape d k v :
  move_to_end k (Dict.set k v d) = Dict.pop k d ++ [(k, v)].
Proof.
  unfold move_to_end. rewrite Dict.get_set_eq. f_equal.
  induction d as [|[k' v'] d IH]; simpl; [by rewrite decide_True|].
  destruct (decide (k = k')) as [->|Hn]; simpl; [by rewrite decide_True|].
  rewrite decide_False by done. by rewrite IH.
Qed.

Lemma get_concat k d d' : Dict.get k (d ++ d') =
  match Dict.get k d with Some v => Some v | None => Dict.get k d' end.
Proof. induction d as [|[k' v'] d IH]; simpl; [done|]. by destruct (decide _). Qed.

Lemma pop_length k d : (length (Dict.pop k d) <= length d)%nat.
Proof. induction d as [|[k' v'] d IH]; simpl; [lia|]. destruct (decide _); simpl; lia. Qed.

Lemma keys_app d d' : Dict.keys (d ++ d') = Dict.keys d ++ Dict.keys d'.
Proof. apply fmap_app. Qed.

Lemma touch_NoDup cap d k v : NoDup (Dict.keys d) -> NoDup (Dict.keys (_touch cap d k v)).
Proof.
  intros Hd. unfold _touch. rewrite touch_shape.
  assert (NoDup (Dict.keys (Dict.pop k d ++ [(k, v)]))) as H.
  { rewrite keys_app. apply NoDup_app. split_and!; [by apply Dict.NoDup_keys_pop| |apply NoDup_singleton].
    intros k' Hin Hk. apply list_elem_of_singleton in Hk as ->.
    apply Dict.elem_keys_pop in Hin as [? _]. done. }
  destruct (_ <? _); [|done]. destruct (_ ++ _); [done|]. cbn [tail].
  by apply NoDup_cons in H as [_ ?].
Qed.

Lemma touch_eq cap d k v : 1 <= cap -> Dict.get k (_touch cap d k v) = Some v.
Proof.
  intros Hc. unfold _touch. rewrite touch_shape.
  destruct (_ <? _) eqn:Hl.
  - destruct (Dict.pop k d) as [|kv d'] eqn:Hp; cbn [app tail].
    { rewrite Z.ltb_lt in Hl. simpl in Hl. lia. }
    rewrite get_concat. assert (Dict.get k d' = None) as ->.
    { apply Dict.get_None_keys. intros Hin.
      assert (k ∈ Dict.keys (Dict.pop k d)) as Hk by (rewrite Hp; right; exact Hin).
      by apply Dict.elem_keys_pop in Hk as [? _]. }
    simpl. by rewrite decide_True.
  - rewrite get_concat, Dict.get_pop_eq. simpl. by rewrite decide_True.
Qed.

Lemma touch_ne cap d k k' v :
  NoDup (Dict.keys d) -> k' <> k ->
  Dict.get k' (_touch cap d k v) = Dict.get k' d \/ Dict.get k' (_touch cap d k v) = None.
Proof.
  intros Hd Hne. pose proof (touch_NoDup cap d k v Hd) as Hnd.
  assert (forall x, (k', x) ∈ _touch cap d k v -> (k', x) ∈ d) as Hsub.
  { intros x. unfold _touch. rewrite touch_shape. intros Hin.
    assert ((k', x) ∈ Dict.pop k d ++ [(k, v)]) as Hin'.
    { destruct (_ <? _); [|done]. destruct (_ ++ _); [done|]. by right. }
    apply elem_of_app in Hin' as [Hp|Hs]; [by apply Dict.elem_pop in Hp as [_ ?]|].
    apply list_elem_of_singleton in Hs. congruence. }
  destruct (Dict.get k' (_touch cap d k v)) as [x|] eqn:Hx; [left|by right].
  symmetry. by apply Dict.elem_get, Hsub, Dict.get_Some_elem.
Qed.

Lemma touch_ne_kept cap d k k' v :
  Z.of_nat (S (length (Dict.pop k d))) <= cap -> k' <> k ->
  Dict.get k' (_touch cap d k v) = Dict.get k' d.
Proof.
  intros Hl Hne. unfold _touch. rewrite touch_shape, length_app. cbn [length].
  destruct (_ <? _) eqn:Hb; [rewrite Z.ltb_lt in Hb; lia|].
  rewrite get_concat, Dict.get_pop_ne by done. simpl. rewrite decide_False by done.
  by destruct (Dict.get k' d).
Qed.

Lemma touch_length cap d k v :
  1 <= cap -> Z.of_nat (length d) <= cap -> Z.of_nat (length (_touch cap d k v)) <= cap.
Proof.
  intros Hc Hd. unfold _touch. rewrite touch_shape, length_app. cbn [length].
  pose proof (pop_length k d).
  destruct (_ <? _) eqn:Hb; [|rewrite Z.ltb_ge in Hb; rewrite length_app; simpl; lia].
  destruct (Dict.pop k d); cbn [app tail length] in *; rewrite ?length_app; simpl; lia.
Qed.

Lemma touch_keys cap d k v k' :
  k' ∈ Dict.keys (_touch cap d k v) -> k' = k \/ k' ∈ Dict.keys d.
Proof.
  unfold _touch. rewrite touch_shape. intros Hin.
  assert (k' ∈ Dict.keys (Dict.pop k d ++ [(k, v)])) as Hin'.
  { destruct (_ <? _); [|done]. destruct (_ ++ _); [done|]. by right. }
  rewrite keys_app, elem_of_app in Hin'. destruct Hin' as [Hp|Hs].
  - apply Dict.elem_keys_pop in Hp as [_ ?]. by right.
  - apply list_elem_of_singleton in Hs. by left.
Qed.
End Touch.

(** ** Maps that track a streak *)
Definition distinct (h : list call) : Z := Z.of_nat (length (remove_dups (key_of <$> h))).

Definition count_in {V} (rd : V -> Z) (d : list (key * V)) (k : key) : Z :=
  match Dict.get k d with Some v => rd v | None => 0 end.

(** The map never counts more than the streak, and exactly the streak while the history has
    no more signatures than the map has room for. *)
Definition tracks {V} (cap : Z) (d : list (key * V)) (rd : V -> Z) (p : call -> bool)
    (h : list call) : Prop :=
  forall k, 0 <= count_in rd d k <= streak p k h
    /\ (distinct h <= cap -> count_in rd d k = streak p k h).

Definition well {V} (cap : Z) (d : list (key * V)) (h : list call) : Prop :=
  NoDup (Dict.keys d) /\ Z.of_nat (length d) <= cap
  /\ forall k, k ∈ Dict.keys d -> k ∈ key_of <$> h.

Lemma streak_cons p k c h :
  streak p k (c :: h) =
  if decide (key_of c = k) then (if p c then streak p k h + 1 else 0) else streak p k h.
Proof.
  unfold streak. rewrite filter_cons. destruct (decide (key_of c = k)); [|done].
  simpl. destruct (p c); [|done]. simpl. lia.
Qed.

Lemma streak_nonneg p k h : 0 <= streak p k h.
Proof. unfold streak. lia. Qed.

Lemma distinct_cons c h : distinct h <= distinct (c :: h).
Proof. unfold distinct. rewrite fmap_cons. simpl. destruct (decide_rel _ _ _); simpl; lia. Qed.

Lemma well_pop {V} cap (d : list (key * V)) c h :
  well cap d h -> well cap (Dict.pop (key_of c) d) (c :: h).
Proof.
  intros (Hn & Hl & Hk). split_and!.
  - by apply Dict.NoDup_keys_pop.
  - pose proof (pop_length (key_of c) d). lia.
  - intros k [_ Hin]%Dict.elem_keys_pop. right. by apply Hk.
Qed.

Lemma well_touch {V} cap (d : list (key * V)) c v h :
  1 <= cap -> well cap d h -> well cap (_touch cap d (key_of c) v) (c :: h).
Proof.
  intros Hc (Hn & Hl & Hk). split_and!.
  - by apply touch_NoDup.
  - by apply touch_length.
  - intros k [->|Hin]%touch_keys; [by left|right; by apply Hk].
Qed.

Lemma tracks_pop {V} cap (d : list (key * V)) rd p c h :
  p c = false -> tracks cap d rd p h -> tracks cap (Dict.pop (key_of c) d) rd p (c :: h).
Proof.
  intros Hp Ht k. rewrite streak_cons. unfold count_in. destruct (decide (key_of c = k)) as [<-|Hne].
  - rewrite Dict.get_pop_eq, Hp. done.
  - rewrite Dict.get_pop_ne by done. destruct (Ht k) as [Hb He]. split; [done|]. intros Hd.
    apply He. pose proof (distinct_cons c h). lia.
Qed.

Lemma well_room {V} cap (d : list (key * V)) c h :
  well cap d h -> distinct (c :: h) <= cap -> Z.of_nat (S (length (Dict.pop (key_of c) d))) <= cap.
Proof.
  intros (Hn & _ & Hk) Hd.
  assert (key_of c :: Dict.keys (Dict.pop (key_of c) d) ⊆+ remove_dups (key_of <$> c :: h)) as Hs.
  { apply NoDup_submseteq.
    - apply NoDup_cons. split; [|by apply Dict.NoDup_keys_pop].
      by intros [? _]%Dict.elem_keys_pop.
    - intros k Hin. rewrite elem_of_remove_dups, fmap_cons, elem_of_cons.
      apply elem_of_cons in Hin as [->|[_ Hin]%Dict.elem_keys_pop]; [by left|right; by apply Hk]. }
  apply submseteq_length in Hs. cbn [length] in Hs. unfold Dict.keys in Hs.
  rewrite length_fmap in Hs. unfold distinct in Hd. lia.
Qed.

Lemma tracks_touch {V} cap (d : list (key * V)) (rd : V -> Z) (p : call -> bool) c v h :
  1 <= cap -> well cap d h ->
  rd v = (if p c then count_in rd d (key_of c) + 1 else 0) ->
  tracks cap d rd p h -> tracks cap (_touch cap d (key_of c) v) rd p (c :: h).
Proof.
  intros Hc Hw Hv Ht k. pose proof (distinct_cons c h) as Hdc.
  destruct (Ht k) as [Hb He]. rewrite streak_cons. destruct (decide (key_of c = k)) as [<-|Hne].
  - unfold count_in at 1 2 3; rewrite touch_eq, Hv by done. destruct (p c); [|lia].
    split; [lia|]. intros Hd. rewrite He by lia. lia.
  - split.
    + unfold count_in in *. destruct Hw as [Hn _].
      destruct (touch_ne cap d (key_of c) k v Hn) as [->| ->]; [done|done|].
      pose proof (streak_nonneg p k h). lia.
    + intros Hd. unfold count_in in *. rewrite touch_ne_kept; [apply He; lia| |done].
      by eapply well_room.
Qed.

(** ** The detector *)
Definition read_of (fp : string) (v : string * Z) : Z := if bool_decide (v.1 = fp) then v.2 else 0.

Definition Inv (s : t) (h : list call) : Prop :=
  1 <= _max_tracked_keys s
  /\ well (_max_tracked_keys s) (_failure_streak s) h
  /\ well (_max_tracked_keys s) (_no_progress s) h
  /\ tracks (_max_tracked_keys s) (_failure_streak s) id failed h
  /\ forall fp, tracks (_max_tracked_keys s) (_no_progress s) (read_of fp) (same_read fp) h.

Lemma init_inv f n m : Inv (init f n m) [].
Proof.
  assert (forall V, well (V:=V) (Z.max 1 m) [] []) as Hw.
  { intros V. split_and!; [apply NoDup_nil_2|simpl; lia|by intros k ?%not_elem_of_nil]. }
  split_and!; [simpl; lia|apply Hw|apply Hw| |]; by intros.
Qed.

Lemma record_inv s c h : Inv s h -> Inv (fst (record s c)) (c :: h).
Proof.
  intros (Hc & Hwf & Hwp & Htf & Htp). unfold record. destruct (success c) eqn:Hs; simpl.
  - assert (failed c = false) as Hf by (unfold failed; by rewrite Hs).
    destruct (is_readonly c) eqn:Hr; simpl; split_and!; simpl; try done;
      try (by apply well_pop); try (by apply tracks_pop).
    + by apply well_touch.
    + intros fp. apply tracks_touch; try done. unfold read_of, same_read, count_in. simpl.
      rewrite Hs, Hr. simpl. destruct (bool_decide_reflect (result_fingerprint c = fp)) as [->|]; [|done].
      destruct (Dict.get _ _) as [[fp' n]|]; [|done]. simpl. by destruct (bool_decide _).
    + intros fp. apply tracks_pop; [|done]. unfold same_read. by rewrite Hs, Hr.
  - split_and!; simpl; try done; try (by apply well_pop).
    + by apply well_touch.
    + apply tracks_touch; try done. unfold failed, count_in. rewrite Hs. simpl.
      by destruct (Dict.get _ _).
    + intros fp. apply tracks_pop; [|done]. unfold same_read. by rewrite Hs.
Qed.

Lemma record_params s c :
  let s' := fst (record s c) in
  _failure_threshold s' = _failure_threshold s
  /\ _no_progress_threshold s' = _no_progress_threshold s
  /\ _max_tracked_keys s' = _max_tracked_keys s.
Proof. unfold record. destruct (negb (success c)), (negb (is_readonly c)); done. Qed.

Lemma records_inv cs s h : Inv s h -> Inv (records s cs) (rev cs ++ h).
Proof.
  revert s h. induction cs as [|c cs IH]; intros s h Hi; simpl; [done|].
  rewrite <- app_assoc. simpl. by apply IH, record_inv.
Qed.

Lemma records_params cs s :
  _failure_threshold (records s cs) = _failure_threshold s
  /\ _no_progress_threshold (records s cs) = _no_progress_threshold s
  /\ _max_tracked_keys (records s cs) = _max_tracked_keys s.
Proof.
  revert s. induction cs as [|c cs IH]; intros s; simpl; [done|].
  destruct (IH (fst (record s c))) as (-> & -> & ->). apply record_params.
Qed.

(** The verdict names the count that the state holds for the call's own shape. *)
Lemma record_verdict s c h :
  Inv s h ->
  exists n, snd (record s c) = match kind_of c with
      | Some kd => if threshold s kd <=? n then Some (mkVerdict kd (tool_name c) n) else None
      | None => None
      end
    /\ forall kd, kind_of c = Some kd ->
         n <= streak_of kd c (c :: h)
         /\ (distinct (c :: h) <= _max_tracked_keys s -> n = streak_of kd c (c :: h)).
Proof.
  intros (Hc & Hwf & Hwp & Htf & Htp). unfold record, kind_of, failed.
  pose proof (distinct_cons c h) as Hd.
  destruct (success c) eqn:Hs; simpl; [destruct (is_readonly c) eqn:Hr; simpl|].
  - eexists. split; [reflexivity|]. intros kd [= <-]. simpl. rewrite streak_cons, decide_True by done.
    replace (same_read (result_fingerprint c) c) with true
      by (unfold same_read; by rewrite Hs, Hr, bool_decide_true).
    destruct (Htp (result_fingerprint c) (key_of c)) as [Hb He]. unfold count_in, read_of in *.
    destruct (Dict.get _ _) as [[fp n]|]; simpl in *; [destruct (bool_decide _)|];
      (split; [lia|intros; rewrite <- He by lia; lia]).
  - by exists 0.
  - eexists. split; [reflexivity|]. intros kd [= <-]. simpl. rewrite streak_cons, decide_True by done.
    replace (failed c) with true by (unfold failed; by rewrite Hs).
    destruct (Htf (key_of c)) as [Hb He]. unfold count_in in *.
    destruct (Dict.get _ _) as [n|]; simpl in *; unfold id in *;
      (split; [lia|intros; rewrite <- He by lia; lia]).
Qed.

(** C22: The loop guard never accuses falsely, and misses nothing it has room to remember.
    After any calls [cs], a verdict on the next call names its tool and shape, and its count
    is at least the threshold and at most the number of identical outcomes of that
    signature in a row, whatever was evicted. While the calls have no more distinct
    signatures than the cap, the verdict is the one of a detector that forgets nothing. The
    maps never hold more than the cap. *)
Theorem loop_guard_exact f n m cs c :
  let s := records (init f n m) cs in
  let h := c :: rev cs in
  match snd (record s c) with
  | Some v =>
      tool v = tool_name c /\ kind_of c = Some (kind v)
      /\ threshold s (kind v) <= count v <= streak_of (kind v) c h
  | None => True
  end
  /\ (distinct h <= Z.max 1 m -> snd (record s c) = reference s c (rev cs))
  /\ Z.of_nat (length (_failure_streak s)) <= Z.max 1 m
  /\ Z.of_nat (length (_no_progress s)) <= Z.max 1 m.
Proof.
  intros s h. pose proof (records_inv cs _ _ (init_inv f n m)) as Hi. rewrite app_nil_r in Hi.
  fold s in Hi.
  destruct (records_params cs (init f n m)) as (_ & _ & Hm). simpl in Hm. fold s in Hm.
  destruct (record_verdict _ c _ Hi) as (x & -> & Hx). rewrite <- Hm.
  destruct Hi as (_ & (_ & Hl1 & _) & (_ & Hl2 & _) & _). split_and!; [| |done|done].
  - destruct (kind_of c) as [kd|] eqn:Hk; [|done]. destruct (Hx kd eq_refl) as [Hle _].
    destruct (_ <=? _) eqn:Ht; [|done]. rewrite Z.leb_le in Ht. subst h. cbn [kind count]. split_and!; [done|done|lia|lia].
  - intros Hd. unfold reference. destruct (kind_of c) as [kd|] eqn:Hk; [|done].
    destruct (Hx kd eq_refl) as [_ He]. by rewrite <- (He Hd).
Qed.

End ThrashDetector.
