(* ===== verification/CronStore.v ===== *)
(** * The store of scheduled tasks

    [orchestration/automation/cron/task.py] and [store.py]: a task and its form on disk,
    the file of durable tasks with its modification time, and the tasks of the session;
    then the admission of new tasks by [service.py]. The file is modelled after its JSON is
    parsed: the text fields of an entry are texts, any field may be missing, and numbers and
    flags may be any JSON value, as the code converts them. A write gives the file a
    modification time it never had before, or fails with an [OSError] and leaves the file
    as it was (it is written aside and renamed); which writes fail is part of the state. *)

From S2P Require Import Prelude Text Calendar Cron.
From Stdlib Require Import Ascii String.
From stdpp Require Import base list strings.

Open Scope string_scope.
Open Scope list_scope.
Open Scope mote_scope.
Open Scope Z_scope.

Module CronStore.

(** What the operations raise: the errors of the conversions, of decoding the file, and of
    computing with cron expressions; [OSError] when the file cannot be written.
    [ValueError] stands for its subclasses. *)
Inductive exn :=
| KeyError | TypeError | ValueError | OverflowError | ZeroDivisionError | UnicodeDecodeError
| OSError.

Definition of_cron {A} (o : outcome Cron.exn A) : outcome exn A :=
  match o with
  | Ok a => Ok a
  | Raise Cron.ValueError => Raise ValueError
  | Raise Cron.OverflowError => Raise OverflowError
  | Raise Cron.ZeroDivisionError => Raise ZeroDivisionError
  end.

(** ** JSON values, and Python's conversions of them *)
Inductive json :=
| JNull
| JBool (b : bool)
| JInt (z : Z)
| JFloat (q : Q)
| JInfinity (negative : bool)
| JNaN
| JString (s : string)
| JArray (l : list json)
| JObject (l : list (string * json)).

(** [bool(v)]. *)
Definition truthy (j : json) : bool :=
  match j with
  | JNull => false
  | JBool b => b
  | JInt z => negb (z =? 0)
  | JFloat q => negb (Qeq_bool q 0)
  | JInfinity _ | JNaN => true
  | JString s => negb (bool_decide (s = ""))
  | JArray l => negb (bool_decide (length l = O))
  | JObject l => negb (bool_decide (length l = O))
  end.

(** [int(s)]: white space around, a sign, and single underscores between digits. *)
Fixpoint dec_digits (start : bool) (acc : Z) (s : string) : outcome exn Z :=
  match s with
  | EmptyString => if start then Raise ValueError else Ok acc
  | String c s' =>
      if Text.is_decimal c then dec_digits false (acc * 10 + (Text.code c - 48)) s'
      else if bool_decide (c = "_"%char) && negb start then dec_digits true acc s'
      else Raise ValueError
  end.

Fixpoint num_digits (s : string) : nat :=
  match s with
  | EmptyString => O
  | String c s' => ((if Text.is_decimal c then 1 else 0) + num_digits s')%nat
  end.

Definition dec_unsigned (s : string) : outcome exn Z :=
  if (num_digits s <=? Text.max_str_digits)%nat then dec_digits true 0 s else Raise ValueError.

Definition int_text (s : string) : outcome exn Z :=
  match Text.strip s with
  | String "-" s' => let? n := dec_unsigned s' in Ok (- n)
  | String "+" s' => dec_unsigned s'
  | s' => dec_unsigned s'
  end.

(** [int(v)]. *)
Definition int (j : json) : outcome exn Z :=
  match j with
  | JBool b => Ok (if b then 1 else 0)
  | JInt z => Ok z
  | JFloat q => Ok (Cron.trunc q)
  | JInfinity _ => Raise OverflowError
  | JNaN => Raise ValueError
  | JString s => int_text s
  | JNull | JArray _ | JObject _ => Raise TypeError
  end.

(** ** Tasks *)
Record CronTask := mkTask {
  id : string;
  cron : string;
  prompt : string;
  created_at : Z;
  last_fired_at : option Z;
  recurring : bool;
  permanent : bool;
  durable : bool;
  agent_id : option string;
  target_session_id : option string
}.

#[export] Instance CronTask_eq_dec : EqDecision CronTask.
Proof. solve_decision. Defined.

Definition with_last_fired (t : CronTask) (now : Z) : CronTask :=
  mkTask (id t) (cron t) (prompt t) (created_at t) (Some now) (recurring t) (permanent t)
    (durable t) (agent_id t) (target_session_id t).

Definition with_durable (t : CronTask) : CronTask :=
  mkTask (id t) (cron t) (prompt t) (created_at t) (last_fired_at t) (recurring t)
    (permanent t) true (agent_id t) (target_session_id t).

(** [CronTask.new], with the id it mints. *)
Definition new (fresh_id cron prompt : string) (created_at : Z)
    (recurring permanent durable : bool) (agent_id target : option string) : CronTask :=
  mkTask fresh_id cron prompt created_at None recurring permanent durable agent_id target.

(** A dictionary of the [tasks] list of the file; [None] is a key that is missing. *)
Record entry := mkEntry {
  e_id : option string;
  e_cron : option string;
  e_prompt : option string;
  e_created_at : option json;
  e_last_fired_at : option json;
  e_recurring : option json;
  e_permanent : option json;
  e_durable : option json;
  e_agent_id : option string;
  e_target_session_id : option string
}.

Definition to_dict (t : CronTask) : entry :=
  mkEntry (Some (id t)) (Some (cron t)) (Some (prompt t)) (Some (JInt (created_at t)))
    (JInt <$> last_fired_at t)
    (if recurring t then Some (JBool true) else None)
    (if permanent t then Some (JBool true) else None)
    None (agent_id t) (target_session_id t).

Definition item {A} (o : option A) : outcome exn A :=
  match o with Some a => Ok a | None => Raise KeyError end.

Definition flag (o : option json) (otherwise : bool) : bool :=
  match o with Some j => truthy j | None => otherwise end.

Definition from_dict (data : entry) : outcome exn CronTask :=
  let? i := item (e_id data) in
  let? c := item (e_cron data) in
  let? p := item (e_prompt data) in
  let? created := item (e_created_at data) in
  let? created := int created in
  let? last := match e_last_fired_at data with
               | None | Some JNull => Ok None
               | Some j => let? z := int j in Ok (Some z)
               end in
  Ok (mkTask i c p created last (flag (e_recurring data) false) (flag (e_permanent data) false)
        (flag (e_durable data) true) (e_agent_id data) (e_target_session_id data)).

Lemma from_to_dict t : from_dict (to_dict t) = Ok (with_durable t).
Proof. destruct t as [i c p cr [l|] [] [] d a s]; reflexivity. Qed.

(** ** The file and the store *)

(** What [load] finds in the file: bytes that are not UTF-8; something that is not JSON, not
    an object, or has no list of tasks; or the entries of the list, [None] for one that is
    not an object. *)
Inductive content := NotUtf8 | NoTasks | Tasks (entries : list (option entry)).

(** The file with its modification time, the time the next write gives it, the tasks held
    in memory, and which writes fail, by the time they would have had. *)
Record t := mk {
  disk : option (Z * content);
  tick : Z;
  _session : list (string * CronTask);
  write_fails : Z -> bool
}.

Definition reliable : Z -> bool := fun _ => false.

Definition init (fails : Z -> bool) (disk : option (Z * content)) (tick : Z) : t := mk disk tick [] fails.

Definition mtime (s : t) : option Z := fst <$> disk s.

Fixpoint load_entries (entries : list (option entry)) : outcome exn (list CronTask) :=
  match entries with
  | [] => Ok []
  | None :: rest => load_entries rest
  | Some e :: rest =>
      match from_dict e with
      | Ok t => let? ts := load_entries rest in Ok (with_durable t :: ts)
      | Raise (KeyError | TypeError | ValueError) => load_entries rest
      | Raise e => Raise e
      end
  end.

Definition load (s : t) : outcome exn (list CronTask) :=
  match disk s with
  | None => Ok []
  | Some (_, NotUtf8) => Raise UnicodeDecodeError
  | Some (_, NoTasks) => Ok []
  | Some (_, Tasks entries) => load_entries entries
  end.

(** [atomic_write]: the new content takes the place of the old, or nothing happens to the
    file and the error is raised. *)
Definition write (s : t) (c : content) : t * outcome exn unit :=
  if write_fails s (tick s)
  then (mk (disk s) (tick s + 1) (_session s) (write_fails s), Raise OSError)
  else (mk (Some (tick s, c)) (tick s + 1) (_session s) (write_fails s), Ok tt).

Definition save (s : t) (tasks : list CronTask) : t * outcome exn unit :=
  write s (Tasks ((fun x => Some (to_dict x)) <$> filter (fun x => durable x = true) tasks)).

Definition with_session (s : t) (d : list (string * CronTask)) : t :=
  mk (disk s) (tick s) d (write_fails s).

Definition add (s : t) (task : CronTask) : t * outcome exn CronTask :=
  if durable task then
    match load s with
    | Ok tasks =>
        let (s, saved) := save s (tasks ++ [task]) in
        (s, let? _ := saved in Ok task)
    | Raise e => (s, Raise e)
    end
  else (with_session s (Dict.set (id task) task (_session s)), Ok task).

(** The session store first: every id of the set is popped. *)
Fixpoint pop_session (ids : list string) (d : list (string * CronTask)) (removed : Z) :
    list (string * CronTask) * Z :=
  match ids with
  | [] => (d, removed)
  | i :: ids =>
      if Dict.mem i d then pop_session ids (Dict.pop i d) (removed + 1)
      else pop_session ids d removed
  end.

Definition remove (s : t) (ids : list string) : t * outcome exn Z :=
  let id_set := remove_dups ids in
  if bool_decide (id_set = []) then (s, Ok 0)
  else
    let '(session, removed) := pop_session id_set (_session s) 0 in
    let s := with_session s session in
    match load s with
    | Raise e => (s, Raise e)
    | Ok tasks =>
        let remaining := filter (fun x => id x ∉ id_set) tasks in
        if (length remaining =? length tasks)%nat then (s, Ok removed)
        else
          let (s, saved) := save s remaining in
          (s, let? _ := saved in Ok (removed + Z.of_nat (length tasks - length remaining)))
    end.

Definition session_tasks (s : t) : list CronTask := Dict.values (_session s).

Definition list_tasks (s : t) : outcome exn (list CronTask) :=
  let? tasks := load s in Ok (tasks ++ session_tasks s).

Definition get (s : t) (task_id : string) : outcome exn (option CronTask) :=
  let? tasks := list_tasks s in Ok (List.find (fun x => bool_decide (id x = task_id)) tasks).

(** ** What the store keeps *)

Lemma with_durable_id t : durable t = true -> with_durable t = t.
Proof. destruct t. simpl. by intros ->. Qed.

(** What a write does: it fails and leaves the file, or the durable tasks are there. *)
Lemma save_cases s tasks s' o :
  save s tasks = (s', o) ->
  _session s' = _session s /\ write_fails s' = write_fails s /\ tick s' = tick s + 1 /\
  (o = Raise OSError /\ disk s' = disk s /\ write_fails s (tick s) = true \/
   o = Ok tt /\ mtime s' = Some (tick s) /\ write_fails s (tick s) = false /\
   load s' = Ok (filter (fun x => durable x = true) tasks)).
Proof.
  unfold save, write. destruct (write_fails s (tick s)); intros [= <- <-]; split_and!; try done; [by left|].
  right. split_and!; try done. unfold load. cbn [disk]. induction tasks as [|x tasks IH]; [done|].
  rewrite filter_cons. destruct (decide (durable x = true)) as [Hd|]; [|done].
  cbn [fmap list_fmap load_entries]. rewrite from_to_dict, IH. cbn [outcome_bind].
  by rewrite !with_durable_id.
Qed.

Lemma load_entries_durable es ts : load_entries es = Ok ts -> Forall (fun x => durable x = true) ts.
Proof.
  revert ts. induction es as [|[e|] es IH]; intros ts; simpl; [by intros [= <-]|  |apply IH].
  destruct (from_dict e) as [x|[]]; try done; try apply IH.
  rewrite outcome_bind_ok. intros (ts' & H & [= <-]). constructor; [done|by apply IH].
Qed.

(** What is loaded is durable, so saving it back loses nothing. *)
Lemma load_durable s ts : load s = Ok ts -> Forall (fun x => durable x = true) ts.
Proof.
  unfold load. destruct (disk s) as [[m []]|]; try done; try by intros [= <-].
  apply load_entries_durable.
Qed.

Lemma load_save_durable s ts s' :
  Forall (fun x => durable x = true) ts -> save s ts = (s', Ok tt) ->
  load s' = Ok ts /\ mtime s' = Some (tick s).
Proof.
  intros H (_ & _ & _ & [(? & _)|(_ & ? & _ & Hl)])%save_cases; [done|]. by rewrite Hl, filter_all.
Qed.

Definition keep (ids : list string) (d : list (string * CronTask)) : list (string * CronTask) :=
  filter (fun kv => kv.1 ∉ ids) d.

Lemma pop_keep i d : Dict.pop i d = keep [i] d.
Proof.
  unfold keep. induction d as [|[k x] d IH]; [done|]. cbn [Dict.pop]. rewrite filter_cons. simpl.
  rewrite IH. destruct (decide (i = k)) as [->|Hn].
  - rewrite decide_False; [done|]. intros H. apply H. by left.
  - rewrite decide_True; [done|]. by intros ?%list_elem_of_singleton.
Qed.

Lemma keep_cons i ids d : keep ids (keep [i] d) = keep (i :: ids) d.
Proof.
  unfold keep. rewrite list_filter_filter. apply list_filter_iff. intros [k x].
  simpl. set_solver.
Qed.

Lemma keep_length ids d : (length (keep ids d) <= length d)%nat.
Proof. apply length_filter. Qed.

Lemma pop_length_mem i d :
  NoDup (Dict.keys d) -> Dict.mem i d = true -> length d = S (length (keep [i] d)).
Proof.
  unfold Dict.mem. rewrite <- pop_keep. induction d as [|[k x] d IH]; [done|].
  cbn [Dict.get Dict.pop]. intros [Hk Hd]%NoDup_cons.
  destruct (decide (i = k)) as [->|Hn]; [|simpl; intros; by rewrite <- IH].
  intros _. rewrite Dict.pop_notin by done. done.
Qed.

Lemma keep_notin i d : Dict.mem i d = false -> keep [i] d = d.
Proof.
  unfold Dict.mem. intros H. rewrite <- pop_keep. apply Dict.pop_notin, Dict.get_None_keys.
  by destruct (Dict.get i d).
Qed.

Lemma NoDup_keys_keep ids d : NoDup (Dict.keys d) -> NoDup (Dict.keys (keep ids d)).
Proof.
  unfold keep. induction d as [|[k x] d IH]; [done|]. intros [Hk Hd]%NoDup_cons.
  rewrite filter_cons. case_decide; [|by apply IH]. simpl. apply NoDup_cons. split; [|by apply IH].
  intros Hin. apply Hk. apply list_elem_of_fmap in Hin as ([k' y] & -> & Hin).
  apply list_elem_of_filter in Hin as [_ Hin]. apply list_elem_of_fmap. by exists (k', y).
Qed.

Lemma pop_session_exact ids d n :
  NoDup (Dict.keys d) ->
  pop_session ids d n = (keep ids d, n + Z.of_nat (length d - length (keep ids d))).
Proof.
  revert d n. induction ids as [|i ids IH]; intros d n Hd; simpl.
  - unfold keep. rewrite (filter_all _ d); [f_equal; lia|]. apply Forall_forall.
    intros kv _. apply not_elem_of_nil.
  - rewrite <- (keep_cons i ids d). destruct (Dict.mem i d) eqn:Hm.
    + rewrite pop_keep, IH by (by apply NoDup_keys_keep). f_equal.
      pose proof (pop_length_mem i d Hd Hm). pose proof (keep_length ids (keep [i] d)). lia.
    + rewrite keep_notin by done. by apply IH.
Qed.

(** The tasks not named in [ids]. *)
Definition without (ids : list string) (ts : list CronTask) : list CronTask :=
  filter (fun x => id x ∉ ids) ts.

Lemma without_dups ids ts : without (remove_dups ids) ts = without ids ts.
Proof. apply list_filter_iff. intros x. by rewrite elem_of_remove_dups. Qed.

Lemma keep_dups ids d : keep (remove_dups ids) d = keep ids d.
Proof. apply list_filter_iff. intros x. by rewrite elem_of_remove_dups. Qed.

Lemma without_all ids ts : length (without ids ts) = length ts -> without ids ts = ts.
Proof.
  unfold without. induction ts as [|x ts IH]; [done|]. rewrite filter_cons.
  case_decide; simpl; [intros [= H']; by rewrite IH|].
  pose proof (length_filter (fun x => id x ∉ ids) ts). lia.
Qed.

Lemma without_nil ts : without [] ts = ts.
Proof. apply filter_all, Forall_forall. intros x _. apply not_elem_of_nil. Qed.

Lemma without_durable s ids ts :
  load s = Ok ts -> Forall (fun x => durable x = true) (without ids ts).
Proof.
  intros Hl%load_durable. rewrite Forall_forall in Hl |- *. intros x [_ Hx]%list_elem_of_filter. by apply Hl.
Qed.

(** [remove], when the file can be read: the session's tasks are gone; the file is written
    only when it loses a task, and keeps it when the write fails. *)
Lemma remove_cases s ids ts :
  load s = Ok ts -> NoDup (Dict.keys (_session s)) ->
  exists s' o, remove s ids = (s', o)
    /\ _session s' = keep ids (_session s) /\ write_fails s' = write_fails s
    /\ (let n := Z.of_nat (length ts - length (without ids ts))
                 + Z.of_nat (length (_session s) - length (keep ids (_session s))) in
        if decide (without ids ts = ts) then o = Ok n /\ disk s' = disk s /\ tick s' = tick s
        else tick s' = tick s + 1 /\
          if write_fails s (tick s) then o = Raise OSError /\ disk s' = disk s
          else o = Ok n /\ mtime s' = Some (tick s) /\ load s' = Ok (without ids ts)).
Proof.
  intros Hl Hd. unfold remove. destruct (bool_decide_reflect (remove_dups ids = [])) as [He|Hne].
  { assert (ids = []) as ->.
    { destruct ids as [|i ids]; [done|]. exfalso. apply (not_elem_of_nil i). rewrite <- He.
      apply elem_of_remove_dups. by left. }
    exists s, (Ok 0). unfold keep. rewrite without_nil, decide_True by done. rewrite filter_all.
    2:{ apply Forall_forall. intros kv _. apply not_elem_of_nil. }
    rewrite !Nat.sub_diag. done. }
  rewrite pop_session_exact by done. cbn zeta iota beta.
  replace (load (with_session s (keep (remove_dups ids) (_session s)))) with (load s) by done.
  rewrite Hl, keep_dups. fold (without (remove_dups ids) ts). rewrite without_dups.
  destruct (Nat.eqb_spec (length (without ids ts)) (length ts)) as [Hlen|Hlen].
  - apply without_all in Hlen as Heq. eexists _, _. split; [reflexivity|].
    rewrite Heq, decide_True by done. split_and!; [done|done| |done|done]. f_equal. lia.
  - destruct (save (with_session s (keep ids (_session s))) (without ids ts)) as [s' o] eqn:Es.
    pose proof (load_save_durable (with_session s (keep ids (_session s))) _ s' (without_durable s ids ts Hl))
      as Hload.
    pose proof (save_cases _ _ _ _ Es) as (E1 & E2 & E3 & E4). cbn [with_session _session write_fails tick disk] in *.
    eexists _, _. split; [reflexivity|]. rewrite decide_False by congruence. split_and!; [done|done|done|].
    destruct E4 as [(-> & Hdisk & ->)|(-> & Hm & -> & _)]; [by split|].
    destruct (Hload Es) as [? ?]. split_and!; [cbn; f_equal; lia|done|done].
Qed.

(** A removal that returns has removed. *)
Lemma remove_returns s ids ts n :
  load s = Ok ts -> NoDup (Dict.keys (_session s)) -> snd (remove s ids) = Ok n ->
  load (fst (remove s ids)) = Ok (without ids ts).
Proof.
  intros Hl Hd. destruct (remove_cases s ids ts Hl Hd) as (s' & o & -> & _ & _ & H). cbn [fst snd]. intros ->.
  destruct (decide (without ids ts = ts)) as [->|].
  - destruct H as (_ & H & _). unfold load in *. by rewrite H.
  - destruct H as [_ H]. by destruct (write_fails s (tick s)); destruct H as (? & ?); [|destruct H0].
Qed.

(** [remove], when the file can be read and no write fails. *)
Lemma remove_exact s ids ts :
  load s = Ok ts -> NoDup (Dict.keys (_session s)) -> (forall m, write_fails s m = false) ->
  exists s', remove s ids = (s', Ok (Z.of_nat (length ts - length (without ids ts))
                                    + Z.of_nat (length (_session s) - length (keep ids (_session s)))))
    /\ load s' = Ok (without ids ts)
    /\ _session s' = keep ids (_session s) /\ write_fails s' = write_fails s
    /\ (if decide (without ids ts = ts) then disk s' = disk s /\ tick s' = tick s
        else mtime s' = Some (tick s) /\ tick s' = tick s + 1).
Proof.
  intros Hl Hd Hf. pose proof (remove_returns s ids ts) as Hr.
  destruct (remove_cases s ids ts Hl Hd) as (s' & o & E & Hs & Hw & H). rewrite E in Hr. cbn [fst snd] in Hr.
  rewrite Hf in H. cbv zeta in H.
  destruct (decide (without ids ts = ts)) as [Heq|Hne].
  - destruct H as (-> & H1 & H2). exists s'. split_and!; [done|by eapply Hr|done..].
  - destruct H as (H1 & -> & H2 & H3). exists s'. by split_and!.
Qed.

(** The store keeps what it is given, when its next write does not fail. A durable task is in
    the file afterwards, behind what could be loaded before; a session task is in memory
    under its id, and the file is not touched; removing ids leaves exactly the tasks with
    other ids, counts what it took out of both, and writes the file only when it took
    something out of it. *)
Theorem cron_store_exact s ts x ids :
  load s = Ok ts -> NoDup (Dict.keys (_session s)) -> write_fails s (tick s) = false ->
  (exists s', add s x = (s', Ok x)
     /\ if durable x then load s' = Ok (ts ++ [x]) /\ _session s' = _session s
                          /\ mtime s' = Some (tick s)
        else disk s' = disk s /\ _session s' = Dict.set (id x) x (_session s))
  /\ exists s' n, remove s ids = (s', Ok n)
     /\ load s' = Ok (without ids ts) /\ _session s' = keep ids (_session s)
     /\ n = Z.of_nat (length ts - length (without ids ts))
            + Z.of_nat (length (_session s) - length (keep ids (_session s)))
     /\ (without ids ts = ts -> disk s' = disk s)
     /\ (without ids ts <> ts -> mtime s' = Some (tick s)).
Proof.
  intros Hl Hd Hf. split.
  - unfold add. destruct (durable x) eqn:Hx; [|eexists; by split].
    rewrite Hl. destruct (save s (ts ++ [x])) as [s' o] eqn:Es.
    assert (Forall (fun x => durable x = true) (ts ++ [x])) as Hdur.
    { apply Forall_app. split; [by eapply load_durable|by constructor]. }
    pose proof (save_cases _ _ _ _ Es) as (E1 & _ & _ & [(_ & _ & ?)|(-> & _)]); [congruence|].
    destruct (load_save_durable _ _ _ Hdur Es). eexists. by split.
  - pose proof (remove_returns s ids ts) as Hr.
    destruct (remove_cases s ids ts Hl Hd) as (s' & o & E & Hs & _ & H). rewrite E in Hr. cbn [fst snd] in Hr.
    rewrite Hf in H. cbv zeta in H. destruct (decide (without ids ts = ts)) as [Heq|Hne].
    + destruct H as (-> & H1 & H2). eexists s', _. split_and!; [exact E|by eapply Hr|done..].
    + destruct H as (H1 & -> & H2 & H3). eexists s', _. by split_and!.
Qed.

(** When the write fails, the session's tasks are gone and the durable ones are not. *)
Lemma remove_failed s ids ts :
  load s = Ok ts -> NoDup (Dict.keys (_session s)) -> without ids ts <> ts ->
  write_fails s (tick s) = true ->
  snd (remove s ids) = Raise OSError /\ load (fst (remove s ids)) = Ok ts
  /\ _session (fst (remove s ids)) = keep ids (_session s).
Proof.
  intros Hl Hd Hne Hf. destruct (remove_cases s ids ts Hl Hd) as (s' & o & -> & Hs & _ & H).
  rewrite Hf in H. cbv zeta in H. rewrite decide_False in H by done. destruct H as (_ & -> & H). cbn [fst snd].
  split_and!; [done| |done]. unfold load in *. by rewrite H.
Qed.

(** One entry whose creation time is [Infinity], or [1e400], makes the whole file unreadable:
    [OverflowError] is not among the errors that skip an entry. *)
Lemma infinite_entry_blocks_file s m e ts :
  e_id e = Some "x" -> e_cron e = Some "" -> e_prompt e = Some "" ->
  e_created_at e = Some (JInfinity false) ->
  load (mk (Some (m, Tasks (Some e :: ts))) 0 s reliable) = Raise OverflowError.
Proof. intros H1 H2 H3 H4. unfold load. cbn. unfold from_dict. by rewrite H1, H2, H3, H4. Qed.

Definition task1 : CronTask := mkTask "a1" "0 9 * * *" "report" 0 None true false true None None.
Definition task2 : CronTask := mkTask "b2" "5 * * * *" "ping" 10 None false false false None None.

Lemma cron_store_exact_witness :
  exists s', remove (mk (Some (0, Tasks [Some (to_dict task1); None])) 1 [("b2", task2)] reliable)
               ["a1"; "b2"; "zz"] = (s', Ok 2)
    /\ load s' = Ok [] /\ _session s' = [].
Proof.
  destruct (cron_store_exact (mk (Some (0, Tasks [Some (to_dict task1); None])) 1 [("b2", task2)] reliable)
              [task1] task2 ["a1"; "b2"; "zz"]) as [_ (s' & n & Hr & Hl & Hs & -> & _)];
    [reflexivity|simpl; apply NoDup_singleton|reflexivity|].
  exists s'. exact (conj Hr (conj Hl Hs)).
Defined.

(** ** Admission of new tasks ([service.py]) *)

Definition MAX_CRON_TASKS : Z := 50.
Definition _MAX_HORIZON_MS : Z := 366 * 24 * 60 * 60 * 1000.

Section Service.
Context (zone : Cron.Zone).

Definition validate_new_task (cron : string) (existing_count now : Z) : outcome exn unit :=
  let? fields := of_cron (Cron.parse_cron_expression cron) in
  match fields with
  | None => Raise ValueError
  | Some _ =>
      let? nxt := of_cron (Cron._next_cron_run_ms zone cron now) in
      match nxt with
      | None => Raise ValueError
      | Some nxt =>
          if _MAX_HORIZON_MS <? nxt - now then Raise ValueError
          else if MAX_CRON_TASKS <=? existing_count then Raise ValueError
          else Ok tt
      end
  end.

Definition create_task (s : t) (cron prompt target fresh_id : string) (now : Z)
    (recurring durable : bool) (agent_id : option string) : t * outcome exn CronTask :=
  match list_tasks s with
  | Raise e => (s, Raise e)
  | Ok existing =>
      match validate_new_task cron (Z.of_nat (length existing)) now with
      | Raise e => (s, Raise e)
      | Ok _ => add s (new fresh_id cron prompt now recurring false durable agent_id (Some target))
      end
  end.

(** A task is created exactly when the file can be read, its expression parses and has
    a next run within the horizon, fewer than 50 tasks exist, and the write of a durable one
    does not fail; a refusal changes nothing, and a failed write leaves the tasks as they
    were. A created task is listed with what was there, so the cap holds afterwards. *)
Theorem create_task_exact s cron prompt target fresh_id now recurring durable agent_id :
  Dict.get fresh_id (_session s) = None ->
  let '(s', o) := create_task s cron prompt target fresh_id now recurring durable agent_id in
  let admissible ts :=
    list_tasks s = Ok ts /\ Z.of_nat (length ts) < MAX_CRON_TASKS
    /\ exists f nxt, of_cron (Cron.parse_cron_expression cron) = Ok (Some f)
         /\ of_cron (Cron._next_cron_run_ms zone cron now) = Ok (Some nxt)
         /\ nxt - now <= _MAX_HORIZON_MS in
  match o with
  | Ok x =>
      exists ts, admissible ts
        /\ x = new fresh_id cron prompt now recurring false durable agent_id (Some target)
        /\ exists ts', list_tasks s' = Ok ts' /\ ts' ≡ₚ x :: ts
             /\ Z.of_nat (length ts') <= MAX_CRON_TASKS
  | Raise e =>
      s' = s /\ (~ exists ts, admissible ts)
      \/ e = OSError /\ durable = true /\ write_fails s (tick s) = true /\ list_tasks s' = list_tasks s
  end.
Proof.
  intros Hf. unfold create_task. destruct (list_tasks s) as [ts|e] eqn:Hl.
  2:{ left. split; [done|]. by intros (ts & ? & _). }
  unfold validate_new_task. destruct (of_cron (Cron.parse_cron_expression cron)) as [[f|]|e] eqn:Hp;
    cbn [outcome_bind]; [|left; split; [done|]; by intros (? & _ & _ & f & nxt & ? & _)..].
  destruct (of_cron (Cron._next_cron_run_ms zone cron now)) as [[nxt|]|e] eqn:Hn;
    cbn [outcome_bind]; [|left; split; [done|]; by intros (? & _ & _ & f' & nxt & _ & ? & _)..].
  destruct (Z.ltb_spec _MAX_HORIZON_MS (nxt - now)) as [Hh|Hh].
  { left. split; [done|]. intros (? & _ & _ & f' & nxt' & _ & [= <-] & ?). lia. }
  destruct (Z.leb_spec MAX_CRON_TASKS (Z.of_nat (length ts))) as [Hc|Hc].
  { left. split; [done|]. intros (? & [= <-] & ? & _). lia. }
  apply outcome_bind_ok in Hl as (ls & Hls & [= <-]). unfold add.
  set (x := new _ _ _ _ _ _ _ _ _). replace (CronStore.durable x) with durable by done.
  assert (forall ts', ts' ≡ₚ x :: ls ++ session_tasks s -> Z.of_nat (length ts') <= MAX_CRON_TASKS) as Hlen.
  { intros ts' Hts. apply Permutation_length in Hts. simpl in Hts. lia. }
  destruct durable eqn:Hd.
  - rewrite Hls. destruct (save s (ls ++ [x])) as [s1 o1] eqn:Es.
    pose proof (save_cases _ _ _ _ Es) as (E1 & _ & _ & E4).
    destruct E4 as [(-> & E4 & E5)|(-> & _)]; cbn [outcome_bind].
    { right. split_and!; [done..|]. unfold list_tasks, load, session_tasks. rewrite E1, E4. unfold load in Hls. by rewrite Hls. }
    exists (ls ++ session_tasks s). split; [split_and!; [done|lia|eauto 10]|].
    split; [done|]. exists ((ls ++ [x]) ++ session_tasks s).
    assert ((ls ++ [x]) ++ session_tasks s ≡ₚ x :: ls ++ session_tasks s) as Hperm
      by (rewrite <- app_assoc; symmetry; apply Permutation_middle).
    split_and!; [|done|by apply Hlen]. unfold list_tasks, session_tasks. rewrite E1.
    destruct (load_save_durable s (ls ++ [x]) s1) as [-> _]; [|done..].
    apply Forall_app. split; [by eapply load_durable|by constructor].
  - exists (ls ++ session_tasks s). split; [split_and!; [done|lia|eauto 10]|]. split; [done|].
    exists (ls ++ session_tasks s ++ [x]).
    assert (ls ++ session_tasks s ++ [x] ≡ₚ x :: ls ++ session_tasks s) as Hperm
      by (by rewrite app_assoc, <- Permutation_cons_append).
    split_and!; [|done|by apply Hlen]. unfold list_tasks, session_tasks.
    replace (load (with_session s _)) with (load s) by done. rewrite Hls. cbn [outcome_bind _session with_session].
    rewrite Dict.keys_set_new by (by apply Dict.get_None_keys). unfold Dict.values. by rewrite fmap_app.
Qed.

End Service.

Lemma create_task_exact_witness :
  exists s' x ts', create_task Cron.utc (init reliable None 0) "0 * * * *" "report" "s1" "a1" 0 true true None
                   = (s', Ok x)
    /\ list_tasks s' = Ok ts' /\ ts' = [x] /\ cron x = "0 * * * *".
Proof.
  pose proof (create_task_exact Cron.utc (init reliable None 0) "0 * * * *" "report" "s1" "a1" 0 true true
                None eq_refl) as H.
  destruct (create_task Cron.utc (init reliable None 0) "0 * * * *" "report" "s1" "a1" 0 true true None)
    as [s' o] eqn:E.
  destruct o as [x|e]; [|vm_compute in E; discriminate].
  destruct H as (ts & [[= <-] _] & -> & ts' & Hl & Hp & _).
  exists s', (new "a1" "0 * * * *" "report" 0 true false true None (Some "s1")), ts'.
  split_and!; [done|done| |done]. by apply Permutation_singleton_r.
Defined.

End CronStore.
