(* ===== verification/CronLock.v ===== *)
(** * The lock of the scheduler

    [orchestration/automation/cron/lock.py]: [SchedulerLock], a file created exclusively that
    names the session and process that drive the durable schedule. Its operations are
    modelled as whole calls, and [acquire] also as the file operations it makes, whose
    interleaving with those of another session is where exclusion can be lost. *)

From S2P Require Import Prelude.
From Stdlib Require Import String.
From stdpp Require Import base list strings.

Open Scope string_scope.
Open Scope list_scope.
Open Scope mote_scope.
Open Scope Z_scope.

Module SchedulerLock.

(** What the lock file holds: a body, or text that is not one, as while it is empty. *)
Inductive body := Torn | Body (session : string) (pid : Z).

#[export] Instance body_eq_dec : EqDecision body.
Proof. solve_decision. Defined.

(** The file with the identity of its inode: a descriptor writes to the inode it opened,
    also after its name was given to another file. *)
Record fs := mkFs { file : option (nat * body); next_inode : nat }.

Record t := mk { session_id : string; pid : Z; _held : bool }.

Definition init (session_id : string) (pid : Z) : t := mk session_id pid false.

Definition with_held (l : t) (h : bool) : t := mk (session_id l) (pid l) h.

Definition _body (l : t) : body := Body (session_id l) (pid l).

Definition _read (f : fs) : option (string * Z) :=
  match file f with
  | Some (_, Body s p) => Some (s, p)
  | _ => None
  end.

(** [os.open(..., O_CREAT | O_EXCL | O_WRONLY)]: the new file is empty. *)
Definition create (f : fs) : option (nat * fs) :=
  match file f with
  | Some _ => None
  | None => Some (next_inode f, mkFs (Some (next_inode f, Torn)) (S (next_inode f)))
  end.

(** [os.write(fd, ...)]. *)
Definition write_fd (inode : nat) (b : body) (f : fs) : fs :=
  match file f with
  | Some (i, _) => if (i =? inode)%nat then mkFs (Some (i, b)) (next_inode f) else f
  | None => f
  end.

(** [Path.write_text]: into the file there, or a new one. *)
Definition write_text (b : body) (f : fs) : fs :=
  match file f with
  | Some (i, _) => mkFs (Some (i, b)) (next_inode f)
  | None => mkFs (Some (next_inode f, b)) (S (next_inode f))
  end.

Definition unlink (f : fs) : fs := mkFs None (next_inode f).

Definition _try_create_exclusive (l : t) (f : fs) : fs * bool :=
  match create f with
  | Some (inode, f) => (write_fd inode (_body l) f, true)
  | None => (f, false)
  end.

(** [_process_running], with the kernel's answer as an argument. *)
Definition _process_running (running : Z -> bool) (pid : Z) : bool :=
  if pid <=? 0 then false else running pid.

Section Calls.
Context (running : Z -> bool).

Definition acquire (l : t) (f : fs) : t * fs * bool :=
  let '(f, created) := _try_create_exclusive l f in
  if created then (with_held l true, f, true)
  else
    let existing := _read f in
    let recover :=
      let '(f, created) := _try_create_exclusive l (unlink f) in
      (if created then with_held l true else l, f, created) in
    match existing with
    | Some (s, p) =>
        if bool_decide (s = session_id l) then
          (with_held l true, if p =? pid l then f else write_text (_body l) f, true)
        else if _process_running running p then (l, f, false)
        else recover
    | None => recover
    end.

Definition refresh (l : t) (f : fs) : fs := if _held l then write_text (_body l) f else f.

Definition release (l : t) (f : fs) : t * fs :=
  if negb (_held l) then (l, f)
  else
    let l := with_held l false in
    match _read f with
    | Some (s, _) => if negb (bool_decide (s = session_id l)) then (l, f) else (l, unlink f)
    | None => (l, unlink f)
    end.

(** ** [acquire] as the file operations it makes *)

Inductive pc :=
| Try
| Write (inode : nat)
| Look
| Judge (existing : option (string * Z))
| Unlink
| TryAgain
| Won
| Blocked.

Definition acquire_step (l : t) (at_ : pc) (f : fs) : pc * fs :=
  match at_ with
  | Try => match create f with Some (i, f) => (Write i, f) | None => (Look, f) end
  | Write i => (Won, write_fd i (_body l) f)
  | Look => (Judge (_read f), f)
  | Judge (Some (s, p)) =>
      if bool_decide (s = session_id l) then
        (Won, if p =? pid l then f else write_text (_body l) f)
      else if _process_running running p then (Blocked, f) else (Unlink, f)
  | Judge None => (Unlink, f)
  | Unlink => (TryAgain, unlink f)
  | TryAgain => match create f with Some (i, f) => (Write i, f) | None => (Blocked, f) end
  | Won => (Won, f)
  | Blocked => (Blocked, f)
  end.

Fixpoint acquire_steps (n : nat) (l : t) (at_ : pc) (f : fs) : pc * fs :=
  match n with
  | O => (at_, f)
  | S n => let '(at_, f) := acquire_step l at_ f in acquire_steps n l at_ f
  end.

(** Undisturbed, the operations are the call: six are enough. *)
Lemma acquire_steps_exact l f n :
  let '(l', f', o) := acquire l f in
  acquire_steps (6 + n) l Try f = (if o then Won else Blocked, f') /\ l' = (if o then with_held l true else l).
Proof.
  assert (forall m f, acquire_steps m l Won f = (Won, f)) as Hw by (induction m; simpl; auto).
  assert (forall m f, acquire_steps m l Blocked f = (Blocked, f)) as Hb by (induction m; simpl; auto).
  unfold acquire, _try_create_exclusive, unlink, create. cbn [Nat.add].
  destruct f as [[[i [|s p]]|] j]; cbn [file next_inode _read].
  - cbn. rewrite Nat.eqb_refl. by rewrite Hw.
  - cbn [acquire_steps acquire_step create file _read].
    destruct (bool_decide (s = session_id l)) eqn:Hs; [cbn; by rewrite Hw|].
    destruct (_process_running running p); [cbn; by rewrite Hb|].
    cbn. rewrite Nat.eqb_refl. by rewrite Hw.
  - cbn. rewrite Nat.eqb_refl. by rewrite Hw.
Qed.

(** When the call wins. *)
Lemma acquire_wins l f :
  let '(l', f', o) := acquire l f in
  o = match file f with
      | Some (_, Body s p) => bool_decide (s = session_id l) || negb (_process_running running p)
      | _ => true
      end
  /\ (if o then _held l' = true /\ _read f' = Some (session_id l, pid l) else l' = l /\ f' = f)
  /\ session_id l' = session_id l /\ pid l' = pid l.
Proof.
  unfold acquire, _try_create_exclusive, create, unlink, _read, write_text.
  destruct f as [[[i [|s p]]|] j]; cbn; rewrite ?Nat.eqb_refl; try done.
  destruct (bool_decide_reflect (s = session_id l)) as [->|Hs]; cbn.
  - destruct (Z.eqb_spec p (pid l)) as [->|]; done.
  - destruct (_process_running running p); cbn; rewrite ?Nat.eqb_refl; done.
Qed.

End Calls.

(** ** Sessions that share the file, one whole call at a time *)

Record process := mkProcess { lock : t; alive : bool }.

Record world := mkWorld { disk : fs; processes : list process }.

Definition running (w : world) (p : Z) : bool :=
  existsb (fun q => alive q && (pid (lock q) =? p)) (processes w).

Inductive event := Acquire | Refresh | Release | Crash.

Definition apply_event (w : world) (i : nat) (e : event) : world :=
  match processes w !! i with
  | Some (mkProcess l true) =>
      let set l alive d := mkWorld d (<[i := mkProcess l alive]> (processes w)) in
      match e with
      | Acquire => let '(l, d, _) := acquire (running w) l (disk w) in set l true d
      | Refresh => set l true (refresh l (disk w))
      | Release => let '(l, d) := release l (disk w) in set l true d
      | Crash => set l false (disk w)
      end
  | _ => w
  end.

Definition history (w : world) (es : list (nat * event)) : world :=
  foldl (fun w '(i, e) => apply_event w i e) w es.

Definition identities (w : world) : list (string * Z) :=
  (fun q => (session_id (lock q), pid (lock q))) <$> processes w.

(** Sessions are distinct, and process ids are those of real processes. *)
Definition distinct (ids : list (string * Z)) : Prop :=
  NoDup ids.*1 /\ Forall (fun '(_, p) => 0 < p) ids.

(** A live session that holds the lock is the one the file names. *)
Definition Inv (w : world) : Prop :=
  distinct (identities w) /\
  forall q, q ∈ processes w -> alive q = true -> _held (lock q) = true ->
    _read (disk w) = Some (session_id (lock q), pid (lock q)).

Lemma identities_set w i l l' a d :
  processes w !! i = Some (mkProcess l true) -> session_id l' = session_id l -> pid l' = pid l ->
  identities (mkWorld d (<[i := mkProcess l' a]> (processes w))) = identities w.
Proof.
  intros Hi Hs Hp. unfold identities. cbn [processes]. rewrite list_fmap_insert. apply list_insert_id.
  rewrite list_lookup_fmap, Hi. simpl. by rewrite Hs, Hp.
Qed.

Lemma same_session w i j q r :
  distinct (identities w) -> processes w !! i = Some q -> processes w !! j = Some r ->
  session_id (lock q) = session_id (lock r) -> i = j.
Proof.
  intros [Hd _] Hi Hj He. eapply (NoDup_lookup _ i j (session_id (lock q)) Hd); unfold identities;
    rewrite !list_lookup_fmap, ?Hi, ?Hj; simpl; congruence.
Qed.

Lemma running_alive w q : q ∈ processes w -> alive q = true -> running w (pid (lock q)) = true.
Proof.
  intros Hq Ha. apply existsb_exists. exists q. split; [by apply list_elem_of_In|].
  by rewrite Ha, Z.eqb_refl.
Qed.

(** A change of process [i] keeps the invariant when it leaves the file to the other live
    holders and tells the truth about [i] itself. *)
Lemma inv_set w i l l' a d :
  Inv w -> processes w !! i = Some (mkProcess l true) ->
  session_id l' = session_id l -> pid l' = pid l ->
  (a = true -> _held l' = true -> _read d = Some (session_id l, pid l)) ->
  (forall j q, j <> i -> processes w !! j = Some q -> alive q = true -> _held (lock q) = true ->
     _read d = Some (session_id (lock q), pid (lock q))) ->
  Inv (mkWorld d (<[i := mkProcess l' a]> (processes w))).
Proof.
  intros [Hd Hh] Hi Hs Hp Hme Hothers. split; [by rewrite (identities_set w i l)|].
  cbn [processes disk]. intros q [j Hj]%list_elem_of_lookup Ha Hq.
  destruct (decide (i = j)) as [<-|Hne].
  - rewrite list_lookup_insert_eq in Hj by (by eapply lookup_lt_Some). injection Hj as <-.
    simpl in *. rewrite Hs, Hp. by apply Hme.
  - rewrite list_lookup_insert_ne in Hj by done. by eapply Hothers.
Qed.

(** While another live session holds the lock, the file names it and no call of process [i]
    can take it away. *)
Lemma apply_event_inv w i e : Inv w -> Inv (apply_event w i e).
Proof.
  intros HI. pose proof HI as [Hd Hh]. unfold apply_event.
  destruct (processes w !! i) as [[l []]|] eqn:Hi; [|done..].
  assert (forall j q, j <> i -> processes w !! j = Some q -> alive q = true ->
            _held (lock q) = true ->
            _read (disk w) = Some (session_id (lock q), pid (lock q))
            /\ session_id (lock q) <> session_id l
            /\ _process_running (running w) (pid (lock q)) = true) as Hother.
  { intros j q Hj Hq Ha Hheld. apply list_elem_of_lookup_2 in Hq as Hin. split_and!; [by apply Hh| |].
    - intros He. apply Hj. by eapply (same_session w j i q (mkProcess l true)).
    - unfold _process_running. destruct Hd as [_ Hpos]. rewrite Forall_forall in Hpos.
      assert (0 < pid (lock q)).
      { apply (Hpos (session_id (lock q), pid (lock q))), list_elem_of_fmap. by exists q. }
      destruct (Z.leb_spec (pid (lock q)) 0); [lia|]. by apply running_alive. }
  destruct e.
  - pose proof (acquire_wins (running w) l (disk w)) as H.
    destruct (acquire (running w) l (disk w)) as [[l' d] o]. destruct H as (Ho & Hr & Hs & Hp).
    apply (inv_set w i l); try done.
    + intros _ Hheld. destruct o; [tauto|]. destruct Hr as [-> ->].
      apply (Hh (mkProcess l true)); [by eapply list_elem_of_lookup_2|done|done].
    + intros j q Hj Hq Ha Hheld. destruct (Hother j q Hj Hq Ha Hheld) as (Hrd & Hne & Hrun).
      destruct o; [|by destruct Hr as [-> ->]]. exfalso. unfold _read in Hrd.
      destruct (file (disk w)) as [[? [|s p]]|]; [done| |done]. injection Hrd as -> ->.
      rewrite Hrun, bool_decide_false in Ho by done. done.
  - unfold refresh. apply (inv_set w i l); try done.
    + intros _ Hheld. rewrite Hheld. unfold _read, write_text. destruct (file (disk w)) as [[]|]; done.
    + intros j q Hj Hq Ha Hheld. destruct (Hother j q Hj Hq Ha Hheld) as (Hrd & Hne & _).
      destruct (_held l) eqn:Hl; [|done]. exfalso.
      assert (_read (disk w) = Some (session_id l, pid l)) as Hme.
      { apply (Hh (mkProcess l true)); [by eapply list_elem_of_lookup_2|done|done]. }
      congruence.
  - unfold release. destruct (_held l) eqn:Hl; cbn [negb].
    + assert (_read (disk w) = Some (session_id l, pid l)) as Hme.
      { apply (Hh (mkProcess l true)); [by eapply list_elem_of_lookup_2|done|done]. }
      rewrite Hme. cbn [with_held session_id]. rewrite bool_decide_true by done. cbn [negb].
      apply (inv_set w i l); try done. intros j q Hj Hq Ha Hheld.
      destruct (Hother j q Hj Hq Ha Hheld) as (Hrd & Hne & _). congruence.
    + apply (inv_set w i l); try done; [by rewrite Hl|].
      intros j q Hj Hq Ha Hheld. by apply (Hother j q).
  - apply (inv_set w i l); try done. intros j q Hj Hq Ha Hheld. by apply (Hother j q).
Qed.

Definition start (ids : list (string * Z)) (d : fs) : world :=
  mkWorld d ((fun '(s, p) => mkProcess (init s p) true) <$> ids).

Lemma start_inv ids d : distinct ids -> Inv (start ids d).
Proof.
  intros Hd. split.
  - unfold identities, start. cbn [processes]. rewrite <- list_fmap_compose.
    rewrite (list_fmap_ext _ id ids); [by rewrite list_fmap_id|]. intros i [] _; done.
  - intros q Hq _ Hh. unfold start in Hq. cbn [processes] in Hq.
    apply list_elem_of_fmap in Hq as ([s p] & -> & _). done.
Qed.

Lemma history_inv es w : Inv w -> Inv (history w es).
Proof.
  revert w. induction es as [|[i e] es IH]; intros w HI; simpl; [done|]. by apply IH, apply_event_inv.
Qed.

(** The lock excludes. Whatever file was left behind, and however sessions with distinct
    ids acquire, refresh, release and crash, one call at a time, at most one live session
    holds the lock, and the file names it; so a session that asks is refused exactly while
    the file names another live process, and takes over from a dead one. *)
Theorem lock_exclusion ids d es :
  distinct ids ->
  let w := history (start ids d) es in
  (forall i j q r, processes w !! i = Some q -> processes w !! j = Some r ->
     alive q = true -> alive r = true ->
     _held (lock q) = true -> _held (lock r) = true -> i = j)
  /\ (forall i q, processes w !! i = Some q -> alive q = true -> _held (lock q) = true ->
        _read (disk w) = Some (session_id (lock q), pid (lock q)))
  /\ forall l, snd (acquire (running w) l (disk w)) = false <->
       exists s p, _read (disk w) = Some (s, p) /\ s <> session_id l
                   /\ _process_running (running w) p = true.
Proof.
  intros Hd w. assert (Inv w) as [Hdist Hh] by (by apply history_inv, start_inv). split_and!.
  - intros i j q r Hi Hj Ha Hb Hq Hr. apply (same_session w i j q r); [done..|].
    pose proof (Hh q (list_elem_of_lookup_2 _ _ _ Hi) Ha Hq).
    pose proof (Hh r (list_elem_of_lookup_2 _ _ _ Hj) Hb Hr). congruence.
  - intros i q Hi Ha Hq. by apply Hh; [eapply list_elem_of_lookup_2| |].
  - intros l. pose proof (acquire_wins (running w) l (disk w)) as H.
    destruct (acquire (running w) l (disk w)) as [[l' f'] o]. destruct H as (-> & _). simpl.
    unfold _read. destruct (file (disk w)) as [[? [|s p]]|];
      [split; [done|by intros (? & ? & ? & _)]| |split; [done|by intros (? & ? & ? & _)]].
    rewrite orb_false_iff, bool_decide_eq_false, negb_false_iff. split; [eauto|].
    by intros (? & ? & [= <- <-] & ?).
Qed.

Lemma lock_exclusion_witness :
  let w := history (start [("a", 1); ("b", 2)] (mkFs None 0))
             [(0%nat, Acquire); (1%nat, Acquire); (0%nat, Crash); (1%nat, Acquire)] in
  _held (lock (nth 1 (processes w) (mkProcess (init "" 0) false))) = true
  /\ _read (disk w) = Some ("b", 2).
Proof.
  pose proof (lock_exclusion [("a", 1); ("b", 2)] (mkFs None 0)
    [(0%nat, Acquire); (1%nat, Acquire); (0%nat, Crash); (1%nat, Acquire)]) as H.
  destruct H as (_ & H & _).
  { split; [|repeat constructor]. apply (bool_decide_unpack _). vm_compute. exact I. }
  split; [reflexivity|]. apply (H 1%nat (mkProcess (mk "b" 2 true) true)); reflexivity.
Defined.

(** ** Interleaved calls

    Two sessions acquire at the same time, each operation in its own step. *)
Fixpoint interleave (run : Z -> bool) (l1 l2 : t) (schedule : list bool) (p1 p2 : pc) (f : fs) :
    pc * pc * fs :=
  match schedule with
  | [] => (p1, p2, f)
  | true :: s => let '(p1, f) := acquire_step run l1 p1 f in interleave run l1 l2 s p1 p2 f
  | false :: s => let '(p2, f) := acquire_step run l2 p2 f in interleave run l1 l2 s p1 p2 f
  end.

(** The exclusive create leaves the file empty until the body is written; a session that
    reads it then takes it for a corrupt lock and removes it. Both sessions win, with no
    lock left over from before and both processes alive. *)
Lemma lock_race :
  interleave (fun _ => true) (init "a" 1) (init "b" 2)
    [true; false; false; false; false; false; false; true] Try Try (mkFs None 0)
  = (Won, Won, mkFs (Some (1%nat, Body "b" 2)) 2).
Proof. reflexivity. Qed.

End SchedulerLock.
