(* ===== verification/CronScheduler.v ===== *)
(** * The scheduler of cron tasks

    [orchestration/automation/cron/scheduler.py]: the tick that fires the due tasks, the
    table of next fire times, the reload of the durable tasks when their file changed, the
    persistence of fire times, and the compensation of missed one-shot tasks at the start.
    The sink that receives fired tasks is an argument with a world of its own; the clock, the
    idle and kill switches and the jitter configuration are arguments of each tick. *)

From S2P Require Import Prelude Text Calendar Cron CronStore.
From Stdlib Require Import Ascii String.
From stdpp Require Import base list strings.
Import Cron CronStore.

Open Scope string_scope.
Open Scope list_scope.
Open Scope mote_scope.
Open Scope Z_scope.

Module CronScheduler.

Inductive exn {E : Type} := StoreError (e : CronStore.exn) | SinkError (e : E).
Arguments exn : clear implicits.

(** Next fire times; [None] is [math.inf]. *)
Notation due_time := (option Z).

Record t {W : Type} := mkSched {
  store : CronStore.t;
  sink : W;
  _next_fire_at : list (string * due_time);
  _missed_asked : list string;
  _durable : list CronTask;
  _last_mtime : option Z;
  _is_owner : bool
}.
Arguments t : clear implicits.
Arguments mkSched {W}.

Definition is_recurring_task_aged (task : CronTask) (now_ms max_age_ms : Z) : bool :=
  if max_age_ms =? 0 then false
  else recurring task && negb (permanent task) && (max_age_ms <=? now_ms - created_at task).

Section Scheduler.
Context (zone : Zone) (md5 : digest_head) {W E : Type}.
Context (on_fire : W -> CronTask -> W * outcome E unit).
Context (on_missed : option (W -> list CronTask -> W * outcome E unit)).
Context (task_filter : CronTask -> bool).

Notation state := (t W).

Definition init (st : CronStore.t) (w : W) : state := mkSched st w [] [] [] None false.

Definition with_store (s : state) (st : CronStore.t) : state :=
  mkSched st (sink s) (_next_fire_at s) (_missed_asked s) (_durable s) (_last_mtime s) (_is_owner s).
Definition with_sink (s : state) (w : W) : state :=
  mkSched (store s) w (_next_fire_at s) (_missed_asked s) (_durable s) (_last_mtime s) (_is_owner s).
Definition with_table (s : state) (d : list (string * due_time)) : state :=
  mkSched (store s) (sink s) d (_missed_asked s) (_durable s) (_last_mtime s) (_is_owner s).
Definition with_asked (s : state) (l : list string) : state :=
  mkSched (store s) (sink s) (_next_fire_at s) l (_durable s) (_last_mtime s) (_is_owner s).
Definition with_tasks (s : state) (l : list CronTask) : state :=
  mkSched (store s) (sink s) (_next_fire_at s) (_missed_asked s) l (_last_mtime s) (_is_owner s).
Definition with_mtime (s : state) (m : option Z) : state :=
  mkSched (store s) (sink s) (_next_fire_at s) (_missed_asked s) (_durable s) m (_is_owner s).
Definition with_owner (s : state) (b : bool) : state :=
  mkSched (store s) (sink s) (_next_fire_at s) (_missed_asked s) (_durable s) (_last_mtime s) b.

(** A step returns the state it leaves beside its outcome. *)
Notation action := (state * outcome (exn E) unit)%type.

Definition then_ (r : action) (k : state -> action) : action :=
  match r with
  | (s, Ok _) => k s
  | (s, Raise e) => (s, Raise e)
  end.

Definition next_fire_time (s : state) : option Z :=
  foldl (fun soonest v =>
           match soonest, v with
           | Some a, Some b => Some (if b <? a then b else a)
           | None, Some b => Some b
           | _, None => soonest
           end) None (Dict.values (_next_fire_at s)).

Definition _reload_durable (force : bool) (s : state) : action :=
  let m := mtime (store s) in
  if force || negb (bool_decide (m = _last_mtime s)) then
    let s := with_mtime s m in
    match load (store s) with
    | Ok ts => (with_tasks s ts, Ok tt)
    | Raise e => (s, Raise (StoreError e))
    end
  else (s, Ok tt).

(** ** The tick *)

(** [task.last_fired_at or task.created_at]. *)
Definition anchor (task : CronTask) : Z :=
  match last_fired_at task with
  | Some z => if z =? 0 then created_at task else z
  | None => created_at task
  end.

Definition first_fire (cfg : CronJitterConfig) (task : CronTask) : outcome CronStore.exn due_time :=
  of_cron (if recurring task
           then jittered_next_cron_run_ms zone md5 (cron task) (anchor task) (id task) cfg
           else one_shot_jittered_next_cron_run_ms zone md5 (cron task) (created_at task) (id task) cfg).

(** What a tick collects: the ids seen, and the durable recurring tasks that fired. *)
Record round := mkRound { sched : state; seen : list string; fired : list string }.

Definition on_sched (r : round) (f : state -> state) : round := mkRound (f (sched r)) (seen r) (fired r).

Section Tick.
Context (now : Z) (cfg : CronJitterConfig).

(** [process] after the next fire time is known: the task it was given comes back, with the
    field the tick assigns. *)
Definition fire (task : CronTask) (is_session : bool) (r : round) :
    round * CronTask * outcome (exn E) unit :=
  let '(w, sent) := on_fire (sink (sched r)) task in
  let r := on_sched r (fun s => with_sink s w) in
  match sent with
  | Raise e => (r, task, Raise (SinkError e))
  | Ok _ =>
      let aged := is_recurring_task_aged task now (recurring_max_age_ms cfg) in
      if recurring task && negb aged then
        match of_cron (jittered_next_cron_run_ms zone md5 (cron task) now (id task) cfg) with
        | Raise e => (r, task, Raise (StoreError e))
        | Ok new_next =>
            let r := on_sched r (fun s => with_table s (Dict.set (id task) new_next (_next_fire_at s))) in
            (mkRound (sched r) (seen r) (if is_session then fired r else fired r ++ [id task]),
             with_last_fired task now, Ok tt)
        end
      else
        let '(st, removed) := remove (store (sched r)) [id task] in
        let r := on_sched r (fun s => with_store s st) in
        match removed with
        | Raise e => (r, task, Raise (StoreError e))
        | Ok _ => (on_sched r (fun s => with_table s (Dict.pop (id task) (_next_fire_at s))), task, Ok tt)
        end
  end.

Definition process (task : CronTask) (is_session : bool) (r : round) :
    round * CronTask * outcome (exn E) unit :=
  if negb (task_filter task) then (r, task, Ok tt)
  else
    let r := mkRound (sched r) (id task :: seen r) (fired r) in
    let known :=
      match Dict.get (id task) (_next_fire_at (sched r)) with
      | Some next_fire => Ok (r, next_fire)
      | None =>
          let? computed := first_fire cfg task in
          Ok (on_sched r (fun s => with_table s (Dict.set (id task) computed (_next_fire_at s))), computed)
      end in
    match known with
    | Raise e => (r, task, Raise (StoreError e))
    | Ok (r, next_fire) =>
        match next_fire with
        | Some due => if now <? due then (r, task, Ok tt) else fire task is_session r
        | None => (r, task, Ok tt)
        end
    end.

(** The loop over the durable tasks, which are objects of the list: what a step assigns to
    its task stays in the list. *)
Fixpoint process_durable (tasks : list CronTask) (r : round) :
    round * list CronTask * outcome (exn E) unit :=
  match tasks with
  | [] => (r, [], Ok tt)
  | task :: tasks =>
      match process task false r with
      | (r, task, Raise e) => (r, task :: tasks, Raise e)
      | (r, task, Ok _) =>
          let '(r, tasks, o) := process_durable tasks r in (r, task :: tasks, o)
      end
  end.

(** The loop over a snapshot of the session tasks, which are the objects in the store. *)
Definition assign_session (task : CronTask) (s : state) : state :=
  let st := store s in
  if Dict.mem (id task) (_session st)
  then with_store s (with_session st (Dict.set (id task) task (_session st))) else s.

Fixpoint process_session (tasks : list CronTask) (r : round) : round * outcome (exn E) unit :=
  match tasks with
  | [] => (r, Ok tt)
  | task :: tasks =>
      match process task true r with
      | (r, task, Raise e) => (on_sched r (assign_session task), Raise e)
      | (r, task, Ok _) => process_session tasks (on_sched r (assign_session task))
      end
  end.

Definition _persist_fired (ids : list string) (s : state) : action :=
  match load (store s) with
  | Raise e => (s, Raise (StoreError e))
  | Ok tasks =>
      let stamped := (fun x => if bool_decide (id x ∈ ids) then with_last_fired x now else x) <$> tasks in
      if existsb (fun x => bool_decide (id x ∈ ids)) tasks then
        let (st, saved) := save (store s) stamped in
        let s := with_store s st in
        match saved with
        | Raise e => (s, Raise (StoreError e))
        | Ok _ => (with_tasks (with_mtime s (mtime (store s))) stamped, Ok tt)
        end
      else (s, Ok tt)
  end.

Definition durable_pass (s : state) : round * outcome (exn E) unit :=
  if _is_owner s then
    let '(r, tasks, o) := process_durable (_durable s) (mkRound s [] []) in
    let r := on_sched r (fun s => with_tasks s tasks) in
    match o with
    | Raise e => (r, Raise e)
    | Ok _ =>
        if bool_decide (fired r = []) then (r, Ok tt)
        else let '(s, o) := _persist_fired (fired r) (sched r) in
             (mkRound s (seen r) (fired r), o)
    end
  else (mkRound s [] [], Ok tt).

(** The table keeps the tasks seen in this tick. *)
Definition prune (r : round) : state :=
  with_table (sched r) (filter (fun kv => kv.1 ∈ seen r) (_next_fire_at (sched r))).

Definition _check (killed idle : bool) (s : state) : action :=
  if killed then (s, Ok tt)
  else if negb idle then (s, Ok tt)
  else
    then_ (_reload_durable false s) (fun s =>
      match durable_pass s with
      | (r, Raise e) => (sched r, Raise e)
      | (r, Ok _) =>
          match process_session (session_tasks (store (sched r))) r with
          | (r, Raise e) => (sched r, Raise e)
          | (r, Ok _) => (prune r, Ok tt)
          end
      end).

(** ** The start *)

Definition is_missed (s : state) (task : CronTask) : outcome CronStore.exn bool :=
  if recurring task || bool_decide (id task ∈ _missed_asked s) then Ok false
  else if negb (task_filter task) then Ok false
  else
    let? nxt := of_cron (_next_cron_run_ms zone (cron task) (created_at task)) in
    Ok (match nxt with Some nxt => nxt <? now | None => false end).

Fixpoint missed_of (s : state) (tasks : list CronTask) : outcome CronStore.exn (list CronTask) :=
  match tasks with
  | [] => Ok []
  | x :: tasks =>
      let? b := is_missed s x in
      let? rest := missed_of s tasks in
      Ok (if b : bool then x :: rest else rest)
  end.

Fixpoint fire_each (tasks : list CronTask) (s : state) : action :=
  match tasks with
  | [] => (s, Ok tt)
  | x :: tasks =>
      match on_fire (sink s) x with
      | (w, Ok _) => fire_each tasks (with_sink s w)
      | (w, Raise e) => (with_sink s w, Raise (SinkError e))
      end
  end.

Definition surface (missed : list CronTask) (s : state) : action :=
  match on_missed with
  | Some f =>
      match f (sink s) missed with
      | (w, Ok _) => (with_sink s w, Ok tt)
      | (w, Raise e) => (with_sink s w, Raise (SinkError e))
      end
  | None => fire_each missed s
  end.

Definition block (missed : list CronTask) (s : state) : state :=
  with_table (with_asked s ((id <$> missed) ++ _missed_asked s))
    (foldl (fun d x => Dict.set (id x) None d) (_next_fire_at s) missed).

Definition _run_missed (s : state) : action :=
  if negb (_is_owner s) then (s, Ok tt)
  else
    match missed_of s (_durable s) with
    | Raise e => (s, Raise (StoreError e))
    | Ok [] => (s, Ok tt)
    | Ok missed =>
        then_ (surface missed (block missed s)) (fun s =>
          match remove (store s) (id <$> missed) with
          | (st, Raise e) => (with_store s st, Raise (StoreError e))
          | (st, Ok _) => _reload_durable true (with_store s st)
          end)
    end.

(** [start], with the answer of the lock. *)
Definition start (acquired : bool) (s : state) : action :=
  then_ (_reload_durable true (with_owner s acquired)) _run_missed.

End Tick.
End Scheduler.

(** ** Ticks, with a sink that records what fired

    A sink that never raises tells the scheduler nothing, so recording stands for any of
    them; [CronService._on_fire] is one, it catches what its target raises. *)
Section Recorded.
Context (zone : Zone) (md5 : digest_head) (task_filter : CronTask -> bool).

Notation log := (list CronTask).
Notation state := (t log).
Notation round := (@round log).

Definition record_fire (w : log) (x : CronTask) : log * outcome Empty_set unit := (w ++ [x], Ok tt).

Section OneTick.
Context (now : Z) (cfg : CronJitterConfig).

Notation process := (process zone md5 record_fire task_filter now cfg).
Notation fire := (fire zone md5 record_fire now cfg).

(** When a task is due: what the table says, or what its first sight computes. *)
Definition due_at (s : state) (x : CronTask) : outcome CronStore.exn due_time :=
  match Dict.get (id x) (_next_fire_at s) with
  | Some d => Ok d
  | None => first_fire zone md5 cfg x
  end.

Definition ready (s : state) (x : CronTask) : bool :=
  task_filter x && match due_at s x with Ok (Some d) => d <=? now | _ => false end.

(** A task that fires and is scheduled again. *)
Definition stays (x : CronTask) : bool :=
  recurring x && negb (is_recurring_task_aged x now (recurring_max_age_ms cfg)).

Definition note (r : round) (x : CronTask) (d : due_time) : round :=
  mkRound (with_table (sched r) (Dict.set (id x) d (_next_fire_at (sched r)))) (id x :: seen r) (fired r).

Lemma set_same {V} k (v : V) (d : list (string * V)) : Dict.get k d = Some v -> Dict.set k v d = d.
Proof.
  induction d as [|[k' v'] d IH]; [done|]. simpl. destruct (decide (k = k')) as [->|].
  - by intros [= ->].
  - intros H. by rewrite IH.
Qed.

Lemma process_ready x b r :
  ready (sched r) x = true ->
  exists d, due_at (sched r) x = Ok (Some d) /\ d <= now /\ process x b r = fire x b (note r x (Some d)).
Proof.
  unfold ready, process, note, due_at. rewrite andb_true_iff. intros [-> H]. cbn [negb sched].
  destruct (Dict.get (id x) (_next_fire_at (sched r))) as [[d|]|] eqn:Hg; [| |]; try done.
  - rewrite Z.leb_le in H. exists d. split_and!; [done|done|].
    destruct (Z.ltb_spec now d); [lia|]. rewrite set_same by done. by destruct r as [[]].
  - destruct (first_fire zone md5 cfg x) as [[d|]|e]; try done. rewrite Z.leb_le in H.
    exists d. split_and!; [done|done|]. cbn. destruct (Z.ltb_spec now d); [lia|done].
Qed.

Lemma process_not_ready x b r :
  ready (sched r) x = false ->
  exists r' o, process x b r = (r', x, o) /\
    ((task_filter x = false /\ r' = r /\ o = Ok tt)
     \/ (task_filter x = true /\ exists d, due_at (sched r) x = Ok d /\ r' = note r x d /\ o = Ok tt)
     \/ (exists e, due_at (sched r) x = Raise e
          /\ r' = mkRound (sched r) (id x :: seen r) (fired r) /\ o = Raise (StoreError e))).
Proof.
  unfold ready, process, note, due_at. destruct (task_filter x); cbn [negb andb sched]; [|eauto 10].
  destruct (Dict.get (id x) (_next_fire_at (sched r))) as [d|] eqn:Hg; intros H.
  - eexists _, _. split; [|right; left; split; [done|]; exists d; split_and!; [done|done|reflexivity]].
    rewrite set_same by done. destruct r as [[] se fi]. cbn.
    destruct d as [d|]; [|done]. destruct (Z.ltb_spec now d); [done|]. apply Z.leb_gt in H. lia.
  - destruct (first_fire zone md5 cfg x) as [d|e]; cbn.
    + eexists _, _. split; [|right; left; split; [done|]; exists d; split_and!; [done|done|reflexivity]].
      destruct d as [d|]; [|done]. destruct (Z.ltb_spec now d); [done|]. apply Z.leb_gt in H. lia.
    + eauto 10.
Qed.

(** What a step leaves alone. *)
Definition frame (s s' : state) : Prop :=
  _durable s' = _durable s /\ _last_mtime s' = _last_mtime s /\ _is_owner s' = _is_owner s
  /\ _missed_asked s' = _missed_asked s.

Lemma fire_spec x b r :
  let '(r', x', o) := fire x b r in
  sink (sched r') = sink (sched r) ++ [x] /\ frame (sched r) (sched r') /\ seen r' = seen r
  /\ id x' = id x
  /\ if stays x then
       store (sched r') = store (sched r)
       /\ (o = Ok tt -> x' = with_last_fired x now
            /\ fired r' = (if b then fired r else fired r ++ [id x])
            /\ exists d, of_cron (jittered_next_cron_run_ms zone md5 (cron x) now (id x) cfg) = Ok d
                 /\ _next_fire_at (sched r') = Dict.set (id x) d (_next_fire_at (sched r)))
     else
       store (sched r') = fst (remove (store (sched r)) [id x]) /\ x' = x /\ fired r' = fired r
       /\ (o = Ok tt -> _next_fire_at (sched r') = Dict.pop (id x) (_next_fire_at (sched r))
                        /\ exists n, snd (remove (store (sched r)) [id x]) = Ok n).
Proof.
  unfold fire, stays. cbn [record_fire]. destruct (recurring x && _).
  - destruct (of_cron _) as [d|e]; cbn; split_and!; try done. intros _. split_and!; [done|done|eauto].
  - cbn. destruct (remove (store (sched r)) [id x]) as [st [n|e]]; cbn; split_and!; try done.
    intros _. split; [done|by exists n].
Qed.

(** The table's entry for a task after a tick that did not raise, from the state before. *)
Definition table_after (s : state) (x : CronTask) (entry : option due_time) : Prop :=
  if task_filter x then
    if ready s x then
      if stays x then
        exists d, of_cron (jittered_next_cron_run_ms zone md5 (cron x) now (id x) cfg) = Ok d
                  /\ entry = Some d
      else entry = None
    else exists d, due_at s x = Ok d /\ entry = Some d
  else entry = Dict.get (id x) (_next_fire_at s).

Definition goes_on (s : state) (x : CronTask) : bool := ready s x && stays x.

Definition after (s : state) (x : CronTask) : CronTask :=
  if goes_on s x then with_last_fired x now else x.

(** One task of a tick that does not raise. *)
Lemma process_ok x b r r' x' :
  process x b r = (r', x', Ok tt) ->
  let s := sched r in
  sink (sched r') = sink s ++ (if ready s x then [x] else [])
  /\ frame s (sched r')
  /\ (forall k, k <> id x -> Dict.get k (_next_fire_at (sched r')) = Dict.get k (_next_fire_at s))
  /\ table_after s x (Dict.get (id x) (_next_fire_at (sched r')))
  /\ x' = after s x
  /\ fired r' = fired r ++ (if goes_on s x && negb b then [id x] else [])
  /\ (forall i, i ∈ seen r' <-> i ∈ seen r \/ task_filter x = true /\ i = id x)
  /\ (if ready s x && negb (stays x)
      then store (sched r') = fst (remove (store s) [id x]) /\ exists n, snd (remove (store s) [id x]) = Ok n
      else store (sched r') = store s).
Proof.
  intros H s. unfold table_after, after, goes_on. destruct (ready s x) eqn:Hr.
  - destruct (process_ready x b r Hr) as (d & Hd & _ & Hp). rewrite Hp in H.
    pose proof (fire_spec x b (note r x (Some d))) as Hf. rewrite H in Hf.
    destruct Hf as (Hs & Hfr & Hse & Hid & Hc).
    assert (task_filter x = true) as Htf by (by apply andb_true_iff in Hr as [? _]). rewrite Htf.
    assert (forall i, i ∈ seen r' <-> i ∈ seen r \/ true = true /\ i = id x) as Hseen.
    { intros i. rewrite Hse. cbn [note seen]. rewrite elem_of_cons. tauto. }
    destruct (stays x); cbn [andb negb].
    + destruct Hc as (Hst & Hc). destruct (Hc eq_refl) as (Hx' & Hfi & d' & Hj & Ht).
      split_and!; try done.
      * intros k Hk. rewrite Ht. cbn. by rewrite !Dict.get_set_ne.
      * exists d'. split; [done|]. rewrite Ht. apply Dict.get_set_eq.
      * rewrite Hfi. destruct b; cbn; by rewrite ?app_nil_r.
    + destruct Hc as (Hst & Hx' & Hfi & Ht). destruct (Ht eq_refl) as [-> Hrm]. split_and!; try done.
      * intros k Hk. cbn. by rewrite Dict.get_pop_ne, Dict.get_set_ne.
      * apply Dict.get_pop_eq.
      * rewrite Hfi. cbn. by rewrite app_nil_r.
  - destruct (process_not_ready x b r Hr) as (r2 & o & Hp & Hc). rewrite Hp in H.
    injection H as -> -> ->. cbn [andb]. rewrite !app_nil_r.
    destruct Hc as [(Hf & -> & _)|[(Hf & d & Hd & -> & _)|(e & _ & _ & He)]]; [| |discriminate].
    + rewrite Hf. split_and!; try done. intros i. split; [by left|]. by intros [?|[? _]].
    + rewrite Hf. split_and!; try done; cbn.
      * intros k Hk. by rewrite Dict.get_set_ne.
      * exists d. split; [done|]. apply Dict.get_set_eq.
      * intros i. rewrite elem_of_cons. tauto.
Qed.

Lemma ready_same (s s' : state) x :
  Dict.get (id x) (_next_fire_at s') = Dict.get (id x) (_next_fire_at s) -> ready s' x = ready s x.
Proof. unfold ready, due_at. by intros ->. Qed.

Lemma after_same (s s' : state) x :
  Dict.get (id x) (_next_fire_at s') = Dict.get (id x) (_next_fire_at s) -> after s' x = after s x.
Proof. intros H. unfold after, goes_on. by rewrite (ready_same s s'). Qed.

Lemma table_after_same (s s' : state) x e :
  Dict.get (id x) (_next_fire_at s') = Dict.get (id x) (_next_fire_at s) ->
  table_after s' x e -> table_after s x e.
Proof. intros H. unfold table_after, due_at. rewrite (ready_same s s') by done. by rewrite H. Qed.

Lemma remove_one_session st i : _session (fst (remove st [i])) = Dict.pop i (_session st).
Proof.
  unfold remove. assert (remove_dups [i] = [i]) as ->.
  { unfold remove_dups. destruct (decide_rel elem_of i []) as [Hin|]; [|done].
    by apply not_elem_of_nil in Hin. }
  rewrite bool_decide_false by done. cbn [pop_session].
  assert ((if Dict.mem i (_session st) then (Dict.pop i (_session st), 0 + 1) else (_session st, 0)).1
          = Dict.pop i (_session st)) as Hp.
  { destruct (Dict.mem i (_session st)) eqn:Hm; [done|]. cbn. rewrite Dict.pop_notin; [done|].
    apply Dict.get_None_keys. unfold Dict.mem in Hm. by destruct (Dict.get i _). }
  destruct (if Dict.mem i (_session st) then _ else _) as [d n]. cbn in Hp. subst d.
  destruct (load _); [|done]. destruct (_ =? _)%nat; [done|].
  destruct (save _ _) as [s1 o1] eqn:Es. cbn [fst]. by destruct (save_cases _ _ _ _ Es) as (-> & _).
Qed.

(** What the tasks [l] of one tick do together, from state [s] to state [s']. *)
Definition passed (s s' : state) (l : list CronTask) : Prop :=
  sink s' = sink s ++ filter (fun x => ready s x = true) l
  /\ (forall k, k ∉ id <$> l -> Dict.get k (_next_fire_at s') = Dict.get k (_next_fire_at s))
  /\ Forall (fun x => table_after s x (Dict.get (id x) (_next_fire_at s'))) l.

Lemma passed_cons (s s1 s' : state) x l :
  id x ∉ id <$> l ->
  sink s1 = sink s ++ (if ready s x then [x] else []) ->
  (forall k, k <> id x -> Dict.get k (_next_fire_at s1) = Dict.get k (_next_fire_at s)) ->
  table_after s x (Dict.get (id x) (_next_fire_at s1)) ->
  passed s1 s' l -> passed s s' (x :: l).
Proof.
  intros Hn Hs Hk Ht (Hs' & Hk' & Ht').
  assert (forall y, y ∈ l -> Dict.get (id y) (_next_fire_at s1) = Dict.get (id y) (_next_fire_at s)) as Hy.
  { intros y Hin. apply Hk. intros He. apply Hn. rewrite <- He. by apply list_elem_of_fmap_2. }
  split_and!.
  - rewrite Hs', Hs, <- app_assoc, filter_cons. f_equal.
    rewrite (Prelude.filter_ext_in (fun y => ready s1 y = true) (fun y => ready s y = true)).
    + destruct (ready s x); [by rewrite decide_True|by rewrite decide_False].
    + intros y Hin. by rewrite (ready_same s s1) by auto.
  - intros k Hkin. rewrite fmap_cons, not_elem_of_cons in Hkin. destruct Hkin as [H1 H2].
    rewrite Hk' by done. by apply Hk.
  - constructor; [by rewrite Hk'|]. rewrite Forall_forall in Ht' |- *. intros y Hin.
    apply (table_after_same s s1); [by apply Hy|by apply Ht'].
Qed.

(** The tasks of a tick are apart: their ids are distinct, also from those of the session. *)
Definition finished (s : state) (x : CronTask) : bool := ready s x && negb (stays x).

Definition remaining (s : state) (l : list CronTask) : list CronTask :=
  filter (fun x => finished s x = false) l.

Lemma without_notin i ts : i ∉ id <$> ts -> without [i] ts = ts.
Proof.
  intros Hi. apply filter_all, Forall_forall. intros x Hx ?%list_elem_of_singleton.
  subst. apply Hi. by apply list_elem_of_fmap_2.
Qed.

Lemma remaining_cons (s s1 : state) x l :
  NoDup (id <$> x :: l) ->
  (forall k, k <> id x -> Dict.get k (_next_fire_at s1) = Dict.get k (_next_fire_at s)) ->
  remaining s (x :: l) = (if finished s x then [] else [x]) ++ remaining s1 l.
Proof.
  intros [Hn _]%NoDup_cons Hk. unfold remaining. rewrite filter_cons.
  replace (filter (fun y => finished s1 y = false) l) with (filter (fun y => finished s y = false) l).
  - destruct (finished s x); [by rewrite decide_False|by rewrite decide_True].
  - apply Prelude.filter_ext_in. intros y Hy. unfold finished. rewrite (ready_same s s1); [done|].
    apply Hk. intros He. apply Hn. rewrite <- He. by apply list_elem_of_fmap_2.
Qed.

Lemma after_tail (s s1 : state) x (l : list CronTask) :
  id x ∉ id <$> l ->
  (forall k, k <> id x -> Dict.get k (_next_fire_at s1) = Dict.get k (_next_fire_at s)) ->
  after s1 <$> l = after s <$> l
  /\ filter (fun y => goes_on s1 y = true) l = filter (fun y => goes_on s y = true) l.
Proof.
  intros Hn Hk.
  assert (forall y, y ∈ l -> Dict.get (id y) (_next_fire_at s1) = Dict.get (id y) (_next_fire_at s)) as Hy.
  { intros y Hin. apply Hk. intros He. apply Hn. rewrite <- He. by apply list_elem_of_fmap_2. }
  split.
  - apply list_fmap_ext. intros j y Hj. apply after_same, Hy. by eapply list_elem_of_lookup_2.
  - apply Prelude.filter_ext_in. intros y Hin. unfold goes_on. by rewrite (ready_same s s1) by auto.
Qed.

Definition seen_more (r r' : round) (l : list CronTask) : Prop :=
  forall i, i ∈ seen r' <-> i ∈ seen r \/ exists x, x ∈ l /\ task_filter x = true /\ i = id x.

Lemma seen_more_cons (r r1 r' : round) x l :
  (forall i, i ∈ seen r1 <-> i ∈ seen r \/ task_filter x = true /\ i = id x) ->
  seen_more r1 r' l -> seen_more r r' (x :: l).
Proof.
  intros H1 H2 i. unfold seen_more in H2. rewrite (H2 i), (H1 i). setoid_rewrite elem_of_cons. naive_solver.
Qed.

(** The durable tasks of a tick: [ts] is what the file holds. *)
Lemma durable_ok tasks r r' tasks' ts :
  process_durable zone md5 record_fire task_filter now cfg tasks r = (r', tasks', Ok tt) ->
  NoDup (id <$> tasks) -> NoDup (Dict.keys (_session (store (sched r)))) ->
  (forall x, x ∈ tasks -> id x ∉ Dict.keys (_session (store (sched r)))) ->
  load (store (sched r)) = Ok ts ->
  passed (sched r) (sched r') tasks /\ frame (sched r) (sched r')
  /\ tasks' = after (sched r) <$> tasks
  /\ fired r' = fired r ++ (id <$> filter (fun x => goes_on (sched r) x = true) tasks)
  /\ seen_more r r' tasks
  /\ _session (store (sched r')) = _session (store (sched r))
  /\ load (store (sched r')) =
       Ok (without (id <$> filter (fun x => finished (sched r) x = true) tasks) ts).
Proof.
  revert r r' tasks' ts. induction tasks as [|x tasks IH]; intros r r' tasks' ts H Hnd Hs Hap Hl.
  - injection H as <- <-. split_and!; try done.
    + split_and!; [by rewrite app_nil_r|done|constructor].
    + by rewrite app_nil_r.
    + intros i. split; [by left|]. intros [?|(? & ?%not_elem_of_nil & _)]; done.
    + by rewrite without_nil.
  - cbn [process_durable] in H.
    destruct (process x false r) as [[r1 x'] [[]|e]] eqn:Hp; [|done].
    destruct (process_durable _ _ _ _ _ _ tasks r1) as [[r2 ts2] o2] eqn:Hrec.
    injection H as -> <- ->. pose proof (process_ok x false r r1 x' Hp) as
      (Hsink & Hf1 & Hk & Ht & Hx' & Hfi & Hse & Hst).
    rewrite fmap_cons in Hnd. apply NoDup_cons in Hnd as Hnd'. destruct Hnd' as [Hn Hnd'].
    assert (_session (store (sched r1)) = _session (store (sched r))) as Hsess.
    { destruct (ready _ _ && negb _); [|by rewrite Hst]. destruct Hst as [-> _]. rewrite remove_one_session.
      apply Dict.pop_notin, Hap. by left. }
    assert (load (store (sched r1)) = Ok (if finished (sched r) x then without [id x] ts else ts)) as Hl1.
    { unfold finished. destruct (ready _ _ && negb _); [|by rewrite Hst].
      destruct Hst as [-> [n Hn1]]. by apply (remove_returns _ _ _ n). }
    destruct (after_tail (sched r) (sched r1) x tasks Hn Hk) as [Ha Hg].
    edestruct (IH r1 r' ts2) as (I1 & I2 & I3 & I4 & I5 & I6 & I7);
      [exact Hrec|done|by rewrite Hsess|intros y Hy; rewrite Hsess; apply Hap; by right|exact Hl1|].
    split_and!.
    + by eapply passed_cons.
    + destruct Hf1 as (?&?&?&?), I2 as (?&?&?&?). unfold frame. split_and!; congruence.
    + rewrite I3, Ha, Hx'. done.
    + rewrite I4, Hfi, Hg, <- app_assoc, filter_cons. unfold negb. rewrite andb_true_r.
      destruct (goes_on (sched r) x) eqn:Hgo; [by rewrite decide_True|by rewrite decide_False].
    + by eapply seen_more_cons.
    + congruence.
    + rewrite I7. f_equal. rewrite filter_cons.
      replace (filter (fun y => finished (sched r1) y = true) tasks)
        with (filter (fun y => finished (sched r) y = true) tasks).
      2:{ apply Prelude.filter_ext_in. intros y Hy. unfold finished.
          rewrite (ready_same (sched r) (sched r1)); [done|]. apply Hk. intros He. apply Hn.
          rewrite <- He. by apply list_elem_of_fmap_2. }
      destruct (finished (sched r) x) eqn:Hfin; [|by rewrite decide_False].
      rewrite decide_True by done. unfold without. rewrite list_filter_filter.
      apply list_filter_iff. intros y. rewrite fmap_cons.
      generalize (id <$> filter (fun z => finished (sched r) z = true) tasks). intros fl.
      rewrite !not_elem_of_cons. pose proof (not_elem_of_nil (id y)). tauto.
Qed.

(** Membership of an id decides membership of its task, when ids are distinct. *)
Lemma id_in_filter (P : CronTask -> bool) (l : list CronTask) x :
  NoDup (id <$> l) -> x ∈ l ->
  (id x ∈ id <$> filter (fun y => P y = true) l <-> P x = true).
Proof.
  intros Hnd Hx. split.
  - intros (y & Hid & [Hp Hy]%list_elem_of_filter)%list_elem_of_fmap.
    apply list_elem_of_lookup in Hx as [a Ha]. apply list_elem_of_lookup in Hy as [b Hb].
    assert (a = b) as ->; [|congruence].
    eapply (NoDup_lookup _ a b (id x) Hnd); rewrite list_lookup_fmap, ?Ha, ?Hb; simpl; congruence.
  - intros Hp. apply list_elem_of_fmap_2, list_elem_of_filter. done.
Qed.

Lemma NoDup_app_fmap (l1 l2 : list CronTask) :
  NoDup (id <$> l1 ++ l2) ->
  NoDup (id <$> l1) /\ (forall i, i ∈ id <$> l1 -> i ∉ id <$> l2) /\ NoDup (id <$> l2).
Proof. by rewrite fmap_app, NoDup_app. Qed.

Lemma without_finished s (l : list CronTask) :
  NoDup (id <$> l) ->
  without (id <$> filter (fun x => finished s x = true) l) l = remaining s l.
Proof.
  intros Hnd. apply Prelude.filter_ext_in. intros x Hx. rewrite (id_in_filter (finished s)) by done.
  by destruct (finished s x).
Qed.

Lemma stamped_after s (l : list CronTask) :
  NoDup (id <$> l) ->
  (fun x => if bool_decide (id x ∈ id <$> filter (fun x => goes_on s x = true) l)
            then with_last_fired x now else x) <$> remaining s l
  = after s <$> remaining s l.
Proof.
  intros Hnd. apply list_fmap_ext. intros j x Hj. apply list_elem_of_lookup_2 in Hj.
  apply list_elem_of_filter in Hj as [_ Hj]. unfold after. destruct (bool_decide_reflect
    (id x ∈ id <$> filter (fun x => goes_on s x = true) l)) as [H|H].
  - apply (id_in_filter (goes_on s)) in H; [|done..]. by rewrite H.
  - destruct (goes_on s x) eqn:Hg; [|done]. exfalso. apply H. by apply (id_in_filter (goes_on s)).
Qed.

Lemma after_idle s (l : list CronTask) :
  id <$> filter (fun x => goes_on s x = true) l = [] -> after s <$> remaining s l = remaining s l.
Proof.
  intros H%fmap_nil_inv. rewrite <- (list_fmap_id (remaining s l)) at 2. apply list_fmap_ext.
  intros j x Hj. apply list_elem_of_lookup_2, list_elem_of_filter in Hj as [_ Hj]. unfold after.
  destruct (goes_on s x) eqn:Hg; [|done]. exfalso. apply (not_elem_of_nil x). rewrite <- H.
  by apply list_elem_of_filter.
Qed.

Lemma durable_after s (l : list CronTask) :
  Forall (fun x => durable x = true) l -> Forall (fun x => durable x = true) (after s <$> remaining s l).
Proof.
  rewrite !Forall_forall. intros H x (y & -> & Hy)%list_elem_of_fmap.
  apply list_elem_of_filter in Hy as [_ Hy]. unfold after. destruct (goes_on s y); exact (H y Hy).
Qed.

(** [_persist_fired] after the loop. *)
Lemma persist_ok ids (s s' : state) rem :
  _persist_fired (E := Empty_set) now ids s = (s', Ok tt) -> load (store s) = Ok rem ->
  sink s' = sink s /\ _next_fire_at s' = _next_fire_at s
  /\ _is_owner s' = _is_owner s /\ _session (store s') = _session (store s)
  /\ load (store s') = Ok ((fun x => if bool_decide (id x ∈ ids) then with_last_fired x now else x) <$> rem).
Proof.
  unfold _persist_fired. intros H Hl. rewrite Hl in H.
  destruct (existsb _ rem) eqn:He.
  - destruct (save (store s) _) as [st [[]|e]] eqn:Es; [|done]. injection H as <-.
    destruct (save_cases _ _ _ _ Es) as (E1 & _). cbn. split_and!; try done.
    eapply (load_save_durable (store s)); [|exact Es]. apply load_durable in Hl. rewrite Forall_forall in Hl |- *.
    intros x (y & -> & Hy)%list_elem_of_fmap. destruct (bool_decide _); exact (Hl y Hy).
  - injection H as <-. split_and!; try done. rewrite Hl. f_equal. rewrite <- (list_fmap_id rem) at 1. apply list_fmap_ext. intros j x Hj.
    apply list_elem_of_lookup_2 in Hj. destruct (bool_decide_reflect (id x ∈ ids)); [|done].
    exfalso. apply not_true_iff_false in He. apply He, existsb_exists. exists x.
    rewrite bool_decide_true by done. split; [by apply list_elem_of_In|done].
Qed.

Lemma durable_pass_ok s r :
  durable_pass zone md5 record_fire task_filter now cfg s = (r, Ok tt) -> _is_owner s = true ->
  NoDup (id <$> _durable s) -> NoDup (Dict.keys (_session (store s))) ->
  (forall x, x ∈ _durable s -> id x ∉ Dict.keys (_session (store s))) ->
  load (store s) = Ok (_durable s) ->
  passed s (sched r) (_durable s) /\ seen_more (mkRound s [] []) r (_durable s)
  /\ _session (store (sched r)) = _session (store s)
  /\ load (store (sched r)) = Ok (after s <$> remaining s (_durable s)).
Proof.
  unfold durable_pass. intros H Ho Hnd Hs Hap Hl. rewrite Ho in H.
  destruct (process_durable _ _ _ _ _ _ (_durable s) _) as [[r1 ts'] [[]|e]] eqn:Hp; [|done].
  destruct (durable_ok _ _ _ _ _ Hp Hnd Hs Hap Hl) as (H1 & _ & H3 & H4 & H5 & H6 & H7).
  cbn [fired sched app] in *. rewrite without_finished in H7 by done. cbn [on_sched fired sched seen] in H.
  destruct (bool_decide_reflect (fired r1 = [])) as [He|He].
  - injection H as <-. cbn. split_and!; try done. rewrite H7. f_equal. symmetry.
    apply after_idle. by rewrite <- H4.
  - destruct (_persist_fired now (fired r1) _) as [s2 o] eqn:Hpers. injection H as <- ->.
    cbn [sched seen]. destruct (persist_ok _ _ _ _ Hpers H7) as (P1 & P2 & _ & P4 & P5).
    destruct H1 as (Q1 & Q2 & Q3). split_and!.
    + unfold passed. rewrite P1, P2. done.
    + done.
    + rewrite P4. done.
    + rewrite P5, H4, stamped_after by done. done.
Qed.

(** The session tasks of a tick. *)
Lemma assign_session_exact (s : state) x :
  sink (assign_session x s) = sink s /\ _next_fire_at (assign_session x s) = _next_fire_at s
  /\ frame s (assign_session x s) /\ load (store (assign_session x s)) = load (store s)
  /\ _session (store (assign_session x s))
     = (if Dict.mem (id x) (_session (store s)) then Dict.set (id x) x (_session (store s))
        else _session (store s)).
Proof. unfold assign_session. by destruct (Dict.mem _ _). Qed.

Lemma process_assigned x r r1 x' :
  process x true r = (r1, x', Ok tt) ->
  Dict.get (id x) (_session (store (sched r))) = Some x ->
  let d := _session (store (sched r)) in
  let d' := _session (store (assign_session x' (sched r1))) in
  (forall k, k <> id x -> Dict.get k d' = Dict.get k d)
  /\ Dict.get (id x) d' = (if finished (sched r) x then None else Some (after (sched r) x))
  /\ (NoDup (Dict.keys d) -> NoDup (Dict.keys d')).
Proof.
  intros Hp Hx d d'. destruct (process_ok x true r r1 x' Hp) as (_ & _ & _ & _ & Hx' & _ & _ & Hst).
  destruct (assign_session_exact (sched r1) x') as (_ & _ & _ & _ & Hd'). fold d' in Hd'.
  assert (id x' = id x) as Hid by (rewrite Hx'; unfold after; by destruct (goes_on _ _)).
  assert (_session (store (sched r1)) = if finished (sched r) x then Dict.pop (id x) d else d) as Hd1.
  { unfold finished. destruct (ready _ _ && negb _); [|by rewrite Hst]. destruct Hst as [-> _].
    apply remove_one_session. }
  rewrite Hd1, Hid, Hx' in Hd'. rewrite Hd'. destruct (finished (sched r) x); unfold Dict.mem.
  - rewrite Dict.get_pop_eq. split_and!; [by intros; rewrite Dict.get_pop_ne| |apply Dict.NoDup_keys_pop].
    apply Dict.get_pop_eq.
  - fold d in Hx. rewrite Hx. split_and!; [by intros; rewrite Dict.get_set_ne| |apply Dict.NoDup_keys_set].
    apply Dict.get_set_eq.
Qed.

Definition session_after (s : state) (x : CronTask) : option CronTask :=
  if finished s x then None else Some (after s x).

Lemma session_ok tasks r r' ts :
  process_session zone md5 record_fire task_filter now cfg tasks r = (r', Ok tt) ->
  NoDup (id <$> tasks) -> NoDup (Dict.keys (_session (store (sched r)))) ->
  Forall (fun x => Dict.get (id x) (_session (store (sched r))) = Some x) tasks ->
  load (store (sched r)) = Ok ts -> (forall x, x ∈ tasks -> id x ∉ id <$> ts) ->
  passed (sched r) (sched r') tasks /\ seen_more r r' tasks
  /\ load (store (sched r')) = Ok ts
  /\ Forall (fun x => Dict.get (id x) (_session (store (sched r'))) = session_after (sched r) x) tasks
  /\ (forall k, k ∉ id <$> tasks ->
        Dict.get k (_session (store (sched r'))) = Dict.get k (_session (store (sched r)))).
Proof.
  revert r. induction tasks as [|x tasks IH]; intros r H Hnd Hs Hg Hl Hap.
  - injection H as <-. split_and!; try done.
    + split_and!; [by rewrite app_nil_r|done|constructor].
    + intros i. split; [by left|]. intros [?|(? & ?%not_elem_of_nil & _)]; done.
  - cbn [process_session] in H.
    destruct (process x true r) as [[r1 x'] [[]|e]] eqn:Hp; [|done].
    apply Forall_cons in Hg as [Hgx Hg]. rewrite fmap_cons, NoDup_cons in Hnd. destruct Hnd as [Hn Hnd].
    destruct (process_assigned x r r1 x' Hp Hgx) as (Ad & Ax & And).
    destruct (assign_session_exact (sched r1) x') as (A1 & A2 & _ & A4 & _).
    destruct (process_ok x true r r1 x' Hp) as (Hsink & _ & Hk & Ht & _ & _ & Hse & Hst).
    set (r2 := on_sched r1 (assign_session x')) in *.
    change (assign_session x' (sched r1)) with (sched r2) in *.
    assert (forall k, k <> id x ->
      Dict.get k (_next_fire_at (sched r2)) = Dict.get k (_next_fire_at (sched r))) as Hk2
      by (intros k Hkx; rewrite A2; by apply Hk).
    assert (load (store (sched r2)) = Ok ts) as Hl2.
    { rewrite A4. destruct (ready _ _ && negb _); [|by rewrite Hst]. destruct Hst as [-> [n Hn1]].
      rewrite (remove_returns _ _ ts n) by done. by rewrite without_notin by (apply Hap; by left). }
    assert (forall y, y ∈ tasks -> id y <> id x) as Hne.
    { intros y Hy He. apply Hn. rewrite <- He. by apply list_elem_of_fmap_2. }
    edestruct (IH r2) as (I1 & I2 & I3 & I4 & I5); [exact H|done|by apply And| |done| |].
    { rewrite Forall_forall in Hg |- *. intros y Hy. rewrite Ad by auto. by apply Hg. }
    { intros y Hy. apply Hap. by right. }
    split_and!.
    + eapply (passed_cons (sched r) (sched r2)); [done|by rewrite A1|done|by rewrite A2|done].
    + eapply (seen_more_cons r r2); [|done]. intros i. apply Hse.
    + done.
    + constructor; [by rewrite I5|]. rewrite Forall_forall in I4 |- *. intros y Hy. rewrite I4 by done.
      unfold session_after, finished, after, goes_on. by rewrite (ready_same (sched r) (sched r2)) by auto.
    + intros k Hkin. rewrite fmap_cons, not_elem_of_cons in Hkin. destruct Hkin. rewrite I5 by done.
      by apply Ad.
Qed.

Lemma passed_app (s s1 s' : state) l1 l2 :
  NoDup (id <$> l1 ++ l2) -> passed s s1 l1 -> passed s1 s' l2 -> passed s s' (l1 ++ l2).
Proof.
  rewrite fmap_app, NoDup_app. intros (_ & Hd & _) (P1 & P2 & P3) (Q1 & Q2 & Q3).
  assert (forall x, x ∈ l2 -> Dict.get (id x) (_next_fire_at s1) = Dict.get (id x) (_next_fire_at s)) as Hx.
  { intros x Hin. apply P2. intros Hi. by apply (Hd _ Hi), list_elem_of_fmap_2. }
  split_and!.
  - rewrite Q1, P1, <- app_assoc, filter_app. f_equal. f_equal. apply Prelude.filter_ext_in.
    intros x Hin. by rewrite (ready_same s s1) by auto.
  - intros k Hk. rewrite fmap_app, not_elem_of_app in Hk. destruct Hk. rewrite Q2 by done. by apply P2.
  - apply Forall_app. rewrite !Forall_forall in *. split; intros x Hin.
    + rewrite Q2; [by apply P3|]. intros Hi. by apply (Hd (id x)); [apply list_elem_of_fmap_2|].
    + apply (table_after_same s s1); [by apply Hx|by apply Q3].
Qed.

(** What a tick may fire: the durable tasks when this scheduler owns them, and the tasks of
    the session. *)
Definition candidates (s : state) (ts : list CronTask) : list CronTask :=
  (if _is_owner s then ts else []) ++ session_tasks (store s).

(** The stores of a scheduler agree: the file can be read as [ts], the durable tasks are
    those of the file, or will be reloaded, and no id is used twice. *)
Definition consistent (s : state) (ts : list CronTask) : Prop :=
  load (store s) = Ok ts /\ NoDup (id <$> ts ++ session_tasks (store s))
  /\ Forall (fun kv => kv.1 = id kv.2) (_session (store s))
  /\ (mtime (store s) = _last_mtime s -> _durable s = ts).

Lemma reload_ok (s : state) ts :
  consistent s ts ->
  exists s1, _reload_durable (E := Empty_set) false s = (s1, Ok tt)
    /\ _durable s1 = ts /\ store s1 = store s /\ sink s1 = sink s
    /\ _next_fire_at s1 = _next_fire_at s /\ _is_owner s1 = _is_owner s.
Proof.
  intros (Hl & _ & _ & Hm). unfold _reload_durable. cbn [orb].
  destruct (bool_decide_reflect (mtime (store s) = _last_mtime s)) as [He|He]; cbn [negb].
  - exists s. split_and!; try done. by apply Hm.
  - cbn [store with_mtime]. rewrite Hl. eexists. split; [done|]. done.
Qed.

Lemma session_keys (d : list (string * CronTask)) :
  Forall (fun kv => kv.1 = id kv.2) d -> Dict.keys d = id <$> Dict.values d.
Proof.
  unfold Dict.keys, Dict.values. induction 1 as [|[k x] d He _ IH]; [done|].
  rewrite !fmap_cons, IH. simpl in *. by rewrite He.
Qed.

Lemma session_get (d : list (string * CronTask)) :
  Forall (fun kv => kv.1 = id kv.2) d -> NoDup (Dict.keys d) ->
  Forall (fun x => Dict.get (id x) d = Some x) (Dict.values d).
Proof.
  intros Hw Hn. rewrite Forall_forall. intros x Hx. apply list_elem_of_fmap in Hx as ([k y] & -> & Hin).
  rewrite Forall_forall in Hw. pose proof (Hw _ Hin) as He. simpl in *. subst k. by apply Dict.elem_get.
Qed.

Lemma get_pruned {V} (l : list string) (d : list (string * V)) k :
  Dict.get k (filter (fun kv => kv.1 ∈ l) d) = if decide (k ∈ l) then Dict.get k d else None.
Proof.
  induction d as [|[k' v] d IH]; [by destruct (decide (k ∈ l))|]. rewrite filter_cons. simpl.
  destruct (decide (k' ∈ l)) as [Hk'|Hk']; simpl; rewrite IH.
  - destruct (decide (k = k')) as [->|]; [by rewrite decide_True|done].
  - destruct (decide (k = k')) as [->|]; [by destruct (decide (k' ∈ l))|done].
Qed.

Lemma ready_table (s1 s : state) x :
  _next_fire_at s1 = _next_fire_at s -> ready s1 x = ready s x.
Proof. unfold ready, due_at. by intros ->. Qed.

Lemma passed_from (s1 s s' : state) l :
  sink s1 = sink s -> _next_fire_at s1 = _next_fire_at s -> passed s1 s' l -> passed s s' l.
Proof. intros H1 H2. unfold passed, table_after, ready, due_at. by rewrite H1, H2. Qed.

(** The durable part of a tick, owner or not. *)
Lemma durable_part (s1 : state) r ts :
  durable_pass zone md5 record_fire task_filter now cfg s1 = (r, Ok tt) ->
  load (store s1) = Ok ts -> _durable s1 = ts ->
  NoDup (id <$> ts ++ session_tasks (store s1)) ->
  Forall (fun kv => kv.1 = id kv.2) (_session (store s1)) ->
  passed s1 (sched r) (if _is_owner s1 then ts else [])
  /\ seen_more (mkRound s1 [] []) r (if _is_owner s1 then ts else [])
  /\ _session (store (sched r)) = _session (store s1)
  /\ load (store (sched r)) = Ok (if _is_owner s1 then after s1 <$> remaining s1 ts else ts).
Proof.
  intros H Hl Hd Hnd Hw. rewrite fmap_app, NoDup_app in Hnd. destruct Hnd as (N1 & N2 & N3).
  unfold session_tasks in *. rewrite <- session_keys in N2, N3 by done.
  destruct (_is_owner s1) eqn:Ho.
  - rewrite <- Hd. apply durable_pass_ok; rewrite ?Hd; try done.
    intros x Hx. apply N2. by apply list_elem_of_fmap_2.
  - unfold durable_pass in H. rewrite Ho in H. injection H as <-. split_and!; try done.
    + split_and!; [by rewrite app_nil_r|done|constructor].
    + intros i. split; [by left|]. intros [?|(? & ?%not_elem_of_nil & _)]; done.
Qed.

Lemma ids_after (s : state) (l : list CronTask) i :
  i ∈ id <$> (after s <$> remaining s l) -> i ∈ id <$> l.
Proof.
  intros (y & -> & (x & -> & [_ Hx]%list_elem_of_filter)%list_elem_of_fmap)%list_elem_of_fmap.
  apply list_elem_of_fmap. exists x. split; [|done]. unfold after. by destruct (goes_on s x).
Qed.

End OneTick.

(** A tick fires exactly what is due. When the agent is idle, and the file and the table
    can be read, a tick that returns has fired, once each and in order, the tasks of its
    durable list (if it owns the lock) and of the session whose next fire time is at most
    [now]; a task seen for the first time is due at the time computed from its last fire or
    creation. A recurring task that fired is scheduled again from [now] and stamped, in the
    file or in the session; a one-shot or aged task that fired is gone from both stores and
    the table; a task that did not fire keeps its time. The table holds no other task. *)
Theorem tick_exact now cfg s s' ts :
  consistent s ts ->
  _check zone md5 record_fire task_filter now cfg false true s = (s', Ok tt) ->
  sink s' = sink s ++ filter (fun x => ready now cfg s x = true) (candidates s ts)
  /\ Forall (fun x => task_filter x = true ->
        table_after now cfg s x (Dict.get (id x) (_next_fire_at s'))) (candidates s ts)
  /\ (forall k, k ∈ Dict.keys (_next_fire_at s') ->
        exists x, x ∈ candidates s ts /\ task_filter x = true /\ k = id x)
  /\ load (store s') = Ok (if _is_owner s then after now cfg s <$> remaining now cfg s ts else ts)
  /\ Forall (fun x => Dict.get (id x) (_session (store s')) = session_after now cfg s x)
       (session_tasks (store s)).
Proof.
  intros Hc H. pose proof Hc as (Hl & Hnd & Hw & _). unfold _check in H. cbn [negb] in H.
  destruct (reload_ok s ts Hc) as (s1 & Hrel & Hd1 & Hst1 & Hsk1 & Hnf1 & Ho1).
  rewrite Hrel in H. cbn [then_] in H.
  destruct (durable_pass _ _ _ _ now cfg s1) as [r [[]|e]] eqn:Hdp; [|done].
  destruct (durable_part now cfg s1 r ts Hdp) as (P1 & P2 & P3 & P4); rewrite ?Hst1; try done.
  rewrite Ho1, Hst1 in *. unfold candidates.
  set (l1 := if _is_owner s then ts else []) in *. set (l2 := session_tasks (store s)) in *.
  assert (NoDup (id <$> l1 ++ l2)) as Hnd'.
  { unfold l1. destruct (_is_owner s); [done|]. rewrite fmap_app, NoDup_app in Hnd. by destruct Hnd as (_ & _ & ?). }
  pose proof Hnd as (N1 & N2 & N3)%NoDup_app_fmap.
  assert (session_tasks (store (sched r)) = l2) as Hl2 by (unfold session_tasks, l2; by rewrite P3).
  rewrite Hl2 in H.
  destruct (process_session _ _ _ _ now cfg l2 r) as [r2 [[]|e]] eqn:Hps; [|done].
  injection H as <-.
  destruct (session_ok now cfg _ _ _
    (if _is_owner s then after now cfg s1 <$> remaining now cfg s1 ts else ts) Hps N3)
    as (Q1 & Q2 & Q3 & Q4 & _).
  { rewrite P3, session_keys by done. exact N3. }
  { rewrite P3. apply session_get; [done|]. rewrite session_keys by done. exact N3. }
  { exact P4. }
  { intros x Hx Hi. apply (N2 (id x)); [|by apply list_elem_of_fmap_2].
    destruct (_is_owner s); [|done]. by apply ids_after in Hi. }
  pose proof (passed_from now cfg s1 s _ _ Hsk1 Hnf1 (passed_app now cfg _ _ _ _ _ Hnd' P1 Q1)) as (R1 & _ & R3).
  assert (forall i, i ∈ seen r2 <-> exists x, x ∈ l1 ++ l2 /\ task_filter x = true /\ i = id x) as Hseen.
  { intros i. rewrite (Q2 i), (P2 i). cbn [seen]. setoid_rewrite elem_of_app. split.
    - intros [[?%not_elem_of_nil|(x & ? & ?)]|(x & ? & ?)]; [done|eauto 6..].
    - intros (x & [?|?] & ?); eauto 6. }
  cbn [prune with_table sink _next_fire_at store]. split_and!.
  - exact R1.
  - rewrite Forall_forall in R3 |- *. intros x Hx Htf. rewrite get_pruned, decide_True by (apply Hseen; eauto).
    by apply R3.
  - intros k Hk. apply Hseen. apply list_elem_of_fmap in Hk as ([k' v] & -> & Hk).
    by apply list_elem_of_filter in Hk as [? _].
  - rewrite Q3. destruct (_is_owner s); [|done]. f_equal.
    unfold remaining, after, goes_on, finished, ready, due_at. by rewrite Hnf1.
  - rewrite Forall_forall in Q4 |- *. intros x Hx. rewrite Q4 by done.
    destruct P1 as (_ & Hk & _). unfold session_after, finished, after, goes_on.
    rewrite (ready_same now cfg s (sched r)); [done|]. rewrite <- Hnf1. apply Hk.
    intros Hi. apply (N2 (id x)); [|by apply list_elem_of_fmap_2]. unfold l1 in Hi.
    by destruct (_is_owner s); [|apply not_elem_of_nil in Hi].
Qed.

(** ** Histories

    Ticks, whether they raise or not, calls of the store, edits of the file by others, and
    restarts of the process, which lose the session and start a new scheduler. *)
Inductive event :=
| Tick (killed idle : bool) (now : Z) (cfg : CronJitterConfig)
| Add (x : CronTask)
| Remove (ids : list string)
| Edit (c : option content)
| Restart (acquired : bool) (now : Z).

Definition edit (st : CronStore.t) (c : option content) : CronStore.t :=
  CronStore.mk ((fun c => (tick st, c)) <$> c) (tick st + 1) (_session st) (write_fails st).

Definition apply_event (s : state) (e : event) : state :=
  match e with
  | Tick killed idle now cfg => fst (_check zone md5 record_fire task_filter now cfg killed idle s)
  | Add x => with_store s (fst (add (store s) x))
  | Remove ids => with_store s (fst (remove (store s) ids))
  | Edit c => with_store s (edit (store s) c)
  | Restart acquired now =>
      fst (start zone record_fire None task_filter now acquired
             (init (CronStore.init (write_fails (store s)) (disk (store s)) (tick (store s))) (sink s)))
  end.

Definition history (s : state) (es : list event) : state := foldl apply_event s es.










Lemma with_same (s : state) : with_sink (with_store s (store s)) (sink s) = s.
Proof. by destruct s. Qed.
























End Recorded.

(** A recurring task that fired is due again later than the tick: one occurrence, one fire. *)
Lemma rescheduled_later `{ZoneLaws zone} md5 now cfg x d :
  frac_in_unit md5 (id x) -> config_ok cfg -> 0 <= now ->
  of_cron (jittered_next_cron_run_ms zone md5 (cron x) now (id x) cfg) = Ok (Some d) -> now < d.
Proof.
  intros Hf Hc H0 Hd.
  assert (jittered_next_cron_run_ms zone md5 (cron x) now (id x) cfg = Ok (Some d)) as Hd'.
  { by destruct (jittered_next_cron_run_ms _ _ _ _ _ _) as [|[]]; [injection Hd as ->|..]. }
  destruct (recurring_bounds md5 (cron x) now (id x) cfg d Hf Hc H0 Hd') as (t1 & _ & Ht & _). lia.
Qed.

(** ** The sink of the service ([CronService._on_fire]) *)
Record AutomationTrigger := mkTrigger {
  trigger_id : string;
  source_id : string;
  target : string;
  content : string;
  scheduled_at_ms : Z;
  fired_at_ms : Z
}.

(** The task's session, or the one that owns the service; an empty id is none. *)
Definition target_of (session_id : string) (x : CronTask) : string :=
  match target_session_id x with
  | Some s => if bool_decide (s = "") then session_id else s
  | None => session_id
  end.

Definition service_on_fire {W E} (dispatch : W -> AutomationTrigger -> W * outcome E unit)
    (session_id : string) (fired_at : Z) (w : W) (x : CronTask) : W * outcome Empty_set unit :=
  let tgt := target_of session_id x in
  if bool_decide (tgt = "") then (w, Ok tt)
  else
    let trigger := mkTrigger ("cron:" +:+ id x +:+ ":" +:+ Text.fmt fired_at) (id x) tgt (prompt x)
                     (anchor x) fired_at in
    (fst (dispatch w trigger), Ok tt).

Module Example.

Definition no_digest : digest_head := fun _ => 0.
Definition all_tasks (_ : CronTask) : bool := true.
Definition cfg := DEFAULT_CRON_JITTER_CONFIG.

(** Half of the jitter: due 45 seconds before one o'clock. *)
Definition hourly : CronTask :=
  mkTask "80000000" "0 * * * *" "ping" 0 None false false true None None.
Definition repeated : CronTask :=
  mkTask "00000000" "*/10 * * * *" "poll" 0 None true false true None None.

Definition s0 : t (list CronTask) := init (CronStore.init reliable None 0) [].

Definition run := history utc no_digest all_tasks.

(** The due tasks of a tick fire, the one-shot goes and the recurring one stays. *)
Definition ready_store : t (list CronTask) :=
  run s0 [Add hourly; Add repeated; Restart true 0].

Lemma tick_exact_witness :
  exists s', _check utc no_digest record_fire all_tasks 3600000 cfg false true ready_store = (s', Ok tt)
    /\ sink s' = [hourly; repeated] /\ load (store s') = Ok [with_last_fired repeated 3600000].
Proof.
  destruct (_check utc no_digest record_fire all_tasks 3600000 cfg false true ready_store)
    as [s' [[]|e]] eqn:E; [|vm_compute in E; discriminate].
  destruct (tick_exact utc no_digest all_tasks 3600000 cfg ready_store s' [hourly; repeated])
    as (H1 & _ & _ & H4 & _).
  - split_and!; [vm_compute; reflexivity| |vm_compute; constructor|vm_compute; reflexivity].
    apply (bool_decide_unpack _). vm_compute. exact I.
  - exact E.
  - exists s'. split; [done|]. rewrite H1, H4. split; vm_compute; reflexivity.
Defined.



(** A file that cannot be decoded breaks the promise: the reload that raises has already
    stored the new modification time, so the next ticks run on the list of durable tasks from
    before the fire, and the one-shot task fires at every tick. *)
Lemma undecodable_file_refires :
  length (sink (run s0 [Add hourly; Restart true 0; Tick false true 3600000 cfg;
                        Edit (Some NotUtf8); Tick false true 3601000 cfg;
                        Tick false true 3602000 cfg; Tick false true 3603000 cfg])) = 3%nat.
Proof. vm_compute. reflexivity. Qed.

(** A full disk breaks it too: the task fires, its removal from the file raises out of the
    tick, and the loop, which goes on after an exception, fires it again at every tick until
    a write succeeds. Here the second and the third write fail; the fourth removes it. *)
Definition full_disk : Z -> bool := fun m => (1 <=? m) && (m <=? 2).
Definition s1 : t (list CronTask) := init (CronStore.init full_disk None 0) [].

Lemma failed_removal_refires :
  let s := run s1 [Add hourly; Restart true 0; Tick false true 3600000 cfg;
                   Tick false true 3601000 cfg; Tick false true 3602000 cfg;
                   Tick false true 3603000 cfg] in
  sink s = [hourly; hourly; hourly] /\ load (store s) = Ok []
  /\ snd (_check utc no_digest record_fire all_tasks 3600000 cfg false true
            (run s1 [Add hourly; Restart true 0])) = Raise (StoreError OSError).
Proof. vm_compute. done. Qed.

End Example.
End CronScheduler.
