(* ===== verification/Shell.v ===== *)
(** * Shell commands as the permission layer reads them

    [runtime/tools/permission/command_parse.py]: the segments of a command line, the
    environment assignments before a command, and the prefix an approval is remembered as;
    on [shlex.split], [shlex.join] and [fnmatch] of the standard library, which are
    modelled here as they are used (POSIX mode, split at white space, no comments). *)

From S2P Require Import Prelude Text.
From Stdlib Require Import Ascii String.
From stdpp Require Import base list strings.

Open Scope string_scope.
Open Scope list_scope.
Open Scope mote_scope.
Open Scope Z_scope.

(** ** [shlex] *)
Module Shlex.

Definition is_ws (c : ascii) : bool :=
  bool_decide (c = " "%char) || bool_decide (c = "009"%char) || bool_decide (c = "013"%char)
  || bool_decide (c = "010"%char).

Definition squote : ascii := "'"%char.
Definition dquote : ascii := "034"%char.
Definition backslash : ascii := "\"%char.

Definition is_quote (c : ascii) : bool := bool_decide (c = squote) || bool_decide (c = dquote).

(** The state of the reader; an escape remembers the quote it stands in. *)
Inductive state := Blank | Word | Quote (q : ascii) | Escape (within : option ascii).

Definition snoc (s : string) (c : ascii) : string := s +:+ String c "".

Definition is_token (tok : string) (quoted : bool) : bool := negb (bool_decide (tok = "")) || quoted.

(** [None] is the [ValueError] of a quotation or escape that does not end. *)
Fixpoint lex (st : state) (tok : string) (quoted : bool) (s : string) : option (list string) :=
  match s with
  | EmptyString =>
      match st with
      | Quote _ | Escape _ => None
      | Blank | Word => Some (if is_token tok quoted then [tok] else [])
      end
  | String c s' =>
      match st with
      | Blank | Word =>
          if is_ws c then
            if is_token tok quoted then
              match lex Blank "" false s' with Some l => Some (tok :: l) | None => None end
            else lex Blank tok quoted s'
          else if bool_decide (c = backslash) then lex (Escape None) tok quoted s'
          else if is_quote c then lex (Quote c) tok quoted s'
          else lex Word (snoc tok c) quoted s'
      | Quote q =>
          if bool_decide (c = q) then lex Word tok true s'
          else if bool_decide (c = backslash) && bool_decide (q = dquote)
          then lex (Escape (Some q)) tok true s'
          else lex (Quote q) (snoc tok c) true s'
      | Escape within =>
          match within with
          | Some q =>
              let tok := if bool_decide (c = backslash) || bool_decide (c = q) then tok
                         else snoc tok backslash in
              lex (Quote q) (snoc tok c) quoted s'
          | None => lex Word (snoc tok c) quoted s'
          end
      end
  end.

Definition split (s : string) : option (list string) := lex Blank "" false s.

(** What [shlex.quote] leaves alone. *)
Definition is_safe (c : ascii) : bool :=
  let k := Text.code c in
  ((48 <=? k) && (k <=? 57)) || ((65 <=? k) && (k <=? 90)) || ((97 <=? k) && (k <=? 122))
  || bool_decide (c ∈ ["_"; "@"; "%"; "+"; "="; ":"; ","; "."; "/"; "-"]%char).

Fixpoint escape_quotes (s : string) : string :=
  match s with
  | EmptyString => EmptyString
  | String c s' =>
      if bool_decide (c = squote)
      then String squote (String dquote (String squote (String dquote (String squote (escape_quotes s')))))
      else String c (escape_quotes s')
  end.

Definition quote (s : string) : string :=
  if negb (bool_decide (s = "")) && Text.forall_chars is_safe s then s
  else String squote (escape_quotes s +:+ String squote "").

Definition join (argv : list string) : string := Text.join " " (quote <$> argv).

(** *** Splitting what was joined *)

#[local] Arguments String.append !_ _ / : simpl nomatch.

Lemma snoc_app tok c s : snoc tok c +:+ s = tok +:+ String c s.
Proof. unfold snoc. by rewrite <- Text.append_assoc. Qed.

Lemma safe_plain c : is_safe c = true -> is_ws c = false /\ is_quote c = false /\ c <> backslash.
Proof.
  intros H. assert (forallb (fun n => let c := ascii_of_nat n in
    implb (is_safe c) (negb (is_ws c) && negb (is_quote c) && negb (bool_decide (c = backslash))))
    (seq 0 256) = true) as Hall by (vm_compute; reflexivity).
  rewrite forallb_forall in Hall. specialize (Hall (nat_of_ascii c)).
  rewrite ascii_nat_embedding in Hall. cbv zeta in Hall. rewrite H in Hall. cbn [implb] in Hall.
  assert (nat_of_ascii c < 256)%nat by apply nat_ascii_bounded.
  rewrite !andb_true_iff, !negb_true_iff, bool_decide_eq_false in Hall.
  destruct Hall as [[? ?] ?]; [apply in_seq; lia|]. done.
Qed.

Lemma lex_plain st tok q c s :
  (st = Blank \/ st = Word) -> is_ws c = false -> is_quote c = false -> c <> backslash ->
  lex st tok q (String c s) = lex Word (snoc tok c) q s.
Proof.
  intros Hst H1 H2 H3. destruct Hst as [-> | ->]; cbn [lex];
    by rewrite H1, H2, bool_decide_false.
Qed.

Lemma lex_safe tok q w s :
  Text.forall_chars is_safe w = true -> lex Word tok q (w +:+ s) = lex Word (tok +:+ w) q s.
Proof.
  revert tok. induction w as [|c w IH]; intros tok.
  - intros _. simpl. by rewrite Text.append_nil_r.
  - cbn [Text.forall_chars String.append]. intros [Hc Hw]%andb_prop.
    destruct (safe_plain c Hc) as (H1 & H2 & H3). rewrite lex_plain by auto. by rewrite IH, snoc_app.
Qed.

Lemma lex_close q tok b s : lex (Quote q) tok b (String q s) = lex Word tok true s.
Proof. cbn [lex]. by rewrite bool_decide_true. Qed.

Lemma lex_open q st tok b s :
  is_quote q = true -> (st = Blank \/ st = Word) -> lex st tok b (String q s) = lex (Quote q) tok b s.
Proof.
  unfold is_quote. rewrite orb_true_iff, !bool_decide_eq_true.
  by intros [-> | ->] [-> | ->].
Qed.

Lemma lex_inside q c tok b s :
  c <> q -> c <> backslash \/ q <> dquote ->
  lex (Quote q) tok b (String c s) = lex (Quote q) (snoc tok c) true s.
Proof.
  intros Hq Hb. cbn [lex]. rewrite bool_decide_false by done.
  destruct Hb as [Hb|Hb]; rewrite (bool_decide_false _ Hb); [done|by rewrite andb_false_r].
Qed.

Lemma lex_quoted tok q a s :
  lex (Quote squote) tok q (escape_quotes a +:+ String squote s) = lex Word (tok +:+ a) true s.
Proof.
  revert tok q. induction a as [|c a IH]; intros tok q.
  - cbn [escape_quotes String.append]. by rewrite lex_close, Text.append_nil_r.
  - cbn [escape_quotes]. destruct (bool_decide_reflect (c = squote)) as [->|Hc]; cbn [String.append].
    + rewrite lex_close, lex_open, lex_inside, lex_close, lex_open, IH by auto. by rewrite snoc_app.
    + rewrite lex_inside, IH by auto. by rewrite snoc_app.
Qed.

(** A quoted argument is read as itself, to the end of the word. *)
Lemma lex_quote a s : exists q, lex Blank "" false (quote a +:+ s) = lex Word a q s /\ is_token a q = true.
Proof.
  unfold quote. destruct (negb (bool_decide (a = "")) && Text.forall_chars is_safe a) eqn:E.
  - apply andb_prop in E as [Hne Hs]. exists false. destruct a as [|c a]; [done|].
    cbn [Text.forall_chars] in Hs. apply andb_prop in Hs as [Hc Hs].
    destruct (safe_plain c Hc) as (H1 & H2 & H3).
    split; [|done]. cbn [String.append]. rewrite lex_plain by auto. by rewrite lex_safe.
  - exists true. split; [|unfold is_token; by rewrite orb_true_r].
    cbn [String.append]. rewrite <- Text.append_assoc. cbn [String.append].
    by rewrite lex_open, lex_quoted by auto.
Qed.

Lemma lex_space a q s : is_token a q = true ->
  lex Word a q (String " " s) = match lex Blank "" false s with Some l => Some (a :: l) | None => None end.
Proof. intros H. cbn [lex]. by rewrite H. Qed.

Lemma split_joined argv : split (join argv) = Some argv.
Proof.
  unfold split, join. induction argv as [|a argv IH]; [done|]. destruct argv as [|b argv].
  - cbn [fmap list_fmap Text.join]. destruct (lex_quote a "") as (q & H & Ht).
    rewrite Text.append_nil_r in H. rewrite H. cbn [lex]. by rewrite Ht.
  - change (Text.join " " (quote <$> a :: b :: argv))
      with (quote a +:+ String " " (Text.join " " (quote <$> b :: argv))).
    destruct (lex_quote a (String " " (Text.join " " (quote <$> b :: argv)))) as (q & H & Ht).
    rewrite H, lex_space by done. by rewrite IH.
Qed.

(** *** Tokens are no longer than their text *)
Definition credit (st : state) : nat := match st with Escape (Some _) => 1 | _ => 0 end.

Definition total (l : list string) : nat := list_sum (String.length <$> l).

Lemma total_cons a l : total (a :: l) = (String.length a + total l)%nat.
Proof. done. Qed.

Lemma snoc_length s c : String.length (snoc s c) = S (String.length s).
Proof. unfold snoc. rewrite Text.append_length. simpl. lia. Qed.

Lemma lex_length st tok q s l :
  lex st tok q s = Some l -> (total l <= String.length tok + String.length s + credit st)%nat.
Proof.
  revert st tok q l. induction s as [|c s IH]; intros st tok q l H; cbn [lex] in H.
  - destruct st; try done; injection H as <-; destruct (is_token tok q); unfold total; simpl; lia.
  - destruct st as [| |q'|[q'|]].
    1,2: (destruct (is_ws c);
      [destruct (is_token tok q);
        [destruct (lex Blank "" false s) as [l'|] eqn:E; [|done]; injection H as <-;
         apply IH in E; rewrite total_cons; cbn [credit String.length] in *; lia
        |apply IH in H; cbn [credit String.length] in *; lia]
      |destruct (bool_decide (c = backslash)); [|destruct (is_quote c)];
        apply IH in H; rewrite ?snoc_length in H; cbn [credit String.length] in *; lia]).
    + destruct (bool_decide (c = q')); [|destruct (_ && _)];
        apply IH in H; rewrite ?snoc_length in H; cbn [credit String.length] in *; lia.
    + destruct (_ || _); apply IH in H; rewrite ?snoc_length in H; cbn [credit String.length] in *; lia.
    + apply IH in H. rewrite snoc_length in H. cbn [credit String.length] in *. lia.
Qed.

Lemma split_length s l : split s = Some l -> (total l <= String.length s)%nat.
Proof. intros H%lex_length. simpl in H. lia. Qed.

End Shlex.

(** ** [fnmatch] *)
Module Glob.

Inductive token := Literal (c : ascii) | AnyOne | Star | OneOf (negated : bool) (items : list (ascii * ascii)).

(** The characters and ranges of a set. *)
Fixpoint items (s : string) : list (ascii * ascii) :=
  match s with
  | String a (String "-" (String b rest)) => (a, b) :: items rest
  | String a rest => (a, a) :: items rest
  | EmptyString => []
  end.

(** The set after a bracket, and the number of characters it takes; [None] if it has no
    end. A closing bracket in the first place is a character of the set. *)
Definition bracket (s : string) : option (bool * string * nat) :=
  let '(negated, r) := match s with String "!" r => (true, r) | _ => (false, s) end in
  let '(first, r) := match r with String "]" r => ("]", r) | _ => ("", r) end in
  match Text.partition "]" r with
  | (content, true, _) =>
      let content := first +:+ content in
      Some (negated, content, ((if negated then 1 else 0) + String.length content + 1)%nat)
  | _ => None
  end.

Fixpoint translate (skip : nat) (s : string) : list token :=
  match s with
  | EmptyString => []
  | String c s' =>
      match skip with
      | S k => translate k s'
      | O =>
          if bool_decide (c = "*"%char) then Star :: translate O s'
          else if bool_decide (c = "?"%char) then AnyOne :: translate O s'
          else if bool_decide (c = "["%char) then
            match bracket s' with
            | Some (negated, content, n) => OneOf negated (items content) :: translate n s'
            | None => Literal c :: translate O s'
            end
          else Literal c :: translate O s'
      end
  end.

Definition in_item (c : ascii) (i : ascii * ascii) : bool :=
  (Text.code i.1 <=? Text.code c) && (Text.code c <=? Text.code i.2).

Definition one (t : token) (c : ascii) : bool :=
  match t with
  | Literal d => bool_decide (c = d)
  | AnyOne => true
  | Star => false
  | OneOf negated l => xorb negated (existsb (in_item c) l)
  end.

Fixpoint matches (ts : list token) (s : string) : bool :=
  match ts with
  | [] => bool_decide (s = "")
  | Star :: ts =>
      (fix go (s : string) : bool :=
         matches ts s || match s with EmptyString => false | String _ s' => go s' end) s
  | t :: ts =>
      match s with
      | EmptyString => false
      | String c s' => one t c && matches ts s'
      end
  end.

Definition fnmatch (name pat : string) : bool := matches (translate O pat) name.

Definition is_magic (c : ascii) : bool :=
  bool_decide (c = "*"%char) || bool_decide (c = "?"%char) || bool_decide (c = "["%char).

(** A pattern without magic characters matches itself alone. *)
Lemma fnmatch_literal pat name :
  Text.forall_chars (fun c => negb (is_magic c)) pat = true ->
  fnmatch name pat = bool_decide (name = pat).
Proof.
  unfold fnmatch. revert name. induction pat as [|c pat IH]; intros name; [done|].
  cbn [Text.forall_chars]. unfold is_magic. intros [Hc Hp]%andb_prop.
  rewrite !negb_orb, !andb_true_iff, !negb_true_iff, !bool_decide_eq_false in Hc.
  destruct Hc as [[H1 H2] H3]. cbn [translate]. rewrite !bool_decide_false by done.
  cbn [matches one]. destruct name as [|d name]; [done|]. rewrite IH by done.
  destruct (bool_decide_reflect (d = c)) as [->|Hne]; cbn [andb].
  - apply bool_decide_ext. split; congruence.
  - symmetry. apply bool_decide_false. congruence.
Qed.

Lemma fnmatch_star name : fnmatch name "*" = true.
Proof.
  unfold fnmatch. change (translate O "*") with [Star]. induction name as [|c name IH]; [done|].
  cbn [matches] in IH |- *. by rewrite IH.
Qed.

End Glob.

(** ** [command_parse.py] *)
Module CommandParse.

Definition _SEPARATORS : list string := ["&&"; "||"; ";"; "|"; "|&"; "&"].
Definition _SHELLS : list string := ["sh"; "bash"; "zsh"; "dash"; "ksh"].
Definition _UNSAFE_ENV_VARS : list string :=
  ["PATH"; "LD_PRELOAD"; "LD_LIBRARY_PATH"; "DYLD_INSERT_LIBRARIES"; "DYLD_LIBRARY_PATH";
   "PYTHONPATH"; "NODE_OPTIONS"; "BASH_ENV"; "ENV"; "IFS"; "SHELL"].
Definition _SUBCOMMAND_COMMANDS : list string :=
  ["git"; "npm"; "pnpm"; "yarn"; "docker"; "docker-compose"; "cargo"; "pip"; "pip3"; "go";
   "kubectl"; "apt"; "apt-get"; "brew"; "gh"; "poetry"; "uv"; "make"; "conda"; "dotnet";
   "bundle"; "gem"; "terraform"; "systemctl"].

Definition _basename (path : string) : string := Text.after_last "/" path.

Definition _tokenize (text : string) : option (list string) := Shlex.split text.

Definition is_separator (tok : string) : bool := bool_decide (tok ∈ _SEPARATORS).

(** The loop that cuts the tokens at the separators. *)
Fixpoint cut (tokens : list string) (current : list string) : list (list string) :=
  match tokens with
  | [] => match current with [] => [] | _ => [current] end
  | tok :: tokens =>
      if is_separator tok then
        match current with [] => cut tokens [] | _ => current :: cut tokens [] end
      else cut tokens (current ++ [tok])
  end.

Definition is_c_flag (tok : string) : bool := Text.startswith tok "-" && Text.endswith tok "c".

Fixpoint script_of (args : list string) : option string :=
  match args with
  | tok :: rest =>
      match rest with
      | script :: _ => if is_c_flag tok then Some script else script_of rest
      | [] => None
      end
  | [] => None
  end.

Definition _unwrap_shell_c (argv : list string) : option string :=
  match argv with
  | [] => None
  | cmd :: args => if bool_decide (_basename cmd ∈ _SHELLS) then script_of args else None
  end.

(** What parsing a line gives; running out of fuel is excluded below. *)
Inductive parsed := OutOfFuel | Unparseable | Segments (l : list (list string)).

(** The loop that expands wrapped scripts, with the parser of the scripts. *)
Fixpoint expand (parse : string -> parsed) (segments : list (list string)) : parsed :=
  match segments with
  | [] => Segments []
  | argv :: segments =>
      let first := match _unwrap_shell_c argv with
                   | None => Segments [argv]
                   | Some inner => parse inner
                   end in
      match first with
      | Segments sub =>
          match expand parse segments with
          | Segments rest => Segments (sub ++ rest)
          | r => r
          end
      | r => r
      end
  end.

Fixpoint parse_fuel (n : nat) (command : string) : parsed :=
  match n with
  | O => OutOfFuel
  | S n =>
      match _tokenize command with
      | None => Unparseable
      | Some tokens => expand (parse_fuel n) (cut tokens [])
      end
  end.

Definition parse_segments (command : string) : option (list (list string)) :=
  match parse_fuel (S (String.length command)) command with
  | Segments l => Some l
  | _ => None
  end.

Definition segment_strings (command : string) : list string :=
  match parse_segments command with
  | None | Some [] =>
      let text := Text.strip command in
      if bool_decide (text = "") then [] else [text]
  | Some segments => Shlex.join <$> filter (fun argv => argv <> []) segments
  end.

(** An assignment is [NAME=...] with a name of letters, digits and underscores that starts
    with a letter. *)
Definition assigned (tok : string) : option string :=
  match Text.partition "=" tok with
  | (name, true, _) =>
      if negb (bool_decide (name = "")) && Text.isalnum (Text.remove_char "_" name)
         && match tok with String c _ => Text.is_alpha c | EmptyString => false end
      then Some name else None
  | _ => None
  end.

Fixpoint _strip_env (argv : list string) : list string * bool :=
  match argv with
  | [] => ([], false)
  | tok :: rest =>
      match assigned tok with
      | None => (argv, false)
      | Some name =>
          let '(rest, unsafe) := _strip_env rest in
          (rest, bool_decide (name ∈ _UNSAFE_ENV_VARS) || unsafe)
      end
  end.

Definition prefix_tokens (command : string) : option (list string) :=
  match parse_segments command with
  | None | Some [] => None
  | Some (first :: _) =>
      let '(argv, unsafe) := _strip_env first in
      if unsafe || bool_decide (argv = []) then None else Some argv
  end.

Definition _is_bare_word (token : string) : bool :=
  match token with
  | EmptyString => false
  | String c _ =>
      if bool_decide (c = "-"%char) || Text.contains "/" token || Text.contains "." token then false
      else Text.isalnum (Text.remove_char "-" (Text.remove_char "_" token))
           && negb (Text.isdigit token)
  end.

Definition command_prefix (command : string) : option string :=
  match prefix_tokens command with
  | None | Some [] => None
  | Some (first :: rest) =>
      let cmd := _basename first in
      if bool_decide (cmd = "") then None
      else
        match rest with
        | sub :: _ =>
            if bool_decide (cmd ∈ _SUBCOMMAND_COMMANDS) && _is_bare_word sub
            then Some (cmd +:+ " " +:+ sub) else Some cmd
        | [] => Some cmd
        end
  end.

(** *** The parser ends *)
Lemma total_app l1 l2 : Shlex.total (l1 ++ l2) = (Shlex.total l1 + Shlex.total l2)%nat.
Proof. unfold Shlex.total. by rewrite fmap_app, list_sum_app. Qed.

Lemma cut_total tokens current :
  Forall (fun argv => (Shlex.total argv <= Shlex.total current + Shlex.total tokens)%nat) (cut tokens current).
Proof.
  revert current. induction tokens as [|tok tokens IH]; intros current; cbn [cut].
  - destruct current; repeat constructor. lia.
  - rewrite Shlex.total_cons. destruct (is_separator tok).
    + assert (Forall (fun argv => (Shlex.total argv <= Shlex.total current + (String.length tok + Shlex.total tokens))%nat)
                (cut tokens [])) as H.
      { eapply Forall_impl; [apply (IH [])|]. intros argv. unfold Shlex.total at 2. simpl. lia. }
      destruct current; [done|]. constructor; [lia|done].
    + eapply Forall_impl; [apply IH|]. intros argv. rewrite total_app. unfold Shlex.total at 3. simpl. lia.
Qed.

Lemma script_total args script : script_of args = Some script -> (String.length script <= Shlex.total args)%nat.
Proof.
  induction args as [|tok args IH]; [done|]. cbn [script_of]. destruct args as [|a args]; [done|].
  rewrite !Shlex.total_cons in *. destruct (is_c_flag tok); [intros [= <-]; lia|].
  intros H. specialize (IH H). lia.
Qed.

Lemma basename_nil : _basename "" = "".
Proof. done. Qed.

(** The script of a wrapper is shorter than the wrapper. *)
Lemma unwrap_shorter argv script :
  _unwrap_shell_c argv = Some script -> (String.length script < Shlex.total argv)%nat.
Proof.
  destruct argv as [|cmd args]; [done|]. cbn [_unwrap_shell_c]. rewrite Shlex.total_cons.
  case_bool_decide as Hs; [|done]. intros H%script_total.
  destruct cmd as [|c cmd]; [|simpl; lia]. exfalso.
  rewrite basename_nil in Hs. unfold _SHELLS in Hs. repeat (apply elem_of_cons in Hs as [Hs|Hs]; [done|]).
  by apply not_elem_of_nil in Hs.
Qed.

Lemma expand_fuel p segments :
  Forall (fun argv => forall script, _unwrap_shell_c argv = Some script -> p script <> OutOfFuel) segments ->
  expand p segments <> OutOfFuel.
Proof.
  induction 1 as [|argv segments H _ IH]; [done|]. cbn [expand].
  destruct (_unwrap_shell_c argv) as [script|].
  - specialize (H script eq_refl). destruct (p script); [done|done|]. by destruct (expand p segments).
  - by destruct (expand p segments).
Qed.

Lemma expand_ext p q segments :
  Forall (fun argv => forall script, _unwrap_shell_c argv = Some script -> p script = q script) segments ->
  expand p segments = expand q segments.
Proof.
  induction 1 as [|argv segments H _ IH]; [done|]. cbn [expand]. rewrite IH.
  destruct (_unwrap_shell_c argv) as [script|]; [|done]. by rewrite (H script eq_refl).
Qed.

Lemma token_segments command tokens :
  _tokenize command = Some tokens ->
  Forall (fun argv => forall script, _unwrap_shell_c argv = Some script ->
     (String.length script < String.length command)%nat) (cut tokens []).
Proof.
  intros Ht%Shlex.split_length. eapply Forall_impl; [apply cut_total|]. intros argv Ha script Hs.
  apply unwrap_shorter in Hs. unfold Shlex.total in Ha at 2. simpl in Ha. lia.
Qed.

Lemma parse_fuel_ok n command : (String.length command < n)%nat -> parse_fuel n command <> OutOfFuel.
Proof.
  revert command. induction n as [|n IH]; intros command H; [lia|]. cbn [parse_fuel].
  destruct (_tokenize command) as [tokens|] eqn:Ht; [|done]. apply expand_fuel.
  eapply Forall_impl; [by apply token_segments|]. intros argv Ha script Hs. apply IH.
  specialize (Ha script Hs). lia.
Qed.

Lemma parse_fuel_more n m command :
  (String.length command < n)%nat -> (String.length command < m)%nat ->
  parse_fuel n command = parse_fuel m command.
Proof.
  revert m command. induction n as [|n IH]; intros m command Hn Hm; [lia|].
  destruct m as [|m]; [lia|]. cbn [parse_fuel].
  destruct (_tokenize command) as [tokens|] eqn:Ht; [|done]. apply expand_ext.
  eapply Forall_impl; [by apply token_segments|]. intros argv Ha script Hs. apply IH;
    specialize (Ha script Hs); lia.
Qed.

Definition parse (command : string) : parsed := parse_fuel (S (String.length command)) command.

(** The equation of the recursive function. *)
Lemma parse_eq command :
  parse command = match _tokenize command with
                  | None => Unparseable
                  | Some tokens => expand parse (cut tokens [])
                  end.
Proof.
  unfold parse at 1. cbn [parse_fuel]. destruct (_tokenize command) as [tokens|] eqn:Ht; [|done].
  apply expand_ext. eapply Forall_impl; [by apply token_segments|]. intros argv Ha script Hs.
  apply parse_fuel_more; [by apply Ha|lia].
Qed.

(** *** What the segments are *)

(** One command: not empty, without separators, and not a wrapper. *)
Definition simple (argv : list string) : Prop :=
  argv <> [] /\ Forall (fun tok => is_separator tok = false) argv /\ _unwrap_shell_c argv = None.

Lemma cut_ok tokens current :
  Forall (fun tok => is_separator tok = false) current ->
  Forall (fun argv => argv <> [] /\ Forall (fun tok => is_separator tok = false) argv)
    (cut tokens current).
Proof.
  revert current. induction tokens as [|tok tokens IH]; intros current Hc; cbn [cut].
  - destruct current; [constructor|]. constructor; [by split|constructor].
  - destruct (is_separator tok) eqn:Ht.
    + assert (Forall (fun argv => argv <> [] /\ Forall (fun tok => is_separator tok = false) argv)
        (cut tokens [])) as H by (by apply IH).
      destruct current; [done|]. by constructor.
    + apply IH, Forall_app. split; [done|by repeat constructor].
Qed.

Lemma cut_simple argv current :
  Forall (fun tok => is_separator tok = false) argv ->
  cut argv current = match current ++ argv with [] => [] | l => [l] end.
Proof.
  revert current. induction argv as [|tok argv IH]; intros current; cbn [cut].
  - rewrite app_nil_r. by destruct current.
  - intros [-> H]%Forall_cons. rewrite IH by done. by rewrite <- app_assoc.
Qed.

Lemma expand_good p segments l :
  Forall (fun argv => argv <> [] /\ Forall (fun tok => is_separator tok = false) argv
            /\ forall script, _unwrap_shell_c argv = Some script ->
                 forall l, p script = Segments l -> Forall simple l) segments ->
  expand p segments = Segments l -> Forall simple l.
Proof.
  intros H. revert l. induction H as [|argv segments (H1 & H2 & H3) _ IH]; intros l; cbn [expand].
  { intros [= <-]. constructor. }
  destruct (_unwrap_shell_c argv) as [script|] eqn:Hu.
  - destruct (p script) as [| |sub] eqn:Hp; [done|done|].
    destruct (expand p segments) as [| |rest] eqn:He; [done|done|]. intros [= <-].
    apply Forall_app. split; [by apply (H3 script)|by apply IH].
  - destruct (expand p segments) as [| |rest] eqn:He; [done|done|]. intros [= <-].
    constructor; [by split_and!|by apply IH].
Qed.

Lemma parse_simple n command l :
  (String.length command < n)%nat -> parse command = Segments l -> Forall simple l.
Proof.
  revert command l. induction n as [|n IH]; intros command l Hn; [lia|]. rewrite parse_eq.
  destruct (_tokenize command) as [tokens|] eqn:Ht; [|done]. apply expand_good.
  pose proof (token_segments _ _ Ht) as Hs. pose proof (cut_ok tokens [] ltac:(constructor)) as Hc.
  rewrite Forall_forall in Hs, Hc |- *. intros argv Hin. destruct (Hc argv Hin) as [H1 H2].
  split_and!; [done|done|]. intros script Hu l' Hl. apply (IH script); [|done].
  specialize (Hs argv Hin script Hu). lia.
Qed.

Lemma parse_join argv : simple argv -> parse (Shlex.join argv) = Segments [argv].
Proof.
  intros (H1 & H2 & H3). rewrite parse_eq. unfold _tokenize. rewrite Shlex.split_joined, cut_simple by done.
  destruct argv as [|a argv]; [done|]. cbn [app expand]. by rewrite H3.
Qed.

Lemma parse_segments_eq command l : parse_segments command = Some l <-> parse command = Segments l.
Proof. unfold parse_segments, parse. destruct (parse_fuel _ command); naive_solver. Qed.

(** Parsing a command line ends, and its segments are stable. For every text the parser
    returns within its fuel; the segments it returns are single commands, without operators
    among their words and without a shell wrapper left around them; and the text a segment
    is judged by parses to that segment alone, so what the rules see is what the parser
    found, quotes and spaces included. *)
Theorem segments_stable command :
  parse command <> OutOfFuel
  /\ forall l, parse_segments command = Some l ->
       Forall simple l
       /\ Forall (fun argv => parse_segments (Shlex.join argv) = Some [argv]) l
       /\ (l <> [] -> segment_strings command = Shlex.join <$> l).
Proof.
  split; [apply parse_fuel_ok; lia|]. intros l Hl.
  assert (Forall simple l) as Hs.
  { apply (parse_simple (S (String.length command)) command); [lia|]. by apply parse_segments_eq. }
  split_and!; [done| |].
  - eapply Forall_impl; [exact Hs|]. intros argv Ha. by apply parse_segments_eq, parse_join.
  - intros Hne. unfold segment_strings. rewrite Hl. destruct l as [|argv l]; [done|].
    f_equal. apply filter_all. eapply Forall_impl; [exact Hs|]. by intros a [? _].
Qed.

(** An operator is seen only as a word of its own: glued to its neighbours, or as the end of
    a line, it does not separate the commands around it. *)
Lemma glued_operator_missed :
  parse_segments "echo a;python x" = Some [["echo"; "a;python"; "x"]].
Proof. vm_compute. reflexivity. Qed.

Lemma newline_missed :
  parse_segments ("ls" +:+ String "010" "python x") = Some [["ls"; "python"; "x"]].
Proof. vm_compute. reflexivity. Qed.

End CommandParse.
