(* ===== verification/Permission.v ===== *)
(** * Permissions of tool calls

    [runtime/tools/permission/]: rules and their matching ([rule_matcher.py]), the store of
    rules and its precedence ([rule_store.py]), the logical sandbox ([sandbox/guard.py]) and
    the engine that turns rules, mode, the tool's own check, the sandbox and the user's
    answer into a decision ([engine.py]). The user is a function on a world, [None] when
    there is no channel; [norm] is the file system's resolution of a path; the arguments a
    tool's check may rewrite are of any type. *)

From S2P Require Import Prelude Text Shell.
From Stdlib Require Import Ascii String.
From stdpp Require Import base list strings.

Open Scope string_scope.
Open Scope list_scope.
Open Scope mote_scope.
Open Scope Z_scope.

Module Rules.

Inductive PermissionBehavior := allow | deny | ask.
Inductive PermissionMode := default_mode | acceptEdits | plan | bypass | dontAsk.
Inductive RuleSource := role | project | local | session.

#[export] Instance behavior_eq_dec : EqDecision PermissionBehavior.
Proof. solve_decision. Defined.
#[export] Instance mode_eq_dec : EqDecision PermissionMode.
Proof. solve_decision. Defined.

Record PermissionRule := mkRule {
  tool_name : string;
  pattern : option string;
  behavior : PermissionBehavior;
  source : RuleSource
}.

Definition spec (r : PermissionRule) : string :=
  match pattern r with
  | None => tool_name r
  | Some p => tool_name r +:+ "(" +:+ p +:+ ")"
  end.

(** [s or None]. *)
Definition or_none (s : string) : option string := if bool_decide (s = "") then None else Some s.

Fixpoint drop_last (s : string) : string :=
  match s with
  | EmptyString => EmptyString
  | String _ EmptyString => EmptyString
  | String c s' => String c (drop_last s')
  end.

Definition parse_rule (spec : string) (b : PermissionBehavior) (src : RuleSource) : PermissionRule :=
  let spec := Text.strip spec in
  match Text.partition "(" spec with
  | (before, true, rest) =>
      if Text.endswith spec ")"
      then mkRule (Text.strip before) (or_none (Text.strip (drop_last rest))) b src
      else mkRule spec None b src
  | _ => mkRule spec None b src
  end.

(** ** Matching *)
Definition _MCP_PREFIX : string := "mcp__".
Definition _PREFIX_SUFFIX : string := ":*".

Definition _tool_name_matches (rule_tool name : string) : bool :=
  if bool_decide (rule_tool = name) then true
  else if Text.startswith rule_tool _MCP_PREFIX
          && negb (Text.has_substring "__" (Text.drop_chars 5 rule_tool))
  then Text.startswith name (rule_tool +:+ "__")
  else negb (Text.forall_chars (fun c => negb (Glob.is_magic c)) rule_tool)
       && Glob.fnmatch name rule_tool.

(** [tokens[:len(base)] == base]. *)
Definition starts_with (base tokens : list string) : bool :=
  bool_decide (take (length base) tokens = base).

Definition _matches_command_prefix (target base : string) : bool :=
  match Text.split_ws base with
  | [] => false
  | base =>
      match CommandParse.prefix_tokens target with
      | None => false
      | Some tokens => starts_with base tokens
      end
  end.

Definition drop_suffix (s : string) (n : nat) : string := Text.take_chars (String.length s - n) s.

Definition rule_matches (r : PermissionRule) (name target : string) : bool :=
  if negb (_tool_name_matches (tool_name r) name) then false
  else
    match pattern r with
    | None => true
    | Some p =>
        if Text.endswith p _PREFIX_SUFFIX then _matches_command_prefix target (drop_suffix p 2)
        else Glob.fnmatch target p
    end.

Definition suggest_command_rule (name command : string) : option PermissionRule :=
  match CommandParse.command_prefix command with
  | None => None
  | Some prefix => Some (mkRule name (Some (prefix +:+ _PREFIX_SUFFIX)) allow session)
  end.

(** ** [RuleStore] *)
Record PermissionConfig := mkConfig {
  cfg_allow : list string;
  cfg_deny : list string;
  cfg_ask : list string
}.

Definition from_config (c : PermissionConfig) : list PermissionRule :=
  ((fun s => parse_rule s deny role) <$> cfg_deny c)
  ++ ((fun s => parse_rule s ask role) <$> cfg_ask c)
  ++ ((fun s => parse_rule s allow role) <$> cfg_allow c).

Definition add_session_rule (rules : list PermissionRule) (r : PermissionRule) : list PermissionRule :=
  rules ++ [r].

Definition _has_match (rules : list PermissionRule) (b : PermissionBehavior) (name target : string) : bool :=
  existsb (fun r => bool_decide (behavior r = b) && rule_matches r name target) rules.

Definition resolve (rules : list PermissionRule) (name target : string) : option PermissionBehavior :=
  if _has_match rules deny name target then Some deny
  else if _has_match rules ask name target then Some ask
  else if _has_match rules allow name target then Some allow
  else None.

Definition is_behavior (b : PermissionBehavior) (o : option PermissionBehavior) : bool :=
  bool_decide (o = Some b).

Definition resolve_segments (rules : list PermissionRule) (name : string) (segments : list string) :
    option PermissionBehavior :=
  match segments with
  | [] => None
  | _ =>
      let behaviors := resolve rules name <$> segments in
      if existsb (is_behavior deny) behaviors then Some deny
      else if existsb (is_behavior ask) behaviors then Some ask
      else if forallb (is_behavior allow) behaviors then Some allow
      else None
  end.

(** *** Rules are read back as they are shown *)
Lemma drop_last_snoc s c : drop_last (s +:+ String c "") = s.
Proof.
  induction s as [|d s IH]; [done|]. destruct s as [|e s]; [done|].
  change (drop_last (String d (String e s) +:+ String c ""))
    with (String d (drop_last (String e s +:+ String c ""))). by rewrite IH.
Qed.

Lemma spec_shape name p :
  Text.strip name = name -> Text.contains "(" name = false ->
  Text.strip (name +:+ "(" +:+ p +:+ ")") = name +:+ "(" +:+ p +:+ ")".
Proof.
  intros Hs Hc. destruct name as [|c name].
  - exact (Text.strip_ends "(" p ")" eq_refl eq_refl).
  - change (String c name +:+ "(" +:+ p +:+ ")") with (String c (name +:+ (String "(" p) +:+ ")")).
    rewrite Text.append_assoc. apply Text.strip_ends; [by eapply Text.strip_head|done].
Qed.

(** A rule survives its text form. For a tool name without a parenthesis and a pattern
    that is not empty, both without white space around them, parsing what [spec] renders
    gives the rule back; a rule for a whole tool is rendered as the tool's name. *)
Theorem rule_roundtrip r :
  Text.strip (tool_name r) = tool_name r -> Text.contains "(" (tool_name r) = false ->
  match pattern r with Some p => p <> "" /\ Text.strip p = p | None => True end ->
  parse_rule (spec r) (behavior r) (source r) = r.
Proof.
  destruct r as [name [p|] b src]; cbn [tool_name pattern behavior source spec]; intros Hn Hc Hp;
    unfold parse_rule, spec; cbn [tool_name pattern].
  - destruct Hp as [Hne Hp]. rewrite spec_shape by done.
    change (name +:+ "(" +:+ p +:+ ")") with (name +:+ String "(" (p +:+ ")")).
    rewrite Text.partition_app by done.
    change (name +:+ String "(" (p +:+ ")")) with (name +:+ String "(" p +:+ String ")" "").
    rewrite Text.append_assoc, Text.endswith_snoc, drop_last_snoc, Hn, Hp.
    unfold or_none. by rewrite bool_decide_false.
  - rewrite Hn, Text.partition_absent by done. done.
Qed.

Lemma rule_roundtrip_witness :
  parse_rule "Bash(git commit:*)" allow session = mkRule "Bash" (Some "git commit:*") allow session.
Proof.
  apply (rule_roundtrip (mkRule "Bash" (Some "git commit:*") allow session));
    [reflexivity|reflexivity|split; [discriminate|reflexivity]].
Defined.

(** *** Precedence *)
Lemma resolve_deny rules name target :
  resolve rules name target = Some deny <->
  exists r, r ∈ rules /\ behavior r = deny /\ rule_matches r name target = true.
Proof.
  unfold resolve. assert (forall b, _has_match rules b name target = true <->
    exists r, r ∈ rules /\ behavior r = b /\ rule_matches r name target = true) as H.
  { intros b. unfold _has_match. rewrite existsb_exists. split.
    - intros (r & Hr & [Hb Hm]%andb_prop). exists r. split_and!;
        [by apply list_elem_of_In|by apply bool_decide_eq_true in Hb|done].
    - intros (r & Hr & Hb & Hm). exists r. rewrite bool_decide_true by done.
      split; [by apply list_elem_of_In|done]. }
  rewrite <- H. destruct (_has_match rules deny _ _); [done|].
  destruct (_has_match rules ask _ _); [done|]. by destruct (_has_match rules allow _ _).
Qed.

Lemma resolve_segments_deny rules name segments :
  resolve_segments rules name segments = Some deny <->
  exists seg, seg ∈ segments /\ resolve rules name seg = Some deny.
Proof.
  unfold resolve_segments. destruct segments as [|s segments].
  { split; [done|]. by intros (? & ?%not_elem_of_nil & _). }
  set (l := s :: segments).
  assert (existsb (is_behavior deny) (resolve rules name <$> l) = true <->
          exists seg, seg ∈ l /\ resolve rules name seg = Some deny) as H.
  { rewrite existsb_exists. split.
    - intros (o & Ho & Hd). apply list_elem_of_In, list_elem_of_fmap in Ho as (seg & -> & Hs).
      apply bool_decide_eq_true in Hd. eauto.
    - intros (seg & Hs & Hd). exists (Some deny). split; [|done]. apply list_elem_of_In.
      apply list_elem_of_fmap. eauto. }
  rewrite <- H. destruct (existsb (is_behavior deny) _); [done|].
  destruct (existsb (is_behavior ask) _); [done|]. by destruct (forallb _ _).
Qed.

(** A compound command rides an allow rule only if every segment does. *)
Lemma resolve_segments_allow rules name segments :
  resolve_segments rules name segments = Some allow <->
  segments <> [] /\ Forall (fun seg => resolve rules name seg = Some allow) segments.
Proof.
  unfold resolve_segments. destruct segments as [|s segments]; [by split; [|intros [? _]]|].
  set (l := s :: segments).
  assert (forallb (is_behavior allow) (resolve rules name <$> l) = true <->
          Forall (fun seg => resolve rules name seg = Some allow) l) as H.
  { rewrite forallb_forall, Forall_forall. split.
    - intros Ha seg Hs. specialize (Ha (resolve rules name seg)).
      assert (is_behavior allow (resolve rules name seg) = true) as Hb
        by (apply Ha, list_elem_of_In, list_elem_of_fmap; eauto).
      by apply bool_decide_eq_true in Hb.
    - intros Ha o Ho. apply list_elem_of_In, list_elem_of_fmap in Ho as (seg & -> & Hs).
      apply bool_decide_eq_true. by apply Ha. }
  assert (forall b, b <> allow -> existsb (is_behavior b) (resolve rules name <$> l) = true ->
          ~ Forall (fun seg => resolve rules name seg = Some allow) l) as Hn.
  { intros b Hb He Ha. apply existsb_exists in He as (o & Ho & Hd).
    apply list_elem_of_In, list_elem_of_fmap in Ho as (seg & -> & Hs).
    rewrite Forall_forall in Ha. apply bool_decide_eq_true in Hd. rewrite (Ha seg Hs) in Hd. congruence. }
  destruct (existsb (is_behavior deny) _) eqn:Hd.
  { split; [done|]. intros [_ Ha]. by apply (Hn deny) in Ha. }
  destruct (existsb (is_behavior ask) _) eqn:Hk.
  { split; [done|]. intros [_ Ha]. by apply (Hn ask) in Ha. }
  destruct (forallb _ _) eqn:Hf; [by rewrite <- H|]. split; [done|]. intros [_ Ha].
  apply H in Ha. congruence.
Qed.

End Rules.

(** ** [SandboxGuard] *)
Module SandboxGuard.

Inductive SandboxMode := read_only | workspace_write | full.

Record SandboxConfig := mkSandbox { mode : SandboxMode; writable_roots_ : list string }.

Record SandboxVerdict := mkVerdict { allowed : bool; reason : string }.

(** [os.path.dirname]. *)
Definition dirname (p : string) : string :=
  if Text.contains "/" p then
    let head := Text.take_chars (String.length p - String.length (Text.after_last "/" p)) p in
    if Text.forall_chars (fun c => bool_decide (c = "/"%char)) head then head
    else Text.rstrip (fun c => bool_decide (c = "/"%char)) head
  else "".

Section Guard.
Context (norm : string -> string) (cwd : option string) (config : SandboxConfig).

Definition nonempty (s : string) : Prop := s <> "".
#[export] Instance nonempty_dec s : Decision (nonempty s).
Proof. unfold nonempty. apply _. Defined.

Definition add_session_root (roots : list string) (path : string) : list string :=
  if bool_decide (path = "") then roots else roots ++ [norm path].

Definition writable_roots (session_roots : list string) : list string :=
  (norm <$> filter nonempty (match cwd with Some c => [c] | None => [] end ++ writable_roots_ config))
  ++ session_roots.

Definition inside (resolved root : string) : bool :=
  bool_decide (resolved = root) || Text.startswith resolved (root +:+ "/").

Definition check_write (session_roots : list string) (path : string) : SandboxVerdict :=
  match mode config with
  | full => mkVerdict true ""
  | m =>
      if bool_decide (path = "") then mkVerdict false "a filesystem write has no concrete permission target"
      else
        match m with
        | read_only =>
            mkVerdict false ("writing '" +:+ path +:+ "' is blocked in a read-only sandbox")
        | _ =>
            if existsb (inside (norm path)) (writable_roots session_roots) then mkVerdict true ""
            else mkVerdict false ("'" +:+ path +:+ "' is outside the workspace-writable roots")
        end
  end.

(** The boundary, without the reasons. *)
Definition within (session_roots : list string) (path : string) : Prop :=
  match mode config with
  | full => True
  | read_only => False
  | workspace_write =>
      path <> "" /\ exists root, root ∈ writable_roots session_roots
                      /\ (norm path = root \/ exists rest, norm path = root +:+ "/" +:+ rest)
  end.

Lemma prefix_app p s : String.prefix p s = true <-> exists rest, s = p +:+ rest.
Proof.
  revert s. induction p as [|c p IH]; intros s.
  - split; [intros _; by exists s|intros _; by destruct s].
  - destruct s as [|d s]; [split; [discriminate|intros (rest & H); discriminate]|]. rewrite Text.prefix_cons, andb_true_iff.
    rewrite bool_decide_eq_true, IH. split.
    + intros [-> (rest & ->)]. by exists rest.
    + intros (rest & [= -> ->]). eauto.
Qed.

Lemma check_write_exact session_roots path :
  allowed (check_write session_roots path) = true <-> within session_roots path.
Proof.
  unfold check_write, within. destruct (mode config); [| |done].
  - by destruct (bool_decide_reflect (path = "")).
  - destruct (bool_decide_reflect (path = "")) as [->|Hp]; [by split; [|intros [? _]]|].
    assert (existsb (inside (norm path)) (writable_roots session_roots) = true <->
      exists root, root ∈ writable_roots session_roots
        /\ (norm path = root \/ exists rest, norm path = root +:+ "/" +:+ rest)) as H.
    { rewrite existsb_exists. setoid_rewrite <- list_elem_of_In.
      assert (forall root, inside (norm path) root = true <->
        (norm path = root \/ exists rest, norm path = root +:+ "/" +:+ rest)) as Hi.
      { intros root. unfold inside. rewrite orb_true_iff, bool_decide_eq_true. unfold Text.startswith.
        rewrite prefix_app. setoid_rewrite <- Text.append_assoc. done. }
      by setoid_rewrite Hi. }
    transitivity (existsb (inside (norm path)) (writable_roots session_roots) = true);
      [by destruct (existsb _ _)|]. rewrite H. tauto.
Qed.

End Guard.
End SandboxGuard.

(** ** [PermissionEngine] *)
Module PermissionEngine.
Import Rules SandboxGuard.

Section Engine.
(** The arguments a check may rewrite, and the world of the user. *)
Context {A W : Type}.

Record PermissionDecision := mkDecision {
  decided : PermissionBehavior;
  reason_type : string;
  detail : string;
  message : string;
  updated_args : option A
}.

Definition Allow (ty det : string) : PermissionDecision := mkDecision allow ty det "" None.
Definition Deny (ty det msg : string) : PermissionDecision :=
  mkDecision deny ty det (if bool_decide (msg = "") then det else msg) None.
Definition Ask (ty det msg : string) : PermissionDecision :=
  mkDecision ask ty det (if bool_decide (msg = "") then det else msg) None.

Inductive ApprovalChoice := allow_once | allow_session | deny_it.

Definition choice_text (c : ApprovalChoice) : string :=
  match c with allow_once => "allow_once" | allow_session => "allow_session" | deny_it => "deny" end.

Record ApprovalRequest := mkRequest {
  req_tool : string;
  req_kind : string;
  req_target : string;
  req_paths : list string;
  req_risk : string;
  req_reason_code : string;
  req_reason_detail : string;
  req_suggestion : string
}.

(** The rules and roots of the session, and the user's world. *)
Record t := mk { _store : list PermissionRule; session_roots : list string; user : W }.

Context (norm : string -> string) (cwd : option string).
Context (_mode : PermissionMode) (_ask_user : option (ApprovalRequest -> W -> W * ApprovalChoice)).
Context (_sandbox : option SandboxConfig).

Definition remember (s : t) (r : PermissionRule) : t :=
  mk (add_session_rule (_store s) r) (session_roots s) (user s).

Definition widen (s : t) (path : string) : t :=
  let d := dirname path in
  mk (_store s) (add_session_root norm (session_roots s) (if bool_decide (d = "") then path else d))
    (user s).

Definition asked (s : t) (w : W) : t := mk (_store s) (session_roots s) w.

Definition _resolve_rules (s : t) (name target : string) (segments : option (list string)) :
    option PermissionBehavior :=
  match segments with
  | Some segs => resolve_segments (_store s) name segs
  | None => resolve (_store s) name target
  end.

Definition checks (tool_check : option PermissionDecision) (b : PermissionBehavior) :
    option PermissionDecision :=
  match tool_check with
  | Some d => if bool_decide (decided d = b) then Some d else None
  | None => None
  end.

Definition denied_by_rule (name : string) : PermissionDecision :=
  Deny "rule" ("denied by rule for '" +:+ name +:+ "'") ("'" +:+ name +:+ "' is blocked by a deny rule.").
Definition allowed_by_rule (name : string) : PermissionDecision :=
  Allow "rule" ("allowed by rule for '" +:+ name +:+ "'").
Definition denied_in_plan (name : string) : PermissionDecision :=
  Deny "mode" "plan mode" ("'" +:+ name +:+ "' is blocked in plan mode (read-only preview).").
Definition denied_unasked (name : string) : PermissionDecision :=
  Deny "mode" "dontAsk mode" ("'" +:+ name +:+ "' requires approval, denied in dontAsk mode.").

(** ** One decision without a prompt *)
Definition _decide_static (s : t) (name target : string) (tool_check : option PermissionDecision)
    (mutates_fs : bool) : PermissionDecision :=
  let rule_behavior := resolve (_store s) name target in
  if is_behavior deny rule_behavior then denied_by_rule name
  else match checks tool_check deny with Some d => d | None =>
  if is_behavior ask rule_behavior then Ask "rule" "an ask rule requires confirmation" ""
  else match checks tool_check ask with Some d => d | None =>
  if bool_decide (_mode = bypass) then Allow "mode" "bypass mode"
  else if is_behavior allow rule_behavior then allowed_by_rule name
  else match checks tool_check allow with Some d => d | None =>
  if bool_decide (_mode = acceptEdits) && mutates_fs then Allow "mode" "acceptEdits mode"
  else if bool_decide (_mode = plan) then denied_in_plan name
  else if bool_decide (_mode = dontAsk) then denied_unasked name
  else Ask "default" "this action needs your approval" ""
  end end end.

(** ** Asking the user *)
Definition _suggested_allow_rule (name target : string) (segments : option (list string)) :
    PermissionRule * string :=
  let exact := (mkRule name (or_none target) allow session,
                if bool_decide (target = "") then name else name +:+ "(" +:+ target +:+ ")") in
  match segments with
  | Some [seg] =>
      match suggest_command_rule name seg with
      | Some r => (r, spec r)
      | None => exact
      end
  | _ => exact
  end.

Definition denied_by_user (name : string) : PermissionDecision :=
  Deny "user" "user denied" ("The user denied running '" +:+ name +:+ "'.").

Definition approved (c : ApprovalChoice) : PermissionDecision :=
  Allow "user" ("user approved (" +:+ choice_text c +:+ ")").

Definition request_for (name target reason_type reason : string) (suggestion : string) : ApprovalRequest :=
  let '(code, det) :=
    if bool_decide (reason_type = "rule") then ("ask_rule", "")
    else if bool_decide (reason_type = "tool_check") then ("tool", reason)
    else ("default", "") in
  mkRequest name "approval" target (if bool_decide (target = "") then [] else [target]) "medium"
    code det suggestion.

Definition _resolve_ask (s : t) (name target reason_type reason : string)
    (segments : option (list string)) : t * PermissionDecision :=
  match _ask_user with
  | None => (s, Deny reason_type reason
                  ("'" +:+ name +:+ "' needs approval but no interactive channel is available."))
  | Some f =>
      let '(rule, spec) := _suggested_allow_rule name target segments in
      let '(w, choice) := f (request_for name target reason_type reason spec) (user s) in
      let s := asked s w in
      match choice with
      | deny_it => (s, denied_by_user name)
      | allow_session => (remember s rule, approved choice)
      | allow_once => (s, approved choice)
      end
  end.

Definition _decide (s : t) (name target : string) (tool_check : option PermissionDecision)
    (mutates_fs : bool) (segments : option (list string)) : t * PermissionDecision :=
  let rule_behavior := _resolve_rules s name target segments in
  if is_behavior deny rule_behavior then (s, denied_by_rule name)
  else match checks tool_check deny with Some d => (s, d) | None =>
  if is_behavior ask rule_behavior
  then _resolve_ask s name target "rule" "an ask rule requires confirmation" segments
  else match checks tool_check ask with
  | Some d => _resolve_ask s name target "tool_check"
                (if bool_decide (message d = "") then "the tool requires confirmation" else message d)
                segments
  | None =>
  if bool_decide (_mode = bypass) then (s, Allow "mode" "bypass mode")
  else if is_behavior allow rule_behavior then (s, allowed_by_rule name)
  else match checks tool_check allow with Some d => (s, d) | None =>
  if bool_decide (_mode = acceptEdits) && mutates_fs then (s, Allow "mode" "acceptEdits mode")
  else if bool_decide (_mode = plan) then (s, denied_in_plan name)
  else if bool_decide (_mode = dontAsk) then (s, denied_unasked name)
  else _resolve_ask s name target "default" "this action needs your approval" segments
  end end end.

(** ** The sandbox *)
Definition escalation (name path reason : string) : ApprovalRequest :=
  mkRequest name "escalation" path [path] "high" "sandbox" reason "".

Definition _apply_sandbox (cfg : SandboxConfig) (s : t) (name path : string)
    (allowed_ : PermissionDecision) : t * PermissionDecision :=
  let verdict := check_write norm cwd cfg (session_roots s) path in
  if allowed verdict then (s, allowed_)
  else
    match _ask_user with
    | None => (s, Deny "sandbox" (reason verdict)
                    ("'" +:+ name +:+ "' blocked by sandbox: " +:+ reason verdict +:+ " (no channel to escalate)."))
    | Some f =>
        let '(w, choice) := f (escalation name path (reason verdict)) (user s) in
        let s := asked s w in
        match choice with
        | deny_it => (s, Deny "sandbox" "user blocked sandbox escalation"
                           ("The user blocked '" +:+ name +:+ "' writing '" +:+ path +:+ "'."))
        | allow_session => (widen s path, Allow "user" ("sandbox escalation approved (" +:+ choice_text choice +:+ ")"))
        | allow_once => (s, Allow "user" ("sandbox escalation approved (" +:+ choice_text choice +:+ ")"))
        end
    end.

Definition check (s : t) (name target : string) (tool_check : option PermissionDecision)
    (mutates_fs : bool) (segments : option (list string)) : t * PermissionDecision :=
  let '(s, d) := _decide s name target tool_check mutates_fs segments in
  match _sandbox with
  | Some cfg =>
      if bool_decide (decided d = allow) && mutates_fs && negb (bool_decide (reason_type d = "user"))
      then _apply_sandbox cfg s name target d else (s, d)
  | None => (s, d)
  end.

(** ** Several paths at once *)

(** The fold over the targets: the first denial, or what needs an answer. *)
Fixpoint fold_targets (s : t) (name : string) (tool_check : option PermissionDecision)
    (mutates_fs : bool) (targets : list string) (ask_paths escalation_paths reasons : list string) :
    PermissionDecision + (list string * list string * list string) :=
  match targets with
  | [] => inr (ask_paths, escalation_paths, reasons)
  | target :: rest =>
      let d := _decide_static s name target tool_check mutates_fs in
      match decided d with
      | deny => inl d
      | ask =>
          fold_targets s name tool_check mutates_fs rest (ask_paths ++ [target]) escalation_paths
            (reasons ++ [if bool_decide (message d = "") then detail d else message d])
      | allow =>
          match _sandbox with
          | Some cfg =>
              let verdict := check_write norm cwd cfg (session_roots s) target in
              if mutates_fs && negb (bool_decide (reason_type d = "user")) && negb (allowed verdict)
              then fold_targets s name tool_check mutates_fs rest ask_paths
                     (escalation_paths ++ [target]) (reasons ++ [reason verdict])
              else fold_targets s name tool_check mutates_fs rest ask_paths escalation_paths reasons
          | None => fold_targets s name tool_check mutates_fs rest ask_paths escalation_paths reasons
          end
      end
  end.

Definition multi_request (name : string) (ask_paths escalation_paths reasons : list string) : ApprovalRequest :=
  let pending := ask_paths ++ escalation_paths in
  let escalates := negb (bool_decide (escalation_paths = [])) in
  mkRequest name (if escalates then "escalation" else "approval")
    (Text.join (String "010" "  ") pending) pending (if escalates then "high" else "medium")
    (if escalates then "sandbox" else "default") (Text.join "; " (filter nonempty reasons)) "".

Definition grant_all (s : t) (name : string) (ask_paths escalation_paths : list string) : t :=
  let s := foldl (fun s path => remember s (mkRule name (or_none path) allow session)) s ask_paths in
  match _sandbox with
  | Some _ => foldl widen s escalation_paths
  | None => s
  end.

(** The consolidated prompt. *)
Definition ask_multi (s : t) (name : string) (ask_paths escalation_paths reasons : list string) :
    t * PermissionDecision :=
  match _ask_user with
  | None =>
      (s, Deny "default" "multi-path approval required"
            ("'" +:+ name +:+ "' needs approval for "
             +:+ Text.join ", " (ask_paths ++ escalation_paths)
             +:+ " but no interactive channel is available."))
  | Some f =>
      let '(w, choice) := f (multi_request name ask_paths escalation_paths reasons) (user s) in
      let s := asked s w in
      match choice with
      | deny_it => (s, denied_by_user name)
      | allow_session => (grant_all s name ask_paths escalation_paths, approved choice)
      | allow_once => (s, approved choice)
      end
  end.

Definition check_multi (s : t) (name : string) (targets : list string)
    (tool_check : option PermissionDecision) (mutates_fs : bool) : t * PermissionDecision :=
  match targets with
  | [] => check s name "" tool_check mutates_fs None
  | _ =>
      match fold_targets s name tool_check mutates_fs targets [] [] [] with
      | inl d => (s, d)
      | inr ([], [], _) => (s, Allow "multi" "all paths allowed")
      | inr (ask_paths, escalation_paths, reasons) => ask_multi s name ask_paths escalation_paths reasons
      end
  end.

(** ** The documented order of the approval decision *)

(** The table at the head of [engine.py]: the first line that applies decides. *)
Definition table (rule_behavior tool_check : option PermissionBehavior) (mutates_fs : bool) :
    list (bool * PermissionBehavior) :=
  [(is_behavior deny rule_behavior, deny);
   (is_behavior deny tool_check, deny);
   (is_behavior ask rule_behavior, ask);
   (is_behavior ask tool_check, ask);
   (bool_decide (_mode = bypass), allow);
   (is_behavior allow rule_behavior, allow);
   (is_behavior allow tool_check, allow);
   (bool_decide (_mode = acceptEdits) && mutates_fs, allow);
   (bool_decide (_mode = plan), deny);
   (bool_decide (_mode = dontAsk), deny);
   (true, ask)].

Fixpoint first_match (l : list (bool * PermissionBehavior)) : PermissionBehavior :=
  match l with
  | [] => ask
  | (c, b) :: l => if c then b else first_match l
  end.

Definition axis_a (s : t) (name target : string) (tool_check : option PermissionDecision)
    (mutates_fs : bool) (segments : option (list string)) : PermissionBehavior :=
  first_match (table (_resolve_rules s name target segments) (decided <$> tool_check) mutates_fs).

Lemma checks_spec tc b :
  match checks tc b with
  | Some d => tc = Some d /\ decided d = b /\ is_behavior b (decided <$> tc) = true
  | None => is_behavior b (decided <$> tc) = false
  end.
Proof.
  unfold checks, is_behavior. destruct tc as [d|]; [|done]. simpl.
  destruct (bool_decide_reflect (decided d = b)) as [He|He].
  - split_and!; [done|done|]. rewrite He. by apply bool_decide_true.
  - apply bool_decide_false. congruence.
Qed.

(** What answering a prompt does. *)
Definition settled (s : t) (r : t * PermissionDecision) (granted : t -> t) (kind : string) (paths : list string) : Prop :=
  match _ask_user with
  | None => fst r = s /\ decided (snd r) = deny
  | Some f =>
      exists req w choice, f req (user s) = (w, choice) /\ req_kind req = kind /\ req_paths req = paths
        /\ match choice with
           | deny_it => fst r = asked s w /\ decided (snd r) = deny
           | allow_once => fst r = asked s w /\ decided (snd r) = allow /\ reason_type (snd r) = "user"
           | allow_session =>
               fst r = granted (asked s w) /\ decided (snd r) = allow /\ reason_type (snd r) = "user"
           end
  end.

Definition shown (target : string) : list string := if bool_decide (target = "") then [] else [target].

Lemma settled_mono s r g kind paths :
  settled s r g kind paths -> decided (snd r) <> ask
  /\ (decided (snd r) = allow -> reason_type (snd r) = "user").
Proof.
  unfold settled. destruct _ask_user as [f|]; [|by intros [_ ->]].
  intros (req & w & [] & _ & _ & _ & H).
  - by destruct H as (_ & -> & ->).
  - by destruct H as (_ & -> & ->).
  - by destruct H as (_ & ->).
Qed.

Lemma resolve_ask_settled s name target ty why segments :
  settled s (_resolve_ask s name target ty why segments)
    (fun s => remember s (fst (_suggested_allow_rule name target segments))) "approval" (shown target).
Proof.
  unfold settled, _resolve_ask. destruct _ask_user as [f|]; [|done].
  destruct (_suggested_allow_rule name target segments) as [rule sp].
  destruct (f (request_for name target ty why sp) (user s)) as [w choice] eqn:Hf.
  exists (request_for name target ty why sp), w, choice. split; [done|].
  assert (req_kind (request_for name target ty why sp) = "approval"
          /\ req_paths (request_for name target ty why sp) = shown target) as [H1 H2].
  { unfold request_for. by destruct (bool_decide (ty = "rule")), (bool_decide (ty = "tool_check")). }
  split_and!; [done|done|]. by destruct choice.
Qed.

Lemma sandbox_settled cfg s name path d :
  allowed (check_write norm cwd cfg (session_roots s) path) = false ->
  settled s (_apply_sandbox cfg s name path d) (fun s => widen s path) "escalation" [path].
Proof.
  unfold settled, _apply_sandbox. intros ->. destruct _ask_user as [f|]; [|done].
  destruct (f _ (user s)) as [w choice] eqn:Hf. eexists _, w, choice. split; [exact Hf|].
  split_and!; [done|done|]. by destruct choice.
Qed.

Lemma decide_exact s name target tc mutates segments :
  let r := _decide s name target tc mutates segments in
  match axis_a s name target tc mutates segments with
  | ask => settled s r (fun s => remember s (fst (_suggested_allow_rule name target segments)))
             "approval" (shown target)
  | b => fst r = s /\ decided (snd r) = b
         /\ (reason_type (snd r) = "user" -> exists d, tc = Some d /\ snd r = d)
  end.
Proof.
  intros r. subst r. unfold axis_a, table, _decide. cbn [first_match].
  set (rb := _resolve_rules s name target segments).
  destruct (is_behavior deny rb); [done|].
  pose proof (checks_spec tc deny) as Hd. destruct (checks tc deny) as [d|].
  { destruct Hd as (H1 & H2 & ->). split_and!; eauto. } rewrite Hd.
  destruct (is_behavior ask rb); [apply resolve_ask_settled|].
  pose proof (checks_spec tc ask) as Hk. destruct (checks tc ask) as [d|].
  { destruct Hk as (_ & _ & ->). apply resolve_ask_settled. } rewrite Hk.
  destruct (bool_decide (_mode = bypass)); [done|].
  destruct (is_behavior allow rb); [done|].
  pose proof (checks_spec tc allow) as Ha. destruct (checks tc allow) as [d|].
  { destruct Ha as (H1 & H2 & ->). split_and!; eauto. } rewrite Ha.
  destruct (bool_decide (_mode = acceptEdits) && mutates); [done|].
  destruct (bool_decide (_mode = plan)); [done|].
  destruct (bool_decide (_mode = dontAsk)); [done|]. apply resolve_ask_settled.
Qed.

(** Whether the boundary stops an allowed write of [target]. *)
Definition stopped (s : t) (target : string) (mutates_fs : bool) : bool :=
  match _sandbox with
  | Some cfg => mutates_fs && negb (allowed (check_write norm cwd cfg (session_roots s) target))
  | None => false
  end.

Definition says_user (tc : option PermissionDecision) : Prop :=
  exists d, tc = Some d /\ reason_type d = "user".

Lemma check_exact s name target tc mutates segments :
  ~ says_user tc ->
  let r := check s name target tc mutates segments in
  decided (snd r) <> ask
  /\ match axis_a s name target tc mutates segments with
     | deny => fst r = s /\ decided (snd r) = deny
     | allow =>
         if stopped s target mutates
         then settled s r (fun s => widen s target) "escalation" [target]
         else fst r = s /\ decided (snd r) = allow
     | ask => settled s r (fun s => remember s (fst (_suggested_allow_rule name target segments)))
                "approval" (shown target)
     end.
Proof.
  intros Htc r. subst r. unfold check. pose proof (decide_exact s name target tc mutates segments) as H.
  destruct (_decide s name target tc mutates segments) as [s1 d]. cbn [fst snd] in H.
  unfold stopped. destruct (axis_a s name target tc mutates segments).
  - destruct H as (-> & Hd & Hu). destruct _sandbox as [cfg|]; [|simpl; by rewrite Hd].
    rewrite Hd, bool_decide_true by done. rewrite bool_decide_false.
    2:{ intros Hr. apply Htc. destruct (Hu Hr) as (d' & -> & <-). exists d. done. }
    cbn [negb]. rewrite andb_true_r. destruct mutates; cbn [andb]; [|simpl; by rewrite Hd].
    destruct (allowed (check_write norm cwd cfg (session_roots s) target)) eqn:Ha; cbn [negb].
    + unfold _apply_sandbox. rewrite Ha. simpl. by rewrite Hd.
    + pose proof (sandbox_settled cfg s name target d Ha) as Hs. split; [|done].
      unfold settled in Hs. destruct _ask_user as [f|]; [|destruct Hs as [_ ->]; done].
      destruct Hs as (req & w & [] & _ & _ & _ & Hs).
      * by destruct Hs as (_ & -> & _).
      * by destruct Hs as (_ & -> & _).
      * by destruct Hs as (_ & ->).
  - destruct H as (-> & Hd & _). destruct _sandbox as [cfg|]; [|simpl; by rewrite Hd].
    rewrite Hd. simpl. by rewrite Hd.
  - assert (decided d <> ask /\ (decided d = allow -> reason_type d = "user")) as [Hna Hu].
    { unfold settled in H. cbn [fst snd] in H. destruct _ask_user as [f|]; [|destruct H as [_ ->]; done].
      destruct H as (req & w & [] & _ & _ & _ & H); cbn [snd] in H.
      - by destruct H as (_ & -> & ->).
      - by destruct H as (_ & -> & ->).
      - by destruct H as (_ & ->). }
    assert ((match _sandbox with
             | Some cfg => if bool_decide (decided d = allow) && mutates && negb (bool_decide (reason_type d = "user"))
                           then _apply_sandbox cfg s1 name target d else (s1, d)
             | None => (s1, d)
             end) = (s1, d)) as ->.
    { destruct _sandbox as [cfg|]; [|done]. destruct (bool_decide_reflect (decided d = allow)) as [Ha|]; [|done].
      rewrite (bool_decide_true (reason_type d = "user")) by auto. by rewrite andb_false_r. }
    done.
Qed.

(** One call is decided by the documented table and then by the sandbox, and the
    decision is never to ask. A denial of the table is final and silent; a question goes to
    the user, and without a channel it is a denial; an allowed write beyond the boundary is
    escalated to the user in the same way. A grant for the session remembers exactly the
    suggested rule, or widens the sandbox by the directory of the path. *)
Theorem permission_check_exact s name target tc mutates segments :
  ~ says_user tc ->
  let r := check s name target tc mutates segments in
  decided (snd r) <> ask
  /\ match axis_a s name target tc mutates segments with
     | deny => fst r = s /\ decided (snd r) = deny
     | allow =>
         if stopped s target mutates
         then settled s r (fun s => widen s target) "escalation" [target]
         else fst r = s /\ decided (snd r) = allow
     | ask => settled s r (fun s => remember s (fst (_suggested_allow_rule name target segments)))
                "approval" (shown target)
     end.
Proof. apply check_exact. Qed.

(** The three ways a decision comes about. *)
Lemma permission_check_cases s name target tc mutates segments :
  ~ says_user tc ->
  let d := snd (check s name target tc mutates segments) in
  (axis_a s name target tc mutates segments = deny /\ decided d = deny)
  \/ (stopped s target mutates = false /\ decided d = allow)
  \/ (decided d = allow -> reason_type d = "user").
Proof.
  intros Htc d. subst d. destruct (check_exact s name target tc mutates segments Htc) as [_ H].
  destruct (axis_a s name target tc mutates segments).
  - destruct (stopped s target mutates).
    + right. right. by apply settled_mono in H as [_ ?].
    + right. left. by destruct H.
  - left. by destruct H.
  - right. right. by apply settled_mono in H as [_ ?].
Qed.

(** ** Several targets *)

Definition static_of (s : t) (name : string) (tc : option PermissionDecision) (mutates : bool)
    (target : string) : PermissionBehavior := decided (_decide_static s name target tc mutates).

(** The decision without a prompt is the table's, for a call without segments. *)
Lemma static_axis s name target tc mutates :
  static_of s name tc mutates target = axis_a s name target tc mutates None
  /\ (reason_type (_decide_static s name target tc mutates) = "user" ->
      static_of s name tc mutates target = allow -> says_user tc).
Proof.
  unfold static_of, axis_a, table, _decide_static. cbn [first_match _resolve_rules].
  set (rb := resolve (_store s) name target).
  destruct (is_behavior deny rb); [done|].
  pose proof (checks_spec tc deny) as Hd. destruct (checks tc deny) as [d|].
  { destruct Hd as (H1 & H2 & ->). split; [done|]. congruence. } rewrite Hd.
  destruct (is_behavior ask rb); [done|].
  pose proof (checks_spec tc ask) as Hk. destruct (checks tc ask) as [d|].
  { destruct Hk as (H1 & H2 & ->). split; [done|]. congruence. } rewrite Hk.
  destruct (bool_decide (_mode = bypass)); [done|].
  destruct (is_behavior allow rb); [done|].
  pose proof (checks_spec tc allow) as Ha. destruct (checks tc allow) as [d|].
  { destruct Ha as (H1 & H2 & ->). split; [done|]. intros Hr _. by exists d. } rewrite Ha.
  destruct (bool_decide (_mode = acceptEdits) && mutates); [done|].
  destruct (bool_decide (_mode = plan)); [done|].
  by destruct (bool_decide (_mode = dontAsk)).
Qed.

Definition asks (s : t) name tc mutates (targets : list string) : list string :=
  filter (fun x => static_of s name tc mutates x = ask) targets.

Definition escalates (s : t) name tc mutates (targets : list string) : list string :=
  filter (fun x => static_of s name tc mutates x = allow /\ stopped s x mutates = true) targets.

Lemma fold_targets_exact s name tc mutates targets a e rs :
  ~ says_user tc ->
  match fold_targets s name tc mutates targets a e rs with
  | inl d => exists before x after, targets = before ++ x :: after
      /\ Forall (fun y => static_of s name tc mutates y <> deny) before
      /\ d = _decide_static s name x tc mutates /\ decided d = deny
  | inr (a', e', _) =>
      Forall (fun y => static_of s name tc mutates y <> deny) targets
      /\ a' = a ++ asks s name tc mutates targets /\ e' = e ++ escalates s name tc mutates targets
  end.
Proof.
  intros Htc. revert a e rs. induction targets as [|x targets IH]; intros a e rs; cbn [fold_targets].
  { unfold asks, escalates. by rewrite !app_nil_r. }
  pose proof (static_axis s name x tc mutates) as [_ Hu].
  assert (forall a' e' rs', decided (_decide_static s name x tc mutates) <> deny ->
    a' = a ++ (if decide (static_of s name tc mutates x = ask) then [x] else []) ->
    e' = e ++ (if decide (static_of s name tc mutates x = allow /\ stopped s x mutates = true) then [x] else []) ->
    match fold_targets s name tc mutates targets a' e' rs' with
    | inl d => exists before y after, x :: targets = before ++ y :: after
        /\ Forall (fun y => static_of s name tc mutates y <> deny) before
        /\ d = _decide_static s name y tc mutates /\ decided d = deny
    | inr (a2, e2, _) =>
        Forall (fun y => static_of s name tc mutates y <> deny) (x :: targets)
        /\ a2 = a ++ asks s name tc mutates (x :: targets)
        /\ e2 = e ++ escalates s name tc mutates (x :: targets)
    end) as Hstep.
  { intros a' e' rs' Hn -> ->. specialize (IH (a ++ (if decide (static_of s name tc mutates x = ask) then [x] else []))
      (e ++ (if decide (static_of s name tc mutates x = allow /\ stopped s x mutates = true) then [x] else [])) rs').
    destruct (fold_targets _ _ _ _ targets _ _ _) as [d|[[a2 e2] r2]].
    - destruct IH as (before & y & after & -> & Hf & Hd). exists (x :: before), y, after.
      split_and!; [done|by constructor|by destruct Hd|by destruct Hd].
    - destruct IH as (Hf & -> & ->). unfold asks, escalates. rewrite !filter_cons, <- !app_assoc.
      split_and!; [by constructor| |]; repeat destruct (decide _); done. }
  destruct (decided (_decide_static s name x tc mutates)) eqn:Hd.
  - assert (reason_type (_decide_static s name x tc mutates) <> "user") as Hr by (intros Hr; by apply Htc, Hu).
    rewrite (bool_decide_false _ Hr). cbn [negb]. rewrite andb_true_r.
    unfold stopped, static_of in Hstep. rewrite Hd in Hstep.
    destruct _sandbox as [cfg|].
    + destruct (mutates && negb (allowed (check_write norm cwd cfg (session_roots s) x))) eqn:Hst;
        apply Hstep; rewrite ?app_nil_r; try done.
    + apply Hstep; [done|by rewrite app_nil_r|by rewrite app_nil_r].
  - exists [], x, targets. split_and!; [done|constructor|done|done].
  - apply Hstep; [done| |]; unfold static_of; rewrite Hd; [done|by rewrite app_nil_r].
Qed.

Lemma ask_multi_settled s name a e rs :
  settled s (ask_multi s name a e rs) (fun s => grant_all s name a e)
    (if bool_decide (e = []) then "approval" else "escalation") (a ++ e).
Proof.
  unfold settled, ask_multi. destruct _ask_user as [f|]; [|done].
  destruct (f (multi_request name a e rs) (user s)) as [w choice] eqn:Hc.
  exists (multi_request name a e rs), w, choice. split_and!; [done| |done|by destruct choice].
  unfold multi_request. cbn [req_kind]. by destruct (bool_decide (e = [])).
Qed.

(** Several paths are decided as the strictest of them. If one is denied, the call is
    denied, silently and for the first such path; otherwise, if no path needs an answer, the
    call is allowed; otherwise the user is asked once, with every path that needs it, those
    the rules ask about before those beyond the sandbox, and the answer holds for all. *)
Theorem multi_strictest_wins s name targets tc mutates :
  ~ says_user tc -> targets <> [] ->
  let r := check_multi s name targets tc mutates in
  let a := asks s name tc mutates targets in
  let e := escalates s name tc mutates targets in
  (exists x, x ∈ targets /\ static_of s name tc mutates x = deny) /\ fst r = s /\ decided (snd r) = deny
  \/ Forall (fun x => static_of s name tc mutates x <> deny) targets
     /\ (if bool_decide (a ++ e = []) then fst r = s /\ decided (snd r) = allow
         else settled s r (fun s => grant_all s name a e)
                (if bool_decide (e = []) then "approval" else "escalation") (a ++ e)).
Proof.
  intros Htc Hne r a e. subst r a e. unfold check_multi. destruct targets as [|x0 targets0]; [done|].
  set (targets := x0 :: targets0). pose proof (fold_targets_exact s name tc mutates targets [] [] [] Htc) as H.
  destruct (fold_targets s name tc mutates targets [] [] []) as [d|[[a e] rs]].
  - destruct H as (before & x & after & -> & _ & -> & Hd). left. split; [|done].
    exists x. split; [|done]. apply elem_of_app. right. left.
  - destruct H as (Hf & -> & ->). cbn [app]. right. split; [done|].
    set (a := asks s name tc mutates targets). set (e := escalates s name tc mutates targets).
    destruct (bool_decide_reflect (a ++ e = [])) as [Hnil|Hnn].
    + apply app_eq_nil in Hnil as [-> ->]. done.
    + assert (match a, e with
              | [], [] => (s, Allow "multi" "all paths allowed")
              | _, _ => ask_multi s name a e rs
              end = ask_multi s name a e rs) as -> by (by destruct a, e).
      apply ask_multi_settled.
Qed.

(** ** The sandbox confines *)

(** C25: An allowed write stays within the boundary, or the user approved it in this very
    call. With a sandbox, a mutating call that is allowed without the user has all its
    targets within the writable roots; nothing is within a read-only sandbox. *)
Theorem sandbox_confines cfg s name targets tc :
  _sandbox = Some cfg -> ~ says_user tc ->
  (forall target segments,
     let d := snd (check s name target tc true segments) in
     decided d = allow -> reason_type d <> "user" -> within norm cwd cfg (session_roots s) target)
  /\ (targets <> [] ->
     let d := snd (check_multi s name targets tc true) in
     decided d = allow -> reason_type d <> "user" ->
     Forall (within norm cwd cfg (session_roots s)) targets).
Proof.
  intros Hcfg Htc. split.
  - intros target segments d Ha Hr. subst d.
    destruct (permission_check_cases s name target tc true segments Htc) as [H|[H|H]].
    + destruct H as [_ H]. congruence.
    + destruct H as [H _]. unfold stopped in H. rewrite Hcfg in H. cbn [andb] in H.
      apply negb_false_iff, check_write_exact in H. done.
    + exfalso. by apply Hr, H.
  - intros Hne d Ha Hr. subst d. destruct targets as [|x0 targets0]; [done|]. unfold check_multi in *.
    set (targets := x0 :: targets0) in *.
    pose proof (fold_targets_exact s name tc true targets [] [] [] Htc) as H.
    destruct (fold_targets s name tc true targets [] [] []) as [d|[[a e] rs]].
    { destruct H as (b0 & x & a0 & _ & _ & _ & Hd). cbn [snd] in Ha. congruence. }
    destruct H as (Hf & -> & ->). cbn [app] in *.
    destruct (asks s name tc true targets) as [|y ys] eqn:Hasks;
      [destruct (escalates s name tc true targets) as [|z zs] eqn:Hesc|].
    2,3: by (exfalso; apply Hr; eapply settled_mono; [apply ask_multi_settled|]).
    rewrite Forall_forall in Hf |- *. intros x Hx. apply check_write_exact.
    destruct (static_of s name tc true x) eqn:Hst; [|by destruct (Hf x Hx)|].
    + destruct (allowed (check_write norm cwd cfg (session_roots s) x)) eqn:Hal; [done|].
      exfalso. apply (not_elem_of_nil x). rewrite <- Hesc. apply list_elem_of_filter.
      split_and!; [done| |done]. unfold stopped. by rewrite Hcfg, Hal.
    + exfalso. apply (not_elem_of_nil x). rewrite <- Hasks. by apply list_elem_of_filter.
Qed.

(** ** Denials are final *)

(** The calls of a session change the rules only by adding allow rules. *)
Definition grows (s s' : t) : Prop :=
  exists rs, _store s' = _store s ++ rs /\ Forall (fun r => behavior r = allow) rs.

Lemma grows_refl s s' : _store s' = _store s -> grows s s'.
Proof. intros H. exists []. by rewrite H, app_nil_r. Qed.

Lemma grows_trans s1 s2 s3 : grows s1 s2 -> grows s2 s3 -> grows s1 s3.
Proof.
  intros (r1 & E1 & F1) (r2 & E2 & F2). exists (r1 ++ r2). rewrite E2, E1, app_assoc.
  split; [done|by apply Forall_app].
Qed.

Lemma suggested_allow name target segments :
  behavior (fst (_suggested_allow_rule name target segments)) = allow.
Proof.
  unfold _suggested_allow_rule. destruct segments as [[|seg [|]]|]; try done.
  unfold suggest_command_rule. by destruct (CommandParse.command_prefix seg).
Qed.

Lemma resolve_ask_grows s name target ty why segments :
  grows s (fst (_resolve_ask s name target ty why segments)).
Proof.
  unfold _resolve_ask. destruct _ask_user as [f|]; [|by apply grows_refl].
  pose proof (suggested_allow name target segments) as Hb.
  destruct (_suggested_allow_rule name target segments) as [rule sp].
  destruct (f _ (user s)) as [w []]; [by apply grows_refl| |by apply grows_refl].
  exists [rule]. split; [done|]. by repeat constructor.
Qed.

Lemma check_grows s name target tc mutates segments :
  grows s (fst (check s name target tc mutates segments)).
Proof.
  assert (grows s (fst (_decide s name target tc mutates segments))) as Hd.
  { unfold _decide. repeat (destruct (is_behavior _ _) || destruct (checks _ _) || destruct (bool_decide _)
      || destruct mutates); first [apply resolve_ask_grows|by apply grows_refl]. }
  unfold check. destruct (_decide s name target tc mutates segments) as [s1 d]. cbn [fst] in Hd.
  destruct _sandbox as [cfg|]; [|done]. destruct (_ && _); [|done].
  eapply grows_trans; [exact Hd|]. unfold _apply_sandbox. destruct (allowed _); [by apply grows_refl|].
  destruct _ask_user as [f|]; [|by apply grows_refl]. by destruct (f _ _) as [w []]; apply grows_refl.
Qed.

Lemma grant_all_grows s name a e : grows s (grant_all s name a e).
Proof.
  unfold grant_all. assert (forall l s, grows s (foldl widen s l)) as Hw.
  { induction l as [|p l IH]; intros s1; [by apply grows_refl|]. simpl.
    eapply grows_trans; [|apply IH]. by apply grows_refl. }
  assert (forall l s, grows s (foldl (fun s path => remember s (mkRule name (or_none path) allow session)) s l)) as Hr.
  { induction l as [|p l IH]; intros s1; [by apply grows_refl|]. simpl.
    eapply grows_trans; [|apply IH]. exists [mkRule name (or_none p) allow session].
    split; [done|]. by repeat constructor. }
  destruct _sandbox; [|apply Hr]. eapply grows_trans; [apply Hr|apply Hw].
Qed.

Lemma check_multi_grows s name targets tc mutates :
  grows s (fst (check_multi s name targets tc mutates)).
Proof.
  unfold check_multi. destruct targets as [|x targets]; [apply check_grows|].
  destruct (fold_targets _ _ _ _ _ _ _ _) as [d|[[a e] rs]]; [by apply grows_refl|].
  assert (grows s (fst (ask_multi s name a e rs))) as Ha.
  { unfold ask_multi. destruct _ask_user as [f|]; [|by apply grows_refl].
    destruct (f _ (user s)) as [w []]; [by apply grows_refl| |by apply grows_refl].
    eapply grows_trans; [|apply grant_all_grows]. by apply grows_refl. }
  by destruct a, e; [apply grows_refl|..].
Qed.

Lemma fold_denied s name tc mutates targets x a e rs :
  x ∈ targets -> static_of s name tc mutates x = deny ->
  exists d, fold_targets s name tc mutates targets a e rs = inl d /\ decided d = deny.
Proof.
  intros Hx Hd. revert a e rs. induction targets as [|y targets IH]; intros a e rs;
    [by apply not_elem_of_nil in Hx|]. cbn [fold_targets].
  destruct (decided (_decide_static s name y tc mutates)) eqn:Hy; [|by eexists|].
  - apply elem_of_cons in Hx as [->|Hx]; [unfold static_of in Hd; congruence|]. specialize (IH Hx).
    destruct _sandbox as [cfg|]; [|done]. by destruct (_ && _).
  - apply elem_of_cons in Hx as [->|Hx]; [unfold static_of in Hd; congruence|]. by apply IH.
Qed.

Inductive request :=
| One (name target : string) (tc : option PermissionDecision) (mutates : bool) (segments : option (list string))
| Many (name : string) (targets : list string) (tc : option PermissionDecision) (mutates : bool).

Definition decide_request (s : t) (r : request) : t * PermissionDecision :=
  match r with
  | One name target tc mutates segments => check s name target tc mutates segments
  | Many name targets tc mutates => check_multi s name targets tc mutates
  end.

Definition session_of (s : t) (rs : list request) : t := foldl (fun s r => fst (decide_request s r)) s rs.

(** Whether a rule applies to a request: to its target, to one of its segments, or to one of
    its targets. *)
Definition concerns (r : PermissionRule) (q : request) : Prop :=
  match q with
  | One name target _ _ None => rule_matches r name target = true
  | One name _ _ _ (Some segs) => exists seg, seg ∈ segs /\ rule_matches r name seg = true
  | Many name [] _ _ => rule_matches r name "" = true
  | Many name targets _ _ => exists x, x ∈ targets /\ rule_matches r name x = true
  end.

Lemma denied_silently s name target tc mutates segments :
  _resolve_rules s name target segments = Some deny ->
  check s name target tc mutates segments = (s, denied_by_rule name).
Proof.
  intros H. unfold check, _decide. rewrite H. cbn. by destruct _sandbox.
Qed.

(** C24: A deny rule is final. Whatever the mode, the tool's own check, the sandbox and the
    user's answers, and whatever was granted in the session before, a request that a deny
    rule of the configuration concerns (in any segment of a command, in any of several
    paths) is denied, without asking and without changing the session. *)
Theorem denials_are_final s0 r history q :
  r ∈ _store s0 -> behavior r = deny -> concerns r q ->
  let s := session_of s0 history in
  let '(s', d) := decide_request s q in s' = s /\ decided d = deny.
Proof.
  intros Hr Hb Hc s.
  assert (r ∈ _store s) as Hin.
  { assert (grows s0 s) as (rs & -> & _); [|apply elem_of_app; by left].
    subst s. clear Hc. revert s0 Hr. induction history as [|h history IH]; intros s0 Hr; simpl; [by apply grows_refl|].
    assert (grows s0 (fst (decide_request s0 h))) as Hg.
    { destruct h; [apply check_grows|apply check_multi_grows]. }
    eapply grows_trans; [exact Hg|]. apply IH. destruct Hg as (rs & -> & _). apply elem_of_app. by left. }
  assert (forall name x, rule_matches r name x = true -> resolve (_store s) name x = Some deny) as Hres.
  { intros name x Hm. apply resolve_deny. eauto. }
  destruct q as [name target tc mutates [segs|]|name targets tc mutates]; cbn [decide_request concerns] in *.
  - destruct Hc as (seg & Hs & Hm). rewrite denied_silently; [done|]. cbn [_resolve_rules].
    apply resolve_segments_deny. eauto.
  - rewrite denied_silently; [done|]. by apply Hres.
  - unfold check_multi. destruct targets as [|x0 targets].
    { rewrite denied_silently; [done|]. by apply Hres. }
    destruct Hc as (x & Hx & Hm).
    destruct (fold_denied s name tc mutates (x0 :: targets) x [] [] [] Hx) as (d & -> & Hd); [|done].
    unfold static_of, _decide_static. by rewrite (Hres name x Hm).
Qed.

End Engine.

Module Example.

Definition same (p : string) : string := p.
Definition sandbox : SandboxConfig := mkSandbox workspace_write ["/work"].

(** A user who answers every request alike, and remembers how often she was asked. *)
Definition always (c : ApprovalChoice) (_ : ApprovalRequest) (n : nat) : nat * ApprovalChoice := (S n, c).

Definition state (rules : list PermissionRule) : t := mk (W := nat) rules [] 0%nat.

Notation check := (check (A := unit) same None default_mode).

Lemma permission_check_exact_witness :
  let r := check (Some (always allow_session)) (Some sandbox) (state []) "Write" "/etc/x" None true None in
  decided (snd r) = allow /\ user (fst r) = 1%nat.
Proof.
  pose proof (permission_check_exact (A := unit) same None default_mode (Some (always allow_session))
    (Some sandbox) (state []) "Write" "/etc/x" None true None) as H.
  destruct H as [_ H]; [by intros (d & ? & _)|].
  vm_compute in H. destruct H as (req & w & choice & E & _ & _ & H). injection E as <- <-.
  destruct H as (E & _ & _). split; reflexivity.
Defined.

Lemma multi_strictest_wins_witness :
  let r := check_multi (A := unit) same None default_mode (Some (always allow_once)) (Some sandbox)
             (state [mkRule "Write" (Some "/work/*") allow role]) "Write" ["/work/a"; "/etc/x"] None true in
  decided (snd r) = allow /\ user (fst r) = 1%nat.
Proof.
  pose proof (multi_strictest_wins (A := unit) same None default_mode (Some (always allow_once))
    (Some sandbox) (state [mkRule "Write" (Some "/work/*") allow role]) "Write" ["/work/a"; "/etc/x"]
    None true) as H.
  destruct H as [[_ [_ H]]|[_ H]]; [by intros (d & ? & _)|done|vm_compute in H; discriminate|].
  vm_compute in H. destruct H as (req & w & choice & E & _ & _ & H). injection E as <- <-.
  destruct H as (E & _ & _). split; reflexivity.
Defined.

Lemma sandbox_confines_witness :
  within same None sandbox [] "/work/a"
  /\ decided (snd (check None (Some sandbox) (state [mkRule "Write" None allow role]) "Write" "/work/a"
                     None true None)) = allow.
Proof.
  pose proof (sandbox_confines (A := unit) (W := nat) same None default_mode None (Some sandbox) sandbox
    (state [mkRule "Write" None allow role]) "Write" [] None eq_refl) as [H _];
    [by intros (d & ? & _)|].
  split; [|reflexivity]. apply (H "/work/a" None); [reflexivity|discriminate].
Defined.

Definition no_push : PermissionRule := mkRule "Bash" (Some "git push:*") deny role.

(** Granted for the session, or in bypass mode: the denied segment stays denied. *)
Lemma denials_are_final_witness :
  let granted := session_of (A := unit) same None bypass (Some (always allow_session)) None (state [no_push])
                   [One "Bash" "git commit -m x" None false (Some ["git commit -m x"])] in
  decided (snd (PermissionEngine.check (A := unit) same None bypass (Some (always allow_session)) None granted
    "Bash" "git status && git push -f" None false
    (Some (CommandParse.segment_strings "git status && git push -f")))) = deny.
Proof.
  pose proof (denials_are_final (A := unit) same None bypass (Some (always allow_session)) None
    (state [no_push]) no_push [One "Bash" "git commit -m x" None false (Some ["git commit -m x"])]
    (One "Bash" "git status && git push -f" None false
       (Some (CommandParse.segment_strings "git status && git push -f")))) as H.
  specialize (H (list_elem_of_here _ _) eq_refl). cbn [concerns] in H.
  destruct (decide_request _ _ _ _ _ _ _) as [s' d] eqn:E in H.
  destruct H as [_ Hd]; [exists "git push -f"; split; [right; left|vm_compute; reflexivity]|].
  cbn zeta. cbn [decide_request] in E. rewrite E. exact Hd.
Defined.

(** *** What the model shows *)

(** A session grant for a compound command is remembered as a rule for the whole text,
    which no segment ever matches: the same command is asked about again. *)
Lemma compound_grant_forgotten :
  let segments := Some (CommandParse.segment_strings "make test && make lint") in
  let once := fst (check (Some (always allow_session)) None (state []) "Bash" "make test && make lint"
                     None false segments) in
  let twice := fst (check (Some (always allow_session)) None once "Bash" "make test && make lint"
                      None false segments) in
  user once = 1%nat /\ user twice = 2%nat.
Proof. vm_compute. split; reflexivity. Qed.

(** A grant for a command given by its path is remembered under its base name: the command
    itself does not match the rule, another one does. *)
Lemma path_grant_misses :
  let r := suggest_command_rule "Bash" "./deploy.sh now" in
  match r with
  | Some r => rule_matches r "Bash" "./deploy.sh now" = false /\ rule_matches r "Bash" "deploy.sh now" = true
  | None => False
  end.
Proof. vm_compute. split; reflexivity. Qed.

(** A grant for an exact path is a glob: it is forgotten when the path has brackets, and
    covers other paths when it has a star. *)
Lemma exact_grant_is_a_glob :
  rule_matches (mkRule "Edit" (Some "/w/[id].ts") allow session) "Edit" "/w/[id].ts" = false
  /\ rule_matches (mkRule "Edit" (Some "/w/*") allow session) "Edit" "/w/../etc/passwd" = true.
Proof. vm_compute. split; reflexivity. Qed.

(** A glob right after the MCP prefix is never tried as a glob. *)
Lemma mcp_glob_ignored :
  rule_matches (mkRule "mcp__*" None deny role) "mcp__github__search" "" = false.
Proof. vm_compute. reflexivity. Qed.

End Example.
End PermissionEngine.
