(* ===== verification/CommandSafety.v ===== *)
(** * The safety of shell commands

    [runtime/tools/permission/classifier.py]: the patterns of destructive commands, the
    commands known to be read-only, and the verdict on a command line; and what the [Bash]
    tool tells the permission engine about a call ([product/toolsets/builtin/bash.py]). The
    regular expressions are sequences of character classes, repeated classes and word
    boundaries, which is all the patterns use once their alternatives are written out. *)

From S2P Require Import Prelude Text Shell Permission.
From Stdlib Require Import Ascii String.
From stdpp Require Import base list strings.

Open Scope string_scope.
Open Scope list_scope.
Open Scope mote_scope.
Open Scope Z_scope.

(** ** Regular expressions *)
Module Regex.

Inductive item := Chr (p : ascii -> bool) | Many (p : ascii -> bool) | Boundary.

Definition is_word (c : ascii) : bool := Text.is_alnum c || bool_decide (c = "_"%char).

Definition word_at (o : option ascii) : bool := match o with Some c => is_word c | None => false end.

Definition next (s : string) : option ascii :=
  match s with EmptyString => None | String c _ => Some c end.

(** Whether the items match at the start of [s], which follows the character [prev]. *)
Fixpoint match_here (re : list item) (prev : option ascii) (s : string) : bool :=
  match re with
  | [] => true
  | Chr p :: re =>
      match s with
      | String c s' => p c && match_here re (Some c) s'
      | EmptyString => false
      end
  | Many p :: re =>
      (fix go (prev : option ascii) (s : string) : bool :=
         match_here re prev s
         || match s with
            | String c s' => p c && go (Some c) s'
            | EmptyString => false
            end) prev s
  | Boundary :: re => xorb (word_at prev) (word_at (next s)) && match_here re prev s
  end.

(** [pattern.search(text)], for a pattern of several alternatives. *)
Fixpoint search_from (alternatives : list (list item)) (prev : option ascii) (s : string) : bool :=
  existsb (fun re => match_here re prev s) alternatives
  || match s with
     | String c s' => search_from alternatives (Some c) s'
     | EmptyString => false
     end.

Definition search (alternatives : list (list item)) (s : string) : bool :=
  search_from alternatives None s.

Definition lower (c : ascii) : Z :=
  let k := Text.code c in
  if ((65 <=? k) && (k <=? 90)) || ((192 <=? k) && (k <=? 222) && negb (k =? 215)) then k + 32 else k.

(** A character, without regard to case and exactly. *)
Definition ci (c : ascii) : item := Chr (fun d => lower d =? lower c).
Definition exactly (c : ascii) : item := Chr (fun d => bool_decide (d = c)).

Fixpoint word (s : string) : list item :=
  match s with EmptyString => [] | String c s' => ci c :: word s' end.
Fixpoint word_exact (s : string) : list item :=
  match s with EmptyString => [] | String c s' => exactly c :: word_exact s' end.

Definition dot (c : ascii) : bool := negb (bool_decide (c = "010"%char)).
Definition letter (c : ascii) : bool := (97 <=? lower c) && (lower c <=? 122).

End Regex.

Module Classifier.
Import Regex.

Inductive RiskLevel := low | medium | high.

#[export] Instance risk_eq_dec : EqDecision RiskLevel.
Proof. solve_decision. Defined.

Record SafetyAssessment := mkAssessment { known_safe : bool; risk : RiskLevel; reason : string }.

Definition any := Many dot.
Definition spaces := Many Text.is_space.
Definition space := Chr Text.is_space.

Definition _DANGEROUS_PATTERNS : list (list (list item)) :=
  [ [[Boundary] ++ word "rm" ++ [Boundary; any; space] ++ word "-"
       ++ [Many letter; Chr (fun c => (lower c =? 114) || (lower c =? 102))]];
    [word ":()" ++ [spaces] ++ word "{" ++ [any] ++ word "|" ++ [any] ++ word "&" ++ [spaces] ++ word "}"];
    [[Boundary] ++ word "mkfs."];
    [[Boundary] ++ word "dd" ++ [Boundary; any; Boundary] ++ word "of=/dev/"];
    [word ">" ++ [spaces] ++ word "/dev/sd" ++ [Chr letter]];
    (fun w => [Boundary] ++ word w ++ [Boundary]) <$> ["shutdown"; "reboot"; "halt"; "poweroff"];
    [[Boundary] ++ word "sudo" ++ [Boundary]];
    [[Boundary] ++ word_exact "chmod" ++ [Boundary; any; Boundary] ++ word_exact "777" ++ [Boundary]];
    (fun '(fetch, sudo, shell) => [Boundary] ++ word fetch ++ [Boundary; any] ++ word "|" ++ [spaces]
       ++ (if sudo : bool then word "sudo" ++ [space; spaces] else []) ++ word shell ++ [Boundary])
      <$> [("curl", true, "bash"); ("curl", true, "sh"); ("curl", false, "bash"); ("curl", false, "sh");
           ("wget", true, "bash"); ("wget", true, "sh"); ("wget", false, "bash"); ("wget", false, "sh")] ].

Definition _SAFE_COMMANDS : list string :=
  ["cat"; "head"; "tail"; "less"; "more"; "tac"; "nl"; "fold"; "sed"; "strings"; "hexdump"; "xxd";
   "od"; "column"; "look"; "ls"; "pwd"; "tree"; "basename"; "dirname"; "realpath"; "readlink";
   "grep"; "egrep"; "fgrep"; "rg"; "ag"; "comm"; "cmp"; "diff"; "find"; "wc"; "cut"; "sort";
   "uniq"; "tr"; "rev"; "paste"; "seq"; "expr"; "echo"; "printf"; "whoami"; "id"; "uname";
   "hostname"; "date"; "env"; "printenv"; "stat"; "file"; "df"; "du"; "ps"; "which"; "type";
   "groups"; "uptime"; "free"; "lscpu"; "arch"; "tty"; "locale"; "md5sum"; "sha1sum";
   "sha256sum"; "sha512sum"; "cksum"; "true"; "false"; "test"].

Definition _SAFE_GIT_SUBCOMMANDS : list string :=
  ["status"; "log"; "diff"; "show"; "describe"; "rev-parse"; "ls-files"; "ls-tree"; "cat-file";
   "blame"; "shortlog"; "reflog"; "show-ref"; "name-rev"; "var"; "count-objects"; "grep";
   "whatchanged"; "rev-list"; "for-each-ref"; "merge-base"; "symbolic-ref"].

Definition _GIT_UNSAFE_GLOBAL_FLAGS : list string :=
  ["-C"; "-c"; "--git-dir"; "--work-tree"; "--config-env"; "--exec-path"; "--namespace"].

Definition _FIND_UNSAFE_FLAGS : list string :=
  ["-exec"; "-execdir"; "-ok"; "-okdir"; "-delete"; "-fprint"; "-fprintf"; "-fls"].

Definition among (l : list string) (s : string) : bool := bool_decide (s ∈ l).

Definition before_eq (s : string) : string := (Text.partition "=" s).1.1.

(** The loop over the global flags: the arguments from the subcommand on, [None] after an
    unsafe flag. *)
Fixpoint skip_flags (rest : list string) : option (list string) :=
  match rest with
  | [] => Some []
  | tok :: more =>
      if Text.startswith tok "-" then
        if among _GIT_UNSAFE_GLOBAL_FLAGS (before_eq tok) then None else skip_flags more
      else Some rest
  end.

Definition _git_is_safe (rest : list string) : bool :=
  match skip_flags rest with
  | None | Some [] => false
  | Some (sub :: args) =>
      if bool_decide (sub = "config") then
        existsb (among ["--get"; "--get-all"; "--get-regexp"; "--list"; "-l"; "--get-urlmatch"]) args
      else if among ["branch"; "tag"; "remote"] sub then
        negb (existsb (among ["-d"; "-D"; "-m"; "-M"; "--delete"; "--move"; "--force"; "-f"; "--add";
                              "--rename"; "--set-url"; "--prune"; "rename"; "add"; "set-url";
                              "remove"; "rm"]) args)
      else among _SAFE_GIT_SUBCOMMANDS sub
  end.

Definition _segment_is_safe (argv : list string) : bool :=
  match argv with
  | [] => true
  | first :: args =>
      let cmd := CommandParse._basename first in
      if bool_decide (cmd = "git") then _git_is_safe args
      else if negb (among _SAFE_COMMANDS cmd) then false
      else if bool_decide (cmd = "find") then negb (existsb (among _FIND_UNSAFE_FLAGS) args)
      else if bool_decide (cmd = "sed") then
        negb (existsb (fun a => among ["-i"; "--in-place"] a || Text.startswith a "-i") args)
      else true
  end.

Definition _has_write_redirect (text : string) : bool := Text.contains ">" text.

(** The loop over the segments: the first that is not safe. *)
Definition first_unsafe (segments : list (list string)) : option (list string) :=
  List.find (fun argv => negb (_segment_is_safe argv)) segments.

Definition classify_command (command : string) : SafetyAssessment :=
  let text := Text.strip command in
  if bool_decide (text = "") then mkAssessment false low "empty command"
  else if existsb (fun p => search p text) _DANGEROUS_PATTERNS then
    mkAssessment false high "matches a known-destructive pattern"
  else if _has_write_redirect text then mkAssessment false medium "redirects output to a file"
  else if Text.has_substring "$(" text || Text.contains "`" text then
    mkAssessment false medium "uses command substitution"
  else
    match CommandParse.parse_segments text with
    | None => mkAssessment false medium "could not parse command"
    | Some segments =>
        match first_unsafe segments with
        | Some argv => mkAssessment false medium
            ("'" +:+ hd "" argv +:+ "' is not a known read-only command")
        | None => mkAssessment true low "read-only command"
        end
    end.

Definition destructive (command : string) : Prop :=
  Text.strip command <> "" /\ exists p, p ∈ _DANGEROUS_PATTERNS /\ search p (Text.strip command) = true.

(** What the classifier vouches for. *)
Definition vouched (command : string) : Prop :=
  let text := Text.strip command in
  text <> "" /\ (forall p, p ∈ _DANGEROUS_PATTERNS -> search p text = false)
  /\ Text.contains ">" text = false /\ Text.has_substring "$(" text = false
  /\ Text.contains "`" text = false
  /\ exists segments, CommandParse.parse_segments text = Some segments
       /\ Forall (fun argv => _segment_is_safe argv = true) segments.

Lemma dangerous_exact text :
  existsb (fun p => search p text) _DANGEROUS_PATTERNS = true <->
  exists p, p ∈ _DANGEROUS_PATTERNS /\ search p text = true.
Proof. rewrite existsb_exists. by setoid_rewrite <- list_elem_of_In. Qed.

Lemma first_unsafe_exact segments :
  first_unsafe segments = None <-> Forall (fun argv => _segment_is_safe argv = true) segments.
Proof.
  unfold first_unsafe. induction segments as [|argv segments IH]; [by split; [constructor|]|].
  cbn [List.find]. rewrite Forall_cons, <- IH. destruct (_segment_is_safe argv); simpl; naive_solver.
Qed.

(** The classifier says what it documents, and the verdicts exclude each other. The risk
    is high exactly when a destructive pattern is found; a command is called safe exactly
    when nothing destructive, no redirection and no substitution is in its text and every
    segment its parser finds is a known reading command; in every other case it is neither,
    and the decision is left to the rules. *)
Theorem classify_exact command :
  let a := classify_command command in
  (risk a = high <-> destructive command) /\ (known_safe a = true <-> vouched command)
  /\ (known_safe a = true -> risk a = low).
Proof.
  unfold classify_command, destructive, vouched. set (text := Text.strip command).
  destruct (bool_decide_reflect (text = "")) as [He|He]; [split_and!; simpl; naive_solver|].
  pose proof (dangerous_exact text) as Hd.
  destruct (existsb (fun p => search p text) _DANGEROUS_PATTERNS).
  { destruct Hd as [Hd _]. destruct (Hd eq_refl) as (p & Hp & Hs). split_and!; simpl.
    - by split; [intros _; eauto|].
    - split; [done|]. intros (_ & Hn & _). rewrite (Hn p Hp) in Hs. done.
    - done. }
  assert (forall p, p ∈ _DANGEROUS_PATTERNS -> search p text = false) as Hn.
  { intros p Hp. destruct (search p text) eqn:Hs; [|done]. destruct Hd as [_ Hd].
    discriminate Hd. eauto. }
  assert (~ exists p, p ∈ _DANGEROUS_PATTERNS /\ search p text = true) as Hnn.
  { intros (p & Hp & Hs). rewrite (Hn p Hp) in Hs. done. }
  unfold _has_write_redirect. destruct (Text.contains ">" text) eqn:Hgt.
  { split_and!; simpl; [|naive_solver|done]. split; [done|tauto]. }
  destruct (Text.has_substring "$(" text || Text.contains "`" text) eqn:Hsub.
  { split_and!; simpl; [split; [done|tauto]| |done]. split; [done|].
    intros (_ & _ & _ & H1 & H2 & _). rewrite H1, H2 in Hsub. done. }
  apply orb_false_iff in Hsub as [H1 H2].
  destruct (CommandParse.parse_segments text) as [segments|].
  2:{ split_and!; simpl; [split; [done|tauto]| |done]. split; [done|]. by intros (_ & _ & _ & _ & _ & ? & ? & _). }
  pose proof (first_unsafe_exact segments) as Hf. destruct (first_unsafe segments) as [argv|].
  - split_and!; simpl; [split; [done|tauto]| |done]. split; [done|].
    intros (_ & _ & _ & _ & _ & ? & [= <-] & Ha). by apply Hf in Ha.
  - split_and!; simpl; [split; [done|tauto]| |done]. split; [intros _|done].
    split_and!; try done. exists segments. split; [done|by apply Hf].
Qed.

End Classifier.

(** ** The [Bash] tool *)
Module Bash.
Import Rules SandboxGuard PermissionEngine Classifier.

Definition permission_target (command : string) : string := command.

Definition permission_segments (command : string) : option (list string) :=
  match CommandParse.segment_strings command with
  | [] => None
  | segments => Some segments
  end.

Definition check_permissions {A} (command : string) : option (PermissionDecision (A := A)) :=
  let assessment := classify_command command in
  if bool_decide (risk assessment = high) then
    Some (Ask "tool_check" "potentially destructive command"
            ("This command looks destructive: " +:+ command))
  else if known_safe assessment then Some (Allow "tool_check" (Classifier.reason assessment))
  else None.

Section Call.
Context {A W : Type} (norm : string -> string) (cwd : option string) (mode : PermissionMode).
Context (ask_user : option (ApprovalRequest -> W -> W * ApprovalChoice)) (sandbox : option SandboxConfig).

(** The check of one call, as [ToolCallPolicy._check_permission] makes it. *)
Definition call_check (s : t) (command : string) (mutates_fs : bool) : t * PermissionDecision (A := A) :=
  check norm cwd mode ask_user sandbox s "Bash" (permission_target command) (check_permissions command)
    mutates_fs (permission_segments command).

Lemma own_check command : ~ says_user (check_permissions (A := A) command).
Proof.
  intros (d & Hd & Hu). unfold check_permissions in Hd.
  destruct (bool_decide _); [by injection Hd as <-|]. destruct (known_safe _); [by injection Hd as <-|done].
Qed.

(** C26: A destructive command never runs unseen. Whatever the mode (bypass included), the
    allow rules and the grants of the session, a command that matches a destructive pattern
    is either denied with nothing changed, or put to the user; without a channel it is
    denied; and it is allowed only by the user's answer to this very call. *)
Theorem destructive_needs_approval s command mutates_fs :
  destructive command ->
  let r := call_check s command mutates_fs in
  (fst r = s /\ decided (snd r) = deny
   \/ settled ask_user s r
        (fun s => remember s (fst (_suggested_allow_rule "Bash" command (permission_segments command))))
        "approval" (shown command))
  /\ (ask_user = None -> decided (snd r) = deny)
  /\ (decided (snd r) = allow -> reason_type (snd r) = "user").
Proof.
  intros Hd r. destruct (classify_exact command) as [Hrisk _]. apply Hrisk in Hd. clear Hrisk.
  assert (exists d, check_permissions (A := A) command = Some d /\ decided d = ask) as (d & Htc & Hask).
  { unfold check_permissions. rewrite bool_decide_true by done. eauto. }
  assert (axis_a mode s "Bash" command (check_permissions (A := A) command) mutates_fs (permission_segments command)
          <> allow) as Hax.
  { unfold axis_a, table. rewrite Htc. cbn [fmap option_fmap option_map first_match]. rewrite Hask.
    destruct (is_behavior deny _); [done|]. cbn. by destruct (is_behavior ask _). }
  assert (fst r = s /\ decided (snd r) = deny
   \/ settled ask_user s r
        (fun s => remember s (fst (_suggested_allow_rule "Bash" command (permission_segments command))))
        "approval" (shown command)) as H.
  { pose proof (check_exact norm cwd mode ask_user sandbox s "Bash" command (check_permissions command)
      mutates_fs (permission_segments command) (own_check command)) as [_ H]. fold (call_check s command mutates_fs) in H.
    destruct (axis_a mode s "Bash" command _ mutates_fs _); [done|by left|by right]. }
  split; [exact H|]. split.
  - intros Hn. destruct H as [[_ H]|H]; [done|]. unfold settled in H. rewrite Hn in H. by destruct H.
  - intros Ha. destruct H as [[_ H]|H]; [congruence|]. by apply settled_mono in H as [_ ?]; auto.
Qed.

End Call.

Lemma destructive_needs_approval_witness :
  destructive "sudo rm -rf /"
  /\ decided (snd (call_check (A := unit) (W := nat) (fun p => p) None bypass None None
       (PermissionEngine.mk [mkRule "Bash" None allow role] [] 0%nat) "sudo rm -rf /" false)) = deny.
Proof.
  assert (destructive "sudo rm -rf /") as Hd by (apply classify_exact; vm_compute; reflexivity).
  split; [exact Hd|].
  destruct (destructive_needs_approval (A := unit) (W := nat) (fun p => p) None bypass None None
    (PermissionEngine.mk [mkRule "Bash" None allow role] [] 0%nat) "sudo rm -rf /" false Hd) as (_ & H & _).
  apply H. reflexivity.
Defined.

(** *** What the classifier vouches for, and should not

    Commands that write or run other programs, called verifiably read-only: a program run
    by [env]; a second command on a new line or behind an operator without spaces; options
    that name an output file; in-place edits in other spellings; a new branch. *)
Definition overlooked : list string :=
  ["env python3 x.py"; "ls" +:+ String "010" "python3 x.py"; "echo a;python3 x.py";
   "sort -o out.txt in.txt"; "sed -ni p f"; "sed --in-place=.b s/a/b/ f"; "find . -fprint0 out.txt";
   "git diff --output=out.txt"; "git branch topic"; "xxd -r in.hex out.bin"].

Lemma overlooked_are_vouched : forallb (fun c => known_safe (classify_command c)) overlooked = true.
Proof. vm_compute. reflexivity. Qed.

End Bash.
