(* ===== verification/Utf8.v ===== *)
(** * UTF-8 texts

    The bytes of a file and the text Python decodes from them, strictly, as UTF-8. A text is
    the list of its characters, each kept as its bytes, so that writing it is putting the
    characters together; [str.strip] and [str.splitlines] act on characters, with all the
    white space and line ends of Unicode. *)

From S2P Require Import Prelude Text.
From Stdlib Require Import Ascii String.
From stdpp Require Import base list strings.

Open Scope string_scope.
Open Scope list_scope.
Open Scope Z_scope.

Module Utf8.

(** ** Decoding *)

Definition between (lo hi : Z) (c : ascii) : bool := (lo <=? Text.code c) && (Text.code c <=? hi).
Definition continues (c : ascii) : bool := between 128 191 c.

(** The second byte of a character of three or four: neither an overlong form, nor a
    surrogate, nor beyond the last code point. *)
Definition second3 (a b : ascii) : bool :=
  if Text.code a =? 224 then between 160 191 b
  else if Text.code a =? 237 then between 128 159 b
  else continues b.
Definition second4 (a b : ascii) : bool :=
  if Text.code a =? 240 then between 144 191 b
  else if Text.code a =? 244 then between 128 143 b
  else continues b.

(** The first character and what follows; [None] where the decoder gives up. *)
Definition head (s : string) : option (string * string) :=
  match s with
  | EmptyString => None
  | String a s1 =>
      if Text.code a <? 128 then Some (String a "", s1)
      else match s1 with
      | EmptyString => None
      | String b s2 =>
          if between 194 223 a then
            if continues b then Some (String a (String b ""), s2) else None
          else match s2 with
          | EmptyString => None
          | String c s3 =>
              if between 224 239 a then
                if second3 a b && continues c then Some (String a (String b (String c "")), s3) else None
              else match s3 with
              | EmptyString => None
              | String d s4 =>
                  if between 240 244 a && second4 a b && continues c && continues d
                  then Some (String a (String b (String c (String d ""))), s4) else None
              end
          end
      end
  end.

(** [bytes.decode("utf-8")]; [None] is [UnicodeDecodeError]. Every round takes a byte at
    least, so the length is fuel enough. *)
Fixpoint chars_fuel (n : nat) (s : string) : option (list string) :=
  match s with
  | EmptyString => Some []
  | _ => match n with
         | O => None
         | S n => match head s with
                  | Some (c, rest) => (c ::.) <$> chars_fuel n rest
                  | None => None
                  end
         end
  end.

Definition chars (s : string) : option (list string) := chars_fuel (String.length s) s.

(** A character as the decoder takes it. *)
Definition is_char (c : string) : Prop := head c = Some (c, "").

#[local] Arguments String.append !_ _ / : simpl nomatch.

Lemma head_some s c rest : head s = Some (c, rest) ->
  s = c +:+ rest /\ is_char c /\ (String.length rest < String.length s)%nat /\
  forall t, head (s +:+ t) = Some (c, rest +:+ t).
Proof.
  unfold is_char, head. destruct s as [|a s1]; [done|]. cbn [String.append].
  destruct (Text.code a <? 128) eqn:E1.
  { intros [= <- <-]. cbn. rewrite E1. split_and!; [done|done|lia|done]. }
  destruct s1 as [|b s2]; [done|]. cbn [String.append]. destruct (between 194 223 a) eqn:E2.
  { destruct (continues b) eqn:Eb; [|done]. intros [= <- <-]. cbn. rewrite E1, E2, Eb. split_and!; [done|done|lia|done]. }
  destruct s2 as [|c' s3]; [done|]. cbn [String.append]. destruct (between 224 239 a) eqn:E3.
  { destruct (second3 a b && continues c') eqn:Eb; [|done]. intros [= <- <-]. cbn. rewrite E1, E2, E3, Eb.
    split_and!; [done|done|lia|done]. }
  destruct s3 as [|d s4]; [done|]. cbn [String.append].
  destruct (between 240 244 a && second4 a b && continues c' && continues d) eqn:Eb; [|done].
  intros [= <- <-]. cbn. rewrite E1, E2, E3, Eb. split_and!; [done|done|lia|done].
Qed.

Lemma chars_fuel_enough n s : (String.length s <= n)%nat -> chars_fuel n s = chars s.
Proof.
  unfold chars. assert (forall n m s, (String.length s <= n)%nat -> (String.length s <= m)%nat ->
    chars_fuel n s = chars_fuel m s) as H; [|intros; by apply H].
  clear. induction n as [|n IH]; intros m s Hn Hm; (destruct s as [|a s]; [by destruct m|]); [simpl in Hn; lia|].
  destruct m as [|m]; [simpl in Hm; lia|]. cbn [chars_fuel].
  destruct (head (String a s)) as [[c rest]|] eqn:E; [|done]. apply head_some in E as (_ & _ & Hl & _).
  rewrite (IH m rest); [done|lia|lia].
Qed.

Lemma chars_head s c rest : head s = Some (c, rest) -> chars s = (c ::.) <$> chars rest.
Proof.
  intros E. pose proof (head_some s c rest E) as (_ & _ & Hl & _). unfold chars at 1.
  destruct s as [|a s]; [done|]. cbn [String.length chars_fuel]. rewrite E.
  by rewrite chars_fuel_enough by (simpl in Hl; lia).
Qed.

Lemma chars_none a s : head (String a s) = None -> chars (String a s) = None.
Proof. intros E. unfold chars. cbn [String.length chars_fuel]. by rewrite E. Qed.

(** Rule of induction: a text that decodes is empty, or a character and a text that decodes. *)
Lemma chars_ind (P : string -> list string -> Prop) :
  P "" [] ->
  (forall c s l, is_char c -> chars s = Some l -> P s l -> P (c +:+ s) (c :: l)) ->
  forall s l, chars s = Some l -> P s l.
Proof.
  intros H0 HS s. induction s as [s IH] using (well_founded_induction (Wf_nat.well_founded_ltof _ String.length)).
  unfold ltof in IH. intros l Hl. destruct s as [|a s]; [by injection Hl as <-|].
  destruct (head (String a s)) as [[c rest]|] eqn:E; [|by rewrite (chars_none _ _ E) in Hl].
  rewrite (chars_head _ _ _ E) in Hl. apply head_some in E as (E & Hc & Hlt & _). rewrite E in *.
  apply fmap_Some in Hl as (l' & Hl & ->). apply HS; [done|done|]. by apply IH.
Qed.

Lemma chars_cons c s : is_char c -> chars (c +:+ s) = (c ::.) <$> chars s.
Proof. intros H. apply head_some in H as (_ & _ & _ & H). by apply chars_head. Qed.

Lemma chars_app a b l : chars a = Some l -> chars (a +:+ b) = (app l) <$> chars b.
Proof.
  intros Ha. revert a l Ha. apply chars_ind.
  - change ("" +:+ b) with b. by destruct (chars b).
  - intros c s l Hc _ IH. rewrite <- Text.append_assoc, chars_cons, IH by done. by destruct (chars b).
Qed.

Lemma chars_concat s l : chars s = Some l -> Text.concat l = s.
Proof. intros H. revert s l H. apply chars_ind; [done|]. intros c s l _ _ IH. cbn. by rewrite IH. Qed.

Lemma chars_is_char s l : chars s = Some l -> Forall is_char l.
Proof. intros H. revert s l H. apply chars_ind; [done|]. intros c s l Hc _ IH. by constructor. Qed.

Lemma chars_of l : Forall is_char l -> chars (Text.concat l) = Some l.
Proof. induction 1 as [|c l Hc _ IH]; [done|]. cbn [Text.concat]. by rewrite chars_cons, IH. Qed.

Lemma is_char_ascii a : Text.code a <? 128 = true -> is_char (String a "").
Proof. unfold is_char, head. by intros ->. Qed.

(** ** White space and line ends *)

Definition byte (k : Z) : ascii := ascii_of_nat (Z.to_nat k).
Fixpoint bytes (l : list Z) : string :=
  match l with [] => "" | k :: l => String (byte k) (bytes l) end.

Definition NEL : string := bytes [194; 133].
Definition LS : string := bytes [226; 128; 168].
Definition PS : string := bytes [226; 128; 169].

(** The white space of [str.strip] beyond ASCII. *)
Definition wide_spaces : list string :=
  [NEL; bytes [194; 160]; bytes [225; 154; 128]]
  ++ ((fun k => bytes [226; 128; 128 + Z.of_nat k]) <$> seq 0 11)
  ++ [LS; PS; bytes [226; 128; 175]; bytes [226; 129; 159]; bytes [227; 128; 128]].

Definition is_space (c : string) : bool :=
  match c with
  | String a "" => Text.is_space a
  | _ => existsb (String.eqb c) wide_spaces
  end.

(** The line ends of [str.splitlines]. *)
Definition is_line_end (c : string) : bool :=
  match c with
  | String a "" => Text.is_line_end a
  | _ => existsb (String.eqb c) [NEL; LS; PS]
  end.

Fixpoint drop_while (p : string -> bool) (l : list string) : list string :=
  match l with
  | [] => []
  | c :: l' => if p c then drop_while p l' else l
  end.

(** [str.strip] *)
Definition strip (l : list string) : list string :=
  rev (drop_while is_space (rev (drop_while is_space l))).

Definition CR : string := String "013" "".
Definition LF : string := String "010" "".

(** [str.splitlines]; the newline translation of a text file changes none of the lines. *)
Fixpoint lines_from (line : list string) (l : list string) : list (list string) :=
  match l with
  | [] => match line with [] => [] | _ => [line] end
  | c :: l' =>
      if is_line_end c then
        match l' with
        | d :: l'' =>
            if String.eqb c CR && String.eqb d LF then line :: lines_from [] l''
            else line :: lines_from [] l'
        | [] => [line]
        end
      else lines_from (line ++ [c]) l'
  end.

Definition splitlines (l : list string) : list (list string) := lines_from [] l.

Definition plain (l : list string) : bool := forallb (fun c => negb (is_line_end c)) l.

Lemma lines_from_app acc g s :
  lines_from acc (g ++ LF :: s) = lines_from acc (g ++ [LF]) ++ lines_from [] s.
Proof.
  remember (length g) as n eqn:Hn. revert acc g Hn.
  induction n as [n IH] using (well_founded_induction Wf_nat.lt_wf). intros acc g Hn.
  destruct g as [|c g]; cbn [app lines_from].
  - change (is_line_end LF) with true. cbv iota. destruct s as [|d s]; [by rewrite app_nil_r|]. done.
  - destruct (is_line_end c).
    + destruct g as [|d g]; cbn [app].
      * destruct (String.eqb c CR && String.eqb LF LF); [done|].
        cbn [lines_from app]. change (is_line_end LF) with true. cbv iota.
        destruct s; [by rewrite app_nil_r|done].
      * destruct (String.eqb c CR && String.eqb d LF); cbn [app]; f_equal.
        -- apply (IH (length g)); [subst n; simpl; lia|done].
        -- apply (IH (length (d :: g)) ltac:(subst n; simpl; lia) [] (d :: g) eq_refl).
    + apply (IH (length g)); [subst n; simpl; lia|done].
Qed.

(** Nothing, or whole lines. *)
Definition ends_line (l : list string) : Prop := l = [] \/ exists g, l = g ++ [LF].

Lemma splitlines_app l s : ends_line l -> splitlines (l ++ s) = splitlines l ++ splitlines s.
Proof.
  unfold splitlines. intros [->|(g & ->)]; [done|]. rewrite <- app_assoc. apply lines_from_app.
Qed.

Lemma ends_line_app l g : ends_line l -> ends_line (l ++ g ++ [LF]).
Proof. intros _. right. exists (l ++ g). by rewrite app_assoc. Qed.

Lemma lines_from_plain acc l :
  plain l = true -> lines_from acc l = match acc ++ l with [] => [] | x => [x] end.
Proof.
  revert acc. induction l as [|c l IH]; intros acc; cbn [plain forallb lines_from].
  - rewrite app_nil_r. by destruct acc.
  - intros [Hc Hl]%andb_prop. apply negb_true_iff in Hc. by rewrite Hc, IH, <- app_assoc.
Qed.

Lemma splitlines_one l : l <> [] -> plain l = true -> splitlines l = [l].
Proof. intros Hne Hl. unfold splitlines. rewrite lines_from_plain by done. by destruct l. Qed.

Lemma splitlines_line l : plain l = true -> splitlines (l ++ [LF]) = [l].
Proof.
  unfold splitlines. assert (forall acc, plain l = true -> lines_from acc (l ++ [LF]) = [acc ++ l]) as H; [|by apply H].
  induction l as [|c l IH]; intros acc; cbn [plain forallb app lines_from].
  - intros _. change (is_line_end LF) with true. cbv iota. by rewrite app_nil_r.
  - intros [Hc Hl]%andb_prop. apply negb_true_iff in Hc. by rewrite Hc, IH, <- app_assoc.
Qed.

Lemma plain_app a b : plain (a ++ b) = plain a && plain b.
Proof. apply forallb_app. Qed.

Lemma strip_kept c l d : is_space c = false -> is_space d = false -> strip (c :: l ++ [d]) = c :: l ++ [d].
Proof.
  intros Hc Hd. unfold strip. cbn [drop_while]. rewrite Hc.
  change (c :: l ++ [d]) with ((c :: l) ++ [d]). rewrite rev_app_distr. cbn [rev app drop_while]. rewrite Hd.
  change (d :: rev l ++ [c]) with ([d] ++ rev (c :: l)). by rewrite rev_app_distr, rev_involutive.
Qed.

Lemma strip_prefix c l : is_space c = false -> exists w, strip (c :: l) ++ w = c :: l.
Proof.
  intros Hc. unfold strip. cbn [drop_while]. rewrite Hc.
  assert (forall r, exists w, r = w ++ drop_while is_space r) as H.
  { induction r as [|d r (w & IH)]; [by exists []|]. cbn [drop_while].
    destruct (is_space d); [|by exists []]. exists (d :: w). cbn. by rewrite <- IH. }
  destruct (H (rev (c :: l))) as (w & E). exists (rev w).
  by rewrite <- rev_app_distr, <- E, rev_involutive.
Qed.

(** ** Texts that take one line in JSON

    JSON escapes the line ends of ASCII, not the three others. *)
Definition one_line_chars (l : list string) : bool :=
  forallb (fun c => negb (existsb (String.eqb c) [NEL; LS; PS])) l.

Definition is_one_line (s : string) : bool :=
  match chars s with Some l => one_line_chars l | None => false end.

(** A character is ASCII, or all its bytes are beyond it. *)
Lemma is_char_cases c : is_char c ->
  (exists a, c = String a "" /\ Text.code a <? 128 = true)
  \/ (Text.forall_chars (fun a => negb (Text.code a <? 128)) c = true /\ exists a b r, c = String a (String b r)).
Proof.
  unfold is_char, head. destruct c as [|a s1]; [done|].
  destruct (Text.code a <? 128) eqn:E1; [intros [= <-]; left; by exists a|].
  assert (forall x, continues x = true -> negb (Text.code x <? 128) = true) as Hc
    by (unfold continues, between; lia).
  assert (forall x y, second3 x y = true -> negb (Text.code y <? 128) = true) as H3
    by (unfold second3, continues, between; intros x y; repeat case_match; lia).
  assert (forall x y, second4 x y = true -> negb (Text.code y <? 128) = true) as H4
    by (unfold second4, continues, between; intros x y; repeat case_match; lia).
  destruct s1 as [|b s2]; [done|]. destruct (between 194 223 a).
  { destruct (continues b) eqn:Eb; [|done]. intros [= <-]. right. cbn. rewrite E1, (Hc b) by done. eauto. }
  destruct s2 as [|c' s3]; [done|]. destruct (between 224 239 a).
  { destruct (second3 a b && continues c') eqn:Eb; [|done]. apply andb_prop in Eb as [Eb Ec]. intros [= <-].
    right. cbn. rewrite E1, (H3 a b), (Hc c') by done. eauto. }
  destruct s3 as [|d s4]; [done|].
  destruct (between 240 244 a && second4 a b && continues c' && continues d) eqn:Eb; [|done].
  apply andb_prop in Eb as [Eb Ed]. apply andb_prop in Eb as [Eb Ec]. apply andb_prop in Eb as [_ Eb].
  intros [= <-]. right. cbn. rewrite E1, (H4 a b), (Hc c'), (Hc d) by done. eauto.
Qed.

(** Texts that decode to characters of which none ends a line. *)
Definition is_plain (s : string) : bool := match chars s with Some l => plain l | None => false end.

Lemma is_plain_chars s : is_plain s = true <-> exists l, chars s = Some l /\ plain l = true.
Proof.
  unfold is_plain. destruct (chars s) as [l|].
  - split; [by exists l|]. by intros (? & [= <-] & ?).
  - split; [done|]. by intros (? & ? & _).
Qed.

Lemma is_plain_app a b : is_plain a = true -> is_plain b = true -> is_plain (a +:+ b) = true.
Proof.
  rewrite !is_plain_chars. intros (la & Ha & Pa) (lb & Hb & Pb). exists (la ++ lb).
  rewrite (chars_app _ _ _ Ha), Hb. split; [done|]. by rewrite plain_app, Pa, Pb.
Qed.

(** A text of ASCII characters of which none ends a line. *)
Lemma is_plain_ascii s :
  Text.forall_chars (fun a => (Text.code a <? 128) && negb (Text.is_line_end a)) s = true -> is_plain s = true.
Proof.
  induction s as [|a s IH]; [done|]. cbn [Text.forall_chars]. intros [[Ha He]%andb_prop Hs]%andb_prop.
  apply (is_plain_app (String a "") s); [|by apply IH]. apply is_plain_chars. exists [String a ""].
  split; [|cbn; by rewrite He].
  change (String a "") with (String a "" +:+ "") at 1. by rewrite chars_cons by (by apply is_char_ascii).
Qed.

Lemma plain_one_line s : is_plain s = true -> is_one_line s = true.
Proof.
  unfold is_one_line. rewrite is_plain_chars. intros (l & -> & Hp). unfold plain, one_line_chars in *.
  rewrite forallb_forall in Hp |- *. intros c Hc. specialize (Hp c Hc). apply negb_true_iff in Hp. apply negb_true_iff.
  destruct c as [|a [|b c]]; [done| |exact Hp]. destruct a as [[] [] [] [] [] [] [] []]; reflexivity.
Qed.

End Utf8.
