(* ===== verification/Json.v ===== *)
(** * JSON texts

    [json.dumps] with its default separators and without ASCII escapes, and [json.loads], of
    the standard library, on texts kept as their UTF-8 bytes: the characters that JSON treats
    in a way of their own are ASCII, and the bytes of the others are copied. A number is kept
    as its literal. An escape of a surrogate, which the writer never makes, is not
    considered. *)

From S2P Require Import Prelude Text.
From Stdlib Require Import Ascii String.
From stdpp Require Import base list strings.

Open Scope string_scope.
Open Scope list_scope.
Open Scope mote_scope.
Open Scope Z_scope.

Module Json.

Inductive json :=
| JNull | JBool (b : bool) | JNum (literal : string) | JStr (s : string)
| JArr (l : list json) | JObj (kvs : list (string * json)).

Definition quote : ascii := "034"%char.
Definition backslash : ascii := "\"%char.

(** ** Writing *)

Definition hex_char (n : Z) : ascii :=
  if n <? 10 then ascii_of_nat (Z.to_nat (48 + n)) else ascii_of_nat (Z.to_nat (87 + n)).

Definition escape (c : ascii) : string :=
  let k := Text.code c in
  if bool_decide (c = quote) || bool_decide (c = backslash) then String backslash (String c "")
  else if k =? 10 then String backslash "n"
  else if k =? 13 then String backslash "r"
  else if k =? 9 then String backslash "t"
  else if k =? 12 then String backslash "f"
  else if k =? 8 then String backslash "b"
  else if k <? 32 then
    String backslash ("u00" +:+ String (hex_char (k / 16)) (String (hex_char (k mod 16)) ""))
  else String c "".

Fixpoint escapes (s : string) : string :=
  match s with EmptyString => "" | String c s' => escape c +:+ escapes s' end.

Definition dumps_str (s : string) : string := String quote (escapes s +:+ String quote "").

Fixpoint dumps (j : json) : string :=
  match j with
  | JNull => "null"
  | JBool b => if b then "true" else "false"
  | JNum lit => lit
  | JStr s => dumps_str s
  | JArr l => "[" +:+ Text.join ", " (dumps <$> l) +:+ "]"
  | JObj kvs => "{" +:+ Text.join ", " ((fun kv => dumps_str kv.1 +:+ ": " +:+ dumps kv.2) <$> kvs) +:+ "}"
  end.

(** ** Reading *)

Definition is_ws (c : ascii) : bool :=
  let k := Text.code c in (k =? 32) || (k =? 9) || (k =? 10) || (k =? 13).

Definition skip_ws (s : string) : string := Text.lstrip is_ws s.

(** The UTF-8 bytes of a code point of at most four hexadecimal digits. *)
Definition utf8_encode (k : Z) : string :=
  let byte n := ascii_of_nat (Z.to_nat n) in
  if k <? 128 then String (byte k) ""
  else if k <? 2048 then String (byte (192 + k / 64)) (String (byte (128 + k mod 64)) "")
  else String (byte (224 + k / 4096))
         (String (byte (128 + k / 64 mod 64)) (String (byte (128 + k mod 64)) "")).

(** Four hexadecimal digits, as a character. *)
Definition unicode (a b c d : ascii) : option string :=
  match Text.hex_digit a, Text.hex_digit b, Text.hex_digit c, Text.hex_digit d with
  | Some a, Some b, Some c, Some d =>
      let k := ((a * 16 + b) * 16 + c) * 16 + d in
      if (55296 <=? k) && (k <? 57344) then None else Some (utf8_encode k)
  | _, _, _, _ => None
  end.

Definition unescape (c : ascii) : option ascii :=
  let k := Text.code c in
  if bool_decide (c = quote) || bool_decide (c = backslash) || (k =? 47) then Some c
  else if k =? 110 then Some (ascii_of_nat 10)
  else if k =? 114 then Some (ascii_of_nat 13)
  else if k =? 116 then Some (ascii_of_nat 9)
  else if k =? 102 then Some (ascii_of_nat 12)
  else if k =? 98 then Some (ascii_of_nat 8)
  else None.

Definition prepend (c : ascii) (o : option (string * string)) : option (string * string) :=
  match o with Some (s, rest) => Some (String c s, rest) | None => None end.

Definition prepend_text (x : string) (o : option (string * string)) : option (string * string) :=
  match o with Some (s, rest) => Some (x +:+ s, rest) | None => None end.

(** The rest of a string after its opening quote. *)
Fixpoint parse_str (s : string) : option (string * string) :=
  match s with
  | EmptyString => None
  | String c s1 =>
      if bool_decide (c = quote) then Some ("", s1)
      else if bool_decide (c = backslash) then
        match s1 with
        | EmptyString => None
        | String e s2 =>
            if Text.code e =? 117 then
              match s2 with
              | String a (String b (String c' (String d s3))) =>
                  match unicode a b c' d with Some x => prepend_text x (parse_str s3) | None => None end
              | _ => None
              end
            else match unescape e with Some x => prepend x (parse_str s2) | None => None end
        end
      else if Text.code c <? 32 then None
      else prepend c (parse_str s1)
  end.

(** The digits a text starts with. *)
Fixpoint digits (s : string) : string * string :=
  match s with
  | String c s' =>
      if Text.is_decimal c then let '(d, rest) := digits s' in (String c d, rest) else ("", s)
  | EmptyString => ("", "")
  end.

(** The integer part: no digits after a leading zero. *)
Definition int_part (s : string) : option (string * string) :=
  match s with
  | String c s' =>
      if bool_decide (c = "0"%char) then Some ("0", s')
      else match digits s with ("", _) => None | (d, rest) => Some (d, rest) end
  | EmptyString => None
  end.

Definition fraction (s : string) : string * string :=
  match s with
  | String c s' =>
      if bool_decide (c = "."%char)
      then match digits s' with ("", _) => ("", s) | (d, rest) => (String c d, rest) end
      else ("", s)
  | EmptyString => ("", "")
  end.

Definition is_exponent (c : ascii) : bool := bool_decide (c = "e"%char) || bool_decide (c = "E"%char).
Definition is_sign (c : ascii) : bool := bool_decide (c = "+"%char) || bool_decide (c = "-"%char).

Definition signed_digits (s : string) : string * string :=
  match s with
  | String c s' =>
      if is_sign c
      then match digits s' with ("", _) => ("", s) | (d, rest) => (String c d, rest) end
      else digits s
  | EmptyString => ("", "")
  end.

Definition exponent (s : string) : string * string :=
  match s with
  | String c s' =>
      if is_exponent c
      then match signed_digits s' with ("", _) => ("", s) | (d, rest) => (String c d, rest) end
      else ("", s)
  | EmptyString => ("", "")
  end.

Definition unsigned (s : string) : option (string * string) :=
  match int_part s with
  | None => None
  | Some (i, s1) =>
      let '(f, s2) := fraction s1 in
      let '(e, s3) := exponent s2 in Some (i +:+ f +:+ e, s3)
  end.

Definition number (s : string) : option (string * string) :=
  match s with
  | String c s' =>
      if bool_decide (c = "-"%char)
      then match unsigned s' with Some (n, rest) => Some (String c n, rest) | None => None end
      else unsigned s
  | EmptyString => None
  end.

Definition after (p s : string) : option string :=
  if String.prefix p s then Some (Text.drop_chars (String.length p) s) else None.

(** The words, in the order of the scanner, and then numbers. *)
Definition scalar (s : string) : option (json * string) :=
  match after "null" s with Some r => Some (JNull, r) | None =>
  match after "true" s with Some r => Some (JBool true, r) | None =>
  match after "false" s with Some r => Some (JBool false, r) | None =>
  match number s with Some (n, r) => Some (JNum n, r) | None =>
  match after "NaN" s with Some r => Some (JNum "NaN", r) | None =>
  match after "Infinity" s with Some r => Some (JNum "Infinity", r) | None =>
  match after "-Infinity" s with Some r => Some (JNum "-Infinity", r) | None => None
  end end end end end end end.

Definition starts (c : ascii) (s : string) : option string :=
  match s with String d s' => if bool_decide (d = c) then Some s' else None | EmptyString => None end.

(** One value, the elements of an array and the members of an object, from where they start;
    the fuel bounds the depth of the calls. *)
Fixpoint value (n : nat) (s : string) : option (json * string) :=
  match n with
  | O => None
  | S n =>
      match starts quote s with
      | Some r => match parse_str r with Some (x, rest) => Some (JStr x, rest) | None => None end
      | None =>
          match starts "{" s with
          | Some r =>
              match starts "}" (skip_ws r) with
              | Some rest => Some (JObj [], rest)
              | None => match members n [] (skip_ws r) with
                        | Some (kvs, rest) => Some (JObj kvs, rest)
                        | None => None
                        end
              end
          | None =>
              match starts "[" s with
              | Some r =>
                  match starts "]" (skip_ws r) with
                  | Some rest => Some (JArr [], rest)
                  | None => match elements n (skip_ws r) with
                            | Some (l, rest) => Some (JArr l, rest)
                            | None => None
                            end
                  end
              | None => scalar s
              end
          end
      end
  end
with elements (n : nat) (s : string) : option (list json * string) :=
  match n with
  | O => None
  | S n =>
      match value n s with
      | None => None
      | Some (x, r) =>
          match starts "]" (skip_ws r) with
          | Some rest => Some ([x], rest)
          | None =>
              match starts "," (skip_ws r) with
              | Some r' =>
                  match elements n (skip_ws r') with
                  | Some (l, rest) => Some (x :: l, rest)
                  | None => None
                  end
              | None => None
              end
          end
      end
  end
with members (n : nat) (acc : list (string * json)) (s : string) : option (list (string * json) * string) :=
  match n with
  | O => None
  | S n =>
      match starts quote s with
      | None => None
      | Some r =>
          match parse_str r with
          | None => None
          | Some (k, r) =>
              match starts ":" (skip_ws r) with
              | None => None
              | Some r =>
                  match value n (skip_ws r) with
                  | None => None
                  | Some (v, r) =>
                      let acc := Dict.set k v acc in
                      match starts "}" (skip_ws r) with
                      | Some rest => Some (acc, rest)
                      | None =>
                          match starts "," (skip_ws r) with
                          | Some r => members n acc (skip_ws r)
                          | None => None
                          end
                      end
                  end
              end
          end
      end
  end.

(** [json.loads]: the whole text is one value. *)
Definition loads (s : string) : option json :=
  match value (S (2 * String.length s)) (skip_ws s) with
  | Some (j, rest) => if bool_decide (skip_ws rest = "") then Some j else None
  | None => None
  end.


(** ** Flat objects are read back, and only whole ones

    The objects of the journals: members that are texts, numbers without a sign, booleans or
    null, under distinct keys. *)

#[local] Arguments String.append !_ _ / : simpl nomatch.

Definition flat (j : json) : Prop :=
  match j with
  | JNull | JBool _ | JStr _ => True
  | JNum lit => exists n, 0 <= n /\ lit = Text.fmt n
  | JArr _ | JObj _ => False
  end.

Lemma parse_escape c t : parse_str (escape c +:+ t) = prepend c (parse_str t).
Proof. destruct c as [[] [] [] [] [] [] [] []]; reflexivity. Qed.

Lemma parse_dumps_str s r : parse_str (escapes s +:+ String quote r) = Some (s, r).
Proof.
  induction s as [|c s IH]; [done|]. cbn [escapes]. by rewrite <- Text.append_assoc, parse_escape, IH.
Qed.

Fixpoint prefixes (s : string) : list string :=
  match s with EmptyString => [] | String c s' => "" :: (String c <$> prefixes s') end.

Lemma prefixes_spec p t : t <> "" -> In p (prefixes (p +:+ t)).
Proof.
  intros Ht. induction p as [|c p IH]; [by destruct t; [|left]|]. right.
  apply list_elem_of_In, list_elem_of_fmap. exists p. split; [done|]. by apply list_elem_of_In.
Qed.

Definition is_none {A} (o : option A) : bool := match o with None => true | Some _ => false end.

(** No text is read from a cut character. *)
Lemma parse_torn_escape c p t : t <> "" -> escape c = p +:+ t -> parse_str p = None.
Proof.
  intros Ht E. assert (forallb (fun n => forallb (fun p => is_none (parse_str p)) (prefixes (escape (ascii_of_nat n))))
    (seq 0 256) = true) as Hall by (vm_compute; reflexivity).
  rewrite forallb_forall in Hall. specialize (Hall (nat_of_ascii c)).
  rewrite ascii_nat_embedding in Hall.
  assert (nat_of_ascii c < 256)%nat by apply nat_ascii_bounded. specialize (Hall ltac:(apply in_seq; lia)).
  rewrite forallb_forall in Hall. specialize (Hall p). rewrite E in Hall.
  specialize (Hall (prefixes_spec p t Ht)). by destruct (parse_str p).
Qed.

Lemma parse_torn_str s p t : t <> "" -> escapes s +:+ String quote "" = p +:+ t -> parse_str p = None.
Proof.
  intros Ht. revert p. induction s as [|c s IH]; intros p; cbn [escapes].
  - destruct p as [|d p]; [done|]. cbn [String.append]. intros E. exfalso.
    apply (f_equal String.length) in E. simpl in E. rewrite Text.append_length in E.
    destruct t; [done|]. simpl in E. lia.
  - rewrite <- Text.append_assoc. intros [(p' & -> & E)|(t' & Hne & E & _)]%Text.app_cut.
    + rewrite parse_escape. by rewrite IH.
    + by eapply parse_torn_escape.
Qed.

(** *** Numbers *)
Lemma digits_all d r :
  Text.forall_chars Text.is_decimal d = true ->
  match r with String c _ => Text.is_decimal c = false | EmptyString => True end ->
  digits (d +:+ r) = (d, r).
Proof.
  intros Hd Hr. induction d as [|c d IH].
  - cbn [String.append]. destruct r as [|c r]; [done|]. cbn [digits]. by rewrite Hr.
  - cbn [Text.forall_chars] in Hd. apply andb_prop in Hd as [Hc Hd]. cbn [String.append digits]. by rewrite Hc, IH.
Qed.

(** What may follow a member: the end of the text, a comma, or the closing brace. *)
Definition stops (r : string) : Prop :=
  match r with
  | EmptyString => True
  | String c _ => c = ","%char \/ c = "}"%char
  end.

Lemma number_digits c d r :
  Text.forall_chars Text.is_decimal (String c d) = true -> (c = "0"%char -> d = "") -> stops r ->
  number (String c d +:+ r) = Some (String c d, r).
Proof.
  intros Hd Hz Hr. cbn [String.append number].
  assert (Text.is_decimal c = true) as Hc by (cbn in Hd; by apply andb_prop in Hd as [? _]).
  rewrite bool_decide_false by (intros ->; done).
  assert (fraction r = ("", r) /\ exponent r = ("", r)) as [Hf He].
  { destruct r as [|e r]; [done|]. by destruct Hr as [-> | ->]. }
  assert (match r with String c _ => Text.is_decimal c = false | EmptyString => True end) as Hnd.
  { destruct r as [|e r]; [done|]. by destruct Hr as [-> | ->]. }
  unfold unsigned, int_part. cbn [String.append]. destruct (bool_decide_reflect (c = "0"%char)) as [->|Hne].
  - rewrite Hz by done. cbn [String.append]. by rewrite Hf, He.
  - change (String c (d +:+ r)) with (String c d +:+ r). rewrite digits_all by done.
    rewrite Hf, He. cbn [String.append]. by rewrite Text.append_nil_r.
Qed.

Lemma after_digit w c s : Text.is_decimal c = true ->
  match w with String d _ => Text.is_decimal d = false | EmptyString => False end -> after w (String c s) = None.
Proof.
  intros Hc Hw. destruct w as [|d w]; [done|]. unfold after. rewrite Text.prefix_cons, bool_decide_false; [done|].
  intros ->. congruence.
Qed.

Lemma scalar_digits c d r :
  Text.forall_chars Text.is_decimal (String c d) = true -> (c = "0"%char -> d = "") -> stops r ->
  scalar (String c d +:+ r) = Some (JNum (String c d), r).
Proof.
  intros Hd Hz Hr. assert (Text.is_decimal c = true) as Hc by (cbn in Hd; by apply andb_prop in Hd as [? _]).
  unfold scalar. rewrite (number_digits c d r Hd Hz Hr). cbn [String.append].
  by rewrite !after_digit.
Qed.

Lemma starts_digit q c s : Text.is_decimal c = true -> Text.is_decimal q = false -> starts q (String c s) = None.
Proof. intros Hc Hq. cbn [starts]. rewrite bool_decide_false; [done|]. intros ->. congruence. Qed.

Lemma value_digits n c d r :
  Text.forall_chars Text.is_decimal (String c d) = true -> (c = "0"%char -> d = "") -> stops r ->
  value (S n) (String c d +:+ r) = Some (JNum (String c d), r).
Proof.
  intros Hd Hz Hr. assert (Text.is_decimal c = true) as Hc by (cbn in Hd; by apply andb_prop in Hd as [? _]).
  cbn [String.append value]. rewrite !starts_digit by done.
  exact (scalar_digits c d r Hd Hz Hr).
Qed.

(** *** Members *)
Lemma value_flat n j r : flat j -> stops r -> value (S n) (dumps j +:+ r) = Some (j, r).
Proof.
  intros Hj Hr. destruct j as [|[]|lit|s| |]; [| | | | |done|done].
  - by destruct r.
  - by destruct r.
  - by destruct r.
  - destruct Hj as (z & Hz & ->). destruct (Text.fmt_nonneg z Hz) as (c & d & E & Hd & H0 & _).
    cbn [dumps]. rewrite E. by apply value_digits.
  - cbn [dumps]. unfold dumps_str. cbn [String.append value starts]. rewrite bool_decide_true by done.
    rewrite <- Text.append_assoc. cbn [String.append]. by rewrite parse_dumps_str.
Qed.

(** A cut member is not read, or leaves nothing. *)
Lemma value_torn n j p t : flat j -> t <> "" -> dumps j = p +:+ t ->
  match value n p with Some (_, rest) => rest = "" | None => True end.
Proof.
  intros Hj Ht E. destruct n as [|n]; [done|].
  assert (forall w, dumps j = w -> forallb (fun p => is_none (value (S n) p)) (prefixes w) = true ->
    match value (S n) p with Some (_, rest) => rest = "" | None => True end) as Hword.
  { intros w Hw Hall. rewrite forallb_forall in Hall. rewrite Hw in E. specialize (Hall p). rewrite E in Hall.
    specialize (Hall (prefixes_spec p t Ht)). by destruct (value (S n) p). }
  destruct j as [|[]|lit|s| |]; try done; try (eapply Hword; [reflexivity|reflexivity]).
  - destruct Hj as (z & Hz & ->). destruct (Text.fmt_nonneg z Hz) as (c & d & Ez & Hd & H0 & _).
    cbn [dumps] in E. rewrite Ez in E. destruct p as [|e p]; [reflexivity|]. cbn [String.append] in E.
    injection E as <- ->. change (String c (p +:+ t)) with (String c p +:+ t) in Hd.
    rewrite Text.forall_chars_app in Hd. apply andb_prop in Hd as [Hd _].
    rewrite <- (Text.append_nil_r (String c p)). rewrite value_digits; [done|done| |done].
    intros Hc. specialize (H0 Hc). by destruct p.
  - cbn [dumps] in E. unfold dumps_str in E. destruct p as [|e p]; [reflexivity|]. cbn [String.append] in E.
    injection E as <- E. cbn [value starts]. rewrite bool_decide_true by done.
    by rewrite (parse_torn_str s p t Ht E).
Qed.

Definition member_text (kv : string * json) : string := dumps_str kv.1 +:+ ": " +:+ dumps kv.2.

Definition members_text (kvs : list (string * json)) : string := Text.join ", " (member_text <$> kvs) +:+ "}".

Lemma members_text_one kv : members_text [kv] = member_text kv +:+ "}".
Proof. done. Qed.

Lemma members_text_cons kv kv' kvs :
  members_text (kv :: kv' :: kvs) = member_text kv +:+ ", " +:+ members_text (kv' :: kvs).
Proof. unfold members_text. rewrite fmap_cons. cbn [Text.join fmap list_fmap]. by rewrite <- !Text.append_assoc. Qed.

Lemma skip_ws_quote s : skip_ws (String quote s) = String quote s.
Proof. done. Qed.

Lemma skip_ws_stops r : stops r -> skip_ws r = r.
Proof. destruct r as [|c r]; [done|]. by intros [-> | ->]. Qed.

Lemma skip_ws_value j r : flat j -> skip_ws (dumps j +:+ r) = dumps j +:+ r.
Proof.
  intros Hj. destruct j as [|[]|lit|s| |]; try done. destruct Hj as (z & Hz & ->).
  destruct (Text.fmt_nonneg z Hz) as (c & d & E & Hd & _). cbn [dumps]. rewrite E. cbn [String.append].
  cbn in Hd. apply andb_prop in Hd as [Hc _]. unfold skip_ws. cbn [Text.lstrip].
  assert (is_ws c = false) as ->; [|done]. unfold Text.is_decimal in Hc. unfold is_ws. lia.
Qed.

Definition sets (acc kvs : list (string * json)) : list (string * json) :=
  foldl (fun d kv => Dict.set kv.1 kv.2 d) acc kvs.

(** One member and what follows it. *)
Lemma members_step n acc kv r : flat kv.2 -> stops r ->
  members (S (S n)) acc (member_text kv +:+ r)
  = match starts "}" r with
    | Some rest => Some (Dict.set kv.1 kv.2 acc, rest)
    | None => match starts "," r with
              | Some r => members (S n) (Dict.set kv.1 kv.2 acc) (skip_ws r)
              | None => None
              end
    end.
Proof.
  intros Hj Hr. destruct kv as [k j]. cbn [fst snd] in *. unfold member_text, dumps_str. cbn [fst snd].
  cbn [String.append]. cbn [members starts]. rewrite bool_decide_true by done.
  rewrite <- !Text.append_assoc. cbn [String.append]. rewrite parse_dumps_str.
  change (skip_ws (String ":" (String " " (dumps j +:+ r)))) with (String ":" (String " " (dumps j +:+ r))).
  cbn [starts]. rewrite bool_decide_true by done.
  change (skip_ws (String " " (dumps j +:+ r))) with (skip_ws (dumps j +:+ r)).
  rewrite skip_ws_value by done. rewrite (value_flat n j r Hj Hr). by rewrite skip_ws_stops.
Qed.

Lemma members_flat n acc kvs r : kvs <> [] -> Forall (fun kv => flat kv.2) kvs -> (length kvs < n)%nat ->
  members n acc (members_text kvs +:+ r) = Some (sets acc kvs, r).
Proof.
  intros Hne H. revert n acc. induction H as [|kv kvs Hj Hl IH]; intros n acc Hn; [done|].
  destruct n as [|[|n]]; [simpl in Hn; lia|simpl in Hn; lia|]. destruct kvs as [|kv' kvs].
  - rewrite members_text_one, <- Text.append_assoc. by rewrite members_step by (done || by right).
  - rewrite members_text_cons, <- !Text.append_assoc. rewrite members_step by (done || by left).
    cbn [String.append starts]. rewrite bool_decide_false, bool_decide_true by done.
    assert (forall x y, skip_ws (String " " (members_text (x :: y) +:+ r)) = members_text (x :: y) +:+ r) as ->.
    { intros [k j] [|kv2 y]; [by rewrite members_text_one|by rewrite members_text_cons]. }
    rewrite IH; [done|done|]. simpl in Hn |- *. lia.
Qed.

(** Of cut members nothing is read. *)
Lemma members_torn n acc kvs p t : Forall (fun kv => flat kv.2) kvs -> t <> "" ->
  members_text kvs = p +:+ t -> kvs <> [] -> members n acc p = None.
Proof.
  intros H. revert n acc p t. induction H as [|kv kvs Hj Hl IH]; intros n acc p t Ht E Hne; [done|]. clear Hne.
  destruct n as [|n]; [done|].
  assert (exists r, stops r /\ r <> "" /\ members_text (kv :: kvs) = member_text kv +:+ r
    /\ (forall p' t', t' <> "" -> r = p' +:+ t' -> p' <> "" -> forall n acc,
          exists c q, p' = String c q /\ c = ","%char /\ members n acc (skip_ws q) = None)) as (r & Hr & Hrne & Er & Hrest).
  { destruct kvs as [|kv' kvs].
    - exists "}". split_and!; [by right|done|done|]. intros p' t' Ht' E' Hp'.
      destruct p' as [|c p']; [done|]. cbn [String.append] in E'. injection E' as <- E'. by destruct p', t'.
    - exists (", " +:+ members_text (kv' :: kvs)). split_and!; [by left|done|apply members_text_cons|].
      intros p' t' Ht' E' Hp' m acc'. destruct p' as [|c [|c2 q]]; [done| |].
      + cbn [String.append] in E'. injection E' as <- _. exists ","%char, "". split_and!; [done|done|]. by destruct m.
      + cbn [String.append] in E'. injection E' as <- <- E'. eexists _, _. split_and!; [done|done|].
        change (skip_ws (String " " q)) with (skip_ws q).
        assert (skip_ws q = q) as ->; [|eapply (IH m acc' q t'); [exact Ht'|exact E'|done]].
        destruct q as [|c q]; [done|]. destruct kv' as [k' j'].
        assert (exists w, members_text ((k', j') :: kvs) = String quote w) as (w & Ew).
        { destruct kvs as [|kv2 y]; [rewrite members_text_one|rewrite members_text_cons]; by eexists. }
        rewrite Ew in E'. cbn [String.append] in E'. by injection E' as <- _. }
  rewrite Er in E. apply Text.app_cut in E as [(p' & -> & E)|(t' & Ht' & E & _)].
  - destruct (bool_decide_reflect (p' = "")) as [->|Hp'].
    + rewrite Text.append_nil_r. destruct n as [|n].
      { cbn [members]. destruct (starts quote _); [|done]. destruct (parse_str _) as [[k0 s0]|]; [|done].
        by destruct (starts ":" _). }
      rewrite <- (Text.append_nil_r (member_text kv)). by rewrite members_step.
    + destruct (Hrest p' t Ht E Hp' n (Dict.set kv.1 kv.2 acc)) as (c & q & -> & -> & Hq).
      destruct n as [|n].
      { cbn [members]. destruct (starts quote _); [|done]. destruct (parse_str _) as [[k0 s0]|]; [|done].
        by destruct (starts ":" _). }
      rewrite members_step by (done || by left). cbn [starts]. by rewrite bool_decide_false, bool_decide_true.
  - clear Hrest Hr Hrne Er r. destruct kv as [k j]. cbn [fst snd] in *. unfold member_text, dumps_str in E. cbn [fst snd] in E.
    destruct p as [|c p]; [done|]. cbn [String.append] in E. injection E as <- E.
    cbn [members starts]. rewrite bool_decide_true by done.
    change (escapes k +:+ String quote "") with (escapes k +:+ String quote "") in E.
    rewrite <- Text.append_assoc in E. cbn [String.append] in E.
    assert ((escapes k +:+ String quote "") +:+ String ":" (String " " (dumps j)) = p +:+ t') as E2
      by (by rewrite <- Text.append_assoc).
    apply Text.app_cut in E2 as [(p2 & -> & E2)|(t2 & Ht2 & E2 & _)]; [|by rewrite (parse_torn_str k p t2)].
    rewrite <- Text.append_assoc. cbn [String.append]. rewrite parse_dumps_str.
    destruct p2 as [|c [|c2 q]]; [done| |].
    + cbn [String.append] in E2. injection E2 as <- _. cbn [skip_ws Text.lstrip]. by destruct n.
    + cbn [String.append] in E2. injection E2 as <- <- E2.
      change (skip_ws (String ":" (String " " q))) with (String ":" (String " " q)).
      cbn [starts]. rewrite bool_decide_true by done. change (skip_ws (String " " q)) with (skip_ws q).
      assert (skip_ws q = q) as ->.
      { destruct q as [|c q]; [done|]. pose proof (skip_ws_value j "" Hj) as Hs.
        rewrite Text.append_nil_r, E2 in Hs. unfold skip_ws in Hs |- *. cbn [String.append Text.lstrip] in Hs |- *.
        destruct (is_ws c) eqn:Hc; [|done]. apply (f_equal String.length) in Hs. exfalso.
        assert (forall x, (String.length (Text.lstrip is_ws x) <= String.length x)%nat) as Hl2 by apply Text.lstrip_length.
        specialize (Hl2 (q +:+ t')). simpl in Hs. lia. }
      pose proof (value_torn n j q t' Hj Ht' E2) as Hv. destruct (value n q) as [[v rest]|]; [|done]. by subst rest.
Qed.

(** *** The fuel of [loads] is enough *)

Lemma parse_str_length s x r : parse_str s = Some (x, r) -> (String.length r < String.length s)%nat.
Proof.
  revert x r. induction s as [s IH] using (well_founded_induction (Wf_nat.well_founded_ltof _ String.length)).
  unfold ltof in IH. intros x r. destruct s as [|c s1]; [done|]. cbn [parse_str].
  assert (forall s' d x r, (String.length s' < String.length (String c s1))%nat ->
    prepend d (parse_str s') = Some (x, r) -> (String.length r < String.length (String c s1))%nat) as Hp.
  { intros s' d x' r' Hl. unfold prepend. destruct (parse_str s') as [[x2 r2]|] eqn:E; [|done].
    intros [= _ <-]. apply IH in E; [lia|done]. }
  destruct (bool_decide (c = quote)); [intros [= _ <-]; simpl; lia|].
  destruct (bool_decide (c = backslash)).
  - destruct s1 as [|e s2]; [done|]. destruct (Text.code e =? 117).
    + destruct s2 as [|a [|b [|c' [|d s3]]]]; try done. destruct (unicode a b c' d) as [u|]; [|done].
      unfold prepend_text. destruct (parse_str s3) as [[x2 r2]|] eqn:E; [|done].
      intros [= _ <-]. apply IH in E; simpl in *; lia.
    + destruct (unescape e); [|done]. apply Hp. simpl. lia.
  - destruct (Text.code c <? 32); [done|]. apply Hp. simpl. lia.
Qed.

Lemma starts_length c s r : starts c s = Some r -> String.length s = S (String.length r).
Proof. destruct s as [|d s]; [done|]. cbn [starts]. case_bool_decide; [by intros [= ->]|done]. Qed.

Lemma skip_ws_length s : (String.length (skip_ws s) <= String.length s)%nat.
Proof. apply Text.lstrip_length. Qed.

Lemma digits_length s d r : digits s = (d, r) -> String.length s = (String.length d + String.length r)%nat.
Proof.
  revert d r. induction s as [|c s IH]; intros d r; cbn [digits]; [by intros [= <- <-]|].
  destruct (Text.is_decimal c); [|by intros [= <- <-]]. destruct (digits s) as [d' r'].
  intros [= <- <-]. simpl. by rewrite (IH d' r' eq_refl).
Qed.

Lemma digit_part_length s c d r :
  match digits s with ("", _) => ("", String c s) | (d, rest) => (String c d, rest) end = (d, r) ->
  (String.length r <= S (String.length s))%nat.
Proof.
  destruct (digits s) as [[|e d'] r'] eqn:E; intros [= _ <-]; [simpl; lia|]. apply digits_length in E. simpl in E. lia.
Qed.

Lemma number_length s d r : number s = Some (d, r) -> (String.length r <= String.length s)%nat.
Proof.
  assert (forall s d r, fraction s = (d, r) -> (String.length r <= String.length s)%nat) as Hf.
  { intros [|c t] d' r'; unfold fraction; [by intros [= <- <-]|]. destruct (bool_decide _); [|by intros [= _ <-]].
    apply digit_part_length. }
  assert (forall s d r, signed_digits s = (d, r) -> (String.length r <= String.length s)%nat) as Hs.
  { intros [|c t] d' r'; unfold signed_digits; [by intros [= _ <-]|]. destruct (is_sign c).
    - apply digit_part_length.
    - intros E%digits_length. lia. }
  assert (forall s d r, exponent s = (d, r) -> (String.length r <= String.length s)%nat) as He.
  { intros [|c t] d' r'; unfold exponent; [by intros [= _ <-]|]. destruct (is_exponent c); [|by intros [= _ <-]].
    destruct (signed_digits t) as [[|e d2] r2] eqn:E; intros [= _ <-]; [done|]. apply Hs in E. simpl. lia. }
  assert (forall s d r, unsigned s = Some (d, r) -> (String.length r <= String.length s)%nat) as Hu.
  { intros t d' r'. unfold unsigned. destruct (int_part t) as [[i s1]|] eqn:Ei; [|done].
    destruct (fraction s1) as [f s2] eqn:E1. destruct (exponent s2) as [e s3] eqn:E2. intros [= _ <-].
    apply Hf in E1. apply He in E2. assert (String.length s1 <= String.length t)%nat; [|lia].
    destruct t as [|c t]; [done|]. cbn [int_part] in Ei. destruct (bool_decide _); [injection Ei as _ <-; simpl; lia|].
    destruct (digits (String c t)) as [[|e' d2] r2] eqn:Ed; [done|]. injection Ei as _ <-. apply digits_length in Ed. simpl in *. lia. }
  destruct s as [|c t]; [done|]. cbn [number]. destruct (bool_decide _); [|apply Hu].
  destruct (unsigned t) as [[n rest]|] eqn:E; [|done]. intros [= _ <-]. apply Hu in E. simpl. lia.
Qed.

Lemma after_length p s r : after p s = Some r -> (String.length r <= String.length s)%nat.
Proof. unfold after. destruct (String.prefix p s); [|done]. intros [= <-]. rewrite Text.drop_length. lia. Qed.

Lemma scalar_length s j r : scalar s = Some (j, r) -> (String.length r <= String.length s)%nat.
Proof.
  assert (forall w (k : json) (rest : option (json * string)),
    (rest = Some (j, r) -> (String.length r <= String.length s)%nat) ->
    match after w s with Some r => Some (k, r) | None => rest end = Some (j, r) ->
    (String.length r <= String.length s)%nat) as Hw.
  { intros w k rest Hrest. destruct (after w s) as [r'|] eqn:E; [|exact Hrest].
    intros H. injection H as _ <-. by apply (after_length w). }
  unfold scalar. do 3 (apply Hw). destruct (number s) as [[n r']|] eqn:E.
  - intros H. injection H as _ <-. by apply (number_length s n).
  - do 3 (apply Hw). done.
Qed.

Ltac lengths :=
  repeat match goal with
  | H : starts _ _ = Some _ |- _ => apply starts_length in H
  | H : parse_str _ = Some (_, _) |- _ => apply parse_str_length in H
  | _ : context [String.length (skip_ws ?s)] |- _ =>
      lazymatch goal with
      | _ : (String.length (skip_ws s) <= String.length s)%nat |- _ => fail
      | _ => pose proof (skip_ws_length s)
      end
  | |- context [String.length (skip_ws ?s)] =>
      lazymatch goal with
      | _ : (String.length (skip_ws s) <= String.length s)%nat |- _ => fail
      | _ => pose proof (skip_ws_length s)
      end
  end; lia.

Lemma rest_length n :
  (forall s j r, value n s = Some (j, r) -> (String.length r <= String.length s)%nat)
  /\ (forall s l r, elements n s = Some (l, r) -> (String.length r <= String.length s)%nat)
  /\ (forall acc s kvs r, members n acc s = Some (kvs, r) -> (String.length r <= String.length s)%nat).
Proof.
  induction n as [|n (IHv & IHe & IHm)]; [by split_and!|]. split_and!.
  - intros s j r. cbn [value]. destruct (starts quote s) as [r1|] eqn:E1.
    { destruct (parse_str r1) as [[x r2]|] eqn:E2; [|done]. intros [= _ <-]. lengths. }
    destruct (starts "{" s) as [r1|] eqn:E2.
    { destruct (starts "}" (skip_ws r1)) as [r2|] eqn:E3; [intros [= _ <-]; lengths|].
      destruct (members n [] (skip_ws r1)) as [[kvs r2]|] eqn:E4; [|done]. intros [= _ <-]. apply IHm in E4. lengths. }
    destruct (starts "[" s) as [r1|] eqn:E3; [|apply scalar_length].
    destruct (starts "]" (skip_ws r1)) as [r2|] eqn:E4; [intros [= _ <-]; lengths|].
    destruct (elements n (skip_ws r1)) as [[l r2]|] eqn:E5; [|done]. intros [= _ <-]. apply IHe in E5. lengths.
  - intros s l r. cbn [elements]. destruct (value n s) as [[x r1]|] eqn:E1; [|done]. apply IHv in E1.
    destruct (starts "]" (skip_ws r1)) as [r2|] eqn:E2; [intros [= _ <-]; lengths|].
    destruct (starts "," (skip_ws r1)) as [r2|] eqn:E3; [|done].
    destruct (elements n (skip_ws r2)) as [[l' r3]|] eqn:E4; [|done]. intros [= _ <-]. apply IHe in E4. lengths.
  - intros acc s kvs r. cbn [members]. destruct (starts quote s) as [r1|] eqn:E1; [|done].
    destruct (parse_str r1) as [[k r2]|] eqn:E2; [|done].
    destruct (starts ":" (skip_ws r2)) as [r3|] eqn:E3; [|done].
    destruct (value n (skip_ws r3)) as [[v r4]|] eqn:E4; [|done]. apply IHv in E4.
    destruct (starts "}" (skip_ws r4)) as [r5|] eqn:E5; [intros [= _ <-]; lengths|].
    destruct (starts "," (skip_ws r4)) as [r5|] eqn:E6; [|done]. intros E7%IHm. lengths.
Qed.

Lemma fuel_enough n :
  (forall m s, (2 * String.length s < n)%nat -> (2 * String.length s < m)%nat -> value n s = value m s)
  /\ (forall m s, (2 * String.length s + 1 < n)%nat -> (2 * String.length s + 1 < m)%nat -> elements n s = elements m s)
  /\ (forall m acc s, (2 * String.length s < n)%nat -> (2 * String.length s < m)%nat -> members n acc s = members m acc s).
Proof.
  induction n as [|n (IHv & IHe & IHm)]; [split_and!; intros; lia|]. split_and!.
  - intros [|m] s Hn Hm; [lia|]. cbn [value]. destruct (starts quote s); [done|].
    destruct (starts "{" s) as [r1|] eqn:E2.
    { rewrite (IHm m) by lengths. done. }
    destruct (starts "[" s) as [r1|] eqn:E3; [|done]. rewrite (IHe m) by lengths. done.
  - intros [|m] s Hn Hm; [lia|]. cbn [elements]. rewrite (IHv m) by lia.
    destruct (value m s) as [[x r1]|] eqn:E1; [|done]. apply rest_length in E1.
    destruct (starts "]" (skip_ws r1)); [done|]. destruct (starts "," (skip_ws r1)) as [r2|] eqn:E3; [|done].
    rewrite (IHe m) by lengths. done.
  - intros [|m] acc s Hn Hm; [lia|]. cbn [members]. destruct (starts quote s) as [r1|] eqn:E1; [|done].
    destruct (parse_str r1) as [[k r2]|] eqn:E2; [|done].
    destruct (starts ":" (skip_ws r2)) as [r3|] eqn:E3; [|done]. rewrite (IHv m) by lengths.
    destruct (value m (skip_ws r3)) as [[v r4]|] eqn:E4; [|done]. apply rest_length in E4.
    destruct (starts "}" (skip_ws r4)); [done|]. destruct (starts "," (skip_ws r4)) as [r5|] eqn:E6; [|done].
    apply IHm; lengths.
Qed.

(** More fuel changes nothing: what [loads] refuses is not JSON. *)
Lemma loads_fuel s n : (2 * String.length s < n)%nat ->
  loads s = match value n (skip_ws s) with
            | Some (j, rest) => if bool_decide (skip_ws rest = "") then Some j else None
            | None => None
            end.
Proof.
  intros Hn. unfold loads. pose proof (skip_ws_length s).
  by rewrite (proj1 (fuel_enough (S (2 * String.length s))) n (skip_ws s)) by lia.
Qed.

(** *** The object of a journal line *)

Lemma object_text kvs : dumps (JObj kvs) = String "{" (members_text kvs).
Proof. unfold members_text. cbn [dumps]. done. Qed.

Lemma members_text_length kvs : (length kvs <= String.length (members_text kvs))%nat.
Proof.
  induction kvs as [|kv [|kv' kvs] IH]; [simpl; lia| |].
  - rewrite members_text_one, Text.append_length. simpl. lia.
  - rewrite members_text_cons, !Text.append_length. simpl in *. lia.
Qed.

Lemma members_text_quote kv kvs : exists w, members_text (kv :: kvs) = String quote w.
Proof. destruct kvs as [|kv' kvs]; [rewrite members_text_one|rewrite members_text_cons]; by eexists. Qed.

Lemma loads_object kvs : kvs <> [] -> Forall (fun kv => flat kv.2) kvs ->
  loads (dumps (JObj kvs)) = Some (JObj (sets [] kvs)).
Proof.
  intros Hne Hf. rewrite object_text. unfold loads.
  change (skip_ws (String "{" (members_text kvs))) with (String "{" (members_text kvs)).
  set (n := (2 * String.length (String "{" (members_text kvs)))%nat).
  assert (length kvs < n)%nat as Hn by (subst n; pose proof (members_text_length kvs); simpl; lia).
  clearbody n. cbn [value starts]. rewrite bool_decide_false, bool_decide_true by done.
  destruct kvs as [|kv kvs]; [done|]. destruct (members_text_quote kv kvs) as (w & Ew).
  rewrite Ew, skip_ws_quote. cbn [starts]. rewrite bool_decide_false by done. rewrite <- Ew.
  rewrite <- (Text.append_nil_r (members_text (kv :: kvs))). by rewrite members_flat.
Qed.

Lemma loads_torn kvs p t : kvs <> [] -> Forall (fun kv => flat kv.2) kvs -> t <> "" ->
  dumps (JObj kvs) = p +:+ t -> loads p = None.
Proof.
  intros Hne Hf Ht. rewrite object_text. destruct p as [|c p]; [done|]. cbn [String.append]. intros [= <- E].
  unfold loads. change (skip_ws (String "{" p)) with (String "{" p).
  set (n := (2 * String.length (String "{" p))%nat). cbn [value starts].
  rewrite bool_decide_false, bool_decide_true by done.
  assert (skip_ws p = p /\ starts "}" p = None) as [-> ->].
  { destruct kvs as [|kv kvs]; [done|]. destruct (members_text_quote kv kvs) as (w & Ew).
    destruct p as [|c p]; [done|]. rewrite Ew in E. cbn [String.append] in E. by injection E as <- _. }
  by rewrite (members_torn n [] kvs p t).
Qed.

End Json.
