(* ===== verification/Ledger.v ===== *)
(** * The append-only ledger

    [runtime/ledger/append_ledger.py], the crash-durable log folded by key, for any type of
    records that meets the interface [LedgerRecord] with [LedgerLaws]. A text is kept as its
    UTF-8 bytes ([Utf8.v]), so the file is the texts written to it; a write may fail after
    any number of bytes, in the middle of a character too, and a file that is not UTF-8
    keeps the ledger from being opened. *)

From S2P Require Import Prelude Text Utf8 Json.
From Stdlib Require Import Ascii String.
From stdpp Require Import base list strings.

Open Scope string_scope.
Open Scope list_scope.
Open Scope mote_scope.
Open Scope Z_scope.

Module AppendOnlyLedger.

(** What a subclass makes of a decoded line: a record, one of the exceptions [_load] skips, or
    another exception. *)
Inductive parsed (R : Type) := Parsed (r : R) | Skipped | Unsupported.
Arguments Parsed {R} _.
Arguments Skipped {R}.
Arguments Unsupported {R}.

Class LedgerRecord (R : Type) := {
  to_json : R -> string;
  _parse_record : Json.json -> parsed R;
  _record_key : R -> string
}.

(** What escapes from [_load]: the error of a record of another schema, and the error of
    [read_text], which is no [OSError]. *)
Inductive failure := UnsupportedRecord | UnicodeDecodeError.

(** How a write to the file ends: in full, or with an [OSError] after [n] bytes. *)
Inductive write := Done | Fails (n : nat).

Section Ledger.
Context {R : Type} `{LedgerRecord R}.

Definition parse_line (raw : string) : parsed R :=
  match Json.loads raw with Some j => _parse_record j | None => Skipped end.

Record t := mk { _latest : list (string * R); file : option string }.

Definition text (f : option string) : string := match f with Some s => s | None => "" end.

(** What of [s] reaches the file. *)
Definition written (f : option string) (s : string) (w : write) : option string :=
  let s := match w with Done => s | Fails n => Text.take_chars n s end in
  if bool_decide (s = "") then f else Some (text f +:+ s).

Definition line (r : R) : string := to_json r +:+ String "010" "".

(** ** Reads *)

Definition get (s : t) (key : string) : option R := Dict.get key (_latest s).

Definition records (s : t) : list R := Dict.values (_latest s).

(** The loop of [_load] over the lines. *)
Fixpoint fold_lines (d : list (string * R)) (lines : list (list string)) : outcome failure (list (string * R)) :=
  match lines with
  | [] => Ok d
  | raw :: lines =>
      match Utf8.strip raw with
      | [] => fold_lines d lines
      | raw => match parse_line (Text.concat raw) with
               | Parsed r => fold_lines (Dict.set (_record_key r) r d) lines
               | Skipped => fold_lines d lines
               | Unsupported => Raise UnsupportedRecord
               end
      end
  end.

(** A file that cannot be read is taken for an empty one; one that cannot be decoded is not. *)
Definition _load (f : option string) (readable : bool) : outcome failure (list (string * R)) :=
  match f with
  | None => Ok []
  | Some s =>
      if readable then
        match Utf8.chars s with
        | Some text => fold_lines [] (Utf8.splitlines text)
        | None => Raise UnicodeDecodeError
        end
      else Ok []
  end.

Definition init (f : option string) (readable : bool) : outcome failure t :=
  match _load f readable with Ok d => Ok (mk d f) | Raise e => Raise e end.

(** ** Writes *)

Definition append (s : t) (r : R) (w : write) : t :=
  mk (Dict.set (_record_key r) r (_latest s)) (written (file s) (line r) w).

Definition _rewrite (s : t) (w : write) : t :=
  match w with
  | Done => mk (_latest s) (Some (Text.concat (line <$> Dict.values (_latest s))))
  | Fails _ => s
  end.

Definition reap (s : t) (keys : list string) (w : write) : t :=
  let d := foldl (fun d k => Dict.pop k d) (_latest s) keys in
  let removed := existsb (fun k => Dict.mem k (_latest s)) keys in
  if removed then _rewrite (mk d (file s)) w else s.

End Ledger.

Arguments t R : clear implicits.

(** ** What a record type promises *)
Class LedgerLaws (R : Type) `{LedgerRecord R} (valid : R -> Prop) := {
  line_chars r : valid r ->
    exists cs, Utf8.chars (to_json r) = Some cs /\ Utf8.plain cs = true /\ Utf8.strip cs = cs /\ cs <> [];
  line_parses r : valid r -> parse_line (to_json r) = Parsed r;
  line_torn r p rest cs : valid r -> rest <> "" -> to_json r = p +:+ rest -> Utf8.chars p = Some cs ->
    Utf8.strip cs = [] \/ parse_line (Text.concat (Utf8.strip cs)) = Skipped (R := R)
}.

Section Laws.
#[local] Set Default Proof Using "Type*".
Context {R : Type} `{LedgerRecord R} {valid : R -> Prop} `{!LedgerLaws R valid}.

(** The index holds valid records under their keys. *)
Definition indexed (d : list (string * R)) : Prop :=
  NoDup (Dict.keys d) /\ Forall (fun kv => valid kv.2 /\ kv.1 = _record_key kv.2) d.

(** The file decodes to whole lines that fold to the index. *)
Definition durable (s : t R) : Prop :=
  (exists cs, Utf8.chars (text (file s)) = Some cs /\ Utf8.ends_line cs
     /\ fold_lines [] (Utf8.splitlines cs) = Ok (_latest s)) /\ indexed (_latest s).

Lemma durable_load s : durable s -> _load (file s) true = Ok (_latest s).
Proof.
  intros [(cs & Hc & _ & Hl) _]. unfold _load. destruct (file s) as [f|]; cbn [text] in Hc; [by rewrite Hc|].
  injection Hc as <-. exact Hl.
Qed.

Lemma fold_lines_app d l1 l2 :
  fold_lines d (l1 ++ l2) = match fold_lines d l1 with Ok d' => fold_lines d' l2 | Raise e => Raise e end.
Proof.
  revert d. induction l1 as [|raw l1 IH]; intros d; cbn [app fold_lines]; [done|].
  destruct (Utf8.strip raw) as [|c l]; [apply IH|]. destruct (parse_line _); [apply IH|apply IH|done].
Qed.

Lemma fold_record d r cs : valid r -> Utf8.chars (to_json r) = Some cs ->
  fold_lines d [cs] = Ok (Dict.set (_record_key r) r d).
Proof.
  intros Hr Hc. destruct (line_chars r Hr) as (cs' & Hc' & _ & Hs & Hne). simplify_eq.
  cbn [fold_lines]. rewrite Hs. destruct cs as [|c cs]; [done|].
  by rewrite (Utf8.chars_concat _ _ Hc), line_parses.
Qed.

(** What one more line comes to. *)
Lemma line_text r : valid r ->
  exists cs, Utf8.chars (line r) = Some (cs ++ [Utf8.LF]) /\ Utf8.splitlines (cs ++ [Utf8.LF]) = [cs]
    /\ forall d, fold_lines d [cs] = Ok (Dict.set (_record_key r) r d).
Proof.
  intros Hr. destruct (line_chars r Hr) as (cs & Hc & Hp & _ & _). exists cs. unfold line.
  rewrite (Utf8.chars_app _ _ _ Hc). split_and!; [done|by apply Utf8.splitlines_line|].
  intros d. by apply fold_record.
Qed.

Lemma indexed_set d r : valid r -> indexed d -> indexed (Dict.set (_record_key r) r d).
Proof.
  intros Hr [Hn Hf]. split; [by apply Dict.NoDup_keys_set|]. clear Hn. induction Hf as [|[k v] d Hkv Hd IH]; simpl.
  - by constructor.
  - case_decide; constructor; [by subst k|done|done|done].
Qed.

(** Folding the lines of an index gives the index. *)
Lemma fold_rewritten d : indexed d ->
  exists cs, Utf8.chars (Text.concat (line <$> Dict.values d)) = Some cs /\ Utf8.ends_line cs
    /\ fold_lines [] (Utf8.splitlines cs) = Ok d.
Proof.
  intros [Hn Hf]. assert (exists cs, Utf8.chars (Text.concat (line <$> Dict.values d)) = Some cs /\ Utf8.ends_line cs
    /\ forall d0, NoDup (Dict.keys (d0 ++ d)) -> fold_lines d0 (Utf8.splitlines cs) = Ok (d0 ++ d)) as (cs & ? & ? & Hg).
  2:{ exists cs. split_and!; [done|done|by apply (Hg [])]. }
  clear Hn. induction Hf as [|[k r] d [Hr Hk] Hd (cs & Hc & He & IH)]; cbn [fst snd] in *.
  - exists []. split_and!; [done|by left|]. intros d0 _. by rewrite app_nil_r.
  - change (Text.concat (line <$> Dict.values ((k, r) :: d)))
      with (line r +:+ Text.concat (line <$> Dict.values d)).
    destruct (line_text r Hr) as (l & Hl & Hsl & Hfl). exists ((l ++ [Utf8.LF]) ++ cs).
    rewrite (Utf8.chars_app _ _ _ Hl), Hc. split_and!; [done| |].
    + destruct He as [->|(g & ->)]; right; [exists l; by rewrite app_nil_r|].
      exists ((l ++ [Utf8.LF]) ++ g). by rewrite app_assoc.
    + intros d0 Hn. rewrite Utf8.splitlines_app, Hsl, fold_lines_app, Hfl by (right; by exists l).
      subst k. rewrite Dict.keys_set_new; [rewrite IH; by rewrite <- app_assoc|].
      unfold Dict.keys in *. rewrite fmap_app in Hn. apply NoDup_app in Hn as (_ & Hn & _).
      intros Hin. apply (Hn _ Hin). left.
Qed.

Lemma written_done f r : written f (line r) Done = Some (text f +:+ line r).
Proof. unfold written. rewrite bool_decide_false; [done|]. unfold line. by destruct (to_json r). Qed.

Lemma append_durable s r : valid r -> durable s -> durable (append s r Done).
Proof.
  intros Hr [(cs & Hc & He & Hl) Hi]. split; [|by apply indexed_set]. unfold append. cbn [file _latest].
  rewrite written_done. cbn [text]. destruct (line_text r Hr) as (l & Hlc & Hsl & Hfl).
  exists (cs ++ l ++ [Utf8.LF]). rewrite (Utf8.chars_app _ _ _ Hc), Hlc.
  split_and!; [done|by apply Utf8.ends_line_app|].
  by rewrite Utf8.splitlines_app, Hsl, fold_lines_app, Hl, Hfl.
Qed.

Lemma foldl_pop_indexed keys d : indexed d -> indexed (foldl (fun d k => Dict.pop k d) d keys).
Proof.
  revert d. induction keys as [|k keys IH]; intros d Hd; [done|]. simpl. apply IH. destruct Hd as [Hn Hf]. clear IH. split.
  - induction d as [|[k' v] d IHd]; [done|]. simpl. unfold Dict.keys in Hn. rewrite fmap_cons in Hn.
    apply NoDup_cons in Hn as [Hk Hn]. apply Forall_cons in Hf as [_ Hf]. case_decide; [by apply IHd|].
    unfold Dict.keys. rewrite fmap_cons. apply NoDup_cons. split; [|by apply IHd].
    intros Hin. apply Hk. clear -Hin. induction d as [|[k2 v2] d IHd]; [done|]. simpl in *. case_decide.
    + right. by apply IHd.
    + rewrite fmap_cons in Hin. apply elem_of_cons in Hin as [->|Hin]; [left|right; by apply IHd].
  - induction Hf as [|[k' v] d Hkv Hd IHd]; [constructor|]. simpl. unfold Dict.keys in Hn. rewrite fmap_cons in Hn.
    apply NoDup_cons in Hn as [_ Hn]. case_decide; [by apply IHd|]. constructor; [done|by apply IHd].
Qed.

Lemma reap_durable s keys : durable s -> durable (reap s keys Done).
Proof.
  intros [Hf Hi]. unfold reap. destruct (existsb _ _); [|done].
  pose proof (foldl_pop_indexed keys _ Hi) as Hd. split; [|done]. unfold _rewrite. cbn [file _latest text].
  by apply fold_rewritten.
Qed.

Lemma restart_durable s s' : durable s -> init (file s) true = Ok s' -> s' = s.
Proof. intros Hd. unfold init. rewrite (durable_load s Hd). intros [= <-]. by destruct s. Qed.

(** A history in which every write succeeds. *)
Inductive op := Append (r : R) | Reap (keys : list string) | Restart.

Definition step (s : t R) (o : op) : outcome failure (t R) :=
  match o with
  | Append r => Ok (append s r Done)
  | Reap keys => Ok (reap s keys Done)
  | Restart => init (file s) true
  end.

Fixpoint run (s : t R) (ops : list op) : outcome failure (t R) :=
  match ops with
  | [] => Ok s
  | o :: ops => match step s o with Ok s => run s ops | Raise e => Raise e end
  end.

Definition empty : t R := mk [] None.

Lemma durable_empty : durable empty.
Proof. split; [by exists []; split_and!; [|left|]|]. split; constructor. Qed.

Lemma run_durable s ops :
  durable s -> Forall (fun o => match o with Append r => valid r | _ => True end) ops ->
  exists s', run s ops = Ok s' /\ durable s'.
Proof.
  intros Hs Hv. revert s Hs. induction Hv as [|o ops Ho _ IH]; intros s Hs; [by exists s|]. cbn [run].
  destruct o as [r|keys|]; cbn [step].
  - by apply IH, append_durable.
  - by apply IH, reap_durable.
  - unfold init. rewrite (durable_load s Hs). apply IH. by destruct s.
Qed.

(** A cut of the text of a record, between two of its characters. *)
Lemma cut_chars r p rest cs :
  valid r -> to_json r = p +:+ rest -> Utf8.chars p = Some cs -> Utf8.plain cs = true.
Proof.
  intros Hr E Hp. destruct (line_chars r Hr) as (l & Hl & Hpl & _). rewrite E, (Utf8.chars_app _ _ _ Hp) in Hl.
  apply fmap_Some in Hl as (l' & _ & ->). rewrite Utf8.plain_app in Hpl. by apply andb_prop in Hpl as [? _].
Qed.

Lemma take_line n r :
  (n < String.length (to_json r))%nat /\ (exists rest, rest <> "" /\ to_json r = Text.take_chars n (line r) +:+ rest)
  \/ n = String.length (to_json r) /\ Text.take_chars n (line r) = to_json r
  \/ (String.length (to_json r) < n)%nat /\ Text.take_chars n (line r) = line r.
Proof.
  destruct (lt_eq_lt_dec n (String.length (to_json r))) as [[Hn| ->]|Hn].
  - left. split; [done|]. exists (Text.drop_chars n (to_json r)). split.
    + intros E. apply (f_equal String.length) in E. rewrite Text.drop_length in E. simpl in E. lia.
    + assert (Text.take_chars n (line r) = Text.take_chars n (to_json r)) as ->; [|by rewrite Text.take_drop].
      unfold line. revert n Hn. unfold Text.take_chars.
      induction (to_json r) as [|c x IH]; intros [|n] Hn; simpl in *; try lia; [done|]. rewrite IH by lia. done.
  - right; left. split; [done|]. apply Text.take_app.
  - right; right. split; [done|].
    assert (String.length (line r) <= n)%nat as Hlen by (unfold line; rewrite Text.append_length; simpl; lia).
    clear Hn. revert n Hlen. unfold Text.take_chars.
    induction (line r) as [|c x IH]; intros [|n] Hn; simpl in *; try lia; [done..|]. rewrite IH by lia. done.
Qed.

(** A crash while a line is written: the line counts when it is complete, and not before; but
    a file that ends inside a character cannot be loaded at all. *)
Lemma torn_append s r n :
  durable s -> valid r ->
  _load (written (file s) (line r) (Fails n)) true
  = match Utf8.chars (Text.take_chars n (line r)) with
    | None => Raise UnicodeDecodeError
    | Some _ => Ok (if (n <? String.length (to_json r))%nat then _latest s
                    else Dict.set (_record_key r) r (_latest s))
    end.
Proof.
  intros Hd Hr. pose proof (durable_load s Hd) as Hload. destruct Hd as [(cs & Hc & He & Hl) Hi].
  unfold written. set (p := Text.take_chars n (line r)).
  assert (forall l, Utf8.chars p = Some l -> fold_lines (_latest s) (Utf8.splitlines l)
    = Ok (if (n <? String.length (to_json r))%nat then _latest s else Dict.set (_record_key r) r (_latest s))) as Hp.
  { intros l Hpl. destruct (take_line n r) as [[Hn (rest & Hne & E)]|[[-> E]|[Hn E]]]; fold p in E.
    - rewrite (proj2 (Nat.ltb_lt _ _)) by done. pose proof (cut_chars r p rest l Hr E Hpl) as Hplain.
      destruct l as [|c l]; [done|]. rewrite Utf8.splitlines_one by done. cbn [fold_lines].
      destruct (line_torn r p rest _ Hr Hne E Hpl) as [Hb|Hb]; [by rewrite Hb|].
      destruct (Utf8.strip (c :: l)); [done|]. by rewrite Hb.
    - rewrite Nat.ltb_irrefl. rewrite E in Hpl. destruct (line_chars r Hr) as (l' & Hl' & Hpl' & _ & Hne).
      simplify_eq. rewrite Utf8.splitlines_one by done. by apply fold_record.
    - rewrite (proj2 (Nat.ltb_ge _ _)) by lia. rewrite E in Hpl.
      destruct (line_text r Hr) as (l' & Hl' & Hsl & Hfl). simplify_eq. by rewrite Hsl, Hfl. }
  destruct (bool_decide_reflect (p = "")) as [E|E].
  - rewrite E in Hp |- *. cbn [Utf8.chars Utf8.chars_fuel String.length]. rewrite Hload. by apply (Hp []).
  - cbn [_load]. rewrite (Utf8.chars_app _ _ _ Hc). destruct (Utf8.chars p) as [l|]; [|done].
    cbn [fmap option_fmap option_map]. rewrite Utf8.splitlines_app, fold_lines_app, Hl by done. by apply Hp.
Qed.

(** C29: The ledger survives crashes between two characters. After any history of appends of
    valid records (their texts take one line: see [LedgerLaws]), reaps and restarts whose
    writes succeed, the file folds back to exactly the records in memory, in their order. If
    the process dies while it appends one more record, and what it wrote of the line ends
    with a whole character, a fresh instance sees the old records and, exactly when its line
    is complete, the new one: never a part of it, and never less than before. If the file
    ends inside a character, opening the ledger raises, and does not lose a record. *)
Theorem ledger_durable ops :
  Forall (fun o => match o with Append r => valid r | _ => True end) ops ->
  exists s, run empty ops = Ok s
    /\ init (file s) true = Ok s
    /\ forall r n, valid r ->
         let f := written (file s) (line r) (Fails n) in
         init f true
         = match Utf8.chars (Text.take_chars n (line r)) with
           | None => Raise UnicodeDecodeError
           | Some _ => Ok (mk (if (n <? String.length (to_json r))%nat then _latest s
                               else Dict.set (_record_key r) r (_latest s)) f)
           end.
Proof.
  intros Hv. destruct (run_durable empty ops durable_empty Hv) as (s & Hs & Hd). exists s. split; [done|]. split.
  - unfold init. rewrite (durable_load s Hd). by destruct s.
  - intros r n Hr f. unfold init, f. rewrite torn_append by done. by destruct (Utf8.chars _).
Qed.

End Laws.
End AppendOnlyLedger.
