(* ===== verification/RunJournal.v ===== *)
(** * The journal of run steps

    [runtime/ledger/run_journal.py] on the ledger of [Ledger.v], the backend that memoizes
    steps in it ([runtime/durable/backend.py]). Clock readings are arguments, in one integer
    unit. How a checkpoint and an inference result become a payload is third-party code
    (Pydantic): a codec with the law that decoding inverts encoding. *)

From S2P Require Import Prelude Text Utf8 Json Ledger.
From Stdlib Require Import Ascii String.
From stdpp Require Import base list strings.

Open Scope string_scope.
Open Scope list_scope.
Open Scope mote_scope.
Open Scope Z_scope.

Module RunJournal.
Import AppendOnlyLedger.

Definition KIND_THINK : string := "think".
Definition KIND_TOOL : string := "tool".
Definition KIND_TIMER : string := "timer".
Definition STARTED : string := "started".
Definition COMPLETED : string := "completed".
Definition FAILED : string := "failed".

Record StepRecord := mkStep {
  step_id : string;
  kind : string;
  effect : string;
  status : string;
  seq : Z;
  name : string;
  tool_call_id : option string;
  started_at : Z;
  ended_at : option Z;
  payload : option string;
  success : bool
}.

(** ** Lines *)
Definition opt_str (o : option string) : Json.json :=
  match o with Some s => Json.JStr s | None => Json.JNull end.
Definition num (n : Z) : Json.json := Json.JNum (Text.fmt n).
Definition opt_num (o : option Z) : Json.json :=
  match o with Some n => num n | None => Json.JNull end.

Definition fields (r : StepRecord) : list (string * Json.json) :=
  [("step_id", Json.JStr (step_id r)); ("kind", Json.JStr (kind r)); ("effect", Json.JStr (effect r));
   ("status", Json.JStr (status r)); ("seq", num (seq r)); ("name", Json.JStr (name r));
   ("tool_call_id", opt_str (tool_call_id r)); ("started_at", num (started_at r));
   ("ended_at", opt_num (ended_at r)); ("payload", opt_str (payload r));
   ("success", Json.JBool (success r))].

Definition to_json (r : StepRecord) : string := Json.dumps (Json.JObj (fields r)).

Definition names : list string :=
  ["step_id"; "kind"; "effect"; "status"; "seq"; "name"; "tool_call_id"; "started_at"; "ended_at";
   "payload"; "success"].

Definition get_str (k : string) (d : list (string * Json.json)) : option string :=
  match Dict.get k d with Some (Json.JStr s) => Some s | _ => None end.

Definition get_opt_str (k : string) (d : list (string * Json.json)) : option (option string) :=
  match Dict.get k d with
  | Some (Json.JStr s) => Some (Some s)
  | Some Json.JNull => Some None
  | _ => None
  end.

Definition number_of (lit : string) : option Z :=
  if Text.forall_chars Text.is_decimal lit then Some (Text.value_from 0 lit) else None.

Definition get_num (k : string) (d : list (string * Json.json)) : option Z :=
  match Dict.get k d with Some (Json.JNum lit) => number_of lit | _ => None end.

Definition get_opt_num (k : string) (d : list (string * Json.json)) : option (option Z) :=
  match Dict.get k d with
  | Some (Json.JNum lit) => Some <$> number_of lit
  | Some Json.JNull => Some None
  | _ => None
  end.

Definition get_bool (k : string) (d : list (string * Json.json)) : option bool :=
  match Dict.get k d with Some (Json.JBool b) => Some b | _ => None end.

Definition same_names (l : list string) : bool :=
  bool_decide (Forall (fun k => k ∈ names) l) && bool_decide (Forall (fun k => k ∈ l) names).

(** [cls( **d)]. The code takes fields of any type; a line whose fields have others than the
    declared ones is not considered, and stands with the unsupported ones. *)
Definition of_fields (d : list (string * Json.json)) : option StepRecord :=
  match get_str "step_id" d, get_str "kind" d, get_str "effect" d, get_str "status" d, get_num "seq" d,
        get_str "name" d, get_opt_str "tool_call_id" d, get_num "started_at" d, get_opt_num "ended_at" d,
        get_opt_str "payload" d, get_bool "success" d with
  | Some i, Some k, Some e, Some st, Some sq, Some n, Some tc, Some sa, Some ea, Some p, Some su =>
      Some (mkStep i k e st sq n tc sa ea p su)
  | _, _, _, _, _, _, _, _, _, _, _ => None
  end.

(** The members of a list that a set can hold as texts; [None] for an unhashable one. *)
Fixpoint set_members (l : list Json.json) : option (list (option string)) :=
  match l with
  | [] => Some []
  | Json.JArr _ :: _ | Json.JObj _ :: _ => None
  | Json.JStr s :: l => match set_members l with Some r => Some (Some s :: r) | None => None end
  | _ :: l => match set_members l with Some r => Some (None :: r) | None => None end
  end.

Definition all_texts (l : list (option string)) : option (list string) := mapM id l.

(** [from_dict] on whatever a line decodes to. *)
Definition from_dict (j : Json.json) : parsed StepRecord :=
  match j with
  | Json.JObj d =>
      if same_names (Dict.keys d)
      then match of_fields d with Some r => Parsed r | None => Unsupported end
      else Unsupported
  | Json.JStr _ => Unsupported
  | Json.JArr l =>
      match set_members l with
      | None => Skipped
      | Some m => match all_texts m with
                  | Some l => if same_names l then Skipped else Unsupported
                  | None => Unsupported
                  end
      end
  | _ => Skipped
  end.

#[export] Instance step_record : LedgerRecord StepRecord := {
  AppendOnlyLedger.to_json := to_json;
  _parse_record := from_dict;
  _record_key := step_id
}.

(** *** The instance meets the laws *)

(** A text that a file can hold and that takes one line in it: of the line ends, JSON leaves
    NEL and the line and paragraph separators of Unicode unescaped. *)
Definition one_line (s : string) : Prop := Utf8.is_one_line s = true.

Definition one_line_opt (o : option string) : Prop := match o with Some s => one_line s | None => True end.

Record valid (r : StepRecord) : Prop := mkValid {
  valid_id : one_line (step_id r);
  valid_kind : one_line (kind r);
  valid_effect : one_line (effect r);
  valid_status : one_line (status r);
  valid_seq : 0 <= seq r;
  valid_name : one_line (name r);
  valid_call : one_line_opt (tool_call_id r);
  valid_start : 0 <= started_at r;
  valid_end : match ended_at r with Some n => 0 <= n | None => True end;
  valid_payload : one_line_opt (payload r)
}.

Definition plain (s : string) : bool := Utf8.is_plain s.

Lemma escapes_app a b : Json.escapes (a +:+ b) = Json.escapes a +:+ Json.escapes b.
Proof.
  induction a as [|c a IH]; [done|]. change (String c a +:+ b) with (String c (a +:+ b)). cbn [Json.escapes].
  by rewrite IH, Text.append_assoc.
Qed.

(** ASCII is escaped to ASCII without line ends, and the other bytes are copied. *)
Lemma escape_ascii c : Text.code c <? 128 = true ->
  Text.forall_chars (fun a => (Text.code a <? 128) && negb (Text.is_line_end a)) (Json.escape c) = true.
Proof.
  intros Hc. assert (forallb (fun n => let c := ascii_of_nat n in
    negb (Text.code c <? 128)
    || Text.forall_chars (fun a => (Text.code a <? 128) && negb (Text.is_line_end a)) (Json.escape c))
    (List.seq 0 256) = true) as Hall by (vm_compute; reflexivity).
  rewrite forallb_forall in Hall. specialize (Hall (nat_of_ascii c)). cbv zeta in Hall.
  rewrite ascii_nat_embedding, Hc in Hall. apply Hall, in_seq. pose proof (nat_ascii_bounded c). lia.
Qed.

Lemma escapes_wide s : Text.forall_chars (fun a => negb (Text.code a <? 128)) s = true -> Json.escapes s = s.
Proof.
  induction s as [|c s IH]; [done|]. cbn [Text.forall_chars Json.escapes]. intros [Hc Hs]%andb_prop.
  rewrite IH by done. assert (forallb (fun n => let c := ascii_of_nat n in
    (Text.code c <? 128) || bool_decide (Json.escape c = String c "")) (List.seq 0 256) = true) as Hall
    by (vm_compute; reflexivity).
  rewrite forallb_forall in Hall. specialize (Hall (nat_of_ascii c)). cbv zeta in Hall.
  apply negb_true_iff in Hc. rewrite ascii_nat_embedding, Hc in Hall. cbn [orb] in Hall.
  rewrite bool_decide_eq_true in Hall. rewrite Hall; [done|]. apply in_seq. pose proof (nat_ascii_bounded c). lia.
Qed.

Lemma escapes_plain s : one_line s -> plain (Json.escapes s) = true.
Proof.
  unfold one_line, Utf8.is_one_line, plain. destruct (Utf8.chars s) as [l|] eqn:El; [|done].
  revert s l El. apply (Utf8.chars_ind (fun s l => Utf8.one_line_chars l = true -> _)); [done|].
  intros c s l Hc _ IH. cbn [Utf8.one_line_chars forallb]. intros [H1 H2]%andb_prop.
  rewrite escapes_app. apply Utf8.is_plain_app; [|by apply IH].
  destruct (Utf8.is_char_cases c Hc) as [(a & -> & Ha)|(Hw & a & b & x & E)].
  - change (Json.escapes (String a "")) with (Json.escape a +:+ ""). rewrite Text.append_nil_r.
    by apply Utf8.is_plain_ascii, escape_ascii.
  - rewrite escapes_wide by done. apply Utf8.is_plain_chars. exists [c].
    rewrite <- (Text.append_nil_r c) at 1. rewrite Utf8.chars_cons by done. split; [done|].
    unfold Utf8.plain. cbn [forallb]. rewrite andb_true_r. subst c. exact H1.
Qed.

Lemma dumps_str_plain s : one_line s -> plain (Json.dumps_str s) = true.
Proof.
  intros Hs. unfold Json.dumps_str.
  change (plain (String Json.quote "" +:+ (Json.escapes s +:+ String Json.quote "")) = true).
  apply Utf8.is_plain_app; [done|]. apply Utf8.is_plain_app; [by apply escapes_plain|done].
Qed.

Lemma fmt_plain n : 0 <= n -> plain (Text.fmt n) = true.
Proof.
  intros Hn. destruct (Text.fmt_nonneg n Hn) as (c & d & -> & Hd & _). apply Utf8.is_plain_ascii.
  generalize dependent (String c d). intros x. induction x as [|e x IH]; [done|]. cbn [Text.forall_chars].
  intros [He Hx]%andb_prop. rewrite IH by done. unfold Text.is_decimal in He. unfold Text.is_line_end. lia.
Qed.

(** Members whose line is one line. *)
Definition plain_member (kv : string * Json.json) : Prop := plain (Json.member_text kv) = true.

Lemma members_plain kvs :
  Forall plain_member kvs -> plain (Text.join ", " (Json.member_text <$> kvs)) = true.
Proof.
  induction 1 as [|kv [|kv' kvs] Hkv Hl IH]; [done|exact Hkv|]. rewrite fmap_cons. cbn [fmap list_fmap Text.join] in *.
  apply Utf8.is_plain_app; [exact Hkv|]. by apply Utf8.is_plain_app.
Qed.

Lemma member_plain k j : one_line k -> plain (Json.dumps j) = true -> plain_member (k, j).
Proof.
  intros Hk Hj. unfold plain_member, Json.member_text. cbn [fst snd].
  apply Utf8.is_plain_app; [by apply dumps_str_plain|]. by apply Utf8.is_plain_app.
Qed.

Lemma str_member k s : one_line k -> one_line s -> plain_member (k, Json.JStr s).
Proof. intros Hk Hs. apply member_plain; [done|]. by apply dumps_str_plain. Qed.

Lemma opt_str_member k o : one_line k -> one_line_opt o -> plain_member (k, opt_str o).
Proof. intros Hk Ho. destruct o as [s|]; [by apply str_member|]. by apply member_plain. Qed.

Lemma num_member k n : one_line k -> 0 <= n -> plain_member (k, num n).
Proof. intros Hk Hn. apply member_plain; [done|]. by apply fmt_plain. Qed.

Lemma fields_plain r : valid r -> Forall plain_member (fields r).
Proof.
  intros []. unfold fields. repeat apply Forall_cons_2; try lazymatch goal with
    | |- plain_member (_, Json.JStr _) => apply str_member; [reflexivity|assumption]
    | |- plain_member (_, num _) => apply num_member; [reflexivity|assumption]
    | |- plain_member (_, opt_str _) => apply opt_str_member; [reflexivity|assumption]
    end.
  - destruct (ended_at r); [by apply num_member|reflexivity].
  - by destruct (success r).
  - constructor.
Qed.

Lemma num_flat n : 0 <= n -> Json.flat (num n).
Proof. intros H. by exists n. Qed.

Lemma fields_flat r : valid r -> Forall (fun kv => Json.flat kv.2) (fields r).
Proof.
  intros []. unfold fields. repeat apply Forall_cons_2; cbn [snd]; try done; try (by apply num_flat).
  - by destruct (tool_call_id r).
  - destruct (ended_at r); [by apply num_flat|done].
  - by destruct (payload r).
Qed.

Lemma number_of_fmt n : 0 <= n -> number_of (Text.fmt n) = Some n.
Proof.
  intros Hn. destruct (Text.fmt_nonneg n Hn) as (c & d & -> & Hd & _ & Hv). unfold number_of. by rewrite Hd, Hv.
Qed.

Lemma of_fields_fields r : valid r -> of_fields (fields r) = Some r.
Proof.
  intros []. destruct r as [i k e st sq n tc sa ea p su]; cbn in *.
  set (r := mkStep i k e st sq n tc sa ea p su).
  assert (get_num "seq" (fields r) = Some sq) as Hsq by exact (number_of_fmt sq valid_seq0).
  assert (get_num "started_at" (fields r) = Some sa) as Hsa by exact (number_of_fmt sa valid_start0).
  assert (get_opt_num "ended_at" (fields r) = Some ea) as Hea.
  { destruct ea as [ea|]; [|done]. change (Some <$> number_of (Text.fmt ea) = Some (Some ea)). by rewrite number_of_fmt. }
  assert (get_opt_str "tool_call_id" (fields r) = Some tc) as Htc by (by destruct tc).
  assert (get_opt_str "payload" (fields r) = Some p) as Hp by (by destruct p).
  unfold of_fields. by rewrite Hsq, Hsa, Hea, Htc, Hp.
Qed.

Lemma to_json_text r : to_json r = String "{" "" +:+ (Text.join ", " (Json.member_text <$> fields r) +:+ "}").
Proof. unfold to_json. rewrite Json.object_text. done. Qed.

#[export] Instance step_laws : LedgerLaws StepRecord valid.
Proof.
  split.
  - intros r Hr. pose proof (members_plain (fields r) (fields_plain r Hr)) as Hp.
    apply Utf8.is_plain_chars in Hp as (cs & Hc & Hp).
    exists ("{" :: cs ++ ["}"]). change (AppendOnlyLedger.to_json r) with (to_json r). rewrite to_json_text.
    rewrite Utf8.chars_cons, (Utf8.chars_app _ _ _ Hc) by done. split_and!; [done| |by apply Utf8.strip_kept|done].
    change ("{" :: cs ++ ["}"]) with (["{"] ++ cs ++ ["}"]). by rewrite !Utf8.plain_app, Hp.
  - intros r Hr.
    change (match Json.loads (to_json r) with Some j => from_dict j | None => Skipped end = Parsed r).
    unfold to_json. rewrite Json.loads_object by (done || by apply fields_flat).
    change (Json.sets [] (fields r)) with (fields r). cbn [from_dict].
    assert (same_names (Dict.keys (fields r)) = true) as -> by reflexivity. by rewrite of_fields_fields.
  - intros r p rest cs Hr Hne E Hcs. change (AppendOnlyLedger.to_json r) with (to_json r) in E.
    destruct p as [|c p]; [injection Hcs as <-; by left|right]. unfold parse_line.
    assert (exists cs', cs = "{" :: cs') as (cs' & ->).
    { rewrite to_json_text in E. cbn [String.append] in E. injection E as <- _.
      change (String "{" p) with (String "{" "" +:+ p) in Hcs. rewrite Utf8.chars_cons in Hcs by done.
      apply fmap_Some in Hcs as (cs' & _ & ->). by exists cs'. }
    destruct (Utf8.strip_prefix "{" cs' eq_refl) as (w & Ew).
    assert (String c p = Text.concat (Utf8.strip ("{" :: cs')) +:+ Text.concat w) as Ep.
    { rewrite <- (Utf8.chars_concat _ _ Hcs), <- Ew at 1. clear.
      induction (Utf8.strip ("{" :: cs')) as [|x l IH]; [done|]. cbn [app Text.concat]. by rewrite IH, Text.append_assoc. }
    rewrite (Json.loads_torn (fields r) _ (Text.concat w +:+ rest)); [done|done|by apply fields_flat| |].
    + by destruct (Text.concat w).
    + rewrite Text.append_assoc, <- Ep. exact E.
Qed.

(** ** The journal *)

Notation journal := (AppendOnlyLedger.t StepRecord).

Definition replay (j : journal) (id : string) : option StepRecord := get j id.

Definition is_status (st : string) (r : StepRecord) : bool := bool_decide (status r = st).
Definition is_kind (k : string) (r : StepRecord) : bool := bool_decide (kind r = k).

Definition unresolved (j : journal) : list StepRecord := List.filter (is_status STARTED) (records j).

(** [1 + max(seqs, default=0)]. *)
Definition next_seq (j : journal) (k : string) : Z :=
  1 + match seq <$> List.filter (is_kind k) (records j) with
      | [] => 0
      | n :: l => foldl Z.max n l
      end.

Definition next_think_seq (j : journal) : Z := next_seq j KIND_THINK.
Definition think_step_id (n : Z) : string := KIND_THINK +:+ ":" +:+ Text.fmt n.
Definition next_timer_seq (j : journal) : Z := next_seq j KIND_TIMER.
Definition timer_step_id (n : Z) : string := KIND_TIMER +:+ ":" +:+ Text.fmt n.

Definition record_started (j : journal) (id kind_ effect_ : string) (name_ : string) (seq_ : Z)
    (call : option string) (payload_ : option string) (now : Z) (w : write) : journal :=
  append j (mkStep id kind_ effect_ STARTED seq_ name_ call now None payload_ true) w.

Definition _terminal (j : journal) (id st : string) (payload_ : option string) (success_ : bool)
    (now : Z) (w : write) : journal :=
  match get j id with
  | Some prior =>
      append j (mkStep id (kind prior) (effect prior) st (seq prior) (name prior) (tool_call_id prior)
                  (started_at prior) (Some now) payload_ success_) w
  | None => append j (mkStep id KIND_TOOL "external" st 0 "" None now (Some now) payload_ success_) w
  end.

Definition record_completed (j : journal) (id : string) (payload_ : option string) (success_ : bool)
    (now : Z) (w : write) : journal := _terminal j id COMPLETED payload_ success_ now w.

Definition record_failed (j : journal) (id : string) (payload_ : option string) (now : Z) (w : write) : journal :=
  _terminal j id FAILED payload_ false now w.

(** *** Records of a well-kept journal *)

Lemma get_append_same j r w : get (append j r w) (step_id r) = Some r.
Proof. apply Dict.get_set_eq. Qed.

Lemma get_append_other j r w id : id <> step_id r -> get (append j r w) id = get j id.
Proof. apply Dict.get_set_ne. Qed.

Lemma get_valid j id r : durable (valid := valid) j -> get j id = Some r -> valid r /\ step_id r = id.
Proof.
  intros [_ [_ Hf]] Hg%Dict.get_Some_elem. rewrite Forall_forall in Hf.
  destruct (Hf _ Hg) as [H1 H2]. by split.
Qed.

Lemma started_durable j id k e n sq call p now :
  durable (valid := valid) j -> one_line id -> one_line k -> one_line e -> one_line n -> 0 <= sq ->
  one_line_opt call -> one_line_opt p -> 0 <= now ->
  durable (valid := valid) (record_started j id k e n sq call p now Done).
Proof. intros Hd ????????. by apply append_durable. Qed.

Lemma terminal_durable j id st p su now :
  durable (valid := valid) j -> one_line id -> one_line st -> one_line_opt p -> 0 <= now ->
  durable (valid := valid) (_terminal j id st p su now Done).
Proof.
  intros Hd Hi Hst Hp Hn. unfold _terminal. destruct (get j id) as [r|] eqn:Hg.
  - destruct (get_valid j id r Hd Hg) as [[] _]. by apply append_durable.
  - by apply append_durable.
Qed.

Lemma get_terminal_same j id st p su now w :
  exists r, get (_terminal j id st p su now w) id = Some r /\ status r = st /\ payload r = p.
Proof.
  unfold _terminal. destruct (get j id) as [r|]; eexists; (split; [apply (get_append_same j (mkStep id _ _ _ _ _ _ _ _ _ _))|done]).
Qed.

Lemma get_terminal_other j id st p su now w id' :
  id' <> id -> get (_terminal j id st p su now w) id' = get j id'.
Proof. intros H. unfold _terminal. destruct (get j id); by apply get_append_other. Qed.

(** *** New ids are new *)

Lemma foldl_max_ge n l : n <= foldl Z.max n l /\ Forall (fun x => x <= foldl Z.max n l) l.
Proof.
  revert n. induction l as [|x l IH]; intros n; simpl; [split; [lia|constructor]|].
  destruct (IH (Z.max n x)) as [H1 H2]. split; [lia|]. constructor; [lia|done].
Qed.

Lemma next_seq_above j k r : In r (records j) -> kind r = k -> seq r < next_seq j k.
Proof.
  intros Hin Hk. unfold next_seq.
  assert (In (seq r) (seq <$> List.filter (is_kind k) (records j))) as H.
  { apply list_elem_of_In, list_elem_of_fmap. exists r. split; [done|]. apply list_elem_of_In, filter_In.
    split; [done|]. by apply bool_decide_eq_true. }
  destruct (seq <$> List.filter (is_kind k) (records j)) as [|n l]; [done|].
  destruct (foldl_max_ge n l) as [H1 H2]. rewrite Forall_forall in H2. destruct H as [<-|H]; [lia|].
  apply list_elem_of_In, H2 in H. lia.
Qed.

Lemma fmt_inj n m : 0 <= n -> 0 <= m -> Text.fmt n = Text.fmt m -> n = m.
Proof.
  intros Hn Hm E. apply number_of_fmt in Hn, Hm. rewrite E in Hn. congruence.
Qed.

(** The steps named like a think step are think steps with that number. *)
Definition named (k : string) (j : journal) : Prop :=
  forall r n, In r (records j) -> 0 <= n -> step_id r = k +:+ ":" +:+ Text.fmt n -> kind r = k /\ seq r = n.

Lemma next_id_new j k :
  durable (valid := valid) j -> named k j -> 0 <= next_seq j k ->
  get j (k +:+ ":" +:+ Text.fmt (next_seq j k)) = None.
Proof.
  intros Hd Hn H0. destruct (get j _) as [r|] eqn:Hg; [|done]. exfalso.
  destruct (get_valid j _ r Hd Hg) as [_ Hid].
  assert (In r (records j)) as Hin.
  { apply Dict.get_Some_elem in Hg. apply list_elem_of_In. by apply (list_elem_of_fmap_2 snd) in Hg. }
  destruct (Hn r _ Hin H0 Hid) as [Hk Hs]. pose proof (next_seq_above j k r Hin Hk). lia.
Qed.

End RunJournal.

(** ** [JsonlBackend] *)
Module JsonlBackend.
Import AppendOnlyLedger RunJournal.

Section Steps.
(** The world a step acts on, and the exceptions it may raise with their texts. *)
Context {W E : Type} (str : E -> string).

Record step := mkCall {
  id : string;
  call_kind : string;
  call_effect : string;
  call_name : string;
  call_seq : Z;
  call_id : option string;
  execute : W -> W * outcome E string
}.

(** Where the process dies, if it does. *)
Inductive crash := NoCrash | BeforeStart | AfterStart | AfterExecute.

#[export] Instance crash_eq_dec : EqDecision crash.
Proof. solve_decision. Defined.

Inductive progress := Finished (r : outcome E string) | Crashed.

Definition run_journaled_step (j : journal) (w : W) (c : step) (t0 t1 : Z) (io0 io1 : write) (k : crash) :
    journal * W * progress :=
  if bool_decide (k = BeforeStart) then (j, w, Crashed)
  else
    let j := record_started j (id c) (call_kind c) (call_effect c) (call_name c) (call_seq c) (call_id c) None t0 io0 in
    if bool_decide (k = AfterStart) then (j, w, Crashed)
    else
      let '(w, r) := execute c w in
      if bool_decide (k = AfterExecute) then (j, w, Crashed)
      else match r with
           | Ok p => (record_completed j (id c) (Some p) true t1 io1, w, Finished (Ok p))
           | Raise e => (record_failed j (id c) (Some (str e)) t1 io1, w, Finished (Raise e))
           end.

Definition or_empty (o : option string) : string := match o with Some s => s | None => "" end.

Definition run_step (j : journal) (w : W) (c : step) (t0 t1 : Z) (io0 io1 : write) (k : crash) :
    journal * W * progress :=
  match replay j (id c) with
  | Some prior =>
      if is_status COMPLETED prior then (j, w, Finished (Ok (or_empty (payload prior))))
      else run_journaled_step j w c t0 t1 io0 io1 k
  | None => run_journaled_step j w c t0 t1 io0 io1 k
  end.

(** *** A completed step stays completed *)

Definition proper (c : step) : Prop :=
  one_line (id c) /\ one_line (call_kind c) /\ one_line (call_effect c) /\ one_line (call_name c)
  /\ 0 <= call_seq c /\ one_line_opt (call_id c)
  /\ forall w, match snd (execute c w) with Ok p => one_line p | Raise e => one_line (str e) end.

(** What happens to a journal: a step is run, and the process may die and come back; records
    are reaped; or the process comes back. *)
Inductive event := Run (c : step) (t0 t1 : Z) (k : crash) | Drop (keys : list string) | Reload.

Definition reload (j : journal) : journal := match init (file j) true with Ok j' => j' | Raise _ => j end.

Definition happen (s : journal * W) (e : event) : journal * W :=
  let '(j, w) := s in
  match e with
  | Run c t0 t1 k =>
      match run_step j w c t0 t1 Done Done k with
      | (j, w, Finished _) => (j, w)
      | (j, w, Crashed) => (reload j, w)
      end
  | Drop keys => (reap j keys Done, w)
  | Reload => (reload j, w)
  end.

Definition proper_event (e : event) : Prop :=
  match e with Run c t0 t1 _ => proper c /\ 0 <= t0 /\ 0 <= t1 | _ => True end.

Lemma reload_durable j : durable (valid := valid) j -> reload j = j.
Proof. intros Hd. unfold reload, init. rewrite (durable_load j Hd). by destruct j. Qed.

Lemma journaled_durable j w c t0 t1 k :
  durable (valid := valid) j -> proper c -> 0 <= t0 -> 0 <= t1 ->
  durable (valid := valid) (run_journaled_step j w c t0 t1 Done Done k).1.1
  /\ forall id', id' <> id c -> get (run_journaled_step j w c t0 t1 Done Done k).1.1 id' = get j id'.
Proof.
  intros Hd (H1 & H2 & H3 & H4 & H5 & H6 & H7) Ht0 Ht1. unfold run_journaled_step.
  destruct (bool_decide (k = BeforeStart)); [done|].
  set (j1 := record_started j _ _ _ _ _ _ _ _ _).
  assert (durable (valid := valid) j1) as Hd1 by (by apply started_durable).
  assert (forall id', id' <> id c -> get j1 id' = get j id') as Hg1 by (intros; by apply get_append_other).
  destruct (bool_decide (k = AfterStart)); [done|]. specialize (H7 w).
  destruct (execute c w) as [w' r]. destruct (bool_decide (k = AfterExecute)); [done|].
  destruct r as [p|e]; cbn in *; (split; [by apply terminal_durable|]); intros id' Hi;
    unfold record_completed, record_failed; rewrite get_terminal_other by done; by apply Hg1.
Qed.

Definition memoized (j : journal) (i p : string) : Prop :=
  exists r, get j i = Some r /\ status r = COMPLETED /\ or_empty (payload r) = p.

Lemma run_memoized j w c t0 t1 io0 io1 k p :
  memoized j (id c) p -> run_step j w c t0 t1 io0 io1 k = (j, w, Finished (Ok p)).
Proof.
  intros (r & Hg & Hs & Hp). unfold run_step, replay. rewrite Hg. unfold is_status.
  by rewrite bool_decide_true, Hp.
Qed.

Lemma journaled_memoized j w c t0 t1 io0 io1 p :
  (run_journaled_step j w c t0 t1 io0 io1 NoCrash).2 = Finished (Ok p) ->
  match run_journaled_step j w c t0 t1 io0 io1 NoCrash with
  | (j', _, Finished _) => memoized j' (id c) p
  | (_, _, Crashed) => False
  end.
Proof.
  unfold run_journaled_step. rewrite !bool_decide_false by done.
  set (j1 := record_started j _ _ _ _ _ _ _ _ _).
  destruct (execute c w) as [w' [q|e]]; cbn [snd]; [|done]. intros [= ->].
  destruct (get_terminal_same j1 (id c) COMPLETED (Some p) true t1 io1) as (r & H1 & H2 & H3).
  exists r. rewrite H3. by split_and!.
Qed.

Lemma foldl_pop_get keys (d : list (string * StepRecord)) i :
  i ∉ keys -> Dict.get i (foldl (fun d k => Dict.pop k d) d keys) = Dict.get i d.
Proof.
  revert d. induction keys as [|k keys IH]; intros d H; [done|]. apply not_elem_of_cons in H as [H1 H2].
  simpl. rewrite IH by done. by apply Dict.get_pop_ne.
Qed.

Lemma happen_keeps s e i p :
  durable (valid := valid) s.1 -> proper_event e -> memoized s.1 i p ->
  (match e with Drop keys => i ∉ keys | _ => True end) ->
  durable (valid := valid) (happen s e).1 /\ memoized (happen s e).1 i p.
Proof.
  intros Hd He Hm Hk. destruct s as [j w]. cbn [fst] in *. destruct e as [c t0 t1 k|keys|]; cbn [happen].
  - destruct He as (Hc & Ht0 & Ht1). destruct (decide (id c = i)) as [<-|Hne].
    { rewrite (run_memoized j w c t0 t1 Done Done k p Hm). done. }
    unfold run_step. destruct (replay j (id c)) as [prior|] eqn:Hr; [destruct (is_status COMPLETED prior); [done|]|].
    all: destruct (journaled_durable j w c t0 t1 k Hd Hc Ht0 Ht1) as [H1 H2];
      destruct (run_journaled_step j w c t0 t1 Done Done k) as [[j' w'] [r|]]; cbn [fst] in *;
      rewrite ?reload_durable by done; (split; [done|]); unfold memoized; rewrite H2 by done; exact Hm.
  - split; [by apply reap_durable|]. destruct Hm as (r & Hg & Hm). exists r. split; [|exact Hm].
    unfold reap. destruct (existsb _ _); [|exact Hg]. etrans; [apply (foldl_pop_get keys (_latest j) i Hk)|exact Hg].
  - rewrite reload_durable by done. done.
Qed.

Lemma happens_keep s es i p :
  durable (valid := valid) s.1 -> Forall proper_event es -> memoized s.1 i p ->
  Forall (fun e => match e with Drop keys => i ∉ keys | _ => True end) es ->
  durable (valid := valid) (foldl happen s es).1 /\ memoized (foldl happen s es).1 i p.
Proof.
  intros Hd He Hm Hk. revert s Hd Hm. induction He as [|e es He _ IH]; intros s Hd Hm; [done|].
  apply Forall_cons in Hk as [Hk1 Hk2]. cbn [foldl].
  destruct (happen_keeps s e i p Hd He Hm Hk1) as [Hd' Hm']. by apply IH.
Qed.

Lemma happens_durable s es :
  durable (valid := valid) s.1 -> Forall proper_event es -> durable (valid := valid) (foldl happen s es).1.
Proof.
  intros Hd He. revert s Hd. induction He as [|e es He _ IH]; intros [j w] Hd; [done|]. cbn [foldl]. apply IH.
  cbn [fst] in *. destruct e as [c t0 t1 k|keys|]; cbn [happen].
  - destruct He as (Hc & Ht0 & Ht1). unfold run_step.
    destruct (replay j (id c)) as [prior|]; [destruct (is_status COMPLETED prior); [done|]|].
    all: destruct (journaled_durable j w c t0 t1 k Hd Hc Ht0 Ht1) as [H1 _];
      destruct (run_journaled_step j w c t0 t1 Done Done k) as [[j' w'] [r|]]; cbn [fst] in *;
      rewrite ?reload_durable by done; done.
  - by apply reap_durable.
  - by rewrite reload_durable.
Qed.

(** C30: A completed step is not run again. After a step has returned a result once, then
    through any further steps, crashes between their actions, restarts from the file, and
    reaps of other records, running the step again returns the same result at once: the
    world is not touched and nothing is written. A crash before the completion is recorded
    leaves a step that runs again. The conditions: steps are proper (the texts of a step, its
    results and its errors can be encoded and take one line of the file; one that does not
    is lost, see [line_end_payload_lost]); writes succeed; and the process dies between two
    actions of a step, not inside a write (for that see [ledger_durable]). *)
Theorem completed_step_replayed w0 before c t0 t1 p after c' t0' t1' io0 io1 k :
  Forall proper_event before -> proper c -> 0 <= t0 -> 0 <= t1 ->
  let s := foldl happen (empty, w0) before in
  (run_step s.1 s.2 c t0 t1 Done Done NoCrash).2 = Finished (Ok p) ->
  Forall proper_event after ->
  Forall (fun e => match e with Drop keys => id c ∉ keys | _ => True end) after ->
  id c' = id c ->
  let s' := foldl happen (happen s (Run c t0 t1 NoCrash)) after in
  run_step s'.1 s'.2 c' t0' t1' io0 io1 k = (s'.1, s'.2, Finished (Ok p)).
Proof.
  intros Hb Hc Ht0 Ht1 s Hrun Ha Hk Hid s'.
  assert (durable (valid := valid) s.1) as Hd by (apply happens_durable; [exact durable_empty|done]).
  assert (durable (valid := valid) (happen s (Run c t0 t1 NoCrash)).1
          /\ memoized (happen s (Run c t0 t1 NoCrash)).1 (id c) p) as [Hd1 Hm1].
  { split; [apply (happens_durable s [Run c t0 t1 NoCrash] Hd); by apply Forall_singleton|].
    destruct s as [j w]. cbn [fst snd happen] in *. unfold run_step in *.
    destruct (replay j (id c)) as [prior|] eqn:Hr.
    - destruct (is_status COMPLETED prior) eqn:Hs.
      + cbn in Hrun. injection Hrun as <-. exists prior. split_and!; [exact Hr| |done].
        by apply bool_decide_eq_true in Hs.
      + apply journaled_memoized in Hrun. by destruct (run_journaled_step _ _ _ _ _ _ _ _) as [[j' w'] []].
    - apply journaled_memoized in Hrun. by destruct (run_journaled_step _ _ _ _ _ _ _ _) as [[j' w'] []]. }
  destruct (happens_keep _ after (id c) p Hd1 Ha Hm1 Hk) as [_ Hm]. fold s' in Hm.
  apply run_memoized. by rewrite Hid.
Qed.

End Steps.
End JsonlBackend.

(** ** Concrete histories *)
Module Example.
Import AppendOnlyLedger RunJournal JsonlBackend.

Definition think (n : Z) (st : string) (p : option string) : StepRecord :=
  mkStep (think_step_id n) KIND_THINK "local" st n "" None 10 None p true.

Definition is_append_of_valid (o : op (R := StepRecord)) : Prop :=
  match o with Append r => valid r | _ => True end.

Lemma think_valid n st p : 0 <= n -> one_line st -> one_line_opt p -> one_line (think_step_id n) ->
  valid (think n st p).
Proof. intros. by split. Qed.

Definition history : list (op (R := StepRecord)) :=
  [Append (think 1 STARTED None); Append (think 1 COMPLETED (Some "out")); Append (think 2 STARTED None);
   Restart; Reap [think_step_id 1]].

Lemma history_valid : Forall is_append_of_valid history.
Proof.
  unfold history. repeat apply Forall_cons_2; try exact I; try (apply think_valid; done). constructor.
Qed.

(** The process dies in the middle of the line of think step 3; step 2 is still there. *)
Lemma ledger_durable_witness :
  exists s, run empty history = Ok s
    /\ init (written (file s) (line (think 3 STARTED None)) (Fails 20)) true
       = Ok (mk [(think_step_id 2, think 2 STARTED None)]
               (written (file s) (line (think 3 STARTED None)) (Fails 20))).
Proof.
  destruct (ledger_durable history history_valid) as (s & Hr & _ & Ht). exists s. split; [exact Hr|].
  assert (valid (think 3 STARTED None)) as H3 by (apply think_valid; done).
  rewrite (Ht _ 20%nat H3). clear Ht H3. vm_compute in Hr. injection Hr as <-. vm_compute. reflexivity.
Defined.

(** A step that counts how often it runs. *)
Definition count : step (W := nat) (E := unit) :=
  mkCall "tool:1" KIND_TOOL "local" "write" 0 (Some "1") (fun n => (S n, Ok "done")).

Definition no_text (_ : unit) : string := "".

Lemma count_proper : proper no_text count.
Proof. by split_and!. Qed.

(** The step dies twice before it is recorded, so it runs three times; then it runs no more. *)
Lemma completed_step_replayed_witness :
  let before := [Run count 1 2 AfterStart; Run count 3 4 AfterExecute] in
  let s := foldl (happen no_text) (empty, 0%nat) before in
  let s' := foldl (happen no_text) (happen no_text s (Run count 5 6 NoCrash)) [Reload; Drop ["other"]] in
  s'.2 = 2%nat
  /\ run_step no_text s'.1 s'.2 count 7 8 Done Done NoCrash = (s'.1, s'.2, Finished (Ok "done")).
Proof.
  intros before s s'. split; [vm_compute; reflexivity|].
  apply (completed_step_replayed no_text 0%nat before count 5 6 "done" [Reload; Drop ["other"]] count 7 8 Done Done NoCrash).
  - unfold before. repeat apply Forall_cons_2; try (split_and!; [exact count_proper|done|done]). constructor.
  - exact count_proper.
  - done.
  - done.
  - vm_compute. reflexivity.
  - repeat apply Forall_cons_2; try exact I. constructor.
  - repeat apply Forall_cons_2; [exact I|by intros ?%list_elem_of_singleton|constructor].
  - reflexivity.
Defined.

(** *** Ways to lose a record *)

(** The line after a torn one is glued to it: a [started] record that was written in full is
    gone at the next restart, because an append does not look whether the file ends a line. *)
Lemma torn_tail_loses_next :
  let file1 := written None (line (think 1 STARTED None)) (Fails 20) in
  match init (R := StepRecord) file1 true with
  | Ok s1 => let s2 := append s1 (think 2 STARTED None) Done in
             get s2 (think_step_id 2) = Some (think 2 STARTED None) /\ init (file s2) true = Ok (mk [] (file s2))
  | Raise _ => False
  end.
Proof. split; vm_compute; reflexivity. Qed.

(** So a step of an external effect runs again after a crash that no record announces. *)
Lemma torn_tail_hides_started :
  let file1 := written None (line (think 1 STARTED None)) (Fails 20) in
  match init (R := StepRecord) file1 true with
  | Ok s1 => let s := happen no_text (s1, 0%nat) (Run count 1 2 AfterExecute) in
             s.2 = 1%nat /\ unresolved s.1 = []
             /\ (run_step no_text s.1 s.2 count 3 4 Done Done NoCrash).1.2 = 2%nat
  | Raise _ => False
  end.
Proof. vm_compute. split_and!; reflexivity. Qed.

(** A payload with a line end that JSON does not escape is cut by [splitlines], and its
    record is lost at the next restart: with NEL, and with the line and paragraph separators. *)
Lemma line_end_payload_lost c :
  In c [Utf8.NEL; Utf8.LS; Utf8.PS] ->
  let s := append empty (think 1 COMPLETED (Some c)) Done in
  get s (think_step_id 1) = Some (think 1 COMPLETED (Some c)) /\ init (file s) true = Ok (mk [] (file s)).
Proof. intros [<-|[<-|[<-|[]]]]; split; vm_compute; reflexivity. Qed.

(** A crash in the middle of the two bytes of a character (here of a payload, U+00E9) leaves a
    file that is not UTF-8; no restart can open it, although all the records before are whole. *)
Lemma torn_character_blocks :
  let s := append empty (think 1 COMPLETED (Some "done")) Done in
  let r := think 2 COMPLETED (Some (Utf8.bytes [195; 169])) in
  let cut := (String.length (to_json r) - 20)%nat in
  init (R := StepRecord) (written (file s) (line r) (Fails cut)) true = Raise UnicodeDecodeError
  /\ init (R := StepRecord) (written (file s) (line r) (Fails (S cut))) true
     = Ok (mk (_latest s) (written (file s) (line r) (Fails (S cut)))).
Proof. vm_compute. split_and!; reflexivity. Qed.

(** A line of another schema keeps the journal from being opened at all. *)
Lemma old_line_blocks :
  init (R := StepRecord) (Some ("{}" +:+ String "010" "" +:+ line (think 1 STARTED None))) true = Raise UnsupportedRecord.
Proof. vm_compute. reflexivity. Qed.

(** A journal that could not be read is empty, and the next reap of a record written since
    destroys the others. *)
Lemma unread_journal_destroyed :
  let f := Some (line (think 1 STARTED None)) in
  match init (R := StepRecord) f false with
  | Ok s1 => let s2 := reap (append s1 (think 2 COMPLETED None) Done) [think_step_id 2] Done in
             file s2 = Some ""
  | Raise _ => False
  end.
Proof. vm_compute. reflexivity. Qed.

End Example.
