(* ===== verification/CommandStream.v ===== *)
(** * Commands in a model's answer

    [kernel/commands/xml/stream.py] and [recovery.py]: the lexer of XML command blocks, the
    builder that turns its tokens into commands, and the repair of an answer that was cut
    off. Every argument is lexed as a string, because [_search_arg_name] gives every
    argument that type; the branch for other types is not reached. [functions] and the
    arguments of a function are kept newest first, so the head is Python's [-1]. *)

From S2P Require Import Prelude Text.
From Stdlib Require Import Ascii String.
From stdpp Require Import base list strings.

Open Scope string_scope.
Open Scope list_scope.
Open Scope mote_scope.
Open Scope Z_scope.

Module CommandLexer.

(** ** Elements *)

Definition is_angle (c : ascii) : bool := bool_decide (c = "<"%char) || bool_decide (c = ">"%char).

(** The run of characters that are not brackets, and what follows it. *)
Fixpoint name_run (s : string) : string * string :=
  match s with
  | EmptyString => (EmptyString, EmptyString)
  | String c s' =>
      if is_angle c then (EmptyString, s)
      else let '(name, rest) := name_run s' in (String c name, rest)
  end.

(** A match of [<([^<>]+)>]: where it starts, its group, where it ends. *)
Record block := mkBlock { start : nat; group : string; stop : nat }.

Definition block_at (pos : nat) (after : string) : option block :=
  match name_run after with
  | (EmptyString, _) => None
  | (name, String c _) =>
      if bool_decide (c = ">"%char) then Some (mkBlock pos name (pos + String.length name + 2)) else None
  | (_, EmptyString) => None
  end.

(** [re.finditer(element_regx, buf)]. No match contains a bracket inside, so looking on from
    the next character finds the same matches as from the end of the last. *)
Fixpoint finditer_from (pos : nat) (s : string) : list block :=
  match s with
  | EmptyString => []
  | String c s' =>
      if bool_decide (c = "<"%char) then
        match block_at pos s' with
        | Some b => b :: finditer_from (S pos) s'
        | None => finditer_from (S pos) s'
        end
      else finditer_from (S pos) s'
  end.

Definition finditer (s : string) : list block := finditer_from 0 s.

(** ** Tokens and the state of the lexer *)

Inductive token :=
| start_array | end_array | start_map | end_map | map_key (k : string)
| start_string | chars (s : string) | end_string | EOS.

Inductive LexerState := SEARCH_FUNCTION | PARSE_ARG_NAME | PARSE_ARG_VALUE.

#[export] Instance lexer_state_eq_dec : EqDecision LexerState.
Proof. solve_decision. Defined.

(** [v.split(" ", maxsplit=1)[0]]. *)
Definition _strip_props (v : string) : string := (Text.partition " " v).1.1.

Definition closing (name : string) : string := "</" +:+ name +:+ ">".

Record ArgObject := mkArg { variable_name : string; variable_value : option string }.

Definition end_variable_name (a : ArgObject) : string := closing (variable_name a).

Record FunctionObject := mkFunction { function_name : string; args : list ArgObject }.

Definition end_function_name (f : FunctionObject) : string := closing (function_name f).

Record t := mk {
  tokens : list token;
  functions : list FunctionObject;
  rcv_buf : string;
  is_rcv_buf_ready : bool;
  state : LexerState;
  thinking_buf : list string
}.

Definition init : t := mk [] [] "" false SEARCH_FUNCTION [].

Definition not_ready (s : t) : t :=
  mk (tokens s) (functions s) (rcv_buf s) false (state s) (thinking_buf s).

Section Lexer.
Context (ignore_text : bool) (valid_names : option (list string)).

(** ** Function names *)

Fixpoint add_to_last (l : list string) (x : string) : list string :=
  match l with
  | [] => []
  | [y] => [y +:+ x]
  | y :: l => y :: add_to_last l x
  end.

Definition _add_thinking_buf (thinking_buf : list string) (thinking : string) : list string :=
  if bool_decide (thinking = "") then thinking_buf
  else (match thinking_buf with [] => [thinking] | _ => add_to_last thinking_buf thinking end) ++ [""].

Definition read_thinking_buf (s : t) : t * string :=
  match thinking_buf s with
  | val :: _ :: _ =>
      (mk (tokens s) (functions s) (rcv_buf s) (is_rcv_buf_ready s) (state s) (tl (thinking_buf s)), val)
  | _ => (s, "")
  end.

Definition is_function (b : block) : bool :=
  negb (Text.startswith (group b) "/")
  && match valid_names with None => true | Some names => bool_decide (group b ∈ names) end.

Definition function_tokens (name : string) : list token :=
  [start_map; map_key "command_name"; start_string; chars name; end_string; map_key "args"; start_map].

Definition _search_function_name (s : t) : t :=
  match List.find is_function (finditer (rcv_buf s)) with
  | None => not_ready s
  | Some b =>
      mk (tokens s ++ (match functions s with [] => [start_array] | _ => [] end) ++ function_tokens (group b))
        (mkFunction (_strip_props (group b)) [] :: functions s)
        (Text.drop_chars (stop b) (rcv_buf s)) (is_rcv_buf_ready s) PARSE_ARG_NAME
        (_add_thinking_buf (thinking_buf s) (Text.take_chars (start b) (rcv_buf s)))
  end.

(** ** Argument names *)

Definition xml_declaration : string :=
  "?xml version=" +:+ String "034" "1.0" +:+ String "034" " ".

Definition _detect_variable (b : block) : bool :=
  negb (Text.startswith (group b) "/") && negb (Text.startswith (group b) xml_declaration).

Inductive found := NextArg (b : block) | Close (idx : nat) | Nothing.

(** The loop over the elements, with the place of the closing tag of the function. *)
Fixpoint next_arg (idx : option nat) (blocks : list block) : found :=
  match blocks with
  | [] => Nothing
  | b :: blocks =>
      if _detect_variable b then NextArg b
      else match idx with
           | Some i => Close i
           | None => next_arg idx blocks
           end
  end.

Definition _search_arg_name (s : t) (f : FunctionObject) (fs : list FunctionObject) : t :=
  match next_arg (Text.find (end_function_name f) (rcv_buf s)) (finditer (rcv_buf s)) with
  | Close i =>
      mk (tokens s ++ [end_map; end_map]) (functions s)
        (Text.drop_chars (i + String.length (end_function_name f)) (rcv_buf s))
        (is_rcv_buf_ready s) SEARCH_FUNCTION (thinking_buf s)
  | Nothing => not_ready s
  | NextArg b =>
      mk (tokens s ++ [map_key (group b)])
        (mkFunction (function_name f) (mkArg (_strip_props (group b)) None :: args f) :: fs)
        (Text.drop_chars (stop b) (rcv_buf s)) (is_rcv_buf_ready s) PARSE_ARG_VALUE (thinking_buf s)
  end.

(** ** Argument values *)

Definition blank (line : string) : bool := bool_decide (Text.strip line = "").

(** The lines from the first that is not blank, or not complete, on. *)
Fixpoint drop_blank_lines (lines : list string) : string :=
  match lines with
  | [] => ""
  | line :: rest =>
      if negb (blank line) || negb (Text.endswith line (String "010" "")) then Text.concat lines
      else drop_blank_lines rest
  end.

Definition _strip_empty_line_prefix (value : string) : string :=
  drop_blank_lines (Text.splitlines_keepends value).

(** The lines up to the last that is not blank. *)
Fixpoint upto_last (lines : list string) : list string :=
  match lines with
  | [] => []
  | line :: rest =>
      match upto_last rest with
      | [] => if blank line then [] else [line]
      | l => line :: l
      end
  end.

Definition _strip_empty_line_postfix (value : string) : string :=
  Text.join (String "010" "") (upto_last (Text.splitlines value)).

Definition _handle_str_type_value (a : ArgObject) (value : string) (meet_end : bool) :
    ArgObject * bool * string :=
  let meet_beginning := match variable_value a with None => true | Some _ => false end in
  let current := match variable_value a with None => "" | Some v => v end in
  let value := if meet_beginning then _strip_empty_line_prefix value else value in
  let value := if meet_end then _strip_empty_line_postfix value else value in
  let new := if bool_decide (value = "") then value else current +:+ value in
  (mkArg (variable_name a) (Some new), meet_beginning, value).

Definition piece (value : string) : list token := if bool_decide (value = "") then [] else [chars value].

Definition _search_arg_value (s : t) (f : FunctionObject) (fs : list FunctionObject)
    (a : ArgObject) (as_ : list ArgObject) : t :=
  let idx := Text.find (end_variable_name a) (rcv_buf s) in
  let meet_end := match idx with Some _ => true | None => false end in
  let at_ := match idx with
             | Some i => i
             | None => (String.length (rcv_buf s) - String.length (end_variable_name a))%nat
             end in
  let variable_value := Text.take_chars at_ (rcv_buf s) in
  if bool_decide (variable_value = "") && negb meet_end then not_ready s
  else
    let '(a', meet_beginning, value) := _handle_str_type_value a variable_value meet_end in
    mk (tokens s ++ (if meet_beginning then [start_string] else []) ++ piece value
          ++ (if meet_end then [end_string] else []))
      (mkFunction (function_name f) (a' :: as_) :: fs)
      (Text.drop_chars (if meet_end then at_ + String.length (end_variable_name a) else at_) (rcv_buf s))
      (is_rcv_buf_ready s) (if meet_end then PARSE_ARG_NAME else PARSE_ARG_VALUE) (thinking_buf s).

(** ** Chunks *)

(** One round of the loop; [None] is an [IndexError] of [functions[-1]] or [args[-1]], which is
    excluded below. *)
Definition round (s : t) : option t :=
  match state s with
  | SEARCH_FUNCTION => Some (_search_function_name s)
  | PARSE_ARG_NAME =>
      match functions s with
      | f :: fs => Some (_search_arg_name s f fs)
      | [] => None
      end
  | PARSE_ARG_VALUE =>
      match functions s with
      | f :: fs =>
          match args f with
          | a :: as_ => Some (_search_arg_value s f fs a as_)
          | [] => None
          end
      | [] => None
      end
  end.

Inductive ran := Ran (s : t) | OutOfFuel | IndexError.

Definition busy (s : t) : bool := is_rcv_buf_ready s && negb (bool_decide (rcv_buf s = "")).

Fixpoint loop (fuel : nat) (s : t) : ran :=
  if busy s then
    match fuel with
    | O => OutOfFuel
    | S n => match round s with Some s' => loop n s' | None => IndexError end
    end
  else Ran s.

Definition feed (s : t) (chunk : string) : t :=
  mk (tokens s) (functions s) (rcv_buf s +:+ chunk) true (state s) (thinking_buf s).

(** The loop of a chunk, with the fuel that a theorem shows to be enough. *)
Definition drain (s : t) : ran := loop (S (String.length (rcv_buf s))) s.

Definition _make_ask_user (s : t) : list token :=
  if ignore_text then [EOS]
  else [start_array; start_map; map_key "command_name"; start_string; chars "reply_to_user"; end_string;
        map_key "args"; start_map; map_key "content"; start_string; chars (rcv_buf s); end_string;
        end_map; end_map; end_array; EOS].

Inductive lexed := Lexed (s : t) | InvalidXML (s : t) | LexerFault.

Definition with_end (s : t) (l : list token) (buf : string) : t :=
  mk (tokens s ++ l) (functions s) buf (is_rcv_buf_ready s) (state s) (thinking_buf s).

(** [parse_chunk]; [None] is the end of the input. *)
Definition parse_chunk (s : t) (chunk : option string) : lexed :=
  match chunk with
  | Some text => match drain (feed s text) with Ran s' => Lexed s' | _ => LexerFault end
  | None =>
      if bool_decide (state s = SEARCH_FUNCTION) then
        match functions s with
        | [] => Lexed (with_end s (_make_ask_user s) "")
        | _ => Lexed (with_end s [end_array; EOS] (rcv_buf s))
        end
      else InvalidXML s
  end.

(** *** The loop ends *)

Definition well_formed (s : t) : Prop :=
  match state s with
  | SEARCH_FUNCTION => True
  | PARSE_ARG_NAME => functions s <> []
  | PARSE_ARG_VALUE => exists f fs, functions s = f :: fs /\ args f <> []
  end.

Lemma name_run_length s name rest :
  name_run s = (name, rest) -> String.length s = (String.length name + String.length rest)%nat.
Proof.
  revert name rest. induction s as [|c s IH]; intros name rest; cbn [name_run]; [by intros [= <- <-]|].
  destruct (is_angle c); [by intros [= <- <-]|]. destruct (name_run s) as [n r].
  intros [= <- <-]. simpl. by rewrite (IH n r eq_refl).
Qed.

(** A match takes at least three characters, and starts where it is looked for, or later. *)
Lemma finditer_bounds pos s b :
  b ∈ finditer_from pos s -> (pos <= start b /\ start b + 3 <= stop b)%nat.
Proof.
  revert pos. induction s as [|c s IH]; intros pos; cbn [finditer_from]; [by intros ?%not_elem_of_nil|].
  assert (b ∈ finditer_from (S pos) s -> (pos <= start b /\ start b + 3 <= stop b)%nat) as Hrec.
  { intros H. apply IH in H. lia. }
  destruct (bool_decide (c = "<"%char)); [|exact Hrec].
  unfold block_at. destruct (name_run s) as [[|d name] [|e rest]]; try exact Hrec.
  destruct (bool_decide (e = ">"%char)); [|exact Hrec].
  rewrite elem_of_cons. intros [->|H]; [|by apply Hrec]. simpl. lia.
Qed.

Lemma next_arg_spec idx blocks :
  match next_arg idx blocks with
  | NextArg b => b ∈ blocks
  | Close i => idx = Some i
  | Nothing => True
  end.
Proof.
  induction blocks as [|b blocks IH]; simpl; [done|]. destruct (_detect_variable b); [left|].
  destruct idx; [done|]. destruct (next_arg None blocks); [by right|done|done].
Qed.

Lemma closing_length name : (3 <= String.length (closing name))%nat.
Proof. unfold closing. rewrite !Text.append_length. change (String.length "</") with 2%nat. change (String.length ">") with 1%nat. lia. Qed.

Lemma find_drop p s i :
  Text.find p s = Some i -> (3 <= String.length p)%nat ->
  (String.length (Text.drop_chars (i + String.length p) s) < String.length s)%nat.
Proof. intros H Hp. apply Text.find_length in H. rewrite Text.drop_length. lia. Qed.

Lemma drop_less n s : s <> "" -> (0 < n)%nat ->
  (String.length (Text.drop_chars n s) < String.length s)%nat.
Proof. intros Hs Hn. rewrite Text.drop_length. destruct s; [done|]. simpl. lia. Qed.

(** A round of a well-formed lexer succeeds, and shortens the buffer or ends the loop. *)
Lemma round_progress s :
  well_formed s -> busy s = true ->
  exists s', round s = Some s' /\ well_formed s'
    /\ (is_rcv_buf_ready s' = false \/ (String.length (rcv_buf s') < String.length (rcv_buf s))%nat).
Proof.
  unfold well_formed, busy, round. intros Hwf Hb. apply andb_prop in Hb as [_ Hb].
  apply negb_true_iff, bool_decide_eq_false in Hb. destruct (state s) eqn:Hst.
  - eexists. split; [done|]. unfold _search_function_name.
    destruct (List.find is_function (finditer (rcv_buf s))) as [b|] eqn:Hf; [|by cbn; rewrite Hst; auto].
    apply List.find_some in Hf as [Hin _]. apply list_elem_of_In, finditer_bounds in Hin.
    split; [done|]. right. apply drop_less; [done|lia].
  - destruct (functions s) as [|f fs] eqn:Hfs; [done|]. eexists. split; [done|]. unfold _search_arg_name.
    pose proof (next_arg_spec (Text.find (end_function_name f) (rcv_buf s)) (finditer (rcv_buf s))) as Hn.
    destruct (next_arg _ _) as [b|i|].
    + apply finditer_bounds in Hn. split; [by eexists _, _|]. right. apply drop_less; [done|lia].
    + split; [done|]. right. apply find_drop; [done|apply closing_length].
    + simpl. rewrite Hst, Hfs. by auto.
  - destruct Hwf as (f & fs & Hfs & Ha). rewrite Hfs. destruct (args f) as [|a as_] eqn:Hargs; [done|].
    eexists. split; [done|]. unfold _search_arg_value.
    destruct (Text.find (end_variable_name a) (rcv_buf s)) as [i|] eqn:Hi.
    + rewrite andb_false_r. cbn beta iota.
      destruct (_handle_str_type_value _ _ _) as [[a' mb] v]. split; [done|].
      right. apply find_drop; [done|apply closing_length].
    + rewrite andb_true_r. set (at_ := (String.length (rcv_buf s) - _)%nat).
      destruct (bool_decide_reflect (Text.take_chars at_ (rcv_buf s) = "")) as [He|He].
      { simpl. rewrite Hst. split; [|by left]. exists f, fs. by rewrite Hargs. }
      destruct (_handle_str_type_value _ _ _) as [[a' mb] v]. split; [by eexists _, _|].
      right. apply drop_less; [done|]. destruct at_; [|lia]. by destruct (rcv_buf s).
Qed.

Lemma loop_more n m s :
  well_formed s -> (String.length (rcv_buf s) < n)%nat -> (String.length (rcv_buf s) < m)%nat ->
  loop n s = loop m s /\ exists s', loop n s = Ran s' /\ well_formed s' /\ busy s' = false.
Proof.
  revert m s. induction n as [|n IH]; intros m s Hwf Hn Hm; [lia|]. destruct m as [|m]; [lia|].
  cbn [loop]. destruct (busy s) eqn:Hb; [|by eauto 6].
  destruct (round_progress s Hwf Hb) as (s' & -> & Hwf' & Hp).
  destruct Hp as [Hr|Hl]; [|apply IH; [done|lia|lia]].
  assert (busy s' = false) as Hb' by (unfold busy; by rewrite Hr).
  assert (forall k, loop k s' = Ran s') as Hk by (intros [|k]; cbn [loop]; by rewrite Hb').
  rewrite !Hk. eauto 6.
Qed.

Lemma drain_total s : well_formed s -> exists s', drain s = Ran s' /\ well_formed s' /\ busy s' = false.
Proof. intros H. unfold drain. apply (loop_more _ (S (String.length (rcv_buf s))) s H); lia. Qed.

(** The equation of the loop. *)
Lemma drain_step s s' :
  well_formed s -> busy s = true -> round s = Some s' -> drain s = drain s'.
Proof.
  intros Hwf Hb Hr. unfold drain at 1. cbn [loop]. rewrite Hb, Hr.
  destruct (round_progress s Hwf Hb) as (s2 & Hr2 & Hwf' & Hp).
  assert (s2 = s') as -> by congruence. destruct Hp as [Hn|Hl].
  - assert (busy s' = false) as Hb' by (unfold busy; by rewrite Hn).
    assert (forall k, loop k s' = Ran s') as Hk by (intros [|k]; cbn [loop]; by rewrite Hb').
    unfold drain. by rewrite !Hk.
  - unfold drain. apply loop_more; [done|lia|lia].
Qed.

Lemma drain_idle s : busy s = false -> drain s = Ran s.
Proof. intros H. unfold drain. cbn [loop]. by rewrite H. Qed.

End Lexer.
End CommandLexer.
