(* ===== verification/CommandParser.v ===== *)
(** * From tokens to commands, and the repair of cut answers

    [PythonObjectParser.loads_xml] and [get_commands] of [kernel/commands/xml/stream.py],
    and [kernel/commands/xml/recovery.py], on the lexer of [CommandStream.v]. Results of an
    [isinstance]-free Python fold that would be a [TypeError] or an [IndexError] are the
    value [Fault], which a theorem excludes. *)

From S2P Require Import Prelude Text CommandStream.
From Stdlib Require Import Ascii String.
From stdpp Require Import base list strings.

Open Scope string_scope.
Open Scope list_scope.
Open Scope mote_scope.
Open Scope Z_scope.

Module CommandParser.
Import CommandLexer.

(** ** The builder *)

Inductive value := VNone | VStr (s : string) | VDict (kvs : list (string * value)) | VList (l : list value).

(** What is on the path: a dict or a list under construction. *)
Inductive frame := FDict (kvs : list (string * value)) | FList (l : list value).

Definition value_of (f : frame) : value :=
  match f with FDict d => VDict d | FList l => VList l end.

Record builder := mkBuilder {
  tmp : option value;
  map_keys : list string;
  path : list frame;
  commands : list (list (string * value))
}.

Definition fresh : builder := mkBuilder None [] [] [].

Fixpoint texts (l : list value) : option string :=
  match l with
  | [] => Some ""
  | VStr s :: l => match texts l with Some rest => Some (s +:+ rest) | None => None end
  | _ => None
  end.

Definition is_command (d : list (string * value)) : bool :=
  Dict.mem "command_name" d && Dict.mem "args" d.

(** The end of the loop body: a finished value goes to the container on top of the path. *)
Definition place (b : builder) : option builder :=
  match tmp b with
  | None => Some b
  | Some v =>
      match path b with
      | [] => Some b
      | FList l :: p => Some (mkBuilder None (map_keys b) (FList (l ++ [v]) :: p) (commands b))
      | FDict d :: p =>
          match map_keys b with
          | k :: ks => Some (mkBuilder None ks (FDict (Dict.set k v d) :: p) (commands b))
          | [] => None
          end
      end
  end.

Definition on_event (b : builder) (e : token) : option builder :=
  match e with
  | chars s =>
      match path b with
      | FList l :: p => Some (mkBuilder (tmp b) (map_keys b) (FList (l ++ [VStr s]) :: p) (commands b))
      | _ => None
      end
  | map_key k =>
      match path b with
      | FDict d :: p =>
          place (mkBuilder (tmp b) (k :: map_keys b) (FDict (Dict.set k VNone d) :: p) (commands b))
      | _ => None
      end
  | start_map => place (mkBuilder (tmp b) (map_keys b) (FDict [] :: path b) (commands b))
  | end_map =>
      match path b with
      | FDict d :: p =>
          place (mkBuilder (Some (VDict d)) (map_keys b) p
                   (if is_command d then commands b ++ [d] else commands b))
      | _ => None
      end
  | start_array | start_string => place (mkBuilder (tmp b) (map_keys b) (FList [] :: path b) (commands b))
  | end_array =>
      match path b with
      | f :: p => place (mkBuilder (Some (value_of f)) (map_keys b) p (commands b))
      | [] => None
      end
  | end_string =>
      match path b with
      | FList l :: p =>
          match texts l with
          | Some s => place (mkBuilder (Some (VStr s)) (map_keys b) p (commands b))
          | None => None
          end
      | _ => None
      end
  | EOS => place (mkBuilder (Some VNone) (map_keys b) (path b) (commands b))
  end.

Fixpoint build (b : builder) (l : list token) : option builder :=
  match l with
  | [] => Some b
  | e :: l => match on_event b e with Some b' => build b' l | None => None end
  end.

(** ** [loads_xml] and [get_commands] *)

Inductive exn := InvalidXml | ValidationError.

(** What one pass over a text leaves: the lexer, the commands, and how it ended. *)
Inductive pass :=
| Passed (s : t) (cmds : list (list (string * value)))
| Failed (s : t) (cmds : list (list (string * value)))
| Fault.

Definition loads_pass (ignore_text : bool) (valid_names : option (list string)) (xml : string) : pass :=
  match parse_chunk ignore_text valid_names init (Some xml) with
  | Lexed s =>
      match build fresh (tokens s) with
      | None => Fault
      | Some b =>
          match parse_chunk ignore_text valid_names s None with
          | InvalidXML s' => Failed s' (commands b)
          | Lexed s' =>
              match build fresh (tokens s') with
              | Some b' => Passed s' (commands b')
              | None => Fault
              end
          | LexerFault => Fault
          end
      end
  | _ => Fault
  end.

Record command := mkCommand { command_name : string; command_args : list (string * value) }.

Definition _fill_none (args : list (string * value)) : list (string * value) :=
  (fun kv => (kv.1, match kv.2 with
                    | VStr s => if bool_decide (s = "None") then VNone else VStr s
                    | v => v
                    end)) <$> args.

(** [Command.model_validate]. *)
Definition model_validate (d : list (string * value)) : outcome exn command :=
  match Dict.get "command_name" d, Dict.get "args" d with
  | Some (VStr n), Some (VDict a) => Ok (mkCommand n (_fill_none a))
  | _, _ => Raise ValidationError
  end.

Fixpoint get_commands (l : list (list (string * value))) : outcome exn (list command) :=
  match l with
  | [] => Ok []
  | d :: l =>
      match model_validate d with
      | Raise e => Raise e
      | Ok c => match get_commands l with Ok cs => Ok (c :: cs) | Raise e => Raise e end
      end
  end.

(** ** [recovery.py] *)

Definition _missing_closers (s : t) : string :=
  match functions s with
  | [] => ""
  | f :: _ =>
      (if bool_decide (state s = PARSE_ARG_VALUE) then
         match args f with a :: _ => end_variable_name a | [] => "" end
       else "")
      +:+ (match state s with
           | PARSE_ARG_NAME | PARSE_ARG_VALUE => end_function_name f
           | SEARCH_FUNCTION => ""
           end)
  end.

(** Results of [loads_xml]: the commands with the error that was answered by them, an
    exception, or a fault. *)
Inductive loaded := Loaded (cmds : list command) (err : option exn) | Raised (e : exn) | Broken.

Definition _repair_unclosed_xml (data : string) (failed_lexer : t) (valid_names : option (list string)) : loaded :=
  let closers := _missing_closers failed_lexer in
  if bool_decide (closers = "") then Loaded [] None
  else
    match loads_pass true valid_names (data +:+ closers) with
    | Fault => Broken
    | Failed _ _ => Loaded [] None
    | Passed _ cmds =>
        match get_commands cmds with
        | Ok l => Loaded l None
        | Raise e => Raised e
        end
    end.

(** The handler of [ValueError]: what the repair gives, or what was read before the error. *)
Definition recover (data : string) (valid_names : option (list string)) (s : t)
    (cmds : list (list (string * value))) (e : exn) : loaded :=
  match _repair_unclosed_xml data s valid_names with
  | Loaded [] _ =>
      match get_commands cmds with
      | Ok l => Loaded l (Some e)
      | Raise e' => Raised e'
      end
  | r => r
  end.

Definition loads_xml (data : string) (valid_names : option (list string)) : loaded :=
  match loads_pass true valid_names data with
  | Fault => Broken
  | Failed s cmds => recover data valid_names s cmds InvalidXml
  | Passed s cmds =>
      match get_commands cmds with
      | Ok l => Loaded l None
      | Raise e => recover data valid_names s cmds e
      end
  end.

Inductive parse_error := EmptyResponse | NoCommands | ErrorParsing (e : exn).

(** [parse_commands]: the commands, or why there are none; [None] stands for a fault. *)
Definition parse_commands (command_rsp : string) (valid_names : option (list string)) :
    option (list command * option parse_error) :=
  if bool_decide (command_rsp = "") then Some ([], Some EmptyResponse)
  else
    match loads_xml command_rsp valid_names with
    | Loaded [] _ => Some ([], Some NoCommands)
    | Loaded cmds _ => Some (cmds, None)
    | Raised e => Some ([], Some (ErrorParsing e))
    | Broken => None
    end.

(** *** The builder follows the lexer *)

Lemma build_app b l1 l2 :
  build b (l1 ++ l2) = match build b l1 with Some b' => build b' l2 | None => None end.
Proof.
  revert b. induction l1 as [|e l1 IH]; intros b; [done|]. cbn [app build].
  destruct (on_event b e); [apply IH|done].
Qed.

Definition strings (l : list value) : Prop := Forall (fun v => exists s, v = VStr s) l.

Lemma texts_strings l : strings l -> exists s, texts l = Some s.
Proof. induction 1 as [|v l (s & ->) _ (r & IH)]; [by exists ""|]. simpl. rewrite IH. eauto. Qed.

(** The outer dict of a command whose arguments are being read. *)
Definition opened (d : list (string * value)) : Prop :=
  exists n, d = [("command_name", VStr n); ("args", VNone)].

Inductive agrees : t -> builder -> Prop :=
| agrees_first s cmds : state s = SEARCH_FUNCTION -> functions s = [] -> agrees s (mkBuilder None [] [] cmds)
| agrees_search s l cmds :
    state s = SEARCH_FUNCTION -> functions s <> [] -> agrees s (mkBuilder None [] [FList l] cmds)
| agrees_args s d o l cmds :
    state s = PARSE_ARG_NAME -> functions s <> [] -> opened o ->
    agrees s (mkBuilder None ["args"] [FDict d; FDict o; FList l] cmds)
| agrees_unbegun s f fs a as_ k d o l cmds :
    state s = PARSE_ARG_VALUE -> functions s = f :: fs -> args f = a :: as_ -> variable_value a = None ->
    opened o -> agrees s (mkBuilder None [k; "args"] [FDict d; FDict o; FList l] cmds)
| agrees_begun s f fs a as_ v k ss d o l cmds :
    state s = PARSE_ARG_VALUE -> functions s = f :: fs -> args f = a :: as_ -> variable_value a = Some v ->
    strings ss -> opened o ->
    agrees s (mkBuilder None [k; "args"] [FList ss; FDict d; FDict o; FList l] cmds).

Lemma agrees_not_ready s b : agrees s b -> agrees (not_ready s) b.
Proof. destruct 1; [constructor 1|constructor 2|constructor 3|econstructor 4|econstructor 5]; eauto. Qed.

Lemma agrees_well_formed s b : agrees s b -> well_formed s.
Proof.
  unfold well_formed. destruct 1 as [??->|???->|?????->| ??????????->|????????????->]; try done;
    by (eexists _, _; split; [eassumption|]; congruence).
Qed.

Section Follow.
Context (valid_names : option (list string)).

Lemma function_builds s b :
  state s = SEARCH_FUNCTION -> agrees s b ->
  exists delta b', tokens (_search_function_name valid_names s) = tokens s ++ delta
    /\ build b delta = Some b' /\ agrees (_search_function_name valid_names s) b'.
Proof.
  intros Hst Ha. unfold _search_function_name.
  destruct (List.find _ _) as [blk|].
  2:{ exists [], b. rewrite app_nil_r. split_and!; [done|done|by apply agrees_not_ready]. }
  inversion Ha; subst; try congruence.
  - rewrite H0. eexists _, _. split; [done|]. split; [reflexivity|]. constructor 3; [done|done|by eexists].
  - destruct (functions s) as [|f fs] eqn:Hf; [done|]. cbn [app]. eexists _, _. split; [done|].
    split; [reflexivity|]. constructor 3; [done|done|by eexists].
Qed.

Lemma arg_name_builds s b f fs :
  state s = PARSE_ARG_NAME -> functions s = f :: fs -> agrees s b ->
  exists delta b', tokens (_search_arg_name s f fs) = tokens s ++ delta
    /\ build b delta = Some b' /\ agrees (_search_arg_name s f fs) b'.
Proof.
  intros Hst Hf Ha. unfold _search_arg_name. destruct (next_arg _ _) as [blk|i|].
  3:{ exists [], b. rewrite app_nil_r. split_and!; [done|done|by apply agrees_not_ready]. }
  - inversion Ha; subst; try congruence. eexists _, _. split; [done|]. split; [reflexivity|].
    by econstructor 4.
  - inversion Ha as [| |s0 d o l cmds H0 H1 (n & ->)| |]; subst; try congruence. eexists _, _.
    split; [done|]. split; [reflexivity|]. constructor 2; [done|]. cbn. congruence.
Qed.

Lemma piece_builds v k ss p cmds :
  strings ss -> exists ss', build (mkBuilder None k (FList ss :: p) cmds) (piece v)
    = Some (mkBuilder None k (FList ss' :: p) cmds) /\ strings ss'.
Proof.
  intros Hs. unfold piece. destruct (bool_decide (v = "")); [by exists ss|].
  exists (ss ++ [VStr v]). split; [done|]. apply Forall_app. split; [done|]. repeat constructor. by exists v.
Qed.

Lemma arg_value_builds s b f fs a as_ :
  state s = PARSE_ARG_VALUE -> functions s = f :: fs -> args f = a :: as_ -> agrees s b ->
  exists delta b', tokens (_search_arg_value s f fs a as_) = tokens s ++ delta
    /\ build b delta = Some b' /\ agrees (_search_arg_value s f fs a as_) b'.
Proof.
  intros Hst Hf Hargs Ha. unfold _search_arg_value.
  set (idx := Text.find (end_variable_name a) (rcv_buf s)).
  set (me := match idx with Some _ => true | None => false end).
  set (at_ := match idx with Some i => i | None => _ end).
  destruct (_ && _).
  { exists [], b. rewrite app_nil_r. split_and!; [done|done|by apply agrees_not_ready]. }
  unfold _handle_str_type_value.
  set (v := if me then _ else _). set (nv := if bool_decide (v = "") then _ else _).
  inversion Ha as [| | |s0 f0 fs0 a0 as0 k d o l cmds H1 H2 H3 H4 H5
                  |s0 f0 fs0 a0 as0 v0 k ss d o l cmds H1 H2 H3 H4 H5 H6]; subst; try congruence;
    assert (f0 = f /\ fs0 = fs) as [-> ->] by (split; congruence);
    assert (a0 = a /\ as0 = as_) as [-> ->] by (split; congruence); rewrite H4; cbn [tokens].
  - destruct (piece_builds v [k; "args"] [] [FDict d; FDict o; FList l] cmds) as (ss & Hb & Hs); [constructor|].
    destruct me.
    + destruct (texts_strings ss Hs) as (txt & Ht).
      exists ([start_string] ++ piece v ++ [end_string]), (mkBuilder None ["args"] [FDict (Dict.set k (VStr txt) d); FDict o; FList l] cmds).
      split; [done|]. split.
      * change (build (mkBuilder None [k; "args"] [FList []; FDict d; FDict o; FList l] cmds)
                  (piece v ++ [end_string]) = Some (mkBuilder None ["args"] [FDict (Dict.set k (VStr txt) d); FDict o; FList l] cmds)).
        rewrite build_app, Hb. cbn. by rewrite Ht.
      * by constructor 3.
    + exists ([start_string] ++ piece v ++ []), (mkBuilder None [k; "args"] [FList ss; FDict d; FDict o; FList l] cmds).
      split; [done|]. rewrite app_nil_r. split; [exact Hb|]. by econstructor 5.
  - destruct (piece_builds v [k; "args"] ss [FDict d; FDict o; FList l] cmds H5) as (ss' & Hb & Hs).
    destruct me.
    + destruct (texts_strings ss' Hs) as (txt & Ht).
      exists (piece v ++ [end_string]), (mkBuilder None ["args"] [FDict (Dict.set k (VStr txt) d); FDict o; FList l] cmds).
      split; [done|]. split.
      * rewrite build_app, Hb. cbn. by rewrite Ht.
      * by constructor 3.
    + exists (piece v ++ []), (mkBuilder None [k; "args"] [FList ss'; FDict d; FDict o; FList l] cmds).
      split; [done|]. rewrite app_nil_r. split; [exact Hb|]. by econstructor 5.
Qed.

Lemma round_builds s s' b :
  agrees s b -> round valid_names s = Some s' ->
  exists delta b', tokens s' = tokens s ++ delta /\ build b delta = Some b' /\ agrees s' b'.
Proof.
  intros Ha. unfold round. destruct (state s) eqn:Hst.
  - intros [= <-]. by apply function_builds.
  - destruct (functions s) as [|f fs] eqn:Hf; [done|]. intros [= <-]. by apply arg_name_builds.
  - destruct (functions s) as [|f fs] eqn:Hf; [done|]. destruct (args f) as [|a as_] eqn:Hg; [done|].
    intros [= <-]. by apply arg_value_builds.
Qed.

Lemma loop_builds n s s' b :
  agrees s b -> loop valid_names n s = Ran s' ->
  exists delta b', tokens s' = tokens s ++ delta /\ build b delta = Some b' /\ agrees s' b'.
Proof.
  revert s b. induction n as [|n IH]; intros s b Ha; cbn [loop]; destruct (busy s).
  - done.
  - intros [= <-]. exists [], b. by rewrite app_nil_r.
  - destruct (round valid_names s) as [s1|] eqn:Hr; [|done]. intros Hl.
    destruct (round_builds s s1 b Ha Hr) as (d1 & b1 & Ht1 & Hb1 & Ha1).
    destruct (IH s1 b1 Ha1 Hl) as (d2 & b2 & Ht2 & Hb2 & Ha2).
    exists (d1 ++ d2), b2. rewrite Ht2, Ht1, app_assoc. split_and!; [done| |done]. by rewrite build_app, Hb1.
  - intros [= <-]. exists [], b. by rewrite app_nil_r.
Qed.

(** One pass over a text ends, and fails only by an element left open. *)
Lemma loads_pass_total ignore_text xml :
  exists s b, drain valid_names (feed init xml) = Ran s /\ build fresh (tokens s) = Some b
    /\ (state s <> SEARCH_FUNCTION -> loads_pass ignore_text valid_names xml = Failed s (commands b))
    /\ (state s = SEARCH_FUNCTION -> exists s' cmds, loads_pass ignore_text valid_names xml = Passed s' cmds
          /\ functions s' = functions s /\ state s' = SEARCH_FUNCTION
          /\ (functions s = [] -> ignore_text = true -> cmds = commands b)
          /\ (functions s <> [] -> cmds = commands b)).
Proof.
  destruct (drain_total valid_names (feed init xml)) as (s & Hd & Hwf & _); [done|].
  assert (agrees (feed init xml) fresh) as Hinit by (by constructor 1).
  destruct (loop_builds _ _ _ fresh Hinit Hd) as (delta & b & Ht & Hb & Ha).
  cbn in Ht. exists s, b. split; [done|]. rewrite Ht. split; [done|].
  unfold loads_pass, parse_chunk. rewrite Hd, Ht, Hb. split.
  - intros Hn. by rewrite bool_decide_false.
  - intros Hs. rewrite bool_decide_true by done. destruct (functions s) as [|f fs] eqn:Hf.
    + inversion Ha; subst; try congruence. unfold _make_ask_user, with_end. cbn [tokens functions state].
      rewrite build_app, Hb. destruct ignore_text; cbn; eexists _, _; (split; [reflexivity|]);
        cbn; rewrite ?Hs; by split_and!.
    + inversion Ha; subst; try congruence. unfold with_end. cbn [tokens functions state].
      rewrite build_app, Hb. cbn. eexists _, _. split; [reflexivity|]. cbn. rewrite Hf, Hs. by split_and!.
Qed.

End Follow.

Lemma loads_pass_no_fault valid_names ignore_text xml : loads_pass ignore_text valid_names xml <> Fault.
Proof.
  destruct (loads_pass_total valid_names ignore_text xml) as (s & b & _ & _ & Hf & Hp).
  destruct (decide (state s = SEARCH_FUNCTION)) as [Hs|Hs].
  - destruct (Hp Hs) as (s' & cmds & -> & _). done.
  - by rewrite Hf.
Qed.

Lemma get_commands_exn l e : get_commands l = Raise e -> e = ValidationError.
Proof.
  induction l as [|d l IH]; [done|]. cbn [get_commands]. unfold model_validate.
  destruct (Dict.get "command_name" d) as [[]|]; try by intros [= <-].
  destruct (Dict.get "args" d) as [[]|]; try by intros [= <-].
  destruct (get_commands l) as [cs|e']; [done|]. intros [= <-]. by apply IH.
Qed.

Lemma recover_sound valid_names data s cmds e :
  match recover data valid_names s cmds e with
  | Loaded _ _ => True
  | Raised e' => e' = ValidationError
  | Broken => False
  end.
Proof.
  unfold recover, _repair_unclosed_xml.
  assert (match match get_commands cmds with Ok l => Loaded l (Some e) | Raise e' => Raised e' end with
          | Loaded _ _ => True | Raised e' => e' = ValidationError | Broken => False end) as Hg.
  { destruct (get_commands cmds) eqn:E; [done|]. by apply get_commands_exn in E. }
  destruct (bool_decide _); [exact Hg|].
  pose proof (loads_pass_no_fault valid_names true (data +:+ _missing_closers s)) as Hn.
  destruct (loads_pass _ _ _) as [s' c'|s' c'|]; [|exact Hg|done].
  destruct (get_commands c') as [[|c l]|e'] eqn:E; [exact Hg|done|]. by apply get_commands_exn in E.
Qed.

(** Reading an answer ends and never fails unexpectedly. For every text and every set of
    names the lexer's loops end, no stack or list is ever empty where the code indexes it,
    and there are commands exactly when there is no error; the one exception the parser may
    meet is the rejection of a command whose arguments shadow its own fields. *)
Theorem parse_commands_total text valid_names :
  exists cmds err, parse_commands text valid_names = Some (cmds, err)
    /\ (err = None <-> cmds <> [])
    /\ (forall e, err = Some (ErrorParsing e) -> e = ValidationError).
Proof.
  unfold parse_commands. destruct (bool_decide (text = "")).
  { eexists _, _. split; [done|]. split; [done|]. by intros ? [= ]. }
  assert (match loads_xml text valid_names with
          | Loaded _ _ => True
          | Raised e' => e' = ValidationError
          | Broken => False
          end) as H.
  { unfold loads_xml. pose proof (loads_pass_no_fault valid_names true text) as Hn.
    destruct (loads_pass _ _ _) as [s c|s c|]; [|apply recover_sound|done].
    destruct (get_commands c) as [l|e]; [done|apply recover_sound]. }
  destruct (loads_xml text valid_names) as [[|c l] o|e|]; [| | |done]; eexists _, _; (split; [done|]).
  - split; [done|]. by intros ? [= ].
  - split; [done|]. by intros ? [= ].
  - subst e. split; [done|]. by intros ? [= <-].
Qed.

(** *** Examples of the tests *)

Definition nl : string := String "010" "".

Example truncated_value :
  parse_commands ("<Write>" +:+ nl +:+ "<content>" +:+ nl +:+ "if a < b:" +:+ nl +:+ "    g()" +:+ nl)
    (Some ["Write"])
  = Some ([mkCommand "Write" [("content", VStr ("if a < b:" +:+ nl +:+ "    g()"))]], None).
Proof. vm_compute. reflexivity. Qed.

Example prose_only : parse_commands "just prose, no tags" (Some ["Write"]) = Some ([], Some NoCommands).
Proof. vm_compute. reflexivity. Qed.

(** A tool with parameters named [command_name] and [args] breaks the whole answer. *)
Example shadowed_command :
  parse_commands "<f><command_name>x</command_name><args>y</args></f>" None
  = Some ([], Some (ErrorParsing ValidationError)).
Proof. vm_compute. reflexivity. Qed.

(** A stray closing tag hides the arguments that follow it. *)
Example stray_closer_hides_args :
  parse_commands "<f></x><a>1</a></f>" None = Some ([mkCommand "f" []], None).
Proof. vm_compute. reflexivity. Qed.

(** Line ends of a value become line feeds. *)
Example line_ends_lost :
  parse_commands ("<Write><content>a" +:+ String "013" (String "010" "b") +:+ "</content></Write>") None
  = Some ([mkCommand "Write" [("content", VStr ("a" +:+ nl +:+ "b"))]], None).
Proof. vm_compute. reflexivity. Qed.

End CommandParser.
