(* ===== verification/CommandRoundtrip.v ===== *)
(** * Answers and the commands in them

    What an answer of complete command blocks means, and what the repair of
    [kernel/commands/xml/recovery.py] makes of one that was cut off: the texts are built from
    their parts, and the theorems say which commands [parse_commands] reads from them. *)

From S2P Require Import Prelude Text CommandStream CommandParser.
From Stdlib Require Import Ascii String.
From stdpp Require Import base list strings.

Open Scope string_scope.
Open Scope list_scope.
Open Scope mote_scope.
Open Scope Z_scope.

Module CommandDocs.
Import CommandLexer CommandParser.

(** ** Texts of commands *)

Definition opening (name : string) : string := "<" +:+ name +:+ ">".

(** An argument: the text before its tag, its name, and all between its tags. *)
Record arg_block := mkArgBlock { gap : string; aname : string; body : string }.

Record cmd_block := mkCmdBlock { before : string; cname : string; cargs : list arg_block; after : string }.

Definition arg_text (a : arg_block) : string :=
  gap a +:+ opening (aname a) +:+ body a +:+ closing (aname a).

Fixpoint args_text (l : list arg_block) : string :=
  match l with [] => "" | a :: l => arg_text a +:+ args_text l end.

Definition cmd_text (c : cmd_block) : string :=
  before c +:+ opening (cname c) +:+ args_text (cargs c) +:+ after c +:+ closing (cname c).

Fixpoint doc_text (l : list cmd_block) (trailing : string) : string :=
  match l with [] => trailing | c :: l => cmd_text c +:+ doc_text l trailing end.

(** ** What they mean *)

(** The value of an argument: its text without the blank lines around it. *)
Definition clean (body : string) : string := _strip_empty_line_postfix (_strip_empty_line_prefix body).

Definition add_arg (d : list (string * value)) (a : arg_block) : list (string * value) :=
  Dict.set (aname a) (VStr (clean (body a))) d.

Definition raw_args (c : cmd_block) : list (string * value) := foldl add_arg [] (cargs c).

Definition meaning (c : cmd_block) : command := mkCommand (cname c) (_fill_none (raw_args c)).

(** ** The texts considered *)

Definition prose (s : string) : Prop := Text.contains "<" s = false.

Definition name_ok (n : string) : Prop :=
  n <> "" /\ Text.contains "<" n = false /\ Text.contains ">" n = false
  /\ Text.contains " " n = false /\ Text.startswith n "/" = false.

Definition body_ok (n body : string) : Prop := Text.find (closing n) body = None.

Definition arg_ok (a : arg_block) : Prop := prose (gap a) /\ name_ok (aname a) /\ body_ok (aname a) (body a).

Section Valid.
Context (valid_names : option (list string)).

Definition known (n : string) : Prop :=
  match valid_names with None => True | Some names => n ∈ names end.

(** The arguments may not be named like the two fields of a command at once. *)
Definition cmd_ok (c : cmd_block) : Prop :=
  prose (before c) /\ prose (after c) /\ name_ok (cname c) /\ known (cname c)
  /\ Forall arg_ok (cargs c) /\ is_command (raw_args c) = false.

(** *** Elements of a text *)

#[local] Arguments String.append !_ _ / : simpl nomatch.

Lemma finditer_prose pos g s :
  prose g -> finditer_from pos (g +:+ s) = finditer_from (pos + String.length g) s.
Proof.
  unfold prose. revert pos. induction g as [|c g IH]; intros pos; simpl; [by rewrite Nat.add_0_r|].
  intros [Hc Hg]%orb_false_iff. rewrite Hc, IH by done. f_equal. lia.
Qed.

Lemma finditer_prose_nil g : prose g -> finditer g = [].
Proof.
  intros H. unfold finditer. rewrite <- (Text.append_nil_r g), finditer_prose by done. done.
Qed.

Lemma name_run_ok n s :
  Text.contains "<" n = false -> Text.contains ">" n = false ->
  name_run (n +:+ String ">" s) = (n, String ">" s).
Proof.
  induction n as [|c n IH]; simpl; [done|]. intros [H1 H2]%orb_false_iff [H3 H4]%orb_false_iff.
  unfold is_angle. rewrite H1, H3. simpl. by rewrite IH.
Qed.

(** The first element of a text that starts with prose and then a tag. *)
Lemma finditer_tag g n s :
  prose g -> n <> "" -> Text.contains "<" n = false -> Text.contains ">" n = false ->
  exists bs, finditer (g +:+ opening n +:+ s)
    = mkBlock (String.length g) n (String.length g + String.length n + 2) :: bs.
Proof.
  intros Hg Hn H1 H2. unfold finditer. rewrite finditer_prose by done.
  unfold opening. rewrite <- !Text.append_assoc. cbn [String.append finditer_from].
  rewrite bool_decide_true by done. unfold block_at. rewrite name_run_ok by done.
  destruct n as [|c n]; [done|]. cbv iota. rewrite bool_decide_true by done. by eexists.
Qed.

Lemma drop_tag g n s :
  Text.drop_chars (String.length g + String.length n + 2) (g +:+ opening n +:+ s) = s.
Proof.
  rewrite Text.append_assoc. replace (String.length g + String.length n + 2)%nat
    with (String.length (g +:+ opening n)) by (unfold opening; rewrite !Text.append_length; simpl; lia).
  apply Text.drop_app.
Qed.

Lemma opening_slash n : closing n = opening ("/" +:+ n).
Proof. done. Qed.

(** *** Finding a closing tag *)

Lemma prefix_cut q b r :
  Text.contains "<" q = false -> String.prefix q (b +:+ String "<" r) = String.prefix q b.
Proof.
  revert b. induction q as [|c q IH]; intros b; [by destruct b|]. simpl. intros [Hc Hq]%orb_false_iff.
  destruct b as [|d b]; simpl.
  - destruct (ascii_dec c "<"); [by subst|done].
  - destruct (ascii_dec c d); [by apply IH|done].
Qed.

Lemma find_closing n b s :
  Text.contains "<" n = false -> body_ok n b ->
  Text.find (closing n) (b +:+ closing n +:+ s) = Some (String.length b).
Proof.
  unfold body_ok. intros Hn. induction b as [|c b IH]; intros Hb.
  - cbn [String.append]. destruct (closing n +:+ s) as [|c r] eqn:E; [done|]. cbn [Text.find].
    by rewrite <- E, Text.prefix_refl_app.
  - cbn [Text.find] in Hb. destruct (String.prefix (closing n) (String c b)) eqn:Hp; [done|].
    destruct (Text.find (closing n) b) eqn:Hf; [done|]. cbn [String.append Text.find].
    assert (String.prefix (closing n) (String c (b +:+ closing n +:+ s)) = false) as ->.
    { unfold closing in Hp |- *. cbn [String.append] in Hp |- *. rewrite Text.prefix_cons in Hp |- *.
      destruct (bool_decide _); [|done]. cbn [andb] in Hp |- *. etrans; [|exact Hp].
      apply (prefix_cut (String "/" (n +:+ ">"))). cbn [Text.contains].
      rewrite Text.contains_app, Hn. done. }
    by rewrite IH.
Qed.

Lemma find_prose n g : prose g -> body_ok n g.
Proof.
  unfold prose, body_ok. induction g as [|c g IH]; [done|]. cbn [Text.contains Text.find].
  intros [Hc Hg]%orb_false_iff. unfold closing. cbn [String.append]. rewrite Text.prefix_cons.
  destruct (bool_decide_reflect ("<"%char = c)) as [<-|]; [by rewrite bool_decide_true in Hc|].
  cbn [andb]. fold (closing n) in IH. cbn [String.append] in IH. unfold closing in IH.
  cbn [String.append] in IH. by rewrite IH.
Qed.

(** A text without the tag has none in its tails. *)
Lemma find_drop_none p k s : Text.find p s = None -> Text.find p (Text.drop_chars k s) = None.
Proof.
  revert s. induction k as [|k IH]; intros s Hs; [by destruct s|]. destruct s as [|c s]; [done|].
  cbn [Text.drop_chars]. apply IH. cbn [Text.find] in Hs.
  destruct (String.prefix p (String c s)); [done|]. by destruct (Text.find p s).
Qed.

Lemma strip_props_ok n : Text.contains " " n = false -> _strip_props n = n.
Proof. intros H. unfold _strip_props. by rewrite Text.partition_absent. Qed.

(** *** The lexer on the parts *)

Lemma prefix_contains c p s : String.prefix p s = true -> Text.contains c p = true -> Text.contains c s = true.
Proof.
  revert s. induction p as [|d p IH]; intros s; [done|]. destruct s as [|e s]; [done|].
  rewrite Text.prefix_cons. cbn [Text.contains]. intros [Hd Hp]%andb_prop.
  apply bool_decide_eq_true in Hd as ->. intros [->|H]%orb_prop; [done|]. by rewrite (IH s Hp H), orb_true_r.
Qed.

Lemma detect_ok i j n : name_ok n -> _detect_variable (mkBlock i n j) = true.
Proof.
  intros (_ & _ & _ & Hs & Hc). unfold _detect_variable. cbn [group]. rewrite Hc. cbn [negb andb].
  destruct (Text.startswith n xml_declaration) eqn:E; [|done].
  apply (prefix_contains " ") in E; [congruence|done].
Qed.

Lemma detect_closing i j n : _detect_variable (mkBlock i ("/" +:+ n) j) = false.
Proof.
  unfold _detect_variable. cbn [group]. unfold Text.startswith.
  change ("/" +:+ n) with ("/" +:+ n). by rewrite Text.prefix_refl_app.
Qed.

Lemma tag_busy toks fs g n s st th :
  busy (mk toks fs (g +:+ opening n +:+ s) true st th) = true.
Proof.
  unfold busy. cbn [is_rcv_buf_ready rcv_buf andb]. unfold opening. by destruct g.
Qed.

Lemma run_function toks fs b n s th :
  prose b -> name_ok n -> known n ->
  exists th', drain valid_names (mk toks fs (b +:+ opening n +:+ s) true SEARCH_FUNCTION th)
    = drain valid_names (mk (toks ++ (match fs with [] => [start_array] | _ => [] end) ++ function_tokens n)
        (mkFunction n [] :: fs) s true PARSE_ARG_NAME th').
Proof.
  intros Hb Hn Hk. eexists. apply drain_step; [done|apply tag_busy|].
  cbn [round state]. f_equal. unfold _search_function_name. cbn [rcv_buf].
  destruct Hn as (Hne & H1 & H2 & H3 & H4).
  destruct (finditer_tag b n s Hb Hne H1 H2) as (bs & ->). cbn [List.find].
  assert (is_function valid_names (mkBlock (String.length b) n (String.length b + String.length n + 2)) = true) as ->.
  { unfold is_function. cbn [group]. rewrite H4. unfold known in Hk. destruct valid_names as [l|]; [|done].
    by rewrite bool_decide_true. }
  cbn [group stop start]. rewrite strip_props_ok, drop_tag by done. reflexivity.
Qed.

Lemma run_arg_name toks fn as_ fs g n s th :
  prose g -> name_ok n ->
  drain valid_names (mk toks (mkFunction fn as_ :: fs) (g +:+ opening n +:+ s) true PARSE_ARG_NAME th)
  = drain valid_names (mk (toks ++ [map_key n]) (mkFunction fn (mkArg n None :: as_) :: fs) s true PARSE_ARG_VALUE th).
Proof.
  intros Hg Hn. apply drain_step; [done|apply tag_busy|]. cbn [round state functions].
  f_equal. unfold _search_arg_name. cbn [rcv_buf]. destruct Hn as (Hne & H1 & H2 & H3 & H4).
  destruct (finditer_tag g n s Hg Hne H1 H2) as (bs & ->). cbn [next_arg].
  rewrite detect_ok by (by split_and!). cbn [group stop]. by rewrite strip_props_ok, drop_tag.
Qed.

Lemma run_value toks fn as_ fs n b s th :
  name_ok n -> body_ok n b ->
  exists v, drain valid_names (mk toks (mkFunction fn (mkArg n None :: as_) :: fs) (b +:+ closing n +:+ s) true PARSE_ARG_VALUE th)
  = drain valid_names (mk (toks ++ [start_string] ++ piece (clean b) ++ [end_string])
      (mkFunction fn (mkArg n v :: as_) :: fs) s true PARSE_ARG_NAME th).
Proof.
  intros (_ & Hn & _) Hb. eexists. apply drain_step.
  { by eexists _, _. } { rewrite opening_slash. apply tag_busy. }
  cbn [round state functions args]. f_equal. unfold _search_arg_value.
  change (end_variable_name (mkArg n None)) with (closing n). cbn [rcv_buf].
  rewrite find_closing by done. rewrite andb_false_r. rewrite Text.take_app.
  replace (String.length b + String.length (closing n))%nat with (String.length (b +:+ closing n))
    by apply Text.append_length.
  rewrite Text.append_assoc, Text.drop_app. reflexivity.
Qed.

(** The lexer at the end of a function. *)
Lemma run_close toks n as_ fs g s th :
  prose g -> name_ok n ->
  drain valid_names (mk toks (mkFunction n as_ :: fs) (g +:+ closing n +:+ s) true PARSE_ARG_NAME th)
  = drain valid_names (mk (toks ++ [end_map; end_map]) (mkFunction n as_ :: fs) s true SEARCH_FUNCTION th).
Proof.
  intros Hg (_ & H1 & H2 & _ & _). apply drain_step; [done|rewrite opening_slash; apply tag_busy|].
  cbn [round state functions]. f_equal. unfold _search_arg_name. cbn [rcv_buf].
  change (end_function_name (mkFunction n as_)) with (closing n).
  rewrite find_closing by (done || by apply find_prose).
  destruct (finditer_tag g ("/" +:+ n) s) as (bs & E); [done|done|done|done|].
  rewrite <- opening_slash in E. rewrite E. cbn [next_arg]. rewrite detect_closing.
  replace (String.length g + String.length (closing n))%nat with (String.length (g +:+ closing n))
    by apply Text.append_length.
  by rewrite Text.append_assoc, Text.drop_app.
Qed.

(** ** Tokens of an answer *)

Definition arg_tokens (a : arg_block) : list token :=
  [map_key (aname a); start_string] ++ piece (clean (body a)) ++ [end_string].

Definition args_tokens (l : list arg_block) : list token := concat (arg_tokens <$> l).

Definition cmd_tokens (c : cmd_block) : list token :=
  function_tokens (cname c) ++ args_tokens (cargs c) ++ [end_map; end_map].

Lemma run_args toks fn as_ fs l s th :
  Forall arg_ok l ->
  exists as', drain valid_names (mk toks (mkFunction fn as_ :: fs) (args_text l +:+ s) true PARSE_ARG_NAME th)
    = drain valid_names (mk (toks ++ args_tokens l) (mkFunction fn as' :: fs) s true PARSE_ARG_NAME th).
Proof.
  intros H. revert toks as_. induction H as [|a l (Hg & Hn & Hb) _ IH]; intros toks as_; cbn [args_text].
  { exists as_. unfold args_tokens. simpl. by rewrite app_nil_r. }
  unfold arg_text. rewrite <- !Text.append_assoc, run_arg_name by done.
  destruct (run_value (toks ++ [map_key (aname a)]) fn as_ fs (aname a) (body a) (args_text l +:+ s) th Hn Hb)
    as (v & ->).
  destruct (IH ((toks ++ [map_key (aname a)]) ++ [start_string] ++ piece (clean (body a)) ++ [end_string])
              (mkArg (aname a) v :: as_)) as (as' & ->).
  exists as'. f_equal. f_equal. unfold args_tokens, arg_tokens. rewrite fmap_cons. cbn [concat].
  by rewrite <- !app_assoc.
Qed.

(** The lexer up to the arguments of a function. *)
Lemma run_head toks fs c s th :
  prose (before c) -> name_ok (cname c) -> known (cname c) -> Forall arg_ok (cargs c) ->
  exists as' th', drain valid_names (mk toks fs (before c +:+ opening (cname c) +:+ args_text (cargs c) +:+ s) true SEARCH_FUNCTION th)
    = drain valid_names (mk ((toks ++ match fs with [] => [start_array] | _ => [] end)
          ++ function_tokens (cname c) ++ args_tokens (cargs c))
        (mkFunction (cname c) as' :: fs) s true PARSE_ARG_NAME th').
Proof.
  intros Hb Hn Hk Ha. destruct (run_function toks fs (before c) (cname c) (args_text (cargs c) +:+ s) th Hb Hn Hk)
    as (th' & ->).
  destruct (run_args (toks ++ (match fs with [] => [start_array] | _ => [] end) ++ function_tokens (cname c))
    (cname c) [] fs (cargs c) s th' Ha) as (as' & ->).
  exists as', th'. by rewrite <- !app_assoc.
Qed.

Lemma run_cmd toks fs c s th :
  cmd_ok c ->
  exists fs' th', drain valid_names (mk toks fs (cmd_text c +:+ s) true SEARCH_FUNCTION th)
    = drain valid_names (mk ((toks ++ match fs with [] => [start_array] | _ => [] end) ++ cmd_tokens c)
        fs' s true SEARCH_FUNCTION th')
    /\ fs' <> [].
Proof.
  intros (Hb & Ha & Hn & Hk & Hargs & _). unfold cmd_text. rewrite <- !Text.append_assoc.
  destruct (run_head toks fs c (after c +:+ closing (cname c) +:+ s) th Hb Hn Hk Hargs) as (as' & th' & ->).
  rewrite run_close by done. eexists (_ :: _), _. split; [|done]. f_equal. f_equal. unfold cmd_tokens.
  by rewrite <- !app_assoc.
Qed.

Definition docs_tokens (l : list cmd_block) : list token := concat (cmd_tokens <$> l).

(** The array of commands is opened before the first. *)
Definition opens (fs : list FunctionObject) : list token := match fs with [] => [start_array] | _ => [] end.

Definition opens_docs (fs : list FunctionObject) (l : list cmd_block) : list token :=
  match l with [] => [] | _ => opens fs end.

Lemma run_docs toks fs l s th :
  Forall cmd_ok l ->
  exists fs' th', drain valid_names (mk toks fs (doc_text l s) true SEARCH_FUNCTION th)
    = drain valid_names (mk (toks ++ opens_docs fs l ++ docs_tokens l) fs' s true SEARCH_FUNCTION th')
    /\ (fs' = [] <-> fs = [] /\ l = []).
Proof.
  intros H. revert toks fs th. induction H as [|c l Hc _ IH]; intros toks fs th; cbn [doc_text].
  { exists fs, th. unfold docs_tokens. simpl. rewrite app_nil_r. split; [done|]. tauto. }
  destruct (run_cmd toks fs c (doc_text l s) th Hc) as (fs1 & th1 & -> & Hfs1).
  destruct (IH ((toks ++ match fs with [] => [start_array] | _ => [] end) ++ cmd_tokens c) fs1 th1)
    as (fs2 & th2 & -> & Hfs2).
  exists fs2, th2. split.
  - f_equal. f_equal. unfold docs_tokens, opens_docs. rewrite fmap_cons. cbn [concat].
    destruct fs1 as [|? ?]; [done|]. assert (match l with [] => [] | _ => opens (f :: fs1) end = []) as -> by (by destruct l).
    cbn [app]. by rewrite <- !app_assoc.
  - rewrite Hfs2. split; [by intros [-> _]|by intros [_ ?]].
Qed.

(** *** The builder on the tokens *)

Definition outer (c : cmd_block) : list (string * value) :=
  [("command_name", VStr (cname c)); ("args", VDict (raw_args c))].

Lemma build_arg d o p a cmds :
  build (mkBuilder None ["args"] (FDict d :: o :: p) cmds) (arg_tokens a)
  = Some (mkBuilder None ["args"] (FDict (add_arg d a) :: o :: p) cmds).
Proof.
  unfold arg_tokens, add_arg, piece. destruct (bool_decide_reflect (clean (body a) = "")) as [->|Hne];
    cbn; rewrite ?Text.append_nil_r; by rewrite Dict.set_set.
Qed.

Lemma build_args d o p l cmds :
  build (mkBuilder None ["args"] (FDict d :: o :: p) cmds) (args_tokens l)
  = Some (mkBuilder None ["args"] (FDict (foldl add_arg d l) :: o :: p) cmds).
Proof.
  unfold args_tokens. revert d. induction l as [|a l IH]; intros d; [done|]. rewrite fmap_cons. cbn [concat foldl].
  by rewrite build_app, build_arg, IH.
Qed.

Lemma build_cmd l cmds c :
  is_command (raw_args c) = false ->
  build (mkBuilder None [] [FList l] cmds) (cmd_tokens c)
  = Some (mkBuilder None [] [FList (l ++ [VDict (outer c)])] (cmds ++ [outer c])).
Proof.
  intros H. unfold cmd_tokens. rewrite build_app.
  assert (build (mkBuilder None [] [FList l] cmds) (function_tokens (cname c))
    = Some (mkBuilder None ["args"] [FDict []; FDict [("command_name", VStr (cname c)); ("args", VNone)]; FList l] cmds)) as ->
    by (cbn; by rewrite Text.append_nil_r). rewrite build_app, build_args. fold (raw_args c). cbn. by rewrite H.
Qed.

Lemma build_docs l0 cmds l :
  Forall (fun c => is_command (raw_args c) = false) l ->
  build (mkBuilder None [] [FList l0] cmds) (docs_tokens l)
  = Some (mkBuilder None [] [FList (l0 ++ ((fun c => VDict (outer c)) <$> l))] (cmds ++ (outer <$> l))).
Proof.
  intros H. unfold docs_tokens. revert l0 cmds. induction H as [|c l Hc _ IH]; intros l0 cmds.
  { simpl. by rewrite !app_nil_r. }
  rewrite !fmap_cons. cbn [concat]. rewrite build_app, build_cmd, IH by done. by rewrite <- !app_assoc.
Qed.

Lemma get_outer l : get_commands (outer <$> l) = Ok (meaning <$> l).
Proof. induction l as [|c l IH]; [done|]. rewrite !fmap_cons. cbn [get_commands]. by rewrite IH. Qed.

(** ** Whole answers *)

Lemma doc_drain l trailing :
  Forall cmd_ok l -> prose trailing ->
  exists s, drain valid_names (feed init (doc_text l trailing)) = Ran s
    /\ tokens s = opens_docs [] l ++ docs_tokens l /\ state s = SEARCH_FUNCTION /\ (functions s = [] <-> l = []).
Proof.
  intros Hl Ht. destruct (run_docs [] [] l trailing [] Hl) as (fs & th & E & Hfs).
  unfold feed, init. cbn [tokens functions rcv_buf state thinking_buf String.append]. rewrite E. clear E.
  destruct (bool_decide_reflect (trailing = "")) as [->|Hne].
  - rewrite drain_idle by done. eexists. split; [done|]. cbn. split_and!; [done|done|]. rewrite Hfs. tauto.
  - erewrite drain_step; [|done|by unfold busy; cbn; rewrite bool_decide_false|reflexivity].
    unfold _search_function_name. cbn [rcv_buf]. rewrite finditer_prose_nil by done. cbn [List.find].
    rewrite drain_idle by done. eexists. split; [done|]. cbn. split_and!; [done|done|]. rewrite Hfs. tauto.
Qed.

Lemma doc_pass l trailing :
  Forall cmd_ok l -> prose trailing ->
  exists s, loads_pass true valid_names (doc_text l trailing) = Passed s (outer <$> l).
Proof.
  intros Hl Ht. destruct (doc_drain l trailing Hl Ht) as (s & Hd & Htok & Hst & Hfs).
  destruct (loads_pass_total valid_names true (doc_text l trailing)) as (s2 & b & Hd2 & Hb & _ & Hp).
  assert (s2 = s) as -> by congruence. destruct (Hp Hst) as (s' & cmds & Hpass & _ & _ & H1 & H2).
  exists s'. rewrite Hpass. f_equal. assert (commands b = outer <$> l) as <-.
  { rewrite Htok in Hb. destruct l as [|c l]; [by injection Hb as <-|].
    change (opens_docs [] (c :: l)) with [start_array] in Hb. cbn [app] in Hb.
    change (build (mkBuilder None [] [FList []] []) (docs_tokens (c :: l)) = Some b) in Hb.
    rewrite build_docs in Hb; [by injection Hb as <-|]. eapply Forall_impl; [exact Hl|]. by intros x (_ & _ & _ & _ & _ & ?). }
  destruct (functions s); [by apply H1|by apply H2].
Qed.

Lemma doc_loads l trailing :
  Forall cmd_ok l -> prose trailing ->
  loads_xml (doc_text l trailing) valid_names = Loaded (meaning <$> l) None.
Proof.
  intros Hl Ht. unfold loads_xml. destruct (doc_pass l trailing Hl Ht) as (s & ->). by rewrite get_outer.
Qed.

Lemma doc_text_nonempty l s : l <> [] -> doc_text l s <> "".
Proof.
  destruct l as [|c l]; [done|]. intros _. cbn [doc_text]. unfold cmd_text, opening. by destruct (before c).
Qed.

Lemma doc_text_tail l s : s <> "" -> doc_text l s <> "".
Proof. destruct l as [|c l]; [done|]. intros _. by apply doc_text_nonempty. Qed.

(** C27: Complete answers are read exactly. From any number of command blocks with known
    names, with text before, between and after their tags, and arguments whose texts may
    hold brackets and line ends but not their own closing tag, [parse_commands] returns the
    commands in order, each with its arguments: the text of the last tag of a name, without
    the blank lines around it, and [None] for the word "None". *)
Theorem answer_read l trailing :
  Forall cmd_ok l -> prose trailing ->
  parse_commands (doc_text l trailing) valid_names
  = Some (meaning <$> l,
          match l with
          | [] => Some (if bool_decide (trailing = "") then EmptyResponse else NoCommands)
          | _ => None
          end).
Proof.
  intros Hl Ht. unfold parse_commands. rewrite doc_loads by done. destruct l as [|c l]; cbn [doc_text].
  - by destruct (bool_decide (trailing = "")).
  - rewrite bool_decide_false by (by apply (doc_text_nonempty (c :: l))). done.
Qed.

(** *** Answers that were cut off *)

(** A command that was cut off between its arguments. *)
Definition open_text (c : cmd_block) : string :=
  before c +:+ opening (cname c) +:+ args_text (cargs c) +:+ after c.

(** The same command with one more argument, which was cut off inside its text. *)
Definition cut_text (c : cmd_block) (a : arg_block) : string :=
  before c +:+ opening (cname c) +:+ args_text (cargs c) +:+ gap a +:+ opening (aname a) +:+ body a.

Definition extend (c : cmd_block) (a : arg_block) : cmd_block :=
  mkCmdBlock (before c) (cname c) (cargs c ++ [a]) "".

Lemma args_text_app l1 l2 : args_text (l1 ++ l2) = args_text l1 +:+ args_text l2.
Proof. induction l1 as [|a l1 IH]; [done|]. cbn [app args_text]. by rewrite IH, Text.append_assoc. Qed.

Lemma doc_text_app l s t : doc_text l s +:+ t = doc_text l (s +:+ t).
Proof. induction l as [|c l IH]; [done|]. cbn [doc_text]. by rewrite <- Text.append_assoc, IH. Qed.

Lemma doc_text_snoc l c : doc_text (l ++ [c]) "" = doc_text l (cmd_text c).
Proof. induction l as [|d l IH]; cbn [app doc_text]; [by rewrite Text.append_nil_r|]. by rewrite IH. Qed.

Lemma open_closed c : open_text c +:+ closing (cname c) = cmd_text c.
Proof. unfold open_text, cmd_text. by rewrite <- !Text.append_assoc. Qed.

Lemma cut_closed c a : cut_text c a +:+ closing (aname a) +:+ closing (cname c) = cmd_text (extend c a).
Proof.
  unfold cut_text, cmd_text, extend. cbn [before cname cargs after]. rewrite args_text_app. cbn [args_text].
  unfold arg_text. rewrite Text.append_nil_r, <- !Text.append_assoc. done.
Qed.

(** The lexer waits inside the value. *)
Lemma value_open toks fn a as_ fs b th :
  Text.find (end_variable_name a) b = None ->
  exists s v, drain valid_names (mk toks (mkFunction fn (a :: as_) :: fs) b true PARSE_ARG_VALUE th) = Ran s
    /\ state s = PARSE_ARG_VALUE /\ functions s = mkFunction fn (mkArg (variable_name a) v :: as_) :: fs.
Proof.
  intros Hf. destruct (bool_decide_reflect (b = "")) as [->|Hne].
  { rewrite drain_idle by done. destruct a as [n v]. by eexists _, v. }
  set (n := (String.length b - String.length (end_variable_name a))%nat).
  assert (forall toks a' b, variable_name a' = variable_name a -> Text.find (end_variable_name a) b = None ->
    (String.length b <= String.length (end_variable_name a))%nat ->
    exists s v, drain valid_names (mk toks (mkFunction fn (a' :: as_) :: fs) b true PARSE_ARG_VALUE th) = Ran s
      /\ state s = PARSE_ARG_VALUE /\ functions s = mkFunction fn (mkArg (variable_name a) v :: as_) :: fs) as Hshort.
  { clear. intros toks [m v] b Hm Hf Hl. cbn in Hm. subst m.
    destruct (bool_decide_reflect (b = "")) as [->|Hne]; [rewrite drain_idle by done; by eexists _, v|].
    erewrite drain_step; [|by eexists _, _|by unfold busy; cbn; rewrite bool_decide_false|reflexivity].
    unfold _search_arg_value. cbn [rcv_buf].
    change (end_variable_name (mkArg (variable_name a) v)) with (end_variable_name a). rewrite Hf.
    replace (String.length b - String.length (end_variable_name a))%nat with 0%nat by lia.
    assert (Text.take_chars 0 b = "") as -> by (by destruct b). cbn [negb andb bool_decide decide_rel].
    rewrite drain_idle by done. by eexists _, v. }
  destruct (decide (n = 0%nat)) as [Hn|Hn]; [apply Hshort; [done|done|subst n; lia]|].
  erewrite drain_step; [|by eexists _, _|by unfold busy; cbn; rewrite bool_decide_false|reflexivity].
  unfold _search_arg_value. cbn [rcv_buf]. rewrite Hf. fold n.
  rewrite (bool_decide_false (Text.take_chars n b = "")).
  2:{ intros E. apply (f_equal String.length) in E. rewrite Text.take_length in E by (subst n; lia). done. }
  cbn [negb andb]. destruct (_handle_str_type_value a _ false) as [[a' mb] v'] eqn:Hh.
  apply Hshort; [|by apply find_drop_none|rewrite Text.drop_length; subst n; lia].
  unfold _handle_str_type_value in Hh. by injection Hh as <- _ _.
Qed.

(** A pass over an answer that ends inside a command fails, and the repair appends what is
    missing. *)
Lemma repaired l c text tail closers as_ toks fs th s :
  drain valid_names (feed init text) = drain valid_names (mk toks (mkFunction (cname c) as_ :: fs) tail true s th) ->
  (exists s', drain valid_names (mk toks (mkFunction (cname c) as_ :: fs) tail true s th) = Ran s'
     /\ state s' <> SEARCH_FUNCTION /\ _missing_closers s' = closers) ->
  closers <> "" -> text <> "" -> text +:+ closers = doc_text (l ++ [c]) "" ->
  Forall cmd_ok (l ++ [c]) ->
  parse_commands text valid_names = Some (meaning <$> (l ++ [c]), None).
Proof.
  intros E (s' & Hd & Hst & Hcl) Hne Htext Hdoc Hok. rewrite Hd in E.
  destruct (loads_pass_total valid_names true text) as (s2 & b & Hd2 & _ & Hp & _).
  assert (s2 = s') as -> by congruence. unfold parse_commands. rewrite bool_decide_false by done.
  unfold loads_xml. rewrite Hp by done. unfold recover, _repair_unclosed_xml. rewrite Hcl.
  rewrite bool_decide_false by done. rewrite Hdoc.
  destruct (doc_pass (l ++ [c]) "" Hok) as (s3 & ->); [done|]. rewrite get_outer.
  destruct (meaning <$> l ++ [c]) as [|m ms] eqn:Hm; [|done]. by destruct l.
Qed.

(** The lexer at the place where the answer was cut. *)
Lemma cut_drain l c tail :
  Forall cmd_ok l -> prose (before c) -> name_ok (cname c) -> known (cname c) -> Forall arg_ok (cargs c) ->
  exists toks as_ fs th,
    drain valid_names (feed init (doc_text l (before c +:+ opening (cname c) +:+ args_text (cargs c) +:+ tail)))
    = drain valid_names (mk toks (mkFunction (cname c) as_ :: fs) tail true PARSE_ARG_NAME th).
Proof.
  intros Hl Hb Hn Hk Ha.
  destruct (run_docs [] [] l (before c +:+ opening (cname c) +:+ args_text (cargs c) +:+ tail) [] Hl)
    as (fs & th & E & _).
  unfold feed, init. cbn [tokens functions rcv_buf state thinking_buf String.append]. rewrite E.
  destruct (run_head ([] ++ opens_docs [] l ++ docs_tokens l) fs c tail th Hb Hn Hk Ha) as (as' & th' & ->).
  eauto.
Qed.

(** C28: A cut answer is repaired. When the output ends inside a command, between two
    arguments or inside the text of one, [parse_commands] returns the complete commands
    before it and the cut one with everything it had: the finished arguments, and the text
    of the unfinished one up to the cut. *)
Theorem answer_repaired l c :
  Forall cmd_ok l -> cmd_ok c ->
  parse_commands (doc_text l (open_text c)) valid_names = Some (meaning <$> (l ++ [c]), None)
  /\ forall a, arg_ok a -> is_command (raw_args (extend c a)) = false ->
       parse_commands (doc_text l (cut_text c a)) valid_names = Some (meaning <$> (l ++ [extend c a]), None).
Proof.
  intros Hl Hc. pose proof Hc as (Hb & Haf & Hn & Hk & Hargs & _). split.
  - destruct (cut_drain l c (after c) Hl Hb Hn Hk Hargs) as (toks & as_ & fs & th & E).
    eapply (repaired l c _ (after c) (closing (cname c))); [exact E| |done| | |].
    + assert (exists s', drain valid_names (mk toks (mkFunction (cname c) as_ :: fs) (after c) true PARSE_ARG_NAME th) = Ran s'
         /\ state s' = PARSE_ARG_NAME /\ functions s' = mkFunction (cname c) as_ :: fs) as (s' & H1 & H2 & H3).
      { destruct (bool_decide_reflect (after c = "")) as [->|Hne]; [rewrite drain_idle by done; by eexists|].
        erewrite drain_step; [|done|by unfold busy; cbn; rewrite bool_decide_false|reflexivity].
        unfold _search_arg_name. cbn [rcv_buf]. rewrite finditer_prose_nil by done. cbn [next_arg].
        rewrite drain_idle by done. by eexists. }
      exists s'. split_and!; [done|by rewrite H2|]. unfold _missing_closers. by rewrite H3, H2.
    + apply doc_text_tail. unfold open_text, cut_text, opening. by destruct (before c).
    + rewrite doc_text_app, doc_text_snoc. f_equal. apply open_closed.
    + apply Forall_app. split; [done|by apply Forall_singleton].
  - intros a (Hg & Han & Hbody) Hcmd.
    destruct (cut_drain l c (gap a +:+ opening (aname a) +:+ body a) Hl Hb Hn Hk Hargs) as (toks & as_ & fs & th & E).
    rewrite run_arg_name in E by done.
    eapply (repaired l (extend c a) _ (body a) (closing (aname a) +:+ closing (cname c))); [exact E| |done| | |].
    + destruct (value_open (toks ++ [map_key (aname a)]) (cname c) (mkArg (aname a) None) as_ fs (body a) th Hbody)
        as (s & v & H1 & H2 & H3).
      exists s. split_and!; [done|by rewrite H2|]. unfold _missing_closers. by rewrite H3, H2.
    + apply doc_text_tail. unfold open_text, cut_text, opening. by destruct (before c).
    + rewrite doc_text_app, doc_text_snoc. f_equal. apply cut_closed.
    + apply Forall_app. split; [done|]. apply Forall_singleton. split_and!; cbn [extend before after cname cargs]; try done.
      apply Forall_app. split; [done|]. by apply Forall_singleton.
Qed.

End Valid.

(** *** Values between line ends

    A block of whole lines, set on lines of its own between its tags, is read as it is. *)
Definition whole_line (line : string) : Prop := Text.forall_chars (fun c => negb (Text.is_line_end c)) line = true.

Lemma lines_from_line k acc x s :
  whole_line x ->
  Text.lines_from k acc (x +:+ nl +:+ s)
  = (if k then acc +:+ x +:+ nl else acc +:+ x) :: Text.lines_from k "" s.
Proof.
  unfold whole_line. revert acc. induction x as [|c x IH]; intros acc.
  - intros _. unfold nl. cbn. destruct s; [by destruct k; rewrite ?Text.append_nil_r|].
    by destruct k; rewrite ?Text.append_nil_r.
  - cbn [Text.forall_chars]. intros [Hc Hx]%andb_prop. apply negb_true_iff in Hc.
    change (Text.lines_from k acc (String c x +:+ nl +:+ s))
      with (Text.lines_from k acc (String c (x +:+ nl +:+ s))). cbn [Text.lines_from]. rewrite Hc.
    rewrite IH by done. rewrite <- !Text.append_assoc. done.
Qed.

Lemma lines_join k lines :
  lines <> [] -> Forall whole_line lines ->
  Text.lines_from k "" (Text.join nl lines +:+ nl) = if k then (fun l => l +:+ nl) <$> lines else lines.
Proof.
  intros Hne H. induction H as [|x lines Hx Hl IH]; [done|]. destruct lines as [|y lines].
  - cbn [Text.join]. rewrite <- (Text.append_nil_r nl) at 1. rewrite lines_from_line by done. by destruct k.
  - change (Text.join nl (x :: y :: lines)) with (x +:+ nl +:+ Text.join nl (y :: lines)).
    rewrite <- !Text.append_assoc, lines_from_line, IH by done. by destruct k.
Qed.

Lemma concat_lines lines :
  lines <> [] -> Text.concat ((fun l => l +:+ nl) <$> lines) = Text.join nl lines +:+ nl.
Proof.
  induction lines as [|x lines IH]; [done|]. intros _. destruct lines as [|y lines].
  - cbn. by rewrite Text.append_nil_r.
  - rewrite fmap_cons. cbn [Text.concat]. rewrite IH by done.
    change (Text.join nl (x :: y :: lines)) with (x +:+ nl +:+ Text.join nl (y :: lines)).
    by rewrite <- !Text.append_assoc.
Qed.

Lemma upto_last_all lines y : last lines = Some y -> blank y = false -> upto_last lines = lines.
Proof.
  intros Hl Hy. induction lines as [|x lines IH]; [done|]. cbn [upto_last]. destruct lines as [|z lines].
  - injection Hl as ->. cbn. by rewrite Hy.
  - rewrite IH by done. done.
Qed.

Lemma blank_app_nl x : blank (x +:+ nl) = blank x.
Proof.
  unfold blank. apply bool_decide_ext. rewrite !Text.strip_nil, Text.forall_chars_app. cbn.
  by rewrite andb_true_r.
Qed.

Lemma clean_lines first rest last_ :
  Forall whole_line (first :: rest) -> last (first :: rest) = Some last_ ->
  blank first = false -> blank last_ = false ->
  clean (nl +:+ Text.join nl (first :: rest) +:+ nl) = Text.join nl (first :: rest).
Proof.
  intros Hl Hlast Hf Hb. unfold clean.
  assert (_strip_empty_line_prefix (nl +:+ Text.join nl (first :: rest) +:+ nl) = Text.join nl (first :: rest) +:+ nl) as ->.
  { unfold _strip_empty_line_prefix, Text.splitlines_keepends.
    change (nl +:+ Text.join nl (first :: rest) +:+ nl) with ("" +:+ nl +:+ (Text.join nl (first :: rest) +:+ nl)).
    rewrite lines_from_line, lines_join by done. rewrite fmap_cons. cbn [drop_blank_lines].
    assert (negb (blank ("" +:+ nl +:+ "")) = false) as Hnl by (vm_compute; reflexivity).
    change (("" +:+ "" +:+ nl)%string) with ("" +:+ nl +:+ ""). rewrite Hnl.
    assert (negb (Text.endswith ("" +:+ nl +:+ "") (String "010" "")) = false) as -> by (vm_compute; reflexivity).
    cbn [orb]. rewrite blank_app_nl, Hf. cbn [negb orb].
    change ((first +:+ nl) :: ((fun l => l +:+ nl) <$> rest)) with ((fun l => l +:+ nl) <$> (first :: rest)).
    by apply concat_lines. }
  unfold _strip_empty_line_postfix, Text.splitlines. rewrite lines_join by done.
  by rewrite (upto_last_all _ last_).
Qed.

(** *** Examples *)
Module Example.

Definition names : option (list string) := Some ["Read"; "Write"].

Definition read : cmd_block := mkCmdBlock "First:" "Read" [mkArgBlock nl "path" "a.py"] nl.

Definition code : string := "def f():" +:+ nl +:+ "    return vector<int>() < 1".

Definition write : cmd_block :=
  mkCmdBlock (" then" +:+ nl) "Write" [mkArgBlock nl "content" (nl +:+ code +:+ nl)] nl.

Lemma name_decided n :
  (negb (bool_decide (n = "")) && negb (Text.contains "<" n) && negb (Text.contains ">" n)
   && negb (Text.contains " " n) && negb (Text.startswith n "/")) = true -> name_ok n.
Proof.
  rewrite !andb_true_iff, !negb_true_iff, bool_decide_eq_false. unfold name_ok. tauto.
Qed.

Lemma read_ok : cmd_ok names read.
Proof.
  split_and!; [reflexivity|reflexivity|by apply name_decided| |apply Forall_singleton|reflexivity].
  - left.
  - split_and!; [reflexivity|by apply name_decided|vm_compute; reflexivity].
Qed.

Lemma write_ok : cmd_ok names write.
Proof.
  split_and!; [reflexivity|reflexivity|by apply name_decided| |apply Forall_singleton|reflexivity].
  - right. left.
  - split_and!; [reflexivity|by apply name_decided|vm_compute; reflexivity].
Qed.

Lemma answer_read_witness :
  parse_commands (doc_text [read; write] " done") names
  = Some ([mkCommand "Read" [("path", VStr "a.py")]; mkCommand "Write" [("content", VStr code)]], None).
Proof.
  pose proof (answer_read names [read; write] " done") as H.
  rewrite H; [vm_compute; reflexivity| |reflexivity].
  apply Forall_cons. split; [exact read_ok|]. apply Forall_singleton. exact write_ok.
Defined.

(** The file body of a [Write] that was cut off in its last line. *)
Lemma answer_repaired_witness :
  parse_commands ("First:<Read>" +:+ nl +:+ "<path>a.py</path>" +:+ nl +:+ "</Read> then" +:+ nl
    +:+ "<Write>" +:+ nl +:+ "<content>" +:+ nl +:+ code) names
  = Some ([mkCommand "Read" [("path", VStr "a.py")]; mkCommand "Write" [("content", VStr code)]], None).
Proof.
  destruct (answer_repaired names [read] (mkCmdBlock (" then" +:+ nl) "Write" [] "")) as [_ H].
  - apply Forall_singleton. exact read_ok.
  - split_and!; [reflexivity|reflexivity|by apply name_decided| |constructor|reflexivity]. right. left.
  - specialize (H (mkArgBlock nl "content" (nl +:+ code))). apply H; [|reflexivity].
    split_and!; [reflexivity|by apply name_decided|vm_compute; reflexivity].
Defined.

End Example.
End CommandDocs.
