(* ===== verification/CommandChannel.v ===== *)
(** * The XML command channel

    [kernel/commands/xml/channel.py]: how an answer becomes the actions of a turn, on the
    parser of [CommandParser.v]; and the end marker. Its regular expression needs no
    backtracking: after the name either the bracket or a space follows, and the shortest
    text up to a closing tag is taken. *)

From S2P Require Import Prelude Text CommandSafety CommandStream CommandParser.
From Stdlib Require Import Ascii String.
From stdpp Require Import base list strings.

Open Scope string_scope.
Open Scope list_scope.
Open Scope mote_scope.
Open Scope Z_scope.

Module CommandChannel.
Import CommandParser.

(** ** The end marker *)

Fixpoint after_prefix (p s : string) : option string :=
  match p, s with
  | EmptyString, _ => Some s
  | String a p', String b s' => if Regex.lower a =? Regex.lower b then after_prefix p' s' else None
  | _, EmptyString => None
  end.

Definition after_bracket (s : string) : option string :=
  match Text.partition ">" s with (_, true, rest) => Some rest | _ => None end.

Definition end_opened (s : string) : option string :=
  match after_prefix "<end" s with
  | Some (String c rest) =>
      if bool_decide (c = ">"%char) then Some rest
      else if Text.is_space c then after_bracket rest else None
  | _ => None
  end.

Definition end_closed (s : string) : option string :=
  match after_prefix "</end" s with
  | Some rest =>
      match Text.lstrip Text.is_space rest with
      | String c rest => if bool_decide (c = ">"%char) then Some rest else None
      | EmptyString => None
      end
  | None => None
  end.

Fixpoint first_closed (s : string) : option string :=
  match end_closed s with
  | Some rest => Some rest
  | None => match s with EmptyString => None | String _ s' => first_closed s' end
  end.

(** What follows a marker that starts here. *)
Definition marker_at (s : string) : option string :=
  match end_opened s with Some rest => first_closed rest | None => None end.

Fixpoint has_end_marker (s : string) : bool :=
  match marker_at s with
  | Some _ => true
  | None => match s with EmptyString => false | String _ s' => has_end_marker s' end
  end.

Fixpoint drop_markers (skip : nat) (s : string) : string :=
  match s with
  | EmptyString => EmptyString
  | String c s' =>
      match skip with
      | S k => drop_markers k s'
      | O =>
          match marker_at s with
          | Some rest => drop_markers (String.length s' - String.length rest) s'
          | None => String c (drop_markers O s')
          end
      end
  end.

(** ** Turns *)

Inductive AgentAction :=
| TextAction (content : string)
| ToolCallAction (name : string) (arguments : list (string * value))
| FinalCandidateAction (raw : string).

Definition is_end (name : string) : bool := bool_decide (after_prefix "end" name = Some "").

Definition model_turn (content : string) : option (list AgentAction) :=
  if bool_decide (content = "") then Some []
  else
    match parse_commands content None with
    | None => None
    | Some (command_list, error) =>
        let marker := has_end_marker content in
        if bool_decide (error <> None) && negb marker then Some [TextAction content]
        else
          let ordinary := filter (fun c => is_end (command_name c) = false) command_list in
          Some ([TextAction content]
                ++ ((fun c => ToolCallAction (command_name c) (command_args c)) <$> ordinary)
                ++ (if marker || negb (bool_decide (length ordinary = length command_list))
                    then [FinalCandidateAction (Text.strip (drop_markers O content))] else []))
    end.

Definition iter_commands (command_rsp : string) (valid_names : list string) : option (list command) :=
  if bool_decide (command_rsp = "") then Some []
  else
    match parse_commands command_rsp (Some valid_names) with
    | None => None
    | Some (_, Some _) => Some []
    | Some (cmds, None) => Some cmds
    end.

(** Both always answer. *)
Lemma model_turn_total content : model_turn content <> None.
Proof.
  unfold model_turn. destruct (bool_decide _); [done|].
  destruct (parse_commands_total content None) as (cmds & err & -> & _). by destruct (_ && _).
Qed.

Lemma iter_commands_total command_rsp valid_names : iter_commands command_rsp valid_names <> None.
Proof.
  unfold iter_commands. destruct (bool_decide _); [done|].
  destruct (parse_commands_total command_rsp (Some valid_names)) as (cmds & [e|] & -> & _); done.
Qed.

Example finish : model_turn "All done. <end></END >" =
  Some [TextAction "All done. <end></END >"; FinalCandidateAction "All done."].
Proof. vm_compute. reflexivity. Qed.

(** The name of a command keeps the attributes of its tag, which its closing tag has not: an
    end tag with an attribute is also called as a tool. *)
Example attributes_kept : model_turn "<end why='x'></end>" =
  Some [TextAction "<end why='x'></end>"; ToolCallAction "end why='x'" []; FinalCandidateAction ""].
Proof. vm_compute. reflexivity. Qed.

(** The marker is looked for in the whole answer: an argument that holds one finishes the
    task, too. *)
Example marker_in_argument :
  match model_turn "<Write><content>say <end></end> last</content></Write>" with
  | Some [TextAction _; ToolCallAction "Write" _; FinalCandidateAction _] => True
  | _ => False
  end.
Proof. vm_compute. exact I. Qed.

End CommandChannel.
