(* ===== verification/AgentRuntime.v ===== *)
(** * A live agent

    The message buffer of a role ([contracts/conversation/queue.py]), the runtime around the
    role ([orchestration/agents/lifecycle/runtime.py]) with its mailbox, its wake flag and the
    task that drives it, and the record an evicted agent leaves on disk
    ([orchestration/agents/residency/store.py]). *)

From S2P Require Import Prelude Messaging.

Local Open Scope Z_scope.

(** ** [MessageQueue] *)
Module MessageQueue.

Definition NOW : Z := 0.
Definition NEXT : Z := 1.
Definition LATER : Z := 2.

Notation QueuedMessage := (Z * Message)%type.

Record t : Type := mk { _items : list QueuedMessage; _new_msg_event : bool }.

Definition init : t := mk [] false.

Definition push (m : Message) (priority : Z) (q : t) : t := mk (_items q ++ [(priority, m)]) true.

Definition empty (q : t) : bool := match _items q with [] => true | _ => false end.

(** The scan of [pop] for the first item of the least priority up to [max_priority]. *)
Fixpoint best (l : list QueuedMessage) (i : nat) (max_priority : Z) (idx : option nat) (pri : Z) : option nat :=
  match l with
  | [] => idx
  | (p, _) :: l =>
      if (p <=? max_priority) && (p <? pri) then best l (S i) max_priority (Some i) p
      else best l (S i) max_priority idx pri
  end.

Definition pop (max_priority : Z) (q : t) : t * option Message :=
  match best (_items q) 0 max_priority None (max_priority + 1) with
  | None => (q, None)
  | Some i => (mk (delete i (_items q)) (_new_msg_event q), snd <$> (_items q !! i))
  end.

(** [drain.sort(key=priority)], which keeps the order of equal priorities. *)
Fixpoint insert_by (x : QueuedMessage) (l : list QueuedMessage) : list QueuedMessage :=
  match l with
  | [] => [x]
  | y :: l => if x.1 <=? y.1 then x :: y :: l else y :: insert_by x l
  end.

Definition by_priority (l : list QueuedMessage) : list QueuedMessage := foldr insert_by [] l.

Definition due (max_priority : Z) (i : QueuedMessage) : Prop := i.1 <= max_priority.
#[export] Instance due_dec p i : Decision (due p i).
Proof. unfold due. apply _. Defined.

Definition pop_all (max_priority : Z) (q : t) : t * list Message :=
  let keep := filter (fun i => ~ due max_priority i) (_items q) in
  let drain := by_priority (filter (due max_priority) (_items q)) in
  (mk keep (match keep with [] => false | _ => _new_msg_event q end), snd <$> drain).

Section persistence.
(** [Message.dump] and [Message.load] belong to the conversation contracts. *)
Context {Blob : Type} (dump_message : Message -> Blob) (load_message : Blob -> option Message).

(** The decoded text: an envelope, or a bare message. *)
Inductive entry : Type := Envelope (priority : option Z) (b : Blob) | Bare (b : Blob).

Definition dump (q : t) : list entry :=
  (fun i => Envelope (Some i.1) (dump_message i.2)) <$> _items q.

(** [load] on a text that decodes to a list of entries whose messages load. *)
Definition load (data : list entry) : option t :=
  foldl (fun q e =>
    q ← q;
    match e with
    | Envelope p b => m ← load_message b; Some (push m (default NEXT p) q)
    | Bare b => m ← load_message b; Some (push m NEXT q)
    end) (Some init) data.

Lemma load_dump q :
  (forall m, load_message (dump_message m) = Some m) ->
  _new_msg_event q = negb (empty q) -> load (dump q) = Some q.
Proof.
  intros Hrt He. unfold load, dump. destruct q as [items ev]; simpl in *.
  assert (forall items0 ev0 l, (l <> [] -> ev = true) -> (l = [] -> ev0 = ev) ->
    foldl (fun q e => q ← q;
      match e with
      | Envelope p b => m ← load_message b; Some (push m (default NEXT p) q)
      | Bare b => m ← load_message b; Some (push m NEXT q)
      end) (Some (mk items0 ev0)) ((fun i : QueuedMessage => Envelope (Some i.1) (dump_message i.2)) <$> l)
    = Some (mk (items0 ++ l) ev)) as Hg.
  { intros items0 ev0 l. revert items0 ev0. induction l as [|[p m] l IH]; intros items0 ev0 H1 H2; simpl.
    - by rewrite app_nil_r, H2.
    - rewrite Hrt. simpl. unfold push; simpl.
      rewrite IH; [by rewrite <- app_assoc| |intros _; symmetry; by apply H1]. intros _. by apply H1. }
  apply (Hg [] false items); [intros Hne|intros ->]; rewrite He; [by destruct items|done].
Qed.
End persistence.

Lemma elem_insert_by x l : insert_by x l ≡ₚ x :: l.
Proof.
  induction l as [|y l IH]; [done|]. simpl. case_match; [done|]. rewrite IH. apply Permutation_swap.
Qed.

Lemma by_priority_perm l : by_priority l ≡ₚ l.
Proof. induction l as [|x l IH]; [done|]. simpl. rewrite elem_insert_by. by f_equiv. Qed.

(** A drain takes everything due, and only that. *)
Lemma pop_all_perm p q :
  snd (pop_all p q) ++ (snd <$> _items (fst (pop_all p q))) ≡ₚ snd <$> _items q.
Proof.
  unfold pop_all; simpl. rewrite <- fmap_app, by_priority_perm. f_equiv.
  induction (_items q) as [|i l IH]; [done|]. destruct (decide (due p i)) as [Hd|Hd].
  - rewrite (filter_cons_True _ i), (filter_cons_False _ i) by tauto. simpl. by f_equiv.
  - rewrite (filter_cons_False _ i), (filter_cons_True _ i) by tauto.
    rewrite <- Permutation_middle. by f_equiv.
Qed.

Lemma insert_by_sorted x l :
  StronglySorted (fun a b => a.1 <= b.1) l -> StronglySorted (fun a b => a.1 <= b.1) (insert_by x l).
Proof.
  induction 1 as [|y l Hl IH Hy]; simpl; [repeat constructor|]. case_match eqn:E.
  - constructor; [by constructor|]. constructor; [lia|]. eapply Forall_impl; [done|]. simpl. lia.
  - constructor; [done|]. rewrite elem_insert_by. constructor; [lia|done].
Qed.

Lemma insert_by_stable pri x (l : list QueuedMessage) :
  filter (fun i : QueuedMessage => i.1 = pri) (insert_by x l) = filter (fun i : QueuedMessage => i.1 = pri) (x :: l).
Proof.
  induction l as [|y l IH]; [done|]. simpl insert_by. case_match eqn:E; [done|].
  rewrite filter_cons, IH, !filter_cons. repeat case_decide; try done. lia.
Qed.

Lemma by_priority_stable pri (l : list QueuedMessage) :
  filter (fun i : QueuedMessage => i.1 = pri) (by_priority l) = filter (fun i : QueuedMessage => i.1 = pri) l.
Proof.
  induction l as [|x l IH]; [done|]. etrans; [exact (insert_by_stable pri x (by_priority l))|]. rewrite !filter_cons. by rewrite IH.
Qed.

(** What is drained comes in the order of priorities, and within one in that of arrival. *)
Lemma pop_all_order p q :
  exists l, snd (pop_all p q) = snd <$> l /\ StronglySorted (fun a b => a.1 <= b.1) l
    /\ forall pri, filter (fun i : QueuedMessage => i.1 = pri) l
                   = filter (fun i : QueuedMessage => i.1 = pri) (filter (due p) (_items q)).
Proof.
  exists (by_priority (filter (due p) (_items q))). split_and!; [done| |].
  - induction (filter (due p) (_items q)) as [|x l IH]; [constructor|]. by apply insert_by_sorted.
  - intros pri. apply by_priority_stable.
Qed.

(** [pop] leaves the event set even when it takes the last item. *)
Lemma pop_keeps_event :
  let q := push (mkMessage "m" "" []) NEXT init in
  snd (pop NEXT q) <> None /\ empty (fst (pop NEXT q)) = true /\ _new_msg_event (fst (pop NEXT q)) = true.
Proof. split_and!; vm_compute; done. Qed.

End MessageQueue.

(** ** [AgentRuntime] *)
Module AgentRuntime.

Inductive AgentStatus : Type :=
| IDLE | RUNNING | COMPLETED | REJECTED | ERRORED | INTERRUPTED | NOT_FOUND.
#[export] Instance AgentStatus_eq_dec : EqDecision AgentStatus.
Proof. solve_decision. Defined.

Definition AgentStatus_value (s : AgentStatus) : string :=
  match s with
  | IDLE => "idle" | RUNNING => "running" | COMPLETED => "completed" | REJECTED => "rejected"
  | ERRORED => "errored" | INTERRUPTED => "interrupted" | NOT_FOUND => "not_found"
  end.

Definition FINAL_STATUSES : list AgentStatus := [COMPLETED; REJECTED; ERRORED; INTERRUPTED].
Definition is_final (s : AgentStatus) : bool := bool_decide (s ∈ FINAL_STATUSES).

(** The outcome of a run is a third-party type; the runtime asks whether it is a rejection. *)
Section Runtime.
Context {Outcome : Type} (is_rejected : Outcome -> bool).

(** How [role.run()] ends. *)
Inductive run_end : Type := Returns (rsp : Outcome) | Cancelled | Raises (exc : string).

(** The part of a runtime besides its task. *)
Record t : Type := mk {
  session_id : string;
  agent_path : option string;
  mailbox : Mailbox.t;
  msg_buffer : MessageQueue.t;
  status : AgentStatus;
  active_turn : bool;
  last_error : option string;
  last_run_result : option Outcome;
  wake_event : bool;
  _stopped : bool
}.

Definition init (id : string) (path : option string) (box : Mailbox.t) (buffer : MessageQueue.t) : t :=
  mk id path box buffer IDLE false None None false false.

Definition with_mailbox b (r : t) : t :=
  mk (session_id r) (agent_path r) b (msg_buffer r) (status r) (active_turn r) (last_error r)
     (last_run_result r) (wake_event r) (_stopped r).
Definition with_buffer b (r : t) : t :=
  mk (session_id r) (agent_path r) (mailbox r) b (status r) (active_turn r) (last_error r)
     (last_run_result r) (wake_event r) (_stopped r).
Definition with_turn st active err res (r : t) : t :=
  mk (session_id r) (agent_path r) (mailbox r) (msg_buffer r) st active err res (wake_event r) (_stopped r).
Definition with_path p (r : t) : t :=
  mk (session_id r) p (mailbox r) (msg_buffer r) (status r) (active_turn r) (last_error r)
     (last_run_result r) (wake_event r) (_stopped r).
Definition with_flags wake stopped (r : t) : t :=
  mk (session_id r) (agent_path r) (mailbox r) (msg_buffer r) (status r) (active_turn r) (last_error r)
     (last_run_result r) wake stopped.

Definition wake (r : t) : t := with_flags true (_stopped r) r.
Definition clear_wake (r : t) : t := with_flags false (_stopped r) r.

(** [run_one_turn] up to its first [await], and from the end of [role.run()] on. *)
Definition begin_turn (r : t) : t := with_turn RUNNING true None None r.

Definition end_turn (e : run_end) (r : t) : t :=
  match e with
  | Returns rsp =>
      with_turn (if is_rejected rsp then REJECTED else COMPLETED) false (last_error r) (Some rsp) r
  | Cancelled => with_turn INTERRUPTED false (last_error r) (last_run_result r) r
  | Raises exc => with_turn ERRORED false (Some exc) (last_run_result r) r
  end.

Definition is_unloadable (r : t) : bool :=
  if negb (is_final (status r)) then false
  else if active_turn r then false
  else if negb (Mailbox.empty (mailbox r)) then false
  else MessageQueue.empty (msg_buffer r).

(** The flags [shutdown] sets before it cancels the task. *)
Definition shutdown_flags (r : t) : t := with_flags true true r.

(** [EventDrivenScheduler._stage_mailbox] *)
Definition _stage_mailbox (r : t) : t :=
  let (b, msgs) := Mailbox.drain_for_turn (mailbox r) in
  with_buffer (foldl (fun q m => MessageQueue.push m MessageQueue.NEXT q) (msg_buffer r) msgs) (with_mailbox b r).

(** [EventDrivenScheduler._is_ready] *)
Definition _is_ready (r : t) : bool := wake_event r || Mailbox.has_trigger_turn (mailbox r).

(** All mail the runtime holds: delivered and not yet taken by the role. *)
Definition mail (r : t) : list Message :=
  (snd <$> MessageQueue._items (msg_buffer r)) ++ (Mailbox.message <$> Mailbox._items (mailbox r)).

Lemma stage_mail r : mail (_stage_mailbox r) = mail r.
Proof.
  unfold mail, _stage_mailbox, Mailbox.drain_for_turn; simpl. rewrite app_nil_r.
  generalize (Mailbox.message <$> Mailbox._items (mailbox r)) as l. intros l.
  generalize (msg_buffer r) as q. induction l as [|m l IH]; intros q; simpl; [by rewrite app_nil_r|].
  rewrite IH. unfold MessageQueue.push; simpl. rewrite fmap_app; simpl. by rewrite <- app_assoc.
Qed.

Lemma unloadable_mail r : is_unloadable r = true -> mail r = [].
Proof.
  unfold is_unloadable, mail, Mailbox.empty, MessageQueue.empty. destruct (negb (is_final _)); [done|].
  destruct (active_turn r); [done|]. destruct (Mailbox._items _); [|done]. by destruct (MessageQueue._items _).
Qed.

(** ** The record of an evicted agent *)
Section Store.
Context {Blob : Type} (dump_message : Message -> Blob) (load_message : Blob -> option Message).

Record ResidencyRecord : Type := mkRecord {
  mailbox_dump : list (Blob * bool);
  msg_buffer_dump : list (MessageQueue.entry (Blob := Blob))
}.

Definition materialize (r : t) : ResidencyRecord :=
  mkRecord (Mailbox.dump dump_message (mailbox r)) (MessageQueue.dump dump_message (msg_buffer r)).

(** [rehydrate] with a role loader that succeeds; [None] when a message does not load. *)
Definition rehydrate (id : string) (rec : ResidencyRecord) : option t :=
  q ← MessageQueue.load load_message (msg_buffer_dump rec);
  Some (init id None (Mailbox.load load_message (mailbox_dump rec)) q).

Lemma unloadable_record r : is_unloadable r = true -> materialize r = mkRecord [] [].
Proof.
  intros H%unloadable_mail. apply app_nil in H as [H1 H2]. unfold materialize, Mailbox.dump, MessageQueue.dump.
  by destruct (Mailbox._items (mailbox r)), (MessageQueue._items (msg_buffer r)).
Qed.

Lemma rehydrate_empty id : rehydrate id (mkRecord [] []) = Some (init id None Mailbox.init MessageQueue.init).
Proof. done. Qed.

End Store.
End Runtime.

Arguments t : clear implicits.
Arguments run_end : clear implicits.
Arguments ResidencyRecord : clear implicits.
End AgentRuntime.
