(* ===== verification/AgentControl.v ===== *)
(** * The control plane of a session's agents

    [AgentControl] ([orchestration/agents/control.py]) with the scheduler it drives
    ([execution/turn_scheduler.py]): live runtimes and the tasks that drive them, delivery and
    the parking of mail for agents that are not in memory, the loading and eviction of agents,
    watchers, interrupts and shutdown. Each definition is the code between two points where a
    coroutine waits; [AgentDelivery.v] interleaves them. *)

From S2P Require Import Prelude Text AgentPath AgentRegistry Messaging Residency AgentRuntime.
From Stdlib Require Import Ascii.

Local Open Scope Z_scope.

(** The path of an agent's metadata, beside the one of its runtime. *)
Notation meta_path := agent_path.

Definition _path_depth (path : string) : Z :=
  let slash := fun c => bool_decide (c = AgentPath.SLASH) in
  Z.of_nat (length (AgentPath.split (Text.rstrip slash (Text.lstrip slash path)))) - 1.

(** [str.lower] on the letters that the pattern keeps. *)
Definition lower (c : Ascii.ascii) : Ascii.ascii :=
  let n := Ascii.nat_of_ascii c in
  if ((65 <=? n) && (n <=? 90))%nat then Ascii.ascii_of_nat (n + 32) else c.

Fixpoint replaced (s : string) : string :=
  match s with
  | EmptyString => ""
  | String c s => String (if AgentPath.name_char (lower c) then lower c else "_"%char) (replaced s)
  end.

Definition _sanitize_segment (name : string) : string :=
  let score := fun c => bool_decide (c = "_"%char) in
  let segment := Text.rstrip score (Text.lstrip score (replaced name)) in
  if decide (segment = ""%string) then "agent" else segment.

Definition format_completion_notification (reference : string) (st : AgentRuntime.AgentStatus) : string :=
  "Agent '" +:+ reference +:+ "' finished with status: " +:+ AgentRuntime.AgentStatus_value st.

Module AgentControl.
Import AgentRuntime.

Inductive exn : Type := AgentNotFound (id : string) | AgentNotKnown (ref : string) | LoaderFailed.

(** Who is watched: a child whose end its parent wants to know, or one with a deadline. *)
Inductive watcher : Type :=
| Completion (child parent : string) (child_path parent_path : option string) (reference : string)
| Deadline (child : string).

(** A node of the tree of costs; parents and children are named by their agents. *)
Record CostNode : Type := mkNode {
  tracker : nat;
  node_parent : option string;
  children : list string;
  node_path : string
}.

(** What a reservation is for: the rest of a pass over the parked mail, or a spawn. *)
Inductive goal : Type := ForDelivery (a : string) (todo : list string) | ForSpawn (parent : option string).

Section Plane.
Context {Outcome Blob : Type} (is_rejected : Outcome -> bool).
Context (dump_message : Message -> Blob) (load_message : Blob -> option Message).
Context (_residency_capacity : option Z).

Notation runtime := (AgentRuntime.t Outcome).
Notation record := (AgentRuntime.ResidencyRecord Blob).

(** An eviction under way: what it is for, how many residents are left to scan, and the
    candidate, whose record was made when it was found idle. *)
Record eviction : Type := mkEviction {
  purpose : goal;
  left_to_scan : nat;
  candidate : string;
  victim : nat;
  snapshot : record;
  written : bool
}.

(** Where the driver of a runtime waits: for a wake-up, for the turn (with the guard of the
    limiter), or in the pass over the parked mail after it. *)
Inductive driver : Type := Parked | InTurn | Flushing (e : eviction).

(** A runtime with its task, if that is not done. *)
Record object : Type := mkObject { rt : runtime; task : option driver }.

(** The waker task waits, or is in a pass. *)
Inductive waker : Type := Waiting | Waking (e : eviction).

Record t : Type := mk {
  heap : gmap nat object;
  next_object : nat;
  _runtimes : list (string * nat);
  _scheduled : list (string * nat);
  _started : bool;
  _limiter : AgentExecutionLimiter.t;
  _residency : Residency.t;
  _store : list (string * record);
  _pending : PendingDeliveryQueue.t;
  _pending_waker_task : option waker;
  _spawning : gmap nat eviction;
  _registry : AgentRegistry.t;
  _comm_graph : CommGraph.t;
  _cost_nodes : list (string * CostNode);
  _cost_root : option string;
  _incarnations : gset string;
  _watchers : list watcher
}.

Definition init (max_agents : option Z) : t :=
  mk ∅ 0 [] [] false
    (match max_agents with
     | Some n => AgentExecutionLimiter.initialize n AgentExecutionLimiter.init
     | None => AgentExecutionLimiter.init
     end)
    Residency.init [] PendingDeliveryQueue.init None ∅ AgentRegistry.init CommGraph.init [] None ∅ [].

(** ** Updates of one part *)
Definition set_objects h n (s : t) : t :=
  mk h n (_runtimes s) (_scheduled s) (_started s) (_limiter s) (_residency s) (_store s) (_pending s)
    (_pending_waker_task s) (_spawning s) (_registry s) (_comm_graph s) (_cost_nodes s) (_cost_root s)
    (_incarnations s) (_watchers s).
Definition set_maps r sch (s : t) : t :=
  mk (heap s) (next_object s) r sch (_started s) (_limiter s) (_residency s) (_store s) (_pending s)
    (_pending_waker_task s) (_spawning s) (_registry s) (_comm_graph s) (_cost_nodes s) (_cost_root s)
    (_incarnations s) (_watchers s).
Definition set_started b (s : t) : t :=
  mk (heap s) (next_object s) (_runtimes s) (_scheduled s) b (_limiter s) (_residency s) (_store s) (_pending s)
    (_pending_waker_task s) (_spawning s) (_registry s) (_comm_graph s) (_cost_nodes s) (_cost_root s)
    (_incarnations s) (_watchers s).
Definition set_limiter l (s : t) : t :=
  mk (heap s) (next_object s) (_runtimes s) (_scheduled s) (_started s) l (_residency s) (_store s) (_pending s)
    (_pending_waker_task s) (_spawning s) (_registry s) (_comm_graph s) (_cost_nodes s) (_cost_root s)
    (_incarnations s) (_watchers s).
Definition set_residency r (s : t) : t :=
  mk (heap s) (next_object s) (_runtimes s) (_scheduled s) (_started s) (_limiter s) r (_store s) (_pending s)
    (_pending_waker_task s) (_spawning s) (_registry s) (_comm_graph s) (_cost_nodes s) (_cost_root s)
    (_incarnations s) (_watchers s).
Definition set_store d (s : t) : t :=
  mk (heap s) (next_object s) (_runtimes s) (_scheduled s) (_started s) (_limiter s) (_residency s) d (_pending s)
    (_pending_waker_task s) (_spawning s) (_registry s) (_comm_graph s) (_cost_nodes s) (_cost_root s)
    (_incarnations s) (_watchers s).
Definition set_pending q (s : t) : t :=
  mk (heap s) (next_object s) (_runtimes s) (_scheduled s) (_started s) (_limiter s) (_residency s) (_store s) q
    (_pending_waker_task s) (_spawning s) (_registry s) (_comm_graph s) (_cost_nodes s) (_cost_root s)
    (_incarnations s) (_watchers s).
Definition set_tasks w sp (s : t) : t :=
  mk (heap s) (next_object s) (_runtimes s) (_scheduled s) (_started s) (_limiter s) (_residency s) (_store s)
    (_pending s) w sp (_registry s) (_comm_graph s) (_cost_nodes s) (_cost_root s) (_incarnations s) (_watchers s).
Definition set_registry r (s : t) : t :=
  mk (heap s) (next_object s) (_runtimes s) (_scheduled s) (_started s) (_limiter s) (_residency s) (_store s)
    (_pending s) (_pending_waker_task s) (_spawning s) r (_comm_graph s) (_cost_nodes s) (_cost_root s)
    (_incarnations s) (_watchers s).
Definition set_graph g (s : t) : t :=
  mk (heap s) (next_object s) (_runtimes s) (_scheduled s) (_started s) (_limiter s) (_residency s) (_store s)
    (_pending s) (_pending_waker_task s) (_spawning s) (_registry s) g (_cost_nodes s) (_cost_root s)
    (_incarnations s) (_watchers s).
Definition set_costs nodes root (s : t) : t :=
  mk (heap s) (next_object s) (_runtimes s) (_scheduled s) (_started s) (_limiter s) (_residency s) (_store s)
    (_pending s) (_pending_waker_task s) (_spawning s) (_registry s) (_comm_graph s) nodes root
    (_incarnations s) (_watchers s).
Definition set_incarnations i (s : t) : t :=
  mk (heap s) (next_object s) (_runtimes s) (_scheduled s) (_started s) (_limiter s) (_residency s) (_store s)
    (_pending s) (_pending_waker_task s) (_spawning s) (_registry s) (_comm_graph s) (_cost_nodes s) (_cost_root s)
    i (_watchers s).
Definition set_watchers w (s : t) : t :=
  mk (heap s) (next_object s) (_runtimes s) (_scheduled s) (_started s) (_limiter s) (_residency s) (_store s)
    (_pending s) (_pending_waker_task s) (_spawning s) (_registry s) (_comm_graph s) (_cost_nodes s) (_cost_root s)
    (_incarnations s) w.

Definition set_object (i : nat) (o : object) (s : t) : t := set_objects (<[i := o]> (heap s)) (next_object s) s.

Definition update (i : nat) (f : runtime -> runtime) (s : t) : t :=
  match heap s !! i with Some o => set_object i (mkObject (f (rt o)) (task o)) s | None => s end.

Definition set_task (i : nat) (d : option driver) (s : t) : t :=
  match heap s !! i with Some o => set_object i (mkObject (rt o) d) s | None => s end.

(** A new runtime object. *)
Definition new_object (r : runtime) (s : t) : t * nat :=
  (set_objects (<[next_object s := mkObject r None]> (heap s)) (S (next_object s)) s, next_object s).

Definition get_runtime (id : string) (s : t) : option nat := Dict.get id (_runtimes s).
Definition has (id : string) (s : t) : bool := Dict.mem id (_store s).

(** ** [EventDrivenScheduler]: membership and drivers *)

Definition _spawn_driver (i : nat) (s : t) : t :=
  match heap s !! i with
  | Some o => match task o with
              | None => set_object i (mkObject (rt o) (Some Parked)) s
              | Some _ => s
              end
  | None => s
  end.

Definition add_runtime (id : string) (i : nat) (s : t) : t :=
  let s := set_maps (_runtimes s) (Dict.set id i (_scheduled s)) s in
  if _started s then _spawn_driver i s else s.

Definition ensure_driver (i : nat) (s : t) : t :=
  match heap s !! i with
  | Some o => if _started s && negb (_stopped (rt o)) then _spawn_driver i s else s
  | None => s
  end.

Definition remove_runtime (id : string) (s : t) : t := set_maps (_runtimes s) (Dict.pop id (_scheduled s)) s.

Definition _remove_runtime (id : string) (s : t) : t :=
  remove_runtime id (set_maps (Dict.pop id (_runtimes s)) (_scheduled s) s).

Definition notify (id : string) (m : Message) (mode : DeliveryMode) (s : t) : t * bool :=
  match Dict.get id (_scheduled s) with
  | None => (s, false)
  | Some i =>
      let s := update i (fun r => with_mailbox (Mailbox.enqueue m mode (mailbox r)) r) s in
      (match mode with TRIGGER_TURN => update i wake s | QUEUE_ONLY => s end, true)
  end.

Definition scheduler_start (s : t) : t :=
  foldl (fun s kv => _spawn_driver kv.2 s) (set_started true s) (_scheduled s).

(** The head of the driver's loop: it waits again, or is done. *)
Definition loop_head (i : nat) (s : t) : t :=
  match heap s !! i with
  | Some o => set_task i (if _stopped (rt o) then None else Some Parked) s
  | None => s
  end.

(** The driver is woken: it stages the mail and starts a turn. *)
Definition driver_wakes (i : nat) (s : t) : t :=
  match heap s !! i with
  | Some (mkObject r (Some Parked)) =>
      if negb (wake_event r) then s
      else if _stopped r then set_task i None s
      else
        let s := set_object i (mkObject (begin_turn (_stage_mailbox (clear_wake r))) (Some InTurn)) s in
        set_limiter (fst (AgentExecutionLimiter.guard (_limiter s))) s
  | _ => s
  end.

(** The guard is released when the turn ends, however it ends. *)
Definition release_guard (s : t) : t :=
  set_limiter (snd (AgentExecutionLimiter.guard_release false (_limiter s))) s.

(** The task of a runtime is cancelled: a turn under way ends as cancelled. *)
Definition cancel_task (i : nat) (s : t) : t :=
  match heap s !! i with
  | Some (mkObject r (Some InTurn)) =>
      release_guard (set_object i (mkObject (end_turn is_rejected Cancelled r) None) s)
  | Some (mkObject r (Some _)) => set_object i (mkObject r None) s
  | _ => s
  end.

(** [AgentRuntime.shutdown] *)
Definition shutdown (i : nat) (s : t) : t := cancel_task i (update i shutdown_flags s).

Definition scheduler_stop (s : t) : t :=
  foldl (fun s kv => shutdown kv.2 s) (set_started false s) (_scheduled s).

Definition scheduler_quiescent (s : t) : bool :=
  forallb (fun kv : string * nat =>
    match heap s !! kv.2 with
    | Some o => negb (active_turn (rt o)) && negb (_is_ready (rt o))
    | None => true
    end) (_scheduled s).

(** ** Delivery *)

Definition touch (id : string) (s : t) : t := set_residency (Residency.touch id (_residency s)) s.

Definition _record_last_task_message (id text : string) (s : t) : t :=
  set_registry (if decide (text = ""%string) then AgentRegistry.clear_last_task_message id (_registry s)
                else AgentRegistry.update_last_task_message id text (_registry s)) s.

Definition put_message (i : nat) (m : Message) (mode : DeliveryMode) (s : t) : t :=
  let s := update i (fun r => with_mailbox (Mailbox.enqueue m mode (mailbox r)) r) s in
  match mode with TRIGGER_TURN => update i wake s | QUEUE_ONLY => s end.

Definition put_communication (i : nat) (c : InterAgentCommunication) (s : t) : t :=
  let s := update i (fun r => with_mailbox (Mailbox.enqueue_communication c (mailbox r)) r) s in
  if trigger_turn c then update i wake s else s.

(** What the file system and the loader of roles do. *)
Record env : Type := mkEnv { loads : string -> bool; forgets : string -> bool }.

(** [_install_rehydrated] on an active slot. *)
Definition _install_rehydrated (e : env) (id : string) (s : t) : t * outcome exn nat :=
  let rollback s := set_residency (snd (Residency.slot_rollback true (_residency s))) s in
  if negb (loads e id) then (rollback s, Raise LoaderFailed)
  else match Dict.get id (_store s) with
  | None => (rollback s, Raise (AgentNotFound id))
  | Some rec =>
      match rehydrate (Outcome := Outcome) load_message id rec with
      | None => (rollback s, Raise LoaderFailed)
      | Some r =>
          let r := match AgentRegistry.agent_metadata_for_id id (_registry s) with
                   | Some m => with_path (meta_path m) r
                   | None => r
                   end in
          let (s, i) := new_object r s in
          let s := set_maps (Dict.set id i (_runtimes s)) (_scheduled s) s in
          let s := add_runtime id i s in
          let s := set_residency (snd (Residency.slot_commit id true (_residency s))) s in
          (set_store (if forgets e id then Dict.pop id (_store s) else _store s) s, Ok i)
      end
  end.

Definition _try_load_sync (e : env) (id : string) (s : t) : t * outcome exn (option nat) :=
  match get_runtime id s with
  | Some i => (s, Ok (Some i))
  | None =>
      if negb (has id s) then (s, Raise (AgentNotFound id))
      else
        let (r, granted) := Residency.try_reserve_sync _residency_capacity (_residency s) in
        let s := set_residency r s in
        if granted
        then let (s, o) := _install_rehydrated e id s in
             (s, match o with Ok i => Ok (Some i) | Raise x => Raise x end)
        else (s, Ok None)
  end.

Definition park (id : string) (d : PendingDeliveryQueue.PendingDelivery) (s : t) : t :=
  set_pending (PendingDeliveryQueue.park id d (_pending s)) s.

Definition is_trigger (mode : DeliveryMode) : bool := bool_decide (mode = TRIGGER_TURN).

Definition send_input (e : env) (id : string) (m : Message) (mode : DeliveryMode) (s : t)
    : t * outcome exn (option nat) :=
  let (s, o) := _try_load_sync e id s in
  match o with
  | Raise x => (s, Raise x)
  | Ok None => (park id (PendingDeliveryQueue.OfMessage m mode) s, Ok None)
  | Ok (Some i) =>
      if is_trigger mode && negb (AgentExecutionLimiter.has_capacity (_limiter s))
      then (park id (PendingDeliveryQueue.OfMessage m mode) s, Ok (Some i))
      else (_record_last_task_message id (m_content m) (touch id (put_message i m mode s)), Ok (Some i))
  end.

Definition send_inter_agent_communication (e : env) (id : string) (c : InterAgentCommunication) (s : t)
    : t * outcome exn (option nat) :=
  let (s, o) := _try_load_sync e id s in
  match o with
  | Raise x => (s, Raise x)
  | Ok None => (park id (PendingDeliveryQueue.OfCommunication c) s, Ok None)
  | Ok (Some i) =>
      if trigger_turn c && negb (AgentExecutionLimiter.has_capacity (_limiter s))
      then (park id (PendingDeliveryQueue.OfCommunication c) s, Ok (Some i))
      else (_record_last_task_message id (content c) (touch id (put_communication i c s)), Ok (Some i))
  end.

Definition dispatch_automation (e : env) (target text : string) (s : t) : t * outcome exn (option nat) :=
  send_input e target (mkMessage text "" []) TRIGGER_TURN s.

(** The loop of [send_to_channel] and [broadcast_subtree]: unknown members are skipped. *)
Fixpoint send_each (send : string -> t -> t * outcome exn (option nat)) (ids : list string) (s : t)
    : t * outcome exn (list string) :=
  match ids with
  | [] => (s, Ok [])
  | id :: ids =>
      let (s, o) := send id s in
      match o with
      | Raise (AgentNotFound _) => send_each send ids s
      | Raise x => (s, Raise x)
      | Ok _ => let (s, o) := send_each send ids s in
                (s, match o with Ok l => Ok (id :: l) | Raise x => Raise x end)
      end
  end.

Definition send_to_channel (e : env) (channel : string) (m : Message) (mode : DeliveryMode) (s : t)
    : t * outcome exn (list string) :=
  send_each (fun id => send_input e id m mode) (CommGraph.channel_members channel (_comm_graph s)) s.

Definition broadcast_subtree (e : env) (root_id : string) (c : InterAgentCommunication) (include_root : bool)
    (s : t) : t * outcome exn (list string) :=
  match CommGraph.path_for root_id (_comm_graph s) with
  | None => (s, Ok [])
  | Some p => send_each (fun id => send_inter_agent_communication e id c)
                (CommGraph.subtree_members p include_root (_comm_graph s)) s
  end.

(** ** Slots and evictions *)

(** The scan of [_try_unload_one_resident] up to the first idle resident. *)
Fixpoint scan (n : nat) (protected : option string) (s : t) : t * option (nat * string * nat * record) :=
  match n with
  | O => (s, None)
  | S n =>
      let (r, c) := Residency._pop_lru_candidate protected (_residency s) in
      let s := set_residency r s in
      match c with
      | None => (s, None)
      | Some c =>
          match get_runtime c s with
          | None => scan n protected s
          | Some i =>
              match heap s !! i with
              | Some o => if is_unloadable (rt o) then (s, Some (n, c, i, materialize dump_message (rt o)))
                          else scan n protected (touch c s)
              | None => scan n protected s
              end
          end
      end
  end.

(** How [reserve_slot] goes on: a slot, no room, or an eviction to wait for. *)
Inductive acquired : Type := Got | Full | Waits (n : nat) (c : string) (i : nat) (rec : record).

Definition after_scan (x : t * option (nat * string * nat * record)) : t * acquired :=
  match x with
  | (s, None) => (s, Full)
  | (s, Some (n, c, i, rec)) => (s, Waits n c i rec)
  end.

Definition reserve (protected : option string) (s : t) : t * acquired :=
  let (r, granted) := Residency._try_reserve_pending_slot _residency_capacity (_residency s) in
  let s := set_residency r s in
  if granted then (s, Got)
  else after_scan (scan (length (Residency._residents (_residency s))) protected s).

Definition store_write (c : string) (rec : record) (s : t) : t := set_store (Dict.set c rec (_store s)) s.

(** The end of an eviction that went well: the candidate is shut down and removed. *)
Definition evict (e : eviction) (s : t) : t := _remove_runtime (candidate e) (shutdown (victim e) s).

(** ** The pass over the parked mail *)

Definition _deliver_now (i : nat) (id : string) (s : t) (d : PendingDeliveryQueue.PendingDelivery) : t :=
  touch id
    (match d with
     | PendingDeliveryQueue.OfCommunication c => _record_last_task_message id (content c) (put_communication i c s)
     | PendingDeliveryQueue.OfMessage m mode => _record_last_task_message id (m_content m) (put_message i m mode s)
     end).

Definition deliver_all (i : nat) (id : string) (s : t) : t :=
  let (q, l) := PendingDeliveryQueue.take_all id (_pending s) in
  foldl (_deliver_now i id) (set_pending q s) l.

Definition drop (id : string) (s : t) : t := set_pending (PendingDeliveryQueue.drop id (_pending s)) s.

Definition _note_delivery_back_pressure (id : string) (s : t) : t :=
  set_pending (fst (PendingDeliveryQueue.note_back_pressure id (_pending s))) s.

(** What follows the reservation for [id]: [inr] when the pass goes on with the next agent,
    or is over ([false]) because loading raised. *)
Definition settle (e : env) (id : string) (todo : list string) (x : t * acquired) : t * (eviction + bool) :=
  match x with
  | (s, Waits n c i rec) => (s, inl (mkEviction (ForDelivery id todo) n c i rec false))
  | (s, Full) => (_note_delivery_back_pressure id s, inr true)
  | (s, Got) =>
      match _install_rehydrated e id s with
      | (s, Ok i) => (deliver_all i id s, inr true)
      | (s, Raise LoaderFailed) => (s, inr false)
      | (s, Raise _) => (drop id s, inr true)
      end
  end.

Fixpoint run_flush (e : env) (todo : list string) (s : t) : t * option eviction :=
  match todo with
  | [] => (s, None)
  | id :: todo =>
      match get_runtime id s with
      | Some i => run_flush e todo (deliver_all i id s)
      | None =>
          if negb (has id s) then run_flush e todo (drop id s)
          else match settle e id todo (reserve None s) with
               | (s, inl ev) => (s, Some ev)
               | (s, inr true) => run_flush e todo s
               | (s, inr false) => (s, None)
               end
      end
  end.

Definition _flush_pending_deliveries (e : env) (s : t) : t * option eviction :=
  run_flush e (PendingDeliveryQueue.agents_with_pending (_pending s)) s.

Definition resume_flush (e : env) (id : string) (todo : list string) (x : t * acquired) : t * option eviction :=
  match settle e id todo x with
  | (s, inl ev) => (s, Some ev)
  | (s, inr true) => run_flush e todo s
  | (s, inr false) => (s, None)
  end.

(** ** Tasks *)

(** The pass of a driver is over, or waits for an eviction; the task of a runtime that was
    shut down meanwhile dies where it waits. *)
Definition driver_flushes (i : nat) (x : t * option eviction) : t :=
  match x with
  | (s, None) => loop_head i s
  | (s, Some ev) =>
      match heap s !! i with
      | Some o => set_task i (if _stopped (rt o) then None else Some (Flushing ev)) s
      | None => s
      end
  end.

Definition waker_flushes (x : t * option eviction) : t :=
  match x with
  | (s, None) => set_tasks (Some Waiting) (_spawning s) s
  | (s, Some ev) => set_tasks (Some (Waking ev)) (_spawning s) s
  end.

(** The role's run ends: the driver goes on to the parked mail, or dies with a cancellation. *)
Definition turn_ends (e : env) (i : nat) (how : run_end Outcome) (s : t) : t :=
  match heap s !! i with
  | Some (mkObject r (Some InTurn)) =>
      let s := release_guard (set_object i (mkObject (end_turn is_rejected how r) (Some InTurn)) s) in
      match how with
      | Cancelled => set_task i None s
      | _ => driver_flushes i (_flush_pending_deliveries e s)
      end
  | _ => s
  end.

(** The role takes its mail. *)
Definition observe (i : nat) (max_priority : Z) (s : t) : t * list Message :=
  match heap s !! i with
  | Some o =>
      let (q, ms) := MessageQueue.pop_all max_priority (msg_buffer (rt o)) in
      (update i (with_buffer q) s, ms)
  | None => (s, [])
  end.

Definition waker_wakes (e : env) (s : t) : t :=
  match _pending_waker_task s with
  | Some Waiting =>
      if PendingDeliveryQueue._waker (_pending s)
      then waker_flushes
             (_flush_pending_deliveries e (set_pending (PendingDeliveryQueue.clear_waker (_pending s)) s))
      else s
  | _ => s
  end.

(** ** Membership and status *)

Definition release_child (id : string) (s : t) : t :=
  let s := _remove_runtime id s in
  let s := set_residency (Residency.remove id (_residency s)) s in
  let s := set_registry (AgentRegistry.release_spawned_agent id (_registry s)) s in
  let s := set_graph (CommGraph.remove id (_comm_graph s)) s in
  let s := drop id s in
  set_incarnations (_incarnations s ∖ {[ id ]}) s.

Definition register_session_root (id : string) (parent : option string) (s : t) : t :=
  match parent with
  | None => set_registry (AgentRegistry.register_root_agent id (_registry s)) s
  | Some _ => s
  end.

Definition _register_cost_root (trk : option nat) (id : string) (s : t) : t :=
  match trk with
  | None => s
  | Some n => set_costs (Dict.set id (mkNode n None [] AgentPath.ROOT) (_cost_nodes s)) (Some id) s
  end.

Definition set_agent_id (id : string) (m : AgentMetadata) : AgentMetadata :=
  mkMeta (Some id) (meta_path m) (agent_nickname m) (agent_role m) (last_task_message m).

(** [add_agent] of a new runtime; [trk] is the cost tracker of its role. *)
Definition add_agent (r : runtime) (metadata : option AgentMetadata) (root : bool) (trk : option nat) (s : t) : t :=
  let id := session_id r in
  let s := set_incarnations ({[ id ]} ∪ _incarnations s) s in
  let (s, i) := new_object r s in
  let s := set_maps (Dict.set id i (_runtimes s)) (_scheduled s) s in
  let s := add_runtime id i s in
  let s :=
    if root then
      let s := _register_cost_root trk id (register_session_root id None s) in
      set_graph (CommGraph.register id None (Some AgentPath.ROOT) (_comm_graph s)) s
    else match metadata with
    | None => s
    | Some m =>
        let m := set_agent_id id m in
        let s := set_registry (AgentRegistry.register_spawned_agent m (_registry s)) s in
        set_graph (CommGraph.register id None (meta_path m) (_comm_graph s)) s
    end in
  touch id s.

Definition get_status (id : string) (s : t) : AgentStatus :=
  match get_runtime id s with
  | Some i => match heap s !! i with Some o => status (rt o) | None => NOT_FOUND end
  | None => NOT_FOUND
  end.

Definition resolve_agent_reference (ref : string) (current_path : option string) (s : t) : outcome exn string :=
  match get_runtime ref s with
  | Some _ => Ok ref
  | None =>
      let by_path := match AgentPath.resolve (default AgentPath.ROOT current_path) ref with
                     | Ok p => AgentRegistry.agent_id_for_path p (_registry s)
                     | Raise _ => None
                     end in
      match by_path with
      | Some id => Ok id
      | None =>
          match m ← AgentRegistry.agent_metadata_for_nickname ref (_registry s); agent_id m with
          | Some id => Ok id
          | None => Raise (AgentNotKnown ref)
          end
      end
  end.

Record TeamRosterMember : Type := mkMember {
  relation : string;
  member_name : string;
  role : string;
  member_session : string;
  member_status : string
}.

Definition or_empty (x : option string) : string := default ""%string x.

Definition _team_member (rel : string) (m : AgentMetadata) (s : t) : TeamRosterMember :=
  let id := or_empty (agent_id m) in
  let name := match agent_nickname m with
              | Some n => if decide (n = ""%string)
                          then match meta_path m with Some p => AgentPath.name p | None => "" end else n
              | None => match meta_path m with Some p => AgentPath.name p | None => "" end
              end in
  mkMember rel name (or_empty (agent_role m)) id
    (if decide (id = ""%string) then "" else AgentStatus_value (get_status id s)).

Definition team_members (id : string) (s : t) : list TeamRosterMember :=
  match AgentRegistry.agent_metadata_for_id id (_registry s) with
  | Some own =>
      match meta_path own with
      | None => []
      | Some own_path =>
          let parent_path := AgentPath.parent own_path in
          let parent := p ← parent_path; pid ← AgentRegistry.agent_id_for_path p (_registry s);
                        AgentRegistry.agent_metadata_for_id pid (_registry s) in
          (match parent with Some m => [_team_member "parent" m s] | None => [] end)
          ++ omap (fun m =>
               if decide (agent_id m = Some id) then None
               else match meta_path m with
                    | None => None
                    | Some p =>
                        if decide (parent_path <> None /\ AgentPath.parent p = parent_path)
                        then Some (_team_member "sibling" m s)
                        else if decide (AgentPath.parent p = Some own_path)
                        then Some (_team_member "child" m s)
                        else None
                    end) (AgentRegistry.live_agents (_registry s))
      end
  | None => []
  end.

(** [interrupt], when the role lets itself be cancelled. *)
Definition interrupt (id : string) (s : t) : t * AgentStatus :=
  match get_runtime id s with
  | None => (s, NOT_FOUND)
  | Some i =>
      match heap s !! i with
      | None => (s, NOT_FOUND)
      | Some o =>
          let s := if bool_decide (task o <> None) && active_turn (rt o)
                   then ensure_driver i (cancel_task i s)
                   else if negb (is_final (status (rt o)))
                   then update i (fun r => with_turn INTERRUPTED (active_turn r) (last_error r) (last_run_result r) r) s
                   else s in
          (s, get_status id s)
      end
  end.

(** ** Watchers *)

(** One look of a watcher; [None] when it is done. *)
Definition watch (e : env) (w : watcher) (s : t) : t * option watcher :=
  match w with
  | Completion child parent child_path parent_path reference =>
      match i ← get_runtime child s; heap s !! i with
      | None => (s, None)
      | Some o =>
          if is_final (status (rt o)) && negb (active_turn (rt o)) && Mailbox.empty (mailbox (rt o)) then
            let c := mkComm (default AgentPath.ROOT child_path) (default AgentPath.ROOT parent_path)
                       (format_completion_notification reference (status (rt o))) false NOTIFICATION None in
            (fst (send_inter_agent_communication e parent c s), None)
          else (s, Some w)
      end
  | Deadline child =>
      match i ← get_runtime child s; heap s !! i with
      | None => (s, None)
      | Some o => if is_final (status (rt o)) then (s, None) else (fst (interrupt child s), None)
      end
  end.

(** ** Lifecycle *)

Definition start (s : t) : t :=
  let s := scheduler_start s in
  match _pending_waker_task s with
  | None => set_tasks (Some Waiting) (_spawning s) s
  | Some _ => s
  end.

Definition stop (s : t) : t := scheduler_stop (set_tasks None (_spawning s) (set_watchers [] s)).

Definition quiescent (s : t) : bool :=
  if PendingDeliveryQueue.has_trigger_pending (_pending s) then false else scheduler_quiescent s.

End Plane.

Arguments t : clear implicits.
Arguments eviction : clear implicits.
Arguments object : clear implicits.
Arguments driver : clear implicits.
End AgentControl.
