(* ===== verification/AgentSpawn.v ===== *)
(** * Births: one transaction per child

    The spawn transaction ([orchestration/agents/lifecycle/spawn.py]), for any reversals;
    [AgentControl.spawn_agent] ([orchestration/agents/control.py]), whose steps acquire the
    parts of a child one by one and own the reversal of each; and the handle of a child
    ([lifecycle/handle.py]). A failed birth is undone by a rollback during which nobody else
    runs ([spawned]) and by one during which others do ([SpawnTransaction.unwinds]). *)

From S2P Require Import Prelude Text AgentPath AgentRegistry Messaging Residency AgentRuntime SpawnAdmission AgentControl.

Local Open Scope Z_scope.

(** ** [SpawnTransaction] *)
Module SpawnTransaction.

Inductive SpawnPhase : Type :=
| NEW | ADMITTED | RESIDENCY_RESERVED | IDENTITY_RESERVED | CHILD_BUILT | PROVISIONED
| REGISTERED_INERT | SUPERVISED | COMMITTED | ROLLED_BACK.

Definition value (p : SpawnPhase) : Z :=
  match p with
  | NEW => 0 | ADMITTED => 1 | RESIDENCY_RESERVED => 2 | IDENTITY_RESERVED => 3 | CHILD_BUILT => 4
  | PROVISIONED => 5 | REGISTERED_INERT => 6 | SUPERVISED => 7 | COMMITTED => 8 | ROLLED_BACK => 9
  end.

Inductive exn (E : Type) : Type :=
| Terminal
| InvalidTransition (from to : SpawnPhase)
| NotSupervised
| SpawnRollbackError (failures : list (SpawnPhase * E)).
Arguments Terminal {E}.
Arguments InvalidTransition {E} _ _.
Arguments NotSupervised {E}.
Arguments SpawnRollbackError {E} _.

Section Transaction.
(** Reversals act on the world and may raise. *)
Context {World Reversal E : Type} (reverse : Reversal -> World -> World * option E).

Record t : Type := mk {
  phase : SpawnPhase;
  _reversals : list (SpawnPhase * Reversal);
  _committed : bool;
  _rolled_back : bool
}.

Definition init : t := mk NEW [] false false.

Definition advance (p : SpawnPhase) (r : option Reversal) (x : t) : t * outcome (exn E) unit :=
  if _committed x || _rolled_back x then (x, Raise Terminal)
  else if (value p <=? value (phase x)) || (value ROLLED_BACK <=? value p)
  then (x, Raise (InvalidTransition (phase x) p))
  else (mk p (_reversals x ++ match r with Some r => [(p, r)] | None => [] end) (_committed x) (_rolled_back x), Ok tt).

Definition own (r : Reversal) (x : t) : t * outcome (exn E) unit :=
  if _committed x || _rolled_back x then (x, Raise Terminal)
  else (mk (phase x) (_reversals x ++ [(phase x, r)]) (_committed x) (_rolled_back x), Ok tt).

Definition commit (x : t) : t * outcome (exn E) unit :=
  match phase x with
  | SUPERVISED => (mk COMMITTED [] true (_rolled_back x), Ok tt)
  | _ => (x, Raise NotSupervised)
  end.

(** The loop pops the reversals from the end. *)
Fixpoint unwind (l : list (SpawnPhase * Reversal)) (w : World) : World * list (SpawnPhase * E) :=
  match l with
  | [] => (w, [])
  | (p, r) :: l =>
      let (w, e) := reverse r w in
      let (w, failures) := unwind l w in
      (w, match e with Some e => (p, e) :: failures | None => failures end)
  end.

Definition rollback (x : t) (w : World) : t * World * outcome (exn E) unit :=
  if _committed x || _rolled_back x then (x, w, Ok tt)
  else
    let (w, failures) := unwind (rev (_reversals x)) w in
    (mk ROLLED_BACK [] (_committed x) true, w,
     match failures with [] => Ok tt | _ => Raise (SpawnRollbackError failures) end).

(** The world after some reversals, in the order of the list. *)
Definition undo (l : list Reversal) (w : World) : World := foldl (fun w r => fst (reverse r w)) w l.

Lemma unwind_undo l w : fst (unwind l w) = undo (snd <$> l) w.
Proof.
  revert w. induction l as [|[p r] l IH]; intros w; simpl; [done|].
  destruct (reverse r w) as [w1 e] eqn:Hr. specialize (IH w1). destruct (unwind l w1) as [w2 f]. simpl in *.
  by rewrite IH.
Qed.

(** The steps a birth may take on its transaction. *)
Inductive step : Type := Advance (p : SpawnPhase) (r : option Reversal) | Own (r : Reversal).

Definition take (x : t) (s : step) : t :=
  match s with Advance p r => fst (advance p r x) | Own r => fst (own r x) end.

Definition owned (s : step) : list Reversal := match s with Advance _ (Some r) | Own r => [r] | _ => [] end.

(** The phase of a transaction only grows while it is open, and its reversals are those of
    the steps it accepted, in order. *)
Lemma take_open x s :
  _committed x = false -> _rolled_back x = false ->
  _committed (take x s) = false /\ _rolled_back (take x s) = false
  /\ value (phase x) <= value (phase (take x s))
  /\ (snd <$> _reversals (take x s) = (snd <$> _reversals x) ++ owned s \/ take x s = x).
Proof.
  intros Hc Hr. destruct s as [p r|r]; simpl; unfold advance, own; rewrite Hc, Hr; simpl.
  - destruct ((value p <=? value (phase x)) || (9 <=? value p)) eqn:Hp; simpl.
    + split_and!; [done|done|lia|by right].
    + split_and!; [done|done|lia|left]. rewrite fmap_app. by destruct r.
  - split_and!; [done|done|lia|left]. by rewrite fmap_app.
Qed.

(** A rollback runs every reversal once, the last acquired first, whatever any of them
    raises; after it, and after a commit, nothing is left to run. *)
Lemma rollback_runs x w :
  _committed x = false -> _rolled_back x = false ->
  let '(x', w', o) := rollback x w in
  w' = undo (rev (snd <$> _reversals x)) w
  /\ _reversals x' = [] /\ phase x' = ROLLED_BACK
  /\ rollback x' w' = (x', w', Ok tt)
  /\ (o = Ok tt <-> snd (unwind (rev (_reversals x)) w) = []).
Proof.
  intros Hc Hr. unfold rollback at 1. rewrite Hc, Hr. simpl.
  pose proof (unwind_undo (rev (_reversals x)) w) as Hu.
  destruct (unwind (rev (_reversals x)) w) as [w' f]. simpl in Hu. split_and!; try done.
  - rewrite Hu. f_equal. rewrite !list_fmap_alt. apply map_rev.
  - destruct f; simpl; split; done.
Qed.

(** [rollback] runs in a task of its own and awaits a reversal that can be awaited, so other
    coroutines run before the first reversal, between two of them and after the last. *)
Inductive unwinds (others : World -> World -> Prop)
    : list (SpawnPhase * Reversal) -> World -> World -> list (SpawnPhase * E) -> Prop :=
| unwinds_done w : unwinds others [] w w []
| unwinds_other l w w1 w2 failures :
    others w w1 -> unwinds others l w1 w2 failures -> unwinds others l w w2 failures
| unwinds_reverse p r l w w1 e w2 failures :
    reverse r w = (w1, e) -> unwinds others l w1 w2 failures ->
    unwinds others ((p, r) :: l) w w2 (match e with Some e => (p, e) :: failures | None => failures end).

(** When nobody runs in between, this is [unwind]. *)
Lemma unwinds_alone l w w' failures : unwinds (fun _ _ => False) l w w' failures <-> unwind l w = (w', failures).
Proof.
  split.
  - induction 1 as [|? ? ? ? ? []|p r l w w1 e w2 f Hr _ IH]; [done|]. simpl. by rewrite Hr, IH.
  - revert w w' failures. induction l as [|[p r] l IH]; intros w w' f; simpl; [intros [= <- <-]; constructor|].
    destruct (reverse r w) as [w1 e] eqn:Hr. destruct (unwind l w1) as [w2 f2] eqn:Hl. intros [= <- <-].
    eapply unwinds_reverse; [done|]. by apply IH.
Qed.


End Transaction.
Arguments t : clear implicits.
End SpawnTransaction.

(** ** [spawn_agent] *)
Module AgentSpawn.
Import AgentRuntime AgentControl.

#[export] Instance watcher_eq_dec : EqDecision watcher.
Proof. solve_decision. Defined.

Section Spawn.
Context {Outcome Blob : Type}.
Context (dump_message : Message -> Blob).
Context (_residency_capacity _max_depth : option Z).
Context (_spawn_policy : list SpawnAdmissionPolicy.extension).

Notation plane := (AgentControl.t Outcome Blob).

Record SpawnPlan : Type := mkPlan {
  plan_nickname : option string;
  parent_id : option string;
  managed : bool;
  watch_completion : bool;
  plan_max_depth : option Z;
  has_timeout : bool;
  plan_role : string;
  share_parent : bool
}.

(** Where code outside the control plane runs, and may raise. *)
Inductive place : Type := InContext | InBuild | InProvision | InBind | InBlueprint | InTracker.

(** What that code does: it may raise, and the role it builds has an id, a cost tracker, and
    a cleanup that may raise; [suffix] is the random part of its name. *)
Record builder : Type := mkBuilder {
  raises : place -> option string;
  built_id : string;
  built_tracker : option nat;
  cleanup : option string;
  suffix : string
}.

Inductive reversal : Type :=
| RollbackSlot
| RollbackReservation
| Cleanup
| Unregister (id : string)
| RemoveCostNode (id : string)
| RemoveRuntime (id : string)
| ForgetRoute (id : string)
| CancelSpawnWatcher (w : watcher)
| ReleaseAgent (id : string)
| RemoveResident (id : string).

(** The plane, with the slot and the reservation of the birth. *)
Record work : Type := mkWork {
  on_plane : plane;
  slot : bool;
  reservation : AgentRegistry.reservation
}.

Definition with_plane (f : plane -> plane) (w : work) : work := mkWork (f (on_plane w)) (slot w) (reservation w).

Definition _remove_cost_node (id : string) (s : plane) : plane :=
  match Dict.get id (_cost_nodes s) with
  | None => s
  | Some n =>
      let nodes := Dict.pop id (_cost_nodes s) in
      let nodes := match p ← node_parent n; pn ← Dict.get p nodes; Some (p, pn) with
                   | Some (p, pn) =>
                       Dict.set p (mkNode (tracker pn) (node_parent pn) (Residency.remove_first id (children pn)) (node_path pn)) nodes
                   | None => nodes
                   end in
      set_costs nodes (_cost_root s) s
  end.

Definition _add_cost_node (trk : option nat) (parent : option string) (id path : string) (s : plane) : plane :=
  let parent_id :=
    match p ← parent; (if decide (p = ""%string) then None else Dict.get p (_cost_nodes s)) with
    | Some _ => parent
    | None => _cost_root s
    end in
  let parent_node := p ← parent_id; Dict.get p (_cost_nodes s) in
  match trk with
  | None => s
  | Some n =>
      match parent_node with
      | Some pn =>
          if decide (n = tracker pn) then s
          else
            let p := default ""%string parent_id in
            let nodes := Dict.set p (mkNode (tracker pn) (node_parent pn) (children pn ++ [id]) (node_path pn)) (_cost_nodes s) in
            set_costs (Dict.set id (mkNode n parent_id [] path) nodes) (_cost_root s) s
      | None => set_costs (Dict.set id (mkNode n None [] path) (_cost_nodes s)) (_cost_root s) s
      end
  end.

Definition remove_watcher (w : watcher) (s : plane) : plane :=
  set_watchers (match list_find (fun x => x = w) (rev (_watchers s)) with
                | Some (i, _) => rev (delete i (rev (_watchers s)))
                | None => _watchers s
                end) s.
(** What a reversal does. The cleanup of the role and the cancellation of a watcher are
    awaited: others run around them, as [SpawnTransaction.unwinds] says. *)
Definition reverse (b : builder) (r : reversal) (w : work) : work * option string :=
  match r with
  | RollbackSlot =>
      let (active, res) := Residency.slot_rollback (slot w) (_residency (on_plane w)) in
      (mkWork (set_residency res (on_plane w)) active (reservation w), None)
  | RollbackReservation =>
      let (rs, reg) := AgentRegistry.rollback (reservation w) (_registry (on_plane w)) in
      (mkWork (set_registry reg (on_plane w)) (slot w) rs, None)
  | Cleanup => (w, cleanup b)
  | Unregister id => (with_plane (fun s => set_incarnations (_incarnations s ∖ {[ id ]}) s) w, None)
  | RemoveCostNode id => (with_plane (_remove_cost_node id) w, None)
  | RemoveRuntime id => (with_plane (_remove_runtime id) w, None)
  | ForgetRoute id => (with_plane (fun s => set_graph (CommGraph.remove id (_comm_graph s)) s) w, None)
  | CancelSpawnWatcher x => (with_plane (remove_watcher x) w, None)
  | ReleaseAgent id => (with_plane (fun s => set_registry (AgentRegistry.release_spawned_agent id (_registry s)) s) w, None)
  | RemoveResident id => (with_plane (fun s => set_residency (Residency.remove id (_residency s)) s) w, None)
  end.

Notation transaction := (SpawnTransaction.t reversal).

(** *** The steps under a transaction *)

(** What a step raises: the text of an exception of its own, or one of the transaction. *)
Inductive fault : Type := Fault (text : string) | Misuse.

Definition M (A : Type) : Type := work * transaction -> (work * transaction) * outcome fault A.

Definition ret {A} (a : A) : M A := fun x => (x, Ok a).
Definition bind {A B} (m : M A) (k : A -> M B) : M B := fun x =>
  let (x, o) := m x in match o with Ok a => k a x | Raise f => (x, Raise f) end.
Definition fail {A} (e : string) : M A := fun x => (x, Raise (Fault e)).
Definition on (f : plane -> plane) : M unit := fun '(w, tx) => ((with_plane f w, tx), Ok tt).
Definition read : M plane := fun x => (x, Ok (on_plane (fst x))).

Definition of_transaction (o : outcome (SpawnTransaction.exn string) unit) : outcome fault unit :=
  match o with Ok _ => Ok tt | Raise _ => Raise Misuse end.
Definition advance (p : SpawnTransaction.SpawnPhase) (r : option reversal) : M unit := fun '(w, tx) =>
  let (tx, o) := SpawnTransaction.advance p r tx in ((w, tx), of_transaction o).
Definition own (r : reversal) : M unit := fun '(w, tx) =>
  let (tx, o) := SpawnTransaction.own r tx in ((w, tx), of_transaction o).
Definition commit : M unit := fun '(w, tx) =>
  let (tx, o) := SpawnTransaction.commit tx in ((w, tx), of_transaction o).

Notation "x <~ m ;; k" := (bind m (fun x => k)) (at level 100, m at next level, right associativity).
Notation "m ;;~ k" := (bind m (fun _ => k)) (at level 100, right associativity).

(** Code of others runs; [at_ b p] raises what it raises. *)
Definition at_ (b : builder) (p : place) : M unit :=
  match raises b p with Some e => fail e | None => ret tt end.

Definition _resolve_parent_path (parent : option string) (s : plane) : string :=
  match parent with
  | Some p =>
      if decide (p = ""%string) then AgentPath.ROOT
      else match m ← AgentRegistry.agent_metadata_for_id p (_registry s); meta_path m with
           | Some path => path
           | None => AgentPath.ROOT
           end
  | None => AgentPath.ROOT
  end.

Definition truthy (o : option string) : bool := AgentRegistry.truthy o.
Definition or_else (a b : option string) : option string := if truthy a then a else b.

Definition segment (p : SpawnPlan) (b : builder) : string :=
  _sanitize_segment (default ""%string (or_else (plan_nickname p) (or_else (Some (plan_role p)) (Some "agent"%string))))
  +:+ "_" +:+ suffix b.

(** *** From the granted slot on

    [spawn_agent] after [reserve_slot], which does not wait until it returns or rolls back. *)

Definition reserve_identity (p : SpawnPlan) (b : builder) (parent_path : string) : M (string * string) :=
  advance SpawnTransaction.RESIDENCY_RESERVED (Some RollbackSlot) ;;~
  (fun '(w, tx) =>
     let (reg, o) := AgentRegistry.reserve_spawn_slot None (_registry (on_plane w)) in
     ((mkWork (set_registry reg (on_plane w)) (slot w) AgentRegistry.new_reservation, tx),
      match o with Ok _ => Ok tt | Raise _ => Raise (Fault "AgentLimitReached") end)) ;;~
  advance SpawnTransaction.IDENTITY_RESERVED (Some RollbackReservation) ;;~
  let seg := segment p b in
  nick <~ (fun '(w, tx) =>
     let (reg, o) := AgentRegistry.reserve_agent_nickname_with_preference 0
                       [_sanitize_segment (default ""%string (or_else (plan_nickname p) (or_else (Some (plan_role p)) (Some "agent"%string))))]
                       (Some seg) (_registry (on_plane w)) in
     ((mkWork (set_registry reg (on_plane w)) (slot w) (reservation w), tx),
      match o with Ok n => Ok n | Raise _ => Raise (Fault "AgentNotKnown") end)) ;;
  child_path <~ (match AgentPath.join parent_path seg with Ok q => ret q | Raise e => fail e end) ;;
  (fun '(w, tx) =>
     let '(rs, reg, o) := AgentRegistry.reserve_agent_path child_path (reservation w) (_registry (on_plane w)) in
     ((mkWork (set_registry reg (on_plane w)) (slot w) rs, tx),
      match o with Ok _ => Ok tt | Raise _ => Raise (Fault "AgentPathExists") end)) ;;~
  ret (nick, child_path).

Definition build (p : SpawnPlan) (b : builder) : M unit :=
  at_ b InContext ;;~
  at_ b InBuild ;;~
  advance SpawnTransaction.CHILD_BUILT (Some Cleanup) ;;~
  s <~ read ;;
  (match parent_id p with
   | Some q => if decide (q = ""%string) then ret tt
               else match get_runtime q s with
                    | Some _ => ret tt
                    | None => if share_parent p then fail "SHARE_PARENT spawn requires live parent" else ret tt
                    end
   | None => if share_parent p then fail "SHARE_PARENT spawn requires live parent" else ret tt
   end) ;;~
  at_ b InProvision ;;~
  at_ b InBind ;;~
  advance SpawnTransaction.PROVISIONED None.

(** The child is installed; it has no identity yet. *)
Definition install (p : SpawnPlan) (b : builder) (child_path : string) : M unit :=
  let id := built_id b in
  i <~ (fun '(w, tx) =>
     let (s, i) := new_object (AgentRuntime.init id (Some child_path) Mailbox.init MessageQueue.init) (on_plane w) in
     ((with_plane (fun _ => s) w, tx), Ok i)) ;;
  at_ b InBlueprint ;;~
  on (fun s => set_incarnations ({[ id ]} ∪ _incarnations s) s) ;;~
  own (Unregister id) ;;~
  at_ b InTracker ;;~
  on (_add_cost_node (built_tracker b) (parent_id p) id child_path) ;;~
  own (RemoveCostNode id) ;;~
  on (fun s => set_maps (Dict.set id i (_runtimes s)) (_scheduled s) s) ;;~
  own (RemoveRuntime id) ;;~
  on (fun s => set_graph (CommGraph.register id None (Some child_path) (_comm_graph s)) s) ;;~
  own (ForgetRoute id) ;;~
  advance SpawnTransaction.REGISTERED_INERT None ;;~
  if managed p then on (add_runtime id i) else ret tt.

Definition supervise (p : SpawnPlan) (b : builder) (child_path : string) : M unit :=
  let id := built_id b in
  (if managed p && watch_completion p && truthy (parent_id p) then
     let x := Completion id (default ""%string (parent_id p)) (Some child_path) None (AgentPath.name child_path) in
     on (fun s => set_watchers (_watchers s ++ [x]) s) ;;~ own (CancelSpawnWatcher x)
   else ret tt) ;;~
  (if managed p && has_timeout p then
     on (fun s => set_watchers (_watchers s ++ [Deadline id]) s) ;;~ own (CancelSpawnWatcher (Deadline id))
   else ret tt) ;;~
  advance SpawnTransaction.SUPERVISED None.

Definition publish (p : SpawnPlan) (b : builder) (nick child_path : string) : M unit :=
  let id := built_id b in
  (fun '(w, tx) =>
     let (rs, reg) := AgentRegistry.commit (mkMeta (Some id) (Some child_path) (Some nick) (Some (plan_role p)) None)
                        (reservation w) (_registry (on_plane w)) in
     ((mkWork (set_registry reg (on_plane w)) (slot w) rs, tx), Ok tt)) ;;~
  own (ReleaseAgent id) ;;~
  (if managed p then
     (fun '(w, tx) =>
        let (active, res) := Residency.slot_commit id (slot w) (_residency (on_plane w)) in
        ((mkWork (set_residency res (on_plane w)) active (reservation w), tx), Ok tt)) ;;~
     own (RemoveResident id)
   else ret tt) ;;~
  commit.

Definition birth (p : SpawnPlan) (b : builder) (parent_path : string) : M string :=
  names <~ reserve_identity p b parent_path ;;
  build p b ;;~
  install p b (snd names) ;;~
  supervise p b (snd names) ;;~
  publish p b (fst names) (snd names) ;;~
  ret (snd names).

(** The handle: whose child it is, and the slot an ephemeral child still holds. *)
Record ChildAgentHandle : Type := mkHandle {
  _agent_id : string;
  _agent_path : string;
  _residency_slot : option bool;
  _closed : bool
}.

Inductive spawn_exn : Type :=
| Denied (d : denial)
| AgentLimitReached
| Failed (e : string)
| RollbackFailed (failures : list (SpawnTransaction.SpawnPhase * string)).

(** The slot is granted; there is no reservation yet. *)
Definition admitted (s : plane) : work * transaction :=
  (mkWork s true (AgentRegistry.mk_reservation false None),
   fst (SpawnTransaction.advance (E := string) SpawnTransaction.ADMITTED None SpawnTransaction.init)).

(** With a rollback during which nobody else runs; the runs with others in between are
    [SpawnTransaction.unwinds]. *)
Definition spawned (p : SpawnPlan) (b : builder) (parent_path : string) (s : plane)
    : plane * outcome spawn_exn ChildAgentHandle :=
  match birth p b parent_path (admitted s) with
  | ((w, _), Ok child_path) =>
      (on_plane w, Ok (mkHandle (built_id b) child_path (if managed p then None else Some (slot w)) false))
  | ((w, tx), Raise f) =>
      let '(_, w, o) := SpawnTransaction.rollback (reverse b) tx w in
      (on_plane w, Raise (match o with
                          | Raise (SpawnTransaction.SpawnRollbackError l) => RollbackFailed l
                          | _ => match f with Fault e => Failed e | Misuse => Failed "spawn transaction" end
                          end))
  end.

(** *** [spawn_agent] *)

(** The limits and the spending of the fleet, read when the spawn is asked for. *)
Record budget : Type := mkBudget {
  fleet_cost : float;
  max_cost : option float;
  fleet_tokens : Z;
  max_tokens : option Z
}.

Definition intent (p : SpawnPlan) (g : budget) (parent_path : string) : SpawnIntent :=
  mkIntent parent_path (next_agent_spawn_depth (_path_depth parent_path))
    (match plan_max_depth p with Some d => Some d | None => _max_depth end)
    (fleet_cost g) (max_cost g) (fleet_tokens g) (max_tokens g) (plan_role p) (default ""%string (plan_nickname p)).

(** Until it waits for an eviction ([inl]) or is over. *)
Definition spawn_after (p : SpawnPlan) (b : builder) (parent_path : string) (x : plane * acquired)
    : plane * (eviction Blob + outcome spawn_exn ChildAgentHandle) :=
  match x with
  | (s, Waits n c i rec) => (s, inl (mkEviction (ForSpawn (parent_id p)) n c i rec false))
  | (s, Full) => (s, inr (Raise AgentLimitReached))
  | (s, Got) => let (s, o) := spawned p b parent_path s in (s, inr o)
  end.

Definition spawn_agent (p : SpawnPlan) (b : builder) (g : budget) (s : plane)
    : plane * (eviction Blob + outcome spawn_exn ChildAgentHandle) :=
  let parent_path := _resolve_parent_path (parent_id p) s in
  let d := SpawnAdmissionPolicy.process _spawn_policy (intent p g parent_path) in
  if negb (accepted d)
  then (s, inr (Raise (Denied (default (ExtensionReason "spawn denied") (reason d)))))
  else spawn_after p b parent_path (reserve dump_message _residency_capacity (parent_id p) s).

(** *** [ChildAgentHandle.aclose] *)
Definition aclose (h : ChildAgentHandle) (s : plane) : ChildAgentHandle * plane :=
  if _closed h then (h, s)
  else
    let (sl, s) := match _residency_slot h with
                   | Some active => let (a, res) := Residency.slot_rollback active (_residency s) in
                                    (Some a, set_residency res s)
                   | None => (None, s)
                   end in
    (mkHandle (_agent_id h) (_agent_path h) sl true, release_child (_agent_id h) s).

(** ** A failed birth leaves no trace *)

Notation transaction_of ph revs := (SpawnTransaction.mk (Reversal := reversal) ph revs false false).

(** What a step establishes, from which states, and what holds when it raises. *)
Definition triple {A} (P : work * transaction -> Prop) (m : M A) (Q : A -> work * transaction -> Prop)
    (R : work * transaction -> Prop) : Prop :=
  forall x, P x -> match m x with
                   | (x, Ok a) => Q a x
                   | (x, Raise (Fault _)) => R x
                   | (_, Raise Misuse) => False
                   end.

Lemma triple_bind {A B} P (m : M A) Q (k : A -> M B) Q' R :
  triple P m Q R -> (forall a, triple (Q a) (k a) Q' R) -> triple P (bind m k) Q' R.
Proof.
  intros Hm Hk x Hx. specialize (Hm x Hx). unfold bind. destruct (m x) as [y [a|f]]; [by apply Hk|].
  by destruct f.
Qed.

Lemma triple_ret {A} (P : work * transaction -> Prop) (a : A) Q R :
  (forall x, P x -> Q a x) -> triple P (ret a) Q R.
Proof. intros H x Hx. by apply H. Qed.

Lemma triple_fail {A} (P : work * transaction -> Prop) e Q R :
  (forall x, P x -> R x) -> triple P (fail (A := A) e) Q R.
Proof. intros H x Hx. by apply H. Qed.

Lemma triple_pre {A} (P P' : work * transaction -> Prop) (m : M A) Q R :
  (forall x, P x -> P' x) -> triple P' m Q R -> triple P m Q R.
Proof. intros H Hm x Hx. by apply Hm, H. Qed.

Definition undo (b : builder) (l : list reversal) (w : work) : work := SpawnTransaction.undo (reverse b) l w.

(** The registry holds what it held; the nickname stays taken, and nobody refers to new objects. *)
Record registry_restored (r r' : AgentRegistry.t) : Prop := {
  same_tree : AgentRegistry._agent_tree r' = AgentRegistry._agent_tree r;
  same_index : AgentRegistry._by_agent_id r' = AgentRegistry._by_agent_id r;
  same_total : AgentRegistry._total_count r' = AgentRegistry._total_count r;
  same_reset : AgentRegistry._nickname_reset_count r' = AgentRegistry._nickname_reset_count r;
  same_meta a : (a < AgentRegistry.next_address r)%nat -> AgentRegistry.heap r' !! a = AgentRegistry.heap r !! a
}.

(** The plane holds what it held, except that the slot is given back. *)
Record unspawned (s s' : plane) : Prop := {
  same_objects i : (i < next_object s)%nat -> heap s' !! i = heap s !! i;
  same_runtimes : _runtimes s' = _runtimes s;
  same_scheduled : _scheduled s' = _scheduled s;
  same_started : _started s' = _started s;
  same_limiter : _limiter s' = _limiter s;
  slot_back : _residency s' = Residency._release_pending_slot (_residency s);
  same_store : _store s' = _store s;
  same_pending : _pending s' = _pending s;
  same_waker : _pending_waker_task s' = _pending_waker_task s;
  same_spawning : _spawning s' = _spawning s;
  same_registry : registry_restored (_registry s) (_registry s');
  same_graph : _comm_graph s' = _comm_graph s;
  same_costs : _cost_nodes s' = _cost_nodes s;
  same_root : _cost_root s' = _cost_root s;
  same_incarnations : _incarnations s' = _incarnations s;
  same_watchers : _watchers s' = _watchers s;
  more_objects : (next_object s <= next_object s')%nat;
  idle_objects i o : (next_object s <= i)%nat -> heap s' !! i = Some o ->
    (i < next_object s')%nat /\ AgentRuntime.mail (rt o) = [] /\ (task o = None \/ task o = Some Parked)
}.

(** Objects are numbered in their order. *)
Definition bounded (s : plane) : Prop := forall i o, heap s !! i = Some o -> (i < next_object s)%nat.

(** Nobody knows the id of the child. *)
Record newcomer (id : string) (s : plane) : Prop := {
  new_runtime : id ∉ Dict.keys (_runtimes s);
  new_scheduled : id ∉ Dict.keys (_scheduled s);
  new_incarnation : id ∉ _incarnations s;
  new_cost : id ∉ Dict.keys (_cost_nodes s);
  new_child k n : Dict.get k (_cost_nodes s) = Some n -> id ∉ children n;
  new_addresses : id ∉ Dict.keys (CommGraph._addresses (_comm_graph s));
  new_path : id ∉ Dict.keys (CommGraph._paths (_comm_graph s));
  new_channels ch m : (ch, m) ∈ CommGraph._channels (_comm_graph s) -> id ∉ m
}.

(** *** What others may do while a birth is rolled back *)

(** Nobody knows the id, an incarnation apart. *)
Definition stranger (id : string) (s : plane) : Prop :=
  newcomer id (set_incarnations (_incarnations s ∖ {[ id ]}) s).

(** They may do anything that leaves the id and the path of the birth alone: the path carries
    a random part, and the id is told to nobody before the birth is committed. *)
Record leaves_alone (id : string) (path : option string) (s s' : plane) : Prop := {
  keeps_stranger : stranger id s -> stranger id s';
  keeps_incarnation : id ∈ _incarnations s' -> id ∈ _incarnations s;
  keeps_path q : path = Some q ->
    Dict.get q (AgentRegistry._agent_tree (_registry s')) = Dict.get q (AgentRegistry._agent_tree (_registry s));
  keeps_meta q a : path = Some q -> Dict.get q (AgentRegistry._agent_tree (_registry s)) = Some a ->
    AgentRegistry.meta_at a (_registry s') = AgentRegistry.meta_at a (_registry s)
}.

Definition others (id : string) (path : option string) (w w' : work) : Prop :=
  slot w' = slot w /\ reservation w' = reservation w /\ leaves_alone id path (on_plane w) (on_plane w').



(** The reversals a birth can owe when it fails. *)
Definition early (id : string) : list reversal := [RollbackSlot; RollbackReservation; Cleanup; Unregister id].

(** The path is reserved for the birth: its entry has no agent yet. *)
Definition held (rs : AgentRegistry.reservation) (reg : AgentRegistry.t) (q : string) : Prop :=
  AgentRegistry._active rs = true /\ AgentRegistry._reserved_path rs = Some q
  /\ exists a m, Dict.get q (AgentRegistry._agent_tree reg) = Some a
       /\ AgentRegistry.meta_at a reg = Some m /\ agent_id m = None.

(** Whatever of the birth is still there has its reversal among those left. *)
Record owes (id : string) (path : option string) (l : list reversal) (w : work) : Prop := {
  owes_early : Forall (fun r => r ∈ early id) l;
  owes_slot : slot w = true -> RollbackSlot ∈ l;
  owes_reservation : AgentRegistry._active (reservation w) = true -> RollbackReservation ∈ l;
  owes_path q : path = Some q ->
    Dict.get q (AgentRegistry._agent_tree (_registry (on_plane w))) = None \/ held (reservation w) (_registry (on_plane w)) q;
  owes_incarnation : id ∈ _incarnations (on_plane w) -> Unregister id ∈ l;
  owes_stranger : stranger id (on_plane w)
}.










Lemma undo_snoc b l r w : undo b (rev (l ++ [r])) w = undo b (rev l) (fst (reverse b r w)).
Proof. by rewrite rev_app_distr. Qed.

(** A step whose reversal undoes it exactly. *)
Lemma undo_exact b l r w w' : fst (reverse b r w') = w -> undo b (rev (l ++ [r])) w' = undo b (rev l) w.
Proof. intros <-. apply undo_snoc. Qed.

(** *** Each acquisition and its reversal *)

Lemma set_children_back {V} (d : list (string * V)) k v v' :
  Dict.get k d = Some v -> Dict.set k v (Dict.set k v' d) = d.
Proof.
  rewrite Dict.set_set. induction d as [|[k' x] d IH]; [done|]. simpl. case_decide.
  - intros [= ->]. by subst.
  - intros Hg. by rewrite IH.
Qed.

Lemma pop_set_new {V} (d : list (string * V)) k v : k ∉ Dict.keys d -> Dict.pop k (Dict.set k v d) = d.
Proof.
  intros H. rewrite Dict.keys_set_new by done. induction d as [|[k' x] d IH]; simpl.
  - by rewrite decide_True.
  - apply not_elem_of_cons in H as [H1 H2]. rewrite decide_False by done. by rewrite IH.
Qed.

Lemma remove_first_snoc id l : id ∉ l -> Residency.remove_first id (l ++ [id]) = l.
Proof.
  induction l as [|x l IH]; intros H; simpl; [by rewrite decide_True|].
  apply not_elem_of_cons in H as [H1 H2]. rewrite decide_False by done. by rewrite IH.
Qed.

Lemma cost_node_back trk parent id path (s : plane) :
  id ∉ Dict.keys (_cost_nodes s) -> (forall k n, Dict.get k (_cost_nodes s) = Some n -> id ∉ children n) ->
  _remove_cost_node id (_add_cost_node trk parent id path s) = s.
Proof.
  intros Hid Hch. assert (Dict.get id (_cost_nodes s) = None) as Hn by (by apply Dict.get_None_keys).
  unfold _add_cost_node. set (pid := match _ with Some _ => parent | None => _ end).
  assert (_remove_cost_node id s = s) as Hs by (unfold _remove_cost_node; by rewrite Hn).
  destruct trk as [n|]; [|done]. destruct (p ← pid; Dict.get p (_cost_nodes s)) as [pn|] eqn:Hp.
  - case_decide; [done|]. destruct pid as [q|]; [|done]. cbn in Hp.
    assert (q <> id) as Hq by (intros ->; congruence).
    unfold _remove_cost_node. cbn [_cost_nodes set_costs default]. rewrite Dict.get_set_eq. cbn [node_parent].
    rewrite pop_set_new by (rewrite Dict.elem_keys_set; naive_solver). cbn. rewrite Dict.get_set_eq. cbn.
    rewrite remove_first_snoc by eauto. rewrite set_children_back by (destruct pn; exact Hp).
    by destruct s.
  - unfold _remove_cost_node. cbn [_cost_nodes set_costs]. rewrite Dict.get_set_eq. cbn.
    rewrite pop_set_new by done. by destruct s.
Qed.

Lemma route_back id path (s : plane) :
  newcomer id s ->
  set_graph (CommGraph.remove id (CommGraph.register id None (Some path) (_comm_graph s))) s = s.
Proof.
  intros []. unfold CommGraph.remove, CommGraph.register. cbn. rewrite pop_set_new, Dict.pop_notin by done.
  assert (CommGraph.discard_member id <$> CommGraph._channels (_comm_graph s) = CommGraph._channels (_comm_graph s)) as ->.
  { rewrite <- (list_fmap_id (CommGraph._channels (_comm_graph s))) at 2. apply list_fmap_ext.
    intros i [ch m] Hi. unfold CommGraph.discard_member. cbn. f_equal.
    apply list_elem_of_lookup_2 in Hi. specialize (new_channels0 ch m Hi). set_solver. }
  destruct s as [? ? ? ? ? ? ? ? ? ? ? ? g ? ? ? ?]. by destruct g.
Qed.

Lemma watcher_back x (s : plane) : remove_watcher x (set_watchers (_watchers s ++ [x]) s) = s.
Proof.
  unfold remove_watcher. cbn. rewrite rev_app_distr. cbn. rewrite decide_True by done. cbn.
  rewrite rev_involutive. by destruct s.
Qed.

(** *** The birth keeps what its reversals need *)

Section Birth.
Context (p : SpawnPlan) (b : builder) (s : plane).

(** The transaction is open, it owes the reversals of what is there, and undoing it now would
    leave no trace. *)
Definition undone (x : work * transaction) : Prop :=
  exists w ph revs, x = (w, transaction_of ph revs)
    /\ owes (built_id b) (AgentRegistry._reserved_path (reservation w)) (rev (snd <$> revs)) w
    /\ unspawned s (on_plane (undo b (rev (snd <$> revs)) w)).

Definition holds (ph : SpawnTransaction.SpawnPhase) (l : list reversal) (pl : plane) (rs : AgentRegistry.reservation)
    (x : work * transaction) : Prop :=
  exists revs, x = (mkWork pl true rs, transaction_of ph revs) /\ snd <$> revs = l
    /\ unspawned s (on_plane (undo b (rev l) (mkWork pl true rs))).

(** Here a step may raise. *)
Definition may_raise (l : list reversal) (pl : plane) (rs : AgentRegistry.reservation) : Prop :=
  owes (built_id b) (AgentRegistry._reserved_path rs) (rev l) (mkWork pl true rs).

Lemma holds_undone ph l pl rs x : may_raise l pl rs -> holds ph l pl rs x -> undone x.
Proof. intros Hm (revs & -> & <- & H). by eexists _, _, _. Qed.

Lemma triple_at ph l pl rs q :
  may_raise l pl rs -> triple (holds ph l pl rs) (at_ b q) (fun _ => holds ph l pl rs) undone.
Proof.
  intros Hm. unfold at_. destruct (raises b q); [apply triple_fail; intros x; by apply holds_undone|by apply triple_ret].
Qed.

(** From the reservation of the identity on, while nobody but the birth knows the id. *)
Lemma may_raise_early n pl rs :
  (2 <= n)%nat -> (forall q, AgentRegistry._reserved_path rs = Some q -> held rs (_registry pl) q) ->
  (built_id b ∈ _incarnations pl -> (4 <= n)%nat) -> stranger (built_id b) pl ->
  may_raise (take n (early (built_id b))) pl rs.
Proof.
  intros Hn Hp Hi Hs. unfold may_raise.
  assert (forall r, r ∈ rev (take n (early (built_id b))) <-> r ∈ take n (early (built_id b))) as Hr
    by (intros r; rewrite !list_elem_of_In; symmetry; apply in_rev).
  destruct n as [|[|n]]; [lia|lia|]. split; auto; cbn [slot reservation on_plane].
  - apply Forall_forall. intros r. rewrite Hr, elem_of_take. intros (i & Hi' & _). by eapply list_elem_of_lookup_2.
  - intros _. apply Hr. cbn. set_solver.
  - intros _. apply Hr. cbn. set_solver.
  - intros H%Hi. apply Hr. destruct n as [|[|n]]; [lia|lia|]. cbn. set_solver.
Qed.

Lemma triple_advance ph q l pl rs :
  SpawnTransaction.value ph < SpawnTransaction.value q < 9 ->
  triple (holds ph l pl rs) (advance q None) (fun _ => holds q l pl rs) undone.
Proof.
  intros Hv x (revs & -> & Hl & H). unfold advance, SpawnTransaction.advance. cbn.
  replace (SpawnTransaction.value q <=? SpawnTransaction.value ph) with false by lia.
  replace (9 <=? SpawnTransaction.value q) with false by lia. cbn. exists (revs ++ []).
  by rewrite app_nil_r.
Qed.

Lemma triple_advance_own ph q r l pl rs :
  SpawnTransaction.value ph < SpawnTransaction.value q < 9 ->
  fst (reverse b r (mkWork pl true rs)) = mkWork pl true rs ->
  triple (holds ph l pl rs) (advance q (Some r)) (fun _ => holds q (l ++ [r]) pl rs) undone.
Proof.
  intros Hv Hr x (revs & -> & Hl & H). unfold advance, SpawnTransaction.advance. cbn.
  replace (SpawnTransaction.value q <=? SpawnTransaction.value ph) with false by lia.
  replace (9 <=? SpawnTransaction.value q) with false by lia. cbn. exists (revs ++ [(q, r)]).
  split_and!; [done|by rewrite fmap_app, Hl|]. by rewrite (undo_exact b l r _ _ Hr).
Qed.

(** A part is acquired and its reversal owned. *)
Lemma triple_acquire {A} f r (k : M A) ph l pl rs Q :
  fst (reverse b r (mkWork (f pl) true rs)) = mkWork pl true rs ->
  triple (holds ph (l ++ [r]) (f pl) rs) k Q undone ->
  triple (holds ph l pl rs) (bind (on f) (fun _ => bind (own r) (fun _ => k))) Q undone.
Proof.
  intros Hr Hk x (revs & -> & Hl & H). unfold bind at 1. cbn. apply Hk. exists (revs ++ [(ph, r)]).
  split_and!; [done|by rewrite fmap_app, Hl|]. by rewrite (undo_exact b l r _ _ Hr).
Qed.

Lemma reverse_objects r w h n :
  fst (reverse b r (with_plane (set_objects h n) w)) = with_plane (set_objects h n) (fst (reverse b r w)).
Proof.
  destruct r; try done; cbn -[AgentRegistry.rollback].
  - unfold Residency.slot_rollback. by destruct (slot w).
  - by destruct (AgentRegistry.rollback _ _).
  - unfold with_plane, _remove_cost_node. cbn. by destruct (Dict.get id _).
Qed.

Lemma undo_objects l w h n :
  on_plane (undo b l (with_plane (set_objects h n) w)) = set_objects h n (on_plane (undo b l w)).
Proof.
  revert w. induction l as [|r l IH]; intros w; [done|]. unfold undo, SpawnTransaction.undo in *. cbn [foldl].
  by rewrite reverse_objects, IH.
Qed.

(** Objects that are new and idle do not count. *)
Definition idle_from (h : gmap nat (object Outcome Blob)) (n : nat) : Prop :=
  (next_object s <= n)%nat /\
  (forall i, (i < next_object s)%nat -> h !! i = heap s !! i) /\
  forall i o, (next_object s <= i)%nat -> h !! i = Some o ->
    (i < n)%nat /\ AgentRuntime.mail (rt o) = [] /\ (task o = None \/ task o = Some Parked).

Lemma unspawned_objects s' h n : idle_from h n -> unspawned s s' -> unspawned s (set_objects h n s').
Proof. intros (Hn & Hh & Hi) []. by split. Qed.

Lemma holds_objects ph l pl rs revs h n :
  idle_from h n ->
  holds ph l pl rs (mkWork pl true rs, transaction_of ph revs) ->
  holds ph l (set_objects h n pl) rs (mkWork (set_objects h n pl) true rs, transaction_of ph revs).
Proof.
  intros Hh (revs' & [= <-] & Hl & H). exists revs. split_and!; [done|done|].
  change (mkWork (set_objects h n pl) true rs) with (with_plane (set_objects h n) (mkWork pl true rs)).
  rewrite undo_objects. by apply unspawned_objects.
Qed.

(** *** Stage by stage *)

Lemma identity_back reg rs :
  bounded s -> registry_restored (_registry s) (snd (AgentRegistry.rollback rs reg)) ->
  unspawned s (on_plane (undo b [RollbackReservation; RollbackSlot] (mkWork (set_registry reg s) true rs))).
Proof.
  intros Hb Hr. unfold undo, SpawnTransaction.undo. cbn -[AgentRegistry.rollback].
  destruct (AgentRegistry.rollback rs reg) as [rs' reg']. cbn in *. split; try done.
  intros i o Hi Ho. cbn in Ho. apply Hb in Ho. lia.
Qed.

Definition first_reversals : list reversal := [RollbackSlot; RollbackReservation].

(** After the identity is reserved: the registry holds the path for the reservation. *)
Definition identified (names : string * string) (pl : plane) (rs : AgentRegistry.reservation) : Prop :=
  exists reg, pl = set_registry reg s /\ rs = AgentRegistry.mk_reservation true (Some names.2)
    /\ held rs reg names.2
    /\ AgentRegistry._total_count reg = AgentRegistry._total_count (_registry s) + 1.

Lemma early_stage n reg rs :
  newcomer (built_id b) s -> (2 <= n)%nat ->
  (forall q, AgentRegistry._reserved_path rs = Some q -> held rs reg q) ->
  may_raise (take n (early (built_id b))) (set_registry reg s) rs.
Proof.
  intros [] Hn Hp. apply may_raise_early; [done|done|done|]. split; cbn; try done. set_solver.
Qed.

Lemma reserve_identity_triple parent_path :
  bounded s -> newcomer (built_id b) s -> 0 <= AgentRegistry._total_count (_registry s) ->
  triple (fun x => x = (mkWork s true (AgentRegistry.mk_reservation false None),
                        transaction_of SpawnTransaction.ADMITTED []))
    (reserve_identity p b parent_path)
    (fun names x => AgentPath.join parent_path (segment p b) = Ok names.2 /\ names.1 = segment p b
       /\ exists pl rs, identified names pl rs
            /\ holds SpawnTransaction.IDENTITY_RESERVED first_reversals pl rs x)
    undone.
Proof.
  intros Hb Hn Ht x ->. unfold reserve_identity, bind at 1. cbn -[segment AgentRegistry.reserve_agent_path].
  set (seg := segment p b). set (reg1 := AgentRegistry.with_nicknames _ _ _).
  assert (registry_restored (_registry s) (snd (AgentRegistry.rollback AgentRegistry.new_reservation reg1))) as H1.
  { split; cbn; try done. lia. }
  destruct (AgentPath.join parent_path seg) as [path|e].
  2:{ unfold bind. cbn -[AgentRegistry.reserve_agent_path]. eexists _, _, _. split_and!; [done|by apply (early_stage 2 reg1)|by apply identity_back]. }
  unfold bind. cbn -[AgentRegistry.reserve_agent_path].
  unfold AgentRegistry.reserve_agent_path, AgentRegistry._reserve_agent_path. cbn.
  destruct (Dict.mem path (AgentRegistry._agent_tree (_registry s))) eqn:Hm; cbn.
  { eexists _, _, _. split_and!; [done|by apply (early_stage 2 reg1)|by apply identity_back]. }
  assert (path ∉ Dict.keys (AgentRegistry._agent_tree (_registry s))) as Hp.
  { unfold Dict.mem in Hm. apply Dict.get_None_keys. by destruct (Dict.get path _). }
  split_and!; [done|done|]. set (rs := AgentRegistry.mk_reservation _ _).
  match goal with |- context [set_registry ?g _] => set (reg := g) end.
  assert (held rs reg path) as Hh.
  { split_and!; [done|done|]. eexists _, _. split_and!; [apply Dict.get_set_eq|apply lookup_insert_eq|done]. }
  exists (set_registry reg s), rs. split; [by exists reg|]. eexists. split_and!; [done|done|].
  apply identity_back; [done|]. unfold AgentRegistry.rollback, AgentRegistry._release_reserved_agent_path. cbn.
  rewrite Dict.get_set_eq. cbn. unfold AgentRegistry.meta_at. cbn. rewrite lookup_insert_eq. cbn.
  rewrite decide_True by done. split; cbn; try done.
  - by apply pop_set_new.
  - lia.
  - intros a Ha. by rewrite lookup_insert_ne by lia.
Qed.

Lemma build_triple pl rs :
  may_raise first_reversals pl rs -> may_raise (first_reversals ++ [Cleanup]) pl rs ->
  triple (holds SpawnTransaction.IDENTITY_RESERVED first_reversals pl rs) (build p b)
    (fun _ => holds SpawnTransaction.PROVISIONED (first_reversals ++ [Cleanup]) pl rs) undone.
Proof.
  intros H1 H2. unfold build. eapply triple_bind; [by apply triple_at|]. intros [].
  eapply triple_bind; [by apply triple_at|]. intros []. eapply triple_bind; [by apply triple_advance_own|]. intros [].
  set (P := holds _ _ _ _). apply (triple_bind P read (fun s0 x => P x)); [by intros x Hx|]. intros s0.
  apply (triple_bind P _ (fun _ => P)).
  { repeat case_match; (apply triple_fail; intros x; by apply holds_undone) || by apply triple_ret. }
  intros []. eapply triple_bind; [by apply triple_at|]. intros []. eapply triple_bind; [by apply triple_at|]. intros [].
  by apply triple_advance.
Qed.

(** *** The child is installed *)

Definition child_object (path : string) : object Outcome Blob :=
  mkObject (AgentRuntime.init (built_id b) (Some path) Mailbox.init MessageQueue.init) None.

(** The plane while the child has an object, an incarnation, a cost node, a runtime and a route. *)
Definition with_object (path : string) (pl : plane) : plane :=
  set_objects (<[next_object pl := child_object path]> (heap pl)) (S (next_object pl)) pl.
Definition with_incarnation (pl : plane) : plane := set_incarnations ({[ built_id b ]} ∪ _incarnations pl) pl.
Definition with_cost (path : string) (pl : plane) : plane :=
  _add_cost_node (built_tracker b) (parent_id p) (built_id b) path pl.
Definition with_runtime (i : nat) (pl : plane) : plane :=
  set_maps (Dict.set (built_id b) i (_runtimes pl)) (_scheduled pl) pl.
Definition with_route (path : string) (pl : plane) : plane :=
  set_graph (CommGraph.register (built_id b) None (Some path) (_comm_graph pl)) pl.

Definition inert (path : string) (pl : plane) : plane :=
  with_route path (with_runtime (next_object pl) (with_cost path (with_incarnation (with_object path pl)))).

Definition installed (path : string) (pl : plane) : plane :=
  if managed p then add_runtime (built_id b) (next_object pl) (inert path pl) else inert path pl.

Definition install_reversals : list reversal :=
  [Unregister (built_id b); RemoveCostNode (built_id b); RemoveRuntime (built_id b); ForgetRoute (built_id b)].

Lemma incarnation_back (pl : plane) : built_id b ∉ _incarnations pl ->
  set_incarnations (_incarnations (with_incarnation pl) ∖ {[ built_id b ]}) (with_incarnation pl) = pl.
Proof.
  intros H. unfold with_incarnation. cbn. replace (({[built_id b]} ∪ _incarnations pl) ∖ {[built_id b]})
    with (_incarnations pl) by set_solver. by destruct pl.
Qed.

Lemma runtime_back i (pl : plane) :
  built_id b ∉ Dict.keys (_runtimes pl) -> built_id b ∉ Dict.keys (_scheduled pl) ->
  _remove_runtime (built_id b) (with_runtime i pl) = pl.
Proof.
  intros H1 H2. unfold _remove_runtime, remove_runtime, with_runtime. cbn.
  rewrite pop_set_new, Dict.pop_notin by done. by destruct pl.
Qed.

(** Scheduling the child only adds it to the scheduler's map, and may give it a driver. *)
Lemma add_runtime_shape id i (pl : plane) o :
  heap pl !! i = Some o -> task o = None ->
  exists d, add_runtime id i pl
    = set_objects (<[i := mkObject (rt o) d]> (heap pl)) (next_object pl)
        (set_maps (_runtimes pl) (Dict.set id i (_scheduled pl)) pl)
  /\ (d = None \/ d = Some Parked).
Proof.
  intros Ho Ht. unfold add_runtime. cbn. destruct (_started pl).
  - unfold _spawn_driver. cbn. rewrite Ho, Ht. exists (Some Parked). split; [done|by right].
  - exists None. split; [|by left]. destruct o as [r d]. cbn in *. subst d. by rewrite insert_id.
Qed.

Lemma idle_insert h o :
  bounded s -> h = heap s -> AgentRuntime.mail (rt o) = [] -> task o = None \/ task o = Some Parked ->
  idle_from (<[next_object s := o]> h) (S (next_object s)).
Proof.
  intros Hb -> Hm Ht. split_and!; [lia| |].
  - intros i Hi. by rewrite lookup_insert_ne by lia.
  - intros i o' Hi. destruct (decide (i = next_object s)) as [->|Hne].
    + rewrite lookup_insert_eq. intros [= <-]. split; [lia|done].
    + rewrite lookup_insert_ne by done. intros Ho%Hb. lia.
Qed.

Lemma undo_scheduled l i w :
  built_id b ∉ Dict.keys (_scheduled (on_plane w)) ->
  undo b (ForgetRoute (built_id b) :: RemoveRuntime (built_id b) :: l)
    (with_plane (fun pl => set_maps (_runtimes pl) (Dict.set (built_id b) i (_scheduled pl)) pl) w)
  = undo b (ForgetRoute (built_id b) :: RemoveRuntime (built_id b) :: l) w.
Proof.
  intros H. unfold undo, SpawnTransaction.undo. cbn [foldl]. f_equal. cbn.
  unfold with_plane, _remove_runtime, remove_runtime. cbn.
  by rewrite pop_set_new, (Dict.pop_notin _ (_scheduled (on_plane w))).
Qed.

Lemma holds_scheduled ph l pl rs revs path :
  bounded s -> built_id b ∉ Dict.keys (_scheduled pl) ->
  heap pl = <[next_object s := child_object path]> (heap s) -> next_object pl = S (next_object s) ->
  holds ph (l ++ [RemoveRuntime (built_id b); ForgetRoute (built_id b)]) pl rs (mkWork pl true rs, transaction_of ph revs) ->
  holds ph (l ++ [RemoveRuntime (built_id b); ForgetRoute (built_id b)]) (add_runtime (built_id b) (next_object s) pl) rs
    (mkWork (add_runtime (built_id b) (next_object s) pl) true rs, transaction_of ph revs).
Proof.
  intros Hb Hid Hh Hx (revs' & [= <-] & Hl & H).
  destruct (add_runtime_shape (built_id b) (next_object s) pl (child_object path)) as (d & -> & Hd);
    [rewrite Hh; apply lookup_insert_eq|done|].
  rewrite Hx, Hh, insert_insert_eq. apply holds_objects; [by apply (idle_insert (heap s))|].
  exists revs. split_and!; [done|done|]. rewrite !rev_app_distr in *. cbn [rev app] in *.
  change (mkWork (set_maps (_runtimes pl) (Dict.set (built_id b) (next_object s) (_scheduled pl)) pl) true rs)
    with (with_plane (fun pl => set_maps (_runtimes pl) (Dict.set (built_id b) (next_object s) (_scheduled pl)) pl) (mkWork pl true rs)).
  by rewrite undo_scheduled.
Qed.

(** *** The stages after the identity *)

Definition identity_reversals : list reversal := first_reversals ++ [Cleanup].

Definition all_reversals : list reversal := identity_reversals ++ install_reversals.

Lemma triple_pure {A} (Phi : Prop) P (m : M A) Q R :
  (Phi -> triple P m Q R) -> triple (fun x => Phi /\ P x) m Q R.
Proof. intros H x [HP Hx]. by apply H. Qed.

Lemma cost_keeps path (pl : plane) :
  _runtimes (with_cost path pl) = _runtimes pl /\ _scheduled (with_cost path pl) = _scheduled pl
  /\ _incarnations (with_cost path pl) = _incarnations pl /\ _comm_graph (with_cost path pl) = _comm_graph pl
  /\ heap (with_cost path pl) = heap pl /\ next_object (with_cost path pl) = next_object pl
  /\ _registry (with_cost path pl) = _registry pl /\ _residency (with_cost path pl) = _residency pl
  /\ _started (with_cost path pl) = _started pl /\ _watchers (with_cost path pl) = _watchers pl
  /\ (_store (with_cost path pl) = _store pl /\ _pending (with_cost path pl) = _pending pl
      /\ _limiter (with_cost path pl) = _limiter pl /\ _spawning (with_cost path pl) = _spawning pl
      /\ _pending_waker_task (with_cost path pl) = _pending_waker_task pl).
Proof. unfold with_cost, _add_cost_node. repeat case_match; by split_and!. Qed.

Lemma route_back' path (pl : plane) :
  newcomer (built_id b) s -> _comm_graph pl = _comm_graph s ->
  set_graph (CommGraph.remove (built_id b) (_comm_graph (with_route path pl))) (with_route path pl) = pl.
Proof.
  intros Hn Hg. pose proof (route_back (built_id b) path s Hn) as H. unfold with_route. cbn.
  apply (f_equal (fun x : plane => _comm_graph x)) in H. cbn in H. rewrite Hg, H, <- Hg. by destruct pl.
Qed.

Lemma install_triple path reg rs :
  bounded s -> newcomer (built_id b) s -> (forall q, AgentRegistry._reserved_path rs = Some q -> held rs reg q) ->
  triple (holds SpawnTransaction.PROVISIONED identity_reversals (set_registry reg s) rs) (install p b path)
    (fun _ => holds SpawnTransaction.REGISTERED_INERT all_reversals (installed path (set_registry reg s)) rs) undone.
Proof.
  intros Hb Hn Hp. pose proof Hn as []. set (pl := set_registry reg s). unfold install.
  apply (triple_bind _ _ (fun i x => i = next_object s /\
    holds SpawnTransaction.PROVISIONED identity_reversals (with_object path pl) rs x)).
  { intros x (revs & -> & Hl & H). cbn. split; [done|].
    apply (holds_objects SpawnTransaction.PROVISIONED identity_reversals pl rs revs); [|by exists revs].
    apply (idle_insert (heap s)); [done|done|done|by left]. }
  intros i. apply triple_pure. intros ->. eapply triple_bind; [apply triple_at|]; [|intros []].
  { apply (may_raise_early 3); [lia|done|done|]. split; cbn; try done. set_solver. }
  set (pl1 := with_incarnation (with_object path pl)).
  apply (triple_acquire with_incarnation).
  { unfold reverse, with_plane. cbn [on_plane slot reservation fst]. by rewrite incarnation_back. }
  fold pl1. eapply triple_bind; [apply triple_at|]; [|intros []].
  { apply (may_raise_early 4); [lia|done|done|]. split; cbn; try done. set_solver. }
  apply (triple_acquire (with_cost path)).
  { unfold reverse, with_plane. cbn [on_plane slot reservation fst]. unfold with_cost. by rewrite cost_node_back. }
  destruct (cost_keeps path pl1) as (C1 & C2 & _ & C4 & C5 & C6 & _).
  apply (triple_acquire (with_runtime (next_object s))).
  { unfold reverse, with_plane. cbn [on_plane slot reservation fst]. by rewrite runtime_back by (by rewrite ?C1, ?C2). }
  apply (triple_acquire (with_route path)).
  { unfold reverse, with_plane. cbn [on_plane slot reservation fst]. by rewrite route_back' by (done || by cbn; rewrite C4). }
  rewrite <- !app_assoc. cbn [app]. eapply triple_bind; [by apply triple_advance|]. intros [].
  unfold installed, all_reversals. destruct (managed p); [|by apply triple_ret].
  intros x (revs & -> & Hl & H). cbn.
  apply (holds_scheduled SpawnTransaction.REGISTERED_INERT
    (identity_reversals ++ [Unregister (built_id b); RemoveCostNode (built_id b)]) (inert path pl) rs revs path Hb).
  - unfold inert. fold pl1. unfold with_route, with_runtime. cbn -[pl1 with_cost]. by rewrite C2.
  - unfold inert. fold pl1. unfold with_route, with_runtime. cbn -[pl1 with_cost]. by rewrite C5.
  - unfold inert. fold pl1. unfold with_route, with_runtime. cbn -[pl1 with_cost]. by rewrite C6.
  - rewrite <- app_assoc. by exists revs.
Qed.

(** The watchers of the child. *)
Definition watched (path : string) : list watcher :=
  (if managed p && watch_completion p && truthy (parent_id p)
   then [Completion (built_id b) (default ""%string (parent_id p)) (Some path) None (AgentPath.name path)] else [])
  ++ (if managed p && has_timeout p then [Deadline (built_id b)] else []).

Definition supervised (path : string) (pl : plane) : plane := set_watchers (_watchers pl ++ watched path) pl.

Lemma triple_exists {A B} (P : B -> work * transaction -> Prop) (m : M A) Q R :
  (forall l, triple (P l) m Q R) -> triple (fun x => exists l, P l x) m Q R.
Proof. intros H x [l Hx]. by apply (H l). Qed.

Lemma triple_post {A} P (m : M A) (Q Q' : A -> work * transaction -> Prop) R :
  triple P m Q R -> (forall a x, Q a x -> Q' a x) -> triple P m Q' R.
Proof. intros Hm H x Hx. specialize (Hm x Hx). destruct (m x) as [y [a|f]]; [by apply H|done]. Qed.

Lemma triple_watch (c : bool) x l pl rs :
  triple (holds SpawnTransaction.REGISTERED_INERT l pl rs)
    (if c then bind (on (fun s => set_watchers (_watchers s ++ [x]) s)) (fun _ => own (CancelSpawnWatcher x)) else ret tt)
    (fun _ y => exists l', holds SpawnTransaction.REGISTERED_INERT l'
                  (set_watchers (_watchers pl ++ (if c then [x] else [])) pl) rs y) undone.
Proof.
  destruct c.
  - intros y (revs & -> & Hl & H). cbn. exists (l ++ [CancelSpawnWatcher x]).
    exists (revs ++ [(SpawnTransaction.REGISTERED_INERT, CancelSpawnWatcher x)]).
    split_and!; [done|by rewrite fmap_app, Hl|].
    rewrite (undo_exact b l (CancelSpawnWatcher x) (mkWork pl true rs)); [done|].
    unfold reverse, with_plane. cbn [on_plane slot reservation fst]. by rewrite watcher_back.
  - apply triple_ret. intros y Hy. exists l. rewrite app_nil_r.
    by assert (set_watchers (_watchers pl) pl = pl) as -> by (by destruct pl).
Qed.

Lemma supervise_triple path l pl rs :
  triple (holds SpawnTransaction.REGISTERED_INERT l pl rs) (supervise p b path)
    (fun _ x => exists l', holds SpawnTransaction.SUPERVISED l' (supervised path pl) rs x) undone.
Proof.
  unfold supervise. eapply triple_bind; [apply triple_watch|]. intros []. apply triple_exists. intros l1.
  eapply triple_bind; [apply triple_watch|]. intros []. apply triple_exists. intros l2.
  eapply triple_post; [by apply triple_advance|]. intros [] x Hx. exists l2. unfold supervised, watched.
  rewrite app_assoc. exact Hx.
Qed.

(** *** The result *)

Definition published (nick path : string) (pl : plane) : plane :=
  let pl' := set_registry (AgentRegistry._register_spawned_agent
               (mkMeta (Some (built_id b)) (Some path) (Some nick) (Some (plan_role p)) None) (_registry pl)) pl in
  if managed p then set_residency (Residency._commit_slot (built_id b) (_residency pl)) pl' else pl'.

Lemma publish_run nick path pl rs revs :
  exists rs' tx, publish p b nick path (mkWork pl true rs, transaction_of SpawnTransaction.SUPERVISED revs)
    = ((mkWork (published nick path pl) (negb (managed p)) rs', tx), Ok tt).
Proof. unfold publish, published. destruct (managed p); by eexists _, _. Qed.

(** What a completed birth has made. *)
Record born (nick path : string) (s' : plane) : Prop := {
  born_runtime : get_runtime (built_id b) s' = Some (next_object s);
  born_heap : heap s' = <[next_object s := mkObject (rt (child_object path))
                (if managed p && _started s then Some Parked else None)]> (heap s);
  born_next : next_object s' = S (next_object s);
  born_identity : AgentRegistry.agent_metadata_for_id (built_id b) (_registry s')
                  = Some (mkMeta (Some (built_id b)) (Some path) (Some nick) (Some (plan_role p)) None);
  born_route : CommGraph.path_for (built_id b) (_comm_graph s') = Some path;
  born_scheduled : Dict.get (built_id b) (_scheduled s') = if managed p then Some (next_object s) else None;
  born_slot : _residency s' = if managed p then Residency._commit_slot (built_id b) (_residency s) else _residency s;
  born_watchers : _watchers s' = _watchers s ++ watched path;
  born_total : AgentRegistry._total_count (_registry s') = AgentRegistry._total_count (_registry s) + 1;
  born_others id : id <> built_id b -> get_runtime id s' = get_runtime id s
    /\ Dict.get id (_scheduled s') = Dict.get id (_scheduled s);
  born_rest : _store s' = _store s /\ _pending s' = _pending s /\ _limiter s' = _limiter s
    /\ _pending_waker_task s' = _pending_waker_task s /\ _spawning s' = _spawning s /\ _started s' = _started s
}.

Lemma installed_facts path reg :
  newcomer (built_id b) s ->
  let pl := installed path (set_registry reg s) in
  get_runtime (built_id b) pl = Some (next_object s)
  /\ heap pl = <[next_object s := mkObject (rt (child_object path)) (if managed p && _started s then Some Parked else None)]> (heap s)
  /\ next_object pl = S (next_object s)
  /\ CommGraph.path_for (built_id b) (_comm_graph pl) = Some path
  /\ Dict.get (built_id b) (_scheduled pl) = (if managed p then Some (next_object s) else None)
  /\ _residency pl = _residency s /\ _watchers pl = _watchers s /\ _registry pl = reg
  /\ (forall id, id <> built_id b -> get_runtime id pl = get_runtime id s
       /\ Dict.get id (_scheduled pl) = Dict.get id (_scheduled s))
  /\ (_store pl = _store s /\ _pending pl = _pending s /\ _limiter pl = _limiter s
      /\ _pending_waker_task pl = _pending_waker_task s /\ _spawning pl = _spawning s /\ _started pl = _started s).
Proof.
  intros Hn pl. pose proof Hn as [].
  set (pl1 := with_incarnation (with_object path (set_registry reg s))).
  destruct (cost_keeps path pl1) as (C1 & C2 & C3 & C4 & C5 & C6 & C7 & C8 & C9 & C10 & C11).
  assert (inert path (set_registry reg s) = with_route path (with_runtime (next_object s) (with_cost path pl1))) as Hi by done.
  set (q := with_cost path pl1) in *.
  assert (heap q = <[next_object s := child_object path]> (heap s)) as Hh by (by rewrite C5).
  assert (Dict.get (built_id b) (_scheduled q) = None) as Hs by (rewrite C2; by apply Dict.get_None_keys).
  subst pl. unfold installed. rewrite Hi. clear Hi.
  set (pl2 := with_route path (with_runtime (next_object s) q)).
  assert (heap pl2 = heap q /\ next_object pl2 = S (next_object s)) as [P1 P2] by (split; [done|by cbn -[q]; rewrite C6]).
  change (next_object (set_registry reg s)) with (next_object s).
  unfold get_runtime, CommGraph.path_for. destruct (managed p); cbn [andb].
  - assert (add_runtime (built_id b) (next_object s) pl2 = set_objects
      (<[next_object s := mkObject (rt (child_object path)) (if _started s then Some Parked else None)]> (heap s))
      (S (next_object s)) (set_maps (_runtimes pl2) (Dict.set (built_id b) (next_object s) (_scheduled pl2)) pl2)) as ->.
    { unfold add_runtime. cbn -[pl2 child_object].
      assert (_started pl2 = _started s) as -> by (cbn -[q]; rewrite C9; done). destruct (_started s).
      - unfold _spawn_driver. cbn -[pl2 child_object]. rewrite P1, Hh, lookup_insert_eq. cbn -[pl2].
        unfold set_object. cbn -[pl2]. by rewrite P2, P1, Hh, insert_insert_eq.
      - change (mkObject (rt (child_object path)) None) with (child_object path). rewrite <- Hh, <- P1, <- P2.
        by destruct pl2. }
    cbn -[q child_object]. rewrite C8, C10, C7, C1, C2, C9, !Dict.get_set_eq. destruct C11 as (-> & -> & -> & -> & ->).
    split_and!; try done. intros id Hid. by rewrite !Dict.get_set_ne.
  - cbn -[q child_object]. rewrite C8, C10, C7, C1, C2, C9, Hh, C6, !Dict.get_set_eq. destruct C11 as (-> & -> & -> & -> & ->).
    split_and!; try done; [by apply Dict.get_None_keys|]. intros id Hid. by rewrite Dict.get_set_ne.
Qed.

End Birth.

Lemma registered_identity m id reg :
  agent_id m = Some id ->
  AgentRegistry.agent_metadata_for_id id (AgentRegistry._register_spawned_agent m reg) = Some m.
Proof.
  intros Hm. unfold AgentRegistry._register_spawned_agent. rewrite Hm.
  destruct (AgentRegistry.truthy _); unfold AgentRegistry.agent_metadata_for_id, AgentRegistry.meta_at; cbn;
    rewrite lookup_insert_eq; cbn; by rewrite lookup_insert_eq.
Qed.

Lemma registered_total m reg :
  AgentRegistry._total_count (AgentRegistry._register_spawned_agent m reg) = AgentRegistry._total_count reg.
Proof. unfold AgentRegistry._register_spawned_agent. destruct (agent_id m); [|done]. by destruct (AgentRegistry.truthy _). Qed.

Lemma birth_triple p b parent_path s :
  bounded s -> newcomer (built_id b) s -> 0 <= AgentRegistry._total_count (_registry s) ->
  triple (fun x => x = (mkWork s true (AgentRegistry.mk_reservation false None),
                        transaction_of SpawnTransaction.ADMITTED []))
    (birth p b parent_path)
    (fun path x => AgentPath.join parent_path (segment p b) = Ok path
       /\ slot (fst x) = negb (managed p) /\ born p b s (segment p b) path (on_plane (fst x)))
    (undone b s).
Proof.
  intros Hb Hn Ht. unfold birth. eapply triple_bind; [by apply reserve_identity_triple|].
  intros [nick path]. cbn [fst snd]. apply triple_pure. intros Hj. apply triple_pure. intros ->.
  do 2 (apply triple_exists; intros ?). apply triple_pure. intros (reg & -> & -> & Hh & Hc). cbn [snd] in *.
  assert (forall q, Some path = Some q -> held (AgentRegistry.mk_reservation true (Some path)) reg q) as Hq by congruence.
  eapply triple_bind; [apply build_triple; [apply (early_stage b s 2)|apply (early_stage b s 3)]; done || lia|]. intros [].
  eapply triple_bind; [by apply install_triple|]. intros [].
  eapply triple_bind; [apply supervise_triple|]. intros []. apply triple_exists. intros l.
  destruct (installed_facts p b s path reg Hn) as (F1 & F2 & F3 & F4 & F5 & F6 & F7 & F8 & F9 & F10).
  set (pl := installed p b path (set_registry reg s)) in *.
  intros x (revs & -> & _ & _).
  destruct (publish_run p b (segment p b) path (supervised p b path pl) (AgentRegistry.mk_reservation true (Some path)) revs)
    as (rs' & tx & Hp). unfold bind. rewrite Hp. cbn -[published supervised segment]. split_and!; [done|done|].
  unfold published, supervised.
  split; destruct (managed p); cbn -[segment AgentRegistry._register_spawned_agent]; try done.
  all: try by rewrite registered_identity. all: try (rewrite registered_total; by rewrite F8). all: by rewrite ?F6, ?F7.
Qed.

Lemma spawned_spec p b parent_path s :
  bounded s -> newcomer (built_id b) s -> 0 <= AgentRegistry._total_count (_registry s) ->
  match spawned p b parent_path s with
  | (s', Raise _) => unspawned s s'
  | (s', Ok h) =>
      exists path, AgentPath.join parent_path (segment p b) = Ok path
        /\ h = mkHandle (built_id b) path (if managed p then None else Some true) false
        /\ born p b s (segment p b) path s'
  end.
Proof.
  intros Hb Hn Ht. pose proof (birth_triple p b parent_path s Hb Hn Ht _ eq_refl) as H. unfold spawned.
  change (fst (SpawnTransaction.advance (E := string) SpawnTransaction.ADMITTED None SpawnTransaction.init))
    with (transaction_of SpawnTransaction.ADMITTED []).
  destruct (birth p b parent_path _) as [[w tx] [path|f]].
  - destruct H as (Hj & Hs & Hbo). exists path. cbn in Hs. rewrite Hs. split_and!; [done| |done]. by destruct (managed p).
  - destruct f as [e|]; [|done]. destruct H as (w' & ph & revs & [= <- ->] & _ & H).
    pose proof (SpawnTransaction.rollback_runs (reverse b) (transaction_of ph revs) w eq_refl eq_refl) as Hr.
    destruct (SpawnTransaction.rollback (reverse b) _ w) as [[tx' w'] o]. destruct Hr as (-> & _). exact H.
Qed.




(** A spawn that the limits refuse changes nothing. *)
Lemma spawn_denied p b g s :
  accepted (SpawnAdmissionPolicy.process _spawn_policy (intent p g (_resolve_parent_path (parent_id p) s))) = false ->
  exists d, spawn_agent p b g s = (s, inr (Raise (Denied d))).
Proof. intros H. unfold spawn_agent. rewrite H. by eexists. Qed.

(** The handle of an ephemeral child gives its slot back, and the child is forgotten, once. *)
Lemma ephemeral_closed p b parent_path s path s' :
  bounded s -> newcomer (built_id b) s -> 0 <= AgentRegistry._total_count (_registry s) -> managed p = false ->
  spawned p b parent_path s = (s', Ok (mkHandle (built_id b) path (Some true) false)) ->
  let (h, s'') := aclose (mkHandle (built_id b) path (Some true) false) s' in
  _residency s'' = Residency.remove (built_id b) (Residency._release_pending_slot (_residency s))
  /\ get_runtime (built_id b) s'' = None
  /\ AgentRegistry.agent_metadata_for_id (built_id b) (_registry s'') = None
  /\ CommGraph.path_for (built_id b) (_comm_graph s'') = None
  /\ aclose h s'' = (h, s'').
Proof.
  intros Hb Hn Ht Hm E. pose proof (spawned_spec p b parent_path s Hb Hn Ht) as H. rewrite E in H.
  destruct H as (path' & _ & _ & []). rewrite Hm in *. cbn -[AgentRegistry.release_spawned_agent].
  split_and!.
  - by rewrite born_slot0.
  - unfold get_runtime. cbn. apply Dict.get_pop_eq.
  - unfold AgentRegistry.agent_metadata_for_id, AgentRegistry.release_spawned_agent.
    destruct (AgentRegistry._by_agent_id (_registry s') !! built_id b) as [a|] eqn:Ha; [|by rewrite Ha].
    cbn. destruct (AgentRegistry.heap (_registry s') !! a) as [m|]; [|cbn; by rewrite lookup_delete_eq].
    destruct (AgentRegistry.is_root_meta m); cbn; by rewrite lookup_delete_eq.
  - unfold CommGraph.path_for. cbn. apply Dict.get_pop_eq.
  - done.
Qed.

End Spawn.
End AgentSpawn.

(** ** A concrete birth *)
Module SpawnExample.
Import AgentRuntime AgentControl AgentSpawn.

Definition granted : AgentControl.t unit unit :=
  set_residency (Residency.mk [] 1) (AgentControl.init (Some 2)).

Definition plan : SpawnPlan := mkPlan (Some "Coder 1"%string) None true true None true "coder" false.

(** The cost tracker cannot be read, and the cleanup of the child raises, too. *)
Definition failing : builder :=
  mkBuilder (fun q => match q with InTracker => Some "boom"%string | _ => None end) "s1" (Some 7%nat)
    (Some "cleanup"%string) "0a1b2c3d".











(** The nickname of a failed birth stays taken. *)
Lemma nickname_kept :
  "coder_1_0a1b2c3d"%string ∈ AgentRegistry._used_agent_nicknames (_registry (fst (spawned plan failing "/root" granted))).
Proof. vm_compute. reflexivity. Qed.

End SpawnExample.
