(* ===== verification/AgentDelivery.v ===== *)
(** * Mail between agents, under every interleaving

    The steps of a session's control plane, each the code between two points where a coroutine
    waits ([AgentControl.v], [AgentSpawn.v]), in any order; what becomes of a message that was
    accepted; and that mail which must start a turn gets one. *)

From S2P Require Import Prelude Messaging AgentPath AgentRegistry Residency AgentRuntime SpawnAdmission AgentControl AgentSpawn.

Local Open Scope Z_scope.

Module AgentDelivery.
Import AgentRuntime AgentControl AgentSpawn.

(** The coroutines that run a pass or a reservation: the driver of a runtime, the waker, a spawn. *)
Inductive owner : Type := ByDriver (i : nat) | ByWaker | BySpawn (k : nat).

Section System.
Context {Outcome Blob : Type} (is_rejected : Outcome -> bool).
Context (dump_message : Message -> Blob) (load_message : Blob -> option Message).
Context (_residency_capacity _max_depth : option Z).
Context (_spawn_policy : list SpawnAdmissionPolicy.extension).

Notation plane := (AgentControl.t Outcome Blob).
Notation send_input := (send_input load_message _residency_capacity).
Notation send_inter_agent_communication := (send_inter_agent_communication load_message _residency_capacity).
Notation reserve := (reserve dump_message _residency_capacity).
Notation scan := (scan dump_message).
Notation resume_flush := (resume_flush dump_message load_message _residency_capacity).
Notation empty_record := (mkRecord (Blob := Blob) [] []).

(** ** Steps *)

Definition eviction_of (w : owner) (s : plane) : option (eviction Blob) :=
  match w with
  | ByDriver i => match heap s !! i with Some (mkObject _ (Some (Flushing ev))) => Some ev | _ => None end
  | ByWaker => match _pending_waker_task s with Some (Waking ev) => Some ev | _ => None end
  | BySpawn k => _spawning s !! k
  end.

Definition set_eviction (w : owner) (ev : eviction Blob) (s : plane) : plane :=
  match w with
  | ByDriver i => set_task i (Some (Flushing ev)) s
  | ByWaker => set_tasks (Some (Waking ev)) (_spawning s) s
  | BySpawn k => set_tasks (_pending_waker_task s) (<[k := ev]> (_spawning s)) s
  end.

(** The record of the candidate reaches the disk. *)
Definition eviction_written (w : owner) (s : plane) : plane :=
  match eviction_of w s with
  | Some ev =>
      set_eviction w (mkEviction (purpose ev) (left_to_scan ev) (candidate ev) (victim ev) (snapshot ev) true)
        (store_write (candidate ev) (snapshot ev) s)
  | None => s
  end.

(** The eviction succeeded, after its record was written, or failed. *)
Definition after_eviction (ev : eviction Blob) (ok : bool) (s : plane) : plane * acquired (Blob := Blob) :=
  let protected := match purpose ev with ForDelivery _ _ => None | ForSpawn p => p end in
  if ok then reserve protected (evict is_rejected ev s)
  else after_scan (scan (left_to_scan ev) protected (touch (candidate ev) s)).

Definition flushes (w : owner) (x : plane * option (eviction Blob)) : plane :=
  match w with
  | ByDriver i => driver_flushes i x
  | _ => waker_flushes x
  end.

Definition put_spawn (k : nat) (x : plane * (eviction Blob + outcome spawn_exn ChildAgentHandle)) : plane :=
  match x with
  | (s, inl ev) => set_tasks (_pending_waker_task s) (<[k := ev]> (_spawning s)) s
  | (s, inr _) => set_tasks (_pending_waker_task s) (delete k (_spawning s)) s
  end.

Inductive op : Type :=
| Send (e : env) (id : string) (m : Message) (mode : DeliveryMode)
| SendComm (e : env) (id : string) (c : InterAgentCommunication)
| DriverWakes (i : nat)
| Observes (i : nat) (max_priority : Z)
| Pushes (i : nat) (m : Message) (priority : Z)
| TurnEnds (e : env) (i : nat) (how : run_end Outcome)
| WakerWakes (e : env)
| EvictionWritten (w : owner)
| EvictionEnds (e : env) (w : owner) (ok : bool)
| Spawn (k : nat) (p : SpawnPlan) (b : builder) (g : budget)
| SpawnResumes (k : nat) (p : SpawnPlan) (b : builder) (parent_path : string) (ok : bool)
| Add (r : AgentRuntime.t Outcome) (metadata : option AgentMetadata) (root : bool) (trk : option nat)
| Release (id : string)
| Interrupt (id : string)
| Watch (e : env) (x : watcher)
| Start
| Stop.

Definition run_op (o : op) (s : plane) : plane :=
  match o with
  | Send e id m mode => fst (send_input e id m mode s)
  | SendComm e id c => fst (send_inter_agent_communication e id c s)
  | DriverWakes i => driver_wakes i s
  | Observes i p => fst (observe i p s)
  | Pushes i m p => update i (fun r => with_buffer (MessageQueue.push m p (msg_buffer r)) r) s
  | TurnEnds e i how => turn_ends is_rejected dump_message load_message _residency_capacity e i how s
  | WakerWakes e => waker_wakes dump_message load_message _residency_capacity e s
  | EvictionWritten w => eviction_written w s
  | EvictionEnds e w ok =>
      match eviction_of w s with
      | Some ev =>
          match purpose ev with
          | ForDelivery id todo =>
              if ok && negb (written ev) then s
              else flushes w (resume_flush e id todo (after_eviction ev ok s))
          | ForSpawn _ => s
          end
      | None => s
      end
  | Spawn k p b g =>
      put_spawn k (spawn_agent dump_message _residency_capacity _max_depth _spawn_policy p b g s)
  | SpawnResumes k p b parent_path ok =>
      match _spawning s !! k with
      | Some ev => if ok && negb (written ev) then s
                   else put_spawn k (spawn_after p b parent_path (after_eviction ev ok s))
      | None => s
      end
  | Add r m root trk => add_agent r m root trk s
  | Release id => release_child id s
  | Interrupt id => fst (interrupt is_rejected id s)
  | Watch e x => fst (watch is_rejected load_message _residency_capacity e x s)
  | Start => start s
  | Stop => stop is_rejected s
  end.

(** ** What was accepted, and what the roles took *)

Definition is_accepted {A E} (o : outcome E A) : bool := is_ok o.

(** The message a watcher sends when it fires. *)
Definition notice (x : watcher) (s : plane) : option (string * InterAgentCommunication) :=
  match x with
  | Completion child parent child_path parent_path reference =>
      o ← (i ← get_runtime child s; heap s !! i);
      if is_final (status (rt o)) && negb (active_turn (rt o)) && Mailbox.empty (mailbox (rt o))
      then Some (parent, mkComm (default AgentPath.ROOT child_path) (default AgentPath.ROOT parent_path)
             (format_completion_notification reference (status (rt o))) false NOTIFICATION None)
      else None
  | Deadline _ => None
  end.

Definition accepted_by (o : op) (s : plane) : list (string * Message) :=
  match o with
  | Send e id m mode => if is_accepted (snd (send_input e id m mode s)) then [(id, m)] else []
  | SendComm e id c => if is_accepted (snd (send_inter_agent_communication e id c s)) then [(id, to_message c)] else []
  | Pushes i m _ => match heap s !! i with Some o => [(session_id (rt o), m)] | None => [] end
  | Add r _ _ _ => (fun m => (session_id r, m)) <$> mail r
  | Watch e x => match notice x s with
                 | Some (parent, c) => if is_accepted (snd (send_inter_agent_communication e parent c s))
                                       then [(parent, to_message c)] else []
                 | None => []
                 end
  | _ => []
  end.

Definition taken_by (o : op) (s : plane) : list (string * Message) :=
  match o with
  | Observes i p => match heap s !! i with
                    | Some o => (fun m => (session_id (rt o), m)) <$> snd (observe i p s)
                    | None => []
                    end
  | _ => []
  end.

(** The plane after the steps, with everything that was accepted and taken. *)
Fixpoint run (l : list op) (s : plane) : plane * list (string * Message) * list (string * Message) :=
  match l with
  | [] => (s, [], [])
  | o :: l => let '(s', acc, tak) := run l (run_op o s) in (s', accepted_by o s ++ acc, taken_by o s ++ tak)
  end.

(** ** What the plane holds for an agent *)

Definition mail_at (i : nat) (s : plane) : list Message :=
  match heap s !! i with Some o => mail (rt o) | None => [] end.

Definition live_mail (id : string) (s : plane) : list Message :=
  match get_runtime id s with Some i => mail_at i s | None => [] end.

Definition message_of (d : PendingDeliveryQueue.PendingDelivery) : Message :=
  match d with
  | PendingDeliveryQueue.OfMessage m _ => m
  | PendingDeliveryQueue.OfCommunication c => to_message c
  end.

Definition parked (id : string) (s : plane) : list Message :=
  message_of <$> PendingDeliveryQueue.queue id (_pending s).

Definition held (id : string) (s : plane) : list Message := live_mail id s ++ parked id s.

Definition to (id : string) (l : list (string * Message)) : list Message :=
  omap (fun x => if decide (x.1 = id) then Some x.2 else None) l.

(** The mail of the runtime and of the mailbox, which is all that counts of an object. *)
Definition key (o : object Outcome Blob) : string * MessageQueue.t * Mailbox.t :=
  (session_id (rt o), msg_buffer (rt o), mailbox (rt o)).

(** *** Well-kept planes *)
Record good (s : plane) : Prop := {
  g_live id i : get_runtime id s = Some i -> exists o, heap s !! i = Some o /\ session_id (rt o) = id;
  g_bound : bounded s;
  g_dead i o : heap s !! i = Some o -> get_runtime (session_id (rt o)) s <> Some i -> mail (rt o) = [];
  g_store id rec : Dict.get id (_store s) = Some rec -> rec = empty_record;
  g_tasks w ev : eviction_of w s = Some ev -> snapshot ev = empty_record;
  g_parked id : parked id s <> [] -> get_runtime id s <> None \/ has id s = true;
  g_plain id : Forall Mailbox.plain (parked id s);
  g_total : 0 <= AgentRegistry._total_count (_registry s)
}.

(** *** Steps that leave the mail alone *)
Record quiet (s s' : plane) : Prop := {
  q_runtimes : _runtimes s' = _runtimes s;
  q_heap i : key <$> heap s' !! i = key <$> heap s !! i;
  q_next : next_object s' = next_object s;
  q_store : _store s' = _store s;
  q_queues : PendingDeliveryQueue._queues (_pending s') = PendingDeliveryQueue._queues (_pending s);
  q_total : AgentRegistry._total_count (_registry s') = AgentRegistry._total_count (_registry s);
  q_tasks w ev : eviction_of w s' = Some ev -> eviction_of w s = Some ev \/ snapshot ev = empty_record
}.

#[export] Instance quiet_refl : Reflexive quiet.
Proof. split; try done. by left. Qed.

#[export] Instance quiet_trans : Transitive quiet.
Proof.
  intros s1 s2 s3 [] []. split; try congruence. intros w ev H. destruct (q_tasks1 w ev H); [by apply q_tasks0|by right].
Qed.

Lemma mail_key o o' : key o = key o' -> mail (rt o) = mail (rt o') /\ session_id (rt o) = session_id (rt o').
Proof. unfold key, mail. by intros [= -> -> ->]. Qed.

Lemma quiet_object s s' i o' : quiet s s' -> heap s' !! i = Some o' -> exists o, heap s !! i = Some o /\ key o = key o'.
Proof.
  intros [_ Hh _ _ _ _ _] Ho. specialize (Hh i). rewrite Ho in Hh. cbn in Hh. symmetry in Hh.
  apply fmap_Some in Hh as (o & ? & ?). by exists o.
Qed.

Lemma quiet_mail s s' : quiet s s' -> forall i, mail_at i s' = mail_at i s.
Proof.
  intros Hq i. unfold mail_at. destruct (heap s' !! i) as [o'|] eqn:E.
  - destruct (quiet_object s s' i o' Hq E) as (o & -> & Hk). by apply mail_key in Hk as [-> _].
  - pose proof (q_heap _ _ Hq i) as Hh. rewrite E in Hh. by destruct (heap s !! i).
Qed.

Lemma quiet_held s s' id : quiet s s' -> held id s' = held id s.
Proof.
  intros Hq. unfold held, live_mail, parked, get_runtime, PendingDeliveryQueue.queue.
  rewrite (q_runtimes _ _ Hq), (q_queues _ _ Hq). f_equal. destruct (Dict.get id _); [by apply quiet_mail|done].
Qed.

Lemma quiet_good s s' : quiet s s' -> good s -> good s'.
Proof.
  intros Hq []. pose proof Hq as [Q1 Q2 Q3 Q4 Q5 Q6 Q7]. unfold get_runtime, has, parked, PendingDeliveryQueue.queue in *.
  split; unfold get_runtime, has, parked, PendingDeliveryQueue.queue; rewrite ?Q1, ?Q4, ?Q5, ?Q6; try done.
  - intros id i H. destruct (g_live0 id i H) as (o & Ho & Hs). specialize (Q2 i). rewrite Ho in Q2.
    destruct (heap s' !! i) as [o'|] eqn:E; [|done]. injection Q2 as Hk _ _. exists o'. split; [done|congruence].
  - intros i o' E. destruct (quiet_object s s' i o' Hq E) as (o & Ho & _). rewrite Q3. by apply (g_bound0 i o).
  - intros i o' E Hd. destruct (quiet_object s s' i o' Hq E) as (o & Ho & Hk). apply mail_key in Hk as [Hm Hs].
    rewrite <- Hm. apply (g_dead0 i o Ho). by rewrite Hs.
  - intros w ev H. destruct (Q7 w ev H); [by apply (g_tasks0 w)|done].
Qed.

(** *** Quiet parts of the code *)

Lemma quiet_other s s' :
  _runtimes s' = _runtimes s -> heap s' = heap s -> next_object s' = next_object s -> _store s' = _store s ->
  PendingDeliveryQueue._queues (_pending s') = PendingDeliveryQueue._queues (_pending s) ->
  AgentRegistry._total_count (_registry s') = AgentRegistry._total_count (_registry s) ->
  _pending_waker_task s' = _pending_waker_task s -> _spawning s' = _spawning s -> quiet s s'.
Proof.
  intros H1 H2 H3 H4 H5 H6 H7 H8. split; try done; [intros i; by rewrite H2|].
  intros w ev. destruct w; cbn; rewrite ?H2, ?H7, ?H8; by left.
Qed.

Lemma quiet_residency r s : quiet s (set_residency r s).
Proof. by apply quiet_other. Qed.

Lemma quiet_limiter l s : quiet s (set_limiter l s).
Proof. by apply quiet_other. Qed.

Lemma quiet_touch id s : quiet s (touch id s).
Proof. by apply quiet_other. Qed.

Lemma quiet_record id text s : quiet s (_record_last_task_message id text s).
Proof.
  apply quiet_other; try done. unfold _record_last_task_message. cbn. case_decide.
  all: unfold AgentRegistry.clear_last_task_message, AgentRegistry.update_last_task_message, AgentRegistry.set_last_task_message;
    by destruct (_ !! _).
Qed.

(** A change of one object that keeps its mail. *)
Lemma quiet_object_change i o o' s :
  heap s !! i = Some o -> key o' = key o ->
  (forall ev, task o' = Some (Flushing ev) -> task o = Some (Flushing ev) \/ snapshot ev = empty_record) ->
  quiet s (set_object i o' s).
Proof.
  intros Ho Hk Ht. split; try done.
  - intros j. cbn. destruct (decide (j = i)) as [->|Hne]; [|by rewrite lookup_insert_ne].
    rewrite lookup_insert_eq, Ho. cbn. by f_equal.
  - intros [j| |k] ev; cbn; [|by left..]. destruct (decide (j = i)) as [->|Hne]; [|rewrite lookup_insert_ne by done; by left].
    rewrite lookup_insert_eq, Ho. destruct o as [r d], o' as [r' d']. cbn in *.
    destruct d' as [[| |ev']|]; try done. intros [= ->]. destruct (Ht ev eq_refl) as [->|]; [by left|by right].
Qed.

Lemma quiet_update i f s :
  (forall r, session_id (f r) = session_id r /\ msg_buffer (f r) = msg_buffer r /\ mailbox (f r) = mailbox r) ->
  quiet s (update i f s).
Proof.
  intros Hf. unfold update. destruct (heap s !! i) as [o|] eqn:E; [|reflexivity]. eapply quiet_object_change; [done| |].
  - unfold key. cbn. by destruct (Hf (rt o)) as (-> & -> & ->).
  - by left.
Qed.

Lemma quiet_set_task i d s :
  (forall ev, d = Some (Flushing ev) -> snapshot ev = empty_record) -> quiet s (set_task i d s).
Proof.
  intros Hd. unfold set_task. destruct (heap s !! i) as [o|] eqn:E; [|reflexivity].
  eapply quiet_object_change; [done|done|]. intros ev H. right. by apply Hd.
Qed.

Lemma quiet_tasks w sp s :
  (forall ev, w = Some (Waking ev) -> _pending_waker_task s = w \/ snapshot ev = empty_record) ->
  (forall k ev, sp !! k = Some ev -> _spawning s !! k = Some ev \/ snapshot ev = empty_record) ->
  quiet s (set_tasks w sp s).
Proof.
  intros Hw Hs. split; try done. intros [i| |k] ev; cbn; [by left| |by apply Hs].
  destruct w as [[|ev']|]; try done. intros [= ->]. destruct (Hw ev eq_refl) as [->|]; [by left|by right].
Qed.

Lemma quiet_spawn_driver i s : quiet s (_spawn_driver i s).
Proof.
  unfold _spawn_driver. destruct (heap s !! i) as [o|] eqn:E; [|reflexivity]. destruct (task o) eqn:Ht; [reflexivity|].
  by eapply quiet_object_change.
Qed.

Lemma quiet_loop_head i s : quiet s (loop_head i s).
Proof.
  unfold loop_head. destruct (heap s !! i) as [o|]; [|reflexivity]. apply quiet_set_task. intros ev. by destruct (_stopped _).
Qed.

Lemma quiet_cancel i s : quiet s (cancel_task is_rejected i s).
Proof.
  unfold cancel_task. destruct (heap s !! i) as [[r [[| |ev]|]]|] eqn:E; try reflexivity.
  - by eapply quiet_object_change.
  - etrans; [|apply quiet_limiter]. by eapply quiet_object_change.
  - by eapply quiet_object_change.
Qed.

Lemma quiet_shutdown i s : quiet s (shutdown is_rejected i s).
Proof. etrans; [by apply (quiet_update i shutdown_flags)|apply quiet_cancel]. Qed.

Lemma quiet_fold {A} (f : plane -> A -> plane) l s : (forall s x, quiet s (f s x)) -> quiet s (foldl f s l).
Proof. intros H. revert s. induction l as [|x l IH]; intros s; [reflexivity|]. etrans; [apply H|apply IH]. Qed.

Lemma quiet_start s : quiet s (start s).
Proof.
  unfold start, scheduler_start.
  assert (quiet s (foldl (fun s kv => _spawn_driver kv.2 s) (set_started true s) (_scheduled s))) as H.
  { etrans; [|apply quiet_fold; intros; apply quiet_spawn_driver]. by apply quiet_other. }
  destruct (_pending_waker_task _) eqn:E; [exact H|]. etrans; [exact H|]. apply quiet_tasks; [done|by left].
Qed.

Lemma quiet_stop s : quiet s (stop is_rejected s).
Proof.
  unfold stop, scheduler_stop. etrans; [|apply quiet_fold; intros; apply quiet_shutdown].
  etrans; [|by apply (quiet_other (set_tasks None (_spawning s) (set_watchers [] s)))].
  etrans; [by apply (quiet_other s (set_watchers [] s))|]. apply quiet_tasks; [done|by left].
Qed.

Lemma quiet_interrupt id s : quiet s (fst (interrupt is_rejected id s)).
Proof.
  unfold interrupt. destruct (get_runtime id s) as [i|]; [|reflexivity]. destruct (heap s !! i) as [o|]; [|reflexivity].
  cbn. destruct (_ && active_turn (rt o)).
  - unfold ensure_driver. etrans; [apply (quiet_cancel i)|]. destruct (heap _ !! i); [|reflexivity].
    destruct (_ && _); [apply quiet_spawn_driver|reflexivity].
  - destruct (negb _); [by apply quiet_update|reflexivity].
Qed.

Lemma scan_quiet n protected s :
  let (s', r) := scan n protected s in
  quiet s s' /\ match r with Some (_, _, _, rec) => rec = empty_record | None => True end.
Proof.
  revert s. induction n as [|n IH]; intros s; cbn [AgentControl.scan]; [done|].
  destruct (Residency._pop_lru_candidate protected (_residency s)) as [r c].
  destruct c as [c|]; [|split; [apply quiet_residency|done]].
  pose proof (quiet_residency r s) as Hr. destruct (get_runtime c _) as [i|].
  2:{ specialize (IH (set_residency r s)). destruct (scan n protected _) as [s' x]. destruct IH. split; [by etrans|done]. }
  destruct (heap _ !! i) as [o|].
  2:{ specialize (IH (set_residency r s)). destruct (scan n protected _) as [s' x]. destruct IH. split; [by etrans|done]. }
  destruct (is_unloadable (rt o)) eqn:Hu.
  - split; [done|]. by apply unloadable_record.
  - specialize (IH (touch c (set_residency r s))). destruct (scan n protected _) as [s' x]. destruct IH.
    split; [|done]. etrans; [exact Hr|]. etrans; [apply quiet_touch|done].
Qed.

(** The slot is there, or there is no room, or an idle resident is to be evicted, whose record
    holds no mail. *)
Definition acquired_ok (a : acquired (Blob := Blob)) : Prop :=
  match a with Waits _ _ _ rec => rec = empty_record | _ => True end.

Lemma reserve_quiet protected s : let (s', a) := reserve protected s in quiet s s' /\ acquired_ok a.
Proof.
  unfold AgentControl.reserve. destruct (Residency._try_reserve_pending_slot _ _) as [r [|]].
  - split; [apply quiet_residency|done].
  - pose proof (scan_quiet (length (Residency._residents (_residency (set_residency r s)))) protected (set_residency r s)) as H.
    destruct (scan _ _ _) as [s' [[[[n c] i] rec]|]]; cbn; destruct H; (split; [etrans; [apply quiet_residency|done]|done]).
Qed.

(** *** Changes of one object's mail *)

Definition gains (id : string) (ms : list Message) (s s' : plane) : Prop :=
  forall id', held id' s' ≡ₚ held id' s ++ (if decide (id' = id) then ms else []).

Definition keeps (s s' : plane) : Prop := forall id, held id s' ≡ₚ held id s.

Lemma quiet_keeps s s' : quiet s s' -> keeps s s'.
Proof. intros H id. by rewrite (quiet_held s s'). Qed.

Lemma keeps_refl s : keeps s s.
Proof. by intros id. Qed.

Lemma keeps_trans s1 s2 s3 : keeps s1 s2 -> keeps s2 s3 -> keeps s1 s3.
Proof. intros H1 H2 id. by rewrite (H2 id), (H1 id). Qed.

Lemma gains_keeps id ms s1 s2 s3 : gains id ms s1 s2 -> keeps s2 s3 -> gains id ms s1 s3.
Proof. intros H1 H2 id'. by rewrite (H2 id'), (H1 id'). Qed.

Lemma keeps_gains id ms s1 s2 s3 : keeps s1 s2 -> gains id ms s2 s3 -> gains id ms s1 s3.
Proof. intros H1 H2 id'. by rewrite (H2 id'), (H1 id'). Qed.

Section Change.
Context (i : nat) (f : AgentRuntime.t Outcome -> AgentRuntime.t Outcome) (s : plane).
Context (Hsession : forall r, session_id (f r) = session_id r).

Lemma update_fields :
  _runtimes (update i f s) = _runtimes s /\ _store (update i f s) = _store s
  /\ _pending (update i f s) = _pending s /\ next_object (update i f s) = next_object s
  /\ _registry (update i f s) = _registry s.
Proof. unfold update. by destruct (heap s !! i). Qed.

Lemma update_heap j :
  heap (update i f s) !! j = (fun o => if decide (j = i) then mkObject (f (rt o)) (task o) else o) <$> heap s !! j.
Proof using Hsession.
  unfold update. destruct (heap s !! i) as [o|] eqn:E; cbn.
  - destruct (decide (j = i)) as [->|Hne]; [by rewrite lookup_insert_eq, E|].
    rewrite lookup_insert_ne by done. by destruct (heap s !! j).
  - destruct (heap s !! j) eqn:Ej; [|done]. cbn. destruct (decide (j = i)) as [->|]; [congruence|done].
Qed.

Lemma update_tasks w : eviction_of w (update i f s) = eviction_of w s.
Proof using Hsession.
  destruct w as [j| |k]; cbn; [|unfold update; by destruct (heap s !! i)..].
  rewrite update_heap. destruct (heap s !! j) as [[r d]|]; [|done]. cbn. by case_decide.
Qed.

(** A change of a runtime that an agent's id leads to. *)
Lemma change_good id o :
  good s -> get_runtime id s = Some i -> heap s !! i = Some o ->
  good (update i f s) /\
  forall id', held id' (update i f s)
              = if decide (id' = id) then mail (f (rt o)) ++ parked id s else held id' s.
Proof using Hsession.
  intros Hg Hl Ho. pose proof Hg as []. destruct update_fields as (U1 & U2 & U3 & U4 & U5).
  unfold get_runtime, parked, has in *. split.
  - split; unfold get_runtime, parked, has; rewrite ?U1, ?U2, ?U3, ?U5; try done.
    + intros id' j Hj. destruct (g_live0 id' j Hj) as (o' & Ho' & Hs'). rewrite update_heap, Ho'. cbn.
      eexists. split; [done|]. case_decide; [cbn; by rewrite Hsession|done].
    + intros j o'. rewrite update_heap, U4. destruct (heap s !! j) eqn:Ej; [|done]. intros _. by eapply g_bound0.
    + intros j o'. rewrite update_heap. destruct (heap s !! j) as [o0|] eqn:Ej; [|done]. cbn.
      case_decide as Hd; [|intros [= <-]; by apply g_dead0]. subst j. intros [= <-]. cbn. rewrite Hsession.
      destruct (g_live0 id i Hl) as (o1 & Ho1 & Hs1). simplify_eq. done.
    + intros w ev. rewrite update_tasks. apply g_tasks0.
  - intros id'. unfold held, live_mail, get_runtime, parked, mail_at. rewrite U1, U3. case_decide as Hd.
    + subst id'. rewrite Hl, update_heap, Ho. cbn. by rewrite decide_True.
    + destruct (Dict.get id' (_runtimes s)) as [j|] eqn:Hj; [|done]. rewrite update_heap.
      destruct (decide (j = i)) as [->|Hne]; [|by destruct (heap s !! j)].
      destruct (g_live0 id' i Hj) as (o1 & Ho1 & Hs1). destruct (g_live0 id i Hl) as (o2 & Ho2 & Hs2). congruence.
Qed.

Lemma change_gains id ms :
  good s -> get_runtime id s = Some i -> (forall r, mail (f r) ≡ₚ mail r ++ ms) ->
  good (update i f s) /\ gains id ms s (update i f s).
Proof using Hsession.
  intros Hg Hl Hm. destruct (g_live _ Hg id i Hl) as (o & Ho & Hs). destruct (change_good id o Hg Hl Ho) as [H1 H2].
  split; [done|]. intros id'. rewrite H2. case_decide; [|by rewrite app_nil_r]. subst id'.
  unfold held, live_mail, mail_at. rewrite Hl, Ho, Hm. rewrite <- !app_assoc. f_equiv. apply Permutation_app_comm.
Qed.

(** A change of a runtime that nobody's id leads to, and that has no mail. *)
Lemma change_dead o :
  good s -> heap s !! i = Some o -> get_runtime (session_id (rt o)) s <> Some i -> mail (f (rt o)) = [] ->
  good (update i f s) /\ forall id', held id' (update i f s) = held id' s.
Proof using Hsession.
  intros Hg Ho Hd Hm. pose proof Hg as []. destruct update_fields as (U1 & U2 & U3 & U4 & U5).
  assert (forall id', get_runtime id' s <> Some i) as Hno.
  { intros id' Hl. destruct (g_live0 id' i Hl) as (o' & Ho' & Hs'). simplify_eq. }
  unfold get_runtime, parked, has in *. split.
  - split; unfold get_runtime, parked, has; rewrite ?U1, ?U2, ?U3, ?U5; try done.
    + intros id' j Hj. destruct (g_live0 id' j Hj) as (o' & Ho' & Hs'). rewrite update_heap, Ho'. cbn.
      eexists. split; [done|]. case_decide; [cbn; by rewrite Hsession|done].
    + intros j o'. rewrite update_heap, U4. destruct (heap s !! j) eqn:Ej; [|done]. intros _. by eapply g_bound0.
    + intros j o'. rewrite update_heap. destruct (heap s !! j) as [o0|] eqn:Ej; [|done]. cbn.
      case_decide; [|intros [= <-]; by apply g_dead0]. subst j. simplify_eq. intros [= <-]. done.
    + intros w ev. rewrite update_tasks. apply g_tasks0.
  - intros id'. unfold held, live_mail, get_runtime, parked, mail_at. rewrite U1, U3. f_equal.
    destruct (Dict.get id' (_runtimes s)) as [j|] eqn:Hj; [|done]. rewrite update_heap.
    destruct (decide (j = i)) as [->|Hne]; [by destruct (Hno id' Hj)|]. by destruct (heap s !! j).
Qed.
End Change.

(** *** Mail put into a mailbox *)

Lemma enqueue_mail m mode (r : AgentRuntime.t Outcome) :
  Mailbox.plain m -> mail (with_mailbox (Mailbox.enqueue m mode (mailbox r)) r) = mail r ++ [m].
Proof.
  intros Hp. unfold mail, Mailbox.enqueue. unfold Mailbox.plain in Hp. rewrite Hp. cbn.
  by rewrite fmap_app, app_assoc.
Qed.

Lemma enqueue_comm_mail c (r : AgentRuntime.t Outcome) :
  mail (with_mailbox (Mailbox.enqueue_communication c (mailbox r)) r) = mail r ++ [to_message c].
Proof. unfold mail. cbn. by rewrite fmap_app, app_assoc. Qed.

Lemma wakes_quiet (b : bool) i s : quiet s (if b then update i wake s else s).
Proof. destruct b; [by apply quiet_update|reflexivity]. Qed.

Lemma put_message_good i id m mode s :
  good s -> get_runtime id s = Some i -> Mailbox.plain m ->
  good (put_message i m mode s) /\ gains id [m] s (put_message i m mode s)
  /\ _runtimes (put_message i m mode s) = _runtimes s.
Proof.
  intros Hg Hl Hp. unfold put_message.
  destruct (change_gains i (fun r => with_mailbox (Mailbox.enqueue m mode (mailbox r)) r) s ltac:(done) id [m] Hg Hl)
    as [H1 H2]; [intros r; by rewrite enqueue_mail|].
  set (s1 := update i _ s) in *.
  assert (quiet s1 (match mode with TRIGGER_TURN => update i wake s1 | QUEUE_ONLY => s1 end)) as Hq
    by (destruct mode; [reflexivity|by apply quiet_update]).
  split_and!; [by eapply quiet_good|eapply gains_keeps; [done|by apply quiet_keeps]|].
  rewrite (q_runtimes _ _ Hq). by destruct (update_fields i (fun r => with_mailbox (Mailbox.enqueue m mode (mailbox r)) r) s).
Qed.

Lemma put_communication_good i id c s :
  good s -> get_runtime id s = Some i ->
  good (put_communication i c s) /\ gains id [to_message c] s (put_communication i c s)
  /\ _runtimes (put_communication i c s) = _runtimes s.
Proof.
  intros Hg Hl. unfold put_communication.
  destruct (change_gains i (fun r => with_mailbox (Mailbox.enqueue_communication c (mailbox r)) r) s ltac:(done) id [to_message c] Hg Hl)
    as [H1 H2]; [intros r; by rewrite enqueue_comm_mail|].
  set (s1 := update i _ s) in *. pose proof (wakes_quiet (trigger_turn c) i s1) as Hq.
  split_and!; [by eapply quiet_good|eapply gains_keeps; [done|by apply quiet_keeps]|].
  rewrite (q_runtimes _ _ Hq). by destruct (update_fields i (fun r => with_mailbox (Mailbox.enqueue_communication c (mailbox r)) r) s).
Qed.

(** *** Parked mail *)

(** Everything but the parked mail of [id] is as before. *)
Lemma pending_good id q s ms :
  good s ->
  (forall id', message_of <$> PendingDeliveryQueue.queue id' q = if decide (id' = id) then ms else parked id' s) ->
  Forall Mailbox.plain ms -> (ms <> [] -> get_runtime id s <> None \/ has id s = true) ->
  good (set_pending q s) /\
  forall id', held id' (set_pending q s) = if decide (id' = id) then live_mail id s ++ ms else held id' s.
Proof.
  intros [] Hq Hp Hl. split.
  - split; try done.
    + intros id'. unfold parked. cbn. rewrite Hq. case_decide; [by subst|apply g_parked0].
    + intros id'. unfold parked. cbn. rewrite Hq. case_decide; [done|apply g_plain0].
  - intros id'. unfold held, live_mail, get_runtime, mail_at, parked. cbn. rewrite Hq. case_decide; by subst.
Qed.

Lemma park_good id d s :
  good s -> Mailbox.plain (message_of d) -> get_runtime id s <> None \/ has id s = true ->
  good (park id d s) /\ gains id [message_of d] s (park id d s).
Proof.
  intros Hg Hp Hl. destruct (pending_good id (PendingDeliveryQueue.park id d (_pending s)) s (parked id s ++ [message_of d]) Hg)
    as [H1 H2].
  - intros id'. unfold PendingDeliveryQueue.park. rewrite PendingDeliveryQueue.queue_set. unfold parked.
    destruct (decide (id = id')) as [->|]; [rewrite decide_True by done; by rewrite fmap_app|].
    by rewrite decide_False by done.
  - apply Forall_app. split; [apply Hg|by apply Forall_singleton].
  - done.
  - split; [done|]. intros id'. unfold park. rewrite H2. case_decide; [|by rewrite app_nil_r].
    subst. unfold held. by rewrite app_assoc.
Qed.

Lemma drop_good id s : good s -> get_runtime id s = None -> has id s = false ->
  good (drop id s) /\ keeps s (drop id s).
Proof.
  intros Hg Hr Hh. assert (parked id s = []) as Hp.
  { destruct (parked id s) eqn:E; [done|]. destruct (g_parked _ Hg id) as [|]; [by rewrite E|done|congruence]. }
  destruct (pending_good id (PendingDeliveryQueue.drop id (_pending s)) s [] Hg) as [H1 H2].
  - intros id'. unfold PendingDeliveryQueue.drop. rewrite PendingDeliveryQueue.queue_pop.
    destruct (decide (id = id')) as [->|]; [by rewrite decide_True by done|]. by rewrite decide_False by done.
  - constructor.
  - done.
  - split; [done|]. intros id'. unfold drop. rewrite H2. case_decide; [|done]. subst. unfold held. by rewrite Hp.
Qed.

Lemma deliver_now_good i id d s :
  good s -> get_runtime id s = Some i -> Mailbox.plain (message_of d) ->
  good (_deliver_now i id s d) /\ gains id [message_of d] s (_deliver_now i id s d)
  /\ get_runtime id (_deliver_now i id s d) = Some i.
Proof.
  intros Hg Hl Hp. unfold _deliver_now. destruct d as [m mode|c]; cbn [message_of] in *.
  - destruct (put_message_good i id m mode s Hg Hl Hp) as (H1 & H2 & H3).
    assert (quiet (put_message i m mode s) (touch id (_record_last_task_message id (m_content m) (put_message i m mode s)))) as Hq
      by (etrans; [apply quiet_record|apply quiet_touch]).
    split_and!; [by eapply quiet_good|eapply gains_keeps; [done|by apply quiet_keeps]|].
    unfold get_runtime. by rewrite (q_runtimes _ _ Hq), H3.
  - destruct (put_communication_good i id c s Hg Hl) as (H1 & H2 & H3).
    assert (quiet (put_communication i c s) (touch id (_record_last_task_message id (content c) (put_communication i c s)))) as Hq
      by (etrans; [apply quiet_record|apply quiet_touch]).
    split_and!; [by eapply quiet_good|eapply gains_keeps; [done|by apply quiet_keeps]|].
    unfold get_runtime. by rewrite (q_runtimes _ _ Hq), H3.
Qed.

Lemma gains_app id a b s1 s2 s3 : gains id a s1 s2 -> gains id b s2 s3 -> gains id (a ++ b) s1 s3.
Proof.
  intros H1 H2 id'. rewrite (H2 id'), (H1 id'). case_decide; [by rewrite app_assoc|by rewrite !app_nil_r].
Qed.

Lemma deliver_fold i id l s :
  good s -> get_runtime id s = Some i -> Forall Mailbox.plain (message_of <$> l) ->
  good (foldl (_deliver_now i id) s l) /\ gains id (message_of <$> l) s (foldl (_deliver_now i id) s l).
Proof.
  revert s. induction l as [|d l IH]; intros s Hg Hl Hp; cbn [foldl].
  - split; [done|]. intros id'. cbn. case_decide; by rewrite app_nil_r.
  - rewrite fmap_cons in Hp. apply Forall_cons in Hp as [Hd Hp].
    destruct (deliver_now_good i id d s Hg Hl Hd) as (H1 & H2 & H3). destruct (IH _ H1 H3 Hp) as [H4 H5].
    split; [done|]. rewrite fmap_cons. by eapply (gains_app id [message_of d]).
Qed.

Lemma deliver_all_good i id s :
  good s -> get_runtime id s = Some i -> good (deliver_all i id s) /\ keeps s (deliver_all i id s).
Proof.
  intros Hg Hl. unfold deliver_all, PendingDeliveryQueue.take_all.
  set (q := PendingDeliveryQueue.mk _ _ _). set (l := PendingDeliveryQueue.queue id (_pending s)).
  destruct (pending_good id q s [] Hg) as [H1 H2].
  - intros id'. unfold q. rewrite PendingDeliveryQueue.queue_pop.
    destruct (decide (id = id')) as [->|]; [by rewrite decide_True by done|]. by rewrite decide_False by done.
  - constructor.
  - done.
  - destruct (deliver_fold i id l (set_pending q s) H1 Hl) as [H3 H4]; [apply (g_plain _ Hg id)|].
    split; [done|]. intros id'. rewrite (H4 id'), H2. case_decide; [|by rewrite app_nil_r]. subst.
    unfold held. by rewrite app_nil_r.
Qed.

(** *** Loading *)

Lemma install_shape e id s s' i :
  good s -> _install_rehydrated load_message e id s = (s', Ok i) ->
  exists r d, i = next_object s /\ heap s' = <[i := mkObject r d]> (heap s) /\ next_object s' = S i
    /\ _runtimes s' = Dict.set id i (_runtimes s) /\ session_id r = id /\ mail r = []
    /\ d = (if _started s then Some Parked else None)
    /\ _scheduled s' = Dict.set id i (_scheduled s) /\ _started s' = _started s
    /\ (_store s' = _store s \/ _store s' = Dict.pop id (_store s))
    /\ _pending s' = _pending s /\ _registry s' = _registry s
    /\ _pending_waker_task s' = _pending_waker_task s /\ _spawning s' = _spawning s.
Proof.
  intros Hg. unfold _install_rehydrated. destruct (loads e id); [|done].
  destruct (Dict.get id (_store s)) as [rec|] eqn:Hr; [|done]. rewrite (g_store _ Hg id rec Hr). cbn [negb].
  rewrite rehydrate_empty. set (r := match AgentRegistry.agent_metadata_for_id id (_registry s) with Some _ => _ | None => _ end).
  assert (session_id r = id /\ mail r = []) as [Hs Hm] by (unfold r; by destruct (AgentRegistry.agent_metadata_for_id _ _)).
  clearbody r. cbn. unfold add_runtime. cbn. destruct (_started s) eqn:Hst.
  - unfold _spawn_driver. cbn. rewrite lookup_insert_eq. cbn. intros [= <- <-]. exists r, (Some Parked).
    cbn. rewrite insert_insert_eq. split_and!; try done. destruct (forgets e id); [by right|by left].
  - intros [= <- <-]. exists r, None. cbn. split_and!; try done. destruct (forgets e id); [by right|by left].
Qed.

Lemma install_good e id s :
  good s -> get_runtime id s = None ->
  match _install_rehydrated load_message e id s with
  | (s', Ok i) => good s' /\ keeps s s' /\ get_runtime id s' = Some i
  | (s', Raise x) => quiet s s' /\ (x = LoaderFailed \/ has id s = false)
  end.
Proof.
  intros Hg Hn. destruct (_install_rehydrated load_message e id s) as [s' [i|x]] eqn:E.
  2:{ revert E. unfold _install_rehydrated, has, Dict.mem. destruct (loads e id); cbn [negb].
      - destruct (Dict.get id (_store s)) as [rec|] eqn:Hr.
        + rewrite (g_store _ Hg id rec Hr), rehydrate_empty. by destruct (new_object _ _).
        + intros [= <- <-]. split; [apply quiet_residency|by right].
      - intros [= <- <-]. split; [apply quiet_residency|by left]. }
  destruct (install_shape e id s s' i Hg E) as (r & d & -> & H1 & H2 & H3 & Hs & Hm & Hd & _ & _ & H4 & H5 & H6 & H7 & H8).
  pose proof Hg as []. unfold get_runtime in *.
  assert (forall j o, heap s !! j = Some o -> j <> next_object s) as Hfresh by (intros j o Ho ->; apply g_bound0 in Ho; lia).
  assert (forall id' j, Dict.get id' (_runtimes s) = Some j -> id' <> id /\ j <> next_object s) as Hother.
  { intros id' j Hj. split; [congruence|]. destruct (g_live0 id' j Hj) as (o & Ho & _). by eapply Hfresh. }
  split; [|split].
  - split; unfold get_runtime, parked, has; rewrite ?H3, ?H5, ?H6; try done.
    + intros id' j. destruct (decide (id' = id)) as [->|Hne].
      * rewrite Dict.get_set_eq. intros [= <-]. rewrite H1, lookup_insert_eq. by eexists.
      * rewrite Dict.get_set_ne by done. intros Hj. destruct (Hother id' j Hj) as [_ Hjn].
        rewrite H1, lookup_insert_ne by done. by apply g_live0.
    + intros j o. rewrite H1, H2. destruct (decide (j = next_object s)) as [->|Hne]; [lia|].
      rewrite lookup_insert_ne by done. intros Ho%g_bound0. lia.
    + intros j o. rewrite H1. destruct (decide (j = next_object s)) as [->|Hne].
      * rewrite lookup_insert_eq. intros [= <-]. cbn. by rewrite Hs, Dict.get_set_eq.
      * rewrite lookup_insert_ne by done. intros Ho Hd'. apply (g_dead0 j o Ho).
        destruct (decide (session_id (rt o) = id)) as [->|Hi]; [by rewrite Hn|]. by rewrite Dict.get_set_ne in Hd'.
    + intros id' rec Hrec. destruct H4 as [H4|H4]; rewrite H4 in Hrec; [by apply (g_store0 id')|].
      destruct (decide (id' = id)) as [->|Hne]; [by rewrite Dict.get_pop_eq in Hrec|].
      rewrite Dict.get_pop_ne in Hrec by done. by apply (g_store0 id').
    + intros [j| |k] ev; cbn; rewrite ?H7, ?H8; [|by apply (g_tasks0 ByWaker)|by apply (g_tasks0 (BySpawn k))].
      rewrite H1. destruct (decide (j = next_object s)) as [->|Hne].
      * rewrite lookup_insert_eq, Hd. by destruct (_started s).
      * rewrite lookup_insert_ne by done. apply (g_tasks0 (ByDriver j)).
    + intros id' Hp. destruct (decide (id' = id)) as [->|Hne]; [rewrite Dict.get_set_eq; by left|].
      rewrite Dict.get_set_ne by done. destruct (g_parked0 id' Hp) as [|Hh]; [by left|right].
      unfold has, Dict.mem in *. destruct H4 as [->| ->]; [done|]. by rewrite Dict.get_pop_ne.
  - intros id'. unfold held, live_mail, get_runtime, parked, mail_at. rewrite H3, H5. f_equiv.
    destruct (decide (id' = id)) as [->|Hne].
    + rewrite Dict.get_set_eq, Hn, H1, lookup_insert_eq. cbn. by rewrite Hm.
    + rewrite Dict.get_set_ne by done. destruct (Dict.get id' (_runtimes s)) as [j|] eqn:Hj; [|done].
      destruct (Hother id' j Hj) as [_ Hjn]. by rewrite H1, lookup_insert_ne.
  - rewrite H3. apply Dict.get_set_eq.
Qed.

Lemma try_load_good e id s :
  good s ->
  let (s', o) := _try_load_sync load_message _residency_capacity e id s in
  good s' /\ keeps s s' /\
  match o with
  | Ok (Some i) => get_runtime id s' = Some i
  | Ok None => has id s' = true
  | Raise _ => True
  end.
Proof.
  intros Hg. unfold _try_load_sync. destruct (get_runtime id s) as [i|] eqn:Hr; [split_and!; [done|apply keeps_refl|done]|].
  destruct (has id s) eqn:Hh; [|split_and!; [done|apply keeps_refl|done]]. cbn [negb]. destruct (Residency.try_reserve_sync _ _) as [r [|]].
  - pose proof (quiet_residency r s) as Hq. pose proof (quiet_good _ _ Hq Hg) as Hg'.
    pose proof (install_good e id (set_residency r s) Hg' Hr) as Hi.
    destruct (_install_rehydrated load_message e id _) as [s' [i|x]].
    + destruct Hi as (H1 & H2 & H3). split_and!; [done|by eapply keeps_trans; [apply quiet_keeps|]|done].
    + destruct Hi as [H1 _]. split_and!; [by eapply quiet_good|by apply quiet_keeps; etrans|done].
  - pose proof (quiet_residency r s) as Hq. split_and!; [by eapply quiet_good|by apply quiet_keeps|done].
Qed.

(** *** Sending *)

Lemma gains_none id s s' : keeps s s' -> gains id [] s s'.
Proof. intros H id'. rewrite (H id'). case_decide; by rewrite app_nil_r. Qed.

(** A message that was accepted is held, one that was refused is not. *)
Definition sent (id : string) (m : Message) (s : plane) (x : plane * outcome exn (option nat)) : Prop :=
  good (fst x) /\ gains id (if is_ok (snd x) then [m] else []) s (fst x).

Lemma sent_parked id d s s1 i :
  good s1 -> keeps s s1 -> Mailbox.plain (message_of d) -> get_runtime id s1 <> None \/ has id s1 = true ->
  sent id (message_of d) s (park id d s1, Ok i).
Proof.
  intros Hg Hk Hp Hl. destruct (park_good id d s1 Hg Hp Hl). split; [done|]. by eapply keeps_gains.
Qed.

Lemma sent_put id m s s1 s2 s3 i :
  keeps s s1 -> good s2 /\ gains id [m] s1 s2 /\ _runtimes s2 = _runtimes s1 -> quiet s2 s3 ->
  sent id m s (s3, Ok i).
Proof.
  intros Hk (Hg & H & _) Hq. split; cbn; [by eapply quiet_good|].
  eapply keeps_gains; [done|]. eapply gains_keeps; [done|by apply quiet_keeps].
Qed.

Lemma send_good e id m mode s : good s -> Mailbox.plain m -> sent id m s (send_input e id m mode s).
Proof.
  intros Hg Hp. unfold AgentControl.send_input. pose proof (try_load_good e id s Hg) as H.
  destruct (_try_load_sync _ _ e id s) as [s1 [[i|]|x]]; destruct H as (H1 & H2 & H3).
  - destruct (_ && _).
    + apply (sent_parked id (PendingDeliveryQueue.OfMessage m mode)); try done. left. by rewrite H3.
    + eapply sent_put; [done|by apply put_message_good|]. etrans; [apply quiet_touch|apply quiet_record].
  - apply (sent_parked id (PendingDeliveryQueue.OfMessage m mode)); try done. by right.
  - split; [done|by apply gains_none].
Qed.

Lemma send_comm_good e id c s : good s -> sent id (to_message c) s (send_inter_agent_communication e id c s).
Proof.
  intros Hg. unfold AgentControl.send_inter_agent_communication. pose proof (try_load_good e id s Hg) as H.
  destruct (_try_load_sync _ _ e id s) as [s1 [[i|]|x]]; destruct H as (H1 & H2 & H3).
  - destruct (_ && _).
    + apply (sent_parked id (PendingDeliveryQueue.OfCommunication c)); try done; [apply Mailbox.to_message_plain|].
      left. by rewrite H3.
    + eapply sent_put; [done|by apply put_communication_good|]. etrans; [apply quiet_touch|apply quiet_record].
  - apply (sent_parked id (PendingDeliveryQueue.OfCommunication c)); try done; [apply Mailbox.to_message_plain|by right].
  - split; [done|by apply gains_none].
Qed.

(** *** The pass over the parked mail *)

(** Well kept, with the same mail, and nothing but empty records in an eviction. *)
Definition passed (s s' : plane) : Prop := good s' /\ keeps s s'.

Lemma passed_quiet s s1 s2 : passed s s1 -> quiet s1 s2 -> passed s s2.
Proof. intros [H1 H2] Hq. split; [by eapply quiet_good|]. eapply keeps_trans; [done|by apply quiet_keeps]. Qed.

Lemma quiet_passed s s' : good s -> quiet s s' -> passed s s'.
Proof. intros Hg Hq. split; [by eapply quiet_good|by apply quiet_keeps]. Qed.

Lemma passed_trans s s1 s2 : passed s s1 -> (good s1 -> passed s1 s2) -> passed s s2.
Proof. intros [H1 H2] H. destruct (H H1). split; [done|by eapply keeps_trans]. Qed.

Lemma settle_good e id todo x :
  good (fst x) -> get_runtime id (fst x) = None -> acquired_ok (snd x) ->
  let (s', r) := settle load_message e id todo x in
  passed (fst x) s' /\ forall ev, r = inl ev -> snapshot ev = empty_record.
Proof.
  destruct x as [s a]. cbn. intros Hg Hn Ha. destruct a as [| |n c i rec]; cbn.
  - pose proof (install_good e id s Hg Hn) as H. destruct (_install_rehydrated load_message e id s) as [s' [i|x]].
    + destruct H as (H1 & H2 & H3). split; [|done]. destruct (deliver_all_good i id s' H1 H3).
      split; [done|by eapply keeps_trans].
    + destruct H as [Hq Hx].
      destruct (decide (has id s = true)) as [Hh|Hh].
      * destruct Hx as [->|]; [|congruence]. split; [by apply quiet_passed|done].
      * assert (passed s (drop id s')) as Hd.
        { eapply passed_trans; [by apply quiet_passed|]. intros Hg'. apply drop_good; [done| |].
          - unfold get_runtime. by rewrite (q_runtimes _ _ Hq).
          - apply not_true_is_false. unfold has. by rewrite (q_store _ _ Hq). }
        destruct x; split; try done. by apply quiet_passed.
  - split; [|done]. apply quiet_passed; [done|]. by apply quiet_other.
  - split; [by apply quiet_passed|]. by intros ev [= <-].
Qed.

Notation run_flush := (run_flush dump_message load_message _residency_capacity).

Definition flushed (s : plane) (x : plane * option (eviction Blob)) : Prop :=
  passed s (fst x) /\ forall ev, snd x = Some ev -> snapshot ev = empty_record.

Lemma flushed_trans s s1 x : passed s s1 -> (good s1 -> flushed s1 x) -> flushed s x.
Proof. intros H1 H. destruct (H (proj1 H1)) as [H2 H3]. split; [|done]. by eapply passed_trans. Qed.

Lemma run_flush_good e todo s : good s -> flushed s (run_flush e todo s).
Proof.
  revert s. induction todo as [|id todo IH]; intros s Hg; cbn [AgentControl.run_flush].
  { split; [by apply quiet_passed|done]. }
  destruct (get_runtime id s) as [i|] eqn:Hr.
  { eapply flushed_trans; [by apply deliver_all_good|apply IH]. }
  destruct (has id s) eqn:Hh; cbn [negb].
  2:{ eapply flushed_trans; [by apply drop_good|apply IH]. }
  pose proof (reserve_quiet None s) as Hq. destruct (reserve None s) as [s1 a]. destruct Hq as [Hq Ha].
  pose proof (settle_good e id todo (s1, a) (quiet_good _ _ Hq Hg)) as H. cbn [fst snd] in H.
  destruct (settle load_message e id todo (s1, a)) as [s2 r].
  destruct H as [H1 H2]; [unfold get_runtime; by rewrite (q_runtimes _ _ Hq)|done|].
  assert (passed s s2) as H3 by (eapply passed_trans; [by apply quiet_passed|done]).
  destruct r as [ev|[|]]; [|eapply flushed_trans; [exact H3|apply IH]|by split].
  split; [done|]. intros ev' [= <-]. by apply H2.
Qed.

Lemma resume_flush_good e id todo x :
  good (fst x) -> get_runtime id (fst x) = None -> acquired_ok (snd x) -> flushed (fst x) (resume_flush e id todo x).
Proof.
  intros Hg Hn Ha. unfold AgentControl.resume_flush. pose proof (settle_good e id todo x Hg Hn Ha) as H.
  destruct (settle load_message e id todo x) as [s2 [ev|[|]]]; destruct H as [H1 H2].
  - split; [done|]. intros ev' [= <-]. by apply H2.
  - eapply flushed_trans; [done|]. apply run_flush_good.
  - by split.
Qed.

Lemma flushes_good w s x : flushed s x -> passed s (flushes w x).
Proof.
  destruct x as [s1 [ev|]]; intros [H1 H2]; cbn in H1, H2.
  - specialize (H2 ev eq_refl). eapply passed_quiet; [done|]. destruct w as [i| |k]; cbn.
    + destruct (heap s1 !! i) as [o|]; [|done]. apply quiet_set_task. intros ev'. destruct (_stopped _); congruence.
    + apply quiet_tasks; [intros ev' [= <-]; by right|by left].
    + apply quiet_tasks; [intros ev' [= <-]; by right|by left].
  - eapply passed_quiet; [done|]. destruct w as [i| |k]; cbn; [apply quiet_loop_head|by apply quiet_tasks; [|by left]..].
Qed.

(** *** Leaving the plane *)

(** An agent leaves the maps with nothing in its mailbox, and its record stays behind. *)
Lemma removed_good c s :
  good s -> live_mail c s = [] -> parked c s = [] \/ has c s = true ->
  good (_remove_runtime c s) /\ forall id, held id (_remove_runtime c s) = held id s.
Proof.
  intros Hg Hm Hp. pose proof Hg as []. unfold get_runtime, has, parked, live_mail, get_runtime in *. split.
  - split; unfold get_runtime, has, parked; cbn; try done.
    + intros id i. destruct (decide (id = c)) as [->|Hne]; [by rewrite Dict.get_pop_eq|].
      rewrite Dict.get_pop_ne by done. apply g_live0.
    + intros i o Ho Hd. destruct (decide (session_id (rt o) = c)) as [Hc|Hne].
      * destruct (decide (Dict.get (session_id (rt o)) (_runtimes s) = Some i)) as [Hi|]; [|by eapply g_dead0].
        rewrite Hc in Hi. rewrite Hi in Hm. unfold mail_at in Hm. by rewrite Ho in Hm.
      * rewrite Dict.get_pop_ne in Hd by done. by eapply g_dead0.
    + intros id Hne. destruct (decide (id = c)) as [->|Hc]; [right; by destruct Hp|].
      rewrite Dict.get_pop_ne by done. by apply g_parked0.
  - intros id. unfold held, live_mail, get_runtime, parked. cbn. f_equal.
    destruct (decide (id = c)) as [->|Hne]; [by rewrite Dict.get_pop_eq, Hm|by rewrite Dict.get_pop_ne].
Qed.

(** An eviction that can end well: nothing came for the candidate since it was found idle, and
    its record is on disk. *)
Definition undisturbed (ev : eviction Blob) (s : plane) : Prop :=
  live_mail (candidate ev) s = [] /\ has (candidate ev) s = true.

Lemma evict_passed ev s : good s -> undisturbed ev s -> passed s (evict is_rejected ev s).
Proof.
  intros Hg [Hm Hh]. unfold evict. pose proof (quiet_shutdown (victim ev) s) as Hq.
  destruct (removed_good (candidate ev) (shutdown is_rejected (victim ev) s)) as [H1 H2].
  - by eapply quiet_good.
  - unfold live_mail, get_runtime in *. rewrite (q_runtimes _ _ Hq).
    destruct (Dict.get _ _); [by rewrite (quiet_mail _ _ Hq)|done].
  - right. unfold has. by rewrite (q_store _ _ Hq).
  - split; [done|]. intros id. by rewrite H2, (quiet_held _ _ id Hq).
Qed.

Lemma evict_runtimes ev (s : plane) : _runtimes (evict is_rejected ev s) = Dict.pop (candidate ev) (_runtimes s).
Proof. unfold evict. cbn. by rewrite (q_runtimes _ _ (quiet_shutdown (victim ev) s)). Qed.

Lemma after_eviction_good ev ok s :
  good s -> (ok = true -> undisturbed ev s) ->
  let (s', a) := after_eviction ev ok s in
  passed s s' /\ acquired_ok a /\
  _runtimes s' = if ok then Dict.pop (candidate ev) (_runtimes s) else _runtimes s.
Proof.
  intros Hg Hu. unfold after_eviction. set (protected := match purpose ev with ForDelivery _ _ => None | ForSpawn p => p end).
  destruct ok.
  - pose proof (evict_passed ev s Hg (Hu eq_refl)) as He. pose proof (reserve_quiet protected (evict is_rejected ev s)) as Hq.
    destruct (reserve protected _) as [s' a]. destruct Hq as [Hq Ha].
    split_and!; [by eapply passed_quiet|done|by rewrite (q_runtimes _ _ Hq), evict_runtimes].
  - pose proof (scan_quiet (left_to_scan ev) protected (touch (candidate ev) s)) as H.
    destruct (scan _ _ _) as [s' [[[[n c] i] rec]|]]; destruct H as [Hq Hr]; cbn.
    all: assert (quiet s s') as Hq' by (etrans; [apply quiet_touch|done]).
    all: split_and!; [by apply quiet_passed|done|by rewrite (q_runtimes _ _ Hq')].
Qed.

Lemma stored_good c s : good s -> passed s (store_write c empty_record s).
Proof.
  intros []. split; [|by intros id]. split; try done.
  - intros id rec. cbn. destruct (decide (id = c)) as [->|Hne]; [rewrite Dict.get_set_eq; by intros [= <-]|].
    rewrite Dict.get_set_ne by done. apply g_store0.
  - intros id Hne. unfold has, Dict.mem in *. cbn. destruct (g_parked0 id Hne) as [|Hh]; [by left|right].
    destruct (decide (id = c)) as [->|Hc]; [by rewrite Dict.get_set_eq|by rewrite Dict.get_set_ne].
Qed.

Lemma quiet_set_eviction w ev s : snapshot ev = empty_record -> quiet s (set_eviction w ev s).
Proof.
  intros He. destruct w as [i| |k]; cbn.
  - apply quiet_set_task. by intros ev' [= <-].
  - apply quiet_tasks; [intros ev' [= <-]; by right|by left].
  - apply quiet_tasks; [by left|]. intros k' ev'. destruct (decide (k' = k)) as [->|Hne].
    + rewrite lookup_insert_eq. intros [= <-]. by right.
    + rewrite lookup_insert_ne by done. by left.
Qed.

Lemma eviction_written_good w s : good s -> passed s (eviction_written w s).
Proof.
  intros Hg. unfold eviction_written. destruct (eviction_of w s) as [ev|] eqn:E; [|by apply quiet_passed].
  pose proof (g_tasks _ Hg w ev E) as Hs. rewrite Hs at 2. eapply passed_quiet; [by apply stored_good|].
  by apply quiet_set_eviction.
Qed.

(** *** Turns *)

Lemma quiet_release_guard s : quiet s (release_guard s).
Proof. apply quiet_limiter. Qed.

Lemma end_turn_key how (r : AgentRuntime.t Outcome) d d' : key (mkObject (end_turn is_rejected how r) d) = key (mkObject r d').
Proof. by destruct how. Qed.

Lemma turn_ends_good e i how s :
  good s -> passed s (turn_ends is_rejected dump_message load_message _residency_capacity e i how s).
Proof.
  intros Hg. unfold turn_ends. destruct (heap s !! i) as [[r [[| |ev]|]]|] eqn:E; try by apply quiet_passed.
  set (s1 := release_guard _). assert (quiet s s1) as Hq.
  { etrans; [|apply quiet_release_guard]. eapply quiet_object_change; [done|apply end_turn_key|done]. }
  assert (passed s (driver_flushes i (_flush_pending_deliveries dump_message load_message _residency_capacity e s1))) as Hf.
  { eapply passed_trans; [by apply quiet_passed|]. intros Hg1. by apply (flushes_good (ByDriver i)), run_flush_good. }
  destruct how; [done| |done]. apply quiet_passed; [done|]. etrans; [done|]. by apply quiet_set_task.
Qed.

Lemma waker_wakes_good e s : good s -> passed s (waker_wakes dump_message load_message _residency_capacity e s).
Proof.
  intros Hg. unfold waker_wakes. destruct (_pending_waker_task s) as [[|ev]|]; try by apply quiet_passed.
  destruct (PendingDeliveryQueue._waker _); [|by apply quiet_passed].
  assert (quiet s (set_pending (PendingDeliveryQueue.clear_waker (_pending s)) s)) as Hq by by apply quiet_other.
  eapply passed_trans; [by apply quiet_passed|]. intros Hg1. by apply (flushes_good ByWaker), run_flush_good.
Qed.

(** A change of any runtime that moves mail within it. *)
Lemma update_passed i f s :
  good s -> (forall r, session_id (f r) = session_id r) -> (forall r, mail (f r) = mail r) -> passed s (update i f s).
Proof.
  intros Hg Hs Hm. destruct (heap s !! i) as [o|] eqn:Ho.
  2:{ unfold update. rewrite Ho. by apply quiet_passed. }
  destruct (decide (get_runtime (session_id (rt o)) s = Some i)) as [Hl|Hd].
  - destruct (change_good i f s Hs (session_id (rt o)) o Hg Hl Ho) as [H1 H2]. split; [done|].
    intros id. rewrite H2. case_decide; [|done]. subst. unfold held, live_mail, mail_at. by rewrite Hl, Ho, Hm.
  - destruct (change_dead i f s Hs o Hg Ho Hd) as [H1 H2]; [|split; [done|intros id; by rewrite H2]].
    rewrite Hm. by apply (g_dead _ Hg i o).
Qed.

Lemma staged_session (r : AgentRuntime.t Outcome) : session_id (begin_turn (_stage_mailbox (clear_wake r))) = session_id r.
Proof. unfold _stage_mailbox. by destruct (Mailbox.drain_for_turn _). Qed.

Lemma staged_mail (r : AgentRuntime.t Outcome) : mail (begin_turn (_stage_mailbox (clear_wake r))) = mail r.
Proof. change (mail (begin_turn ?x)) with (mail x). by rewrite stage_mail. Qed.

Lemma driver_wakes_good i s : good s -> passed s (driver_wakes i s).
Proof.
  intros Hg. unfold driver_wakes. destruct (heap s !! i) as [[r [[| |ev]|]]|] eqn:E; try by apply quiet_passed.
  destruct (wake_event r); cbn [negb]; [|by apply quiet_passed].
  destruct (_stopped r); [apply quiet_passed; [done|by apply quiet_set_task]|].
  set (f := fun r : AgentRuntime.t Outcome => begin_turn (_stage_mailbox (clear_wake r))).
  assert (set_object i (mkObject (f r) (Some InTurn)) s = set_task i (Some InTurn) (update i f s)) as Hs.
  { unfold update. rewrite E. unfold set_task. cbn -[f]. rewrite lookup_insert_eq. unfold set_object. cbn -[f].
    by rewrite insert_insert_eq. }
  fold (f r). rewrite Hs. eapply passed_quiet; [apply (update_passed i f); [done|apply staged_session|apply staged_mail]|].
  etrans; [|apply quiet_limiter]. by apply quiet_set_task.
Qed.

(** *** The accounts of one step *)

(** What is held and what comes in is what is taken and what is held then. *)
Definition accounts (acc tak : list (string * Message)) (s s' : plane) : Prop :=
  good s' /\ forall id, held id s ++ to id acc ≡ₚ to id tak ++ held id s'.

Lemma to_for id id' ms : to id ((fun m => (id', m)) <$> ms) = if decide (id = id') then ms else [].
Proof.
  unfold to. induction ms as [|m ms IH]; [by case_decide|]. rewrite fmap_cons. cbn [omap list_omap].
  cbn [fst snd]. destruct (decide (id' = id)) as [->|Hne].
  - rewrite IH. by rewrite !decide_True.
  - rewrite IH. by rewrite !decide_False.
Qed.

Lemma to_app id l l' : to id (l ++ l') = to id l ++ to id l'.
Proof. unfold to. by rewrite omap_app. Qed.

Lemma passed_accounts s s' : passed s s' -> accounts [] [] s s'.
Proof. intros [H1 H2]. split; [done|]. intros id. cbn. by rewrite app_nil_r, (H2 id). Qed.

Lemma quiet_accounts s s' : good s -> quiet s s' -> accounts [] [] s s'.
Proof. intros Hg Hq. by apply passed_accounts, quiet_passed. Qed.

Lemma gains_accounts id ms s s' : good s' -> gains id ms s s' -> accounts ((fun m => (id, m)) <$> ms) [] s s'.
Proof. intros Hg H. split; [done|]. intros id'. rewrite to_for, (H id'). by cbn. Qed.

Lemma sent_accounts id m s x : sent id m s x -> accounts (if is_ok (snd x) then [(id, m)] else []) [] s (fst x).
Proof.
  intros [Hg H]. destruct (is_ok (snd x)); [by apply (gains_accounts id [m])|by apply (gains_accounts id [])].
Qed.

Lemma drained_mail p (r : AgentRuntime.t Outcome) :
  mail r ≡ₚ snd (MessageQueue.pop_all p (msg_buffer r))
            ++ mail (with_buffer (fst (MessageQueue.pop_all p (msg_buffer r))) r).
Proof. unfold mail. cbn -[MessageQueue.pop_all]. by rewrite <- (MessageQueue.pop_all_perm p (msg_buffer r)), <- app_assoc. Qed.

Lemma observe_accounts i p s :
  good s -> accounts [] (taken_by (Observes i p) s) s (fst (observe i p s)).
Proof.
  intros Hg. unfold taken_by. destruct (heap s !! i) as [o|] eqn:Ho.
  2:{ unfold observe. rewrite Ho. by apply quiet_accounts. }
  unfold observe. rewrite Ho. destruct (MessageQueue.pop_all p (msg_buffer (rt o))) as [q ms] eqn:Eq. cbn [fst snd].
  pose proof (drained_mail p (rt o)) as Hd. rewrite Eq in Hd. cbn [fst snd] in Hd.
  destruct (decide (get_runtime (session_id (rt o)) s = Some i)) as [Hl|Hn].
  - destruct (change_good i (with_buffer q) s ltac:(done) (session_id (rt o)) o Hg Hl Ho) as [H1 H2].
    split; [done|]. intros id. rewrite to_for, H2. cbn. rewrite app_nil_r. case_decide; [|done]. subst.
    unfold held, live_mail, mail_at. by rewrite Hl, Ho, Hd, <- app_assoc.
  - assert (ms = [] /\ mail (with_buffer q (rt o)) = []) as [-> Hm].
    { rewrite (g_dead _ Hg i o Ho Hn) in Hd. by apply Permutation_nil, app_nil in Hd. }
    destruct (change_dead i (with_buffer q) s ltac:(done) o Hg Ho Hn Hm) as [H1 H2].
    split; [done|]. intros id. by rewrite to_for, H2, app_nil_r; case_decide.
Qed.

Lemma pushed_accounts i m p s o :
  good s -> heap s !! i = Some o -> get_runtime (session_id (rt o)) s = Some i ->
  accounts [(session_id (rt o), m)] [] s (update i (fun r => with_buffer (MessageQueue.push m p (msg_buffer r)) r) s).
Proof.
  intros Hg Ho Hl.
  destruct (change_gains i (fun r => with_buffer (MessageQueue.push m p (msg_buffer r)) r) s ltac:(done)
              (session_id (rt o)) [m] Hg Hl) as [H1 H2].
  - intros r. unfold mail. cbn. rewrite fmap_app, <- !app_assoc. f_equiv. apply Permutation_app_comm.
  - by apply (gains_accounts _ [m]).
Qed.

(** *** Births and departures *)

(** A runtime joins with an object of its own; only its mail is new. *)
Record joins (r : AgentRuntime.t Outcome) (s s' : plane) : Prop := {
  j_runtime : get_runtime (session_id r) s' = Some (next_object s);
  j_object : exists d, heap s' !! next_object s = Some (mkObject r d) /\ (d = None \/ d = Some Parked);
  j_heap i : i <> next_object s -> heap s' !! i = heap s !! i;
  j_next : next_object s' = S (next_object s);
  j_others id : id <> session_id r -> get_runtime id s' = get_runtime id s
                                      /\ Dict.get id (_scheduled s') = Dict.get id (_scheduled s);
  j_scheduled i : Dict.get (session_id r) (_scheduled s') = Some i ->
    i = next_object s /\ (_started s = true -> heap s' !! i = Some (mkObject r (Some Parked)));
  j_started : _started s' = _started s;
  j_store : _store s' = _store s;
  j_pending : _pending s' = _pending s;
  j_waker : _pending_waker_task s' = _pending_waker_task s;
  j_spawning : _spawning s' = _spawning s;
  j_total : 0 <= AgentRegistry._total_count (_registry s')
}.

Lemma joins_good r s s' :
  good s -> get_runtime (session_id r) s = None -> joins r s s' ->
  good s' /\ gains (session_id r) (mail r) s s'.
Proof.
  intros Hg Hn [J1 (d & Jo & Jt) Jh Jn Jr _ _ Jst Jp Jw Jsp Jtot]. pose proof Hg as [].
  assert (forall j o', heap s !! j = Some o' -> j <> next_object s) as Hfresh by (intros j o' H ->; apply g_bound0 in H; lia).
  split.
  - split; unfold has, parked; rewrite ?Jst, ?Jp; try done.
    + intros id' j. destruct (decide (id' = session_id r)) as [->|Hne].
      * rewrite J1. intros [= <-]. by eexists.
      * rewrite (proj1 (Jr id' Hne)). intros Hj. destruct (g_live0 id' j Hj) as (o' & Ho' & Hs'). rewrite Jh by (by eapply Hfresh).
        by exists o'.
    + intros j o'. rewrite Jn. destruct (decide (j = next_object s)) as [->|Hne]; [lia|].
      rewrite Jh by done. intros H%g_bound0. lia.
    + intros j o'. destruct (decide (j = next_object s)) as [->|Hne].
      * rewrite Jo. intros [= <-]. cbn. by rewrite J1.
      * rewrite Jh by done. intros Ho Hd. apply (g_dead0 j o' Ho).
        destruct (decide (session_id (rt o') = session_id r)) as [->|Hi]; [by rewrite Hn|].
        by rewrite (proj1 (Jr _ Hi)) in Hd.
    + intros [j| |k] ev; cbn; rewrite ?Jw, ?Jsp; [|by apply (g_tasks0 ByWaker)|by apply (g_tasks0 (BySpawn k))].
      destruct (decide (j = next_object s)) as [->|Hne].
      * rewrite Jo. by destruct Jt as [->| ->].
      * rewrite Jh by done. apply (g_tasks0 (ByDriver j)).
    + intros id' Hp. destruct (decide (id' = session_id r)) as [->|Hne]; [rewrite J1; by left|].
      rewrite (proj1 (Jr id' Hne)). by apply g_parked0.
  - intros id'. unfold held, live_mail, parked, mail_at. rewrite Jp. case_decide as Hd.
    + subst id'. rewrite J1, Hn, Jo. cbn. apply Permutation_app_comm.
    + rewrite (proj1 (Jr id' Hd)), app_nil_r. f_equiv. destruct (get_runtime id' s) as [j|] eqn:Hj; [|done].
      destruct (g_live0 id' j Hj) as (o' & Ho' & _). by rewrite Jh by (by eapply Hfresh).
Qed.

Lemma add_joins r m root trk s :
  good s -> joins r s (add_agent r m root trk s).
Proof.
  intros Hg. unfold add_agent, add_runtime. cbn.
  set (s1 := if _started s then _ else _).
  assert (joins r s s1) as H.
  { unfold s1. destruct (_started s) eqn:Hst; unfold _spawn_driver; cbn; rewrite ?lookup_insert_eq; cbn.
    all: split; unfold get_runtime; cbn; rewrite ?insert_insert_eq; try done; try apply Hg.
    all: try (by rewrite Dict.get_set_eq). all: try (intros; by rewrite ?lookup_insert_ne, ?Dict.get_set_ne).
    all: rewrite ?Dict.get_set_eq; try (intros i [= <-]; split; [done|]; rewrite Hst, ?lookup_insert_eq; done).
    all: rewrite lookup_insert_eq; eexists; split_and!; try done; first [by left|by right]. }
  clearbody s1. destruct H.
  assert (forall s2, heap s2 = heap s1 -> next_object s2 = next_object s1 -> _runtimes s2 = _runtimes s1 ->
    _scheduled s2 = _scheduled s1 -> _started s2 = _started s1 -> _store s2 = _store s1 -> _pending s2 = _pending s1 -> _pending_waker_task s2 = _pending_waker_task s1 ->
    _spawning s2 = _spawning s1 -> AgentRegistry._total_count (_registry s2) = AgentRegistry._total_count (_registry s1) ->
    joins r s s2) as Hsame.
  { intros s2 E1 E2 E3 E4 E5 E6 E7 E8 E9 E10. split; unfold get_runtime in *;
      rewrite ?E1, ?E2, ?E3, ?E4, ?E5, ?E6, ?E7, ?E8, ?E9, ?E10; done. }
  destruct root; [|destruct m as [m|]; [|by apply Hsame]].
  - apply Hsame; destruct trk; try done; cbn; unfold AgentRegistry.register_root_agent; by destruct (Dict.mem _ _).
  - apply Hsame; try done. exact (registered_total (set_agent_id (session_id r) m) (_registry s1)).
Qed.

Lemma born_joins p b s nick path s' :
  0 <= AgentRegistry._total_count (_registry s) -> born p b s nick path s' ->
  joins (AgentRuntime.init (built_id b) (Some path) Mailbox.init MessageQueue.init) s s'.
Proof.
  intros Ht []. destruct born_rest0 as (R1 & R2 & R3 & R4 & R5 & R6). split; try done; try lia.
  - rewrite born_heap0, lookup_insert_eq. eexists. split; [done|]. destruct (_ && _); [by right|by left].
  - intros i Hi. by rewrite born_heap0, lookup_insert_ne.
  - intros i. cbn. rewrite born_scheduled0, born_heap0. destruct (managed p); [|done]. intros [= <-].
    split; [done|]. intros ->. by rewrite lookup_insert_eq.
Qed.

Lemma unspawned_passed s s' : good s -> unspawned s s' -> passed s s'.
Proof.
  intros Hg []. pose proof Hg as [].
  assert (forall id, held id s' = held id s) as Hheld.
  { intros id. unfold held, live_mail, parked, get_runtime, mail_at. rewrite same_runtimes0, same_pending0. f_equal.
    destruct (Dict.get id (_runtimes s)) as [i|] eqn:Hi; [|done]. destruct (g_live0 id i Hi) as (o & Ho & _).
    by rewrite same_objects0 by (by eapply g_bound0). }
  split; [|intros id; by rewrite Hheld].
  split; unfold get_runtime, has, parked; rewrite ?same_runtimes0, ?same_store0, ?same_pending0; try done.
  - intros id i Hi. destruct (g_live0 id i Hi) as (o & Ho & Hs). exists o. split; [|done].
    by rewrite same_objects0 by (by eapply g_bound0).
  - intros i o Ho. destruct (decide (i < next_object s)%nat) as [Hlt|Hge]; [lia|]. apply (idle_objects0 i o); [lia|done].
  - intros i o Ho Hd. destruct (decide (i < next_object s)%nat) as [Hlt|Hge].
    + rewrite same_objects0 in Ho by done. by apply (g_dead0 i o).
    + apply (idle_objects0 i o); [lia|done].
  - intros [j| |k] ev; cbn; rewrite ?same_waker0, ?same_spawning0; [|by apply (g_tasks0 ByWaker)|by apply (g_tasks0 (BySpawn k))].
    destruct (decide (j < next_object s)%nat) as [Hlt|Hge].
    + rewrite same_objects0 by done. apply (g_tasks0 (ByDriver j)).
    + destruct (heap s' !! j) as [o|] eqn:Ho; [|done]. destruct (idle_objects0 j o ltac:(lia) Ho) as (_ & _ & Hd).
      destruct o as [r d]. cbn in Hd. by destruct Hd as [->| ->].
  - by rewrite (same_total _ _ same_registry0).
Qed.

Lemma registry_passed r s : good s -> 0 <= AgentRegistry._total_count r -> passed s (set_registry r s).
Proof. intros [] Hr. split; [by split|]. by intros id. Qed.

Lemma released_total id r :
  0 <= AgentRegistry._total_count r -> 0 <= AgentRegistry._total_count (AgentRegistry.release_spawned_agent id r).
Proof.
  intros Hr. unfold AgentRegistry.release_spawned_agent. destruct (_ !! id) as [a|]; [|done]. cbn.
  destruct (_ !! a) as [m|]; [|done]. destruct (AgentRegistry.is_root_meta m); cbn; [done|lia].
Qed.

Lemma release_passed id s : good s -> held id s = [] -> passed s (release_child id s).
Proof.
  intros Hg [Hm Hp]%app_nil. destruct (removed_good id s Hg Hm (or_introl Hp)) as [H1 H2].
  assert (passed s (_remove_runtime id s)) as P by (split; [done|intros id'; by rewrite H2]).
  unfold release_child. set (s1 := _remove_runtime id s) in *.
  set (s2 := set_residency _ s1). assert (passed s s2) as P2 by (eapply passed_quiet; [done|apply quiet_residency]).
  set (s3 := set_registry _ s2). assert (passed s s3) as P3.
  { eapply passed_trans; [exact P2|]. intros Hg2. apply registry_passed; [done|]. apply released_total, Hg2. }
  set (s4 := set_graph _ s3). assert (passed s s4) as P4 by (eapply passed_quiet; [done|by apply quiet_other]).
  assert (passed s (drop id s4)) as P5.
  { eapply passed_trans; [exact P4|]. intros Hg4.
    destruct (pending_good id (PendingDeliveryQueue.drop id (_pending s4)) s4 [] Hg4) as [D1 D2].
    - intros id'. unfold PendingDeliveryQueue.drop. rewrite PendingDeliveryQueue.queue_pop.
      destruct (decide (id = id')) as [->|]; [by rewrite decide_True by done|]. by rewrite decide_False by done.
    - constructor.
    - done.
    - split; [done|]. intros id'. unfold drop. rewrite D2. case_decide; [|done]. subst. unfold held, parked.
      change (_pending s4) with (_pending s). unfold parked in Hp. by rewrite Hp. }
  eapply passed_quiet; [exact P5|]. by apply quiet_other.
Qed.

(** *** Orderly steps *)

Definition fresh_birth (b : builder) (x : plane * acquired (Blob := Blob)) : Prop :=
  match x with (s, Got) => newcomer (built_id b) s | _ => True end.

(** What the callers keep to (plain messages, the mail of live agents only, ids of their own),
    and the races that must not happen: mail for the candidate of an eviction under way, an
    agent loaded twice, an agent released with mail. *)
Definition orderly (o : op) (s : plane) : Prop :=
  match o with
  | Send _ _ m _ => Mailbox.plain m
  | Pushes i _ _ => exists o, heap s !! i = Some o /\ get_runtime (session_id (rt o)) s = Some i
  | EvictionEnds _ w ok =>
      forall ev id todo, eviction_of w s = Some ev -> purpose ev = ForDelivery id todo ->
        (ok = true -> undisturbed ev s) /\ get_runtime id s = None
  | Spawn _ p b _ => fresh_birth b (reserve (parent_id p) s)
  | SpawnResumes k _ b _ ok =>
      forall ev, _spawning s !! k = Some ev ->
        (ok = true -> undisturbed ev s) /\ fresh_birth b (after_eviction ev ok s)
  | Add r _ _ _ => get_runtime (session_id r) s = None
  | Release id => held id s = []
  | _ => True
  end.

Lemma spawned_passed p b parent_path s :
  good s -> newcomer (built_id b) s -> passed s (fst (spawned p b parent_path s)).
Proof.
  intros Hg Hn. pose proof (spawned_spec p b parent_path s (g_bound _ Hg) Hn (g_total _ Hg)) as H.
  destruct (spawned p b parent_path s) as [s' [h|x]]; cbn.
  - destruct H as (path & _ & _ & H). pose proof (born_joins p b s _ path s' (g_total _ Hg) H) as Hj.
    assert (get_runtime (built_id b) s = None) as Hnone by apply Dict.get_None_keys, (new_runtime _ _ Hn).
    destruct (joins_good (AgentRuntime.init (built_id b) (Some path) Mailbox.init MessageQueue.init) s s' Hg Hnone Hj) as [H1 H2].
    cbn in H2.
    split; [done|]. intros id. rewrite (H2 id). case_decide; by rewrite app_nil_r.
  - by apply unspawned_passed.
Qed.

Lemma spawn_after_good p b parent_path x :
  good (fst x) -> acquired_ok (snd x) -> fresh_birth b x ->
  let (s', r) := spawn_after p b parent_path x in
  passed (fst x) s' /\ forall ev, r = inl ev -> snapshot ev = empty_record.
Proof.
  destruct x as [s a]. cbn [fst snd]. intros Hg Ha Hf. destruct a as [| |n c i rec]; unfold spawn_after.
  - pose proof (spawned_passed p b parent_path s Hg Hf) as H. destruct (spawned _ _ _ _) as [s' o]. by split.
  - split; [by apply quiet_passed|done].
  - split; [by apply quiet_passed|]. by intros ev [= <-].
Qed.

Lemma put_spawn_passed k s x :
  passed s (fst x) -> (forall ev, snd x = inl ev -> snapshot ev = empty_record) -> passed s (put_spawn k x).
Proof.
  destruct x as [s' [ev|o]]; cbn; intros H He; (eapply passed_quiet; [exact H|]); apply quiet_tasks; try (by left).
  - intros k' ev'. destruct (decide (k' = k)) as [->|Hne].
    + rewrite lookup_insert_eq. intros [= <-]. right. by apply He.
    + rewrite lookup_insert_ne by done. by left.
  - intros k' ev'. destruct (decide (k' = k)) as [->|Hne].
    + by rewrite lookup_delete_eq.
    + rewrite lookup_delete_ne by done. by left.
Qed.

Lemma spawn_passed k p b g s :
  good s -> fresh_birth b (reserve (parent_id p) s) -> passed s (run_op (Spawn k p b g) s).
Proof.
  intros Hg Hf. cbn [run_op]. unfold spawn_agent. destruct (negb _).
  { apply put_spawn_passed; [by apply quiet_passed|done]. }
  pose proof (reserve_quiet (parent_id p) s) as Hq. destruct (reserve (parent_id p) s) as [s1 a]. destruct Hq as [Hq Ha].
  pose proof (spawn_after_good p b (_resolve_parent_path (parent_id p) s) (s1, a) (quiet_good _ _ Hq Hg) Ha Hf) as H.
  destruct (spawn_after _ _ _ _) as [s2 r]. destruct H as [H1 H2]. apply put_spawn_passed; [|exact H2].
  eapply passed_trans; [by apply quiet_passed|done].
Qed.

Lemma resumed_passed k p b path ok s :
  good s -> orderly (SpawnResumes k p b path ok) s -> passed s (run_op (SpawnResumes k p b path ok) s).
Proof.
  intros Hg Ho. cbn [run_op orderly] in *. destruct (_spawning s !! k) as [ev|]; [|by apply quiet_passed].
  destruct (Ho ev eq_refl) as [Hu Hf]. destruct (ok && _); [by apply quiet_passed|].
  pose proof (after_eviction_good ev ok s Hg Hu) as H. destruct (after_eviction ev ok s) as [s1 a].
  destruct H as (H1 & Ha & _). pose proof (spawn_after_good p b path (s1, a) (proj1 H1) Ha Hf) as H.
  destruct (spawn_after _ _ _ _) as [s2 r]. destruct H as [H2 H3]. apply put_spawn_passed; [|exact H3].
  eapply passed_trans; [exact H1|done].
Qed.

Lemma eviction_ends_passed e w ok s :
  good s -> orderly (EvictionEnds e w ok) s -> passed s (run_op (EvictionEnds e w ok) s).
Proof.
  intros Hg Ho. cbn [run_op orderly] in *. destruct (eviction_of w s) as [ev|]; [|by apply quiet_passed].
  destruct (purpose ev) as [id todo|] eqn:Hp; [|by apply quiet_passed]. destruct (Ho ev id todo eq_refl Hp) as [Hu Hn].
  destruct (ok && _); [by apply quiet_passed|].
  pose proof (after_eviction_good ev ok s Hg Hu) as H. destruct (after_eviction ev ok s) as [s1 a].
  destruct H as (H1 & Ha & Hr). apply flushes_good. eapply flushed_trans; [exact H1|]. intros Hg1.
  apply (resume_flush_good e id todo (s1, a)); [done| |done]. unfold get_runtime in *. cbn. rewrite Hr.
  destruct ok; [|done]. destruct (decide (id = candidate ev)) as [->|Hne]; [apply Dict.get_pop_eq|by rewrite Dict.get_pop_ne].
Qed.

Lemma watch_accounts e x s : good s -> accounts (accepted_by (Watch e x) s) [] s (run_op (Watch e x) s).
Proof.
  intros Hg. cbn [run_op accepted_by]. destruct x as [child parent cp pp ref|child]; cbn [watch notice].
  - destruct (get_runtime child s) as [i|]; cbn; [|by apply quiet_accounts].
    destruct (heap s !! i) as [o|]; cbn; [|by apply quiet_accounts].
    destruct (_ && _ && _); [|by apply quiet_accounts]. apply sent_accounts, send_comm_good, Hg.
  - destruct (get_runtime child s) as [i|]; cbn; [|by apply quiet_accounts].
    destruct (heap s !! i) as [o|]; cbn; [|by apply quiet_accounts].
    destruct (is_final _); [by apply quiet_accounts|]. apply quiet_accounts; [done|apply quiet_interrupt].
Qed.

Lemma step_accounts o s :
  good s -> orderly o s -> accounts (accepted_by o s) (taken_by o s) s (run_op o s).
Proof.
  intros Hg Ho. destruct o.
  - apply sent_accounts. by apply send_good.
  - by apply sent_accounts, send_comm_good.
  - by apply passed_accounts, driver_wakes_good.
  - by apply observe_accounts.
  - destruct Ho as (o & Ho & Hl). cbn [accepted_by]. rewrite Ho. by apply pushed_accounts.
  - by apply passed_accounts, turn_ends_good.
  - by apply passed_accounts, waker_wakes_good.
  - by apply passed_accounts, eviction_written_good.
  - by apply passed_accounts, eviction_ends_passed.
  - by apply passed_accounts, spawn_passed.
  - by apply passed_accounts, resumed_passed.
  - cbn [accepted_by taken_by run_op]. destruct (joins_good r s (add_agent r metadata root trk s));
      [done|done|by apply add_joins|by apply gains_accounts].
  - by apply passed_accounts, release_passed.
  - apply quiet_accounts; [done|apply quiet_interrupt].
  - by apply watch_accounts.
  - apply quiet_accounts; [done|apply quiet_start].
  - apply quiet_accounts; [done|apply quiet_stop].
Qed.

Fixpoint orderly_run (l : list op) (s : plane) : Prop :=
  match l with [] => True | o :: l => orderly o s /\ orderly_run l (run_op o s) end.

Lemma run_accounts l s :
  good s -> orderly_run l s ->
  let '(s', acc, tak) := run l s in accounts acc tak s s'.
Proof.
  revert s. induction l as [|o l IH]; intros s Hg Hl; cbn [run].
  { by apply quiet_accounts. }
  destruct Hl as [Ho Hl]. destruct (step_accounts o s Hg Ho) as [H1 H2]. specialize (IH _ H1 Hl).
  destruct (run l (run_op o s)) as [[s' acc] tak]. destruct IH as [H3 H4]. split; [done|]. intros id.
  rewrite !to_app, app_assoc, (H2 id), <- !app_assoc. f_equiv. apply H4.
Qed.

Lemma init_good max_agents : good (AgentControl.init max_agents).
Proof.
  split; try done. intros [i| |k] ev; cbn; by rewrite ?lookup_empty.
Qed.

(** C31: Mail is neither lost nor duplicated. In every run of orderly steps from the start, in
    any order, births, evictions, loading, passes over the parked mail, turns, watchers,
    interrupts, stops, the messages that were accepted for an agent are, up to order, the
    ones its role took and the ones that are held for it still, in its buffer, its mailbox or
    parked; a refused message is held nowhere. *)
Theorem delivery_conserved max_agents l :
  orderly_run l (AgentControl.init max_agents) ->
  let '(s, acc, tak) := run l (AgentControl.init max_agents) in
  forall id, to id acc ≡ₚ to id tak ++ held id s.
Proof.
  intros Hl. pose proof (run_accounts l _ (init_good max_agents) Hl) as H.
  destruct (run l _) as [[s acc] tak]. intros id. apply (proj2 H id).
Qed.

End System.
End AgentDelivery.
