(* ===== verification/AgentWake.v ===== *)
(** * Mail that starts a turn

    On the steps of [AgentDelivery.v]: a runtime whose mailbox holds a triggering message has
    its wake flag set, and a scheduled runtime has a task that waits for it. *)

From S2P Require Import Prelude Messaging AgentPath AgentRegistry Residency AgentRuntime SpawnAdmission AgentControl AgentSpawn AgentDelivery.

Local Open Scope Z_scope.

Module AgentWake.
Import AgentRuntime AgentControl AgentSpawn AgentDelivery.

Section System.
Context {Outcome Blob : Type} (is_rejected : Outcome -> bool).
Context (dump_message : Message -> Blob) (load_message : Blob -> option Message).
Context (_residency_capacity _max_depth : option Z).
Context (_spawn_policy : list SpawnAdmissionPolicy.extension).

Notation plane := (AgentControl.t Outcome Blob).
Notation runtime := (AgentRuntime.t Outcome).
Notation good := (good (Outcome := Outcome) (Blob := Blob)).
Notation reserve := (reserve dump_message _residency_capacity).
Notation scan := (scan dump_message).
Notation orderly := (orderly is_rejected dump_message _residency_capacity).
Notation run_op := (run_op is_rejected dump_message load_message _residency_capacity _max_depth _spawn_policy).

Definition triggered (r : runtime) : bool := Mailbox.has_trigger_turn (mailbox r).

Definition alert (r : runtime) : Prop := triggered r = true -> wake_event r = true.

Record wakeful (s : plane) : Prop := {
  w_alert i o : heap s !! i = Some o -> alert (rt o);
  w_task id i o : _started s = true -> Dict.get id (_scheduled s) = Some i -> heap s !! i = Some o ->
    _stopped (rt o) = false -> task o <> None;
  w_placed id i : Dict.get id (_scheduled s) = Some i -> is_Some (heap s !! i)
}.

(** ** Steps that lose neither a wake flag nor a task *)

Record calm (running : bool) (o o' : object Outcome Blob) : Prop := {
  c_alert : alert (rt o) -> alert (rt o');
  c_stopped : _stopped (rt o') = false -> _stopped (rt o) = false;
  c_task : running = true -> _stopped (rt o') = false -> task o <> None -> task o' <> None
}.

#[export] Instance calm_refl b : Reflexive (calm b).
Proof. by split. Qed.

Record tends (s s' : plane) : Prop := {
  t_heap i o' : heap s' !! i = Some o' -> exists o, heap s !! i = Some o /\ calm (_started s') o o';
  t_here i : is_Some (heap s !! i) -> is_Some (heap s' !! i);
  t_scheduled id i : Dict.get id (_scheduled s') = Some i -> Dict.get id (_scheduled s) = Some i;
  t_started : _started s' = true -> _started s = true
}.

Lemma tends_wakeful s s' : tends s s' -> wakeful s -> wakeful s'.
Proof.
  intros [T1 T2 T3 T4] [W1 W2 W3]. split.
  - intros i o' Ho'. destruct (T1 i o' Ho') as (o & Ho & []). by eapply c_alert0, W1.
  - intros id i o' Hst Hs Ho' Hn. destruct (T1 i o' Ho') as (o & Ho & []). apply c_task0; [done|done|].
    by apply (W2 id i o); [apply T4|apply T3| |apply c_stopped0].
  - intros id i Hs. by eapply T2, W3, T3.
Qed.

#[export] Instance tends_refl : Reflexive tends.
Proof. split; try done. intros i o Ho. by exists o. Qed.

#[export] Instance tends_trans : Transitive tends.
Proof.
  intros s1 s2 s3 [A1 A2 A3 A4] [B1 B2 B3 B4]. split.
  - intros i o3 H3. destruct (B1 i o3 H3) as (o2 & H2 & []). destruct (A1 i o2 H2) as (o1 & H1 & []).
    exists o1. split; [done|]. split; auto 6.
  - auto.
  - auto.
  - auto.
Qed.

Lemma tends_same s s' : heap s' = heap s -> _scheduled s' = _scheduled s -> _started s' = _started s -> tends s s'.
Proof.
  intros H1 H2 H3. split; rewrite ?H1, ?H2, ?H3; try done. intros i o Ho. by exists o.
Qed.

Lemma tends_object i o o' s : heap s !! i = Some o -> calm (_started s) o o' -> tends s (set_object i o' s).
Proof.
  intros Ho Hc. split; try done; cbn.
  - intros j o1. destruct (decide (j = i)) as [->|Hne].
    + rewrite lookup_insert_eq. intros [= <-]. by exists o.
    + rewrite lookup_insert_ne by done. intros H. by exists o1.
  - intros j Hj. destruct (decide (j = i)) as [->|Hne]; [by rewrite lookup_insert_eq|by rewrite lookup_insert_ne].
Qed.

Lemma tends_update i f s :
  (forall r, (alert r -> alert (f r)) /\ (_stopped (f r) = false -> _stopped r = false)) -> tends s (update i f s).
Proof.
  intros Hf. unfold update. destruct (heap s !! i) as [o|] eqn:Ho; [|reflexivity].
  eapply tends_object; [done|]. split; cbn; [apply Hf|apply Hf|done].
Qed.

(** A runtime gets a task, or one that was stopped loses it. *)
Lemma tends_set_task i d s :
  (forall o, heap s !! i = Some o -> d = None -> _stopped (rt o) = true) -> tends s (set_task i d s).
Proof.
  intros Hd. unfold set_task. destruct (heap s !! i) as [o|] eqn:Ho; [|reflexivity].
  eapply tends_object; [done|]. split; cbn; try done. intros _ Hn _ ->. by rewrite (Hd o eq_refl eq_refl) in Hn.
Qed.

Lemma tends_residency r s : tends s (set_residency r s).
Proof. by apply tends_same. Qed.

Lemma tends_touch id s : tends s (touch id s).
Proof. by apply tends_same. Qed.

Lemma tends_record id text s : tends s (_record_last_task_message id text s).
Proof. by apply tends_same. Qed.

Lemma tends_tasks w sp s : tends s (set_tasks w sp s).
Proof. by apply tends_same. Qed.

Lemma tends_spawn_driver i s : tends s (_spawn_driver i s).
Proof.
  unfold _spawn_driver. destruct (heap s !! i) as [o|] eqn:Ho; [|reflexivity]. destruct (task o) eqn:Ht; [reflexivity|].
  eapply tends_object; [done|]. by split.
Qed.

Lemma tends_loop_head i s : tends s (loop_head i s).
Proof.
  unfold loop_head. destruct (heap s !! i) as [o|] eqn:Ho; [|reflexivity]. apply tends_set_task.
  intros o'. rewrite Ho. intros [= <-]. by destruct (_stopped _).
Qed.

Lemma tends_release_guard s s' : tends s s' -> tends s (release_guard s').
Proof. intros H. etrans; [exact H|by apply tends_same]. Qed.

Lemma tends_stop i s : tends s (shutdown is_rejected i s).
Proof.
  unfold shutdown. destruct (heap s !! i) as [[r d]|] eqn:Ho.
  2:{ unfold update. rewrite Ho. unfold cancel_task. by rewrite Ho. }
  assert (tends s (update i shutdown_flags s)) as H.
  { unfold update. rewrite Ho. eapply tends_object; [done|]. by split. }
  etrans; [exact H|]. assert (heap (update i shutdown_flags s) !! i = Some (mkObject (shutdown_flags r) d)) as Hi.
  { rewrite update_heap by done. rewrite Ho. cbn. by rewrite decide_True. }
  unfold cancel_task. rewrite Hi. destruct d as [[| |ev]|]; try reflexivity.
  - eapply tends_object; [done|]. by split.
  - apply tends_release_guard. eapply tends_object; [done|]. by split.
  - eapply tends_object; [done|]. by split.
Qed.

Lemma tends_fold {A} (f : plane -> A -> plane) l s : (forall s x, tends s (f s x)) -> tends s (foldl f s l).
Proof. intros H. revert s. induction l as [|x l IH]; intros s; [reflexivity|]. etrans; [apply H|apply IH]. Qed.

Lemma scan_tends n protected s : tends s (fst (scan n protected s)).
Proof.
  revert s. induction n as [|n IH]; intros s; cbn [AgentControl.scan]; [done|].
  destruct (Residency._pop_lru_candidate protected (_residency s)) as [r [c|]]; [|apply tends_residency].
  pose proof (tends_residency r s) as Hr.
  destruct (get_runtime c _) as [i|]; [|by etrans]. destruct (heap _ !! i) as [o|]; [|by etrans].
  destruct (is_unloadable (rt o)); [done|]. etrans; [exact Hr|]. etrans; [apply tends_touch|done].
Qed.

Lemma after_scan_fst x : fst (after_scan (Outcome := Outcome) (Blob := Blob) x) = fst x.
Proof. by destruct x as [s [[[[n c] i] rec]|]]. Qed.

Lemma reserve_tends protected s : tends s (fst (reserve protected s)).
Proof.
  unfold AgentControl.reserve. destruct (Residency._try_reserve_pending_slot _ _) as [r [|]]; [apply tends_residency|].
  rewrite after_scan_fst. etrans; [apply (tends_residency r)|apply scan_tends].
Qed.

Lemma evict_tends ev s : tends s (evict is_rejected ev s).
Proof.
  unfold evict. etrans; [apply (tends_stop (victim ev))|]. split; try done.
  - intros i o Ho. by exists o.
  - intros id i. cbn. destruct (decide (id = candidate ev)) as [->|Hne]; [by rewrite Dict.get_pop_eq|by rewrite Dict.get_pop_ne].
Qed.

Lemma after_eviction_tends ev ok s :
  tends s (fst (after_eviction is_rejected dump_message _residency_capacity ev ok s)).
Proof.
  unfold after_eviction. destruct ok.
  - etrans; [apply evict_tends|apply reserve_tends].
  - rewrite after_scan_fst. etrans; [apply tends_touch|apply scan_tends].
Qed.

(** ** Delivery *)

Lemma enqueue_trigger m mode b :
  Mailbox.has_trigger_turn (Mailbox.enqueue m mode b) = true ->
  Mailbox.has_trigger_turn b = true \/ mode = TRIGGER_TURN.
Proof.
  unfold Mailbox.enqueue, Mailbox.has_trigger_turn.
  assert (existsb Mailbox.trigger (Mailbox._items b ++ [Mailbox.mkItem m (bool_decide (mode = TRIGGER_TURN))]) = true ->
    existsb Mailbox.trigger (Mailbox._items b) = true \/ mode = TRIGGER_TURN) as H.
  { rewrite existsb_app, orb_true_iff. intros [H|H]; [by left|right]. cbn in H. rewrite orb_false_r in H.
    by apply bool_decide_eq_true in H. }
  destruct (Mailbox.publication_id m); [destruct (Mailbox.already _ _)|]; cbn; auto.
Qed.

Lemma twice_tends i f g (b : bool) s :
  (forall r, (alert r -> alert (if b then g (f r) else f r))
             /\ (_stopped (f r) = false -> _stopped r = false) /\ _stopped (g r) = _stopped r) ->
  tends s (if b then update i g (update i f s) else update i f s).
Proof.
  intros Hf. destruct (heap s !! i) as [o|] eqn:Ho.
  2:{ unfold update at 2 3. rewrite Ho. unfold update. rewrite Ho. by destruct b. }
  assert ((if b then update i g (update i f s) else update i f s)
          = set_object i (mkObject (if b then g (f (rt o)) else f (rt o)) (task o)) s) as ->.
  { unfold update. rewrite Ho. destruct b; [|done]. cbn. rewrite lookup_insert_eq. unfold set_object. cbn.
    by rewrite insert_insert_eq. }
  eapply tends_object; [done|]. destruct (Hf (rt o)) as (H1 & H2 & _). destruct (Hf (f (rt o))) as (_ & _ & H3).
  destruct b; split; cbn; rewrite ?H3; auto.
Qed.

Lemma put_message_tends i m mode s : tends s (put_message i m mode s).
Proof.
  unfold put_message.
  pose proof (twice_tends i (fun r => with_mailbox (Mailbox.enqueue m mode (mailbox r)) r) wake (is_trigger mode) s) as H.
  destruct mode; apply H; intros r; (split_and!; [|done|done]); intros Ha; cbn; [|done].
  intros [Ht|Ht]%enqueue_trigger; [by apply Ha|done].
Qed.

Lemma put_communication_tends i c s : tends s (put_communication i c s).
Proof.
  unfold put_communication.
  apply (twice_tends i (fun r => with_mailbox (Mailbox.enqueue_communication c (mailbox r)) r) wake (trigger_turn c) s).
  intros r. split_and!; [|done|done]. intros Ha. destruct (trigger_turn c) eqn:Ht; [done|].
  unfold alert, triggered, Mailbox.has_trigger_turn. cbn. rewrite existsb_app, Ht. cbn. rewrite !orb_false_r. exact Ha.
Qed.

Lemma deliver_all_tends i id s : tends s (deliver_all i id s).
Proof.
  unfold deliver_all. destruct (PendingDeliveryQueue.take_all _ _) as [q l].
  etrans; [by apply (tends_same s (set_pending q s))|]. apply tends_fold. intros s' d. unfold _deliver_now.
  destruct d as [m mode|c].
  - etrans; [apply (put_message_tends i m mode)|]. etrans; [apply tends_record|apply tends_touch].
  - etrans; [apply (put_communication_tends i c)|]. etrans; [apply tends_record|apply tends_touch].
Qed.

(** ** Runtimes that join *)

Lemma no_mail_alert (r : runtime) : mail r = [] -> alert r.
Proof.
  unfold mail, alert, triggered, Mailbox.has_trigger_turn. intros [_ H]%app_nil. by destruct (Mailbox._items _).
Qed.

Lemma wakeful_new r d id s s' :
  good s -> wakeful s -> alert r ->
  heap s' !! next_object s = Some (mkObject r d) -> (forall i, i <> next_object s -> heap s' !! i = heap s !! i) ->
  (forall id', id' <> id -> Dict.get id' (_scheduled s') = Dict.get id' (_scheduled s)) ->
  (forall i, Dict.get id (_scheduled s') = Some i -> i = next_object s /\ (_started s = true -> d <> None)) ->
  _started s' = _started s -> wakeful s'.
Proof.
  intros Hg [W1 W2 W3] Ha Hn Hh Ho Hs Hst.
  assert (forall i, is_Some (heap s !! i) -> i <> next_object s) as Hold.
  { intros i [o Hi] ->. apply (g_bound _ Hg) in Hi. lia. }
  split.
  - intros i o Hi. destruct (decide (i = next_object s)) as [->|Hne].
    + rewrite Hn in Hi. by injection Hi as <-.
    + rewrite Hh in Hi by done. by eapply W1.
  - intros id' i o H1 H2 H3 H4. rewrite Hst in H1. destruct (decide (id' = id)) as [->|Hne].
    + destruct (Hs i H2) as [-> Hd]. rewrite Hn in H3. injection H3 as <-. by apply Hd.
    + rewrite Ho in H2 by done. rewrite Hh in H3 by (by eapply Hold, W3). by eapply W2.
  - intros id' i H2. destruct (decide (id' = id)) as [->|Hne].
    + destruct (Hs i H2) as [-> _]. by rewrite Hn.
    + rewrite Ho in H2 by done. rewrite Hh by (by eapply Hold, W3). by eapply W3.
Qed.

Lemma joins_wakeful r s s' : good s -> wakeful s -> alert r -> joins r s s' -> wakeful s'.
Proof.
  intros Hg Hw Ha []. destruct j_object0 as (d & Hd & _). apply (wakeful_new r d (session_id r) s s'); try done.
  - intros id Hid. by apply j_others0.
  - intros i Hi. destruct (j_scheduled0 i Hi) as [-> Ht]. split; [done|]. intros Hst. rewrite (Ht Hst) in Hd. by injection Hd as <-.
Qed.

Lemma install_wakeful e id s :
  good s -> wakeful s -> wakeful (fst (_install_rehydrated load_message e id s)).
Proof.
  intros Hg Hw. destruct (_install_rehydrated load_message e id s) as [s' [i|x]] eqn:E; cbn.
  - destruct (install_shape load_message e id s s' i Hg E) as (r & d & -> & H1 & _ & _ & _ & Hm & Hd & Hs & Hst & _).
    apply (wakeful_new r d id s s'); rewrite ?H1, ?Hs; try done.
    + by apply no_mail_alert.
    + by rewrite lookup_insert_eq.
    + intros i Hi. by rewrite lookup_insert_ne.
    + intros id' Hid. by rewrite Dict.get_set_ne.
    + intros i. rewrite Dict.get_set_eq. intros [= <-]. split; [done|]. intros H. by rewrite Hd, H.
  - eapply tends_wakeful; [|exact Hw]. revert E. unfold _install_rehydrated. destruct (loads e id); cbn [negb].
    + destruct (Dict.get id (_store s)) as [rec|] eqn:Hr.
      * rewrite (g_store _ Hg id rec Hr), rehydrate_empty. by destruct (new_object _ _).
      * intros [= <- <-]. apply tends_residency.
    + intros [= <- <-]. apply tends_residency.
Qed.

Lemma try_load_wakeful e id s :
  good s -> wakeful s -> wakeful (fst (_try_load_sync load_message _residency_capacity e id s)).
Proof.
  intros Hg Hw. unfold _try_load_sync. destruct (get_runtime id s) as [i|]; [done|].
  destruct (negb (has id s)); [done|]. destruct (Residency.try_reserve_sync _ _) as [r [|]].
  - pose proof (install_wakeful e id (set_residency r s) (quiet_good _ _ (quiet_residency r s) Hg)
                  (tends_wakeful _ _ (tends_residency r s) Hw)) as H.
    by destruct (_install_rehydrated load_message e id _) as [s' [i|x]].
  - eapply tends_wakeful; [apply tends_residency|done].
Qed.

Lemma tends_park id d s : tends s (park id d s).
Proof. by apply tends_same. Qed.

Lemma send_wakeful e id m mode s :
  good s -> wakeful s -> wakeful (fst (send_input load_message _residency_capacity e id m mode s)).
Proof.
  intros Hg Hw. pose proof (try_load_wakeful e id s Hg Hw) as H. unfold send_input.
  destruct (_try_load_sync _ _ e id s) as [s1 [[i|]|x]]; cbn in *; [|by eapply tends_wakeful; [apply tends_park|]|done].
  destruct (_ && _); (eapply tends_wakeful; [|exact H]); [apply tends_park|].
  etrans; [apply (put_message_tends i m mode)|]. etrans; [apply tends_touch|apply tends_record].
Qed.

Lemma send_comm_wakeful e id c s :
  good s -> wakeful s -> wakeful (fst (send_inter_agent_communication load_message _residency_capacity e id c s)).
Proof.
  intros Hg Hw. pose proof (try_load_wakeful e id s Hg Hw) as H. unfold send_inter_agent_communication.
  destruct (_try_load_sync _ _ e id s) as [s1 [[i|]|x]]; cbn in *; [|by eapply tends_wakeful; [apply tends_park|]|done].
  destruct (_ && _); (eapply tends_wakeful; [|exact H]); [apply tends_park|].
  etrans; [apply (put_communication_tends i c)|]. etrans; [apply tends_touch|apply tends_record].
Qed.

(** ** The pass over the parked mail *)

Lemma settle_wakeful e id todo x :
  good (fst x) -> get_runtime id (fst x) = None -> wakeful (fst x) ->
  wakeful (fst (settle load_message e id todo x)).
Proof.
  destruct x as [s a]. cbn [fst]. intros Hg Hn Hw. destruct a as [| |n c i rec]; cbn.
  - pose proof (install_wakeful e id s Hg Hw) as H. destruct (_install_rehydrated load_message e id s) as [s' [i|x]]; cbn in *.
    + eapply tends_wakeful; [apply deliver_all_tends|done].
    + destruct x; try done; (eapply tends_wakeful; [|exact H]); by apply tends_same.
  - eapply tends_wakeful; [|exact Hw]. by apply tends_same.
  - done.
Qed.

Lemma run_flush_wakeful e todo s :
  good s -> wakeful s -> wakeful (fst (run_flush dump_message load_message _residency_capacity e todo s)).
Proof.
  revert s. induction todo as [|id todo IH]; intros s Hg Hw; cbn [run_flush]; [done|].
  destruct (get_runtime id s) as [i|] eqn:Hr.
  { apply IH; [by apply deliver_all_good|]. eapply tends_wakeful; [apply deliver_all_tends|done]. }
  destruct (has id s) eqn:Hh; cbn [negb].
  2:{ apply IH; [by apply drop_good|]. eapply tends_wakeful; [|exact Hw]. by apply tends_same. }
  pose proof (reserve_quiet dump_message _residency_capacity None s) as Hq. pose proof (reserve_tends None s) as Ht.
  destruct (reserve None s) as [s1 a]. destruct Hq as [Hq Ha]. cbn [fst] in Ht.
  assert (get_runtime id s1 = None) as Hn by (unfold get_runtime; by rewrite (q_runtimes _ _ Hq)).
  pose proof (settle_good load_message e id todo (s1, a) (quiet_good _ _ Hq Hg) Hn Ha) as H.
  pose proof (settle_wakeful e id todo (s1, a) (quiet_good _ _ Hq Hg) Hn (tends_wakeful _ _ Ht Hw)) as H'.
  destruct (settle load_message e id todo (s1, a)) as [s2 [ev|[|]]]; cbn in *; [done| |done].
  apply IH; [apply H|done].
Qed.

Lemma resume_flush_wakeful e id todo x :
  good (fst x) -> get_runtime id (fst x) = None -> acquired_ok (snd x) -> wakeful (fst x) ->
  wakeful (fst (resume_flush dump_message load_message _residency_capacity e id todo x)).
Proof.
  intros Hg Hn Ha Hw. unfold resume_flush. pose proof (settle_good load_message e id todo x Hg Hn Ha) as H.
  pose proof (settle_wakeful e id todo x Hg Hn Hw) as H'.
  destruct (settle load_message e id todo x) as [s2 [ev|[|]]]; cbn in *; [done| |done].
  apply run_flush_wakeful; [apply H|done].
Qed.

Lemma flushes_tends w (x : plane * option (eviction Blob)) : tends (fst x) (flushes w x).
Proof.
  destruct x as [s1 [ev|]]; destruct w as [i| |k]; cbn; try (by apply tends_same); [|apply tends_loop_head].
  destruct (heap s1 !! i) as [o|] eqn:Ho; [|done]. apply tends_set_task. intros o'. rewrite Ho. intros [= <-].
  by destruct (_stopped _).
Qed.

(** ** Turns *)

Lemma end_turn_same how (r : runtime) :
  alert r = alert (end_turn is_rejected how r) /\ _stopped (end_turn is_rejected how r) = _stopped r.
Proof. by destruct how. Qed.

Lemma turn_ends_wakeful e i how s :
  good s -> how <> Cancelled -> wakeful s ->
  wakeful (turn_ends is_rejected dump_message load_message _residency_capacity e i how s).
Proof.
  intros Hg Hc Hw. unfold turn_ends. destruct (heap s !! i) as [[r [[| |ev]|]]|] eqn:E; try done.
  set (s1 := release_guard _).
  assert (tends s s1) as Ht.
  { apply tends_release_guard. eapply tends_object; [done|]. destruct (end_turn_same how r) as [H1 H2].
    split; cbn; [by rewrite <- H1|by rewrite H2|done]. }
  assert (quiet s s1) as Hq.
  { etrans; [|apply quiet_release_guard]. eapply quiet_object_change; [done|apply end_turn_key|done]. }
  pose proof (run_flush_wakeful e (PendingDeliveryQueue.agents_with_pending (_pending s1)) s1
                (quiet_good _ _ Hq Hg) (tends_wakeful _ _ Ht Hw)) as Hf.
  pose proof (tends_wakeful _ _ (flushes_tends (ByDriver i) _) Hf) as H.
  destruct how; [exact H|done|exact H].
Qed.

Lemma waker_wakes_wakeful e s :
  good s -> wakeful s -> wakeful (waker_wakes dump_message load_message _residency_capacity e s).
Proof.
  intros Hg Hw. unfold waker_wakes. destruct (_pending_waker_task s) as [[|ev]|]; try done.
  destruct (PendingDeliveryQueue._waker _); [|done].
  set (s1 := set_pending _ s). assert (quiet s s1) as Hq by by apply quiet_other.
  assert (tends s s1) as Ht by by apply tends_same.
  exact (tends_wakeful _ _ (flushes_tends ByWaker _) (run_flush_wakeful e _ s1 (quiet_good _ _ Hq Hg) (tends_wakeful _ _ Ht Hw))).
Qed.

Lemma staged_untriggered (r : runtime) : triggered (begin_turn (_stage_mailbox (clear_wake r))) = false.
Proof. done. Qed.

Lemma driver_wakes_tends i s : tends s (driver_wakes i s).
Proof.
  unfold driver_wakes. destruct (heap s !! i) as [[r [[| |ev]|]]|] eqn:E; try reflexivity.
  destruct (wake_event r); cbn [negb]; [|reflexivity].
  destruct (_stopped r) eqn:Hst.
  - apply tends_set_task. intros o. rewrite E. by intros [= <-].
  - etrans; [|by apply (tends_same (set_object i (mkObject (begin_turn (_stage_mailbox (clear_wake r))) (Some InTurn)) s))].
    eapply tends_object; [done|]. by split.
Qed.

(** A turn is cancelled; the runtime gets a new task, if it is to be driven. *)
Lemma cancelled_tends i s : tends s (ensure_driver i (cancel_task is_rejected i s)).
Proof.
  destruct (heap s !! i) as [[r d]|] eqn:Ho.
  2:{ unfold cancel_task. rewrite Ho. unfold ensure_driver. by rewrite Ho. }
  assert (exists r' d', (alert r -> alert r') /\ _stopped r' = _stopped r
    /\ heap (cancel_task is_rejected i s) = <[i := mkObject r' d']> (heap s)
    /\ _scheduled (cancel_task is_rejected i s) = _scheduled s /\ _started (cancel_task is_rejected i s) = _started s)
    as (r' & d' & Ha & Hs & Hh & Hm & Hst).
  { unfold cancel_task. rewrite Ho. destruct d as [[| |ev]|]; cbn.
    - by exists r, None.
    - by exists (end_turn is_rejected Cancelled r), None.
    - by exists r, None.
    - exists r, None. by rewrite insert_id. }
  set (s1 := cancel_task is_rejected i s) in *.
  assert (exists d2, heap (ensure_driver i s1) = <[i := mkObject r' d2]> (heap s)
    /\ _scheduled (ensure_driver i s1) = _scheduled s /\ _started (ensure_driver i s1) = _started s
    /\ (_started s = true -> _stopped r = false -> d2 <> None)) as (d2 & E1 & E2 & E3 & E4).
  { unfold ensure_driver. rewrite Hh, lookup_insert_eq. cbn [rt]. rewrite Hst, Hs. destruct (_started s && negb (_stopped r)) eqn:Eb.
    - unfold _spawn_driver. rewrite Hh, lookup_insert_eq. cbn [task]. destruct d' as [d'|].
      + by exists (Some d').
      + exists (Some Parked). cbn. by rewrite Hh, insert_insert_eq.
    - exists d'. split_and!; try done. intros H1 H2. by rewrite H1, H2 in Eb. }
  split; rewrite ?E2, ?E3; try done.
  - intros j o'. rewrite E1. destruct (decide (j = i)) as [->|Hne].
    + rewrite lookup_insert_eq. intros [= <-]. exists (mkObject r d). split; [done|]. split; cbn; rewrite ?Hs; auto.
    + rewrite lookup_insert_ne by done. intros H. by exists o'.
  - intros j Hj. rewrite E1. destruct (decide (j = i)) as [->|Hne]; [by rewrite lookup_insert_eq|by rewrite lookup_insert_ne].
Qed.

Lemma interrupt_wakeful id s : wakeful s -> wakeful (fst (interrupt is_rejected id s)).
Proof.
  intros Hw. unfold interrupt. destruct (get_runtime id s) as [i|]; [|done]. destruct (heap s !! i) as [o|] eqn:Ho; [|done].
  cbn. destruct (_ && active_turn (rt o)).
  2:{ destruct (negb _); [|done]. eapply tends_wakeful; [by apply tends_update|done]. }
  eapply tends_wakeful; [|exact Hw]. apply cancelled_tends.
Qed.

Lemma watch_wakeful e x s :
  good s -> wakeful s -> wakeful (fst (watch is_rejected load_message _residency_capacity e x s)).
Proof.
  intros Hg Hw. destruct x as [child parent cp pp ref|child]; cbn [watch].
  - destruct (get_runtime child s) as [i|]; cbn; [|done]. destruct (heap s !! i) as [o|]; cbn; [|done].
    destruct (_ && _ && _); [|done]. by apply send_comm_wakeful.
  - destruct (get_runtime child s) as [i|]; cbn; [|done]. destruct (heap s !! i) as [o|]; cbn; [|done].
    destruct (is_final _); [done|]. by apply interrupt_wakeful.
Qed.

(** ** Starting and stopping *)

Lemma spawned_drivers (l : list (string * nat)) (s : plane) id i o :
  (id, i) ∈ l -> heap (foldl (fun s kv => _spawn_driver kv.2 s) s l) !! i = Some o -> task o <> None.
Proof.
  revert s. induction l as [|[id' j] l IH]; intros s; [by intros ?%not_elem_of_nil|].
  intros [[= <- <-]|Hin]%elem_of_cons; [|by apply IH]. cbn [foldl snd].
  assert (forall s : plane, (forall o, heap s !! i = Some o -> task o <> None) ->
    forall o, heap (foldl (fun s kv => _spawn_driver kv.2 s) s l) !! i = Some o -> task o <> None) as Hk.
  { clear. induction l as [|[id j] l IH]; [done|]. cbn [foldl snd]. intros s Hs. apply IH. intros o.
    unfold _spawn_driver. destruct (heap s !! j) as [oj|] eqn:Hj; [|by apply Hs]. destruct (task oj) eqn:Ht; [by apply Hs|].
    cbn. destruct (decide (i = j)) as [->|Hne]; [rewrite lookup_insert_eq; by intros [= <-]|].
    rewrite lookup_insert_ne by done. apply Hs. }
  apply Hk. intros o'. unfold _spawn_driver. destruct (heap s !! i) as [oi|] eqn:Hi; [|by rewrite Hi].
  destruct (task oi) eqn:Ht; [rewrite Hi; intros [= <-]; by rewrite Ht|]. cbn. rewrite lookup_insert_eq. by intros [= <-].
Qed.

Lemma start_wakeful s : wakeful s -> wakeful (start s).
Proof.
  intros [W1 W2 W3].
  set (s1 := foldl (fun s kv => _spawn_driver kv.2 s) (set_started true s) (_scheduled s)).
  assert (tends (set_started true s) s1) as [T1 T2 T3 T4] by (apply tends_fold; intros; apply tends_spawn_driver).
  assert (wakeful s1) as Hw.
  { split.
    - intros i o' Ho'. destruct (T1 i o' Ho') as (o & Ho & []). by eapply c_alert0, W1.
    - intros id i o _ Hs Ho _. apply T3, Dict.get_Some_elem in Hs. by eapply spawned_drivers.
    - intros id i Hs. by eapply T2, W3, T3. }
  unfold start. change (scheduler_start s) with s1. destruct (_pending_waker_task s1); [done|].
  eapply tends_wakeful; [apply tends_tasks|done].
Qed.

Lemma stop_wakeful s : wakeful s -> wakeful (stop is_rejected s).
Proof.
  apply tends_wakeful. unfold stop, scheduler_stop. etrans; [|apply tends_fold; intros; apply tends_stop].
  split; try done. intros i o Ho. by exists o.
Qed.

(** ** Births and departures *)

Lemma unspawned_wakeful s s' : good s -> wakeful s -> unspawned s s' -> wakeful s'.
Proof.
  intros Hg [W1 W2 W3] [].
  assert (forall i, is_Some (heap s !! i) -> (i < next_object s)%nat) as Hold by (intros i [o Hi]; by eapply (g_bound _ Hg)).
  split.
  - intros i o Hi. destruct (decide (i < next_object s)%nat) as [Hlt|Hge].
    + rewrite same_objects0 in Hi by done. by eapply W1.
    + destruct (idle_objects0 i o ltac:(lia) Hi) as (_ & Hm & _). by apply no_mail_alert.
  - intros id i o. rewrite same_started0, same_scheduled0. intros H1 H2 H3. pose proof (Hold _ (W3 id i H2)).
    rewrite same_objects0 in H3 by done. by eapply W2.
  - intros id i. rewrite same_scheduled0. intros H2. pose proof (Hold _ (W3 id i H2)). rewrite same_objects0 by done.
    by eapply W3.
Qed.

Lemma spawned_wakeful p b parent_path s :
  good s -> newcomer (built_id b) s -> wakeful s -> wakeful (fst (spawned p b parent_path s)).
Proof.
  intros Hg Hn Hw. pose proof (spawned_spec p b parent_path s (g_bound _ Hg) Hn (g_total _ Hg)) as H.
  destruct (spawned p b parent_path s) as [s' [h|x]]; cbn.
  - destruct H as (path & _ & _ & H). by eapply joins_wakeful; [..|eapply born_joins; [apply Hg|exact H]].
  - by eapply unspawned_wakeful.
Qed.

Lemma spawn_after_wakeful k p b parent_path x :
  good (fst x) -> fresh_birth b x -> wakeful (fst x) -> wakeful (put_spawn k (spawn_after p b parent_path x)).
Proof.
  destruct x as [s a]. cbn [fst]. intros Hg Hf Hw. destruct a as [| |n c i rec]; unfold spawn_after.
  - pose proof (spawned_wakeful p b parent_path s Hg Hf Hw) as H. destruct (spawned _ _ _ _) as [s' o].
    eapply tends_wakeful; [|exact H]. by apply tends_same.
  - eapply tends_wakeful; [|exact Hw]. by apply tends_same.
  - eapply tends_wakeful; [|exact Hw]. by apply tends_same.
Qed.

Lemma tends_release id s : tends s (release_child id s).
Proof.
  split; try done.
  - intros i o Ho. by exists o.
  - intros id' i. cbn. destruct (decide (id' = id)) as [->|Hne]; [by rewrite Dict.get_pop_eq|by rewrite Dict.get_pop_ne].
Qed.

(** ** Every step *)

(** No role cancels itself, and an agent that is added does not hide a trigger. *)
Definition steady (o : op (Outcome := Outcome)) : Prop :=
  match o with
  | TurnEnds _ _ how => how <> Cancelled
  | Add r _ _ _ => alert r
  | _ => True
  end.

Lemma eviction_ends_wakeful e w ok s :
  good s -> orderly (EvictionEnds e w ok) s -> wakeful s -> wakeful (run_op (EvictionEnds e w ok) s).
Proof.
  intros Hg Ho Hw. cbn [AgentDelivery.run_op AgentDelivery.orderly] in *.
  destruct (eviction_of w s) as [ev|]; [|done]. destruct (purpose ev) as [id todo|] eqn:Hp; [|done].
  destruct (Ho ev id todo eq_refl Hp) as [Hu Hn]. destruct (ok && _); [done|].
  pose proof (after_eviction_good is_rejected dump_message _residency_capacity ev ok s Hg Hu) as H.
  pose proof (after_eviction_tends ev ok s) as Ht.
  destruct (after_eviction _ _ _ ev ok s) as [s1 a]. destruct H as (H1 & Ha & Hr). cbn [fst] in Ht.
  eapply tends_wakeful; [apply flushes_tends|].
  apply resume_flush_wakeful; [apply H1| |done|by eapply tends_wakeful]. unfold get_runtime in *. cbn. rewrite Hr.
  destruct ok; [|done]. destruct (decide (id = candidate ev)) as [->|Hne]; [apply Dict.get_pop_eq|by rewrite Dict.get_pop_ne].
Qed.

Lemma spawn_wakeful k p b g s :
  good s -> fresh_birth b (reserve (parent_id p) s) -> wakeful s -> wakeful (run_op (Spawn k p b g) s).
Proof.
  intros Hg Hf Hw. cbn [AgentDelivery.run_op]. unfold spawn_agent. destruct (negb _).
  { eapply tends_wakeful; [|exact Hw]. by apply tends_same. }
  pose proof (reserve_quiet dump_message _residency_capacity (parent_id p) s) as Hq.
  pose proof (reserve_tends (parent_id p) s) as Ht. destruct (reserve (parent_id p) s) as [s1 a].
  apply spawn_after_wakeful; [by eapply quiet_good; [apply Hq|]|done|by eapply tends_wakeful].
Qed.

Lemma resumed_wakeful k p b path ok s :
  good s -> orderly (SpawnResumes k p b path ok) s -> wakeful s -> wakeful (run_op (SpawnResumes k p b path ok) s).
Proof.
  intros Hg Ho Hw. cbn [AgentDelivery.run_op AgentDelivery.orderly] in *. destruct (_spawning s !! k) as [ev|]; [|done].
  destruct (Ho ev eq_refl) as [Hu Hf]. destruct (ok && _); [done|].
  pose proof (after_eviction_good is_rejected dump_message _residency_capacity ev ok s Hg Hu) as H.
  pose proof (after_eviction_tends ev ok s) as Ht. destruct (after_eviction _ _ _ ev ok s) as [s1 a].
  destruct H as (H1 & _). apply spawn_after_wakeful; [apply H1|done|by eapply tends_wakeful].
Qed.

Lemma step_wakeful o s : good s -> orderly o s -> steady o -> wakeful s -> wakeful (run_op o s).
Proof.
  intros Hg Ho Hs Hw. destruct o.
  - by apply send_wakeful.
  - by apply send_comm_wakeful.
  - by eapply tends_wakeful; [apply driver_wakes_tends|].
  - cbn. eapply tends_wakeful; [|exact Hw]. unfold observe. destruct (heap s !! i) as [o|]; [|reflexivity].
    destruct (MessageQueue.pop_all _ _) as [q ms]. by apply tends_update.
  - cbn. eapply tends_wakeful; [|exact Hw]. by apply tends_update.
  - by apply turn_ends_wakeful.
  - by apply waker_wakes_wakeful.
  - cbn. eapply tends_wakeful; [|exact Hw]. unfold eviction_written. destruct (eviction_of w s) as [ev|]; [|reflexivity].
    etrans; [by apply (tends_same s (store_write (candidate ev) (snapshot ev) s))|].
    destruct w as [j| |k]; cbn [set_eviction]; [by apply tends_set_task|apply tends_tasks..].
  - by apply eviction_ends_wakeful.
  - by apply spawn_wakeful.
  - by apply resumed_wakeful.
  - eapply joins_wakeful; [done|done|exact Hs|]. by apply add_joins.
  - by eapply tends_wakeful; [apply tends_release|].
  - by apply interrupt_wakeful.
  - by apply watch_wakeful.
  - by apply start_wakeful.
  - by apply stop_wakeful.
Qed.

Lemma init_wakeful max_agents : wakeful (AgentControl.init max_agents).
Proof. by split. Qed.

Notation run := (run is_rejected dump_message load_message _residency_capacity _max_depth _spawn_policy).
Notation orderly_run := (orderly_run is_rejected dump_message load_message _residency_capacity _max_depth _spawn_policy).

Lemma run_wakeful l s :
  good s -> orderly_run l s -> Forall steady l -> wakeful s -> wakeful (fst (fst (run l s))).
Proof.
  revert s. induction l as [|o l IH]; intros s Hg Hl Hs Hw; [done|]. cbn [AgentDelivery.run].
  destruct Hl as [Ho Hl]. apply Forall_cons in Hs as [Hso Hs].
  destruct (step_accounts is_rejected dump_message load_message _residency_capacity _max_depth _spawn_policy o s Hg Ho) as [H1 _].
  specialize (IH _ H1 Hl Hs (step_wakeful o s Hg Ho Hso Hw)). by destruct (run l (run_op o s)) as [[s' acc] tak].
Qed.

Lemma staged_buffer (r : runtime) :
  snd <$> MessageQueue._items (msg_buffer (begin_turn (_stage_mailbox (clear_wake r)))) = mail r.
Proof. rewrite <- (staged_mail r). unfold mail. cbn. by rewrite app_nil_r. Qed.

(** C32: Mail that must start a turn gets one. Take any orderly run (see
    [AgentDelivery.orderly]) that is also steady: no role ends its turn with a cancellation
    of its own making, and no runtime is added that holds a triggering message without its
    wake flag (see [steady]; without it a woken agent may be left without a task, see
    [driver_gone] in [AgentExamples.v]). Then a runtime that is scheduled, while the scheduler
    is started and the runtime not stopped, and that has a triggering message in its mailbox,
    has its wake flag set and a task; when that task waits for the flag, its next step starts
    a turn, with everything in the mailbox put into the role's buffer. So no wake-up is lost,
    whatever the order of sends, turns, interrupts, evictions, births and restarts. *)
Theorem mail_gets_a_turn max_agents l id i o :
  orderly_run l (AgentControl.init max_agents) -> Forall steady l ->
  let s := fst (fst (run l (AgentControl.init max_agents))) in
  _started s = true -> Dict.get id (_scheduled s) = Some i -> heap s !! i = Some o ->
  _stopped (rt o) = false -> triggered (rt o) = true ->
  wake_event (rt o) = true
  /\ exists d, task o = Some d
     /\ (d = Parked -> exists r, heap (driver_wakes i s) !! i = Some (mkObject r (Some InTurn))
          /\ active_turn r = true /\ status r = RUNNING /\ Mailbox.empty (mailbox r) = true
          /\ snd <$> MessageQueue._items (msg_buffer r) = mail (rt o)).
Proof.
  intros Hl Hs s Hst Hi Ho Hn Ht.
  assert (wakeful s) as [W1 W2 W3] by (apply run_wakeful; [apply init_good|done|done|apply init_wakeful]).
  assert (wake_event (rt o) = true) as Hw by (by apply (W1 i o)). split; [done|].
  destruct (task o) as [d|] eqn:Hd; [|by destruct (W2 id i o Hst Hi Ho Hn)]. exists d. split; [done|]. intros ->.
  exists (begin_turn (_stage_mailbox (clear_wake (rt o)))). split_and!; try done; [|apply staged_buffer].
  unfold driver_wakes. destruct o as [r d]. cbn in *. subst d. rewrite Ho, Hw, Hn. cbn. apply lookup_insert_eq.
Qed.

End System.
End AgentWake.
