(* ===== verification/AgentExamples.v ===== *)
(** * Mail between agents, on concrete runs

    A run with a birth, two evictions and a loading, on which the theorems of [AgentDelivery.v]
    and [AgentWake.v] are applied; and runs with each of the races they exclude. *)

From S2P Require Import Prelude Messaging AgentPath AgentRegistry Residency AgentRuntime SpawnAdmission AgentControl AgentSpawn AgentDelivery AgentWake.

Local Open Scope Z_scope.

Module DeliveryExample.
Import AgentRuntime AgentControl AgentSpawn AgentDelivery.

Definition plan : SpawnPlan := mkPlan None None true true None true "coder" false.
Definition child : builder := mkBuilder (fun _ => None) "c" None None "0a1b2c3d".
Definition unlimited : budget := mkBudget (Fin 0) None 0 None.
Definition disk : env := mkEnv (fun _ => true) (fun _ => true).
Definition msg (text : string) : Message := mkMessage text "user" [].
Definition bare (id : string) : AgentRuntime.t unit := AgentRuntime.init id None Mailbox.init MessageQueue.init.

(** Room for [c] residents and [n] turns. *)
Definition start_with (n : Z) : AgentControl.t unit Message := AgentControl.init (Some n).
Definition after (c n : Z) (l : list (op (Outcome := unit))) :=
  run (Outcome := unit) (Blob := Message) (fun _ => false) (fun m => m) Some (Some c) None [] l (start_with n).
Definition state (c n : Z) (l : list (op (Outcome := unit))) := fst (fst (after c n l)).

(** What was accepted for an agent, what its role took, and what is held for it. *)
Definition books (id : string) (x : AgentControl.t unit Message * list (string * Message) * list (string * Message)) :=
  let '(s, acc, tak) := x in (m_content <$> to id acc, m_content <$> to id tak, m_content <$> held id s).

(** [a] runs and is evicted for the child [c]; mail for [a] is parked, and [b] makes room when
    its turn is over. *)
Definition idle_a : list (op (Outcome := unit)) :=
  [Add (bare "a") None false None; Add (bare "b") None false None; Start;
   Send disk "a" (msg "one") TRIGGER_TURN; DriverWakes 0; Observes 0 MessageQueue.NEXT; TurnEnds disk 0 (Returns tt)].
Definition birth_of_c : list (op (Outcome := unit)) :=
  [Spawn 0 plan child unlimited; EvictionWritten (BySpawn 0); SpawnResumes 0 plan child "/root" true].
Definition story : list (op (Outcome := unit)) :=
  idle_a ++ birth_of_c ++
  [Send disk "a" (msg "two") TRIGGER_TURN; WakerWakes disk;
   Send disk "b" (msg "three") TRIGGER_TURN; DriverWakes 1; Observes 1 MessageQueue.NEXT; TurnEnds disk 1 (Returns tt);
   EvictionWritten (ByDriver 1); EvictionEnds disk (ByDriver 1) true].

Lemma story_orderly :
  orderly_run (fun _ => false) (fun m : Message => m) Some (Some 2) None [] story (start_with 4).
Proof.
  repeat lazymatch goal with
  | |- True => exact I
  | |- orderly_run _ _ _ _ _ _ ?l ?s =>
      let l := eval cbv [story idle_a birth_of_c app] in l in
      let s := eval vm_compute in s in
      change_no_check (orderly_run (fun _ => false) (fun m : Message => m) Some (Some 2) None [] l s); cbn [orderly_run]
  | |- orderly _ _ _ _ _ /\ _ => split
  | |- orderly _ _ _ (Add _ _ _ _) _ => vm_compute; reflexivity
  | |- orderly _ _ _ (Send _ _ _ _) _ => vm_compute; reflexivity
  | |- orderly _ _ _ (Spawn _ _ _ _) _ => vm_compute; exact I
  | |- orderly _ _ _ (SpawnResumes _ _ _ _ _) _ => shelve
  | |- orderly _ _ _ (EvictionEnds _ _ _) _ => shelve
  | |- orderly _ _ _ _ _ => exact I
  end.
  Unshelve.
  - intros ev Hev. vm_compute in Hev. injection Hev as <-. split; [split; vm_compute; reflexivity|].
    unfold fresh_birth. match goal with |- match ?x with _ => _ end => let x := eval vm_compute in x in
      change_no_check (match x with (s, Got) => newcomer "c" s | _ => True end); cbv beta iota end.
    split; try (apply (bool_decide_unpack _); vm_compute; exact I); [by intros k n|by intros ch m ?%not_elem_of_nil].
  - intros ev id todo Hev Hp. vm_compute in Hev. injection Hev as <-. injection Hp as <- <-. 
    split; [split; vm_compute; reflexivity|vm_compute; reflexivity].
Qed.

Lemma delivery_conserved_witness :
  books "a" (after 2 4 story) = (["one"; "two"], ["one"], ["two"])%string
  /\ let '(s, acc, tak) := after 2 4 story in forall id, to id acc ≡ₚ to id tak ++ held id s.
Proof.
  split; [vm_compute; reflexivity|].
  exact (delivery_conserved (fun _ => false) (fun m => m) Some (Some 2) None [] (Some 4) story story_orderly).
Defined.

Lemma mail_gets_a_turn_witness :
  exists o, heap (state 2 4 story) !! 3%nat = Some o /\ wake_event (rt o) = true
    /\ exists r, heap (driver_wakes 3 (state 2 4 story)) !! 3%nat = Some (mkObject r (Some InTurn))
         /\ m_content <$> (snd <$> MessageQueue._items (msg_buffer r)) = ["two"%string].
Proof.
  unfold state, after, start_with.
  destruct (heap (fst (fst (run _ _ _ _ _ _ story _))) !! 3%nat) as [o|] eqn:Ho; [|vm_compute in Ho; discriminate].
  exists o. split; [reflexivity|].
  assert (mail (rt o) = [msg "two"] /\ task o = Some Parked /\ _stopped (rt o) = false /\ AgentWake.triggered (rt o) = true)
    as (Hm & Ht & Hn & Hg) by (vm_compute in Ho; injection Ho as <-; split_and!; reflexivity).
  assert (Forall AgentWake.steady story) as Hs by (repeat (constructor; [done || discriminate|]); constructor).
  destruct (AgentWake.mail_gets_a_turn (fun _ => false) (fun m => m) Some (Some 2) None [] (Some 4) story "a" 3 o
              story_orderly Hs ltac:(vm_compute; reflexivity) ltac:(vm_compute; reflexivity) Ho Hn Hg) as (Hw & d & Hd & Hp).
  split; [exact Hw|]. rewrite Ht in Hd. injection Hd as <-. destruct (Hp eq_refl) as (r & Hr & _ & _ & _ & Hb).
  exists r. split; [exact Hr|]. rewrite Hb, Hm. reflexivity.
Defined.

(** ** The races the theorems exclude *)

(** Mail that reaches an idle agent while its record is being written is lost with it. *)
Lemma lost_in_eviction :
  books "a" (after 2 4 (idle_a ++
    [Spawn 0 plan child unlimited; Send disk "a" (msg "two") TRIGGER_TURN;
     EvictionWritten (BySpawn 0); SpawnResumes 0 plan child "/root" true]))
  = (["one"; "two"], ["one"], [])%string.
Proof. vm_compute. reflexivity. Qed.

(** One turn of the runtime [i] of [id]. *)
Definition turn (id : string) (i : nat) : list (op (Outcome := unit)) :=
  [Send disk id (msg "one") TRIGGER_TURN; DriverWakes i; Observes i MessageQueue.NEXT; TurnEnds disk i (Returns tt)].

(** A candidate on its way to the disk takes no room among the residents, so that another pass
    loads the agent at once; the pass that waited, once it has evicted two others, does not find its record, takes it for
    unknown, and drops what is parked for it. *)
Lemma loaded_twice :
  books "a" (after 3 1 (
    [Add (bare "a") None false None; Add (bare "b") None false None; Add (bare "x") None false None; Start]
    ++ turn "a" 0 ++ turn "b" 1 ++ birth_of_c ++
    [Send disk "a" (msg "two") TRIGGER_TURN; WakerWakes disk] ++ turn "x" 2 ++
    [Send disk "c" (msg "one") TRIGGER_TURN; DriverWakes 3; Send disk "a" (msg "three") TRIGGER_TURN;
     EvictionWritten ByWaker; EvictionEnds disk ByWaker true; EvictionWritten ByWaker; EvictionEnds disk ByWaker true]))
  = (["one"; "two"; "three"], ["one"], ["two"])%string.
Proof. vm_compute. reflexivity. Qed.

(** A child that is evicted before its watcher looks is never reported. *)
Lemma notice_swallowed :
  let s := state 2 4 (idle_a ++ birth_of_c) in
  status <$> (rt <$> heap s !! 0%nat) = Some COMPLETED
  /\ watch (fun _ => false) Some (Some 2) disk (Completion "a" "b" None None "a") s = (s, None).
Proof. vm_compute. split; reflexivity. Qed.

(** While only agents that have never run are resident, nothing can be evicted: the parked
    message stays, no wake-up is pending, and the plane is never quiescent. *)
Lemma parked_forever :
  let s := state 2 4 (idle_a ++ birth_of_c ++ [Send disk "a" (msg "two") TRIGGER_TURN; WakerWakes disk]) in
  m_content <$> parked "a" s = ["two"%string]
  /\ PendingDeliveryQueue._waker (_pending s) = false
  /\ scheduler_quiescent s = true /\ quiescent s = false.
Proof. vm_compute. split_and!; reflexivity. Qed.

(** The limit on turns is looked at when mail is sent, not when a turn starts. *)
Lemma limit_exceeded :
  AgentExecutionLimiter._active (_limiter (state 2 1
    [Add (bare "a") None false None; Add (bare "b") None false None; Start;
     Send disk "a" (msg "one") TRIGGER_TURN; Send disk "b" (msg "one") TRIGGER_TURN; DriverWakes 0; DriverWakes 1])) = 2.
Proof. vm_compute. reflexivity. Qed.

(** A parked message is overtaken by a later one that needs no turn. *)
Lemma overtaken :
  books "a" (after 2 1
    [Add (bare "a") None false None; Add (bare "b") None false None; Start;
     Send disk "b" (msg "one") TRIGGER_TURN; DriverWakes 1;
     Send disk "a" (msg "first") TRIGGER_TURN; Send disk "a" (msg "second") QUEUE_ONLY;
     TurnEnds disk 1 (Returns tt); DriverWakes 0; Observes 0 MessageQueue.NEXT])
  = (["first"; "second"], ["second"; "first"], [])%string.
Proof. vm_compute. reflexivity. Qed.

(** A role that ends its own run with a cancellation takes its driver with it. *)
Lemma driver_gone :
  let s := state 2 4
    [Add (bare "a") None false None; Start; Send disk "a" (msg "one") TRIGGER_TURN; DriverWakes 0;
     TurnEnds disk 0 Cancelled; Send disk "a" (msg "two") TRIGGER_TURN] in
  match heap s !! 0%nat with
  | Some o => task o = None /\ wake_event (rt o) = true /\ _stopped (rt o) = false /\ _started s = true
  | None => False
  end.
Proof. vm_compute. split_and!; reflexivity. Qed.

(** A plane that was stopped is never quiescent, as the flags that stop the drivers stay set. *)
Lemma stopped_not_quiescent : quiescent (state 2 4 [Add (bare "a") None false None; Start; Stop]) = false.
Proof. vm_compute. reflexivity. Qed.

End DeliveryExample.
