(* ===== verification/EventJournal.v ===== *)
(** * The journal of committed facts

    Envelopes ([contracts/events/envelope.py]) and the local journal of one stream
    ([runtime/events/journal.py]): its file, a text of bytes read as Latin-1, the appends with
    their expected version, the scan that verifies a file, and reads. The text of one record,
    which is made by [json] and [hashlib], is an interface with its laws. *)

From S2P Require Import Prelude Text Json Ledger.
From Stdlib Require Import Ascii String.
From stdpp Require Import base list strings.

Open Scope string_scope.
Open Scope list_scope.
Open Scope Z_scope.

Module EventJournal.

Definition _MAX_RECORD_BYTES : Z := 64 * 1024 * 1024.
Definition _MAX_BATCH_BYTES : Z := 256 * 1024 * 1024.

(** ** Envelopes *)

Record UncommittedFact {Rest : Type} := mkFact {
  fact_id : string;
  fact_type : string;
  fact_version : Z;
  fact_rest : Rest
}.
Arguments UncommittedFact : clear implicits.

(** [Rest]: the payload, the time of the event, the correlation ids and the metadata, which the
    journal only copies. *)
Record EventEnvelope {Rest : Type} := mkEnvelope {
  event_id : string;
  event_type : string;
  schema_version : Z;
  stream_id : string;
  sequence : Z;
  recorded_at : Z;
  rest : Rest
}.
Arguments EventEnvelope : clear implicits.

Fixpoint utf8_length (s : string) : Z :=
  match s with
  | EmptyString => 0
  | String c s => (if Text.code c <? 128 then 1 else 2) + utf8_length s
  end.

Definition _validate_text (s : string) (max_bytes : Z) : bool :=
  negb (bool_decide (s = "")) && (utf8_length s <=? max_bytes)
  && Text.forall_chars (fun c => negb (Text.code c <? 32)) s.

Definition _validate_stream_id (s : string) : bool := _validate_text s 512.

Definition lower_char (c : ascii) : bool := (97 <=? Text.code c) && (Text.code c <=? 122).
Definition word_char (c : ascii) : bool := lower_char c || Text.is_decimal c.
Definition separator (c : ascii) : bool := bool_decide (c ∈ ["."%char; "_"%char; "-"%char]).

(** [^[a-z][a-z0-9]*(?:[._-][a-z0-9]+)+$]: [words] counts the separators read, and [fresh] says
    that a word must begin. *)
Fixpoint type_pattern (words : nat) (fresh : bool) (s : string) : bool :=
  match s with
  | EmptyString => negb fresh && (0 <? words)%nat
  | String c s =>
      if word_char c then type_pattern words false s
      else if separator c && negb fresh then type_pattern (S words) true s
      else false
  end.

Definition _EVENT_TYPE_PATTERN (s : string) : bool :=
  match s with String c s => lower_char c && type_pattern 0 false s | EmptyString => false end.

Definition _is_checksum (s : string) : bool :=
  (String.length s =? 64)%nat
  && Text.forall_chars (fun c => Text.is_decimal c || ((97 <=? Text.code c) && (Text.code c <=? 102))) s.

(** ** The text of a record *)

Class RecordCodec (Rest : Type) := {
  (** The rest of an envelope is accepted: payload and metadata are JSON, times have a zone. *)
  rest_ok : Rest -> bool;
  (** [_canonical_json] of the envelope, and of the whole record. *)
  body_text : EventEnvelope Rest -> string;
  record_text : option string -> string -> EventEnvelope Rest -> string;
  (** [json.loads] and the shapes [_decode_record] requires. *)
  parse_record : string -> option (option string * string * EventEnvelope Rest);
  (** [hashlib.sha256(...).hexdigest()] *)
  sha256 : string -> string
}.

Section Codec.
Context {Rest : Type} `{codec : RecordCodec Rest}.

(** [EventEnvelope.__post_init__] *)
Definition valid_envelope (e : EventEnvelope Rest) : bool :=
  _validate_text (event_id e) 256 && _validate_text (event_type e) 256 && _EVENT_TYPE_PATTERN (event_type e)
  && _validate_text (stream_id e) 512 && (1 <=? schema_version e) && (1 <=? sequence e) && rest_ok (rest e).

Definition _record_checksum (e : EventEnvelope Rest) (previous : option string) : string :=
  sha256 (default "" previous +:+ String "000" (body_text e)).

Definition newline : string := String "010" "".

Definition encode_event_record (e : EventEnvelope Rest) (previous : option string) : string * string :=
  let checksum := _record_checksum e previous in (record_text previous checksum e +:+ newline, checksum).

Definition _decode_record (raw : string) : option (EventEnvelope Rest * option string * string) :=
  '(previous, checksum, e) ← parse_record raw;
  if match previous with Some p => _is_checksum p | None => true end && _is_checksum checksum && valid_envelope e
  then Some (e, previous, checksum) else None.

Definition decode_event_record (raw : string) : option (EventEnvelope Rest) :=
  '(e, previous, checksum) ← _decode_record raw;
  if bool_decide (_record_checksum e previous = checksum) then Some e else None.

End Codec.

Class RecordCodecLaws (Rest : Type) `{codec : RecordCodec Rest} := {
  parse_text p c e : parse_record (record_text p c e +:+ newline) = Some (p, c, e);
  text_one_line p c e : Text.contains "010" (record_text p c e) = false;
  sha256_form x : _is_checksum (sha256 x) = true
}.

(** ** The journal *)
Section Journal.
Context {Rest : Type} `{codec : RecordCodec Rest}.
Context (_stream_id : string).

Notation fact := (UncommittedFact Rest).
Notation envelope := (EventEnvelope Rest).

Record StreamState := mkState { version : Z; last_checksum : option string; byte_size : Z }.

Inductive IssueCode := record_too_large | torn_record | invalid_record.

Record VerificationReport := mkReport {
  valid : bool;
  record_count : Z;
  current_version : Z;
  report_checksum : option string;
  issues : list (Z * IssueCode)
}.

Inductive exn :=
| ValueError
| StreamVersionConflict (expected actual : Z)
| JournalIntegrityError
| OSError.

Record AppendResult := mkResult { previous_version : Z; new_version : Z; envelopes : list envelope }.

Record t := mk { file : option string; _states : option StreamState }.

Definition size (s : string) : Z := Z.of_nat (String.length s).

(** The complete lines of a text, with their newlines, and what follows the last of them. *)
Fixpoint read_lines (s : string) : list string * string :=
  match s with
  | EmptyString => ([], "")
  | String c s =>
      let (ls, tail) := read_lines s in
      if bool_decide (c = "010"%char) then (String c "" :: ls, tail)
      else match ls with
           | l :: ls => (String c l :: ls, tail)
           | [] => ([], String c tail)
           end
  end.

(** What the scan of a line requires of its record. *)
Definition accepts (sq : Z) (previous : option string) (seen : list string) (raw : string)
    : option (envelope * string) :=
  '(e, linked, checksum) ← _decode_record raw;
  if bool_decide (stream_id e = _stream_id) && (sequence e =? sq + 1) && bool_decide (linked = previous)
     && bool_decide (_record_checksum e linked = checksum) && negb (bool_decide (event_id e ∈ seen))
  then Some (e, checksum) else None.

(** The loop of [_scan]. *)
Fixpoint scan_lines (ls : list string) (tail : string) (line : Z) (sq : Z) (previous : option string)
    (seen : list string) : Z * option string * list (Z * IssueCode) :=
  match ls with
  | [] =>
      if bool_decide (tail = "") then (sq, previous, [])
      else (sq, previous, [(line + 1, if _MAX_RECORD_BYTES <? size tail then record_too_large else torn_record)])
  | raw :: ls =>
      if _MAX_RECORD_BYTES <? size raw then (sq, previous, [(line + 1, record_too_large)])
      else match accepts sq previous seen raw with
           | Some (e, checksum) => scan_lines ls tail (line + 1) (sequence e) (Some checksum) (event_id e :: seen)
           | None => (sq, previous, [(line + 1, invalid_record)])
           end
  end.

Definition _scan (f : option string) : StreamState * VerificationReport :=
  let text := AppendOnlyLedger.text f in
  let (ls, tail) := read_lines text in
  let '(sq, previous, issues) := scan_lines ls tail 0 0 None [] in
  (mkState sq previous (size text),
   mkReport (match issues with [] => true | _ => false end) sq sq previous issues).

Definition _load_state (s : t) : t * outcome exn StreamState :=
  match _states s with
  | Some state => (s, Ok state)
  | None =>
      let (state, report) := _scan (file s) in
      if valid report then (mk (file s) (Some state), Ok state) else (s, Raise JournalIntegrityError)
  end.

Definition commit (now : Z) (sq : Z) (f : fact) : envelope :=
  mkEnvelope _ (fact_id f) (fact_type f) (fact_version f) _stream_id sq now (fact_rest f).

(** The loop over the facts: the lines, the envelopes and the last checksum. *)
Fixpoint build (now : Z) (sq : Z) (previous : option string) (facts : list fact)
    : option (list string * list envelope * option string) :=
  match facts with
  | [] => Some ([], [], previous)
  | f :: facts =>
      let e := commit now (sq + 1) f in
      if negb (valid_envelope e) then None
      else let (line, checksum) := encode_event_record e previous in
           if _MAX_RECORD_BYTES <? size line then None
           else '(lines, es, last) ← build now (sq + 1) (Some checksum) facts; Some (line :: lines, e :: es, last)
  end.

Definition _append_sync (facts : list fact) (expected : Z) (now : Z) (w : AppendOnlyLedger.write) (s : t)
    : t * outcome exn AppendResult :=
  let (s, o) := _load_state s in
  match o with
  | Raise x => (s, Raise x)
  | Ok state =>
      if negb (version state =? expected) then (s, Raise (StreamVersionConflict expected (version state)))
      else if negb (size (AppendOnlyLedger.text (file s)) =? byte_size state) then (s, Raise JournalIntegrityError)
      else match build now (version state) (last_checksum state) facts with
      | None => (s, Raise ValueError)
      | Some (lines, es, last) =>
          let data := Text.concat lines in
          if _MAX_BATCH_BYTES <? size data then (s, Raise ValueError)
          else
            let f := AppendOnlyLedger.written (file s) data w in
            match w with
            | AppendOnlyLedger.Fails _ => (mk f (_states s), Raise OSError)
            | AppendOnlyLedger.Done =>
                let v := version state + Z.of_nat (length es) in
                (mk f (Some (mkState v last (byte_size state + size data))), Ok (mkResult (version state) v es))
            end
      end
  end.

Definition append_committed (stream : string) (facts : list fact) (expected : Z) (now : Z)
    (w : AppendOnlyLedger.write) (s : t) : t * outcome exn AppendResult :=
  if negb (_validate_stream_id stream) || (expected <? 0) || bool_decide (facts = [])
     || negb (bool_decide (NoDup (fact_id <$> facts))) || negb (bool_decide (stream = _stream_id))
  then (s, Raise ValueError)
  else _append_sync facts expected now w s.

Definition verify_file (s : t) : t * VerificationReport :=
  let (state, report) := _scan (file s) in
  (mk (file s) (if valid report then Some state else None), report).

Definition _verified_snapshot_size (s : t) : t * outcome exn Z :=
  let (state, report) := _scan (file s) in
  if valid report then (mk (file s) (Some state), Ok (byte_size state)) else (s, Raise JournalIntegrityError).

(** [_iter_envelopes] on a file that did not change since it was verified. *)
Fixpoint _iter_envelopes (ls : list string) : outcome exn (list envelope) :=
  match ls with
  | [] => Ok []
  | raw :: ls =>
      match _decode_record raw with
      | None => Raise JournalIntegrityError
      | Some (e, _, _) => match _iter_envelopes ls with Ok es => Ok (e :: es) | Raise x => Raise x end
      end
  end.

Definition read_file (after : Z) (s : t) : t * outcome exn (list envelope) :=
  let (s, o) := _verified_snapshot_size s in
  match o with
  | Raise x => (s, Raise x)
  | Ok _ =>
      let (ls, tail) := read_lines (AppendOnlyLedger.text (file s)) in
      match _iter_envelopes ls with
      | Ok es => (s, Ok (filter (fun e => after < sequence e) es))
      | Raise x => (s, Raise x)
      end
  end.

(** [path_for]: the journal is bound to its stream. *)
Definition path_for (stream : string) : bool := _validate_stream_id stream && bool_decide (stream = _stream_id).

Definition read (stream : string) (after : Z) (s : t) : t * outcome exn (list envelope) :=
  if negb (path_for stream) || (after <? 0) then (s, Raise ValueError) else read_file after s.

Definition verify_committed (stream : string) (s : t) : t * outcome exn VerificationReport :=
  if negb (path_for stream) then (s, Raise ValueError)
  else let (s, r) := verify_file s in (s, Ok r).

(** The process ends and another one opens the file. *)
Definition restart (s : t) : t := mk (file s) None.

(** ** What the file of a journal holds *)

Fixpoint lines_of (previous : option string) (es : list envelope) : list string :=
  match es with
  | [] => []
  | e :: es => fst (encode_event_record e previous) :: lines_of (Some (snd (encode_event_record e previous))) es
  end.

Fixpoint chain (previous : option string) (es : list envelope) : option string :=
  match es with
  | [] => previous
  | e :: es => chain (Some (snd (encode_event_record e previous))) es
  end.

(** The envelopes that may follow number [sq] and those whose ids were [seen]. *)
Fixpoint follows (sq : Z) (previous : option string) (seen : list string) (es : list envelope) : Prop :=
  match es with
  | [] => True
  | e :: es =>
      valid_envelope e = true /\ stream_id e = _stream_id /\ sequence e = sq + 1 /\ event_id e ∉ seen
      /\ size (fst (encode_event_record e previous)) <= _MAX_RECORD_BYTES
      /\ follows (sq + 1) (Some (snd (encode_event_record e previous))) (event_id e :: seen) es
  end.

Definition state_of (es : list envelope) : StreamState :=
  mkState (Z.of_nat (length es)) (chain None es) (size (Text.concat (lines_of None es))).

(** The journal holds exactly these envelopes. *)
Record holds (es : list envelope) (s : t) : Prop := {
  h_text : AppendOnlyLedger.text (file s) = Text.concat (lines_of None es);
  h_follows : follows 0 None [] es;
  h_state : _states s = None \/ _states s = Some (state_of es)
}.

Section Laws.
Context {laws : RecordCodecLaws Rest}.
#[local] Set Default Proof Using "Type*".

Lemma read_lines_line l r :
  Text.contains "010" l = false ->
  read_lines (l +:+ newline +:+ r) = ((l +:+ newline) :: fst (read_lines r), snd (read_lines r)).
Proof.
  induction l as [|c l IH]; cbn [Text.contains String.append].
  - intros _. change (EmptyString +:+ newline +:+ r) with (String "010" r). cbn [read_lines].
    destruct (read_lines r). by rewrite bool_decide_eq_true_2.
  - intros [Hc Hl]%orb_false_iff. change (String c l +:+ newline +:+ r) with (String c (l +:+ newline +:+ r)).
    cbn [read_lines]. rewrite (IH Hl). apply bool_decide_eq_false in Hc. by rewrite bool_decide_eq_false_2.
Qed.

Lemma read_lines_plain l : Text.contains "010" l = false -> read_lines l = ([], l).
Proof.
  induction l as [|c l IH]; [done|]. cbn [Text.contains]. intros [Hc Hl]%orb_false_iff. cbn [read_lines].
  rewrite (IH Hl). apply bool_decide_eq_false in Hc. by rewrite bool_decide_eq_false_2.
Qed.

Lemma read_lines_of previous es r :
  read_lines (Text.concat (lines_of previous es) +:+ r)
  = (lines_of previous es ++ fst (read_lines r), snd (read_lines r)).
Proof.
  revert previous. induction es as [|e es IH]; intros previous; cbn [lines_of Text.concat].
  { change (EmptyString +:+ r) with r. by destruct (read_lines r). }
  unfold encode_event_record. cbn [fst snd].
  rewrite <- !Text.append_assoc, (read_lines_line _ _ (text_one_line _ _ _)). by rewrite IH.
Qed.

Lemma checksum_form e p : _is_checksum (_record_checksum e p) = true.
Proof. apply sha256_form. Qed.

Definition linkable (p : option string) : Prop := match p with Some c => _is_checksum c = true | None => True end.

Lemma accepts_encoded e previous sq seen :
  linkable previous -> valid_envelope e = true -> stream_id e = _stream_id -> sequence e = sq + 1 -> event_id e ∉ seen ->
  accepts sq previous seen (fst (encode_event_record e previous)) = Some (e, snd (encode_event_record e previous)).
Proof.
  intros Hp Hv Hs Hq Hn. unfold accepts, _decode_record, encode_event_record. cbn [fst snd].
  rewrite parse_text. cbn [mbind option_bind]. rewrite checksum_form, Hv.
  assert (match previous with Some p => _is_checksum p | None => true end = true) as -> by by destruct previous.
  cbn [andb mbind option_bind]. rewrite !bool_decide_eq_true_2, bool_decide_eq_false_2 by done.
  by rewrite Hq, Z.eqb_refl.
Qed.

Lemma scan_follows es ls tail line sq previous seen :
  linkable previous -> follows sq previous seen es ->
  scan_lines (lines_of previous es ++ ls) tail line sq previous seen
  = scan_lines ls tail (line + Z.of_nat (length es)) (sq + Z.of_nat (length es)) (chain previous es)
      (rev (event_id <$> es) ++ seen).
Proof.
  revert line sq previous seen. induction es as [|e es IH]; intros line sq previous seen Hp Hf; cbn [lines_of app length chain].
  - by rewrite !Z.add_0_r.
  - destruct Hf as (Hv & Hs & Hq & Hn & Hm & Hf). cbn [scan_lines].
    rewrite (proj2 (Z.ltb_ge _ _) Hm), accepts_encoded by done. rewrite Hq, IH; [|apply checksum_form|done].
    f_equal; [lia|lia|]. rewrite fmap_cons. cbn [rev]. by rewrite <- app_assoc.
Qed.

Lemma scan_app es r :
  follows 0 None [] es ->
  let '(sq, previous, found) := scan_lines (fst (read_lines r)) (snd (read_lines r)) (Z.of_nat (length es))
      (Z.of_nat (length es)) (chain None es) (rev (event_id <$> es)) in
  forall f, AppendOnlyLedger.text f = Text.concat (lines_of None es) +:+ r ->
  _scan f = (mkState sq previous (size (AppendOnlyLedger.text f)),
             mkReport (match found with [] => true | _ => false end) sq sq previous found).
Proof.
  intros Hf. destruct (scan_lines _ _ _ _ _ _) as [[sq previous] found] eqn:E. intros f Ht. unfold _scan.
  rewrite Ht, read_lines_of, (scan_follows es) by done. rewrite app_nil_r, !Z.add_0_l, E. done.
Qed.

(** A file of committed records verifies, as exactly these records. *)
Lemma scan_holds es s :
  holds es s ->
  _scan (file s) = (state_of es, mkReport true (Z.of_nat (length es)) (Z.of_nat (length es)) (chain None es) []).
Proof.
  intros [Ht Hf _]. pose proof (scan_app es "" Hf) as H. cbn in H. rewrite (H (file s)).
  - by rewrite Ht.
  - by rewrite Text.append_nil_r.
Qed.

Lemma load_holds es s : holds es s -> exists s', _load_state s = (s', Ok (state_of es)) /\ holds es s' /\ file s' = file s.
Proof.
  intros Hh. pose proof (scan_holds es s Hh) as Hs. destruct Hh as [Ht Hf Hst]. unfold _load_state.
  destruct Hst as [Hst|Hst]; rewrite Hst.
  - rewrite Hs. cbn. eexists. split; [done|]. split; [|done]. by split; [..|right].
  - exists s. split; [done|]. split; [|done]. by split; [..|right].
Qed.

Lemma iter_follows sq previous seen es :
  linkable previous -> follows sq previous seen es -> _iter_envelopes (lines_of previous es) = Ok es.
Proof.
  revert sq previous seen. induction es as [|e es IH]; intros sq previous seen Hp Hf; [done|].
  destruct Hf as (Hv & Hs & Hq & Hn & Hm & Hf). cbn [lines_of _iter_envelopes].
  pose proof (accepts_encoded e previous sq seen Hp Hv Hs Hq Hn) as Ha. unfold accepts in Ha.
  destruct (_decode_record _) as [[[e' l] c]|]; [|done]. cbn in Ha. destruct (_ && _ && _ && _ && _); [|done].
  injection Ha as -> _. rewrite (IH (sq + 1) _ (event_id e :: seen)); [done|apply checksum_form|done].
Qed.

Lemma read_holds es s after :
  holds es s ->
  exists s', read_file after s = (s', Ok (filter (fun e => after < sequence e) es)) /\ holds es s'.
Proof.
  intros Hh. pose proof (scan_holds es s Hh) as Hs. destruct Hh as [Ht Hf Hst]. unfold read_file, _verified_snapshot_size.
  rewrite Hs. cbn [valid file]. rewrite Ht. pose proof (read_lines_of None es "") as Hl. rewrite Text.append_nil_r in Hl.
  rewrite Hl. cbn [fst snd read_lines]. rewrite app_nil_r, (iter_follows 0 None [] es) by done.
  eexists. split; [done|]. by split; [..|right].
Qed.

(** ** Appends *)

(** The envelopes of a batch. *)
Fixpoint stamps (now sq : Z) (facts : list fact) : list envelope :=
  match facts with
  | [] => []
  | f :: facts => commit now (sq + 1) f :: stamps now (sq + 1) facts
  end.

(** Every envelope is valid, and every record within its bound. *)
Fixpoint fit (previous : option string) (es : list envelope) : bool :=
  match es with
  | [] => true
  | e :: es =>
      valid_envelope e && (size (fst (encode_event_record e previous)) <=? _MAX_RECORD_BYTES)
      && fit (Some (snd (encode_event_record e previous))) es
  end.

Lemma build_spec now sq previous facts :
  build now sq previous facts =
    let es := stamps now sq facts in
    if fit previous es then Some (lines_of previous es, es, chain previous es) else None.
Proof.
  revert sq previous. induction facts as [|f facts IH]; intros sq previous; [done|]. cbn [build stamps lines_of fit chain].
  destruct (valid_envelope _); [|done]. cbn [negb andb]. unfold encode_event_record. cbn [fst snd].
  rewrite Z.leb_antisym. destruct (_ <? _); [done|]. cbn [negb andb]. rewrite IH. cbv zeta. by destruct (fit _ _).
Qed.

Lemma stamps_ids now sq facts : event_id <$> stamps now sq facts = fact_id <$> facts.
Proof. revert sq. induction facts as [|f facts IH]; intros sq; [done|]. cbn [stamps]. rewrite !fmap_cons. by rewrite IH. Qed.

Lemma stamps_length now sq facts : length (stamps now sq facts) = length facts.
Proof. revert sq. induction facts as [|f facts IH]; intros sq; [done|]. cbn. by rewrite IH. Qed.

Lemma stamps_follow now sq previous seen facts :
  fit previous (stamps now sq facts) = true -> NoDup (fact_id <$> facts) ->
  (forall f, f ∈ facts -> fact_id f ∉ seen) -> follows sq previous seen (stamps now sq facts).
Proof.
  revert sq previous seen. induction facts as [|f facts IH]; intros sq previous seen Hfit Hnd Hseen; [done|].
  cbn [stamps fit follows] in *. apply andb_true_iff in Hfit as [[Hv Hm]%andb_true_iff Hfit].
  rewrite fmap_cons in Hnd. apply NoDup_cons in Hnd as [Hn Hnd]. split_and!; try done.
  - apply Hseen. left.
  - by apply Z.leb_le.
  - apply IH; [done|done|]. intros f' Hf'. apply not_elem_of_cons. split.
    + intros E. apply Hn. change (event_id (commit now (sq + 1) f)) with (fact_id f) in E. rewrite <- E.
      by apply list_elem_of_fmap_2.
    + apply Hseen. by right.
Qed.

Lemma lines_of_app previous es es' : lines_of previous (es ++ es') = lines_of previous es ++ lines_of (chain previous es) es'.
Proof. revert previous. induction es as [|e es IH]; intros previous; [done|]. cbn [app lines_of chain]. by rewrite IH. Qed.

Lemma chain_app previous es es' : chain previous (es ++ es') = chain (chain previous es) es'.
Proof. revert previous. induction es as [|e es IH]; intros previous; [done|]. cbn [app chain]. by rewrite IH. Qed.

Lemma follows_app sq previous seen es es' :
  follows sq previous seen (es ++ es') <->
  follows sq previous seen es
  /\ follows (sq + Z.of_nat (length es)) (chain previous es) (rev (event_id <$> es) ++ seen) es'.
Proof.
  revert sq previous seen. induction es as [|e es IH]; intros sq previous seen; cbn [app follows length chain].
  - rewrite Z.add_0_r. cbn. tauto.
  - rewrite IH, fmap_cons. cbn [rev]. rewrite <- app_assoc.
    replace (sq + 1 + Z.of_nat (length es)) with (sq + Z.of_nat (S (length es))) by lia. cbn [app]. tauto.
Qed.

Lemma concat_app ls ls' : Text.concat (ls ++ ls') = Text.concat ls +:+ Text.concat ls'.
Proof. induction ls as [|l ls IH]; [done|]. cbn [app Text.concat]. by rewrite IH, Text.append_assoc. Qed.

Lemma size_app a b : size (a +:+ b) = size a + size b.
Proof. unfold size. rewrite Text.append_length. lia. Qed.

(** What a request of the journal must be. *)
Definition well_asked (stream : string) (facts : list fact) (expected : Z) : bool :=
  negb (negb (_validate_stream_id stream) || (expected <? 0) || bool_decide (facts = [])
        || negb (bool_decide (NoDup (fact_id <$> facts))) || negb (bool_decide (stream = _stream_id))).

(** A journal that holds its envelopes appends a batch exactly when it is asked well, the
    version is the expected one and the batch fits. *)
Definition spec_append (stream : string) (facts : list fact) (expected now : Z) (es : list envelope)
    : list envelope * outcome exn AppendResult :=
  let v := Z.of_nat (length es) in
  let new := stamps now v facts in
  if negb (well_asked stream facts expected) then (es, Raise ValueError)
  else if negb (v =? expected) then (es, Raise (StreamVersionConflict expected v))
  else if fit (chain None es) new && (size (Text.concat (lines_of (chain None es) new)) <=? _MAX_BATCH_BYTES)
  then (es ++ new, Ok (mkResult v (v + Z.of_nat (length facts)) new))
  else (es, Raise ValueError).

Lemma holds_extended now facts es f st :
  let new := stamps now (Z.of_nat (length es)) facts in
  follows 0 None [] es -> fit (chain None es) new = true -> NoDup (fact_id <$> facts) ->
  (forall x, x ∈ facts -> fact_id x ∉ event_id <$> es) ->
  AppendOnlyLedger.text f = Text.concat (lines_of None es) +:+ Text.concat (lines_of (chain None es) new) ->
  st = None \/ st = Some (state_of (es ++ new)) -> holds (es ++ new) (mk f st).
Proof.
  intros new Hf Hfit Hnd Hfr Ht Hst. split; [|apply follows_app; split; [done|]|done].
  - cbn. by rewrite Ht, lines_of_app, concat_app.
  - rewrite app_nil_r. apply stamps_follow; [done|done|]. intros x Hx Hin. apply (Hfr x Hx). apply list_elem_of_In. apply list_elem_of_In in Hin. by apply in_rev.
Qed.

Lemma written_text f data w :
  AppendOnlyLedger.text (AppendOnlyLedger.written f data w)
  = AppendOnlyLedger.text f +:+ match w with AppendOnlyLedger.Done => data | AppendOnlyLedger.Fails n => Text.take_chars n data end.
Proof.
  unfold AppendOnlyLedger.written. case_bool_decide as E; [|done]. rewrite E. symmetry. apply Text.append_nil_r.
Qed.

Lemma append_spec stream facts expected now es s :
  holds es s -> (forall f, f ∈ facts -> fact_id f ∉ event_id <$> es) ->
  let (s', o) := append_committed stream facts expected now AppendOnlyLedger.Done s in
  o = snd (spec_append stream facts expected now es) /\ holds (fst (spec_append stream facts expected now es)) s'.
Proof.
  intros Hh Hfr. unfold append_committed, spec_append, well_asked. rewrite negb_involutive.
  destruct (negb (_validate_stream_id stream) || _ || _ || _ || _) eqn:Hbad; [done|].
  apply orb_false_iff in Hbad as [[[[_ _]%orb_false_iff _]%orb_false_iff Hnd]%orb_false_iff _].
  apply negb_false_iff, bool_decide_eq_true in Hnd.
  unfold _append_sync. destruct (load_holds es s Hh) as (s1 & -> & Hh1 & _). unfold state_of at 1. cbn [version].
  destruct (_ =? expected) eqn:Hv; cbn [negb]; [|done].
  destruct Hh1 as [Ht Hf Hst]. rewrite Ht. unfold state_of at 1. cbn [byte_size]. rewrite Z.eqb_refl. cbn [negb].
  cbn [version last_checksum byte_size state_of]. rewrite build_spec. cbv zeta.
  destruct (fit _ _) eqn:Hfit; cbn [andb]; [|by split].
  rewrite Z.leb_antisym. destruct (_ <? _) eqn:Hb; cbn [negb]; [by split|]. cbn [fst snd].
  rewrite stamps_length. split; [done|]. apply holds_extended; try done.
  - rewrite written_text. by rewrite Ht.
  - right. unfold state_of. f_equal. rewrite length_app, stamps_length, chain_app, lines_of_app, concat_app, size_app.
    f_equal; lia.
Qed.

Lemma verify_holds es s :
  holds es s ->
  holds es (fst (verify_file s))
  /\ snd (verify_file s) = mkReport true (Z.of_nat (length es)) (Z.of_nat (length es)) (chain None es) [].
Proof.
  intros Hh. unfold verify_file. rewrite (scan_holds es s Hh). cbn. split; [|done].
  destruct Hh as [Ht Hf _]. by split; [..|right].
Qed.

(** ** Histories *)

Inductive op :=
| Append (stream : string) (facts : list fact) (expected now : Z)
| Read (stream : string) (after : Z)
| Verify (stream : string)
| Restart.

Inductive output :=
| Appended (o : outcome exn AppendResult)
| Found (o : outcome exn (list envelope))
| Reported (o : outcome exn VerificationReport)
| Restarted.

Definition run_op (o : op) (s : t) : t * output :=
  match o with
  | Append stream facts expected now =>
      let (s, r) := append_committed stream facts expected now AppendOnlyLedger.Done s in (s, Appended r)
  | Read stream after => let (s, r) := read stream after s in (s, Found r)
  | Verify stream => let (s, r) := verify_committed stream s in (s, Reported r)
  | Restart => (restart s, Restarted)
  end.

(** The journal as a list of envelopes. *)
Definition spec_op (o : op) (es : list envelope) : list envelope * output :=
  match o with
  | Append stream facts expected now =>
      let (es, r) := spec_append stream facts expected now es in (es, Appended r)
  | Read stream after =>
      (es, Found (if path_for stream && (0 <=? after) then Ok (filter (fun e => after < sequence e) es)
                  else Raise ValueError))
  | Verify stream =>
      let n := Z.of_nat (length es) in
      (es, Reported (if path_for stream then Ok (mkReport true n n (chain None es) []) else Raise ValueError))
  | Restart => (es, Restarted)
  end.

Fixpoint run {S : Type} (step : op -> S -> S * output) (ops : list op) (s : S) : S * list output :=
  match ops with
  | [] => (s, [])
  | o :: ops => let (s, out) := step o s in let (s, outs) := run step ops s in (s, out :: outs)
  end.

(** No fact of an append has an id that was committed before. *)
Fixpoint fresh_ids (ops : list op) (es : list envelope) : Prop :=
  match ops with
  | [] => True
  | o :: ops =>
      match o with
      | Append _ facts _ _ => forall f, f ∈ facts -> fact_id f ∉ event_id <$> es
      | _ => True
      end /\ fresh_ids ops (fst (spec_op o es))
  end.

Lemma op_refines o es s :
  holds es s -> fresh_ids [o] es ->
  snd (run_op o s) = snd (spec_op o es) /\ holds (fst (spec_op o es)) (fst (run_op o s)).
Proof.
  intros Hh [Hfr _]. destruct o as [stream facts expected now|stream after|stream|]; cbn [run_op spec_op].
  - pose proof (append_spec stream facts expected now es s Hh Hfr) as H.
    destruct (append_committed _ _ _ _ _ s) as [s' o]. destruct (spec_append _ _ _ _ es) as [es' o'].
    destruct H as [-> H]. done.
  - unfold read. rewrite Z.leb_antisym. destruct (path_for stream); [|done]. cbn [negb orb andb].
    destruct (after <? 0); [done|]. destruct (read_holds es s after Hh) as (s' & -> & H). done.
  - unfold verify_committed. destruct (path_for stream); [|done]. cbn [negb].
    pose proof (verify_holds es s Hh) as [H1 H2]. destruct (verify_file s) as [s' r]. by rewrite <- H2.
  - split; [done|]. destruct Hh as [Ht Hf _]. by split; [..|left].
Qed.

Lemma run_refines ops es s :
  holds es s -> fresh_ids ops es ->
  snd (run run_op ops s) = snd (run spec_op ops es) /\ holds (fst (run spec_op ops es)) (fst (run run_op ops s)).
Proof.
  revert es s. induction ops as [|o ops IH]; intros es s Hh Hfr; [done|]. destruct Hfr as [Ho Hfr].
  destruct (op_refines o es s Hh (conj Ho I)) as [H1 H2]. cbn [run].
  destruct (run_op o s) as [s1 out]. destruct (spec_op o es) as [es1 out']. cbn [fst snd] in *. subst out'.
  destruct (IH es1 s1 H2 Hfr) as [H3 H4].
  destruct (run run_op ops s1) as [s2 outs]. destruct (run spec_op ops es1) as [es2 outs']. cbn [fst snd] in *.
  by subst outs'.
Qed.

(** C4: The journal implements its specification. For every lawful codec and every history of
    appends, reads, verifications and restarts in which every write succeeds and no append
    brings an id that was committed before, each call returns what a plain list of envelopes
    gives: an append commits its batch, numbered without a gap, exactly when it is asked well,
    expects the current version and fits the bounds; reads and verifications of the stream see
    what was committed, across restarts, and those of another stream or from a negative number
    are refused; and the file is the text of exactly these records. *)
Theorem journal_refines ops :
  fresh_ids ops [] ->
  snd (run run_op ops (mk None None)) = snd (run spec_op ops [])
  /\ AppendOnlyLedger.text (file (fst (run run_op ops (mk None None))))
     = Text.concat (lines_of None (fst (run spec_op ops []))).
Proof.
  intros Hfr. assert (holds [] (mk None None)) as Hh by by split; [..|left].
  destruct (run_refines ops [] (mk None None) Hh Hfr) as [H1 H2]. split; [done|]. apply (h_text _ _ H2).
Qed.

(** ** Torn writes *)

Lemma take_app_le n a b :
  Text.take_chars n (a +:+ b)
  = if (n <? String.length a)%nat then Text.take_chars n a else a +:+ Text.take_chars (n - String.length a) b.
Proof.
  revert n. induction a as [|c a IH]; intros n.
  - change (EmptyString +:+ b) with b. cbn. by rewrite Nat.sub_0_r.
  - destruct n as [|n]; [done|]. change (String c a +:+ b) with (String c (a +:+ b)).
    change (Text.take_chars (S n) (String c (a +:+ b))) with (String c (Text.take_chars n (a +:+ b))). rewrite IH.
    change (S n <? String.length (String c a))%nat with (n <? String.length a)%nat. by destruct (_ <? _)%nat.
Qed.

Lemma take_contains c n s : Text.contains c s = false -> Text.contains c (Text.take_chars n s) = false.
Proof.
  revert n. induction s as [|a s IH]; intros [|n]; cbn; try done. intros [H1 H2]%orb_false_iff.
  apply orb_false_iff. split; [done|by apply IH].
Qed.

(** A part of a batch is some of its lines, and a piece of the next one. *)
Lemma read_lines_torn n previous es :
  exists k tail, read_lines (Text.take_chars n (Text.concat (lines_of previous es))) = (lines_of previous (take k es), tail)
    /\ (tail = "" -> Text.take_chars n (Text.concat (lines_of previous es)) = Text.concat (lines_of previous (take k es))).
Proof.
  revert n previous. induction es as [|e es IH]; intros n previous; cbn [lines_of Text.concat].
  - exists 0%nat, "". by destruct n.
  - unfold encode_event_record. cbn [fst snd]. set (l := record_text _ _ e).
    assert (Text.contains "010" l = false) as Hl by apply text_one_line.
    rewrite <- Text.append_assoc, take_app_le. destruct (n <? String.length l)%nat eqn:E1.
    { exists 0%nat, (Text.take_chars n l). rewrite (read_lines_plain _ (take_contains _ n l Hl)). by split. }
    apply Nat.ltb_ge in E1. rewrite take_app_le. cbn [String.length newline].
    destruct (n - String.length l <? 1)%nat eqn:E2.
    { apply Nat.ltb_lt in E2. replace (n - String.length l)%nat with 0%nat by lia.
      change (Text.take_chars 0 newline) with "". rewrite Text.append_nil_r.
      exists 0%nat, l. rewrite (read_lines_plain _ Hl). by split. }
    destruct (IH (n - String.length l - 1)%nat (Some (_record_checksum e previous))) as (k & tail & Hk & Ht).
    exists (S k), tail. rewrite (read_lines_line _ _ Hl), Hk. cbn [fst snd take lines_of Text.concat].
    split; [done|]. intros H. by rewrite (Ht H), Text.append_assoc.
Qed.

(** A file whose text does not verify is not read and not appended to. *)
Definition refused (s : t) : Prop :=
  valid (snd (verify_file s)) = false
  /\ (forall stream after, path_for stream = true -> 0 <= after -> read stream after s = (s, Raise JournalIntegrityError))
  /\ forall stream facts expected now w, well_asked stream facts expected = true ->
       append_committed stream facts expected now w s = (s, Raise JournalIntegrityError).

Lemma invalid_refused f : valid (snd (_scan f)) = false -> refused (mk f None).
Proof.
  intros Hv. unfold refused, verify_file, read, read_file, _verified_snapshot_size, append_committed, well_asked, _append_sync, _load_state.
  cbn [file _states]. destruct (_scan f) as [st rep]. cbn [snd] in Hv. rewrite Hv. split_and!; [done| |].
  { intros stream after Hp Ha. rewrite Hp, (proj2 (Z.ltb_ge _ _) Ha). done. }
  intros stream facts expected now w Hw. apply negb_true_iff in Hw. by rewrite Hw.
Qed.

Lemma torn_scan es f tail :
  follows 0 None [] es -> tail <> "" -> Text.contains "010" tail = false ->
  AppendOnlyLedger.text f = Text.concat (lines_of None es) +:+ tail -> valid (snd (_scan f)) = false.
Proof.
  intros Hf Ht Hc Hx. pose proof (scan_app es tail Hf) as H. rewrite (read_lines_plain tail Hc) in H. cbn [fst snd scan_lines] in H.
  rewrite bool_decide_eq_false_2 in H by done. by rewrite (H f Hx).
Qed.

Lemma read_lines_tail s : Text.contains "010" (snd (read_lines s)) = false.
Proof.
  induction s as [|c s IH]; [done|]. cbn [read_lines]. destruct (read_lines s) as [ls tail]. cbn [snd] in IH.
  case_bool_decide as Hc; [done|]. destruct ls as [|l ls]; cbn [snd]; [|done]. cbn [Text.contains].
  by rewrite bool_decide_eq_false_2.
Qed.

Lemma read_lines_whole s : s = Text.concat (fst (read_lines s)) +:+ snd (read_lines s).
Proof.
  induction s as [|c s IH]; [done|]. cbn [read_lines]. destruct (read_lines s) as [ls tail]. cbn [fst snd] in *.
  rewrite IH at 1. case_bool_decide; [done|]. destruct ls as [|l ls]; reflexivity.
Qed.

(** C34: An append that the disk cuts short is never half read. Whatever part of the batch
    reached the file, the caller gets the error; after a restart the file holds the records
    committed before and a prefix of the batch, either exactly, and then the journal goes on
    from there, or with a torn record behind them, and then the journal refuses to verify,
    to read and to append. *)
Theorem torn_append_fails_closed stream facts expected now n es s r :
  holds es s -> (forall f, f ∈ facts -> fact_id f ∉ event_id <$> es) ->
  snd (spec_append stream facts expected now es) = Ok r ->
  let (s', o) := append_committed stream facts expected now (AppendOnlyLedger.Fails n) s in
  o = Raise OSError
  /\ exists k tail, AppendOnlyLedger.text (file s') = Text.concat (lines_of None (es ++ take k (envelopes r))) +:+ tail
     /\ (tail = "" -> holds (es ++ take k (envelopes r)) (restart s'))
     /\ (tail <> "" -> refused (restart s')).
Proof.
  intros Hh Hfr. unfold append_committed, spec_append, well_asked. rewrite negb_involutive.
  destruct (negb (_validate_stream_id stream) || _ || _ || _ || _) eqn:Hbad; [done|].
  apply orb_false_iff in Hbad as [[[[_ _]%orb_false_iff _]%orb_false_iff Hnd]%orb_false_iff _].
  apply negb_false_iff, bool_decide_eq_true in Hnd.
  unfold _append_sync. destruct (load_holds es s Hh) as (s1 & -> & Hh1 & _). unfold state_of at 1. cbn [version].
  destruct (_ =? expected) eqn:Hv; cbn [negb]; [|done].
  destruct Hh1 as [Ht Hf Hst]. rewrite Ht. unfold state_of at 1. cbn [byte_size]. rewrite Z.eqb_refl. cbn [negb].
  cbn [version last_checksum byte_size state_of]. rewrite build_spec. cbv zeta.
  set (new := stamps now (Z.of_nat (length es)) facts). destruct (fit _ new) eqn:Hfit; cbn [andb]; [|done].
  rewrite Z.leb_antisym. destruct (_ <? _) eqn:Hb; cbn [negb]; [done|]. cbn [snd]. intros [= <-]. cbn [envelopes].
  split; [done|]. destruct (read_lines_torn n (chain None es) new) as (k & tail & Hr & _).
  set (piece := Text.take_chars n _) in *. pose proof (read_lines_whole piece) as Hw. pose proof (read_lines_tail piece) as Hc.
  rewrite Hr in Hw, Hc. cbn [fst snd] in Hw, Hc. exists k, tail. cbn [file restart].
  assert (follows 0 None [] (es ++ take k new)) as Hfol.
  { assert (follows 0 None [] (es ++ new)) as Hall.
    { apply (h_follows _ _ (holds_extended now facts es (Some (Text.concat (lines_of None es) +:+ Text.concat (lines_of (chain None es) new)))
        None Hf Hfit Hnd Hfr eq_refl (or_introl eq_refl))). }
    rewrite <- (take_drop k new), app_assoc in Hall. rewrite follows_app in Hall. apply Hall. }
  assert (AppendOnlyLedger.text (AppendOnlyLedger.written (file s1) (Text.concat (lines_of (chain None es) new)) (AppendOnlyLedger.Fails n))
          = Text.concat (lines_of None (es ++ take k new)) +:+ tail) as Htext.
  { rewrite written_text, Ht. fold piece. rewrite Hw. by rewrite lines_of_app, concat_app, Text.append_assoc. }
  split_and!; [done| |].
  - intros ->. split; [|done|by left]. cbn [file restart]. by rewrite Htext, Text.append_nil_r.
  - intros Htl. apply invalid_refused. by eapply torn_scan.
Qed.

(** A fact whose id was committed before is appended all the same, and nothing can be read or
    appended from the next verification on. *)
Lemma duplicate_refused stream f expected now es s s' r :
  holds es s -> fact_id f ∈ event_id <$> es ->
  append_committed stream [f] expected now AppendOnlyLedger.Done s = (s', Ok r) -> refused (restart s').
Proof.
  intros Hh Hin. unfold append_committed. destruct (_ || _); [done|]. unfold _append_sync.
  destruct (load_holds es s Hh) as (s1 & -> & Hh1 & _). destruct (negb _); [done|]. destruct (negb _); [done|].
  cbn [version last_checksum byte_size state_of]. rewrite build_spec. cbv zeta. destruct (fit _ _); [|done].
  destruct (_ <? _); [done|]. intros [= <- _]. apply invalid_refused. cbn [file].
  destruct Hh1 as [Ht Hf _]. cbn [stamps lines_of Text.concat fst encode_event_record]. set (e := commit _ _ f).
  set (l := record_text _ _ e). pose proof (scan_app es (l +:+ newline) Hf) as H.
  pose proof (read_lines_line l "" (text_one_line _ _ _)) as Hl. rewrite Text.append_nil_r in Hl. rewrite Hl in H.
  cbn [fst snd read_lines] in H. cbn [scan_lines] in H.
  assert (accepts (Z.of_nat (length es)) (chain None es) (rev (event_id <$> es)) (l +:+ newline) = None) as Ha.
  { unfold accepts. destruct (_decode_record _) as [[[e' p] c]|] eqn:Hd; [|done]. cbn.
    unfold _decode_record in Hd. unfold l in Hd. rewrite parse_text in Hd. cbn in Hd. destruct (_ && _ && _); [|done].
    injection Hd as <- _ _. rewrite (bool_decide_eq_true_2 (event_id e ∈ _)); [by rewrite andb_false_r|].
    apply list_elem_of_In. rewrite <- in_rev. by apply list_elem_of_In. }
  rewrite Ha in H. destruct (_MAX_RECORD_BYTES <? size (l +:+ newline)); rewrite (H _); try done.
  all: rewrite written_text, Ht; f_equal; by rewrite Text.append_nil_r.
Qed.

End Laws.
End Journal.
Arguments t : clear implicits.
End EventJournal.

(** ** A concrete journal *)
Module JournalExample.
Import EventJournal.

Notation pieces := (option string * string * (string * string * Z * string * Z * Z * string))%type.

Definition pieces_of (p : option string) (c : string) (e : EventEnvelope string) : pieces :=
  (p, c, (event_id e, event_type e, schema_version e, stream_id e, sequence e, recorded_at e, rest e)).

Definition of_pieces (x : pieces) : option string * string * EventEnvelope string :=
  let '(p, c, (i, ty, v, st, sq, at_, r)) := x in (p, c, mkEnvelope _ i ty v st sq at_ r).

(** A code of records in two letters. *)
Fixpoint letters (p : positive) : string :=
  match p with xH => "" | xO p => String "o" (letters p) | xI p => String "i" (letters p) end.

Fixpoint of_letters (s : string) : positive :=
  match s with
  | String "o" s => xO (of_letters s)
  | String "i" s => xI (of_letters s)
  | _ => xH
  end.

Fixpoint sum_of (s : string) : Z := match s with EmptyString => 0 | String c s => Text.code c + sum_of s end.

Definition zeros : string := String.concat "" (repeat "0" 63).

#[export] Instance letters_codec : RecordCodec string := {
  rest_ok _ := true;
  body_text e := letters (encode (pieces_of None "" e));
  record_text p c e := letters (encode (pieces_of p c e));
  parse_record s := of_pieces <$> decode (A := pieces) (of_letters s);
  sha256 x := zeros +:+ (if Z.even (sum_of x) then "0" else "1")
}.

Lemma of_letters_line p : of_letters (letters p +:+ newline) = p.
Proof.
  induction p as [p IH|p IH|]; [..|done].
  - change (of_letters (letters (xI p) +:+ newline)) with (xI (of_letters (letters p +:+ newline))). by rewrite IH.
  - change (of_letters (letters (xO p) +:+ newline)) with (xO (of_letters (letters p +:+ newline))). by rewrite IH.
Qed.

#[export] Instance letters_laws : RecordCodecLaws string.
Proof.
  split.
  - intros p c e. cbn [parse_record record_text letters_codec]. rewrite of_letters_line, decode_encode. by destruct e.
  - intros p c e. cbn [record_text letters_codec]. generalize (encode (pieces_of p c e)). intros q.
    induction q as [q IH|q IH|]; cbn [letters Text.contains]; [..|done]; rewrite IH; by rewrite bool_decide_eq_false_2.
  - intros x. cbn [sha256 letters_codec]. by destruct (Z.even _).
Qed.

Definition fact_ (id : string) : UncommittedFact string := mkFact _ id "run.started" 1 "payload".

Definition history : list (op (Rest := string)) :=
  [Append "s" [fact_ "a"; fact_ "b"] 0 5; Append "s" [fact_ "c"] 1 6; Read "s" 1; Read "s" (-1); Restart;
   Append "s" [fact_ "c"] 2 7; Verify "s"].

Lemma history_fresh : fresh_ids "s" history [].
Proof. repeat split; intros f Hf; apply (bool_decide_unpack _); revert f Hf; apply Forall_forall; repeat (constructor; [by vm_compute|]); constructor. Qed.

Lemma journal_refines_witness :
  match snd (run (run_op "s") history (mk None None)) with
  | [Appended (Ok _); Appended (Raise (StreamVersionConflict 1 2)); Found (Ok [e]);
     Found (Raise ValueError); Restarted; Appended (Ok r); Reported (Ok rep)] =>
      event_id e = "b" /\ new_version r = 3 /\ valid rep = true
  | _ => False
  end
  /\ snd (run (run_op "s") history (mk None None)) = snd (run (spec_op "s") history []).
Proof.
  split; [vm_compute; split_and!; reflexivity|].
  destruct (journal_refines "s" history history_fresh) as [Hr _]. exact Hr.
Defined.

Definition empty_journal : t := mk None None.

Lemma empty_holds : holds (Rest := string) "s" [] empty_journal.
Proof. by split; [..|left]. Qed.

Definition batch : list (UncommittedFact string) := [fact_ "a"; fact_ "b"].
Definition committed : AppendResult := mkResult 0 2 (stamps "s" 5 0 batch).
Definition first_line : nat := String.length (fst (encode_event_record (commit "s" 5 1 (fact_ "a")) None)).

(** Cut inside its second record a batch leaves its first one behind a torn record; cut
    between the two, it leaves the first one committed. *)
Lemma torn_append_witness :
  (let s := fst (append_committed "s" "s" batch 0 5 (AppendOnlyLedger.Fails (first_line + 9)) empty_journal) in
   refused "s" (restart s))
  /\ let r := snd (verify_file "s" (restart (fst (append_committed "s" "s" batch 0 5 (AppendOnlyLedger.Fails first_line) empty_journal)))) in
     valid r = true /\ record_count r = 1.
Proof.
  split.
  - destruct (append_committed "s" "s" batch 0 5 (AppendOnlyLedger.Fails (first_line + 9)) empty_journal) as [s o] eqn:E.
    pose proof (torn_append_fails_closed "s" "s" batch 0 5 (first_line + 9) [] empty_journal committed empty_holds
      ltac:(intros f _ Hin; by apply not_elem_of_nil in Hin) ltac:(vm_compute; reflexivity)) as H.
    rewrite E in H. destruct H as (_ & k & tail & _ & Hh & Hr). cbn [fst]. apply Hr. intros Ht.
    destruct (verify_holds "s" _ _ (Hh Ht)) as [_ Hv]. apply (f_equal valid) in Hv. cbn [valid] in Hv.
    assert (s = fst (append_committed "s" "s" batch 0 5 (AppendOnlyLedger.Fails (first_line + 9)) empty_journal)) as Hs
      by by rewrite E.
    rewrite Hs in Hv. vm_compute in Hv. discriminate Hv.
  - vm_compute. split; reflexivity.
Defined.

(** The second append of one fact makes the whole stream unreadable. *)
Lemma repeated_fact_refused :
  let s := fst (append_committed "s" "s" [fact_ "a"] 0 5 AppendOnlyLedger.Done empty_journal) in
  let (s', o) := append_committed "s" "s" [fact_ "a"] 1 6 AppendOnlyLedger.Done s in
  (is_ok o, is_ok (snd (read "s" "s" 0 s')), is_ok (snd (append_committed "s" "s" [fact_ "b"] 2 7 AppendOnlyLedger.Done (restart s'))))
  = (true, false, false).
Proof. vm_compute. reflexivity. Qed.

End JournalExample.
