(* ===== verification/EventSubscription.v ===== *)
(** * Subscriptions to committed facts

    What a subscription is ([contracts/ports/events/subscription.py]), its bounded mailbox
    ([runtime/events/mailbox.py]), the store of checkpoints and dead letters
    ([runtime/events/backends/subscription_state.py]) and the worker that owns a mailbox
    and a handler ([runtime/events/subscription.py]). A method that waits on a condition is
    an operation that gives [None] until it can go on; a worker is its steps between two
    awaits. *)

From S2P Require Import Prelude Text Json Ledger EventJournal.
From Stdlib Require Import String.
From stdpp Require Import base list strings gmap sorting.

Open Scope string_scope.
Open Scope list_scope.
Open Scope Z_scope.

(** * Contracts *)
Module Subscription.

Definition MAX_SUBSCRIPTION_CAPACITY : Z := 65536.
Definition MAX_RETRY_ATTEMPTS : Z := 100.
Definition MAX_HANDLER_TIMEOUT_SECONDS : Q := 300.
Definition MAX_DEAD_LETTER_ERROR_BYTES : Z := 16 * 1024.

Inductive Reliability := DURABLE | RELIABLE | LIVE | LOSSY.
Inductive Ordering := PER_STREAM.
Inductive OverflowPolicy := BACKPRESSURE | DROP_OLDEST | DROP_NEWEST | COALESCE.

#[export] Instance Reliability_eq_dec : EqDecision Reliability.
Proof. solve_decision. Defined.
#[export] Instance OverflowPolicy_eq_dec : EqDecision OverflowPolicy.
Proof. solve_decision. Defined.

Definition recoverable (r : Reliability) : bool :=
  match r with DURABLE | RELIABLE => true | LIVE | LOSSY => false end.

Record RetryPolicy := mkRetry {
  max_attempts : nat;
  attempt_timeout_seconds : Q;
  initial_delay_seconds : Q;
  maximum_delay_seconds : Q;
  jitter_ratio : Q
}.

Definition valid_retry (r : RetryPolicy) : bool :=
  ((1 <=? max_attempts r)%nat && (Z.of_nat (max_attempts r) <=? MAX_RETRY_ATTEMPTS))
  && (negb (Qle_bool (attempt_timeout_seconds r) 0) && Qle_bool (attempt_timeout_seconds r) MAX_HANDLER_TIMEOUT_SECONDS)
  && Qle_bool 0 (initial_delay_seconds r)
  && Qle_bool (initial_delay_seconds r) (maximum_delay_seconds r)
  && (Qle_bool 0 (jitter_ratio r) && Qle_bool (jitter_ratio r) 1).

Record CheckpointPolicy := mkCheckpointPolicy { persist_every : nat }.

Definition valid_checkpoint_policy (c : CheckpointPolicy) : bool := (1 <=? persist_every c)%nat.

Record EventFilter := mkFilter { event_types : list string; stream_prefixes : list string }.

Definition valid_filter (f : EventFilter) : bool := forallb (fun p => negb (bool_decide (p = ""))) (stream_prefixes f).

Definition matches_stream (f : EventFilter) (stream : string) : bool :=
  bool_decide (stream_prefixes f = []) || existsb (Text.startswith stream) (stream_prefixes f).

Definition matches_event_type (f : EventFilter) (type : string) : bool :=
  bool_decide (event_types f = []) || bool_decide (type ∈ event_types f).

Record SubscriptionSpec := mkSpec {
  identity : string;
  event_filter : EventFilter;
  reliability : Reliability;
  ordering : Ordering;
  capacity : nat;
  overflow : OverflowPolicy;
  retry : RetryPolicy;
  checkpoint_policy : CheckpointPolicy
}.

(** [_IDENTITY_PATTERN]: the pattern of event types. *)
Definition _IDENTITY_PATTERN (s : string) : bool := EventJournal._EVENT_TYPE_PATTERN s.

Definition valid_spec (s : SubscriptionSpec) : bool :=
  _IDENTITY_PATTERN (identity s)
  && ((1 <=? capacity s)%nat && (Z.of_nat (capacity s) <=? MAX_SUBSCRIPTION_CAPACITY))
  && (if recoverable (reliability s) then bool_decide (overflow s = BACKPRESSURE)
      else negb (bool_decide (overflow s = BACKPRESSURE)))
  && valid_filter (event_filter s) && valid_retry (retry s) && valid_checkpoint_policy (checkpoint_policy s).

Record SubscriptionCheckpoint := mkCheckpoint { cp_identity : string; cp_stream : string; cp_sequence : Z }.

Definition valid_checkpoint (c : SubscriptionCheckpoint) : bool := 0 <=? cp_sequence c.

Section Rest.
Context {Rest : Type}.
Notation envelope := (EventJournal.EventEnvelope Rest).

Definition matches (f : EventFilter) (e : envelope) : bool :=
  matches_stream f (EventJournal.stream_id e) && matches_event_type f (EventJournal.event_type e).

(** Times are integers: they all carry a zone. *)
Record DeadLetterEntry := mkEntry {
  subscription : string;
  envelope_of : envelope;
  attempts : nat;
  error : string;
  first_failed_at : Z;
  last_failed_at : Z
}.

Definition valid_entry (d : DeadLetterEntry) : bool :=
  ((1 <=? attempts d)%nat && (Z.of_nat (attempts d) <=? MAX_RETRY_ATTEMPTS))
  && negb (bool_decide (error d = "")) && (EventJournal.utf8_length (error d) <=? MAX_DEAD_LETTER_ERROR_BYTES)
  && (first_failed_at d <=? last_failed_at d).

End Rest.
Arguments DeadLetterEntry : clear implicits.

Lemma valid_spec_recoverable s :
  valid_spec s = true -> recoverable (reliability s) = true -> overflow s = BACKPRESSURE.
Proof.
  unfold valid_spec. rewrite !andb_true_iff. intros [[[[_ Hv] _] _] _] Hr. rewrite Hr in Hv.
  by apply bool_decide_eq_true in Hv.
Qed.

Lemma valid_spec_attempts s : valid_spec s = true -> (1 <= max_attempts (retry s) <= 100)%nat.
Proof.
  unfold valid_spec, valid_retry, MAX_RETRY_ATTEMPTS. rewrite !andb_true_iff. intros H.
  destruct H as [[_ H] _]. destruct H as [[[[H _] _] _] _]. destruct H as [H1 H2].
  apply Nat.leb_le in H1. lia.
Qed.

Lemma valid_spec_capacity s : valid_spec s = true -> (1 <= capacity s)%nat.
Proof.
  unfold valid_spec. rewrite !andb_true_iff. intros [[[[[_ [H _]] _] _] _] _]. by apply Nat.leb_le in H.
Qed.

End Subscription.

(** * The mailbox *)
Module SubscriptionMailbox.
Import Subscription.

Section Mailbox.
Context {Rest : Type}.
Notation envelope := (EventJournal.EventEnvelope Rest).
Context (_capacity : nat) (_overflow : OverflowPolicy).

Record Mailbox := mkMailbox {
  _items : list envelope;
  _unfinished : nat;
  _dropped : nat;
  _coalesced : nat;
  _closed : bool
}.

Inductive MailboxPutResult := ENQUEUED | DROPPED | COALESCED.
Inductive mailbox_error := MailboxClosed | MailboxValueError.

Definition new_mailbox : Mailbox := mkMailbox [] 0 0 0 false.

Definition depth (m : Mailbox) : nat := length (_items m).

Definition _append (e : envelope) (m : Mailbox) : Mailbox :=
  mkMailbox (_items m ++ [e]) (S (_unfinished m)) (_dropped m) (_coalesced m) (_closed m).

Definition _discard_oldest (m : Mailbox) : Mailbox :=
  mkMailbox (tail (_items m)) (pred (_unfinished m)) (S (_dropped m)) (_coalesced m) (_closed m).

(** The last queued event with the key of [e], replaced by [e]. *)
Definition same_key (e e' : envelope) : bool :=
  bool_decide (EventJournal.stream_id e' = EventJournal.stream_id e)
  && bool_decide (EventJournal.event_type e' = EventJournal.event_type e).

Fixpoint replace_last (e : envelope) (l : list envelope) : option (list envelope) :=
  match l with
  | [] => None
  | e' :: l' =>
      match replace_last e l' with
      | Some r => Some (e' :: r)
      | None => if same_key e e' then Some (e :: l') else None
      end
  end.

Definition _coalesce (e : envelope) (m : Mailbox) : Mailbox * MailboxPutResult :=
  match replace_last e (_items m) with
  | Some l => (mkMailbox l (_unfinished m) (_dropped m) (S (_coalesced m)) (_closed m), COALESCED)
  | None => (_append e (if (_capacity <=? depth m)%nat then _discard_oldest m else m), ENQUEUED)
  end.

(** [None]: the call waits for room. *)
Definition put (e : envelope) (m : Mailbox) : option (Mailbox * outcome mailbox_error MailboxPutResult) :=
  if _closed m then Some (m, Raise MailboxClosed)
  else match _overflow with
  | BACKPRESSURE => if (_capacity <=? depth m)%nat then None else Some (_append e m, Ok ENQUEUED)
  | DROP_NEWEST =>
      if (_capacity <=? depth m)%nat
      then Some (mkMailbox (_items m) (_unfinished m) (S (_dropped m)) (_coalesced m) (_closed m), Ok DROPPED)
      else Some (_append e m, Ok ENQUEUED)
  | DROP_OLDEST => Some (_append e (if (_capacity <=? depth m)%nat then _discard_oldest m else m), Ok ENQUEUED)
  | COALESCE => let (m, r) := _coalesce e m in Some (m, Ok r)
  end.

Definition get (m : Mailbox) : option (Mailbox * outcome mailbox_error envelope) :=
  match _items m with
  | e :: l => Some (mkMailbox l (_unfinished m) (_dropped m) (_coalesced m) (_closed m), Ok e)
  | [] => if _closed m then Some (m, Raise MailboxClosed) else None
  end.

Definition task_done (m : Mailbox) : Mailbox * outcome mailbox_error unit :=
  match _unfinished m with
  | O => (m, Raise MailboxValueError)
  | S n => (mkMailbox (_items m) n (_dropped m) (_coalesced m) (_closed m), Ok tt)
  end.

(** [join] returns. *)
Definition joined (m : Mailbox) : bool := (_unfinished m =? 0)%nat.

Definition close (m : Mailbox) : Mailbox :=
  mkMailbox (_items m) (_unfinished m) (_dropped m) (_coalesced m) true.

Definition abort (m : Mailbox) : Mailbox := mkMailbox [] 0 (_dropped m) (_coalesced m) true.

(** ** The mailbox as its list *)

Record mailbox_ok (taken : nat) (m : Mailbox) : Prop := {
  mb_bound : (depth m <= _capacity)%nat;
  mb_unfinished : _unfinished m = (depth m + taken)%nat
}.

Lemma replace_last_length e l r : replace_last e l = Some r -> length r = length l.
Proof.
  revert r. induction l as [|e' l IH]; intros r; cbn; [done|]. destruct (replace_last e l) as [r'|].
  - intros [= <-]. cbn. by rewrite (IH r').
  - destruct (same_key e e'); [|done]. by intros [= <-].
Qed.

Lemma replace_last_elem e l r x : replace_last e l = Some r -> x ∈ r -> x = e \/ x ∈ l.
Proof.
  revert r. induction l as [|e' l IH]; intros r; cbn; [done|]. destruct (replace_last e l) as [r'|].
  - intros [= <-]. rewrite !elem_of_cons. intros [->|H]; [by right; left|]. destruct (IH r' eq_refl H); auto.
  - destruct (same_key e e'); [|done]. intros [= <-]. rewrite !elem_of_cons. naive_solver.
Qed.

Lemma discard_ok taken m :
  (1 <= depth m)%nat -> mailbox_ok taken m ->
  mailbox_ok taken (_discard_oldest m) /\ S (depth (_discard_oldest m)) = depth m.
Proof.
  intros Hd [Hb Hu]. destruct m as [[|e l] u d c b]; unfold depth in *; cbn in *; [lia|].
  split; [|done]. split; unfold depth; cbn; lia.
Qed.

Lemma append_ok taken e m : (depth m < _capacity)%nat -> mailbox_ok taken m -> mailbox_ok taken (_append e m).
Proof.
  intros Hd [Hb Hu]. split; unfold depth, _append in *; cbn; rewrite ?length_app; cbn; lia.
Qed.

Lemma room_ok taken e m :
  (1 <= _capacity)%nat -> mailbox_ok taken m ->
  mailbox_ok taken (_append e (if (_capacity <=? depth m)%nat then _discard_oldest m else m)).
Proof.
  intros Hc Hm. destruct (Nat.leb_spec _capacity (depth m)) as [Hf|Hf]; [|by apply append_ok].
  destruct (discard_ok taken m) as [H1 H2]; [lia|done|]. apply append_ok; [|done]. destruct Hm. lia.
Qed.

Lemma put_ok taken e m m' o : (1 <= _capacity)%nat -> mailbox_ok taken m -> put e m = Some (m', o) -> mailbox_ok taken m'.
Proof.
  intros Hc Hm. unfold put. destruct (_closed m); [by intros [= <- _]|]. destruct _overflow.
  - destruct (Nat.leb_spec _capacity (depth m)); [done|]. intros [= <- _]. by apply append_ok.
  - intros [= <- _]. by apply room_ok.
  - destruct (Nat.leb_spec _capacity (depth m)); intros [= <- _]; [|by apply append_ok].
    destruct Hm as [Hb Hu]. by split.
  - unfold _coalesce. destruct (replace_last e (_items m)) as [l|] eqn:E.
    + intros [= <- _]. destruct Hm as [Hb Hu]. apply replace_last_length in E.
      split; unfold depth in *; cbn; by rewrite E.
    + intros [= <- _]. by apply room_ok.
Qed.

Lemma room_elem e m x : x ∈ _items (_append e (if (_capacity <=? depth m)%nat then _discard_oldest m else m)) -> x = e \/ x ∈ _items m.
Proof.
  cbn. rewrite elem_of_app, list_elem_of_singleton. intros [Hx|Hx]; [right|by left].
  destruct (_ <=? _)%nat; [|done]. cbn in Hx. destruct (_items m); [done|]. by right.
Qed.

(** Nothing gets into a mailbox but what was put there. *)
Lemma put_elem e m m' o x : put e m = Some (m', o) -> x ∈ _items m' -> x = e \/ x ∈ _items m.
Proof.
  unfold put. destruct (_closed m); [intros [= <- _]; by right|]. destruct _overflow.
  - destruct (_ <=? _)%nat; [done|]. intros [= <- _]. cbn. rewrite elem_of_app, list_elem_of_singleton. tauto.
  - intros [= <- _]. apply room_elem.
  - destruct (_ <=? _)%nat; intros [= <- _]; cbn; [by right|]. rewrite elem_of_app, list_elem_of_singleton. tauto.
  - unfold _coalesce. destruct (replace_last e (_items m)) as [l|] eqn:E; intros [= <- _]; [|apply room_elem].
    cbn. by apply replace_last_elem.
Qed.

Lemma get_ok m m' e : mailbox_ok 0 m -> get m = Some (m', Ok e) -> mailbox_ok 1 m' /\ _items m = e :: _items m'.
Proof.
  intros [Hb Hu]. unfold get. destruct m as [[|e' l] u d c b]; cbn in *; [by destruct b|].
  intros [= <- <-]. split; [|done]. split; unfold depth in *; cbn in *; lia.
Qed.

Lemma task_done_ok m : mailbox_ok 1 m -> exists m', task_done m = (m', Ok tt) /\ mailbox_ok 0 m' /\ _items m' = _items m
  /\ _closed m' = _closed m.
Proof.
  intros [Hb Hu]. unfold task_done. destruct m as [l u d c b]; unfold depth in *; cbn in *. subst u.
  rewrite Nat.add_1_r. eexists. split; [done|]. split; [|done]. split; unfold depth; cbn; lia.
Qed.

End Mailbox.
Arguments Mailbox : clear implicits.
End SubscriptionMailbox.

(** * Checkpoints and dead letters *)
Module SubscriptionStateStore.
Import Subscription.

Inductive exn :=
| ValueError
| RuntimeError
| MailboxClosed
| SubscriptionFailed
| HandlerError (text : string)
| CancelledError
| StoreFault (text : string)
| SubscriptionStateIntegrityError
| CheckpointRegressionError
| SubscriptionStateStoreClosed
| JournalIntegrityError
| StreamVersionConflict (expected actual : Z)
| OSError
| DispatcherIntegrityError
| EventFabricUnavailable
| EventFabricReadOnly
| CommittedDispatchError.

(** The fault of one call of the engine, which rolls its transaction back. *)
Notation fault := (option string).

Section Store.
Context {Rest : Type} `{codec : EventJournal.RecordCodec Rest}.
Notation envelope := (EventJournal.EventEnvelope Rest).

Definition _MAX_DEAD_LETTER_PAGE : Z := 1000.

(** A row of [subscription_dead_letters], and the two tables by their primary keys. *)
Record DeadLetterRow := mkRow {
  row_event_id : string;
  envelope_record : string;
  row_attempts : nat;
  row_error : string;
  row_first : Z;
  row_last : Z
}.

Record StateStore := mkStore {
  _connection : bool;
  checkpoints : gmap (string * string) Z;
  dead_letters : gmap (string * string * Z) DeadLetterRow
}.

Definition new_store : StateStore := mkStore false ∅ ∅.

Definition _open_sync (f : fault) (st : StateStore) : StateStore * outcome exn unit :=
  if _connection st then (st, Ok tt)
  else match f with
  | Some text => (st, Raise (StoreFault text))
  | None => (mkStore true (checkpoints st) (dead_letters st), Ok tt)
  end.

Definition _close_sync (st : StateStore) : StateStore := mkStore false (checkpoints st) (dead_letters st).

Definition _require_connection (st : StateStore) : outcome exn unit :=
  if _connection st then Ok tt else Raise SubscriptionStateStoreClosed.

Definition _load_sync (i stream : string) (f : fault) (st : StateStore) : outcome exn Z :=
  let? _ := _require_connection st in
  match f with
  | Some text => Raise (StoreFault text)
  | None => Ok (default 0 (checkpoints st !! (i, stream)))
  end.

Definition _save_in_transaction (c : SubscriptionCheckpoint) (st : StateStore) : outcome exn StateStore :=
  let key := (cp_identity c, cp_stream c) in
  match checkpoints st !! key with
  | Some n => if cp_sequence c <? n then Raise CheckpointRegressionError
              else Ok (mkStore (_connection st) (<[key := cp_sequence c]> (checkpoints st)) (dead_letters st))
  | None => Ok (mkStore (_connection st) (<[key := cp_sequence c]> (checkpoints st)) (dead_letters st))
  end.

(** [rollback] on an exception. *)
Definition transact (o : outcome exn StateStore) (st : StateStore) : StateStore * outcome exn unit :=
  match o with Ok st' => (st', Ok tt) | Raise x => (st, Raise x) end.

Definition _save_sync (c : SubscriptionCheckpoint) (f : fault) (st : StateStore) : StateStore * outcome exn unit :=
  transact (let? _ := _require_connection st in
            match f with Some text => Raise (StoreFault text) | None => _save_in_transaction c st end) st.

Definition upsert (d : DeadLetterEntry Rest) (old : option DeadLetterRow) : DeadLetterRow :=
  let record := fst (EventJournal.encode_event_record (envelope_of d) None) in
  match old with
  | None =>
      mkRow (EventJournal.event_id (envelope_of d)) record (attempts d) (error d) (first_failed_at d) (last_failed_at d)
  | Some r =>
      mkRow (row_event_id r) record (Nat.max (row_attempts r) (attempts d)) (error d)
        (Z.min (row_first r) (first_failed_at d)) (Z.max (row_last r) (last_failed_at d))
  end.

Definition entry_key (d : DeadLetterEntry Rest) : string * string * Z :=
  (subscription d, EventJournal.stream_id (envelope_of d), EventJournal.sequence (envelope_of d)).

Definition _quarantine_sync (d : DeadLetterEntry Rest) (c : SubscriptionCheckpoint) (f : fault) (st : StateStore)
    : StateStore * outcome exn unit :=
  transact (let? _ := _require_connection st in
            match f with
            | Some text => Raise (StoreFault text)
            | None =>
                let existing := dead_letters st !! entry_key d in
                if match existing with
                   | Some r => negb (bool_decide (row_event_id r = EventJournal.event_id (envelope_of d)))
                   | None => false
                   end
                then Raise SubscriptionStateIntegrityError
                else _save_in_transaction c
                       (mkStore (_connection st) (checkpoints st) (<[entry_key d := upsert d existing]> (dead_letters st)))
            end) st.

Definition quarantine (d : DeadLetterEntry Rest) (c : SubscriptionCheckpoint) (f : fault) (st : StateStore)
    : StateStore * outcome exn unit :=
  if bool_decide (subscription d = cp_identity c)
     && bool_decide (EventJournal.stream_id (envelope_of d) = cp_stream c)
     && (EventJournal.sequence (envelope_of d) =? cp_sequence c)
  then _quarantine_sync d c f st else (st, Raise ValueError).

Definition _dead_letter_from_row (key : string * string * Z) (r : DeadLetterRow) : outcome exn (DeadLetterEntry Rest) :=
  let '(i, stream, n) := key in
  match EventJournal.decode_event_record (envelope_record r) with
  | None => Raise ValueError
  | Some e =>
      if bool_decide (EventJournal.event_id e = row_event_id r) && bool_decide (EventJournal.stream_id e = stream)
         && (EventJournal.sequence e =? n)
      then let d := mkEntry i e (row_attempts r) (row_error r) (row_first r) (row_last r) in
           if valid_entry d then Ok d else Raise ValueError
      else Raise SubscriptionStateIntegrityError
  end.

(** [ORDER BY last_failed_at DESC, subscription, stream_id, sequence] *)
Definition row_le (a b : string * string * Z * DeadLetterRow) : Prop :=
  let '(i, stream, n, r) := a in let '(i', stream', n', r') := b in
  row_last r' < row_last r
  \/ (row_last r' = row_last r
      /\ (i <> i' /\ Text.text_le i i'
          \/ (i = i' /\ (stream <> stream' /\ Text.text_le stream stream' \/ (stream = stream' /\ n <= n'))))).

#[global] Instance row_le_dec a b : Decision (row_le a b).
Proof. destruct a as [[[i stream] n] r], b as [[[i' stream'] n'] r']. unfold row_le, Text.text_le. apply _. Defined.

Fixpoint entries (rows : list (string * string * Z * DeadLetterRow)) : outcome exn (list (DeadLetterEntry Rest)) :=
  match rows with
  | [] => Ok []
  | (key, r) :: rows => let? d := _dead_letter_from_row key r in let? ds := entries rows in Ok (d :: ds)
  end.

Definition _list_dead_letters_sync (i : option string) (limit : nat) (f : fault) (st : StateStore)
    : outcome exn (list (DeadLetterEntry Rest)) :=
  let? _ := _require_connection st in
  match f with
  | Some text => Raise (StoreFault text)
  | None =>
      let rows := map_to_list (dead_letters st) in
      let rows := match i with Some i => filter (fun row => row.1.1.1 = i) rows | None => rows end in
      entries (take limit (merge_sort row_le rows))
  end.

Definition list_dead_letters (i : option string) (limit : Z) (f : fault) (st : StateStore)
    : outcome exn (list (DeadLetterEntry Rest)) :=
  if (1 <=? limit) && (limit <=? _MAX_DEAD_LETTER_PAGE) then _list_dead_letters_sync i (Z.to_nat limit) f st
  else Raise ValueError.

(** ** What the calls do *)

Definition stored (st : StateStore) (i stream : string) : Z := default 0 (checkpoints st !! (i, stream)).

Lemma save_in_spec c st :
  stored st (cp_identity c) (cp_stream c) <= cp_sequence c ->
  _save_in_transaction c st
  = Ok (mkStore (_connection st) (<[(cp_identity c, cp_stream c) := cp_sequence c]> (checkpoints st)) (dead_letters st)).
Proof.
  unfold _save_in_transaction, stored. destruct (checkpoints st !! _) as [n|]; [|done]. cbn. intros H.
  by rewrite (proj2 (Z.ltb_ge _ _) H).
Qed.

(** A transaction leaves the store as it was, or moves one checkpoint forward. *)
Definition advanced (c : SubscriptionCheckpoint) (st st' : StateStore) : Prop :=
  checkpoints st' = <[(cp_identity c, cp_stream c) := cp_sequence c]> (checkpoints st)
  /\ (forall n, checkpoints st !! (cp_identity c, cp_stream c) = Some n -> n <= cp_sequence c)
  /\ _connection st' = _connection st.

Lemma save_in_advanced c st st' :
  _save_in_transaction c st = Ok st' -> advanced c st st' /\ dead_letters st' = dead_letters st.
Proof.
  unfold _save_in_transaction, advanced. destruct (checkpoints st !! _) as [n|] eqn:E.
  - destruct (Z.ltb_spec (cp_sequence c) n); [done|]. intros [= <-]. split_and!; try done. by intros ? [= <-].
  - intros [= <-]. by split_and!.
Qed.

Lemma save_sync_spec c f st st' o :
  _save_sync c f st = (st', o) ->
  match o with
  | Ok _ => advanced c st st' /\ dead_letters st' = dead_letters st
  | Raise x => st' = st
  end.
Proof.
  unfold _save_sync, transact. destruct (let? _ := _ in _) as [s|x] eqn:E; intros [= <- <-]; [|done].
  apply outcome_bind_ok in E as (_ & _ & E). destruct f; [done|]. by apply save_in_advanced.
Qed.

Lemma quarantine_spec d c f st st' o :
  quarantine d c f st = (st', o) ->
  match o with
  | Ok _ => advanced c st st'
            /\ dead_letters st' = <[entry_key d := upsert d (dead_letters st !! entry_key d)]> (dead_letters st)
            /\ row_event_id (upsert d (dead_letters st !! entry_key d)) = EventJournal.event_id (envelope_of d)
  | Raise x => st' = st
  end.
Proof.
  unfold quarantine, _quarantine_sync, transact. destruct (_ && _ && _); [|by intros [= <- <-]].
  destruct (let? _ := _ in _) as [s|x] eqn:E; intros [= <- <-]; [|done].
  apply outcome_bind_ok in E as (_ & _ & E). destruct f; [done|].
  destruct (dead_letters st !! entry_key d) as [r|].
  - destruct (bool_decide_reflect (row_event_id r = EventJournal.event_id (envelope_of d))) as [Hr|]; [|done]. cbn in E.
    apply save_in_advanced in E as [[H1 [H2 H3]] H4]. by split_and!.
  - cbn in E. apply save_in_advanced in E as [[H1 [H2 H3]] H4]. by split_and!.
Qed.

Lemma stored_advanced c st st' i stream :
  advanced c st st' ->
  stored st' i stream = if decide ((i, stream) = (cp_identity c, cp_stream c)) then cp_sequence c else stored st i stream.
Proof.
  intros (H & _ & _). unfold stored. rewrite H. case_decide as Hk.
  - rewrite Hk. by rewrite lookup_insert_eq.
  - by rewrite lookup_insert_ne by congruence.
Qed.

Lemma advanced_grows c st st' i stream :
  0 <= cp_sequence c -> advanced c st st' -> stored st i stream <= stored st' i stream.
Proof.
  intros Hc Ha. rewrite (stored_advanced _ _ _ i stream Ha). destruct Ha as (_ & Ha & _).
  case_decide as Hk; [|done]. unfold stored. injection Hk as -> ->. destruct (checkpoints st !! _); [by apply Ha|done].
Qed.

(** ** The dead letters come back *)
Context {laws : EventJournal.RecordCodecLaws Rest}.

Lemma decode_encoded (e : envelope) :
  EventJournal.valid_envelope e = true ->
  EventJournal.decode_event_record (fst (EventJournal.encode_event_record e None)) = Some e.
Proof using laws.
  intros Hv. unfold EventJournal.decode_event_record, EventJournal._decode_record, EventJournal.encode_event_record. cbn [fst].
  rewrite EventJournal.parse_text. cbn [mbind option_bind]. rewrite EventJournal.checksum_form, Hv. cbn [andb mbind option_bind].
  by rewrite bool_decide_eq_true_2.
Qed.

End Store.
End SubscriptionStateStore.

(** * The worker *)
Module SubscriptionWorker.
Import Subscription SubscriptionMailbox SubscriptionStateStore.

Inductive SubscriptionState := NEW | RUNNING | DEGRADED | DRAINING | FAILED | CLOSED.

#[export] Instance SubscriptionState_eq_dec : EqDecision SubscriptionState.
Proof. solve_decision. Defined.

Section Worker.
Context {Rest : Type} `{codec : EventJournal.RecordCodec Rest}.
Notation envelope := (EventJournal.EventEnvelope Rest).
Notation fault := (option string).

(** [f"{type(error).__name__}: {error}"] *)
Context (describe : exn -> string).

(** Where the task of [_run] is suspended: at the mailbox, before the checkpoint of the event
    it took, or before an attempt to handle it, with the time of its first failure. *)
Inductive Phase := Taking | Fresh (e : envelope) | Attempting (e : envelope) (attempt : nat) (first_failure_at : option Z).

Inductive Task := NoTask | Alive (p : Phase) | Returned | Died (x : exn).

Record Worker := mkWorker {
  spec : SubscriptionSpec;
  _state_store : bool;
  _mailbox : Mailbox Rest;
  _state : SubscriptionState;
  _task : Task;
  _failure : option exn;
  _acknowledged : list (string * Z);
  _persisted : list (string * Z);
  _since_checkpoint : list (string * nat)
}.

Definition with_mailbox (m : Mailbox Rest) (w : Worker) : Worker :=
  mkWorker (spec w) (_state_store w) m (_state w) (_task w) (_failure w) (_acknowledged w) (_persisted w) (_since_checkpoint w).
Definition with_state (s : SubscriptionState) (w : Worker) : Worker :=
  mkWorker (spec w) (_state_store w) (_mailbox w) s (_task w) (_failure w) (_acknowledged w) (_persisted w) (_since_checkpoint w).
Definition with_task (k : Task) (w : Worker) : Worker :=
  mkWorker (spec w) (_state_store w) (_mailbox w) (_state w) k (_failure w) (_acknowledged w) (_persisted w) (_since_checkpoint w).
Definition with_marks (a p : list (string * Z)) (c : list (string * nat)) (w : Worker) : Worker :=
  mkWorker (spec w) (_state_store w) (_mailbox w) (_state w) (_task w) (_failure w) a p c.

Definition new_worker (s : SubscriptionSpec) (has_store : bool) : outcome exn Worker :=
  if recoverable (reliability s) && negb has_store then Raise ValueError
  else Ok (mkWorker s has_store new_mailbox NEW NoTask None [] [] []).

Definition accepting (w : Worker) : bool := match _state w with RUNNING | DEGRADED => true | _ => false end.

Definition start (w : Worker) : Worker * outcome exn unit :=
  match _state w with
  | NEW => (with_task (Alive Taking) (with_state RUNNING w), Ok tt)
  | _ => (w, Raise RuntimeError)
  end.

Definition mailbox_exn (x : mailbox_error) : exn :=
  match x with SubscriptionMailbox.MailboxClosed => MailboxClosed | MailboxValueError => ValueError end.

(** [None]: the publisher waits for room in the mailbox; when it goes on, [waited] is set, and
    it is past the first guard. *)
Definition publish (waited : bool) (e : envelope) (w : Worker) : option (Worker * outcome exn (option MailboxPutResult)) :=
  if negb waited && negb (accepting w) then Some (w, Raise RuntimeError)
  else if negb (matches_stream (event_filter (spec w)) (EventJournal.stream_id e)) then Some (w, Ok None)
  else if negb (recoverable (reliability (spec w))) && negb (matches_event_type (event_filter (spec w)) (EventJournal.event_type e))
  then Some (w, Ok None)
  else match put (capacity (spec w)) (overflow (spec w)) e (_mailbox w) with
  | None => None
  | Some (m, Ok r) => Some (with_mailbox m w, Ok (Some r))
  | Some (m, Raise x) => Some (with_mailbox m w, Raise (mailbox_exn x))
  end.

Definition _current_checkpoint (stream : string) (f : fault) (w : Worker) (st : StateStore) : Worker * outcome exn Z :=
  match Dict.get stream (_acknowledged w) with
  | Some n => (w, Ok n)
  | None =>
      match (if _state_store w then _load_sync (identity (spec w)) stream f st else Ok 0) with
      | Raise x => (w, Raise x)
      | Ok n => (with_marks (Dict.set stream n (_acknowledged w)) (Dict.set stream n (_persisted w))
                   (Dict.set stream 0%nat (_since_checkpoint w)) w, Ok n)
      end
  end.

Definition checkpoint (stream : string) (f : fault) (w : Worker) (st : StateStore) : Worker * outcome exn Z :=
  if negb (accepting w) then (w, Raise RuntimeError)
  else if negb (matches_stream (event_filter (spec w)) stream) then (w, Ok 0)
  else _current_checkpoint stream f w st.

(** [None]: the caller waits. *)
Definition wait_until (stream : string) (n : Z) (w : Worker) : option (outcome exn unit) :=
  if n <? 0 then Some (Raise ValueError)
  else if n <=? default 0 (Dict.get stream (_acknowledged w)) then Some (Ok tt)
  else match _state w with
  | FAILED | CLOSED => Some (Raise SubscriptionFailed)
  | _ => None
  end.

Definition _save_checkpoint (stream : string) (n : Z) (f : fault) (w : Worker) (st : StateStore)
    : Worker * StateStore * outcome exn unit :=
  let c := mkCheckpoint (identity (spec w)) stream n in
  if negb (valid_checkpoint c) then (w, st, Raise ValueError)
  else let (st, o) := _save_sync c f st in
       match o with
       | Raise x => (w, st, Raise x)
       | Ok _ => (with_marks (_acknowledged w) (Dict.set stream n (_persisted w)) (_since_checkpoint w) w, st, Ok tt)
       end.

Definition _acknowledge (e : envelope) (f : fault) (w : Worker) (st : StateStore) : Worker * StateStore * outcome exn unit :=
  let stream := EventJournal.stream_id e in
  let since := S (default 0%nat (Dict.get stream (_since_checkpoint w))) in
  let saves := _state_store w && (persist_every (checkpoint_policy (spec w)) <=? since)%nat in
  let '(w, st, o) := if saves then _save_checkpoint stream (EventJournal.sequence e) f w st else (w, st, Ok tt) in
  match o with
  | Raise x => (w, st, Raise x)
  | Ok _ => (with_marks (Dict.set stream (EventJournal.sequence e) (_acknowledged w)) (_persisted w)
               (Dict.set stream (if saves then 0%nat else since) (_since_checkpoint w)) w, st, Ok tt)
  end.

(** [_flush_checkpoints] between two awaits: the streams of its snapshot it has to look at, a
    save it asked the store for, one the store answered. *)
Inductive Flush :=
| Checking (items : list (string * Z))
| Saving (stream : string) (n : Z) (items : list (string * Z))
| Saved (stream : string) (n : Z) (items : list (string * Z)).

Definition _flush_checkpoints (w : Worker) : Flush := Checking (if _state_store w then _acknowledged w else []).

(** Its next step: [Ok None] when it returns. *)
Definition flush_step (f : fault) (fl : Flush) (w : Worker) (st : StateStore)
    : Worker * StateStore * outcome exn (option Flush) :=
  match fl with
  | Checking [] => (w, st, Ok None)
  | Checking ((stream, n) :: items) =>
      (w, st, Ok (Some (if default 0 (Dict.get stream (_persisted w)) <? n then Saving stream n items else Checking items)))
  | Saving stream n items =>
      let c := mkCheckpoint (identity (spec w)) stream n in
      if negb (valid_checkpoint c) then (w, st, Raise ValueError)
      else let (st, o) := _save_sync c f st in
           (w, st, match o with Ok _ => Ok (Some (Saved stream n items)) | Raise x => Raise x end)
  | Saved stream n items =>
      (with_marks (_acknowledged w) (Dict.set stream n (_persisted w)) (Dict.set stream 0%nat (_since_checkpoint w)) w,
       st, Ok (Some (Checking items)))
  end.

Definition _quarantine (e : envelope) (n : nat) (x : exn) (first now : Z) (f : fault) (w : Worker) (st : StateStore)
    : Worker * StateStore * outcome exn unit :=
  let c := mkCheckpoint (identity (spec w)) (EventJournal.stream_id e) (EventJournal.sequence e) in
  let d := mkEntry (identity (spec w)) e n (describe x) first now in
  if negb (valid_checkpoint c) || negb (valid_entry d) then (w, st, Raise ValueError)
  else let (st, o) := quarantine d c f st in
       match o with
       | Raise x => (w, st, Raise x)
       | Ok _ => (with_marks (Dict.set (EventJournal.stream_id e) (EventJournal.sequence e) (_acknowledged w))
                    (Dict.set (EventJournal.stream_id e) (EventJournal.sequence e) (_persisted w))
                    (Dict.set (EventJournal.stream_id e) 0%nat (_since_checkpoint w)) w, st, Ok tt)
       end.

(** [_process] returns [False], and [_run] with it. *)
Definition _mark_failed (x : exn) (w : Worker) : Worker :=
  mkWorker (spec w) (_state_store w) (abort (_mailbox w)) FAILED Returned (Some x)
    (_acknowledged w) (_persisted w) (_since_checkpoint w).

(** [_process] returns [True]; an exception that leaves it ends the task. *)
Definition processed (w : Worker) : Worker :=
  let (m, o) := task_done (_mailbox w) in
  with_task (match o with Ok _ => Alive Taking | Raise x => Died (mailbox_exn x) end) (with_mailbox m w).

(** ** The steps of [_run] *)

(** What became of an event: its number was behind the checkpoint, its type is not asked for,
    its handler succeeded, it was quarantined, or given up. *)
Inductive Settlement := Old | Filtered | Handled | DeadLettered | GivenUp.
Notation report := (option (envelope * Settlement)).

(** The handler returns, raises (a timeout included), or lets a cancellation escape. *)
Inductive Handling := Succeeds | Fails (text : string) | Cancels.

Definition _run (w : Worker) : option (Worker * report) :=
  match get (_mailbox w) with
  | None => None
  | Some (m, Ok e) => Some (with_task (Alive (Fresh e)) (with_mailbox m w), None)
  | Some (m, Raise _) => Some (with_task Returned (with_mailbox m w), None)
  end.

(** [_process] up to its loop. *)
Definition _process (e : envelope) (load save : fault) (w : Worker) (st : StateStore) : Worker * StateStore * report :=
  let (w, o) := _current_checkpoint (EventJournal.stream_id e) load w st in
  match o with
  | Raise x => (with_task (Died x) w, st, None)
  | Ok n =>
      if EventJournal.sequence e <=? n then (processed w, st, Some (e, Old))
      else if negb (matches_event_type (event_filter (spec w)) (EventJournal.event_type e))
      then let '(w, st, o) := _acknowledge e save w st in
           match o with
           | Raise x => (with_task (Died x) w, st, None)
           | Ok _ => (processed w, st, Some (e, Filtered))
           end
      else (with_task (Alive (Attempting e 1 None)) w, st, None)
  end.

(** After the last attempt. *)
Definition exhausted (e : envelope) (x : exn) (first now : Z) (f : fault) (w : Worker) (st : StateStore)
    : Worker * StateStore * report :=
  match reliability (spec w) with
  | RELIABLE =>
      let '(w, st, o) := _quarantine e (max_attempts (retry (spec w))) x first now f w st in
      match o with
      | Raise x => (_mark_failed x w, st, None)
      | Ok _ => (processed (with_state DEGRADED w), st, Some (e, DeadLettered))
      end
  | LIVE | LOSSY =>
      let '(w, st, o) := _acknowledge e f (with_state DEGRADED w) st in
      match o with
      | Raise x => (with_task (Died x) w, st, None)
      | Ok _ => (processed w, st, Some (e, GivenUp))
      end
  | DURABLE => (_mark_failed x w, st, None)
  end.

(** One round of the loop; [now] and [now'] are the clock at a failure and at a quarantine. *)
Definition attempt (e : envelope) (k : nat) (first : option Z) (h : Handling) (now now' : Z) (save settle : fault)
    (w : Worker) (st : StateStore) : Worker * StateStore * report :=
  let '(w, st, o) := match h with
    | Succeeds => _acknowledge e save w st
    | Fails text => (w, st, Raise (HandlerError text))
    | Cancels => (w, st, Raise CancelledError)
    end in
  match o with
  | Ok _ => (processed w, st, Some (e, Handled))
  | Raise CancelledError => (with_task (Died CancelledError) w, st, None)
  | Raise x =>
      let first := default now first in
      if (k <? max_attempts (retry (spec w)))%nat
      then (with_task (Alive (Attempting e (S k) (Some first))) w, st, None)
      else exhausted e x first now' settle w st
  end.

(** What the world decides about the next step of a task. *)
Record Choices := mkChoices { handling : Handling; clock : Z; clock' : Z; fault1 : fault; fault2 : fault }.

Definition step (c : Choices) (w : Worker) (st : StateStore) : option (Worker * StateStore * report) :=
  match _task w with
  | Alive Taking => match _run w with Some (w, r) => Some (w, st, r) | None => None end
  | Alive (Fresh e) => Some (_process e (fault1 c) (fault2 c) w st)
  | Alive (Attempting e k first) => Some (attempt e k first (handling c) (clock c) (clock' c) (fault1 c) (fault2 c) w st)
  | _ => None
  end.

(** ** Draining and closing *)

(** [drain], up to its flush; [None]: the caller waits for the mailbox. *)
Definition drain (w : Worker) : option (outcome exn Flush) :=
  match _state w with
  | FAILED => Some (Raise SubscriptionFailed)
  | _ => if joined (_mailbox w) then Some (Ok (_flush_checkpoints w)) else None
  end.

Definition unless_failed (s : SubscriptionState) (w : Worker) : Worker :=
  match _state w with FAILED => w | _ => with_state s w end.

(** [aclose]: [true] when it goes on to drain; a handler lets itself be cancelled. *)
Definition aclose (drains : bool) (w : Worker) : Worker * bool :=
  match _state w with
  | CLOSED => (w, false)
  | NEW => (with_state CLOSED (with_mailbox (close (_mailbox w)) w), false)
  | _ =>
      if drains then (w, true)
      else let w := unless_failed DRAINING w in
           (unless_failed CLOSED (with_task NoTask (with_mailbox (abort (_mailbox w)) w)), false)
  end.

(** A draining [aclose] after its drain, up to the point where it awaits the task. *)
Definition aclose_drained (w : Worker) : Worker :=
  let w := unless_failed DRAINING w in with_mailbox (close (_mailbox w)) w.

(** The rest of a draining [aclose]: [None] while the task runs. *)
Definition aclose_finish (w : Worker) : option (Worker * outcome exn unit) :=
  match _task w with
  | Alive _ => None
  | Died x => Some (w, Raise x)
  | Returned | NoTask => Some (unless_failed CLOSED (with_task NoTask w), Ok tt)
  end.

(** [u]: the draw of [random.uniform]. *)
Definition _retry_delay (n : nat) (u : Q) (w : Worker) : Q :=
  let r := retry (spec w) in
  let grown := (initial_delay_seconds r * inject_Z (2 ^ (Z.of_nat n - 1)))%Q in
  let base := if Qle_bool (maximum_delay_seconds r) grown then maximum_delay_seconds r else grown in
  if Qeq_bool base 0 || Qeq_bool (jitter_ratio r) 0 then base
  else if Qle_bool (base + u) 0 then 0%Q else (base + u)%Q.

#[global] Instance Settlement_eq_dec : EqDecision Settlement.
Proof. solve_decision. Defined.

End Worker.
Arguments Worker : clear implicits.
Arguments Choices : clear implicits.
End SubscriptionWorker.
