(* ===== verification/EventWorker.v ===== *)
(** * What a subscription worker keeps

    The invariants of a worker of [EventSubscription.v] and of the store it shares: what it
    acknowledged is never behind what it saved, its mailbox counts the events it owes an
    answer, and, where the numbers of a stream arrive without gaps, a step moves the
    acknowledged number by one, and only past an event it settled. *)

From S2P Require Import Prelude Text Json Ledger EventJournal EventSubscription.
From Stdlib Require Import String.
From stdpp Require Import base list strings gmap.

Open Scope string_scope.
Open Scope list_scope.
Open Scope Z_scope.

(** * Numbers without gaps *)
Module Gapless.

(** No number is more than one above everything before it, [m] included. *)
Fixpoint gapless (m : Z) (l : list Z) : Prop :=
  match l with [] => True | x :: l => x <= m + 1 /\ gapless (Z.max m x) l end.

Fixpoint top (m : Z) (l : list Z) : Z := match l with [] => m | x :: l => top (Z.max m x) l end.

Lemma top_app m l l' : top m (l ++ l') = top (top m l) l'.
Proof. revert m. induction l as [|x l IH]; intros m; cbn; [done|apply IH]. Qed.

Lemma gapless_app m l l' : gapless m (l ++ l') <-> gapless m l /\ gapless (top m l) l'.
Proof. revert m. induction l as [|x l IH]; intros m; cbn; [tauto|]. rewrite IH. tauto. Qed.

Lemma top_ge m l : m <= top m l.
Proof. revert m. induction l as [|x l IH]; intros m; cbn; [lia|]. specialize (IH (Z.max m x)). lia. Qed.

Lemma top_max m l : top m l = Z.max m (top m l).
Proof. pose proof (top_ge m l). lia. Qed.

Lemma gapless_mono m m' l : m <= m' -> gapless m l -> gapless m' l.
Proof.
  revert m m'. induction l as [|x l IH]; intros m m' Hm; cbn; [done|]. intros [Hx Hl]. split; [lia|].
  apply (IH (Z.max m x)); [lia|done].
Qed.

Lemma top_mono m m' l : m <= m' -> top m l <= top m' l.
Proof. revert m m'. induction l as [|x l IH]; intros m m' Hm; cbn; [done|]. apply IH. lia. Qed.

Lemma top_le m n l : m <= n -> (forall x, x ∈ l -> x <= n) -> top m l <= n.
Proof.
  revert m. induction l as [|x l IH]; intros m Hm Hl; cbn; [done|]. apply IH.
  - specialize (Hl x ltac:(left)). lia.
  - intros y Hy. apply Hl. by right.
Qed.

Lemma gapless_snoc m l x : gapless m l -> x <= top m l + 1 -> gapless m (l ++ [x]) /\ top m (l ++ [x]) = Z.max (top m l) x.
Proof. intros Hl Hx. split; [|by rewrite top_app]. apply gapless_app. by split; [|split]. Qed.

End Gapless.

(** * Invariants *)
Module WorkerFacts.
Import Subscription SubscriptionMailbox SubscriptionStateStore SubscriptionWorker Gapless.

Section Facts.
Context {Rest : Type} `{codec : EventJournal.RecordCodec Rest} (describe : exn -> string).
Notation envelope := (EventJournal.EventEnvelope Rest).
Notation worker := (Worker Rest).
Notation id w := (identity (spec w)).
Notation seq := EventJournal.sequence.
Notation stream := EventJournal.stream_id.

Implicit Types (w : worker) (e : envelope).

(** What the store gives a worker that asks for a stream, and what it counts as done. *)
Definition base (w : worker) (st : StateStore) (s : string) : Z := if _state_store w then stored st (id w) s else 0.
Definition eff (w : worker) (st : StateStore) (s : string) : Z := default (base w st s) (Dict.get s (_acknowledged w)).

Definition in_hand (t : Task) : list envelope :=
  match t with Alive (Fresh e) | Alive (Attempting e _ _) => [e] | _ => [] end.

Definition queue (w : worker) : list envelope := in_hand (_task w) ++ _items (_mailbox w).

(** The numbers of the events of a stream it has not answered yet. *)
Definition pending (w : worker) (s : string) : list Z := seq <$> filter (fun e => stream e = s) (queue w).

Definition taken (t : Task (Rest := Rest)) : nat :=
  match t with Alive (Fresh _) | Alive (Attempting _ _ _) | Died _ => 1 | _ => 0 end.

(** The marks agree with the store. *)
Record kept (w : worker) (st : StateStore) : Prop := {
  k_spec : valid_spec (spec w) = true;
  k_store : recoverable (reliability (spec w)) = true -> _state_store w = true;
  k_ack : forall s n, Dict.get s (_acknowledged w) = Some n -> base w st s <= n;
  k_persisted : forall s n, _state_store w = true -> Dict.get s (_persisted w) = Some n -> n <= stored st (id w) s;
  k_keys : NoDup (Dict.keys (_acknowledged w))
}.

(** An event is handled only past the acknowledged number, and in one of the attempts. *)
Definition phase_ok (w : worker) : Prop :=
  match _task w with
  | Alive (Attempting e k _) =>
      (exists n, Dict.get (stream e) (_acknowledged w) = Some n /\ n < seq e) /\ (1 <= k <= max_attempts (retry (spec w)))%nat
  | _ => True
  end.

Record sound (w : worker) (st : StateStore) : Prop := {
  s_kept : kept w st;
  s_mail : mailbox_ok (capacity (spec w)) (taken (_task w)) (_mailbox w);
  s_phase : phase_ok w;
  s_new : _state w = NEW -> _task w = NoTask
}.

(** The events of every stream wait without gaps behind what is done. *)
Definition fed (w : worker) (st : StateStore) : Prop := forall s, gapless (eff w st s) (pending w s).

(** The store of the others is left alone, checkpoints only grow and dead letters stay. *)
Record store_grows (i : string) (st st' : StateStore) : Prop := {
  g_other : forall i' s, i' <> i -> stored st' i' s = stored st i' s;
  g_own : forall s, stored st i s <= stored st' i s;
  g_dead : forall key r, dead_letters st !! key = Some r ->
           exists r', dead_letters st' !! key = Some r' /\ row_event_id r' = row_event_id r;
  g_open : _connection st' = _connection st
}.

#[global] Instance store_grows_refl i : Reflexive (store_grows i).
Proof. intros st. split; [done|done|eauto|done]. Qed.

#[global] Instance store_grows_trans i : Transitive (store_grows i).
Proof.
  intros a b c [H1 H2 H3 H7] [H4 H5 H6 H8]. split.
  - intros i' s Hi. by rewrite H4, H1.
  - intros s. specialize (H2 s). specialize (H5 s). lia.
  - intros key r Hr. destruct (H3 _ _ Hr) as (r' & Hr' & E). destruct (H6 _ _ Hr') as (r'' & Hr'' & E').
    exists r''. split; [done|congruence].
  - congruence.
Qed.

Lemma advanced_store_grows c st st' :
  0 <= cp_sequence c -> advanced c st st' ->
  (forall key r, dead_letters st !! key = Some r -> exists r', dead_letters st' !! key = Some r' /\ row_event_id r' = row_event_id r) ->
  store_grows (cp_identity c) st st'.
Proof.
  intros Hc Ha Hd. split; [| |done|apply Ha].
  - intros i' s Hi. rewrite (stored_advanced _ _ _ _ _ Ha). by rewrite decide_False by congruence.
  - intros s. by apply (advanced_grows c).
Qed.

(** Everything but the marks is the same. *)
Definition same_but_marks (w w' : worker) : Prop :=
  exists a p c, w' = with_marks a p c w.

Lemma with_marks_id w : w = with_marks (_acknowledged w) (_persisted w) (_since_checkpoint w) w.
Proof. by destruct w. Qed.

Lemma base_marks a p c w st s : base (with_marks a p c w) st s = base w st s.
Proof. done. Qed.

Lemma eff_marks a p c w st s : eff (with_marks a p c w) st s = default (base w st s) (Dict.get s a).
Proof. done. Qed.

(** A stream is marked as done up to [n], which the store does not exceed. *)
Lemma marked_kept s n p c w st st' :
  kept w st -> base w st' s <= n -> (forall s', s' <> s -> base w st' s' = base w st s') ->
  (forall s' m, _state_store w = true -> Dict.get s' p = Some m -> m <= stored st' (id w) s') ->
  kept (with_marks (Dict.set s n (_acknowledged w)) p c w) st'
  /\ (forall s', eff (with_marks (Dict.set s n (_acknowledged w)) p c w) st' s' = if decide (s' = s) then n else eff w st s').
Proof.
  intros [H1 H2 H3 H4 H5] Hb Ho Hp. split.
  - split; [done|done| |done|by apply Dict.NoDup_keys_set]. intros s' m. rewrite base_marks. cbn [_acknowledged with_marks].
    destruct (decide (s' = s)) as [->|Hne].
    + rewrite Dict.get_set_eq. by intros [= <-].
    + rewrite Dict.get_set_ne by done. rewrite Ho by done. apply H3.
  - intros s'. rewrite eff_marks. case_decide as Hs.
    + subst. by rewrite Dict.get_set_eq.
    + rewrite Dict.get_set_ne by done. unfold eff. by rewrite Ho.
Qed.

(** ** The calls on the store *)

Lemma load_base s f w st n :
  (if _state_store w then _load_sync (id w) s f st else Ok 0) = Ok n -> n = base w st s.
Proof.
  unfold base. destruct (_state_store w); [|by intros [= <-]]. unfold _load_sync.
  intros (_ & _ & E)%outcome_bind_ok. destruct f; [done|]. by injection E as <-.
Qed.

Lemma current_checkpoint_spec s f w st w' o :
  kept w st -> _current_checkpoint s f w st = (w', o) ->
  kept w' st /\ same_but_marks w w' /\ (forall s', eff w' st s' = eff w st s')
  /\ match o with Ok n => Dict.get s (_acknowledged w') = Some n /\ n = eff w st s | Raise _ => w' = w end.
Proof.
  intros Hk. unfold _current_checkpoint, same_but_marks. destruct (Dict.get s (_acknowledged w)) as [n|] eqn:En.
  { intros [= <- <-]. split_and!; try done; [|by unfold eff; rewrite En].
    eexists _, _, _. apply with_marks_id. }
  destruct (if _state_store w then _ else _) as [n|x] eqn:E.
  - apply load_base in E. intros [= <- <-].
    destruct (marked_kept s n (Dict.set s n (_persisted w)) (Dict.set s 0%nat (_since_checkpoint w)) w st st Hk) as [H1 H2].
    + lia.
    + done.
    + intros s' m Hst. destruct (decide (s' = s)) as [->|Hne].
      * rewrite Dict.get_set_eq. intros [= <-]. rewrite E. unfold base. by rewrite Hst.
      * rewrite Dict.get_set_ne by done. by apply Hk.
    + assert (n = eff w st s) as Hn by by unfold eff; rewrite En.
      split_and!; [done|by eexists _, _, _|..].
      * intros s'. rewrite H2. case_decide as Hs; [by subst|done].
      * apply Dict.get_set_eq.
      * done.
  - intros [= <- <-]. split_and!; try done. eexists _, _, _. apply with_marks_id.
Qed.

Lemma save_checkpoint_spec s n f w st w' st' o :
  _save_checkpoint s n f w st = (w', st', o) ->
  match o with
  | Raise _ => w' = w /\ st' = st
  | Ok _ => w' = with_marks (_acknowledged w) (Dict.set s n (_persisted w)) (_since_checkpoint w) w
            /\ advanced (mkCheckpoint (id w) s n) st st' /\ dead_letters st' = dead_letters st /\ 0 <= n
  end.
Proof.
  unfold _save_checkpoint, valid_checkpoint. cbn [cp_sequence]. destruct (Z.leb_spec 0 n); cbn [negb]; [|by intros [= <- <- <-]].
  destruct (_save_sync _ f st) as [st1 o1] eqn:E. apply save_sync_spec in E. destruct o1; intros [= <- <- <-]; [|done].
  destruct E. by split_and!.
Qed.

Lemma saved_grows s n w st st' :
  0 <= n -> advanced (mkCheckpoint (id w) s n) st st' -> dead_letters st' = dead_letters st -> store_grows (id w) st st'.
Proof.
  intros Hn Ha Hd. apply (advanced_store_grows (mkCheckpoint (id w) s n)); [done|done|]. intros key r Hr. exists r. by rewrite Hd.
Qed.

Lemma base_advanced s n w st st' s' :
  _state_store w = true -> advanced (mkCheckpoint (id w) s n) st st' ->
  base w st' s' = if decide (s' = s) then n else base w st s'.
Proof.
  intros Hst Ha. unfold base. rewrite Hst, (stored_advanced _ _ _ _ _ Ha). cbn.
  destruct (decide (s' = s)) as [->|]; [by rewrite decide_True|]. by rewrite decide_False by congruence.
Qed.

Lemma persisted_after s n w st st' :
  kept w st -> 0 <= n -> advanced (mkCheckpoint (id w) s n) st st' ->
  forall s' m, _state_store w = true -> Dict.get s' (Dict.set s n (_persisted w)) = Some m -> m <= stored st' (id w) s'.
Proof.
  intros Hk Hn Ha s' m Hst. rewrite (stored_advanced _ _ _ _ _ Ha). cbn. destruct (decide (s' = s)) as [->|Hne].
  - rewrite Dict.get_set_eq, decide_True by done. by intros [= <-].
  - rewrite Dict.get_set_ne by done. rewrite decide_False by congruence. by apply Hk.
Qed.

(** An acknowledgement marks the event, and saves the mark when it is due. *)
Lemma acknowledge_spec e f w st w' st' o :
  kept w st -> eff w st (stream e) <= seq e -> _acknowledge e f w st = (w', st', o) ->
  match o with
  | Raise _ => w' = w /\ st' = st
  | Ok _ => kept w' st' /\ same_but_marks w w' /\ store_grows (id w) st st' /\ dead_letters st' = dead_letters st
            /\ (forall s, eff w' st' s = if decide (s = stream e) then seq e else eff w st s)
  end.
Proof.
  intros Hk He. unfold _acknowledge. cbv zeta. set (saves := _state_store w && _).
  assert (base w st (stream e) <= seq e) as Hb.
  { unfold eff in He. destruct (Dict.get _ _) eqn:En in He; [|done]. cbn in He. pose proof (k_ack _ _ Hk _ _ En). lia. }
  destruct saves eqn:Es.
  - destruct (_save_checkpoint _ _ f w st) as [[w1 st1] o1] eqn:E. apply save_checkpoint_spec in E.
    destruct o1 as [[]|x]; [|intros [= <- <- <-]; by destruct E]. destruct E as (-> & Ha & Hd & Hn). intros [= <- <- <-].
    unfold saves in Es. apply andb_true_iff in Es as [Es _].
    edestruct (marked_kept (stream e) (seq e)) as [H1 H2]; [exact Hk|..|split_and!; [exact H1|by eexists _, _, _|by eapply saved_grows|done|exact H2]].
    + by rewrite (base_advanced _ _ _ _ _ _ Es Ha), decide_True.
    + intros s' Hs'. by rewrite (base_advanced _ _ _ _ _ _ Es Ha), decide_False.
    + by apply (persisted_after _ _ _ st).
  - intros [= <- <- <-].
    edestruct (marked_kept (stream e) (seq e)) as [H1 H2]; [exact Hk|..|split_and!; [exact H1|by eexists _, _, _|done|done|exact H2]].
    + done.
    + done.
    + apply Hk.
Qed.

(** A quarantine files the event, marks it and saves the mark in one transaction. *)
Lemma quarantine_worker_spec e n x first now f w st w' st' o :
  kept w st -> _state_store w = true -> _quarantine describe e n x first now f w st = (w', st', o) ->
  match o with
  | Raise _ => w' = w /\ st' = st
  | Ok _ => kept w' st' /\ same_but_marks w w' /\ store_grows (id w) st st'
            /\ (forall s, eff w' st' s = if decide (s = stream e) then seq e else eff w st s)
            /\ exists r, dead_letters st' !! (id w, stream e, seq e) = Some r /\ row_event_id r = EventJournal.event_id e
  end.
Proof.
  intros Hk Hst. unfold _quarantine, valid_checkpoint. cbn [cp_sequence].
  destruct (Z.leb_spec 0 (seq e)); cbn [negb orb]; [|by intros [= <- <- <-]].
  destruct (negb (valid_entry _)); [by intros [= <- <- <-]|].
  destruct (quarantine _ _ f st) as [st1 o1] eqn:E. pose proof (quarantine_spec _ _ _ _ _ _ E) as Hq.
  destruct o1 as [[]|y]; intros [= <- <- <-]; [|done]. destruct Hq as (Ha & Hd & Hr).
  edestruct (marked_kept (stream e) (seq e)) as [H1 H2]; [exact Hk|..|split_and!; [exact H1|by eexists _, _, _| |exact H2|]].
  - by rewrite (base_advanced _ _ _ _ _ _ Hst Ha), decide_True.
  - intros s' Hs'. by rewrite (base_advanced _ _ _ _ _ _ Hst Ha), decide_False.
  - by apply (persisted_after _ _ _ st).
  - apply (advanced_store_grows (mkCheckpoint (id w) (stream e) (seq e))); [done|done|]. intros key r Hk'. rewrite Hd.
    destruct (decide (key = entry_key (mkEntry (id w) e n (describe x) first now))) as [->|Hne].
    + rewrite lookup_insert_eq. eexists. split; [done|]. by rewrite Hk'.
    + rewrite lookup_insert_ne by done. eauto.
  - rewrite Hd. rewrite lookup_insert_eq. by eexists.
Qed.

(** ** One step *)

(** The event a step moved its stream to. *)
Definition settled (r : option (envelope * Settlement)) : option envelope :=
  match r with Some (_, Old) | None => None | Some (e, _) => Some e end.

(** Why an event counts as done. *)
Definition justified (c : Choices) (w : worker) (st' : StateStore) (e : envelope) (k : Settlement) : Prop :=
  match k with
  | Old => True
  | Filtered => matches_event_type (event_filter (spec w)) (EventJournal.event_type e) = false
  | Handled => handling c = Succeeds
  | DeadLettered =>
      reliability (spec w) = RELIABLE
      /\ exists r, dead_letters st' !! (id w, stream e, seq e) = Some r /\ row_event_id r = EventJournal.event_id e
  | GivenUp => recoverable (reliability (spec w)) = false
  end.

Record stepped (c : Choices) (w : worker) (st : StateStore) (w' : worker) (st' : StateStore)
    (r : option (envelope * Settlement)) : Prop := {
  st_sound : sound w' st';
  st_spec : spec w' = spec w /\ _state_store w' = _state_store w;
  st_grows : store_grows (id w) st st';
  st_eff : forall s, eff w' st' s
           = match settled r with Some e => if decide (s = stream e) then seq e else eff w st s | None => eff w st s end;
  st_queue : match _task w' with
             | Alive _ => queue w = match r with Some (e, _) => e :: queue w' | None => queue w' end
             | _ => True
             end;
  st_why : forall e k, r = Some (e, k) ->
           justified c w st' e k /\ (exists l, queue w = e :: l)
           /\ match k with Old => seq e <= eff w st (stream e) | _ => eff w st (stream e) < seq e end
}.

Lemma started w st : sound w st -> _task w <> NoTask -> _state w <> NEW.
Proof. intros Hs Ht E. by apply (s_new _ _ Hs) in E. Qed.

Lemma processed_spec w st :
  kept w st -> mailbox_ok (capacity (spec w)) 1 (_mailbox w) -> _state w <> NEW ->
  sound (processed w) st /\ spec (processed w) = spec w /\ _state_store (processed w) = _state_store w
  /\ (forall s, eff (processed w) st s = eff w st s) /\ queue (processed w) = _items (_mailbox w)
  /\ _task (processed w) = Alive Taking.
Proof.
  intros Hk Hm Hns. destruct (task_done_ok _ _ Hm) as (m & E & Hm' & Hi & _). unfold processed. rewrite E.
  split; [|split_and!; try done; cbn; by rewrite Hi]. split; [|done|done|done].
  destruct Hk as [H1 H2 H3 H4 H5]. by split.
Qed.

(** The worker that holds an event and marked it goes on to the next. *)
Lemma marked_stepped c e k w st w1 st' :
  sound w st -> in_hand (_task w) = [e] -> kept w1 st' -> _state w1 <> NEW ->
  spec w1 = spec w -> _state_store w1 = _state_store w -> _mailbox w1 = _mailbox w -> store_grows (id w) st st' ->
  justified c w st' e k ->
  match k with
  | Old => seq e <= eff w st (stream e) /\ (forall s, eff w1 st' s = eff w st s)
  | _ => eff w st (stream e) < seq e /\ (forall s, eff w1 st' s = if decide (s = stream e) then seq e else eff w st s)
  end ->
  stepped c w st (processed w1) st' (Some (e, k)).
Proof.
  intros Hs Hh Hk Hns Hsp Hst Hmb Hg Hj He.
  assert (mailbox_ok (capacity (spec w1)) 1 (_mailbox w1)) as Hm.
  { rewrite Hmb, Hsp. destruct Hs as [_ Hm _ _]. by destruct (_task w) as [|[| |]| |]. }
  destruct (processed_spec w1 st' Hk Hm Hns) as (H1 & H2 & H3 & H4 & H5 & H6).
  split; [done|by rewrite H2, H3|done| |rewrite H6|].
  - intros s. rewrite H4. destruct k; cbn; by destruct He as [_ ->].
  - rewrite H5, Hmb. unfold queue. by rewrite Hh.
  - intros e' k' [= <- <-]. split; [done|]. split; [unfold queue; rewrite Hh; by eexists|by destruct k, He].
Qed.

Lemma died_stepped c x w st w' :
  sound w st -> spec w' = spec w -> _state_store w' = _state_store w -> _mailbox w' = _mailbox w -> kept w' st ->
  (forall s, eff w' st s = eff w st s) -> _state w' <> NEW -> taken (_task w) = 1%nat -> stepped c w st (with_task (Died x) w') st None.
Proof.
  intros Hs Hsp Hst Hmb [H1 H2 H3 H4 H5] He Hns Ht. split; try done.
  split; [by split| |done|done]. cbn. destruct Hs as [_ Hm _ _]. rewrite Ht in Hm. by rewrite Hmb, Hsp.
Qed.

Lemma failed_stepped c x w st : sound w st -> stepped c w st (_mark_failed x w) st None.
Proof.
  intros [[H1 H2 H3 H4 H5] _ _ _]. split; try done. split; [by split| |done|done].
  split; unfold depth; cbn; lia.
Qed.

Lemma run_stepped c w st w' r : sound w st -> _task w = Alive Taking -> _run w = Some (w', r) -> stepped c w st w' st r.
Proof.
  intros Hs Ht. pose proof (started _ _ Hs ltac:(by rewrite Ht)) as Hns. destruct Hs as [[H1 H2 H3 H4 H5] Hm Hp _]. rewrite Ht in Hm. unfold _run. destruct (get (_mailbox w)) as [[m [e|x]]|] eqn:E; [..|done].
  - destruct (get_ok _ _ _ _ Hm E) as [Hm' Hi]. intros [= <- <-]. split; try done.
    cbn. unfold queue. cbn. by rewrite Ht, Hi.
  - unfold get in E. destruct (_items (_mailbox w)) as [|e l]; [|done]. destruct (_closed (_mailbox w)); [|done].
    injection E as <- <-. by intros [= <- <-].
Qed.

Lemma process_stepped c e f1 f2 w st w' st' r :
  sound w st -> _task w = Alive (Fresh e) -> _process e f1 f2 w st = (w', st', r) -> stepped c w st w' st' r.
Proof.
  intros Hs Ht. pose proof (started _ _ Hs ltac:(by rewrite Ht)) as Hns. unfold _process. destruct (_current_checkpoint (stream e) f1 w st) as [w1 o1] eqn:E1.
  destruct (current_checkpoint_spec _ _ _ _ _ _ (s_kept _ _ Hs) E1) as (Hk1 & Hm1 & He1 & Ho1).
  assert (taken (_task w) = 1%nat) as Htk by by rewrite Ht.
  destruct o1 as [n|x]; [|intros [= <- <- <-]; subst w1; by apply died_stepped]. destruct Ho1 as [Hn1 ->].
  destruct (Z.leb_spec (seq e) (eff w st (stream e))) as [Hle|Hlt].
  - intros [= <- <- <-]. destruct Hm1 as (a & p & n & ->). by apply marked_stepped; rewrite ?Ht.
  - destruct (matches_event_type _ _) eqn:Emt; cbn [negb].
    + intros [= <- <- <-]. destruct Hm1 as (a & p & n & ->). split; try done.
      * destruct Hk1 as [H1 H2 H3 H4 H5], Hs as [_ Hmb _ _]. rewrite Htk in Hmb. split; [by split|done| |done]. split.
        -- by eexists.
        -- split; [done|]. by apply valid_spec_attempts.
      * cbn. unfold queue. by rewrite Ht.
    + destruct (_acknowledge e f2 w1 st) as [[w2 st2] o2] eqn:E2.
      apply acknowledge_spec in E2; [|done|rewrite He1; lia]. destruct o2 as [[]|x].
      * destruct E2 as (Hk2 & Hm2 & Hg2 & _ & He2). intros [= <- <- <-].
        destruct Hm1 as (a & p & n & ->), Hm2 as (a' & p' & n' & ->).
        apply marked_stepped; rewrite ?Ht; try done. split; [done|]. intros s. rewrite He2. by case_decide.
      * destruct E2 as [-> ->], Hm1 as (a & p & n & ->). intros [= <- <- <-]. by apply died_stepped.
Qed.

Lemma exhausted_stepped c e k first x now f w st w' st' r :
  sound w st -> _task w = Alive (Attempting e k first) -> exhausted describe e x now (clock' c) f w st = (w', st', r) ->
  stepped c w st w' st' r.
Proof.
  intros Hs Ht. pose proof (started _ _ Hs ltac:(by rewrite Ht)) as Hns. pose proof (s_phase _ _ Hs) as Hp. unfold phase_ok in Hp. rewrite Ht in Hp. destruct Hp as [(n & Hn & Hlt) _].
  assert (eff w st (stream e) < seq e) as He by by unfold eff; rewrite Hn.
  assert (taken (_task w) = 1%nat) as Htk by by rewrite Ht.
  pose proof (s_kept _ _ Hs) as Hk. assert (kept (with_state DEGRADED w) st) as Hkd by by destruct Hk; split.
  unfold exhausted. destruct (reliability (spec w)) eqn:Er.
  - intros [= <- <- <-]. by apply failed_stepped.
  - destruct (_quarantine describe e _ x now (clock' c) f w st) as [[w1 st1] o1] eqn:E1.
    assert (_state_store w = true) as Hst by by apply (k_store _ _ Hk); rewrite Er.
    apply quarantine_worker_spec in E1; [|done|done]. destruct o1 as [[]|y].
    + destruct E1 as (Hk1 & (a & p & m & ->) & Hg & He1 & Hr). intros [= <- <- <-].
      apply marked_stepped; rewrite ?Ht; try done. by destruct Hk1; split.
    + destruct E1 as [-> ->]. intros [= <- <- <-]. by apply failed_stepped.
  - destruct (_acknowledge e f (with_state DEGRADED w) st) as [[w1 st1] o1] eqn:E1.
    apply acknowledge_spec in E1; [|done|change (eff w st (stream e) <= seq e); lia]. destruct o1 as [[]|y].
    + destruct E1 as (Hk1 & (a & p & m & ->) & Hg & _ & He1). intros [= <- <- <-].
      apply marked_stepped; rewrite ?Ht; try done. cbn. by rewrite Er.
    + destruct E1 as [-> ->]. intros [= <- <- <-]. by apply died_stepped.
  - destruct (_acknowledge e f (with_state DEGRADED w) st) as [[w1 st1] o1] eqn:E1.
    apply acknowledge_spec in E1; [|done|change (eff w st (stream e) <= seq e); lia]. destruct o1 as [[]|y].
    + destruct E1 as (Hk1 & (a & p & m & ->) & Hg & _ & He1). intros [= <- <- <-].
      apply marked_stepped; rewrite ?Ht; try done. cbn. by rewrite Er.
    + destruct E1 as [-> ->]. intros [= <- <- <-]. by apply died_stepped.
Qed.

Lemma attempt_stepped c e k first w st w' st' r :
  sound w st -> _task w = Alive (Attempting e k first) ->
  attempt describe e k first (handling c) (clock c) (clock' c) (fault1 c) (fault2 c) w st = (w', st', r) ->
  stepped c w st w' st' r.
Proof.
  intros Hs Ht. pose proof (started _ _ Hs ltac:(by rewrite Ht)) as Hns. pose proof (s_phase _ _ Hs) as Hp. unfold phase_ok in Hp. rewrite Ht in Hp. destruct Hp as [(n & Hn & Hlt) Hk].
  assert (eff w st (stream e) < seq e) as He by by unfold eff; rewrite Hn.
  assert (taken (_task w) = 1%nat) as Htk by by rewrite Ht.
  assert (forall x, stepped c w st (with_task (Died x) w) st None) as Hdie by by intros x; apply died_stepped; try apply Hs.
  assert (forall x, (if (k <? max_attempts (retry (spec w)))%nat
      then (with_task (Alive (Attempting e (S k) (Some (default (clock c) first)))) w, st, None)
      else exhausted describe e x (default (clock c) first) (clock' c) (fault2 c) w st) = (w', st', r) ->
      stepped c w st w' st' r) as Hgo.
  { intros x. destruct (Nat.ltb_spec k (max_attempts (retry (spec w)))); [|by apply (exhausted_stepped _ _ k first)].
    intros [= <- <- <-]. split; try done.
    - destruct Hs as [[H1 H2 H3 H4 H5] Hm _ _]. rewrite Htk in Hm. split; [by split|done| |done]. split; [by exists n|cbn; lia].
    - cbn. unfold queue. by rewrite Ht. }
  unfold attempt. destruct (handling c) eqn:Eh.
  - destruct (_acknowledge e (fault1 c) w st) as [[w1 st1] o1] eqn:E1.
    apply acknowledge_spec in E1; [|apply Hs|lia]. destruct o1 as [[]|y].
    + destruct E1 as (Hk1 & (a & p & m & ->) & Hg & _ & He1). intros [= <- <- <-].
      by apply marked_stepped; rewrite ?Ht.
    + destruct E1 as [-> ->]. destruct y; try apply Hgo. intros [= <- <- <-]. apply Hdie.
  - apply Hgo.
  - intros [= <- <- <-]. apply Hdie.
Qed.

Lemma step_stepped c w st w' st' r :
  sound w st -> step describe c w st = Some (w', st', r) -> stepped c w st w' st' r.
Proof.
  intros Hs. unfold step. destruct (_task w) as [|[|e|e k first]| |] eqn:Ht; [done| | | |done|done].
  - destruct (_run w) as [[w1 r1]|] eqn:E; [|done]. intros [= <- <- <-]. by apply run_stepped.
  - intros [= E]. by apply (process_stepped c e (fault1 c) (fault2 c)).
  - intros [= E]. by apply (attempt_stepped c e k first).
Qed.

(** Fed without gaps, a worker moves a stream only to the next number. *)
Lemma step_fed c w st w' st' r :
  sound w st -> fed w st -> step describe c w st = Some (w', st', r) ->
  match settled r with Some e => seq e = eff w st (stream e) + 1 | None => True end
  /\ match _task w' with
     | Alive _ => fed w' st' /\ forall s, top (eff w' st' s) (pending w' s) = top (eff w st s) (pending w s)
     | _ => True
     end.
Proof.
  intros Hs Hf Hstep. destruct (step_stepped _ _ _ _ _ _ Hs Hstep) as [_ _ _ He Hq Hw].
  assert (match r with Some (e, k) => seq e <= eff w st (stream e) + 1 | None => True end) as Hnext.
  { destruct r as [[e k]|]; [|done]. destruct (Hw e k eq_refl) as (_ & (l & Hl) & _). specialize (Hf (stream e)).
    unfold pending in Hf. rewrite Hl, filter_cons_True in Hf by done. by destruct Hf. }
  split.
  { destruct r as [[e k]|]; [|done]. destruct (Hw e k eq_refl) as (_ & _ & Hk). destruct k; cbn; try done; lia. }
  destruct (_task w') as [|p| |]; try done. assert (forall s, gapless (eff w' st' s) (pending w' s)
      /\ top (eff w' st' s) (pending w' s) = top (eff w st s) (pending w s)) as H; [|by split; intros s; destruct (H s)].
  intros s. specialize (Hf s). specialize (He s). unfold pending in Hf |- *. rewrite Hq in Hf |- *.
  destruct r as [[e k]|]; [|by rewrite He]. destruct (Hw e k eq_refl) as (_ & _ & Hk). cbn in He.
  destruct (decide (stream e = s)) as [Es|Es].
  - rewrite filter_cons_True in Hf |- * by done. cbn in Hf |- *. destruct Hf as [Hx Hf].
    assert (Z.max (eff w st s) (seq e) = eff w' st' s) as Hm; [|by rewrite Hm in Hf |- *].
    rewrite He. subst s. destruct k; cbn; rewrite ?decide_True by done; lia.
  - rewrite filter_cons_False in Hf |- * by done.
    assert (eff w' st' s = eff w st s) as ->; [|done]. rewrite He. destruct k; try done; by rewrite decide_False by congruence.
Qed.

(** ** The other calls *)

(** The task is running, or has not been started yet. *)
Definition live (w : worker) : Prop :=
  match _task w with Alive _ => True | NoTask => _state w = NEW | _ => False end.

#[global] Instance live_dec w : Decision (live w).
Proof. unfold live. destruct (_task w); apply _. Defined.

(** A call that settles nothing: the marks and the queue of a worker that stays alive are the
    same, and so is what it counts as done. *)
Record quiet (w : worker) (st : StateStore) (w' : worker) (st' : StateStore) : Prop := {
  q_sound : sound w' st';
  q_spec : spec w' = spec w /\ _state_store w' = _state_store w;
  q_grows : store_grows (id w) st st';
  q_eff : forall s, eff w' st' s = eff w st s;
  q_live : live w' -> live w /\ queue w' = queue w
}.

Lemma quiet_refl w st : sound w st -> quiet w st w st.
Proof. by split. Qed.

Lemma quiet_trans w1 st1 w2 st2 w3 st3 : quiet w1 st1 w2 st2 -> quiet w2 st2 w3 st3 -> quiet w1 st1 w3 st3.
Proof.
  intros [_ [H2 H2'] H3 H4 H5] [G1 [G2 G2'] G3 G4 G5]. split; [done|split; congruence|..].
  - rewrite H2 in G3. by etrans.
  - intros s. by rewrite G4, H4.
  - intros Hl. destruct (G5 Hl) as [Hl2 ->]. by apply H5.
Qed.

Lemma quiet_fed w st w' st' :
  quiet w st w' st' -> live w' -> fed w st -> fed w' st' /\ forall s, top (eff w' st' s) (pending w' s) = top (eff w st s) (pending w s).
Proof.
  intros [_ _ _ He Hq] Hl Hf. destruct (Hq Hl) as [_ E]. unfold fed, pending in *. rewrite E. split; intros s; by rewrite He.
Qed.

Lemma start_quiet w st w' o : sound w st -> start w = (w', o) -> quiet w st w' st.
Proof.
  intros Hs. unfold start. destruct (_state w) eqn:Es; try (intros [= <- <-]; by apply quiet_refl).
  intros [= <- <-]. pose proof (s_new _ _ Hs Es) as Ht. destruct Hs as [[H1 H2 H3 H4 H5] Hm Hp _]. rewrite Ht in Hm.
  split; try done. intros _. split; [by unfold live; rewrite Ht|]. unfold queue. cbn. by rewrite Ht.
Qed.

Lemma current_quiet s f w st w' o : sound w st -> _current_checkpoint s f w st = (w', o) -> quiet w st w' st.
Proof.
  intros Hs E. destruct (current_checkpoint_spec _ _ _ _ _ _ (s_kept _ _ Hs) E) as (Hk & (a & p & n & ->) & He & Ho).
  destruct Hs as [_ Hm Hp Hn]. split; try done. split; [done|done| |done]. unfold phase_ok in *. cbn.
  destruct (_task w) as [|[| |e k first]| |]; try done. destruct Hp as [(m & Hm' & Hlt) Hk']. split; [|done].
  specialize (He (stream e)). unfold _current_checkpoint in E. unfold eff in He. rewrite Hm' in He.
  destruct (decide (stream e = s)) as [<-|Hne].
  - rewrite Hm' in E. injection E as E _. apply (f_equal _acknowledged) in E. cbn in E. rewrite <- E. by exists m.
  - exists m. split; [|done]. destruct (Dict.get s (_acknowledged w));
      [|destruct (if _state_store w then _ else _)]; apply (f_equal (fun x => _acknowledged x.1)) in E; cbn in E; subst a;
      [done|by rewrite Dict.get_set_ne|done].
Qed.

Lemma checkpoint_quiet s f w st w' o : sound w st -> checkpoint s f w st = (w', o) ->
  quiet w st w' st /\ match o with Ok n => matches_stream (event_filter (spec w)) s = true -> n = eff w st s | Raise _ => True end.
Proof.
  intros Hs. unfold checkpoint. destruct (negb (accepting w)); [intros [= <- <-]; by split; [apply quiet_refl|]|].
  destruct (matches_stream _ s); cbn [negb].
  - intros E. split; [by apply (current_quiet s f _ _ _ o)|].
    destruct (current_checkpoint_spec _ _ _ _ _ _ (s_kept _ _ Hs) E) as (_ & _ & _ & Ho). destruct o; [|done]. by intros _; destruct Ho.
  - intros [= <- <-]. by split; [apply quiet_refl|].
Qed.

(** *** A flush *)

(** What a flush still has to see stored. *)
Definition flush_items (fl : Flush) : list (string * Z) :=
  match fl with Checking items => items | Saving s n items | Saved s n items => (s, n) :: items end.

(** Its numbers were acknowledged, and the store has the one it answered for. *)
Definition flush_ok w (st : StateStore) (fl : Flush) : Prop :=
  (forall s n, (s, n) ∈ flush_items fl -> _state_store w = true /\ n <= eff w st s)
  /\ match fl with Saved s n _ => n <= stored st (id w) s | _ => True end.

(** What is left of a flush: a number is stored, or still on its list. *)
Definition flush_owes w (st : StateStore) (fl : Flush) (s : string) (n : Z) : Prop :=
  n <= Z.max 0 (stored st (id w) s) \/ exists m, (s, m) ∈ flush_items fl /\ n <= m.

(** A worker and its store later on. *)
Record grown w (st : StateStore) w' (st' : StateStore) : Prop := {
  gw_spec : spec w' = spec w /\ _state_store w' = _state_store w;
  gw_eff : forall s, eff w st s <= eff w' st' s;
  gw_stored : forall s, stored st (id w) s <= stored st' (id w) s
}.

Lemma grown_refl w st : grown w st w st.
Proof. done. Qed.

Lemma grown_trans w1 st1 w2 st2 w3 st3 : grown w1 st1 w2 st2 -> grown w2 st2 w3 st3 -> grown w1 st1 w3 st3.
Proof.
  intros [[H1 H1'] H2 H3] [[G1 G1'] G2 G3]. rewrite H1 in G3. split; [split; congruence|..]; intros s.
  - specialize (H2 s). specialize (G2 s). lia.
  - specialize (H3 s). specialize (G3 s). lia.
Qed.

Lemma quiet_grown w st w' st' : quiet w st w' st' -> grown w st w' st'.
Proof. intros [_ Hs Hg He _]. split; [done| |apply Hg]. intros s. by rewrite He. Qed.

Lemma flush_ok_grown w st w' st' fl : grown w st w' st' -> flush_ok w st fl -> flush_ok w' st' fl.
Proof.
  intros [[H1 H1'] H2 H3] [F1 F2]. split.
  - intros s n Hin. destruct (F1 s n Hin) as [F3 F4]. specialize (H2 s). split; [congruence|lia].
  - destruct fl as [|? ? ?|s n items]; try done. rewrite H1. specialize (H3 s). lia.
Qed.

Lemma flush_owes_grown w st w' st' fl s n : grown w st w' st' -> flush_owes w st fl s n -> flush_owes w' st' fl s n.
Proof. intros [[H1 _] _ H3] [H|H]; [left|by right]. specialize (H3 s). rewrite H1. lia. Qed.

(** The mark of a stream that is done up to there at least moves in the store only. *)
Lemma save_quiet s n f w st st' :
  sound w st -> _state_store w = true -> n <= eff w st s -> 0 <= n -> _save_sync (mkCheckpoint (id w) s n) f st = (st', Ok tt) ->
  quiet w st w st' /\ n <= stored st' (id w) s.
Proof.
  intros Hs Hst Hn H0 E. apply save_sync_spec in E as [Ha Hd]. pose proof (s_kept _ _ Hs) as Hk.
  assert (stored st' (id w) s = n) as Hns by (rewrite (stored_advanced _ _ _ _ _ Ha); by rewrite decide_True).
  pose proof (advanced_grows (mkCheckpoint (id w) s n) st st' (id w) s H0 Ha) as Hge.
  assert (forall s', eff w st' s' = eff w st s') as He.
  { intros s'. unfold eff in *. rewrite (base_advanced _ _ _ _ _ s' Hst Ha). case_decide as Hc; [|done]. subst s'.
    destruct (Dict.get s (_acknowledged w)); cbn in *; [done|]. unfold base in *. rewrite Hst in *. lia. }
  split; [|lia]. destruct Hs as [[K1 K2 K3 K4 K5] Hm Hp Hnew]. split; try done; [|by apply (saved_grows s n)].
  split; try done. split; try done.
  - intros s' m Hm'. specialize (He s'). unfold eff in He. rewrite Hm' in He. specialize (K3 s' m Hm').
    rewrite (base_advanced _ _ _ _ _ s' Hst Ha). case_decide as Hc; [|done]. subst s'. unfold eff in Hn. by rewrite Hm' in Hn.
  - intros s' m _ Hm'. specialize (K4 s' m Hst Hm'). pose proof (g_own _ _ _ (saved_grows s n w st st' H0 Ha Hd) s'). lia.
Qed.

Lemma marks_quiet s n c w st :
  sound w st -> n <= stored st (id w) s -> quiet w st (with_marks (_acknowledged w) (Dict.set s n (_persisted w)) c w) st.
Proof.
  intros [[H1 H2 H3 H4 H5] Hm Hp Hn] Hle. split; try done. split; try done. split; try done.
  intros s' m Hst. cbn. destruct (decide (s' = s)) as [->|Hne].
  - rewrite Dict.get_set_eq. by intros [= <-].
  - rewrite Dict.get_set_ne by done. by apply H4.
Qed.

Lemma flush_step_ok f fl w st w' st' o :
  sound w st -> flush_ok w st fl -> flush_step f fl w st = (w', st', o) ->
  quiet w st w' st'
  /\ match o with
     | Ok r => (forall fl', r = Some fl' -> flush_ok w' st' fl')
               /\ (forall s n, flush_owes w st fl s n -> flush_owes w' st' (default (Checking []) r) s n)
     | Raise _ => True
     end.
Proof.
  intros Hs [F1 F2]. destruct fl as [[|[s n] items]|s n items|s n items]; cbn [flush_step flush_items] in *.
  - intros [= <- <- <-]. by split; [apply quiet_refl|].
  - intros [= <- <- <-]. split; [by apply quiet_refl|]. destruct (Z.ltb_spec (default 0 (Dict.get s (_persisted w))) n) as [Hlt|Hge].
    + split; [|done]. by intros fl' [= <-].
    + split; [intros fl' [= <-]; split; [|done]; intros s' m Hin; apply F1; by right|].
      intros s' m [H|(q & [[= -> ->]|Hin]%elem_of_cons & Hq)]; [by left| |right; by exists q]. left.
      destruct (F1 s n ltac:(left)) as [Hst _]. destruct (Dict.get s (_persisted w)) as [p|] eqn:Ep; cbn in Hge; [|lia].
      pose proof (k_persisted _ _ (s_kept _ _ Hs) _ _ Hst Ep). lia.
  - destruct (F1 s n ltac:(left)) as [Hst Hn]. unfold valid_checkpoint. cbn [cp_sequence].
    destruct (Z.leb_spec 0 n) as [H0|]; cbn [negb]; [|intros [= <- <- <-]; by split; [apply quiet_refl|]].
    destruct (_save_sync _ f st) as [st1 o1] eqn:E. destruct o1 as [[]|x]; intros [= <- <- <-].
    + destruct (save_quiet _ _ _ _ _ _ Hs Hst Hn H0 E) as [Hq Hle]. split; [done|]. pose proof (quiet_grown _ _ _ _ Hq) as Hg. split.
      * intros fl' [= <-]. split; [|done]. by apply (flush_ok_grown w st w st1 (Saving s n items)).
      * intros s' m. by apply (flush_owes_grown w st w st1 (Saving s n items)).
    + apply save_sync_spec in E as ->. by split; [apply quiet_refl|].
  - intros [= <- <- <-]. pose proof (marks_quiet s n (Dict.set s 0%nat (_since_checkpoint w)) w st Hs F2) as Hq. split; [done|]. split.
    + intros fl' [= <-]. split; [|done]. intros s' m Hin. apply F1. by right.
    + intros s' m [H|(q & [[= -> ->]|Hin]%elem_of_cons & Hq')]; [by left|left; cbn; lia|right; by exists q].
Qed.

(** When its mailbox is empty a worker holds nothing, and the flush it begins owes all it
    counts as done. *)
Lemma drain_begins w st fl :
  sound w st -> drain w = Some (Ok fl) ->
  flush_ok w st fl
  /\ (live w -> _state_store w = true -> queue w = [] /\ forall s, flush_owes w st fl s (eff w st s)).
Proof.
  intros Hs Hd. assert (joined (_mailbox w) = true /\ fl = _flush_checkpoints w) as [Hj ->].
  { unfold drain in Hd. destruct (_state w); try discriminate; destruct (joined _); try discriminate; by injection Hd as <-. }
  split.
  - split; [|done]. intros s n Hin. unfold _flush_checkpoints in Hin. cbn in Hin. destruct (_state_store w); [|by apply not_elem_of_nil in Hin].
    split; [done|]. unfold eff. apply Dict.elem_get in Hin as ->; [done|apply Hs].
  - intros Hl Hst. split.
    + apply Nat.eqb_eq in Hj. destruct (s_mail _ _ Hs) as [_ Hu]. rewrite Hj in Hu. unfold depth in Hu.
      unfold queue. destruct (_items (_mailbox w)); cbn in Hu; [|lia].
      unfold taken in Hu. destruct (_task w) as [|[| |]| |]; try done; cbn in Hu; lia.
    + intros s. unfold flush_owes, _flush_checkpoints, eff, base. rewrite Hst. cbn.
      destruct (Dict.get s (_acknowledged w)) as [n|] eqn:En; [right|left; cbn; lia]. apply Dict.get_Some_elem in En. by exists n.
Qed.

Lemma unless_failed_quiet x w st : x <> NEW -> sound w st -> quiet w st (unless_failed x w) st.
Proof.
  intros Hx Hs. assert (quiet w st (with_state x w) st) as H.
  { destruct Hs as [[H1 H2 H3 H4 H5] Hm Hp Hnew]. split; try done. intros Hl. split; [|done].
    unfold live in *. cbn in Hl. by destruct (_task w). }
  unfold unless_failed. destruct (_state w); first [exact H|by apply quiet_refl].
Qed.

Lemma unless_failed_state x w : x <> NEW -> _state w <> NEW -> _state (unless_failed x w) <> NEW.
Proof. unfold unless_failed. destruct (_state w) eqn:E; cbn; congruence. Qed.

Lemma close_quiet w st : sound w st -> quiet w st (with_mailbox (close (_mailbox w)) w) st.
Proof. intros [[H1 H2 H3 H4 H5] [Hm1 Hm2] Hp Hn]. by split. Qed.

(** A worker that is cancelled or at its end. *)
Lemma ended_quiet w st m : sound w st -> _state w <> NEW -> mailbox_ok (capacity (spec w)) 0 m ->
  quiet w st (with_task NoTask (with_mailbox m w)) st.
Proof. intros [[H1 H2 H3 H4 H5] _ _ _] Hn Hm. by split. Qed.

Lemma with_mailbox_id w : with_mailbox (_mailbox w) w = w.
Proof. by destruct w. Qed.

Lemma aclose_quiet drains w st : sound w st -> quiet w st (fst (aclose drains w)) st.
Proof.
  intros Hs. unfold aclose. destruct (_state w) eqn:Es.
  1: { pose proof (s_new _ _ Hs Es) as Ht. pose proof Hs as [[H1 H2 H3 H4 H5] [Hm1 Hm2] Hp Hn].
       split; [by split|done|done|done|]. intros _. split; [|done]. unfold live. by rewrite Ht. }
  5: { by apply quiet_refl. }
  all: assert (_state w <> NEW) as Hns by congruence; clear Es; destruct drains; [by apply quiet_refl|]; cbn [fst].
  all: pose proof (unless_failed_quiet DRAINING w st ltac:(done) Hs) as Hq;
    pose proof (unless_failed_state DRAINING w ltac:(done) Hns) as Hns1; (eapply quiet_trans; [exact Hq|]);
    eapply quiet_trans; [apply ended_quiet; [apply Hq|done|]|apply unless_failed_quiet; [done|]].
  all: try (apply ended_quiet; [apply Hq|done|]).
  all: split; unfold depth; cbn; lia.
Qed.

Lemma aclose_drained_quiet w st : sound w st -> quiet w st (aclose_drained w) st.
Proof.
  intros Hs. unfold aclose_drained. pose proof (unless_failed_quiet DRAINING w st ltac:(done) Hs) as Hq.
  eapply quiet_trans; [exact Hq|apply close_quiet, Hq].
Qed.

Lemma aclose_finish_quiet w st w' o : sound w st -> aclose_finish w = Some (w', o) -> quiet w st w' st.
Proof.
  intros Hs. unfold aclose_finish. pose proof (s_mail _ _ Hs) as Hm.
  assert (taken (_task w) = 0%nat -> quiet w st (unless_failed CLOSED (with_task NoTask w)) st) as Hend.
  { intros Ht. rewrite Ht in Hm. destruct (decide (_state w = NEW)) as [Hn|Hns].
    - pose proof (s_new _ _ Hs Hn) as Ht'. destruct Hs as [[H1 H2 H3 H4 H5] _ _ _]. unfold unless_failed. cbn. rewrite Hn.
      by split.
    - pose proof (ended_quiet w st (_mailbox w) Hs Hns Hm) as Hq. rewrite with_mailbox_id in Hq.
      eapply quiet_trans; [exact Hq|]. apply unless_failed_quiet; [done|apply Hq]. }
  destruct (_task w) as [|p| |x] eqn:Ht; [|done| |]; intros [= <- <-]; [by apply Hend|by apply Hend|by apply quiet_refl].
Qed.

(** A publication changes the mailbox only; a recoverable worker queues what it accepts. *)
Lemma publish_spec waited e w st w' o :
  sound w st -> publish waited e w = Some (w', o) ->
  sound w' st /\ (exists m, w' = with_mailbox m w)
  /\ (recoverable (reliability (spec w)) = true ->
      queue w' = match o with
                 | Ok _ => if matches_stream (event_filter (spec w)) (stream e) then queue w ++ [e] else queue w
                 | Raise _ => queue w
                 end).
Proof.
  intros Hs. assert (sound w st /\ (exists m, w = with_mailbox m w)) as [_ Hm] by (split; [done|]; exists (_mailbox w); by rewrite with_mailbox_id).
  unfold publish. destruct (negb waited && negb (accepting w)); [by intros [= <- <-]|].
  destruct (matches_stream _ _) eqn:Ems; cbn [negb]; [|by intros [= <- <-]].
  destruct (negb (recoverable _) && _) eqn:Ert; [intros [= <- <-]; split_and!; try done; intros Hr; by rewrite Hr in Ert|].
  destruct (put _ _ e (_mailbox w)) as [[m o1]|] eqn:E; [|done].
  pose proof (put_ok _ _ _ _ _ _ _ (valid_spec_capacity _ (k_spec _ _ (s_kept _ _ Hs))) (s_mail _ _ Hs) E) as Hmb.
  intros Heq. assert (w' = with_mailbox m w) as -> by by destruct o1; injection Heq as <- _.
  split; [by destruct Hs as [[H1 H2 H3 H4 H5] _ Hp Hn]; split|]. split; [by exists m|]. intros Hr.
  unfold put in E. rewrite (valid_spec_recoverable _ (k_spec _ _ (s_kept _ _ Hs)) Hr) in E. unfold queue.
  destruct (_closed (_mailbox w)); [injection E as <- <-; injection Heq as <-; done|].
  destruct (_ <=? _)%nat; [done|]. injection E as <- <-. injection Heq as <-. cbn. by rewrite app_assoc.
Qed.

Lemma publish_elem waited e w w' o x : publish waited e w = Some (w', o) -> x ∈ queue w' -> x = e \/ x ∈ queue w.
Proof.
  unfold publish. destruct (_ && _); [intros [= <- _]; by right|]. destruct (negb _); [intros [= <- _]; by right|].
  destruct (_ && _); [intros [= <- _]; by right|]. destruct (put _ _ e _) as [[m o1]|] eqn:E; [|done]. intros Heq.
  assert (w' = with_mailbox m w) as -> by by destruct o1; injection Heq as <- _. unfold queue. cbn.
  rewrite !elem_of_app. intros [Hx|Hx]; [by right; left|]. destruct (put_elem _ _ _ _ _ _ _ E Hx); tauto.
Qed.

Lemma publish_fed waited e w st w' o :
  sound w st -> recoverable (reliability (spec w)) = true -> publish waited e w = Some (w', o) ->
  fed w st -> (is_ok o = true -> matches_stream (event_filter (spec w)) (stream e) = true -> seq e <= top (eff w st (stream e)) (pending w (stream e)) + 1) ->
  fed w' st
  /\ (forall s, top (eff w' st s) (pending w' s)
        = if is_ok o && matches_stream (event_filter (spec w)) (stream e) && bool_decide (s = stream e)
          then Z.max (top (eff w st s) (pending w s)) (seq e) else top (eff w st s) (pending w s)).
Proof.
  intros Hs Hr E Hf Hseq. destruct (publish_spec _ _ _ _ _ _ Hs E) as (_ & (m & ->) & Hq). specialize (Hq Hr).
  assert (forall s, eff (with_mailbox m w) st s = eff w st s) as He by done.
  assert (forall s, gapless (eff (with_mailbox m w) st s) (pending (with_mailbox m w) s)
    /\ top (eff (with_mailbox m w) st s) (pending (with_mailbox m w) s)
       = if is_ok o && matches_stream (event_filter (spec w)) (stream e) && bool_decide (s = stream e)
         then Z.max (top (eff w st s) (pending w s)) (seq e) else top (eff w st s) (pending w s)) as H;
    [|by split; intros s; destruct (H s)].
  intros s. specialize (Hf s). rewrite He. unfold pending in *. rewrite Hq. destruct o as [r|x]; [|done]. cbn [is_ok andb] in *.
  destruct (matches_stream _ _); [|done]. cbn [andb]. rewrite filter_app, fmap_app.
  case_bool_decide as Hd.
  - subst s. rewrite filter_cons_True by done. cbn. by apply gapless_snoc; [|apply Hseq].
  - rewrite filter_cons_False by congruence. cbn. by rewrite app_nil_r.
Qed.

(** ** A worker left to itself *)

(** The steps it takes under the given choices, what they report, and whether it came to a
    point where it takes no more. *)
Fixpoint serve (cs : list Choices) (w : worker) (st : StateStore) : worker * StateStore * list (envelope * Settlement) * bool :=
  match cs with
  | [] => (w, st, [], false)
  | c :: cs =>
      match step describe c w st with
      | None => (w, st, [], true)
      | Some (w, st, r) =>
          let '(w, st, rs, b) := serve cs w st in (w, st, match r with Some x => x :: rs | None => rs end, b)
      end
  end.

(** The steps an event can take, and the steps of all the worker has. *)
Definition rounds (w : worker) : nat := max_attempts (retry (spec w)) + 2.

Definition work (w : worker) : nat :=
  match _task w with
  | Alive Taking => 1
  | Alive (Fresh _) => rounds w
  | Alive (Attempting _ k _) => rounds w - k
  | _ => 0
  end + rounds w * depth (_mailbox w).

Lemma work_le w st : sound w st -> (work w <= 1 + rounds w * S (depth (_mailbox w)))%nat.
Proof. intros Hs. unfold work. destruct (_task w) as [|[| |]| |]; unfold rounds; lia. Qed.

Lemma marks_refl w : same_but_marks w w.
Proof. eexists _, _, _. apply with_marks_id. Qed.

Lemma current_marks s f w st w' o : _current_checkpoint s f w st = (w', o) -> same_but_marks w w'.
Proof.
  unfold _current_checkpoint. destruct (Dict.get _ _); [intros [= <- _]; apply marks_refl|].
  destruct (if _state_store w then _ else _); intros [= <- _]; [by eexists _, _, _|apply marks_refl].
Qed.

Lemma save_marks s n f w st w' st' o : _save_checkpoint s n f w st = (w', st', o) -> same_but_marks w w'.
Proof.
  intros E. apply save_checkpoint_spec in E. destruct o as [[]|x]; [destruct E as [-> _]; by eexists _, _, _|].
  destruct E as [-> _]. apply marks_refl.
Qed.

Lemma acknowledge_marks e f w st w' st' o : _acknowledge e f w st = (w', st', o) -> same_but_marks w w'.
Proof.
  unfold _acknowledge. cbv zeta. destruct (_ && _).
  - destruct (_save_checkpoint _ _ f w st) as [[w1 st1] o1] eqn:E. pose proof (save_marks _ _ _ _ _ _ _ _ E) as (a & p & n & ->).
    destruct o1; intros [= <- _ _]; by eexists _, _, _.
  - intros [= <- _ _]. by eexists _, _, _.
Qed.

Lemma quarantine_marks e n x first now f w st w' st' o : _quarantine describe e n x first now f w st = (w', st', o) -> same_but_marks w w'.
Proof.
  unfold _quarantine. destruct (_ || _); [intros [= <- _ _]; apply marks_refl|].
  destruct (quarantine _ _ f st) as [st1 [|]]; intros [= <- _ _]; [by eexists _, _, _|apply marks_refl].
Qed.

(** The answer to an event leaves no more in the mailbox, and its task at the mailbox or at its
    end. *)
Definition answered (w w' : worker) : Prop :=
  spec w' = spec w /\ (depth (_mailbox w') <= depth (_mailbox w))%nat
  /\ match _task w' with Alive Taking | Died _ | Returned => True | _ => False end.

Lemma answered_processed w w1 : spec w1 = spec w -> _mailbox w1 = _mailbox w -> answered w (processed w1).
Proof.
  intros Hs Hm. unfold processed, task_done. rewrite Hm. destruct (_unfinished (_mailbox w)); cbn; by split_and!.
Qed.

Lemma answered_died x w w1 : spec w1 = spec w -> _mailbox w1 = _mailbox w -> answered w (with_task (Died x) w1).
Proof. intros Hs Hm. split_and!; cbn; [done|by rewrite Hm|done]. Qed.

Lemma answered_failed x w w1 : spec w1 = spec w -> answered w (_mark_failed x w1).
Proof. intros Hs. split_and!; cbn; [done|lia|done]. Qed.

Lemma exhausted_answers e x first now f w st w' st' r : exhausted describe e x first now f w st = (w', st', r) -> answered w w'.
Proof.
  unfold exhausted. destruct (reliability (spec w)).
  - intros [= <- _ _]. by apply answered_failed.
  - destruct (_quarantine describe e _ x first now f w st) as [[w1 st1] o] eqn:E. apply quarantine_marks in E as (a & p & n & ->).
    destruct o; intros [= <- _ _]; [by apply answered_processed|by apply answered_failed].
  - destruct (_acknowledge e f _ st) as [[w1 st1] o] eqn:E. apply acknowledge_marks in E as (a & p & n & ->).
    destruct o; intros [= <- _ _]; [by apply answered_processed|by apply answered_died].
  - destruct (_acknowledge e f _ st) as [[w1 st1] o] eqn:E. apply acknowledge_marks in E as (a & p & n & ->).
    destruct o; intros [= <- _ _]; [by apply answered_processed|by apply answered_died].
Qed.

Lemma process_answers e f1 f2 w st w' st' r :
  _process e f1 f2 w st = (w', st', r) ->
  answered w w' \/ (spec w' = spec w /\ _mailbox w' = _mailbox w /\ _task w' = Alive (Attempting e 1 None)).
Proof.
  unfold _process. destruct (_current_checkpoint _ f1 w st) as [w1 o1] eqn:E1. apply current_marks in E1 as (a & p & n & ->).
  destruct o1; [|intros [= <- _ _]; left; by apply answered_died].
  destruct (_ <=? _); [intros [= <- _ _]; left; by apply answered_processed|].
  destruct (negb _); [|intros [= <- _ _]; by right].
  destruct (_acknowledge e f2 _ st) as [[w2 st2] o2] eqn:E2. apply acknowledge_marks in E2 as (a' & p' & n' & ->).
  destruct o2; intros [= <- _ _]; left; [by apply answered_processed|by apply answered_died].
Qed.

Lemma attempt_answers e k first h now now' f1 f2 w st w' st' r :
  attempt describe e k first h now now' f1 f2 w st = (w', st', r) ->
  answered w w'
  \/ (spec w' = spec w /\ _mailbox w' = _mailbox w /\ (k < max_attempts (retry (spec w)))%nat
      /\ exists first', _task w' = Alive (Attempting e (S k) first')).
Proof.
  assert (forall x w1 st1, same_but_marks w w1 ->
      (if (k <? max_attempts (retry (spec w1)))%nat
       then (with_task (Alive (Attempting e (S k) (Some (default now first)))) w1, st1, None)
       else exhausted describe e x (default now first) now' f2 w1 st1) = (w', st', r) ->
      answered w w' \/ (spec w' = spec w /\ _mailbox w' = _mailbox w /\ (k < max_attempts (retry (spec w)))%nat
      /\ exists first', _task w' = Alive (Attempting e (S k) first'))) as Hgo.
  { intros x w1 st1 (a & p & n & ->). cbn [spec with_marks]. destruct (Nat.ltb_spec k (max_attempts (retry (spec w)))).
    - intros [= <- _ _]. right. cbn. split_and!; try done. by eexists.
    - intros E. left. by apply exhausted_answers in E. }
  unfold attempt. destruct h.
  - destruct (_acknowledge e f1 w st) as [[w1 st1] o1] eqn:E1. apply acknowledge_marks in E1. destruct o1 as [[]|y].
    + destruct E1 as (a & p & n & ->). intros [= <- _ _]. left. by apply answered_processed.
    + destruct y; try (by apply Hgo). destruct E1 as (a & p & n & ->). intros [= <- _ _]. left. by apply answered_died.
  - apply Hgo, marks_refl.
  - intros [= <- _ _]. left. by apply answered_died.
Qed.

(** Every step uses up work. *)
Lemma step_works c w st w' st' r : sound w st -> step describe c w st = Some (w', st', r) -> (work w' < work w)%nat.
Proof.
  intros Hs. pose proof (valid_spec_attempts _ (k_spec _ _ (s_kept _ _ Hs))) as Hma. pose proof (s_phase _ _ Hs) as Hp.
  assert (answered w w' -> (2 + rounds w * depth (_mailbox w) <= work w)%nat -> (work w' < work w)%nat) as Hans.
  { intros (Hsp & Hd & Ht) Hle. unfold work at 1. unfold rounds in *. rewrite Hsp.
    destruct (_task w') as [|[| |]| |]; try done; nia. }
  unfold step, phase_ok in *. destruct (_task w) as [|[|e|e k first]| |] eqn:Ht; [done| | | |done|done].
  - unfold _run, get. destruct (_mailbox w) as [l u d o b] eqn:Em. cbn. destruct l as [|e l].
    + destruct b; [|done]. intros [= <- <- <-]. unfold work. rewrite Ht. cbn. lia.
    + intros [= <- <- <-]. unfold work, rounds, depth. rewrite Ht, Em. cbn. lia.
  - intros [= E]. apply process_answers in E as [E|(Hsp & Hm & Ht')].
    + apply (Hans E). unfold work, rounds. rewrite Ht. lia.
    + unfold work, rounds. rewrite Ht, Ht', Hm, Hsp. lia.
  - intros [= E]. apply attempt_answers in E as [E|(Hsp & Hm & Hk & first' & Ht')].
    + apply (Hans E). unfold work, rounds. rewrite Ht. lia.
    + unfold work, rounds. rewrite Ht, Ht', Hm, Hsp. lia.
Qed.

Lemma step_task c w st w' st' r : step describe c w st = Some (w', st', r) -> _task w' <> NoTask.
Proof.
  unfold step. destruct (_task w) as [|[|e|e k first]| |]; [done| | | |done|done].
  - unfold _run. by destruct (get _) as [[m [e|x]]|]; [..|done]; intros [= <- <- <-].
  - intros [= E]. apply process_answers in E as [(_ & _ & E)|(_ & _ & E)]; intros E'; by rewrite E' in E.
  - intros [= E]. apply attempt_answers in E as [(_ & _ & E)|(_ & _ & _ & f & E)]; intros E'; by rewrite E' in E.
Qed.

(** ** With a store that works *)

Definition calm (c : Choices) : Prop := fault1 c = None /\ fault2 c = None /\ handling c <> Cancels.

Lemma save_calm s n w st :
  _connection st = true -> 0 <= n -> stored st (id w) s <= n -> is_ok (_save_checkpoint s n None w st).2 = true.
Proof.
  intros Hc Hn Hle. unfold _save_checkpoint, valid_checkpoint. cbn [cp_sequence]. rewrite (proj2 (Z.leb_le _ _) Hn). cbn [negb].
  unfold _save_sync, _require_connection. rewrite Hc. cbn [outcome_bind].
  by rewrite (save_in_spec (mkCheckpoint (id w) s n) st Hle).
Qed.

Lemma acknowledge_calm e w st w' st' o :
  kept w st -> eff w st (stream e) <= seq e -> 0 <= seq e -> _connection st = true ->
  _acknowledge e None w st = (w', st', o) -> o = Ok tt.
Proof.
  intros Hk He Hn Hc. unfold _acknowledge. cbv zeta. destruct (_state_store w && _) eqn:Es; [|by intros [= _ _ <-]].
  apply andb_true_iff in Es as [Es _].
  assert (stored st (id w) (stream e) <= seq e) as Hle.
  { unfold eff in He. destruct (Dict.get _ _) eqn:En in He; cbn in He; unfold base in He; rewrite ?Es in He; [|done].
    pose proof (k_ack _ _ Hk _ _ En) as Ha. unfold base in Ha. rewrite Es in Ha. lia. }
  pose proof (save_calm _ _ _ _ Hc Hn Hle) as Hok. destruct (_save_checkpoint _ _ None w st) as [[w1 st1] [[]|x]]; [|done].
  by intros [= _ _ <-].
Qed.

Lemma current_calm s w st w' o : _connection st = true -> _current_checkpoint s None w st = (w', o) -> is_ok o = true.
Proof.
  intros Hc. unfold _current_checkpoint. destruct (Dict.get _ _); [by intros [= _ <-]|].
  unfold _load_sync, _require_connection. rewrite Hc. cbn [outcome_bind]. by destruct (_state_store w); intros [= _ <-].
Qed.

Lemma processed_alive w st w1 :
  sound w st -> taken (_task w) = 1%nat -> _mailbox w1 = _mailbox w -> _task (processed w1) = Alive Taking.
Proof.
  intros Hs Ht Hm. pose proof (s_mail _ _ Hs) as Hmb. rewrite Ht in Hmb. unfold processed. rewrite Hm.
  by destruct (task_done_ok _ _ Hmb) as (m & -> & _).
Qed.

Definition alive_or_failed (w : worker) : Prop := (_state w = FAILED /\ _task w = Returned) \/ exists p, _task w = Alive p.

Lemma exhausted_calm e x first now w st w' st' r :
  sound w st -> taken (_task w) = 1%nat -> eff w st (stream e) < seq e -> 0 <= seq e -> _connection st = true ->
  exhausted describe e x first now None w st = (w', st', r) -> alive_or_failed w'.
Proof.
  intros Hs Ht He Hn Hc. pose proof (s_kept _ _ Hs) as Hk. assert (kept (with_state DEGRADED w) st) as Hkd by by destruct Hk; split.
  unfold exhausted. destruct (reliability (spec w)).
  - intros [= <- _ _]. by left.
  - destruct (_quarantine describe e _ x first now None w st) as [[w1 st1] o1] eqn:E. apply quarantine_marks in E as (a & p & n & ->).
    destruct o1; intros [= <- _ _]; [|by left]. right. eexists. by apply (processed_alive w st).
  - destruct (_acknowledge e None _ st) as [[w1 st1] o1] eqn:E. pose proof (acknowledge_marks _ _ _ _ _ _ _ E) as (a & p & n & ->).
    apply acknowledge_calm in E as ->; [|done|change (eff w st (stream e) <= seq e); lia|done|done].
    intros [= <- _ _]. right. eexists. by apply (processed_alive w st).
  - destruct (_acknowledge e None _ st) as [[w1 st1] o1] eqn:E. pose proof (acknowledge_marks _ _ _ _ _ _ _ E) as (a & p & n & ->).
    apply acknowledge_calm in E as ->; [|done|change (eff w st (stream e) <= seq e); lia|done|done].
    intros [= <- _ _]. right. eexists. by apply (processed_alive w st).
Qed.

Lemma process_calm e w st w' st' r :
  sound w st -> taken (_task w) = 1%nat -> 0 <= seq e -> _connection st = true ->
  _process e None None w st = (w', st', r) -> alive_or_failed w'.
Proof.
  intros Hs Ht Hn Hc. unfold _process. destruct (_current_checkpoint _ None w st) as [w1 o1] eqn:E1.
  pose proof (current_calm _ _ _ _ _ Hc E1) as Ho.
  destruct (current_checkpoint_spec _ _ _ _ _ _ (s_kept _ _ Hs) E1) as (Hk1 & (a & p & n & ->) & He1 & Ho1).
  destruct o1 as [m|]; [|done]. destruct Ho1 as [_ ->].
  destruct (Z.leb_spec (seq e) (eff w st (stream e))); [intros [= <- _ _]; right; eexists; by apply (processed_alive w st)|].
  destruct (negb _); [|intros [= <- _ _]; right; by eexists].
  destruct (_acknowledge e None _ st) as [[w2 st2] o2] eqn:E2. pose proof (acknowledge_marks _ _ _ _ _ _ _ E2) as (a' & p' & n' & ->).
  apply acknowledge_calm in E2 as ->; [|done|rewrite He1; lia|done|done].
  intros [= <- _ _]. right. eexists. by apply (processed_alive w st).
Qed.

Lemma attempt_calm e k first h now now' w st w' st' r :
  sound w st -> taken (_task w) = 1%nat -> eff w st (stream e) < seq e -> 0 <= seq e -> _connection st = true -> h <> Cancels ->
  attempt describe e k first h now now' None None w st = (w', st', r) -> alive_or_failed w'.
Proof.
  intros Hs Ht He Hn Hc Hh. unfold attempt. destruct h; [| |done].
  - destruct (_acknowledge e None w st) as [[w1 st1] o1] eqn:E. pose proof (acknowledge_marks _ _ _ _ _ _ _ E) as (a & p & n & ->).
    apply acknowledge_calm in E as ->; [|apply Hs|lia|done|done]. intros [= <- _ _]. right. eexists. by apply (processed_alive w st).
  - destruct (_ <? _)%nat; [intros [= <- _ _]; right; by eexists|]. by apply exhausted_calm.
Qed.

(** The worker reads on, or has nothing left to read. *)
Definition reads_on (w : worker) : Prop := (exists p, _task w = Alive p) \/ (_task w = Returned /\ queue w = []).

(** No step ends the task with an exception. *)
Lemma calm_step c w st w' st' r :
  sound w st -> calm c -> _connection st = true -> (forall e, e ∈ queue w -> 0 <= seq e) ->
  step describe c w st = Some (w', st', r) ->
  (_state w' = FAILED /\ _task w' = Returned)
  \/ (reads_on w' /\ queue w = match r with Some (e, _) => e :: queue w' | None => queue w' end).
Proof.
  intros Hs (Hf1 & Hf2 & Hh) Hc Hn E. pose proof (st_queue _ _ _ _ _ _ (step_stepped _ _ _ _ _ _ Hs E)) as Hq.
  assert (alive_or_failed w' -> (_state w' = FAILED /\ _task w' = Returned)
    \/ (reads_on w' /\ queue w = match r with Some (e, _) => e :: queue w' | None => queue w' end)) as Hd.
  { intros [H|[p Hp]]; [by left|]. right. rewrite Hp in Hq. split; [|done]. left. by exists p. }
  pose proof (s_phase _ _ Hs) as Hph. unfold phase_ok in Hph. unfold queue in Hn. unfold step in E.
  destruct (_task w) as [|[|e|e k first]| |] eqn:Ht; try done.
  - unfold _run, get in E. destruct (_items (_mailbox w)) as [|e l] eqn:Ei; [destruct (_closed _); [|done]|]; injection E as <- <- <-.
    + right. split; [right|]; cbn; unfold queue; cbn; by rewrite ?Ht, Ei.
    + apply Hd. right. by eexists.
  - apply Hd. injection E as E. rewrite Hf1, Hf2 in E. eapply process_calm; [exact Hs|by rewrite Ht|apply Hn; left|done|exact E].
  - apply Hd. injection E as E. rewrite Hf1, Hf2 in E. destruct Hph as [(n & Hn' & Hlt) _].
    eapply attempt_calm; [exact Hs|by rewrite Ht| |apply Hn; left|done|exact Hh|exact E]. unfold eff. by rewrite Hn'.
Qed.

Lemma step_stops c c' w st : step describe c w st = None -> step describe c' w st = None.
Proof. unfold step. by destruct (_task w) as [|[| |]| |]. Qed.

Lemma stopped_empty c w st : step describe c w st = None -> reads_on w -> queue w = [].
Proof.
  intros E [[p Hp]|[_ H]]; [|done]. unfold step in E. unfold queue. rewrite Hp in E |- *. destruct p; try done. cbn.
  unfold _run, get in E. destruct (_items (_mailbox w)); [done|discriminate E].
Qed.

Lemma serve_stops cs w st :
  sound w st -> (work w < length cs)%nat ->
  let '(w', st', rs, stops) := serve cs w st in stops = true /\ sound w' st' /\ forall c, step describe c w' st' = None.
Proof.
  revert w st. induction cs as [|c cs IH]; intros w st Hs Hl; cbn [length serve] in *; [lia|].
  destruct (step describe c w st) as [[[w1 st1] r]|] eqn:E.
  - specialize (IH w1 st1 (st_sound _ _ _ _ _ _ (step_stepped _ _ _ _ _ _ Hs E)) ltac:(pose proof (step_works _ _ _ _ _ _ Hs E); lia)).
    by destruct (serve cs w1 st1) as [[[w2 st2] rs] b].
  - split_and!; [done|done|]. intros c'. by apply (step_stops c).
Qed.

Lemma serve_calm cs w st :
  sound w st -> Forall calm cs -> _connection st = true -> (forall e, e ∈ queue w -> 0 <= seq e) ->
  (_state w = FAILED /\ _task w = Returned) \/ reads_on w ->
  let '(w', st', rs, stops) := serve cs w st in
  stops = true -> _state w' = FAILED \/ queue w' = [] /\ rs.*1 = queue w.
Proof.
  intros Hs Hcs Hc Hn [[Hf Ht]|Hr].
  { destruct cs as [|c cs]; [done|]. cbn [serve]. unfold step. rewrite Ht. by left. }
  revert w st Hs Hc Hn Hr. induction Hcs as [|c cs Hcalm Hcs IH]; intros w st Hs Hc Hn Hr; cbn [serve]; [done|].
  destruct (step describe c w st) as [[[w1 st1] r]|] eqn:E.
  - pose proof (step_stepped _ _ _ _ _ _ Hs E) as H1. destruct (calm_step _ _ _ _ _ _ Hs Hcalm Hc Hn E) as [[Hf Ht]|[Hr1 Hq]].
    + destruct cs as [|c' cs]; [done|]. cbn [serve]. unfold step. rewrite Ht. by left.
    + specialize (IH w1 st1 (st_sound _ _ _ _ _ _ H1) ltac:(by rewrite (g_open _ _ _ (st_grows _ _ _ _ _ _ H1)))).
      destruct (serve cs w1 st1) as [[[w2 st2] rs] b]. intros ->. destruct IH as [H|[H2 H3]]; [|done|done|by left|].
      * intros e He. apply Hn. rewrite Hq. destruct r as [[e' k]|]; [by right|done].
      * right. split; [done|]. rewrite Hq. destruct r as [[e' k]|]; [|done]. rewrite fmap_cons. by rewrite H3.
  - intros _. right. pose proof (stopped_empty _ _ _ E Hr) as Hq. by rewrite Hq.
Qed.

(** C35: whatever its handler does and the store answers, a worker to which nothing more is
    published takes at most as many steps as the attempts allow; and where the store answers
    and no cancellation escapes the handler, it has then settled every event of its queue, in
    order, or failed. *)
Theorem worker_quiesces cs w st :
  sound w st -> (1 + rounds w * S (capacity (spec w)) < length cs)%nat ->
  let '(w', st', rs, stops) := serve cs w st in
  stops = true /\ (forall c, step describe c w' st' = None)
  /\ (reads_on w -> Forall calm cs -> _connection st = true -> (forall e, e ∈ queue w -> 0 <= seq e) ->
      _state w' = FAILED \/ queue w' = [] /\ rs.*1 = queue w).
Proof.
  intros Hs Hl. pose proof (work_le w st Hs) as Hw. pose proof (mb_bound _ _ _ (s_mail _ _ Hs)) as Hb.
  pose proof (serve_stops cs w st Hs ltac:(nia)) as H1.
  assert (reads_on w -> Forall calm cs -> _connection st = true -> (forall e, e ∈ queue w -> 0 <= seq e) ->
    let '(w', st', rs, stops) := serve cs w st in stops = true -> _state w' = FAILED \/ queue w' = [] /\ rs.*1 = queue w) as H2.
  { intros Hr Hc Ho Hn. apply (serve_calm cs w st Hs Hc Ho Hn). by right. }
  destruct (serve cs w st) as [[[w' st'] rs] b]. destruct H1 as (-> & _ & H1). split_and!; [done|done|].
  intros Hr Hc Ho Hn. by apply H2.
Qed.

(** ** A task that died *)

(** Publishing a list of events, as far as the mailbox takes them. *)
Fixpoint publish_all (es : list envelope) (w : worker) : worker * nat :=
  match es with
  | [] => (w, 0%nat)
  | e :: es =>
      match publish false e w with
      | Some (w, Ok (Some _)) => let (w, n) := publish_all es w in (w, S n)
      | Some (w, _) => publish_all es w
      | None => (w, 0%nat)
      end
  end.

Definition wedged (x : exn) (w : worker) (st : StateStore) : Prop :=
  sound w st /\ _task w = Died x /\ accepting w = true /\ recoverable (reliability (spec w)) = true.

Lemma publish_wedged x e w st w' o :
  wedged x w st -> publish false e w = Some (w', o) ->
  wedged x w' st /\ spec w' = spec w
  /\ depth (_mailbox w') = (depth (_mailbox w) + match o with Ok (Some _) => 1 | _ => 0 end)%nat.
Proof.
  intros (Hs & Ht & Ha & Hr) E. destruct (publish_spec _ _ _ _ _ _ Hs E) as (Hs' & (m & ->) & Hq). specialize (Hq Hr).
  split; [done|]. split; [done|]. unfold queue in Hq. cbn in Hq |- *. rewrite Ht in Hq. cbn in Hq. unfold publish in E.
  rewrite Ha in E. cbn [negb andb] in E. destruct (matches_stream _ _); cbn [negb] in E.
  - rewrite Hr in E. cbn [negb andb] in E. destruct (put _ _ e _) as [[m' [r|y]]|]; [..|done]; injection E as _ <-;
      unfold depth; rewrite Hq, ?length_app; cbn; lia.
  - injection E as _ <-. unfold depth. rewrite Hq. lia.
Qed.

Lemma wedged_waits x w st : wedged x w st ->
  (forall c, step describe c w st = None) /\ drain w = None /\ aclose true w = (w, true).
Proof.
  intros (Hs & Ht & Ha & _). pose proof (s_mail _ _ Hs) as [_ Hu]. rewrite Ht in Hu. cbn in Hu. unfold accepting in Ha.
  split_and!; [by intros c; unfold step; rewrite Ht|..].
  - unfold drain, joined. rewrite Hu, Nat.add_1_r. by destruct (_state w).
  - unfold aclose. by destruct (_state w).
Qed.

Lemma publish_all_wedged x es w st :
  wedged x w st -> let (w', n) := publish_all es w in
  wedged x w' st /\ spec w' = spec w /\ depth (_mailbox w') = (depth (_mailbox w) + n)%nat.
Proof.
  revert w. induction es as [|e es IH]; intros w Hw; cbn [publish_all]; [by rewrite Nat.add_0_r|].
  destruct (publish false e w) as [[w1 o]|] eqn:E; [|by rewrite Nat.add_0_r].
  destruct (publish_wedged _ _ _ _ _ _ Hw E) as (H1 & H2 & H3). specialize (IH w1 H1).
  destruct o as [[r|]|y]; destruct (publish_all es w1) as [w2 n]; destruct IH as (I1 & I2 & I3);
    split_and!; [done|congruence|lia|done|congruence|lia|done|congruence|lia].
Qed.

(** C36: a worker without a task counts as running. When the store cannot save the mark of an
    event whose type the subscription does not ask for, which happens outside the loop of
    attempts, the task of the worker dies while its state and its failure stay as they were: no
    publisher is told, at most [capacity] events are queued, after which publishers wait, and
    neither a drain nor a closing that drains gets past the mailbox. *)
Theorem dead_task_wedges c e text n w st :
  sound w st -> _task w = Alive (Fresh e) -> accepting w = true -> recoverable (reliability (spec w)) = true ->
  Dict.get (stream e) (_acknowledged w) = Some n -> 0 <= n < seq e ->
  matches_event_type (event_filter (spec w)) (EventJournal.event_type e) = false ->
  (persist_every (checkpoint_policy (spec w)) <= S (default 0 (Dict.get (stream e) (_since_checkpoint w))))%nat ->
  fault2 c = Some text ->
  exists x w1, step describe c w st = Some (w1, st, None)
  /\ _task w1 = Died x /\ _state w1 = _state w /\ _failure w1 = _failure w
  /\ forall es, let (w2, k) := publish_all es w1 in
     (k + depth (_mailbox w) <= capacity (spec w))%nat /\ accepting w2 = true
     /\ (forall c', step describe c' w2 st = None) /\ drain w2 = None /\ aclose true w2 = (w2, true).
Proof.
  intros Hs Ht Ha Hr Hn Hlt Hm Hp Hf. pose proof (k_store _ _ (s_kept _ _ Hs) Hr) as Hst.
  assert (exists x, step describe c w st = Some (with_task (Died x) w, st, None)) as [x E].
  { unfold step, _process, _current_checkpoint. rewrite Ht, Hn, (proj2 (Z.leb_gt _ _)), Hm by lia. cbn [negb].
    unfold _acknowledge. rewrite Hst, (proj2 (Nat.leb_le _ _) Hp). cbn [andb]. unfold _save_checkpoint, valid_checkpoint.
    cbn [cp_sequence]. rewrite (proj2 (Z.leb_le _ _)) by lia. cbn [negb].
    destruct (_save_sync _ _ st) as [st1 o] eqn:Es. unfold _save_sync, transact in Es. rewrite Hf in Es.
    destruct (_require_connection st); injection Es as <- <-; by eexists. }
  exists x, (with_task (Died x) w). split_and!; try done. intros es.
  assert (wedged x (with_task (Died x) w) st) as Hw.
  { split_and!; try done. apply (st_sound _ _ _ _ _ _ (step_stepped _ _ _ _ _ _ Hs E)). }
  pose proof (publish_all_wedged x es _ _ Hw) as H. destruct (publish_all es _) as [w2 k]. destruct H as (Hw2 & Hsp & Hd).
  destruct (wedged_waits _ _ _ Hw2) as (H1 & H2 & H3). destruct Hw2 as (Hs2 & _ & Ha2 & _).
  pose proof (mb_bound _ _ _ (s_mail _ _ Hs2)) as Hb. rewrite Hsp in Hb. cbn in Hd, Hb. split_and!; try done. lia.
Qed.

End Facts.
End WorkerFacts.
