(* ===== verification/EventFabric.v ===== *)
(** * The event fabric

    The port of a journal ([contracts/ports/events/journal.py]) as an interface with its laws,
    the dispatcher that routes committed facts to the workers ([runtime/events/dispatcher.py]),
    the health registry ([health.py]) and the fabric that owns them ([fabric.py]). A coroutine
    of the dispatcher suspended at an await is the list of what it has left to do. *)

From S2P Require Import Prelude Text Json Ledger EventJournal EventSubscription.
From Stdlib Require Import String.
From stdpp Require Import base list strings gmap.

Open Scope string_scope.
Open Scope list_scope.
Open Scope Z_scope.

(** * The port of a journal *)
Module JournalPort.
Import SubscriptionStateStore.

Record AppendResult {Rest : Type} := mkAppend {
  result_stream : string;
  previous_version : Z;
  current_version : Z;
  envelopes : list (EventJournal.EventEnvelope Rest)
}.
Arguments AppendResult : clear implicits.
Arguments mkAppend {Rest} _ _ _ _.

(** [committed] is what a stream holds, and a [weather] decides what goes wrong in a call. A
    read gives the envelopes it yields and the exception that ended it, if one did. *)
Class EventJournalPort (Rest J : Type) := {
  weather : Type;
  committed : J -> string -> list (EventJournal.EventEnvelope Rest);
  append : string -> list (EventJournal.UncommittedFact Rest) -> Z -> weather -> J -> J * outcome exn (AppendResult Rest);
  verify : string -> weather -> J -> J * outcome exn (bool * Z);
  read : string -> Z -> weather -> J -> J * (list (EventJournal.EventEnvelope Rest) * option exn);
  reopen : J -> J
}.

(** The facts of a request have ids the stream does not hold. *)
Definition new_facts {Rest J} `{EventJournalPort Rest J} (s : string) (facts : list (EventJournal.UncommittedFact Rest)) (j : J) : Prop :=
  forall f, f ∈ facts -> EventJournal.fact_id f ∉ EventJournal.event_id <$> committed j s.

Class EventJournalLaws (Rest J : Type) `{port : EventJournalPort Rest J} := {
  journal_ok : J -> Prop;
  (** The facts of a stream carry its name, and the numbers from 1 on. *)
  committed_numbered j s k e : journal_ok j -> committed j s !! k = Some e ->
    EventJournal.stream_id e = s /\ EventJournal.sequence e = Z.of_nat k + 1;
  (** An append that returns extended its stream from the expected version by the envelopes it
      returns; one that raises may leave a part of the batch. *)
  append_law s facts expected x j j' o : journal_ok j -> new_facts s facts j -> append s facts expected x j = (j', o) ->
    journal_ok j' /\ (forall s', committed j s' `prefix_of` committed j' s')
    /\ match o with
       | Ok r => committed j' s = committed j s ++ envelopes r /\ result_stream r = s
                 /\ expected = Z.of_nat (length (committed j s)) /\ previous_version r = expected
                 /\ current_version r = expected + Z.of_nat (length (envelopes r))
       | Raise _ => True
       end;
  verify_law s x j j' o : journal_ok j -> verify s x j = (j', o) ->
    journal_ok j' /\ (forall s', committed j' s' = committed j s')
    /\ match o with Ok (true, n) => n = Z.of_nat (length (committed j s)) | _ => True end;
  read_law s after x j j' es err : journal_ok j -> read s after x j = (j', (es, err)) ->
    journal_ok j' /\ (forall s', committed j' s' = committed j s')
    /\ es `prefix_of` filter (fun e => after < EventJournal.sequence e) (committed j s)
    /\ (err = None -> es = filter (fun e => after < EventJournal.sequence e) (committed j s));
  reopen_law j : journal_ok j -> journal_ok (reopen j) /\ forall s, committed (reopen j) s = committed j s
}.

End JournalPort.

(** * The dispatcher *)
Module CommittedEventDispatcher.
Import Subscription SubscriptionMailbox SubscriptionStateStore SubscriptionWorker JournalPort.

Inductive DispatcherState := NEW | STARTING | RUNNING | DRAINING | FAILED | CLOSED.

#[export] Instance DispatcherState_eq_dec : EqDecision DispatcherState.
Proof. solve_decision. Defined.

Section Dispatcher.
Context {Rest J : Type} `{codec : EventJournal.RecordCodec Rest} `{port : EventJournalPort Rest J}.
Notation envelope := (EventJournal.EventEnvelope Rest).
Notation fault := (option string).
Notation seq := EventJournal.sequence.

(** A call of [drain], with the cursors at the time of the call: the workers it has not drained
    yet, and the flush of the first of them, once its mailbox was empty. *)
Inductive DrainPhase :=
| Draining (todo : list nat) (flush : option Flush)
| Drained (o : outcome exn unit).

Record DrainCall := mkDrain { since : list (string * Z); phase : DrainPhase }.

(** [_drains]: the calls of [drain]; [_errors]: what [_close_workers] collects. *)
Record Dispatcher := mkDispatcher {
  _workers : list (Worker Rest);
  _streams : list string;
  _cursors : list (string * Z);
  _drains : list DrainCall;
  _state : DispatcherState;
  _failure : option exn;
  _errors : list exn
}.

(** [SubscriptionManifest] *)
Definition valid_manifest (specs : list SubscriptionSpec) : bool :=
  forallb valid_spec specs && bool_decide (NoDup (identity <$> specs)).

Fixpoint new_workers (specs : list SubscriptionSpec) (has_store : bool) : outcome exn (list (Worker Rest)) :=
  match specs with
  | [] => Ok []
  | s :: specs => let? w := new_worker s has_store in let? ws := new_workers specs has_store in Ok (w :: ws)
  end.

Definition new_dispatcher (specs : list SubscriptionSpec) (has_store : bool) : outcome exn Dispatcher :=
  let? ws := new_workers specs has_store in Ok (mkDispatcher ws [] [] [] NEW None []).

Definition with_workers (ws : list (Worker Rest)) (d : Dispatcher) : Dispatcher :=
  mkDispatcher ws (_streams d) (_cursors d) (_drains d) (_state d) (_failure d) (_errors d).
Definition with_cursor (s : string) (n : Z) (d : Dispatcher) : Dispatcher :=
  mkDispatcher (_workers d) (_streams d) (Dict.set s n (_cursors d)) (_drains d) (_state d) (_failure d) (_errors d).
Definition in_state (x : DispatcherState) (d : Dispatcher) : Dispatcher :=
  mkDispatcher (_workers d) (_streams d) (_cursors d) (_drains d) x (_failure d) (_errors d).
Definition failed (x : exn) (d : Dispatcher) : Dispatcher :=
  mkDispatcher (_workers d) (_streams d) (_cursors d) (_drains d) FAILED (Some x) (_errors d).
Definition with_drains (l : list DrainCall) (d : Dispatcher) : Dispatcher :=
  mkDispatcher (_workers d) (_streams d) (_cursors d) l (_state d) (_failure d) (_errors d).
Definition set_worker (i : nat) (w : Worker Rest) (d : Dispatcher) : Dispatcher := with_workers (<[i := w]> (_workers d)) d.

Definition cursor (s : string) (d : Dispatcher) : outcome exn Z :=
  match Dict.get s (_cursors d) with Some n => Ok n | None => Raise ValueError end.

(** The places of the workers that satisfy a test, in their order. *)
Definition places (p : Worker Rest -> bool) (d : Dispatcher) : list nat :=
  fst <$> filter (fun iw => p iw.2 = true) (imap pair (_workers d)).

Definition is_recoverable (w : Worker Rest) : bool := recoverable (reliability (spec w)).
Definition tracks (s : string) (w : Worker Rest) : bool := is_recoverable w && matches_stream (event_filter (spec w)) s.

(** What a coroutine has left to do. *)
Inductive Todo :=
| Publish (waited : bool) (i : nat) (e : envelope)
| SetCursor (s : string) (n : Z)
| Throw (x : exn)
| VerifyStreams (todo : list string) (reports : list (string * Z))
| StartWorkers (reports : list (string * Z))
| RestoreStream (s : string) (current : Z)
| LoadCheckpoints (s : string) (current : Z) (workers todo : list nat) (checkpoints : list Z)
| Replay (s : string) (current after : Z) (workers : list nat)
| WaitUntil (i : nat) (s : string) (n : Z)
| Started (streams : list string)
| Reconcile (s : string) (cursor : Z)
| ReconcileRead (s : string) (cursor current : Z)
| CloseWorker (i : nat) (drains : bool)
| AcloseWorker (i : nat) (drains : bool)
| JoinWorker (i : nat)
| FlushWorker (i : nat) (fl : Flush)
| FinishWorker (i : nat)
| CloseFailed (i : nat) (x : exn).

(** [_route]: reliability by reliability. *)
Definition has_reliability (r : Reliability) (d : Dispatcher) (i : nat) : bool :=
  match _workers d !! i with Some w => bool_decide (reliability (spec w) = r) | None => false end.

Definition ordered_workers (d : Dispatcher) (ps : list nat) : list nat :=
  r ← [LIVE; LOSSY; DURABLE; RELIABLE]; filter (fun i => has_reliability r d i = true) ps.

Definition _route (es : list envelope) (ps : list nat) (d : Dispatcher) : list Todo :=
  e ← es; (fun i => Publish false i e) <$> ordered_workers d ps.

Definition everyone (d : Dispatcher) : list nat := places (fun _ => true) d.

Fixpoint contiguous (s : string) (n : Z) (es : list envelope) : bool :=
  match es with
  | [] => true
  | e :: es => bool_decide (EventJournal.stream_id e = s) && (seq e =? n + 1) && contiguous s (n + 1) es
  end.

Definition _validate_append (r : AppendResult Rest) (d : Dispatcher) : outcome exn unit :=
  let? n := cursor (result_stream r) d in
  if negb (previous_version r =? n) then Raise DispatcherIntegrityError
  else if negb (current_version r =? n + Z.of_nat (length (envelopes r))) then Raise DispatcherIntegrityError
  else if contiguous (result_stream r) n (envelopes r) then Ok tt else Raise DispatcherIntegrityError.

(** [dispatch], up to its first await. *)
Definition dispatch (r : AppendResult Rest) (d : Dispatcher) : outcome exn (list Todo) :=
  match _state d with
  | RUNNING =>
      let? _ := _validate_append r d in
      Ok (_route (envelopes r) (everyone d) d ++ [SetCursor (result_stream r) (current_version r)])
  | _ => Raise RuntimeError
  end.

(** [reconcile], up to its first await. *)
Definition reconcile (s : string) (d : Dispatcher) : outcome exn (list Todo) :=
  match _state d with
  | RUNNING => let? n := cursor s d in Ok [Reconcile s n]
  | _ => Raise RuntimeError
  end.

Fixpoint reconcile_rest (s : string) (n current : Z) (es : list envelope) (err : option exn) (d : Dispatcher) : list Todo :=
  match es with
  | [] => match err with
          | Some x => [Throw x]
          | None => if n =? current then [] else [Throw DispatcherIntegrityError]
          end
  | e :: es =>
      if seq e =? n + 1
      then _route [e] (everyone d) d ++ SetCursor s (seq e) :: reconcile_rest s (seq e) current es err d
      else [Throw DispatcherIntegrityError]
  end.

Definition start (streams : list string) (d : Dispatcher) : Dispatcher * outcome exn (list Todo) :=
  match _state d with
  | NEW => if bool_decide (NoDup streams) then (in_state STARTING d, Ok [VerifyStreams streams []; Started streams])
           else (d, Raise ValueError)
  | _ => (d, Raise RuntimeError)
  end.

(** The workers are started in order, up to the first that refuses. *)
Fixpoint start_workers (ws : list (Worker Rest)) : list (Worker Rest) * outcome exn unit :=
  match ws with
  | [] => ([], Ok tt)
  | w :: ws =>
      let (w, o) := SubscriptionWorker.start w in
      match o with
      | Raise x => (w :: ws, Raise x)
      | Ok _ => let (ws, o) := start_workers ws in (w :: ws, o)
      end
  end.

Fixpoint min_from (n : Z) (l : list Z) : Z := match l with [] => n | m :: l => min_from (Z.min n m) l end.

(** One step of a coroutine: [None] while it waits, else what takes the place of the head of
    its list, or the exception that leaves it. *)
Definition exec (x : weather) (f : fault) (t : Todo) (d : Dispatcher) (st : StateStore) (j : J)
    : option (Dispatcher * StateStore * J * outcome exn (list Todo)) :=
  match t with
  | Publish waited i e =>
      match _workers d !! i with
      | None => Some (d, st, j, Ok [])
      | Some w =>
          match publish waited e w with
          | None => if waited then None else Some (d, st, j, Ok [Publish true i e])
          | Some (w, Ok _) => Some (set_worker i w d, st, j, Ok [])
          | Some (w, Raise y) => Some (set_worker i w d, st, j, Raise y)
          end
      end
  | SetCursor s n => Some (with_cursor s n d, st, j, Ok [])
  | Throw y => Some (d, st, j, Raise y)
  | VerifyStreams [] reports => Some (d, st, j, Ok [StartWorkers reports])
  | VerifyStreams (s :: todo) reports =>
      let (j, o) := verify s x j in
      match o with
      | Ok (true, n) => Some (d, st, j, Ok [VerifyStreams todo (reports ++ [(s, n)])])
      | Ok (false, _) => Some (d, st, j, Raise JournalIntegrityError)
      | Raise y => Some (d, st, j, Raise y)
      end
  | StartWorkers reports =>
      let (ws, o) := start_workers (_workers d) in
      match o with
      | Ok _ => Some (with_workers ws d, st, j, Ok ((fun r => RestoreStream r.1 r.2) <$> reports))
      | Raise y => Some (with_workers ws d, st, j, Raise y)
      end
  | RestoreStream s current =>
      let ps := places (tracks s) d in
      if bool_decide (ps = []) then Some (with_cursor s current d, st, j, Ok [])
      else Some (d, st, j, Ok [LoadCheckpoints s current ps ps []])
  | LoadCheckpoints s current ps (i :: todo) found =>
      match _workers d !! i with
      | None => Some (d, st, j, Ok [LoadCheckpoints s current ps todo found])
      | Some w =>
          let (w, o) := checkpoint s f w st in
          match o with
          | Ok n => Some (set_worker i w d, st, j, Ok [LoadCheckpoints s current ps todo (found ++ [n])])
          | Raise y => Some (set_worker i w d, st, j, Raise y)
          end
      end
  | LoadCheckpoints s current ps [] found =>
      if existsb (fun n => current <? n) found then Some (d, st, j, Raise DispatcherIntegrityError)
      else Some (d, st, j, Ok [Replay s current (min_from (hd 0 found) found) ps])
  | Replay s current after ps =>
      let '(j, (es, err)) := read s after x j in
      Some (d, st, j, Ok (_route es ps d ++ match err with
                                           | Some y => [Throw y]
                                           | None => ((fun i => WaitUntil i s current) <$> ps) ++ [SetCursor s current]
                                           end))
  | WaitUntil i s n =>
      match _workers d !! i with
      | None => Some (d, st, j, Ok [])
      | Some w =>
          match wait_until s n w with
          | None => None
          | Some (Ok _) => Some (d, st, j, Ok [])
          | Some (Raise y) => Some (d, st, j, Raise y)
          end
      end
  | Started streams =>
      Some (mkDispatcher (_workers d) streams (_cursors d) (_drains d) RUNNING (_failure d) (_errors d), st, j, Ok [])
  | Reconcile s n =>
      let (j, o) := verify s x j in
      match o with
      | Ok (valid, current) =>
          if negb valid || (current <? n) then Some (d, st, j, Raise DispatcherIntegrityError)
          else Some (d, st, j, Ok [ReconcileRead s n current])
      | Raise y => Some (d, st, j, Raise y)
      end
  | ReconcileRead s n current =>
      let '(j, (es, err)) := read s n x j in Some (d, st, j, Ok (reconcile_rest s n current es err d))
  | CloseWorker i drains =>
      match _workers d !! i with
      | None => Some (d, st, j, Ok [])
      | Some w =>
          let should_drain := drains && is_recoverable w
            && negb (bool_decide (SubscriptionWorker._state w = SubscriptionWorker.FAILED)) in
          Some (d, st, j, Ok [AcloseWorker i should_drain])
      end
  | AcloseWorker i drains =>
      match _workers d !! i with
      | None => Some (d, st, j, Ok [])
      | Some w =>
          let (w, more) := aclose drains w in Some (set_worker i w d, st, j, Ok (if more then [JoinWorker i] else []))
      end
  | JoinWorker i =>
      match _workers d !! i with
      | None => Some (d, st, j, Ok [])
      | Some w =>
          match SubscriptionWorker.drain w with
          | None => None
          | Some (Ok fl) => Some (d, st, j, Ok [FlushWorker i fl])
          | Some (Raise y) => Some (d, st, j, Ok [CloseFailed i y])
          end
      end
  | FlushWorker i fl =>
      match _workers d !! i with
      | None => Some (d, st, j, Ok [])
      | Some w =>
          let '(w, st, o) := flush_step f fl w st in
          match o with
          | Ok (Some fl) => Some (set_worker i w d, st, j, Ok [FlushWorker i fl])
          | Ok None => Some (set_worker i (aclose_drained w) d, st, j, Ok [FinishWorker i])
          | Raise y => Some (set_worker i w d, st, j, Ok [CloseFailed i y])
          end
      end
  | FinishWorker i =>
      match _workers d !! i with
      | None => Some (d, st, j, Ok [])
      | Some w =>
          match aclose_finish w with
          | None => None
          | Some (w, Ok _) => Some (set_worker i w d, st, j, Ok [])
          | Some (w, Raise y) => Some (set_worker i w d, st, j, Ok [CloseFailed i y])
          end
      end
  | CloseFailed i y =>
      let d := mkDispatcher (_workers d) (_streams d) (_cursors d) (_drains d) (_state d) (_failure d) (_errors d ++ [y]) in
      match _workers d !! i with
      | None => Some (d, st, j, Ok [])
      | Some w =>
          match SubscriptionWorker._state w with
          | SubscriptionWorker.CLOSED => Some (d, st, j, Ok [])
          | _ => Some (d, st, j, Ok [AcloseWorker i false])
          end
      end
  end.

(** [_close_workers(drain=False)], which nothing makes wait or raise. *)
Definition close_now (w : Worker Rest) : Worker Rest :=
  fst (aclose false w).

Definition _close_workers (d : Dispatcher) : Dispatcher := with_workers (close_now <$> _workers d) d.

(** [aclose(drain=True)], up to its first await. *)
Definition aclose (d : Dispatcher) : Dispatcher * list Todo :=
  match _state d with
  | CLOSED => (d, [])
  | NEW => (in_state CLOSED (_close_workers d), [])
  | FAILED => (d, (fun i => CloseWorker i true) <$> everyone d)
  | _ => (in_state DRAINING d, (fun i => CloseWorker i true) <$> everyone d)
  end.

(** Its end. *)
Definition aclosed (d : Dispatcher) : Dispatcher :=
  mkDispatcher (_workers d) (_streams d) (_cursors d) (_drains d) CLOSED
    (match _errors d with x :: _ => Some x | [] => _failure d end) (_errors d).

(** [drain], when it is called, and one step of a call: [None] while it waits or when it is over. *)
Definition drain (d : Dispatcher) : Dispatcher :=
  with_drains (_drains d ++ [mkDrain (_cursors d) (Draining (places is_recoverable d) None)]) d.

Definition drain_phase (f : fault) (p : DrainPhase) (d : Dispatcher) (st : StateStore)
    : option (Dispatcher * StateStore * DrainPhase) :=
  match p with
  | Drained _ => None
  | Draining [] _ => Some (d, st, Drained (Ok tt))
  | Draining (i :: todo) fl =>
      match _workers d !! i with
      | None => Some (d, st, Draining todo None)
      | Some w =>
          match fl with
          | None =>
              match SubscriptionWorker.drain w with
              | None => None
              | Some (Ok fl) => Some (d, st, Draining (i :: todo) (Some fl))
              | Some (Raise y) => Some (d, st, Drained (Raise y))
              end
          | Some fl =>
              let '(w, st, o) := flush_step f fl w st in
              Some (set_worker i w d, st,
                    match o with
                    | Ok (Some fl) => Draining (i :: todo) (Some fl)
                    | Ok None => Draining todo None
                    | Raise y => Drained (Raise y)
                    end)
          end
      end
  end.

Definition drain_step (k : nat) (f : fault) (d : Dispatcher) (st : StateStore) : option (Dispatcher * StateStore) :=
  c ← _drains d !! k;
  '(d, st, p) ← drain_phase f (phase c) d st;
  Some (with_drains (<[k := mkDrain (since c) p]> (_drains d)) d, st).

(** [wait_until] of the dispatcher: [None] while it waits. *)
Definition wait_until_subscription (i : string) (s : string) (n : Z) (d : Dispatcher) : option (outcome exn unit) :=
  match find (fun w => bool_decide (identity (spec w) = i)) (_workers d) with
  | None => Some (Raise ValueError)
  | Some w =>
      match cursor s d with
      | Raise y => Some (Raise y)
      | Ok c => if c <? n then Some (Raise ValueError)
                else if negb (matches_stream (event_filter (spec w)) s) then Some (Raise ValueError)
                else wait_until s n w
      end
  end.

End Dispatcher.
Arguments Dispatcher : clear implicits.
Arguments Todo : clear implicits.
End CommittedEventDispatcher.

(** * Health *)
Module FabricHealth.
Import Subscription SubscriptionWorker CommittedEventDispatcher.

Inductive FabricState := NEW | STARTING | RUNNING | DRAINING | FAILED | CLOSED.
Inductive FabricHealthState := HEALTHY | DEGRADED | READ_ONLY | UNAVAILABLE.

#[export] Instance FabricState_eq_dec : EqDecision FabricState.
Proof. solve_decision. Defined.
#[export] Instance FabricHealthState_eq_dec : EqDecision FabricHealthState.
Proof. solve_decision. Defined.

Definition _HEALTH_RANK (s : FabricHealthState) : nat :=
  match s with HEALTHY => 0 | DEGRADED => 1 | READ_ONLY => 2 | UNAVAILABLE => 3 end.

Definition worse (a b : FabricHealthState) : FabricHealthState := if (_HEALTH_RANK a <? _HEALTH_RANK b)%nat then b else a.

(** The issues by component; their details and times are left out. *)
Definition Issues : Type := list (string * FabricHealthState).

Definition _mark (component : string) (s : FabricHealthState) (i : Issues) : Issues := Dict.set component s i.
Definition mark_read_only (component : string) : Issues -> Issues := _mark component READ_ONLY.
Definition mark_unavailable (component : string) : Issues -> Issues := _mark component UNAVAILABLE.
Definition mark_degraded (component : string) : Issues -> Issues := _mark component DEGRADED.
Definition clear (component : string) (i : Issues) : Issues := Dict.pop component i.

Section Health.
Context {Rest : Type}.

Definition worker_issue (w : Worker Rest) (i : Issues) : Issues :=
  let component := "subscription." +:+ identity (spec w) in
  match SubscriptionWorker._state w with
  | SubscriptionWorker.FAILED =>
      Dict.set component (match reliability (spec w) with DURABLE => UNAVAILABLE | _ => DEGRADED end) i
  | SubscriptionWorker.DEGRADED => Dict.set component DEGRADED i
  | _ => i
  end.

(** The issues the registry holds and those derived from the dispatcher; [telemetry] are the
    components the telemetry runtime reports as degraded. *)
Definition all_issues (f : FabricState) (telemetry : list string) (d : Dispatcher Rest) (i : Issues) : Issues :=
  let i := match f with FAILED => Dict.set "fabric.lifecycle" UNAVAILABLE i | _ => i end in
  let i := match CommittedEventDispatcher._state d with
           | CommittedEventDispatcher.FAILED => Dict.set "fabric.dispatcher" UNAVAILABLE i
           | _ => i
           end in
  let i := fold_left (fun i w => worker_issue w i) (_workers d) i in
  fold_left (fun i c => Dict.set ("telemetry." +:+ c) DEGRADED i) telemetry i.

Record FabricHealthSnapshot := mkSnapshot { health : FabricHealthState; ready : bool; writable : bool }.

Definition snapshot (f : FabricState) (telemetry : list string) (d : Dispatcher Rest) (i : Issues) : FabricHealthSnapshot :=
  let state := fold_right (fun c h => worse h c) HEALTHY (Dict.values (all_issues f telemetry d i)) in
  let running := bool_decide (f = RUNNING) in
  mkSnapshot state (running && negb (bool_decide (state = UNAVAILABLE)))
    (running && (bool_decide (state = HEALTHY) || bool_decide (state = DEGRADED))).

End Health.
End FabricHealth.

(** * The fabric *)
Module EventFabric.
Import Subscription SubscriptionStateStore SubscriptionWorker JournalPort CommittedEventDispatcher FabricHealth.

Section Fabric.
Context {Rest J : Type} `{codec : EventJournal.RecordCodec Rest} `{port : EventJournalPort Rest J}.
Context (describe : exn -> string).
Notation envelope := (EventJournal.EventEnvelope Rest).
Notation fact := (EventJournal.UncommittedFact Rest).
Notation fault := (option string).

(** The coroutine that holds the dispatcher: the start, an append that reconciles, one whose
    facts are committed and are routed, or the end. *)
Inductive Activity :=
| Idle
| Starting (todo : list (Todo Rest))
| Reconciling (s : string) (facts : list fact) (todo : list (Todo Rest))
| Dispatching (s : string) (facts : list fact) (r : AppendResult Rest) (todo : list (Todo Rest))
| Closing (todo : list (Todo Rest)).

(** [inflight]: the appends past their guard that wait for the lock, in its order. *)
Record Fabric := mkFabric {
  streams : list string;
  dispatcher : Dispatcher Rest;
  f_state : FabricState;
  issues : Issues;
  has_store : bool;
  inflight : list (string * list fact);
  closing : bool;
  activity : Activity
}.

Definition new_fabric (streams : list string) (specs : list SubscriptionSpec) (has_store : bool) : outcome exn Fabric :=
  if negb (bool_decide (NoDup streams)) || negb (valid_manifest specs) then Raise ValueError
  else let? d := new_dispatcher specs has_store in Ok (mkFabric streams d NEW [] has_store [] false Idle).

Definition with_dispatcher (d : Dispatcher Rest) (f : Fabric) : Fabric :=
  mkFabric (streams f) d (f_state f) (issues f) (has_store f) (inflight f) (closing f) (activity f).
Definition doing (a : Activity) (f : Fabric) : Fabric :=
  mkFabric (streams f) (dispatcher f) (f_state f) (issues f) (has_store f) (inflight f) (closing f) a.
Definition becomes (s : FabricState) (i : Issues) (f : Fabric) : Fabric :=
  mkFabric (streams f) (dispatcher f) s i (has_store f) (inflight f) (closing f) (activity f).
Definition with_inflight (l : list (string * list fact)) (f : Fabric) : Fabric :=
  mkFabric (streams f) (dispatcher f) (f_state f) (issues f) (has_store f) l (closing f) (activity f).
Definition set_closing (f : Fabric) : Fabric :=
  mkFabric (streams f) (dispatcher f) (f_state f) (issues f) (has_store f) (inflight f) true (activity f).

(** The process, the store, the journal, what was settled for whom, and what appends returned. *)
Record System := mkSystem {
  fabric : Fabric;
  store : StateStore;
  journal : J;
  settlements : list (string * envelope * Settlement);
  replies : list (string * list fact * outcome exn (AppendResult Rest))
}.

Definition _assert_write_ready (telemetry : list string) (f : Fabric) : outcome exn unit :=
  if negb (bool_decide (f_state f = RUNNING)) then Raise EventFabricUnavailable
  else let h := snapshot (f_state f) telemetry (dispatcher f) (issues f) in
       if bool_decide (health h = READ_ONLY) then Raise EventFabricReadOnly
       else if negb (writable h) then Raise EventFabricUnavailable else Ok tt.

(** [start], up to the first await of the dispatcher. *)
Definition start_failed (f : Fabric) : Fabric :=
  doing Idle (becomes FAILED (mark_unavailable "fabric.startup" (issues f)) f).

Definition fabric_start (x : fault) (f : Fabric) (st : StateStore) : Fabric * StateStore :=
  let f := becomes STARTING (issues f) f in
  let (st, o) := if has_store f then _open_sync x st else (st, Ok tt) in
  match o with
  | Raise _ => (start_failed f, st)
  | Ok _ =>
      let (d, o) := CommittedEventDispatcher.start (streams f) (dispatcher f) in
      let f := with_dispatcher d f in
      match o with
      | Raise _ => (start_failed f, if has_store f then _close_sync st else st)
      | Ok todo => (doing (Starting todo) f, st)
      end
  end.

(** An exception inside the start of the dispatcher. *)
Definition starting_failed (x : exn) (f : Fabric) (st : StateStore) : Fabric * StateStore :=
  let d := _close_workers (failed x (dispatcher f)) in
  (start_failed (with_dispatcher d f), if has_store f then _close_sync st else st).

(** The exceptions of the journal that [_append_committed] turns into its own. *)
Definition journal_failed (x : exn) (f : Fabric) : Fabric * exn :=
  match x with
  | JournalIntegrityError => (becomes FAILED (mark_unavailable "fabric.journal" (issues f)) f, JournalIntegrityError)
  | StreamVersionConflict _ _ | OSError =>
      (becomes (f_state f) (mark_read_only "fabric.journal" (issues f)) f, EventFabricReadOnly)
  | x => (f, x)
  end.

Definition dispatch_failed (f : Fabric) : Fabric :=
  becomes FAILED (mark_unavailable "fabric.dispatch" (issues f)) f.

Definition replied (s : string) (facts : list fact) (o : outcome exn (AppendResult Rest)) (f : Fabric) (y : System) : System :=
  mkSystem (doing Idle f) (store y) (journal y) (settlements y) (replies y ++ [(s, facts, o)]).

(** After the commit: the hook, and [dispatch] up to its first await. *)
Definition committed_append (s : string) (facts : list fact) (r : AppendResult Rest) (hook : option exn) (f : Fabric) (y : System) : System :=
  match (match hook with Some x => Raise x | None => dispatch r (dispatcher f) end) with
  | Raise _ => replied s facts (Raise CommittedDispatchError) (dispatch_failed f) y
  | Ok todo => mkSystem (doing (Dispatching s facts r todo) f) (store y) (journal y) (settlements y) (replies y)
  end.

Definition append_failed (s : string) (facts : list fact) (x : exn) (f : Fabric) (y : System) : System :=
  let (f, x) := journal_failed x f in replied s facts (Raise x) f y.

Definition with_journal (j : J) (y : System) : System := mkSystem (fabric y) (store y) j (settlements y) (replies y).

(** [_append_committed], with the lock, up to its first await of the dispatcher. *)
Definition _append_committed (s : string) (facts : list fact) (x : weather) (hook : option exn) (f : Fabric) (y : System) : System :=
  match cursor s (dispatcher f) with
  | Raise e => replied s facts (Raise e) f y
  | Ok expected =>
      let (j, o) := append s facts expected x (journal y) in
      let y := with_journal j y in
      match o with
      | Ok r => committed_append s facts r hook f y
      | Raise (StreamVersionConflict e actual) =>
          if actual <=? expected then append_failed s facts (StreamVersionConflict e actual) f y
          else match reconcile s (dispatcher f) with
          | Ok todo => mkSystem (doing (Reconciling s facts todo) f) (store y) (journal y) (settlements y) (replies y)
          | Raise e => append_failed s facts e f y
          end
      | Raise e => append_failed s facts e f y
      end
  end.

(** The second append, after the reconciliation. *)
Definition append_again (s : string) (facts : list fact) (x : weather) (hook : option exn) (f : Fabric) (y : System) : System :=
  match cursor s (dispatcher f) with
  | Raise e => replied s facts (Raise e) f y
  | Ok expected =>
      let (j, o) := append s facts expected x (journal y) in
      let y := with_journal j y in
      match o with
      | Ok r => committed_append s facts r hook f y
      | Raise e => append_failed s facts e f y
      end
  end.

(** [_close_owned], once the appends in flight are done, up to its first await. *)
Definition begin_close (f : Fabric) : Fabric :=
  let (d, todo) := CommittedEventDispatcher.aclose (dispatcher f) in doing (Closing todo) (with_dispatcher d f).

(** What happens next. *)
Inductive Label :=
| Start (x : fault)
| Submit (telemetry : list string) (s : string) (facts : list fact)
| Acquire (x : weather) (hook : option exn)
| Go (x : weather) (f : fault) (hook : option exn)
| Work (i : nat) (c : Choices)
| Foreign (s : string) (facts : list fact) (expected : Z) (x : weather)
| Close
| BeginClose
| Drain
| GoDrain (k : nat) (f : fault)
| Crash.

Definition todo_of (a : Activity) : list (Todo Rest) :=
  match a with Idle => [] | Starting t | Reconciling _ _ t | Dispatching _ _ _ t | Closing t => t end.

Definition with_todo (t : list (Todo Rest)) (a : Activity) : Activity :=
  match a with
  | Idle => Idle
  | Starting _ => Starting t
  | Reconciling s facts _ => Reconciling s facts t
  | Dispatching s facts r _ => Dispatching s facts r t
  | Closing _ => Closing t
  end.

(** The coroutine has nothing left to do. *)
Definition finish (x : weather) (hook : option exn) (f : Fabric) (y : System) : System :=
  match activity f with
  | Idle => y
  | Starting _ => mkSystem (doing Idle (becomes RUNNING (clear "fabric.startup" (issues f)) f)) (store y) (journal y) (settlements y) (replies y)
  | Reconciling s facts _ => append_again s facts x hook f y
  | Dispatching s facts r _ =>
      replied s facts (Ok r) (becomes (f_state f) (clear "fabric.dispatch" (clear "fabric.journal" (issues f))) f) y
  | Closing _ =>
      mkSystem (doing Idle (becomes CLOSED (issues f) (with_dispatcher (aclosed (dispatcher f)) f)))
        (if has_store f then _close_sync (store y) else store y) (journal y) (settlements y) (replies y)
  end.

(** An exception leaves the coroutine. *)
Definition interrupt (e : exn) (f : Fabric) (y : System) : System :=
  match activity f with
  | Starting _ =>
      let (f, st) := starting_failed e f (store y) in mkSystem f st (journal y) (settlements y) (replies y)
  | Reconciling s facts _ => append_failed s facts e f y
  | Dispatching s facts r _ =>
      replied s facts (Raise CommittedDispatchError) (dispatch_failed (with_dispatcher (failed e (dispatcher f)) f)) y
  | Closing _ =>
      mkSystem (doing Idle (becomes CLOSED (issues f) (with_dispatcher (aclosed (_close_workers (dispatcher f))) f)))
        (if has_store f then _close_sync (store y) else store y) (journal y) (settlements y) (replies y)
  | Idle => y
  end.

Definition go (x : weather) (ft : fault) (hook : option exn) (y : System) : option System :=
  let f := fabric y in
  match activity f with
  | Idle => None
  | a =>
      match todo_of a with
      | [] => Some (finish x hook f y)
      | t :: rest =>
          match exec x ft t (dispatcher f) (store y) (journal y) with
          | None => None
          | Some (d, st, j, o) =>
              let f := with_dispatcher d f in
              let y := mkSystem f st j (settlements y) (replies y) in
              match o with
              | Ok ts => Some (mkSystem (doing (with_todo (ts ++ rest) a) f) st j (settlements y) (replies y))
              | Raise e => Some (interrupt e f y)
              end
          end
      end
  end.

(** A new process over what is on disk. *)
Definition crash (y : System) : option System :=
  let f := fabric y in
  match new_fabric (streams f) ((fun w => spec w) <$> _workers (dispatcher f)) (has_store f) with
  | Ok f => Some (mkSystem f (_close_sync (store y)) (reopen (journal y)) (settlements y) (replies y))
  | Raise _ => None
  end.

Definition run_label (l : Label) (y : System) : option System :=
  let f := fabric y in
  match l with
  | Start x =>
      if bool_decide (f_state f = NEW)
      then let (f, st) := fabric_start x f (store y) in Some (mkSystem f st (journal y) (settlements y) (replies y))
      else None
  | Submit telemetry s facts =>
      match _assert_write_ready telemetry f with
      | Ok _ => Some (mkSystem (with_inflight (inflight f ++ [(s, facts)]) f) (store y) (journal y) (settlements y) (replies y))
      | Raise e => Some (mkSystem f (store y) (journal y) (settlements y) (replies y ++ [(s, facts, Raise e)]))
      end
  | Acquire x hook =>
      match activity f, inflight f with
      | Idle, (s, facts) :: rest => Some (_append_committed s facts x hook (with_inflight rest f) y)
      | _, _ => None
      end
  | Go x ft hook => go x ft hook y
  | Work i c =>
      match _workers (dispatcher f) !! i with
      | None => None
      | Some w =>
          match step describe c w (store y) with
          | None => None
          | Some (w', st, r) =>
              Some (mkSystem (with_dispatcher (set_worker i w' (dispatcher f)) f) st (journal y)
                (match r with Some (e, k) => settlements y ++ [(identity (spec w), e, k)] | None => settlements y end) (replies y))
          end
      end
  | Foreign s facts expected x => Some (with_journal (append s facts expected x (journal y)).1 y)
  | Close =>
      match f_state f with
      | CLOSED => Some y
      | NEW => Some (mkSystem (becomes CLOSED (issues f) (with_dispatcher (aclosed (_close_workers (dispatcher f))) f))
                      (store y) (journal y) (settlements y) (replies y))
      | STARTING => None
      | FAILED => Some (mkSystem (set_closing f) (store y) (journal y) (settlements y) (replies y))
      | _ => Some (mkSystem (becomes DRAINING (issues f) (set_closing f)) (store y) (journal y) (settlements y) (replies y))
      end
  | BeginClose =>
      match activity f, inflight f with
      | Idle, [] => if closing f && negb (bool_decide (f_state f = CLOSED))
                    then Some (mkSystem (begin_close f) (store y) (journal y) (settlements y) (replies y)) else None
      | _, _ => None
      end
  | Drain => Some (mkSystem (with_dispatcher (drain (dispatcher f)) f) (store y) (journal y) (settlements y) (replies y))
  | GoDrain k ft =>
      match drain_step k ft (dispatcher f) (store y) with
      | None => None
      | Some (d, st) => Some (mkSystem (with_dispatcher d f) st (journal y) (settlements y) (replies y))
      end
  | Crash => crash y
  end.

Fixpoint run (ls : list Label) (y : System) : option System :=
  match ls with
  | [] => Some y
  | l :: ls => match run_label l y with Some y => run ls y | None => None end
  end.

End Fabric.
Arguments Fabric : clear implicits.
Arguments System : clear implicits.
Arguments Label : clear implicits.
End EventFabric.
