(* ===== verification/EventDelivery.v ===== *)
(** * Delivery of committed facts

    The fabric of [EventFabric.v] over a store and a journal, through appends, foreign appends,
    faults of both, failing handlers, shutdowns and crashes: the invariant that ties what the
    dispatcher has left to do to what the workers of [EventWorker.v] have queued and what they
    acknowledged, and its consequence, that no committed fact is skipped. *)

From S2P Require Import Prelude Text Json Ledger EventJournal EventSubscription EventWorker EventFabric.
From Stdlib Require Import String.
From stdpp Require Import base list strings gmap.

Open Scope string_scope.
Open Scope list_scope.
Open Scope Z_scope.

Module Delivery.
Import Subscription SubscriptionStateStore SubscriptionWorker JournalPort CommittedEventDispatcher EventFabric
  Gapless WorkerFacts.

Section Delivery.
Context {Rest J : Type} `{codec : EventJournal.RecordCodec Rest} `{laws : EventJournalLaws Rest J} (describe : exn -> string).
(** The subscriptions, which a new process takes over. *)
Context (manifest : list SubscriptionSpec).
Notation envelope := (EventJournal.EventEnvelope Rest).
Notation worker := (Worker Rest).
Notation id w := (identity (spec w)).
Notation seq := EventJournal.sequence.
Notation stream := EventJournal.stream_id.
Notation log := (list (string * envelope * Settlement)).

Implicit Types (w : worker) (ws : list worker) (e : envelope) (j : J) (l : log).

(** ** What is settled *)

Definition resolved l (i s : string) (k : Z) : Prop :=
  exists e x, (i, e, x) ∈ l /\ x <> Old /\ stream e = s /\ seq e = k.

Definition entry_ok ws (st : StateStore) j (x : string * envelope * Settlement) : Prop :=
  let '(i, e, k) := x in
  e ∈ committed j (stream e)
  /\ (k = DeadLettered -> exists r, dead_letters st !! (i, stream e, seq e) = Some r /\ row_event_id r = EventJournal.event_id e)
  /\ forall w, w ∈ ws -> id w = i ->
     match k with
     | Filtered => matches_event_type (event_filter (spec w)) (EventJournal.event_type e) = false
     | DeadLettered => reliability (spec w) = RELIABLE
     | GivenUp => is_recoverable w = false
     | _ => True
     end.

Record worker_ok (st : StateStore) j l w : Prop := {
  wo_sound : sound w st;
  wo_covered : is_recoverable w = true -> forall s k, 1 <= k <= eff w st s -> resolved l (id w) s k;
  wo_facts : live w -> forall e, e ∈ queue w -> e ∈ committed j (stream e);
  wo_fed : live w -> is_recoverable w = true -> fed w st
}.

Record core ws (st : StateStore) j l : Prop := {
  c_journal : journal_ok j;
  c_specs : (fun w => spec w) <$> ws = manifest;
  c_ids : NoDup ((fun w => id w) <$> ws);
  c_nonneg : forall i s, 0 <= stored st i s;
  c_workers : forall w, w ∈ ws -> worker_ok st j l w;
  c_log : forall x, x ∈ l -> entry_ok ws st j x
}.

Lemma resolved_mono l l' i s k : l ⊆ l' -> resolved l i s k -> resolved l' i s k.
Proof. intros Hl (e & x & Hin & H). exists e, x. split; [by apply Hl|done]. Qed.

(** ** One worker moves *)

Lemma grows_base i st st' w s : store_grows i st st' -> id w <> i -> base w st' s = base w st s.
Proof. intros Hg Hi. unfold base. by rewrite (g_other _ _ _ Hg). Qed.

Lemma other_eff i st st' w s : store_grows i st st' -> id w <> i -> eff w st' s = eff w st s.
Proof. intros Hg Hi. unfold eff. by rewrite (grows_base _ _ _ _ _ Hg Hi). Qed.

Lemma other_sound i st st' w : store_grows i st st' -> id w <> i -> sound w st -> sound w st'.
Proof.
  intros Hg Hi [[H1 H2 H3 H4 H5] Hm Hp Hn]. split; [split|done..]; try done.
  - intros s n. rewrite (grows_base _ _ _ _ _ Hg Hi). apply H3.
  - intros s n. rewrite (g_other _ _ _ Hg) by done. apply H4.
Qed.

Lemma specs_insert ws i w w' : ws !! i = Some w -> spec w' = spec w -> (fun w => id w) <$> <[i := w']> ws = (fun w => id w) <$> ws.
Proof.
  intros Hi Hs. rewrite list_fmap_insert, Hs. apply list_insert_id. by rewrite list_lookup_fmap, Hi.
Qed.

Lemma elem_insert ws i w' w : w ∈ <[i := w']> ws -> w = w' \/ exists k, k <> i /\ ws !! k = Some w.
Proof.
  intros (k & Hk)%list_elem_of_lookup. destruct (decide (k = i)) as [->|Hne].
  - destruct (decide (i < length ws)%nat); [rewrite list_lookup_insert_eq in Hk by done; left; congruence|].
    rewrite lookup_ge_None_2 in Hk; [done|rewrite length_insert; lia].
  - rewrite list_lookup_insert_ne in Hk by done. right. by exists k.
Qed.

Lemma ids_distinct ws i k w w' : NoDup ((fun w => id w) <$> ws) -> ws !! i = Some w -> ws !! k = Some w' -> i <> k -> id w <> id w'.
Proof.
  intros Hnd Hi Hk Hne E. apply Hne. apply (NoDup_lookup _ _ _ (id w) Hnd); rewrite list_lookup_fmap.
  - by rewrite Hi.
  - by rewrite Hk, E.
Qed.

Lemma entry_grows ws ws' i st st' j j' x :
  store_grows i st st' -> (forall s, committed j s `prefix_of` committed j' s) ->
  (forall w', w' ∈ ws' -> exists w, w ∈ ws /\ spec w' = spec w) ->
  entry_ok ws st j x -> entry_ok ws' st' j' x.
Proof.
  destruct x as [[i' e] k]. intros Hg Hj Hw (H1 & H2 & H3). split_and!.
  - destruct (Hj (stream e)) as [t ->]. apply elem_of_app. by left.
  - intros Hk. destruct (H2 Hk) as (r & Hr & E). destruct (g_dead _ _ _ Hg _ _ Hr) as (r' & Hr' & E'). exists r'. split; [done|congruence].
  - intros w' Hw' Hi. destruct (Hw w' Hw') as (w & Hin & Hs). specialize (H3 w Hin). rewrite <- Hs in H3. specialize (H3 Hi).
    unfold is_recoverable in *. by rewrite Hs in H3 |- *.
Qed.

Lemma core_update ws st j l i w w' st' l' :
  core ws st j l -> ws !! i = Some w -> spec w' = spec w -> store_grows (id w) st st' -> l ⊆ l' ->
  (forall x, x ∈ l' -> x ∈ l \/ entry_ok (<[i := w']> ws) st' j x) ->
  worker_ok st' j l' w' -> core (<[i := w']> ws) st' j l'.
Proof.
  intros [H1 H0 H2 H3 H4 H5] Hi Hs Hg Hl Hnew Hw'. split.
  - done.
  - rewrite list_fmap_insert, Hs, <- H0. apply list_insert_id. by rewrite list_lookup_fmap, Hi.
  - by rewrite (specs_insert _ _ w).
  - intros i' s. destruct (decide (i' = id w)) as [->|Hne]; [|by rewrite (g_other _ _ _ Hg)].
    specialize (H3 (id w) s). pose proof (g_own _ _ _ Hg s). lia.
  - intros v [->|(k & Hk & Hv)]%elem_insert; [done|]. pose proof (H4 v ltac:(by eapply list_elem_of_lookup_2)) as [V1 V2 V3 V4].
    pose proof (ids_distinct ws k i v w H2 Hv Hi Hk) as Hid. split.
    + by apply (other_sound _ _ _ _ Hg Hid).
    + intros Hr s n. rewrite (other_eff _ _ _ _ _ Hg Hid). intros Hn. eapply resolved_mono; [exact Hl|by apply V2].
    + done.
    + intros Hlv Hr s. rewrite (other_eff _ _ _ _ _ Hg Hid). by apply V4.
  - intros x Hx. destruct (Hnew x Hx) as [Hin|]; [|done]. apply (entry_grows ws _ (id w) st _ j); [done|done| |by apply H5].
    intros v [->|(k & Hk & Hv)]%elem_insert; [exists w|exists v]; (split; [by eapply list_elem_of_lookup_2|done]).
Qed.

(** ** How far a worker is fed *)

(** The last number a worker has done or has queued. *)
Definition reach ws (st : StateStore) (i : nat) (s : string) : Z :=
  match ws !! i with Some w => top (eff w st s) (pending w s) | None => 0 end.

(** A worker that runs, must not miss a fact, and asks for the stream. *)
Definition matters ws (i : nat) (s : string) : Prop := exists w, ws !! i = Some w /\ live w /\ tracks s w = true.

Record evolves ws st ws' st' : Prop := {
  ev_reach : forall i s, matters ws' i s -> matters ws i s /\ reach ws st i s <= reach ws' st' i s;
  ev_grown : forall i w', ws' !! i = Some w' -> exists w, ws !! i = Some w /\ grown w st w' st'
}.

Lemma evolves_refl ws st : evolves ws st ws st.
Proof. split; [done|]. intros i w Hi. by exists w. Qed.

Lemma tracks_recoverable s w : tracks s w = true -> is_recoverable w = true.
Proof. unfold tracks. by intros [? _]%andb_true_iff. Qed.

Lemma tracks_spec s w w' : spec w' = spec w -> tracks s w' = tracks s w.
Proof. intros E. unfold tracks, is_recoverable. by rewrite E. Qed.

Lemma evolves_insert ws st j l i w w' st' :
  core ws st j l -> ws !! i = Some w -> grown w st w' st' -> store_grows (id w) st st' ->
  (live w' -> live w /\ (is_recoverable w = true -> forall s, top (eff w st s) (pending w s) <= top (eff w' st' s) (pending w' s))) ->
  evolves ws st (<[i := w']> ws) st'.
Proof.
  intros Hc Hi Hgw Hg Hl. pose proof (proj1 (gw_spec _ _ _ _ Hgw)) as Hs. assert (i < length ws)%nat as Hlt by by apply lookup_lt_Some in Hi. split.
  2: { intros k v Hv. destruct (decide (k = i)) as [->|Hne].
    - rewrite list_lookup_insert_eq in Hv by done. injection Hv as <-. by exists w.
    - rewrite list_lookup_insert_ne in Hv by done. exists v. split; [done|].
      pose proof (ids_distinct ws k i v w (c_ids _ _ _ _ Hc) Hv Hi Hne) as Hid. split; [done|..]; intros s.
      + by rewrite (other_eff _ _ _ _ _ Hg Hid).
      + by rewrite (g_other _ _ _ Hg). }
  intros k s (v & Hv & Hlv & Ht). unfold reach. destruct (decide (k = i)) as [->|Hne].
  - rewrite list_lookup_insert_eq in Hv |- * by done. injection Hv as <-. destruct (Hl Hlv) as [Hlw Hm].
    rewrite (tracks_spec _ _ _ Hs) in Ht. rewrite Hi. split; [by exists w|]. apply Hm. by apply (tracks_recoverable s).
  - rewrite list_lookup_insert_ne in Hv |- * by done. rewrite Hv. split; [by exists v|].
    pose proof (ids_distinct ws k i v w (c_ids _ _ _ _ Hc) Hv Hi Hne) as Hid.
    by rewrite (other_eff _ _ _ _ _ Hg Hid).
Qed.

(** A call that settles nothing. *)
Lemma quiet_core ws st j l i w w' st' :
  core ws st j l -> ws !! i = Some w -> quiet w st w' st' ->
  core (<[i := w']> ws) st' j l /\ evolves ws st (<[i := w']> ws) st'.
Proof.
  intros Hc Hi Hq. pose proof Hq as [Hs' [Hsp _] Hg He Hl].
  pose proof (c_workers _ _ _ _ Hc w ltac:(by eapply list_elem_of_lookup_2)) as [W1 W2 W3 W4]. split.
  - eapply (core_update ws st j l i w); [done|done|done|done|done| |].
    + intros x Hx. by left.
    + split; [done|..].
      * unfold is_recoverable. rewrite Hsp. intros Hr s k. rewrite He. by apply W2.
      * intros Hlw. destruct (Hl Hlw) as [Hlw' ->]. by apply W3.
      * unfold is_recoverable. rewrite Hsp. intros Hlw Hr. destruct (Hl Hlw) as [Hlw' _]. by apply (quiet_fed w st w' st' Hq Hlw), W4.
  - eapply evolves_insert; [done|done|by apply quiet_grown|done|]. intros Hlw. destruct (Hl Hlw) as [Hlw' E]. split; [done|].
    intros Hr s. unfold pending. by rewrite E, He.
Qed.

(** A step of the worker. *)
Lemma live_alive w p : _task w = Alive p -> live w.
Proof. intros E. unfold live. by rewrite E. Qed.

Lemma step_alive c w st w' st' r : step describe c w st = Some (w', st', r) -> exists p, _task w = Alive p.
Proof. unfold step. destruct (_task w); try done. by eexists. Qed.

Definition reported w (r : option (envelope * Settlement)) : log :=
  match r with Some (e, k) => [(id w, e, k)] | None => [] end.

Lemma step_live c w st w' st' r : step describe c w st = Some (w', st', r) -> live w' -> exists p, _task w' = Alive p.
Proof. intros E Hl. apply step_task in E. unfold live in Hl. destruct (_task w'); try done. by eexists. Qed.

(** What a step moves the marks past was settled by it. *)
Lemma step_covered c w st w' st' r l :
  sound w st -> fed w st -> step describe c w st = Some (w', st', r) ->
  (forall s k, 1 <= k <= eff w st s -> resolved l (id w) s k) ->
  forall s k, 1 <= k <= eff w' st' s -> resolved (l ++ reported w r) (id w) s k.
Proof.
  intros Hs Hf E Hc s k Hk. pose proof (step_stepped _ _ _ _ _ _ _ Hs E) as H. rewrite (st_eff _ _ _ _ _ _ H) in Hk.
  assert (l ⊆ l ++ reported w r) as Hsub by (intros x Hx; apply elem_of_app; by left).
  destruct (step_fed _ _ _ _ _ _ _ Hs Hf E) as [Hn _].
  destruct r as [[e x]|]; [|apply (resolved_mono l); [done|by apply Hc]].
  destruct (decide (x = Old)) as [->|Hx]; [apply (resolved_mono l); [done|by apply Hc]|].
  assert (settled (Some (e, x)) = Some e) as Hse by by destruct x. rewrite Hse in Hk, Hn.
  case_decide as Hd; [|apply (resolved_mono l); [done|by apply Hc]]. subst s.
  destruct (decide (k = seq e)) as [->|Hne].
  - exists e, x. split; [apply elem_of_app; right; left|done].
  - apply (resolved_mono l); [done|]. apply Hc. lia.
Qed.

Lemma stepped_grown c w st w' st' r : stepped c w st w' st' r -> grown w st w' st'.
Proof.
  intros [_ Hs Hg He _ Hw]. split; [done| |apply Hg]. intros s. rewrite He. destruct r as [[e k]|]; [|done].
  destruct (Hw e k eq_refl) as (_ & _ & Hk). destruct k; cbn; try case_decide; subst; lia.
Qed.

Lemma work_core c ws st j l i w w' st' r :
  core ws st j l -> ws !! i = Some w -> step describe c w st = Some (w', st', r) ->
  core (<[i := w']> ws) st' j (l ++ reported w r) /\ evolves ws st (<[i := w']> ws) st'.
Proof.
  intros Hc Hi E. pose proof (c_workers _ _ _ _ Hc w ltac:(by eapply list_elem_of_lookup_2)) as [W1 W2 W3 W4].
  pose proof (step_stepped _ _ _ _ _ _ _ W1 E) as Hstep. pose proof Hstep as [Hs' [Hsp _] Hg He Hq Hw]. destruct (step_alive _ _ _ _ _ _ E) as [p Hp].
  pose proof (live_alive _ _ Hp) as Hlw. split.
  - eapply (core_update ws st j l i w); [done|done|done|done|intros x Hx; apply elem_of_app; by left| |].
    + intros x [Hx|Hx]%elem_of_app; [by left|right]. destruct r as [[e k]|]; [|by apply not_elem_of_nil in Hx].
      apply list_elem_of_singleton in Hx as ->. destruct (Hw e k eq_refl) as (Hj & (q & Hql) & _).
      split_and!; [apply W3; [done|rewrite Hql; left]|intros ->; apply Hj|].
      intros v [->|(n & Hn & Hv)]%elem_insert Hid.
      * unfold is_recoverable. rewrite Hsp. destruct k; try done. by destruct Hj.
      * by destruct (ids_distinct ws n i v w (c_ids _ _ _ _ Hc) Hv Hi Hn).
    + split; [done|..].
      * unfold is_recoverable. rewrite Hsp. intros Hr. by apply (step_covered c w st w' st' r l W1 (W4 Hlw Hr) E), W2.
      * intros Hl. destruct (step_live _ _ _ _ _ _ E Hl) as [p' Hp']. rewrite Hp' in Hq. intros e Hin. apply (W3 Hlw).
        rewrite Hq. destruct r as [[e' k]|]; [by right|done].
      * unfold is_recoverable. rewrite Hsp. intros Hl Hr. destruct (step_live _ _ _ _ _ _ E Hl) as [p' Hp'].
        destruct (step_fed _ _ _ _ _ _ _ W1 (W4 Hlw Hr) E) as [_ Hf]. rewrite Hp' in Hf. by destruct Hf.
  - eapply evolves_insert; [done|done|by eapply stepped_grown|done|]. intros Hl. split; [done|]. intros Hr s.
    destruct (step_live _ _ _ _ _ _ E Hl) as [p' Hp'].
    destruct (step_fed _ _ _ _ _ _ _ W1 (W4 Hlw Hr) E) as [_ Hf]. rewrite Hp' in Hf. destruct Hf as [_ Hf]. by rewrite Hf.
Qed.

(** A publication to one worker. *)
Lemma publish_core waited e ws st j l i w w' o :
  core ws st j l -> ws !! i = Some w -> publish waited e w = Some (w', o) -> e ∈ committed j (stream e) ->
  (matters ws i (stream e) -> seq e <= reach ws st i (stream e) + 1) ->
  core (<[i := w']> ws) st j l /\ evolves ws st (<[i := w']> ws) st
  /\ (is_ok o = true -> matters (<[i := w']> ws) i (stream e) -> seq e <= reach (<[i := w']> ws) st i (stream e)).
Proof.
  intros Hc Hi E Hin Hseq. pose proof (c_workers _ _ _ _ Hc w ltac:(by eapply list_elem_of_lookup_2)) as [W1 W2 W3 W4].
  destruct (publish_spec _ _ _ _ _ _ W1 E) as (Hs' & (m & Hw') & Hq).
  assert (i < length ws)%nat as Hlt by by apply lookup_lt_Some in Hi.
  assert (live w' <-> live w) as Hl by by rewrite Hw'. assert (spec w' = spec w) as Hsp by by rewrite Hw'.
  assert (forall s, eff w' st s = eff w st s) as He by by intros s; rewrite Hw'.
  assert (live w -> is_recoverable w = true -> matches_stream (event_filter (spec w)) (stream e) = true ->
    seq e <= top (eff w st (stream e)) (pending w (stream e)) + 1) as Hsq.
  { intros Hlw Hr Hm. unfold reach in Hseq. rewrite Hi in Hseq. apply Hseq. exists w. unfold tracks. by rewrite Hr, Hm. }
  split_and!.
  - eapply (core_update ws st j l i w); [done|done|done|done|done|by left|]. split; [done|..].
    + unfold is_recoverable. rewrite Hsp. intros Hr s k. rewrite He. by apply W2.
    + intros Hlw e' He'. apply Hl in Hlw. destruct (publish_elem _ _ _ _ _ _ E He') as [->|Hq']; [done|by apply W3].
    + unfold is_recoverable. rewrite Hsp, Hl. intros Hlw Hr. apply (publish_fed _ _ _ _ _ _ W1 Hr E (W4 Hlw Hr)).
      intros _ Hm. by apply Hsq.
  - eapply evolves_insert; [done|done|split; [by rewrite Hw'|by intros s; rewrite He|done]|done|]. rewrite Hl. intros Hlw. split; [done|]. intros Hr s.
    destruct (publish_fed _ _ _ _ _ _ W1 Hr E (W4 Hlw Hr)) as [_ Ht]; [intros _; by apply Hsq|]. rewrite Ht. destruct (_ && _ && _); lia.
  - intros Ho (v & Hv & Hlv & Ht). rewrite list_lookup_insert_eq in Hv by done. injection Hv as <-. apply Hl in Hlv.
    rewrite (tracks_spec _ _ _ Hsp) in Ht. unfold tracks in Ht. apply andb_true_iff in Ht as [Hr Hm].
    destruct (publish_fed _ _ _ _ _ _ W1 Hr E (W4 Hlv Hr)) as [_ Ht]; [intros _; by apply Hsq|].
    unfold reach. rewrite list_lookup_insert_eq by done. rewrite Ht, Ho, Hm, bool_decide_eq_true_2 by done. cbn. lia.
Qed.

(** ** What the dispatcher has left to do *)

Definition Reach := nat -> string -> Z.

Definition bump (i : nat) e (R : Reach) : Reach :=
  fun k s => if decide (k = i /\ s = stream e) then Z.max (R k s) (seq e) else R k s.

Definition size j (s : string) : Z := Z.of_nat (length (committed j s)).

(** A flush of the worker at a place may go on. *)
Definition flushing ws (st : StateStore) (i : nat) (fl : Flush) : Prop := forall w, ws !! i = Some w -> flush_ok w st fl.

Lemma flushing_evolves ws st ws' st' i fl : evolves ws st ws' st' -> flushing ws st i fl -> flushing ws' st' i fl.
Proof. intros He Hf w' Hw'. destruct (ev_grown _ _ _ _ He i w' Hw') as (w & Hw & Hg). eapply flush_ok_grown; [done|by apply Hf]. Qed.

(** Every publication is of a committed fact and leaves no gap to the worker that must not miss
    it, and a cursor is set only where such workers have been fed. [M] are these workers, [F] the
    flushes that may go on. *)
Fixpoint plan_ok (M : nat -> string -> Prop) (F : nat -> Flush -> Prop) j (R : Reach) (t : list (Todo Rest)) : Prop :=
  match t with
  | [] => True
  | Publish _ i e :: t =>
      e ∈ committed j (stream e) /\ (M i (stream e) -> seq e <= R i (stream e) + 1) /\ plan_ok M F j (bump i e R) t
  | x :: t =>
      match x with
      | SetCursor s n => forall i, M i s -> n <= R i s
      | VerifyStreams _ reports | StartWorkers reports => forall s n, (s, n) ∈ reports -> n <= size j s
      | RestoreStream s current => current <= size j s
      | LoadCheckpoints s current ps todo found =>
          current <= size j s /\ forall i, M i s -> i ∈ ps /\ (i ∈ todo \/ exists n, n ∈ found /\ n <= R i s)
      | Replay s current after ps => current <= size j s /\ forall i, M i s -> i ∈ ps /\ after <= R i s
      | Reconcile s n | ReconcileRead s n _ => forall i, M i s -> n <= R i s
      | FlushWorker i fl => F i fl
      | _ => True
      end /\ plan_ok M F j R t
  end.

Lemma bump_ge i e R k s : R k s <= bump i e R k s.
Proof. unfold bump. case_decide; lia. Qed.

Lemma plan_mono M M' F F' j j' R R' t :
  (forall i s, M' i s -> M i s /\ R i s <= R' i s) -> (forall i fl, F i fl -> F' i fl) -> (forall s, committed j s `prefix_of` committed j' s) ->
  plan_ok M F j R t -> plan_ok M' F' j' R' t.
Proof.
  intros HM HF Hj. assert (forall s, size j s <= size j' s) as Hsz.
  { intros s. unfold size. pose proof (prefix_length _ _ (Hj s)). lia. }
  revert R R' HM. induction t as [|x t IH]; intros R R' HM; [done|].
  destruct x as [wt i e|s n|y|todo reports|reports|s n|s n ps todo found|s n after ps|i s n|ss|s n|s n cur|i b|i b|i|i fl|i|i y];
    cbn [plan_ok]; intros Hp; try (destruct Hp as [_ Hp]; split; [done|by apply (IH R)]).
  - destruct Hp as (H1 & H2 & Hp). split_and!.
    + destruct (Hj (stream e)) as [r ->]. apply elem_of_app. by left.
    + intros [Hm Hr]%HM. specialize (H2 Hm). lia.
    + apply (IH (bump i e R)); [|done]. intros k s [Hm Hr]%HM. split; [done|]. unfold bump. case_decide; lia.
  - destruct Hp as [H Hp]. split; [|by apply (IH R)]. intros i [Hm Hr]%HM. specialize (H i Hm). lia.
  - destruct Hp as [H Hp]. split; [|by apply (IH R)]. intros s n Hin. specialize (H s n Hin). specialize (Hsz s). lia.
  - destruct Hp as [H Hp]. split; [|by apply (IH R)]. intros s n Hin. specialize (H s n Hin). specialize (Hsz s). lia.
  - destruct Hp as [H Hp]. split; [|by apply (IH R)]. specialize (Hsz s). lia.
  - destruct Hp as [[H0 H] Hp]. split; [|by apply (IH R)]. specialize (Hsz s). split; [lia|]. intros i [Hm Hr]%HM.
    destruct (H i Hm) as [H1 [H2|(m & H2 & H3)]]; (split; [done|]); [by left|right]. exists m. split; [done|lia].
  - destruct Hp as [[H0 H] Hp]. split; [|by apply (IH R)]. specialize (Hsz s). split; [lia|]. intros i [Hm Hr]%HM.
    destruct (H i Hm). split; [done|lia].
  - destruct Hp as [H Hp]. split; [|by apply (IH R)]. intros i [Hm Hr]%HM. specialize (H i Hm). lia.
  - destruct Hp as [H Hp]. split; [|by apply (IH R)]. intros i [Hm Hr]%HM. specialize (H i Hm). lia.
  - destruct Hp as [H Hp]. split; [by apply HF|by apply (IH R)].
Qed.

(** How far a list of publications takes the workers. *)
Fixpoint after_plan (t : list (Todo Rest)) (R : Reach) : Reach :=
  match t with [] => R | Publish _ i e :: t => after_plan t (bump i e R) | _ :: t => after_plan t R end.

Lemma after_ge t R i s : R i s <= after_plan t R i s.
Proof.
  revert R. induction t as [|x t IH]; intros R; cbn; [lia|]. destruct x; try apply IH.
  specialize (IH (bump i0 e R)). pose proof (bump_ge i0 e R i s). lia.
Qed.

Lemma plan_app M F j R a b : plan_ok M F j R a -> plan_ok M F j (after_plan a R) b -> plan_ok M F j R (a ++ b).
Proof.
  revert R. induction a as [|x a IH]; intros R; cbn [app after_plan]; [done|].
  destruct x; cbn [plan_ok]; intros Ha Hb; try (destruct Ha as [H Ha]; split; [done|by apply IH]).
  destruct Ha as (H1 & H2 & Ha). split_and!; [done|done|by apply IH].
Qed.

Lemma plan_tail M F j R a b : plan_ok M F j R b -> plan_ok M F j (after_plan a R) b.
Proof. apply plan_mono; [|done|done]. intros i s H. split; [done|apply after_ge]. Qed.

(** ** Routing *)

(** Consecutive facts of a stream, after number [n]. *)
Fixpoint consecutive j (s : string) (n : Z) (es : list envelope) : Prop :=
  match es with
  | [] => True
  | e :: es => e ∈ committed j s /\ stream e = s /\ seq e = n + 1 /\ consecutive j s (n + 1) es
  end.

Lemma publish_to_all M F j e ps R n :
  e ∈ committed j (stream e) -> seq e = n + 1 -> (forall i, M i (stream e) -> n <= R i (stream e)) ->
  let t := (fun i => Publish false i e) <$> ps in
  plan_ok M F j R t /\ (forall i, i ∈ ps -> n + 1 <= after_plan t R i (stream e)).
Proof.
  intros Hin Hs. revert R. induction ps as [|p ps IH]; intros R HR; cbn; [split; [done|by intros i ?%not_elem_of_nil]|].
  destruct (IH (bump p e R)) as [H1 H2].
  { intros i Hm. specialize (HR i Hm). pose proof (bump_ge p e R i (stream e)). lia. }
  split.
  - split_and!; [done| |done]. intros Hm. specialize (HR p Hm). lia.
  - intros i [->|Hi]%elem_of_cons; [|by apply H2].
    pose proof (after_ge ((fun i => Publish false i e) <$> ps) (bump p e R) p (stream e)) as Hge.
    unfold bump in Hge at 1. rewrite decide_True in Hge by done. cbn in Hge. lia.
Qed.

Lemma ordered_elem d ps i w : i ∈ ps -> _workers d !! i = Some w -> i ∈ ordered_workers d ps.
Proof.
  intros Hi Hw. unfold ordered_workers. apply list_elem_of_bind. exists (reliability (spec w)). split.
  - apply list_elem_of_filter. split; [|done]. unfold has_reliability. rewrite Hw. by apply bool_decide_eq_true.
  - destruct (reliability (spec w)); set_solver.
Qed.

Lemma route_ok M F j d ps s n es R :
  (forall i, M i s -> i ∈ ps /\ is_Some (_workers d !! i) /\ n <= R i s) -> consecutive j s n es ->
  plan_ok M F j R (_route es ps d)
  /\ (forall i, M i s -> n + Z.of_nat (length es) <= after_plan (_route es ps d) R i s).
Proof.
  revert n R. induction es as [|e es IH]; intros n R HM; cbn [consecutive].
  { intros _. split; [done|]. intros i Hi. destruct (HM i Hi) as (_ & _ & H). cbn. lia. }
  intros (Hin & <- & Hs & Hc). change (_route (e :: es) ps d) with (((fun i => Publish false i e) <$> ordered_workers d ps) ++ _route es ps d).
  destruct (publish_to_all M F j e (ordered_workers d ps) R n Hin Hs) as [P1 P2]; [intros i Hi; by apply HM|].
  destruct (IH (n + 1) (after_plan ((fun i => Publish false i e) <$> ordered_workers d ps) R)) as [Q1 Q2]; [|done|].
  - intros i Hi. destruct (HM i Hi) as (H1 & [w Hw] & _). split_and!; [done|by exists w|]. apply P2. by apply (ordered_elem _ _ _ w).
  - split; [by apply plan_app|]. intros i Hi. specialize (Q2 i Hi). cbn [length].
    assert (forall a b R, after_plan (a ++ b) R = after_plan b (after_plan a R)) as ->; [|lia].
    clear. intros a. induction a as [|x a IH]; intros b R; cbn; [done|]. by destruct x; rewrite IH.
Qed.

Lemma numbered_consecutive j s k es :
  (forall i e, es !! i = Some e -> e ∈ committed j s /\ stream e = s /\ seq e = k + Z.of_nat i + 1) -> consecutive j s k es.
Proof.
  revert k. induction es as [|e es IH]; intros k H; cbn; [done|]. destruct (H 0%nat e eq_refl) as (H1 & H2 & H3).
  split_and!; [done|done|lia|]. apply IH. intros i e' Hi. destruct (H (S i) e' Hi) as (? & ? & ?). split_and!; [done|done|lia].
Qed.

Lemma committed_consecutive j s : journal_ok j -> consecutive j s 0 (committed j s).
Proof.
  intros Hj. apply numbered_consecutive. intros i e Hi. destruct (committed_numbered _ _ _ _ Hj Hi).
  split_and!; [by eapply list_elem_of_lookup_2|done|lia].
Qed.

Lemma filter_consecutive j s n after es :
  consecutive j s n es ->
  consecutive j s (Z.max n after) (filter (fun e => after < seq e) es)
  /\ n + Z.of_nat (length es) <= Z.max n after + Z.of_nat (length (filter (fun e => after < seq e) es)).
Proof.
  revert n. induction es as [|e es IH]; intros n; [split; [done|cbn; lia]|]. cbn [consecutive]. intros (Hin & Hst & Hs & Hc).
  destruct (IH (n + 1) Hc) as [I1 I2]. destruct (decide (after < seq e)) as [Hlt|Hge].
  - rewrite filter_cons_True by done. cbn [consecutive length]. replace (Z.max (n + 1) after) with (Z.max n after + 1) in * by lia.
    split; [|lia]. split_and!; [done|done|lia|done].
  - rewrite filter_cons_False by done. replace (Z.max (n + 1) after) with (Z.max n after) in * by lia. split; [done|cbn [length]; lia].
Qed.

Lemma consecutive_prefix j s n es es' : es' `prefix_of` es -> consecutive j s n es -> consecutive j s n es'.
Proof.
  intros [r ->]. revert n. induction es' as [|e es' IH]; intros n; cbn; [done|]. intros (H1 & H2 & H3 & H4). split_and!; [done|done|done|by apply IH].
Qed.

(** What a read gives to route. *)
Lemma read_consecutive j j' s after x es err :
  journal_ok j -> read s after x j = (j', (es, err)) ->
  journal_ok j' /\ (forall s', committed j' s' = committed j s') /\ consecutive j s (Z.max 0 after) es
  /\ (err = None -> size j s <= Z.max 0 after + Z.of_nat (length es)).
Proof.
  intros Hj E. destruct (read_law _ _ _ _ _ _ _ Hj E) as (H1 & H2 & H3 & H4).
  destruct (filter_consecutive j s 0 after _ (committed_consecutive j s Hj)) as [F1 F2].
  split_and!; [done|done|by eapply consecutive_prefix|]. intros Herr. rewrite (H4 Herr). unfold size. lia.
Qed.

Lemma consecutive_mono j j' s n es : (forall s, committed j s `prefix_of` committed j' s) -> consecutive j s n es -> consecutive j' s n es.
Proof.
  intros Hj. revert n. induction es as [|e es IH]; intros n; cbn; [done|]. intros (H1 & H2 & H3 & H4).
  split_and!; [|done|done|by apply IH]. destruct (Hj s) as [r ->]. apply elem_of_app. by left.
Qed.

(** ** The invariant of the dispatcher *)

(** *** Calls of [drain] *)

Definition waiting (p : DrainPhase) : list nat :=
  match p with Draining todo None => todo | Draining todo (Some _) => tail todo | Drained _ => [] end.

Definition flush_of (i : nat) (p : DrainPhase) : Flush :=
  match p with Draining todo (Some fl) => if decide (head todo = Some i) then fl else Checking [] | _ => Checking [] end.

(** What a call still owes a worker for a stream whose cursor was at [n]: it has not come to it,
    and the worker was fed up to [n]; or [n] is stored, or in the flush under way. *)
Definition owed ws (st : StateStore) (i : nat) (s : string) (n : Z) (p : DrainPhase) : Prop :=
  match p with
  | Drained (Raise _) => True
  | _ => (i ∈ waiting p /\ n <= reach ws st i s) \/ exists w, ws !! i = Some w /\ flush_owes w st (flush_of i p) s n
  end.

Record drain_ok ws (st : StateStore) (c : DrainCall) : Prop := {
  dr_flush : match phase c with Draining (i :: _) (Some fl) => flushing ws st i fl | _ => True end;
  dr_owed : forall s n i, Dict.get s (since c) = Some n -> matters ws i s -> owed ws st i s n (phase c)
}.

Lemma owed_evolves ws st ws' st' i s n p :
  evolves ws st ws' st' -> matters ws' i s -> owed ws st i s n p -> owed ws' st' i s n p.
Proof.
  intros He Hm. destruct (ev_reach _ _ _ _ He i s Hm) as [_ Hr].
  assert ((i ∈ waiting p /\ n <= reach ws st i s) \/ (exists w, ws !! i = Some w /\ flush_owes w st (flush_of i p) s n) ->
    (i ∈ waiting p /\ n <= reach ws' st' i s) \/ (exists w, ws' !! i = Some w /\ flush_owes w st' (flush_of i p) s n)) as H.
  { intros [[H1 H2]|(w & Hw & H)]; [left; split; [done|lia]|right]. destruct Hm as (w' & Hw' & _).
    destruct (ev_grown _ _ _ _ He i w' Hw') as (w1 & Hw1 & Hg). assert (w1 = w) as -> by congruence.
    exists w'. split; [done|by eapply flush_owes_grown]. }
  unfold owed. destruct p as [todo fl|[r|x]]; [exact H|exact H|done].
Qed.

Lemma drain_evolves ws st ws' st' c : evolves ws st ws' st' -> drain_ok ws st c -> drain_ok ws' st' c.
Proof.
  intros He [H1 H2]. split.
  - destruct (phase c) as [[|i todo] [fl|]|]; try done. by apply (flushing_evolves ws st).
  - intros s n i Hs Hm. eapply owed_evolves; [done|done|]. apply H2; [done|by apply (ev_reach _ _ _ _ He)].
Qed.

Record dispatcher_ok (d : Dispatcher Rest) (st : StateStore) j l (t : list (Todo Rest)) : Prop := {
  d_core : core (_workers d) st j l;
  d_cursors : forall s n, Dict.get s (_cursors d) = Some n -> forall i, matters (_workers d) i s -> n <= reach (_workers d) st i s;
  d_plan : plan_ok (matters (_workers d)) (flushing (_workers d) st) j (reach (_workers d) st) t;
  d_drains : forall c, c ∈ _drains d -> drain_ok (_workers d) st c
}.

Lemma same_prefix j j' : (forall s, committed j' s = committed j s) -> forall s, committed j s `prefix_of` committed j' s.
Proof. intros H s. by rewrite H. Qed.

Lemma core_journal ws st j j' l :
  core ws st j l -> journal_ok j' -> (forall s, committed j s `prefix_of` committed j' s) -> core ws st j' l.
Proof.
  intros [H1 H0 H2 H3 H4 H5] Hj Hp. split; [done|done|done|done|..].
  - intros w Hw. destruct (H4 w Hw) as [W1 W2 W3 W4]. split; [done|done| |done]. intros Hl e He.
    destruct (Hp (stream e)) as [r ->]. apply elem_of_app. left. by apply W3.
  - intros x Hx. eapply (entry_grows ws ws EmptyString st st j j'); [done|done| |by apply H5]. intros w Hw. by exists w.
Qed.

Lemma dispatcher_move d d' st st' j j' l l' t :
  dispatcher_ok d st j l t -> core (_workers d') st' j' l' -> evolves (_workers d) st (_workers d') st' -> _cursors d' = _cursors d ->
  _drains d' = _drains d -> (forall s, committed j s `prefix_of` committed j' s) -> dispatcher_ok d' st' j' l' t.
Proof.
  intros [H1 H2 H3 H4] Hc He Hcur Hdr Hj. split; [done|..].
  - rewrite Hcur. intros s n Hn i [Hm Hr]%(ev_reach _ _ _ _ He). specialize (H2 s n Hn i Hm). lia.
  - eapply (plan_mono (matters (_workers d)) _ (flushing (_workers d) st) _ j _ (reach (_workers d) st)); [by apply He| |done|done].
    intros i fl. by apply flushing_evolves.
  - rewrite Hdr. intros c Hin. by apply (drain_evolves (_workers d) st), H4.
Qed.

Lemma dispatcher_plan d st j l t t' :
  dispatcher_ok d st j l t -> plan_ok (matters (_workers d)) (flushing (_workers d) st) j (reach (_workers d) st) t' -> dispatcher_ok d st j l t'.
Proof. by intros [H1 H2 H3 H4] H5. Qed.

Lemma dispatcher_journal d st j j' l t :
  dispatcher_ok d st j l t -> journal_ok j' -> (forall s, committed j s `prefix_of` committed j' s) -> dispatcher_ok d st j' l t.
Proof.
  intros H Hj Hp. apply (dispatcher_move d d st st j j' l l); [done| |apply evolves_refl|done|done|done].
  apply (core_journal _ _ j); [apply H|done|done].
Qed.

Lemma dispatcher_cursor d st j l s n t :
  dispatcher_ok d st j l t -> (forall i, matters (_workers d) i s -> n <= reach (_workers d) st i s) -> dispatcher_ok (with_cursor s n d) st j l t.
Proof.
  intros [H1 H2 H3 H5] H4. split; [done| |done|done]. intros s' m. cbn. destruct (decide (s' = s)) as [->|Hne].
  - rewrite Dict.get_set_eq. by intros [= <-].
  - rewrite Dict.get_set_ne by done. apply H2.
Qed.

Lemma plan_cons M F j R x t : plan_ok M F j R (x :: t) -> match x with Publish _ _ _ => True | _ => plan_ok M F j R t end.
Proof. destruct x; cbn; first [by intros [_ H]|done]. Qed.

Lemma quiet_dispatcher d st j l t i w w' st' :
  dispatcher_ok d st j l t -> _workers d !! i = Some w -> quiet w st w' st' -> dispatcher_ok (set_worker i w' d) st' j l t.
Proof.
  intros H Hi Hq. destruct (quiet_core _ _ _ _ _ _ _ _ (d_core _ _ _ _ _ H) Hi Hq) as [Hc He].
  by apply (dispatcher_move d _ st st' j j l l).
Qed.

Lemma sound_at d st j l t i w : dispatcher_ok d st j l t -> _workers d !! i = Some w -> sound w st.
Proof. intros H Hi. apply (c_workers _ _ _ _ (d_core _ _ _ _ _ H)). by eapply list_elem_of_lookup_2. Qed.

(** ** Its steps *)

Lemma publish_exec waited i e rest d st j l w o w' :
  dispatcher_ok d st j l (Publish waited i e :: rest) -> _workers d !! i = Some w -> publish waited e w = Some (w', o) ->
  dispatcher_ok (set_worker i w' d) st j l (match o with Ok _ => rest | Raise _ => [] end).
Proof.
  intros [H1 H2 (P1 & P2 & P3) H4] Hi E.
  destruct (publish_core _ _ _ _ _ _ _ _ _ _ H1 Hi E P1 P2) as (Hc & He & Hr). split; [done|..].
  3: { intros c Hin. by apply (drain_evolves (_workers d) st), H4. }
  - intros s n Hn k [Hm Hle]%(ev_reach _ _ _ _ He). specialize (H2 s n Hn k Hm). cbn. lia.
  - destruct o as [r|x]; [|done]. eapply plan_mono; [|intros k fl; by apply flushing_evolves|done|exact P3]. intros k s Hm. destruct (ev_reach _ _ _ _ He k s Hm) as [Hm' Hle].
    split; [done|]. unfold bump. case_decide as Hd; [|done]. destruct Hd as [-> ->]. specialize (Hr eq_refl Hm). cbn. lia.
Qed.

Lemma places_elem p d i : i ∈ places p d <-> exists w, _workers d !! i = Some w /\ p w = true.
Proof.
  unfold places. rewrite list_elem_of_fmap. split.
  - intros ([k w] & -> & Hin). apply list_elem_of_filter in Hin as [Hp Hin]. apply list_elem_of_lookup in Hin as [n Hn].
    rewrite list_lookup_imap in Hn. destruct (_workers d !! n) eqn:E; [|done]. injection Hn as <- <-. cbn. by eexists.
  - intros (w & Hw & Hp). exists (i, w). split; [done|]. apply list_elem_of_filter. split; [done|].
    apply list_elem_of_lookup. exists i. by rewrite list_lookup_imap, Hw.
Qed.

Lemma matters_place d i s : matters (_workers d) i s -> i ∈ places (tracks s) d.
Proof. intros (w & Hw & _ & Ht). apply places_elem. by exists w. Qed.

Lemma matters_everyone d i s : matters (_workers d) i s -> i ∈ everyone d.
Proof. intros (w & Hw & _). apply places_elem. by exists w. Qed.

Lemma matters_some ws i s : matters ws i s -> is_Some (ws !! i).
Proof. intros (w & Hw & _). by exists w. Qed.

Lemma reach_nonneg ws st j l i s : core ws st j l -> matters ws i s -> 0 <= reach ws st i s.
Proof.
  intros Hc (w & Hw & _ & Ht). unfold reach. rewrite Hw. pose proof (top_ge (eff w st s) (pending w s)) as Hge.
  destruct (c_workers _ _ _ _ Hc w ltac:(by eapply list_elem_of_lookup_2)) as [[Hk _ _ _] _ _ _].
  pose proof (k_store _ _ Hk (tracks_recoverable _ _ Ht)) as Hst. pose proof (c_nonneg _ _ _ _ Hc (id w) s) as H0.
  assert (0 <= eff w st s); [|lia]. unfold eff. destruct (Dict.get s _) as [n|] eqn:E; cbn; [pose proof (k_ack _ _ Hk _ _ E) as Ha|];
    unfold base in *; rewrite Hst in *; lia.
Qed.

Lemma min_from_le n (ns : list Z) m : m = n \/ m ∈ ns -> min_from n ns <= m.
Proof.
  revert n m. induction ns as [|x ns IH]; intros n m; cbn.
  - intros [->|H%not_elem_of_nil]; [lia|done].
  - rewrite elem_of_cons. intros [->|[->|H]].
    + specialize (IH (Z.min n x) (Z.min n x) ltac:(by left)). lia.
    + specialize (IH (Z.min n x) (Z.min n x) ltac:(by left)). lia.
    + apply IH. by right.
Qed.

Lemma restore_exec s current rest d st j l :
  dispatcher_ok d st j l (RestoreStream s current :: rest) ->
  let ps := places (tracks s) d in
  if bool_decide (ps = []) then dispatcher_ok (with_cursor s current d) st j l rest
  else dispatcher_ok d st j l (LoadCheckpoints s current ps ps [] :: rest).
Proof.
  intros H ps. pose proof (d_plan _ _ _ _ _ H) as [H1 H2]. case_bool_decide as E.
  - apply dispatcher_cursor; [by apply (dispatcher_plan _ _ _ _ _ _ H)|]. intros i Hi%matters_place. subst ps. rewrite E in Hi.
    by apply not_elem_of_nil in Hi.
  - apply (dispatcher_plan _ _ _ _ _ _ H). cbn. split; [split; [done|]|done]. intros i Hi%matters_place. by split; [|left].
Qed.

Lemma load_exec f s current ps i todo found rest d st j l w w' o :
  dispatcher_ok d st j l (LoadCheckpoints s current ps (i :: todo) found :: rest) -> _workers d !! i = Some w ->
  checkpoint s f w st = (w', o) ->
  dispatcher_ok (set_worker i w' d) st j l
    (match o with Ok n => LoadCheckpoints s current ps todo (found ++ [n]) :: rest | Raise _ => [] end).
Proof.
  intros H Hi E. destruct (checkpoint_quiet _ _ _ _ _ _ (sound_at _ _ _ _ _ _ _ H Hi) E) as [Hq Hn].
  pose proof (d_plan _ _ _ _ _ H) as [[P0 P1] P2]. destruct o as [n|x].
  - apply (quiet_dispatcher d st j l _ i w w'); [|done|done]. apply (dispatcher_plan _ _ _ _ _ _ H). cbn. split; [|done]. split; [done|].
    intros k Hk. destruct (P1 k Hk) as [K1 [K2|(m & K2 & K3)]]; (split; [done|]).
    + apply elem_of_cons in K2 as [->|K2]; [|by left]. right. exists n. split; [apply elem_of_app; right; left|].
      destruct Hk as (v & Hv & _ & Ht). rewrite Hi in Hv. injection Hv as <-. unfold tracks in Ht. apply andb_true_iff in Ht as [_ Ht].
      rewrite (Hn Ht). unfold reach. rewrite Hi. apply top_ge.
    + right. exists m. split; [apply elem_of_app; by left|done].
  - apply (quiet_dispatcher d st j l _ i w w'); [|done|done]. by apply (dispatcher_plan _ _ _ _ _ _ H).
Qed.

Lemma waits_plan M F j R s n (ps : list nat) :
  let t := (fun i => WaitUntil i s n) <$> ps in plan_ok M F j R t /\ after_plan t R = R.
Proof. induction ps as [|p ps [IH1 IH2]]; [done|]. cbn. by split_and!. Qed.

Lemma replay_exec x s current after ps rest d st j l j' es err :
  dispatcher_ok d st j l (Replay s current after ps :: rest) -> read s after x j = (j', (es, err)) ->
  dispatcher_ok d st j' l
    ((_route es ps d ++ match err with
                        | Some y => [Throw y]
                        | None => ((fun i => WaitUntil i s current) <$> ps) ++ [SetCursor s current]
                        end) ++ rest).
Proof.
  intros H E. destruct (read_consecutive _ _ _ _ _ _ _ (c_journal _ _ _ _ (d_core _ _ _ _ _ H)) E) as (Hj & Hcm & Hcs & Hlen).
  pose proof (d_plan _ _ _ _ _ H) as [[P0 P1] P2].
  apply (dispatcher_journal _ _ j); [|done|by apply same_prefix]. apply (dispatcher_plan _ _ _ _ _ _ H).
  destruct (route_ok (matters (_workers d)) (flushing (_workers d) st) j d ps s (Z.max 0 after) es (reach (_workers d) st)) as [R1 R2].
  { intros i Hi. destruct (P1 i Hi) as [? ?]. split_and!; [done|by apply (matters_some _ _ s)|].
    pose proof (reach_nonneg _ _ _ _ _ _ (d_core _ _ _ _ _ H) Hi). lia. }
  { done. }
  rewrite <- app_assoc. apply plan_app; [done|]. destruct err as [y|]; [cbn; split; [done|by apply plan_tail]|].
  rewrite <- app_assoc. destruct (waits_plan (matters (_workers d)) (flushing (_workers d) st) j (after_plan (_route es ps d) (reach (_workers d) st)) s current ps) as [W1 W2].
  apply plan_app; [done|]. rewrite W2.
  cbn. split; [|by apply plan_tail]. intros i Hi. specialize (R2 i Hi). specialize (Hlen eq_refl). lia.
Qed.

Lemma reconcile_plan M F j s n current es err d rest R :
  (forall i, M i s -> i ∈ everyone d /\ is_Some (_workers d !! i) /\ n <= R i s) -> consecutive j s n es -> plan_ok M F j R rest ->
  plan_ok M F j R (reconcile_rest s n current es err d ++ rest).
Proof.
  revert n R. induction es as [|e es IH]; intros n R HM Hc Hr; cbn [reconcile_rest].
  - destruct err; [by cbn|]. destruct (n =? current); by cbn.
  - destruct (seq e =? n + 1) eqn:En; [|by cbn]. destruct Hc as (C1 & C2 & C3 & C4).
    destruct (route_ok M F j d (everyone d) s n [e] R HM ltac:(by split_and!)) as [R1 R2]. rewrite <- app_assoc. apply plan_app; [done|].
    cbn [app plan_ok]. split.
    + intros i Hi. specialize (R2 i Hi). cbn [length] in R2. lia.
    + rewrite C3. apply IH; [|done|by apply plan_tail]. intros i Hi. destruct (HM i Hi) as (? & ? & _). split_and!; [done|done|].
      specialize (R2 i Hi). cbn [length] in R2. lia.
Qed.

Lemma reconcile_exec x s n current rest d st j l j' es err :
  dispatcher_ok d st j l (ReconcileRead s n current :: rest) -> read s n x j = (j', (es, err)) ->
  dispatcher_ok d st j' l (reconcile_rest s n current es err d ++ rest).
Proof.
  intros H E. destruct (read_consecutive _ _ _ _ _ _ _ (c_journal _ _ _ _ (d_core _ _ _ _ _ H)) E) as (Hj & Hcm & Hcs & _).
  pose proof (d_plan _ _ _ _ _ H) as [P1 P2].
  apply (dispatcher_journal _ _ j); [|done|by apply same_prefix]. apply (dispatcher_plan _ _ _ _ _ _ H).
  destruct (Z.leb_spec 0 n).
  2: { destruct es as [|e es]; cbn [reconcile_rest]; [destruct err; [by cbn|]; destruct (n =? current); by cbn|].
       destruct Hcs as (_ & _ & C3 & _). destruct (Z.eqb_spec (seq e) (n + 1)); [lia|by cbn]. }
  rewrite Z.max_r in Hcs by done. apply reconcile_plan; [|done|done].
  intros i Hi. split_and!; [by apply (matters_everyone _ _ s)|by apply (matters_some _ _ s)|by apply P1].
Qed.

Lemma quiet_worker_ok st j l w w' st' :
  worker_ok st j l w -> quiet w st w' st' -> worker_ok st' j l w'.
Proof.
  intros [W1 W2 W3 W4] Hq. pose proof Hq as [Hs' [Hsp _] Hg He Hl]. split; [done|..].
  - unfold is_recoverable. rewrite Hsp. intros Hr s k. rewrite He. by apply W2.
  - intros Hlw. destruct (Hl Hlw) as [Hlw' ->]. by apply W3.
  - unfold is_recoverable. rewrite Hsp. intros Hlw Hr. destruct (Hl Hlw) as [Hlw' _]. by apply (quiet_fed w st w' st' Hq Hlw), W4.
Qed.

Lemma core_quiet_all ws ws' st j l :
  core ws st j l -> Forall2 (fun w w' => quiet w st w' st) ws ws' -> core ws' st j l /\ evolves ws st ws' st.
Proof.
  intros [H1 H0 H2 H3 H4 H5] Hq.
  assert (forall w', w' ∈ ws' -> exists w, w ∈ ws /\ quiet w st w' st) as Hin.
  { intros w' (i & Hi)%list_elem_of_lookup. destruct (Forall2_lookup_r _ _ _ _ _ Hq Hi) as (w & Hw & Hqw).
    exists w. split; [by eapply list_elem_of_lookup_2|done]. }
  split; [split; [done| | |done|..]|].
  - rewrite <- H0. clear -Hq. induction Hq as [|w w' ws ws' [_ [E _] _ _ _] _ IH]; [done|]. cbn. by rewrite E, IH.
  - assert ((fun w => id w) <$> ws' = (fun w => id w) <$> ws) as ->; [|done].
    clear -Hq. induction Hq as [|w w' ws ws' [_ [E _] _ _ _] _ IH]; [done|]. cbn. by rewrite E, IH.
  - intros w' Hw'. destruct (Hin w' Hw') as (w & Hw & Hqw). apply (quiet_worker_ok st _ _ w); [by apply H4|done].
  - intros x Hx. apply (entry_grows ws _ EmptyString st _ j); [done|done| |by apply H5].
    intros w' Hw'. destruct (Hin w' Hw') as (w & Hw & [_ [E _] _ _ _]). by exists w.
  - split; [|intros i w' Hi; destruct (Forall2_lookup_r _ _ _ _ _ Hq Hi) as (w & Hw & Hqw); exists w; split; [done|by apply quiet_grown]].
    intros i s (w' & Hi & Hl & Ht). destruct (Forall2_lookup_r _ _ _ _ _ Hq Hi) as (w & Hw & [_ [E _] _ He Hq']).
    destruct (Hq' Hl) as [Hlw Eq]. rewrite (tracks_spec _ _ _ E) in Ht. split; [by exists w|]. unfold reach. rewrite Hi, Hw.
    unfold pending. by rewrite Eq, He.
Qed.

Lemma core_sound ws st j l w : core ws st j l -> w ∈ ws -> sound w st.
Proof. intros Hc Hw. by apply (c_workers _ _ _ _ Hc). Qed.

Lemma start_workers_quiet ws st ws' o :
  (forall w, w ∈ ws -> sound w st) -> start_workers ws = (ws', o) -> Forall2 (fun w w' => quiet w st w' st) ws ws'.
Proof.
  revert ws' o. induction ws as [|w ws IH]; intros ws' o Hs; cbn [start_workers]; [by intros [= <- _]|].
  assert (sound w st) as Hw by (apply Hs; left). assert (forall v, v ∈ ws -> sound v st) as Hs' by (intros v Hv; apply Hs; by right).
  destruct (SubscriptionWorker.start w) as [w1 o1] eqn:E. pose proof (start_quiet _ _ _ _ Hw E) as Hq. destruct o1.
  - destruct (start_workers ws) as [ws1 o2] eqn:E2. intros [= <- _]. constructor; [done|by apply (IH _ o2)].
  - intros [= <- _]. constructor; [done|]. clear -Hs'. induction ws as [|v ws IH]; [done|]. constructor.
    + apply quiet_refl, Hs'. left.
    + apply IH. intros x Hx. apply Hs'. by right.
Qed.

Lemma close_now_quiet st w : sound w st -> quiet w st (close_now w) st.
Proof. apply aclose_quiet. Qed.

Lemma close_workers_quiet st ws : (forall w, w ∈ ws -> sound w st) -> Forall2 (fun w w' => quiet w st w' st) ws (close_now <$> ws).
Proof.
  induction ws as [|w ws IH]; intros Hs; [constructor|]. cbn. constructor; [apply close_now_quiet, Hs; left|].
  apply IH. intros v Hv. apply Hs. by right.
Qed.

Lemma dispatcher_quiet_all d d' st j l t :
  dispatcher_ok d st j l t -> Forall2 (fun w w' => quiet w st w' st) (_workers d) (_workers d') -> _cursors d' = _cursors d ->
  _drains d' = _drains d -> dispatcher_ok d' st j l t.
Proof.
  intros H Hq Hc Hdr. destruct (core_quiet_all _ _ _ _ _ (d_core _ _ _ _ _ H) Hq) as [H1 H2]. by apply (dispatcher_move d _ st st j j l l).
Qed.

Lemma verify_committed_same s x j j' o :
  journal_ok j -> verify s x j = (j', o) ->
  journal_ok j' /\ (forall s', committed j s' `prefix_of` committed j' s')
  /\ match o with Ok (true, n) => n = size j s | _ => True end.
Proof.
  intros Hj E. destruct (verify_law _ _ _ _ _ Hj E) as (H1 & H2 & H3). split_and!; [done|by apply same_prefix|done].
Qed.

Lemma close_exec i b rest d st j l w t' :
  dispatcher_ok d st j l rest -> _workers d !! i = Some w ->
  plan_ok (matters (_workers d)) (flushing (_workers d) st) j (reach (_workers d) st) t' ->
  dispatcher_ok (set_worker i (fst (SubscriptionWorker.aclose b w)) d) st j l t'.
Proof.
  intros H Hi Ht. apply (quiet_dispatcher d st j l _ i w); [by eapply dispatcher_plan|done|].
  apply aclose_quiet. by eapply sound_at.
Qed.

(** A flush goes on, or is over and the mailbox is closed. *)
Lemma flush_exec f i fl rest d st j l w w' st' o :
  dispatcher_ok d st j l (FlushWorker i fl :: rest) -> _workers d !! i = Some w -> flush_step f fl w st = (w', st', o) ->
  match o with
  | Ok (Some fl') => dispatcher_ok (set_worker i w' d) st' j l (FlushWorker i fl' :: rest)
  | Ok None => dispatcher_ok (set_worker i (aclose_drained w') d) st' j l (FinishWorker i :: rest)
  | Raise y => dispatcher_ok (set_worker i w' d) st' j l (CloseFailed i y :: rest)
  end.
Proof.
  intros H Hi E. destruct (d_plan _ _ _ _ _ H) as [F P]. assert (i < length (_workers d))%nat as Hlt by by apply lookup_lt_Some in Hi.
  destruct (flush_step_ok _ _ _ _ _ _ _ (sound_at _ _ _ _ _ _ _ H Hi) (F w Hi) E) as [Hq Ho].
  assert (forall t', plan_ok (matters (_workers d)) (flushing (_workers d) st) j (reach (_workers d) st) t' ->
    dispatcher_ok (set_worker i w' d) st' j l t') as Hgo.
  { intros t' Ht. apply (quiet_dispatcher d st j l _ i w); [by eapply dispatcher_plan|done|done]. }
  destruct o as [[fl'|]|y].
  - pose proof (Hgo rest P) as Hr. apply (dispatcher_plan _ _ _ _ rest); [done|]. split; [|apply Hr].
    intros v Hv. cbn in Hv. rewrite list_lookup_insert_eq in Hv by done. injection Hv as <-. by apply Ho.
  - assert (set_worker i (aclose_drained w') d = set_worker i (aclose_drained w') (set_worker i w' d)) as ->.
    { unfold set_worker, with_workers. cbn. by rewrite list_insert_insert_eq. }
    apply (quiet_dispatcher _ st' j l _ i w'); [by apply Hgo|by apply list_lookup_insert_eq|]. apply aclose_drained_quiet, Hq.
  - by apply Hgo.
Qed.

Lemma finish_exec i rest d st j l w w' o t' :
  dispatcher_ok d st j l rest -> _workers d !! i = Some w -> aclose_finish w = Some (w', o) ->
  plan_ok (matters (_workers d)) (flushing (_workers d) st) j (reach (_workers d) st) t' -> dispatcher_ok (set_worker i w' d) st j l t'.
Proof.
  intros H Hi E Ht. apply (quiet_dispatcher d st j l _ i w); [by eapply dispatcher_plan|done|].
  eapply aclose_finish_quiet; [by eapply sound_at|exact E].
Qed.

(** One step of a coroutine keeps the invariant, with what it puts in its place. *)
Lemma exec_ok x f t rest d st j l d' st' j' o :
  dispatcher_ok d st j l (t :: rest) -> exec x f t d st j = Some (d', st', j', o) ->
  dispatcher_ok d' st' j' l (match o with Ok ts => ts ++ rest | Raise _ => [] end)
  /\ (forall s, committed j s `prefix_of` committed j' s).
Proof.
  intros H E. pose proof (d_plan _ _ _ _ _ H) as P. pose proof (plan_cons _ _ _ _ _ _ P) as PR.
  pose proof (c_journal _ _ _ _ (d_core _ _ _ _ _ H)) as Hj.
  assert (dispatcher_ok d st j l []) as Hnil by by apply (dispatcher_plan _ _ _ _ _ _ H).
  assert (forall t', plan_ok (matters (_workers d)) (flushing (_workers d) st) j (reach (_workers d) st) t' -> dispatcher_ok d st j l t') as Hplan
    by (intros t' Ht; by apply (dispatcher_plan _ _ _ _ _ _ H)).
  destruct t as [wt i e|s n|y|[|s todo] reports|reports|s n|s n ps [|i todo] found|s n after ps|i s n|ss|s n|s n cur|i b|i b|i|i fl|i|i y]; cbn [exec] in E.
  - destruct (_workers d !! i) as [w|] eqn:Hi.
    2: { injection E as <- <- <- <-. split; [|done]. apply Hplan. cbn [plan_ok app] in *. destruct P as (_ & _ & P).
         eapply plan_mono; [|done|done|exact P]. intros k s Hm. split; [done|]. unfold bump. case_decide as Hd; [|done].
         destruct Hd as [-> ->], Hm as (w & Hw & _). congruence. }
    destruct (publish wt e w) as [[w' o']|] eqn:Ep.
    + pose proof (publish_exec _ _ _ _ _ _ _ _ _ _ _ H Hi Ep) as Hok. destruct o'; injection E as <- <- <- <-; by split.
    + destruct wt; [done|]. injection E as <- <- <- <-. split; [by apply Hplan|done].
  - injection E as <- <- <- <-. split; [|done]. destruct P as [P1 P2]. by apply dispatcher_cursor; [apply Hplan|].
  - injection E as <- <- <- <-. by split.
  - injection E as <- <- <- <-. split; [|done]. apply Hplan. by destruct P.
  - destruct (verify s x j) as [j1 o1] eqn:Ev. destruct (verify_committed_same _ _ _ _ _ Hj Ev) as (V1 & V2 & V3).
    destruct o1 as [[[|] n]|y]; injection E as <- <- <- <-; (split; [|done]); apply (dispatcher_journal _ _ j); try done.
    apply Hplan. destruct P as [P1 P2]. split; [|done]. intros s' m [Hm|Hm]%elem_of_app; [by apply P1|].
    apply list_elem_of_singleton in Hm. injection Hm as -> ->. lia.
  - destruct (start_workers (_workers d)) as [ws o1] eqn:Es.
    pose proof (start_workers_quiet _ st _ _ (fun w => core_sound _ _ _ _ w (d_core _ _ _ _ _ H)) Es) as Hq.
    destruct o1; injection E as <- <- <- <-; (split; [|done]); apply (dispatcher_quiet_all d); try done; apply Hplan.
    destruct P as [P1 P2]. clear -P1 P2. induction reports as [|[s n] reports IH]; [done|]. cbn. split; [apply P1; left|].
    apply IH. intros s' m Hm. apply P1. by right.
  - pose proof (restore_exec _ _ _ _ _ _ _ H) as Hr. cbv zeta in Hr. destruct (bool_decide _); injection E as <- <- <- <-; by split.
  - destruct (existsb _ found); injection E as <- <- <- <-; (split; [|done]); [done|]. apply Hplan. destruct P as [[P0 P1] P2].
    split; [|done]. split; [done|]. intros i Hi. destruct (P1 i Hi) as [K1 [K2|(m & K2 & K3)]]; [by apply not_elem_of_nil in K2|].
    split; [done|]. pose proof (min_from_le (hd 0 found) found m (or_intror K2)). lia.
  - destruct (_workers d !! i) as [w|] eqn:Hi.
    + destruct (checkpoint s f w st) as [w' o1] eqn:Ec. pose proof (load_exec _ _ _ _ _ _ _ _ _ _ _ _ _ _ _ H Hi Ec) as Hok.
      destruct o1; injection E as <- <- <- <-; by split.
    + injection E as <- <- <- <-. split; [|done]. apply Hplan. destruct P as [[P0 P1] P2]. split; [|done]. split; [done|].
      intros k Hk. destruct (P1 k Hk) as [K1 [K2|K2]]; (split; [done|]); [|by right]. apply elem_of_cons in K2 as [->|K2]; [|by left].
      destruct Hk as (w & Hw & _). congruence.
  - destruct (read s after x j) as [j1 [es err]] eqn:Er. injection E as <- <- <- <-.
    destruct (read_consecutive _ _ _ _ _ _ _ Hj Er) as (_ & Hcm & _). split; [by eapply replay_exec|by apply same_prefix].
  - destruct (_workers d !! i) as [w|]; [destruct (wait_until s n w) as [[|]|]; [..|done]|]; injection E as <- <- <- <-; (split; [|done]);
      [by apply Hplan|done|by apply Hplan].
  - injection E as <- <- <- <-. split; [|done]. destruct H as [H1 H2 H3 H4]. by split.
  - destruct (verify s x j) as [j1 o1] eqn:Ev. destruct (verify_committed_same _ _ _ _ _ Hj Ev) as (V1 & V2 & _).
    assert (dispatcher_ok d st j1 l []) as Hn1 by by apply (dispatcher_journal _ _ j).
    destruct o1 as [[v cur]|y]; [destruct (negb v || _)|]; injection E as <- <- <- <-; (split; [|done]); try done.
    apply (dispatcher_journal _ _ j); try done. apply Hplan. by destruct P.
  - destruct (read s n x j) as [j1 [es err]] eqn:Er. injection E as <- <- <- <-.
    destruct (read_consecutive _ _ _ _ _ _ _ Hj Er) as (_ & Hcm & _). split; [by eapply reconcile_exec|by apply same_prefix].
  - destruct (_workers d !! i); injection E as <- <- <- <-; (split; [|done]); by apply Hplan.
  - destruct (_workers d !! i) as [w|] eqn:Hi; [|injection E as <- <- <- <-; (split; [by apply Hplan|done])].
    pose proof (fun t' => close_exec i b _ d st j l w t' H Hi) as Hc. destruct (SubscriptionWorker.aclose b w) as [w' more].
    injection E as <- <- <- <-. split; [|done]. apply (Hc _). by destruct more.
  - destruct (_workers d !! i) as [w|] eqn:Hi; [|injection E as <- <- <- <-; (split; [by apply Hplan|done])].
    destruct (SubscriptionWorker.drain w) as [[fl|y]|] eqn:Ed; [..|done]; injection E as <- <- <- <-; (split; [|done]); apply Hplan; [|done].
    split; [|done]. intros v Hv. rewrite Hi in Hv. injection Hv as <-. apply (drain_begins _ st _ (sound_at _ _ _ _ _ _ _ H Hi) Ed).
  - destruct (_workers d !! i) as [w|] eqn:Hi; [|injection E as <- <- <- <-; (split; [apply Hplan; by destruct P|done])].
    destruct (flush_step f fl w st) as [[w' st1] o1] eqn:Ef. pose proof (flush_exec _ _ _ _ _ _ _ _ _ _ _ _ H Hi Ef) as Hok.
    destruct o1 as [[fl'|]|y]; injection E as <- <- <- <-; by split.
  - destruct (_workers d !! i) as [w|] eqn:Hi; [|injection E as <- <- <- <-; (split; [by apply Hplan|done])].
    destruct (aclose_finish w) as [[w' o1]|] eqn:Ec; [|done].
    destruct o1; injection E as <- <- <- <-; (split; [|done]); eapply finish_exec; try done.
  - cbn in E. destruct (_workers d !! i) as [w|]; [destruct (SubscriptionWorker._state w)|]; injection E as <- <- <- <-; (split; [|done]);
      destruct H as [H1 H2 H3 H4]; by split.
Qed.

(** ** Dispatching what was committed *)

Lemma contiguous_consecutive j s n es :
  contiguous s n es = true -> (forall e, e ∈ es -> e ∈ committed j s) -> consecutive j s n es.
Proof.
  revert n. induction es as [|e es IH]; intros n; cbn; [done|]. rewrite !andb_true_iff, bool_decide_eq_true, Z.eqb_eq.
  intros [[H1 H2] H3] Hin. split_and!; [apply Hin; left|done|done|]. apply IH; [done|]. intros e' He'. apply Hin. by right.
Qed.

Lemma dispatch_plan d st j l s r t :
  dispatcher_ok d st j l [] -> result_stream r = s -> (forall e, e ∈ envelopes r -> e ∈ committed j s) ->
  dispatch r d = Ok t -> dispatcher_ok d st j l t.
Proof.
  intros H <- Hin. unfold dispatch. destruct (_state d); try discriminate.
  intros ([] & Hv & E)%outcome_bind_ok. unfold _validate_append in Hv. apply outcome_bind_ok in Hv as (n & Hc & Hv).
  destruct (negb (_ =? n)); [discriminate Hv|]. destruct (Z.eqb_spec (current_version r) (n + Z.of_nat (length (envelopes r)))) as [Hcur|]; [|discriminate Hv].
  cbn [negb] in Hv. destruct (contiguous _ _ _) eqn:Hct; [|discriminate Hv]. injection E as <-.
  unfold cursor in Hc. destruct (Dict.get _ _) as [m|] eqn:Hg; [|discriminate Hc]. injection Hc as ->.
  pose proof (d_cursors _ _ _ _ _ H _ _ Hg) as Hr. apply (dispatcher_plan _ _ _ _ _ _ H).
  destruct (route_ok (matters (_workers d)) (flushing (_workers d) st) j d (everyone d) (result_stream r) n (envelopes r) (reach (_workers d) st)) as [R1 R2].
  - intros i Hi. split_and!; [by apply (matters_everyone _ _ _ Hi)|by eapply matters_some|by apply Hr].
  - by apply contiguous_consecutive.
  - apply plan_app; [done|]. cbn. split; [|done]. intros i Hi. specialize (R2 i Hi). lia.
Qed.

Lemma reconcile_start_plan d st j l s t : dispatcher_ok d st j l [] -> reconcile s d = Ok t -> dispatcher_ok d st j l t.
Proof.
  intros H. unfold reconcile. destruct (_state d); try discriminate. intros (n & Hc & [= <-])%outcome_bind_ok.
  unfold cursor in Hc. destruct (Dict.get _ _) as [m|] eqn:Hg; [|discriminate Hc]. injection Hc as ->.
  apply (dispatcher_plan _ _ _ _ _ _ H). cbn. split; [|done]. by apply (d_cursors _ _ _ _ _ H).
Qed.

Lemma close_plan M F j R (ps : list nat) b : plan_ok M F j R ((fun i => CloseWorker i b) <$> ps).
Proof. induction ps; [done|]. cbn. by split. Qed.

(** ** The system *)

Notation system := (System Rest J).

Implicit Types (y : system).

Definition system_ok y : Prop :=
  dispatcher_ok (dispatcher (fabric y)) (store y) (journal y) (settlements y) (todo_of (activity (fabric y))).

(** Opening and closing the store keep its tables. *)
Lemma core_connection b ws st j l : core ws st j l -> core ws (mkStore b (checkpoints st) (dead_letters st)) j l.
Proof.
  intros [H1 H0 H2 H3 H4 H5]. split; [done|done|done|done| |done]. intros w Hw. destruct (H4 w Hw) as [[[K1 K2 K3 K4 K5] Hm Hp Hn] W2 W3 W4].
  split; [|done|done|done]. by split.
Qed.

Lemma dispatcher_connection b d st j l t :
  dispatcher_ok d st j l t -> dispatcher_ok d (mkStore b (checkpoints st) (dead_letters st)) j l t.
Proof. intros [H1 H2 H3 H4]. split; [by apply core_connection|done|done|]. intros c Hc. by destruct (H4 c Hc). Qed.

Lemma open_ok x d st st' j l t o : dispatcher_ok d st j l t -> _open_sync x st = (st', o) -> dispatcher_ok d st' j l t.
Proof.
  intros H. unfold _open_sync. destruct (_connection st); [by intros [= <- _]|]. destruct x; intros [= <- _]; [done|].
  by apply dispatcher_connection.
Qed.

Lemma state_ok d d' st j l t : dispatcher_ok d st j l t -> _workers d' = _workers d -> _cursors d' = _cursors d ->
  _drains d' = _drains d -> dispatcher_ok d' st j l t.
Proof. intros [H1 H2 H3 H4] Hw Hc Hd. split; by rewrite ?Hw, ?Hc, ?Hd. Qed.

Lemma close_workers_ok d st j l t : dispatcher_ok d st j l t -> dispatcher_ok (_close_workers d) st j l t.
Proof.
  intros H. apply (dispatcher_quiet_all d); [done| |done|done]. apply close_workers_quiet. intros w Hw. by eapply core_sound; [apply H|].
Qed.

Definition fresh_label (lb : Label Rest J port) y : Prop :=
  match lb with
  | Foreign s facts _ _ => new_facts s facts (journal y)
  | Acquire _ _ => forall s facts rest, inflight (fabric y) = (s, facts) :: rest -> new_facts s facts (journal y)
  | Go _ _ _ => forall s facts t, activity (fabric y) = Reconciling s facts t -> new_facts s facts (journal y)
  | _ => True
  end.

Lemma append_committed_ok s facts n x y j' o :
  system_ok y -> new_facts s facts (journal y) -> append s facts n x (journal y) = (j', o) ->
  dispatcher_ok (dispatcher (fabric y)) (store y) j' (settlements y) []
  /\ match o with Ok r => result_stream r = s /\ forall e, e ∈ envelopes r -> e ∈ committed j' s | Raise _ => True end.
Proof.
  intros H Hf E. pose proof (c_journal _ _ _ _ (d_core _ _ _ _ _ H)) as Hj.
  destruct (append_law _ _ _ _ _ _ _ Hj Hf E) as (Hj' & Hp & Ho). split.
  - eapply dispatcher_journal; [by eapply dispatcher_plan|done|done].
  - destruct o as [r|]; [|done]. destruct Ho as (H1 & H2 & _). split; [done|]. intros e He. rewrite H1. apply elem_of_app. by right.
Qed.

(** *** Replies and commits *)

Lemma replied_ok s facts o f y d :
  dispatcher f = d -> dispatcher_ok d (store y) (journal y) (settlements y) [] -> system_ok (replied s facts o f y).
Proof. by intros <- H. Qed.

Lemma append_failed_ok s facts (z : exn) f y :
  dispatcher_ok (dispatcher f) (store y) (journal y) (settlements y) [] -> system_ok (append_failed s facts z f y).
Proof. intros H. unfold append_failed, journal_failed. by destruct z. Qed.

Lemma committed_append_ok s facts r hook f y :
  dispatcher_ok (dispatcher f) (store y) (journal y) (settlements y) [] -> result_stream r = s ->
  (forall e, e ∈ envelopes r -> e ∈ committed (journal y) s) -> system_ok (committed_append s facts r hook f y).
Proof.
  intros H Hs Hin. unfold committed_append. destruct hook; [done|].
  destruct (dispatch r (dispatcher f)) as [t|x] eqn:E; [|done]. by apply (dispatch_plan _ _ _ _ s r).
Qed.

Lemma append_first_ok s facts x hook f y :
  system_ok y -> new_facts s facts (journal y) -> dispatcher f = dispatcher (fabric y) ->
  system_ok (_append_committed s facts x hook f y).
Proof.
  intros H Hf Hd. unfold _append_committed. rewrite Hd.
  assert (dispatcher_ok (dispatcher f) (store y) (journal y) (settlements y) []) as H0 by (rewrite Hd; by eapply dispatcher_plan).
  destruct (cursor s _) as [n|e]; [|done]. destruct (append s facts n x (journal y)) as [j' o] eqn:E.
  destruct (append_committed_ok _ _ _ _ _ _ _ H Hf E) as [H1 Ho]. rewrite <- Hd in H1.
  destruct o as [r|e]; [destruct Ho; by apply committed_append_ok|].
  destruct e; try by apply append_failed_ok. destruct (actual <=? n); [by apply append_failed_ok|].
  destruct (reconcile s _) as [t|e] eqn:Er; [|by apply append_failed_ok]. rewrite Hd in H1.
  unfold system_ok. cbn. rewrite Hd. by apply (reconcile_start_plan _ _ _ _ s).
Qed.

Lemma append_again_ok s facts x hook f y :
  system_ok y -> new_facts s facts (journal y) -> dispatcher f = dispatcher (fabric y) ->
  system_ok (append_again s facts x hook f y).
Proof.
  intros H Hf Hd. unfold append_again. rewrite Hd.
  assert (dispatcher_ok (dispatcher f) (store y) (journal y) (settlements y) []) as H0 by (rewrite Hd; by eapply dispatcher_plan).
  destruct (cursor s _) as [n|e]; [|done]. destruct (append s facts n x (journal y)) as [j' o] eqn:E.
  destruct (append_committed_ok _ _ _ _ _ _ _ H Hf E) as [H1 Ho]. rewrite <- Hd in H1.
  destruct o as [r|e]; [destruct Ho; by apply committed_append_ok|by apply append_failed_ok].
Qed.

(** *** The coroutine *)

Lemma finish_ok x hook y :
  system_ok y -> (forall s facts t, activity (fabric y) = Reconciling s facts t -> new_facts s facts (journal y)) ->
  todo_of (activity (fabric y)) = [] -> system_ok (finish x hook (fabric y) y).
Proof.
  intros H Hf Ht. unfold finish. unfold system_ok in H. rewrite Ht in H. destruct (activity (fabric y)) as [|t|s facts t|s facts r t|t] eqn:Ea.
  - unfold system_ok. by rewrite Ea, Ht.
  - done.
  - apply append_again_ok; [unfold system_ok; by rewrite Ea, Ht|by eapply Hf|done].
  - done.
  - unfold system_ok. cbn. destruct (has_store (fabric y)); [apply dispatcher_connection|]; by eapply state_ok.
Qed.

Lemma interrupt_ok (z : exn) y :
  dispatcher_ok (dispatcher (fabric y)) (store y) (journal y) (settlements y) [] -> system_ok (interrupt z (fabric y) y).
Proof.
  intros H. unfold interrupt. destruct (activity (fabric y)) as [|t|s facts t|s facts r t|t] eqn:Ea.
  - unfold system_ok. by rewrite Ea.
  - unfold starting_failed, system_ok. cbn. pose proof (close_workers_ok (failed z (dispatcher (fabric y))) _ _ _ _ ltac:(by eapply state_ok)) as Hc.
    destruct (has_store (fabric y)); [by apply dispatcher_connection|done].
  - by apply append_failed_ok.
  - apply (replied_ok _ _ _ _ _ (failed z (dispatcher (fabric y)))); [done|by eapply state_ok].
  - unfold system_ok. cbn. pose proof (close_workers_ok _ _ _ _ _ H) as Hc.
    destruct (has_store (fabric y)); [apply dispatcher_connection|]; by eapply state_ok.
Qed.

Lemma go_ok x ft hook y y' : system_ok y -> fresh_label (Go x ft hook) y -> go x ft hook y = Some y' -> system_ok y'.
Proof.
  intros H Hf. unfold go. destruct (activity (fabric y)) as [|t|s facts t|s facts r t|t] eqn:Ea; [done|..].
  all: destruct t as [|t rest]; cbn [todo_of]; [intros [= <-]; apply finish_ok; [done|done|by rewrite Ea]|].
  all: unfold system_ok in H; rewrite Ea in H; cbn [todo_of] in H.
  all: destruct (exec _ _ _ _ _ _) as [[[[d st] j] o]|] eqn:E; [|done].
  all: destruct (exec_ok _ _ _ _ _ _ _ _ _ _ _ _ H E) as [Hok _].
  all: destruct o as [ts|z]; intros [= <-]; [done|].
  all: apply (interrupt_ok z (mkSystem (with_dispatcher d (fabric y)) st j (settlements y) (replies y))); exact Hok.
Qed.

(** *** A new process *)

Definition is_new (hs : bool) (s : SubscriptionSpec) w : Prop :=
  w = mkWorker s hs SubscriptionMailbox.new_mailbox SubscriptionWorker.NEW NoTask None [] [] []
  /\ (recoverable (reliability s) = true -> hs = true).

Lemma new_workers_spec hs specs ws : new_workers specs hs = Ok ws -> Forall2 (is_new hs) specs ws.
Proof.
  revert ws. induction specs as [|s specs IH]; intros ws; cbn; [by intros [= <-]|].
  intros (w & Hw & (ws' & Hws & [= <-])%outcome_bind_ok)%outcome_bind_ok. constructor; [|by apply IH].
  unfold new_worker in Hw. destruct (recoverable (reliability s)) eqn:Hr; cbn in Hw.
  - destruct hs; [|done]. injection Hw as <-. by split.
  - injection Hw as <-. split; [done|]. by rewrite Hr.
Qed.

Lemma new_worker_sound hs s w st : is_new hs s w -> valid_spec s = true -> sound w st.
Proof.
  intros [-> Hr] Hv. split; [split|split|..]; try done; cbn; [constructor|lia].
Qed.

(** What the store holds for a recoverable subscription is covered by what was settled. *)
Definition store_covered (st : StateStore) l : Prop :=
  forall s, s ∈ manifest -> recoverable (reliability s) = true -> forall stream k, 1 <= k <= stored st (identity s) stream -> resolved l (identity s) stream k.

Lemma new_fabric_ok streams hs f st j l :
  new_fabric streams manifest hs = Ok f -> journal_ok j -> (forall i s, 0 <= stored st i s) -> store_covered st l ->
  (forall x ws, (fun w => spec w) <$> ws = manifest -> x ∈ l -> entry_ok ws st j x) ->
  dispatcher_ok (dispatcher f) st j l [] /\ activity f = Idle.
Proof.
  unfold new_fabric. intros E Hj Hn Hcov Hl. destruct (_ || negb _) eqn:Hv; [done|].
  apply orb_false_iff in Hv as [_ Hv]. apply negb_false_iff, andb_true_iff in Hv as [Hv Hnd]. apply bool_decide_eq_true in Hnd.
  apply outcome_bind_ok in E as (d & Hd & [= <-]). unfold new_dispatcher in Hd. apply outcome_bind_ok in Hd as (ws & Hws & [= <-]).
  apply new_workers_spec in Hws. split; [|done]. assert ((fun w => spec w) <$> ws = manifest) as Hspec.
  { clear -Hws. induction Hws as [|s w specs ws [-> _] _ IH]; [done|]. cbn. by rewrite IH. }
  assert (forall w, w ∈ ws -> exists s, s ∈ manifest /\ is_new hs s w) as Hin.
  { intros w (i & Hi)%list_elem_of_lookup. destruct (Forall2_lookup_r _ _ _ _ _ Hws Hi) as (s & Hs & Hnw).
    exists s. split; [by eapply list_elem_of_lookup_2|done]. }
  split; [split; [done|done| |done| |]|done|done|by intros c ?%not_elem_of_nil].
  - cbn. rewrite <- Hspec in Hnd. by rewrite <- list_fmap_compose in Hnd.
  - intros w Hw. destruct (Hin w Hw) as (s & Hs & Hnw). assert (valid_spec s = true) as Hvs.
    { rewrite forallb_forall in Hv. apply Hv. by apply list_elem_of_In. }
    split; [by apply (new_worker_sound hs s)|..]; destruct Hnw as [-> Hr]; cbn.
    + unfold is_recoverable, eff, base. cbn. intros Hrec stream k. rewrite (Hr Hrec). by apply Hcov.
    + by intros _ e He%not_elem_of_nil.
    + by intros _ _ stream.
  - intros x Hx. by apply Hl.
Qed.

Lemma crash_ok y y' : system_ok y -> crash y = Some y' -> system_ok y'.
Proof.
  intros H. unfold crash. destruct (new_fabric _ _ _) as [f|z] eqn:E; [|done]. intros [= <-].
  pose proof (d_core _ _ _ _ _ H) as [C1 C0 C2 C3 C4 C5]. destruct (reopen_law _ C1) as [Hj Hsame]. rewrite C0 in E.
  destruct (new_fabric_ok _ _ _ (_close_sync (store y)) (reopen (journal y)) (settlements y) E) as [Hd Ha].
  - done.
  - done.
  - intros s Hs Hrec stream k Hk. rewrite <- C0 in Hs. apply list_elem_of_fmap in Hs as (w & -> & Hw).
    destruct (C4 w Hw) as [[K _ _ _] Hcov _ _]. apply Hcov; [done|]. change (stored _ (identity (spec w)) stream) with (stored (store y) (identity (spec w)) stream) in Hk.
    pose proof (k_store _ _ K Hrec) as Hst. assert (stored (store y) (identity (spec w)) stream <= eff w (store y) stream); [|lia].
    unfold eff. destruct (Dict.get stream _) as [n|] eqn:En; cbn; [pose proof (k_ack _ _ K _ _ En) as Ha|]; unfold base in *; by rewrite Hst in *.
  - intros [[i e] x] ws Hws Hx. destruct (C5 _ Hx) as (E1 & E2 & E3). split_and!; [by rewrite Hsame|done|].
    intros w' Hw' Hi. apply (list_elem_of_fmap_2 (fun w => spec w)) in Hw'. rewrite Hws, <- C0 in Hw'. apply list_elem_of_fmap in Hw' as (w & Es & Hw).
    specialize (E3 w Hw). unfold is_recoverable in *. rewrite Es in Hi |- *. by apply E3.
  - unfold system_ok. cbn. by rewrite Ha.
Qed.

(** *** Draining *)

Lemma stored_eff w st s : kept w st -> is_recoverable w = true -> stored st (id w) s <= eff w st s.
Proof.
  intros K Hr. pose proof (k_store _ _ K Hr) as Hst. unfold eff.
  destruct (Dict.get s _) as [n|] eqn:En; cbn; [pose proof (k_ack _ _ K _ _ En) as Ha|]; unfold base in *; by rewrite Hst in *.
Qed.

(** A call that is made owes every worker what it was fed. *)
Lemma drain_called_ok d st j l t : dispatcher_ok d st j l t -> dispatcher_ok (drain d) st j l t.
Proof.
  intros [H1 H2 H3 H4]. split; [done|done|done|]. cbn. intros c [Hc|Hc]%elem_of_app; [by apply H4|].
  apply list_elem_of_singleton in Hc as ->.
  split; [cbn; by destruct (places _ d)|]. cbn [since phase]. intros s n i Hn Hm. left. split; [|by apply H2]. cbn [waiting].
  destruct Hm as (w & Hw & _ & Ht). apply places_elem. exists w. split; [done|by eapply tracks_recoverable].
Qed.

Lemma drains_insert d st j l t k c :
  dispatcher_ok d st j l t -> drain_ok (_workers d) st c -> dispatcher_ok (with_drains (<[k := c]> (_drains d)) d) st j l t.
Proof.
  intros [H1 H2 H3 H4] Hc. split; [done|done|done|]. cbn. intros c' Hin%list_elem_of_lookup. destruct Hin as [k' Hk'].
  destruct (decide (k' = k)) as [->|Hne].
  - destruct (decide (k < length (_drains d))%nat) as [Hlt|Hge].
    + rewrite list_lookup_insert_eq in Hk' by done. by injection Hk' as <-.
    + rewrite list_insert_ge in Hk' by lia. apply H4. by eapply list_elem_of_lookup_2.
  - rewrite list_lookup_insert_ne in Hk' by done. apply H4. by eapply list_elem_of_lookup_2.
Qed.

(** What a call whose turn it is at worker [i] owes a worker [k]. *)
Lemma owed_others ws st i k todo fl p s n :
  owed ws st k s n (Draining (i :: todo) fl) -> k <> i -> p = Draining todo None \/ (exists fl', p = Draining (i :: todo) (Some fl')) ->
  owed ws st k s n p.
Proof.
  intros Ho Hne Hp. cbn in Ho. assert ((k ∈ todo /\ n <= reach ws st k s) \/ exists w, ws !! k = Some w /\ flush_owes w st (Checking []) s n) as H.
  { destruct Ho as [[H1 H2]|H].
    - left. split; [|done]. destruct fl; [done|]. by apply elem_of_cons in H1 as [?|].
    - right. destruct fl; [|done]. by rewrite decide_False in H by congruence. }
  destruct Hp as [->|[fl' ->]]; [exact H|]. cbn. by rewrite decide_False by congruence.
Qed.

(** The flush of a worker begins. *)
Lemma join_ok d st j l t i todo c fl w :
  dispatcher_ok d st j l t -> drain_ok (_workers d) st c -> phase c = Draining (i :: todo) None -> _workers d !! i = Some w ->
  SubscriptionWorker.drain w = Some (Ok fl) -> drain_ok (_workers d) st (mkDrain (since c) (Draining (i :: todo) (Some fl))).
Proof.
  intros H [_ Hc] Hp Hi Hd. pose proof (sound_at _ _ _ _ _ _ _ H Hi) as Hs. destruct (drain_begins w st fl Hs Hd) as [Hf Hq].
  split; cbn [phase since]; [intros v Hv; by rewrite Hi in Hv; injection Hv as <-|].
  intros s n k Hn Hm. pose proof (Hc s n k Hn Hm) as Ho. rewrite Hp in Ho. destruct (decide (k = i)) as [->|Hne].
  2: { eapply owed_others; [exact Ho|done|right; by eexists]. }
  destruct Hm as (w' & Hw' & Hl & Ht). assert (w' = w) as -> by congruence.
  destruct (Hq Hl (k_store _ _ (s_kept _ _ Hs) (tracks_recoverable _ _ Ht))) as [Hemp Hfl].
  assert (n <= eff w st s) as Hle.
  { destruct Ho as [[_ Hr]|(v & Hv & [Hst|(m & Hx%not_elem_of_nil & _)])]; [| |by destruct Hx].
    - unfold reach, pending in Hr. by rewrite Hi, Hemp in Hr.
    - assert (v = w) as -> by congruence. pose proof (stored_eff w st s (s_kept _ _ Hs) (tracks_recoverable _ _ Ht)) as Hse.
      pose proof (reach_nonneg _ _ _ _ _ s (d_core _ _ _ _ _ H) (ex_intro _ w (conj Hi (conj Hl Ht)))) as H0.
      unfold reach, pending in H0. rewrite Hi, Hemp in H0. cbn in H0. lia. }
  right. exists w. split; [done|]. cbn. rewrite decide_True by done. destruct (Hfl s) as [Hst|(m & Hm & Hle')]; [left; lia|].
  right. exists m. split; [done|lia].
Qed.

(** It goes on, or is over. *)
Lemma flushed_ok f d st j l t i todo c fl w w' st' o :
  dispatcher_ok d st j l t -> drain_ok (_workers d) st c -> phase c = Draining (i :: todo) (Some fl) -> _workers d !! i = Some w ->
  flush_step f fl w st = (w', st', o) ->
  dispatcher_ok (set_worker i w' d) st' j l t
  /\ drain_ok (<[i := w']> (_workers d)) st' (mkDrain (since c)
       (match o with Ok (Some fl) => Draining (i :: todo) (Some fl) | Ok None => Draining todo None | Raise y => Drained (Raise y) end)).
Proof.
  intros H Hc Hp Hi E. assert (i < length (_workers d))%nat as Hlt by by apply lookup_lt_Some in Hi.
  pose proof (dr_flush _ _ _ Hc) as Hfl. rewrite Hp in Hfl.
  destruct (flush_step_ok _ _ _ _ _ _ _ (sound_at _ _ _ _ _ _ _ H Hi) (Hfl w Hi) E) as [Hq Ho].
  split; [by apply (quiet_dispatcher d st j l _ i w)|].
  destruct (quiet_core _ _ _ _ _ _ _ _ (d_core _ _ _ _ _ H) Hi Hq) as [_ He].
  destruct o as [r|y]; [|by split]. destruct Ho as [Hok Howes]. split; cbn [phase since].
  { destruct r as [fl'|]; [|by destruct todo]. intros v Hv. rewrite list_lookup_insert_eq in Hv by done. injection Hv as <-. by apply Hok. }
  intros s n k Hn Hm. destruct (ev_reach _ _ _ _ He k s Hm) as [Hm0 _]. pose proof (dr_owed _ _ _ Hc s n k Hn Hm0) as Hw.
  rewrite Hp in Hw. destruct (decide (k = i)) as [->|Hne].
  2: { apply (owed_evolves _ _ _ _ _ _ _ _ He Hm). eapply owed_others; [exact Hw|done|destruct r; [right; by eexists|by left]]. }
  cbn in Hw. rewrite decide_True in Hw by done. destruct Hw as [[H1 H2]|(v & Hv & Hfo)].
  - pose proof (proj2 (ev_reach _ _ _ _ He i s Hm)) as Hre. assert (n <= reach (<[i := w']> (_workers d)) st' i s) as Hn' by lia.
    destruct r; left; by split.
  - assert (v = w) as -> by congruence. specialize (Howes s n Hfo).
    destruct r as [fl'|]; right; exists w'; (split; [by apply list_lookup_insert_eq|]); [|done]. cbn. by rewrite decide_True.
Qed.

Lemma drain_step_ok k f d st j l t d' st' :
  dispatcher_ok d st j l t -> drain_step k f d st = Some (d', st') -> dispatcher_ok d' st' j l t.
Proof.
  intros H. unfold drain_step. destruct (_drains d !! k) as [c|] eqn:Hk; [|done]. cbn [mbind option_bind].
  assert (drain_ok (_workers d) st c) as Hc by (apply H; by eapply list_elem_of_lookup_2).
  unfold drain_phase. destruct (phase c) as [[|i todo] fl|o] eqn:Hp; [| |done]; cbn [mbind option_bind].
  - intros [= <- <-]. apply drains_insert; [done|]. split; [done|]. cbn. intros s n i Hn Hm. pose proof (dr_owed _ _ _ Hc s n i Hn Hm) as Ho.
    rewrite Hp in Ho. destruct fl; exact Ho.
  - destruct (_workers d !! i) as [w|] eqn:Hi.
    + destruct fl as [fl|].
      * destruct (flush_step f fl w st) as [[w' st1] o] eqn:E. destruct (flushed_ok _ _ _ _ _ _ _ _ _ _ _ _ _ _ H Hc Hp Hi E) as [H1 H2].
        cbn [mbind option_bind]. intros [= <- <-]. by apply (drains_insert (set_worker i w' d)).
      * destruct (SubscriptionWorker.drain w) as [[fl|y]|] eqn:Ed; [..|done]; cbn [mbind option_bind]; intros [= <- <-];
          (apply drains_insert; [done|]); [by eapply join_ok|by split].
    + cbn [mbind option_bind]. intros [= <- <-]. apply drains_insert; [done|]. split; [cbn; by destruct todo|]. cbn [phase since].
      intros s n k' Hn Hm. pose proof (dr_owed _ _ _ Hc s n k' Hn Hm) as Ho. rewrite Hp in Ho.
      eapply owed_others; [exact Ho| |by left]. intros ->. destruct Hm as (w & Hw & _). congruence.
Qed.

(** *** Every label *)

Lemma fabric_start_ok x y : system_ok y -> let (f, st) := fabric_start x (fabric y) (store y) in system_ok (mkSystem f st (journal y) (settlements y) (replies y)).
Proof.
  intros H. unfold fabric_start. assert (dispatcher_ok (dispatcher (fabric y)) (store y) (journal y) (settlements y) []) as H0 by by eapply dispatcher_plan.
  cbn [has_store becomes]. destruct (if has_store (fabric y) then _ else _) as [st o] eqn:E.
  assert (dispatcher_ok (dispatcher (fabric y)) st (journal y) (settlements y) []) as H1.
  { destruct (has_store (fabric y)); [by eapply open_ok|by injection E as <- _]. }
  destruct o as [[]|z]; [|done]. cbn [streams dispatcher becomes].
  unfold CommittedEventDispatcher.start. destruct (_state (dispatcher (fabric y))).
  1: destruct (bool_decide _).
  1: { apply (dispatcher_plan _ _ _ _ []); [by eapply state_ok|]. cbn. split; [|done]. by intros s n ?%not_elem_of_nil. }
  all: unfold system_ok; cbn; destruct (has_store (fabric y)); [by apply dispatcher_connection|done].
Qed.

Lemma label_ok lb y y' : system_ok y -> fresh_label lb y -> run_label describe lb y = Some y' -> system_ok y'.
Proof.
  intros H Hf. assert (dispatcher_ok (dispatcher (fabric y)) (store y) (journal y) (settlements y) []) as H0 by by eapply dispatcher_plan.
  destruct lb as [x|tl s facts|x hook|x ft hook|i c|s facts n x| | | |k ft|]; cbn [run_label].
  - destruct (bool_decide _); [|done]. pose proof (fabric_start_ok x y H) as Hs. destruct (fabric_start x _ _). by intros [= <-].
  - destruct (_assert_write_ready _ _); by intros [= <-].
  - destruct (activity (fabric y)) eqn:Ea; try done. destruct (inflight (fabric y)) as [|[s facts] rest] eqn:Ei; [done|]. intros [= <-].
    apply append_first_ok; [done|by eapply Hf|done].
  - by apply go_ok.
  - destruct (_workers _ !! i) as [w|] eqn:Hi; [|done]. destruct (step describe c w (store y)) as [[[w' st] r]|] eqn:E; [|done]. intros [= <-].
    destruct (work_core _ _ _ _ _ _ _ _ _ _ (d_core _ _ _ _ _ H) Hi E) as [Hc He].
    assert ((match r with Some (e, k) => settlements y ++ [(id w, e, k)] | None => settlements y end) = settlements y ++ reported w r) as Hr.
    { destruct r as [[e k]|]; [done|]. by rewrite app_nil_r. }
    unfold system_ok. cbn. rewrite Hr. by eapply dispatcher_move.
  - intros [= <-]. unfold system_ok. cbn. destruct (append s facts n x (journal y)) as [j o] eqn:E.
    destruct (append_law _ _ _ _ _ _ _ (c_journal _ _ _ _ (d_core _ _ _ _ _ H)) Hf E) as (Hj & Hp & _). by eapply dispatcher_journal.
  - destruct (f_state (fabric y)); try done; intros [= <-]; try done. unfold system_ok. cbn.
    apply (state_ok (_close_workers (dispatcher (fabric y)))); [by apply close_workers_ok|done|done|done].
  - destruct (activity (fabric y)) eqn:Ea; try done. destruct (inflight _); [|done]. destruct (_ && _); [|done]. intros [= <-].
    unfold system_ok, begin_close, aclose. cbn. destruct (_state (dispatcher (fabric y))); cbn;
      try (apply (dispatcher_plan _ _ _ _ []); [by eapply state_ok|apply close_plan]).
    + apply (state_ok (_close_workers (dispatcher (fabric y)))); [by apply close_workers_ok|done|done|done].
    + done.
  - intros [= <-]. by apply drain_called_ok.
  - destruct (drain_step k ft _ (store y)) as [[d st]|] eqn:E; [|done]. intros [= <-]. by eapply drain_step_ok.
  - by apply crash_ok.
Qed.

Fixpoint fresh_run (ls : list (Label Rest J port)) y : Prop :=
  match ls with
  | [] => True
  | lb :: ls => fresh_label lb y /\ match run_label describe lb y with Some y' => fresh_run ls y' | None => True end
  end.

Lemma run_ok ls y y' : system_ok y -> fresh_run ls y -> run describe ls y = Some y' -> system_ok y'.
Proof.
  revert y. induction ls as [|lb ls IH]; intros y H; cbn [fresh_run run]; [by intros _ [= <-]|]. intros [Hf Hr].
  destruct (run_label describe lb y) as [y1|] eqn:E; [|done]. apply IH; [|done]. by apply (label_ok lb y).
Qed.

(** ** Nothing is skipped *)

(** The process a fabric starts in, over an empty store. *)
Definition first_system (f : Fabric Rest) j : system := mkSystem f new_store j [] [].

Lemma first_ok streams hs f j : new_fabric streams manifest hs = Ok f -> journal_ok j -> system_ok (first_system f j).
Proof.
  intros E Hj. destruct (new_fabric_ok streams hs f new_store j [] E Hj) as [H Ha].
  - intros i s. done.
  - intros s _ _ st k Hk. change (stored new_store (identity s) st) with 0 in Hk. lia.
  - by intros x ws _ Hx%not_elem_of_nil.
  - unfold system_ok. cbn. by rewrite Ha.
Qed.

(** The states a fabric over a journal reaches. *)
Definition reaches (f : Fabric Rest) j (ls : list (Label Rest J port)) y : Prop :=
  fresh_run ls (first_system f j) /\ run describe ls (first_system f j) = Some y.

Lemma reaches_ok streams hs f j ls y :
  new_fabric streams manifest hs = Ok f -> journal_ok j -> reaches f j ls y -> system_ok y.
Proof. intros E Hj [Hf Hr]. eapply run_ok; [by eapply first_ok|done|done]. Qed.

(** What the fabric owes a subscription for a fact: its handler succeeded on it, its type is
    not asked for, or it is filed as a dead letter. *)
Definition delivered y (sp : SubscriptionSpec) e : Prop :=
  (identity sp, e, Handled) ∈ settlements y
  \/ matches_event_type (event_filter sp) (EventJournal.event_type e) = false
  \/ (reliability sp = RELIABLE
      /\ exists r, dead_letters (store y) !! (identity sp, stream e, seq e) = Some r /\ row_event_id r = EventJournal.event_id e).

Lemma resolved_delivered y w s k e :
  system_ok y -> w ∈ _workers (dispatcher (fabric y)) -> is_recoverable w = true -> committed (journal y) s !! k = Some e ->
  resolved (settlements y) (id w) s (Z.of_nat k + 1) -> delivered y (spec w) e.
Proof.
  intros H Hw Hr He (e' & x & Hin & Hx & Hs & Hq). pose proof (d_core _ _ _ _ _ H) as Hc.
  pose proof (c_log _ _ _ _ Hc _ Hin) as (E1 & E2 & E3). specialize (E3 w Hw eq_refl).
  assert (e' = e) as ->.
  { rewrite Hs in E1. apply list_elem_of_lookup in E1 as [k' Hk']. destruct (committed_numbered _ _ _ _ (c_journal _ _ _ _ Hc) Hk') as [_ Hq'].
    assert (k' = k) as -> by lia. congruence. }
  destruct x; [done|right; by left|by left|right; right|by rewrite Hr in E3]. split; [done|by apply E2].
Qed.

Lemma eff_delivered y i w s k e :
  system_ok y -> _workers (dispatcher (fabric y)) !! i = Some w -> is_recoverable w = true ->
  committed (journal y) s !! k = Some e -> Z.of_nat k < eff w (store y) s -> delivered y (spec w) e.
Proof.
  intros H Hi Hr He Hk. assert (w ∈ _workers (dispatcher (fabric y))) as Hw by by eapply list_elem_of_lookup_2.
  apply (resolved_delivered y w s k); [done|done|done|done|].
  apply (wo_covered _ _ _ _ (c_workers _ _ _ _ (d_core _ _ _ _ _ H) w Hw)); [done|lia].
Qed.

Lemma manifest_worker y sp : system_ok y -> sp ∈ manifest -> exists i w, _workers (dispatcher (fabric y)) !! i = Some w /\ spec w = sp.
Proof.
  intros H Hs. rewrite <- (c_specs _ _ _ _ (d_core _ _ _ _ _ H)) in Hs. apply list_elem_of_fmap in Hs as (w & -> & Hw).
  apply list_elem_of_lookup in Hw as [i Hi]. by exists i, w.
Qed.

(** C1: a checkpoint is never ahead of delivery. Whatever the interleaving of appends, of other
    writers of the journal, of handlers that fail, hang or are cancelled, of faults of the
    store and the journal, of shutdowns and crashes: every committed fact up to the checkpoint
    the store holds for a recoverable subscription was handled with success, is of a type it
    does not ask for, or is filed among the dead letters; and so is every fact up to a barrier
    that [wait_until] has passed. *)
Theorem nothing_skipped streams hs f j ls y sp s k e :
  new_fabric streams manifest hs = Ok f -> journal_ok j -> reaches f j ls y ->
  sp ∈ manifest -> recoverable (reliability sp) = true -> committed (journal y) s !! k = Some e ->
  (Z.of_nat k < stored (store y) (identity sp) s -> delivered y sp e)
  /\ (forall n, 0 <= Z.of_nat k < n -> wait_until_subscription (identity sp) s n (dispatcher (fabric y)) = Some (Ok tt) -> delivered y sp e).
Proof.
  intros E Hj Hreach Hsp Hr He. pose proof (reaches_ok _ _ _ _ _ _ E Hj Hreach) as H.
  destruct (manifest_worker y sp H Hsp) as (i & w & Hi & <-).
  pose proof (sound_at _ _ _ _ _ _ _ H Hi) as Hs. split.
  - intros Hk. eapply eff_delivered; [done|done|done|done|]. pose proof (stored_eff w (store y) s (s_kept _ _ Hs) Hr). lia.
  - intros n Hn. unfold wait_until_subscription. destruct (find _ _) as [w'|] eqn:Ef; [|discriminate].
    apply find_some in Ef as [Hin Hid]. apply bool_decide_eq_true in Hid. apply list_elem_of_In in Hin.
    apply list_elem_of_lookup in Hin as [i' Hi'].
    assert (i' = i) as ->.
    { destruct (decide (i' = i)) as [|Hne]; [done|]. by destruct (ids_distinct _ _ _ _ _ (c_ids _ _ _ _ (d_core _ _ _ _ _ H)) Hi' Hi Hne). }
    rewrite Hi in Hi'. injection Hi' as <-.
    destruct (cursor s _) as [c|]; [|discriminate]. destruct (c <? n); [discriminate|]. destruct (negb _); [discriminate|].
    unfold wait_until. destruct (n <? 0); [discriminate|]. destruct (Z.leb_spec n (default 0 (Dict.get s (_acknowledged w)))) as [Hle|];
      [|destruct (SubscriptionWorker._state w); discriminate].
    intros _. eapply eff_delivered; [done|done|done|done|]. unfold eff. destruct (Dict.get s _) as [m|]; cbn in *; lia.
Qed.

(** C5: draining loses nothing. Once a call of [drain] has returned, whatever the workers, the
    appends and the other calls did meanwhile between its awaits, the store holds for every
    recoverable worker that still runs, in every stream it asks for, a checkpoint that has
    reached the cursor the dispatcher had when the call was made, and every fact up to there
    was delivered. *)
Theorem drained_is_caught_up streams hs f j ls y k cursors i w s n :
  new_fabric streams manifest hs = Ok f -> journal_ok j -> reaches f j ls y ->
  _drains (dispatcher (fabric y)) !! k = Some (mkDrain cursors (Drained (Ok tt))) -> Dict.get s cursors = Some n ->
  _workers (dispatcher (fabric y)) !! i = Some w -> live w -> tracks s w = true ->
  n <= Z.max 0 (stored (store y) (id w) s)
  /\ forall k e, committed (journal y) s !! k = Some e -> Z.of_nat k < n -> delivered y (spec w) e.
Proof.
  intros E Hj Hreach Hk Hn Hi Hl Ht. pose proof (reaches_ok _ _ _ _ _ _ E Hj Hreach) as H.
  pose proof (sound_at _ _ _ _ _ _ _ H Hi) as Hs. pose proof (tracks_recoverable _ _ Ht) as Hr.
  pose proof (d_drains _ _ _ _ _ H _ (list_elem_of_lookup_2 _ _ _ Hk)) as Hd.
  assert (n <= Z.max 0 (stored (store y) (id w) s)) as Hle.
  { destruct (dr_owed _ _ _ Hd s n i Hn ltac:(by exists w)) as [[Hx%not_elem_of_nil _]|(v & Hv & [Hst|(m & Hx%not_elem_of_nil & _)])]; [by destruct Hx| |by destruct Hx].
    by assert (v = w) as -> by congruence. }
  split; [done|]. intros k' e He Hk'. eapply eff_delivered; [done|done|done|done|].
  pose proof (stored_eff w (store y) s (s_kept _ _ Hs) Hr). lia.
Qed.

End Delivery.
End Delivery.

(** * A journal that failed once *)
Module ReadOnly.
Import Subscription SubscriptionStateStore SubscriptionWorker JournalPort CommittedEventDispatcher FabricHealth EventFabric.

Section ReadOnly.
Context {Rest J : Type} `{codec : EventJournal.RecordCodec Rest} `{port : EventJournalPort Rest J} (describe : exn -> string).

(** ** Severity only adds up *)

Lemma worse_rank a b : (_HEALTH_RANK a <= _HEALTH_RANK (worse a b))%nat /\ (_HEALTH_RANK b <= _HEALTH_RANK (worse a b))%nat.
Proof. unfold worse. destruct (Nat.ltb_spec (_HEALTH_RANK a) (_HEALTH_RANK b)); lia. Qed.

Lemma worst_rank (l : list FabricHealthState) h : h ∈ l -> (_HEALTH_RANK h <= _HEALTH_RANK (fold_right (fun c h => worse h c) HEALTHY l))%nat.
Proof.
  induction l as [|x l IH]; [by intros ?%not_elem_of_nil|]. cbn. intros [->|H]%elem_of_cons; [apply worse_rank|].
  specialize (IH H). pose proof (worse_rank (fold_right (fun c h => worse h c) HEALTHY l) x). lia.
Qed.

Lemma value_elem (k : string) (h : FabricHealthState) i : Dict.get k i = Some h -> h ∈ Dict.values i.
Proof. intros H%Dict.get_Some_elem. by apply (list_elem_of_fmap_2 snd) in H. Qed.

Lemma fold_keeps {A} (key : A -> option (string * FabricHealthState)) (f : Issues -> A -> Issues) k l i :
  (forall i a, f i a = match key a with Some (c, h) => Dict.set c h i | None => i end) ->
  (forall a c h, key a = Some (c, h) -> k <> c) -> Dict.get k (fold_left f l i) = Dict.get k i.
Proof.
  intros Hf Hk. revert i. induction l as [|a l IH]; intros i; cbn; [done|]. rewrite IH, Hf.
  destruct (key a) as [[c h]|] eqn:E; [|done]. apply Dict.get_set_ne. by eapply Hk.
Qed.

(** What the snapshot derives never hides an issue of the journal. *)
Lemma journal_issue_stays fs telemetry (d : Dispatcher Rest) i :
  Dict.get "fabric.journal" (all_issues fs telemetry d i) = Dict.get "fabric.journal" i.
Proof.
  unfold all_issues.
  rewrite (fold_keeps (fun c => Some ("telemetry." +:+ c, DEGRADED))) by (intros; try done; by injection H as <- _).
  rewrite (fold_keeps (fun w : Worker Rest => match SubscriptionWorker._state w with
    | SubscriptionWorker.FAILED => Some ("subscription." +:+ identity (spec w), match reliability (spec w) with DURABLE => UNAVAILABLE | _ => DEGRADED end)
    | SubscriptionWorker.DEGRADED => Some ("subscription." +:+ identity (spec w), DEGRADED) | _ => None end)).
  - destruct fs, (CommittedEventDispatcher._state d); rewrite ?Dict.get_set_ne by done; done.
  - intros i' w. unfold worker_issue. by destruct (SubscriptionWorker._state w).
  - intros w c h. destruct (SubscriptionWorker._state w); try done; by intros [= <- _].
Qed.

Lemma read_only_refuses telemetry (f : Fabric Rest) :
  Dict.get "fabric.journal" (issues f) = Some READ_ONLY -> exists x, _assert_write_ready telemetry f = Raise x.
Proof.
  intros H. unfold _assert_write_ready. destruct (negb _); [by exists EventFabricUnavailable|]. unfold snapshot. cbn [health writable].
  rewrite <- (journal_issue_stays (f_state f) telemetry (dispatcher f)) in H. apply value_elem, worst_rank in H.
  destruct (fold_right _ _ _); cbn in H; try lia.
  - exists EventFabricReadOnly. by rewrite bool_decide_eq_true_2.
  - exists EventFabricUnavailable. rewrite !bool_decide_eq_false_2 by done. cbn. by rewrite andb_false_r.
Qed.

(** ** For ever *)

Notation system := (System Rest J).

Definition read_only (y : system) : Prop :=
  let f := fabric y in
  Dict.get "fabric.journal" (issues f) = Some READ_ONLY /\ inflight f = [] /\ f_state f <> NEW
  /\ match activity f with Idle | Closing _ => True | _ => False end.

Definition refuses_all (before later : system) : Prop :=
  exists new, replies later = replies before ++ new /\ forall s facts o, (s, facts, o) ∈ new -> is_ok o = false.

Lemma refuses_nothing (y y' : system) : replies y' = replies y -> refuses_all y y'.
Proof. intros E. exists []. split; [by rewrite app_nil_r|by intros s facts o ?%not_elem_of_nil]. Qed.

Lemma read_only_step lb (y y' : system) :
  read_only y -> match lb with Crash => False | _ => True end -> run_label describe lb y = Some y' -> read_only y' /\ refuses_all y y'.
Proof.
  intros (Hi & Hf & Hn & Ha) Hlb. destruct lb as [x|tl s facts|x hook|x ft hook|i c|s facts n x| | | |k ft|]; cbn [run_label]; try done.
  - by rewrite bool_decide_eq_false_2.
  - destruct (read_only_refuses tl (fabric y) Hi) as [z ->]. intros [= <-]. split; [done|]. exists [(s, facts, Raise z)]. split; [done|].
    intros s' facts' o Ho%list_elem_of_singleton. by injection Ho as -> -> ->.
  - rewrite Hf. by destruct (activity (fabric y)).
  - unfold go. destruct (activity (fabric y)) as [| | | |[|t rest]] eqn:Ea; try done.
    + intros [= <-]. unfold finish. rewrite Ea. by split; [|apply refuses_nothing].
    + cbn [todo_of]. destruct (exec _ _ _ _ _ _) as [[[[d st] j] [ts|z]]|]; [| |done]; intros [= <-].
      * by split; [|apply refuses_nothing].
      * unfold interrupt. cbn [activity with_dispatcher]. rewrite Ea. by split; [|apply refuses_nothing].
  - destruct (_workers _ !! i) as [w|]; [|done]. destruct (step describe c w (store y)) as [[[w' st] r]|]; [|done]. intros [= <-].
    by split; [|apply refuses_nothing].
  - intros [= <-]. by split; [|apply refuses_nothing].
  - destruct (f_state (fabric y)) eqn:Es; try done; intros [= <-]; (split; [|by apply refuses_nothing]); split_and!; try done; cbn; congruence.
  - destruct (activity (fabric y)) eqn:Ea; try done. rewrite Hf. destruct (_ && _); [|done]. intros [= <-].
    split; [|by apply refuses_nothing]. unfold begin_close. destruct (aclose _). by split_and!.
  - intros [= <-]. by split; [|apply refuses_nothing].
  - destruct (drain_step _ _ _ _) as [[d st]|]; [|done]. intros [= <-]. by split; [|apply refuses_nothing].
Qed.

Lemma read_only_run ls (y y' : system) :
  read_only y -> Forall (fun lb => match lb with Crash => False | _ => True end) ls -> run describe ls y = Some y' ->
  read_only y' /\ refuses_all y y'.
Proof.
  intros Hr Hls. revert y Hr. induction Hls as [|lb ls Hlb _ IH]; intros y Hr; cbn [run].
  - intros [= <-]. split; [done|by apply refuses_nothing].
  - destruct (run_label describe lb y) as [y1|] eqn:E; [|done]. destruct (read_only_step lb y y1 Hr Hlb E) as [Hr1 (n1 & E1 & H1)].
    intros E2. destruct (IH y1 Hr1 E2) as [Hr2 (n2 & E3 & H2)]. split; [done|]. exists (n1 ++ n2). split; [by rewrite E3, E1, app_assoc|].
    intros s facts o [Ho|Ho]%elem_of_app; [by eapply H1|by eapply H2].
Qed.

(** The errors of an append after which the journal counts as not writable. *)
Definition not_writable (n : Z) (x : exn) : Prop :=
  x = OSError \/ exists expected actual, x = StreamVersionConflict expected actual /\ actual <= n.

(** C37: one failure is final. When the only append in flight gets the lock and the journal
    answers it with an error of the system, or with a conflict that nobody else's append
    explains, that append is refused as read-only; and as long as the process does not end,
    every later append is refused too, however well the journal works again: only an append
    that succeeds would clear the issue, and none is let through. *)
Theorem read_only_is_final s facts n x hook e j ls (y y1 y2 : system) :
  f_state (fabric y) = RUNNING -> activity (fabric y) = Idle -> inflight (fabric y) = [(s, facts)] ->
  cursor s (dispatcher (fabric y)) = Ok n -> append s facts n x (journal y) = (j, Raise e) -> not_writable n e ->
  run_label describe (Acquire x hook) y = Some y1 ->
  Forall (fun lb => match lb with Crash => False | _ => True end) ls -> run describe ls y1 = Some y2 ->
  replies y1 = replies y ++ [(s, facts, Raise EventFabricReadOnly)] /\ refuses_all y1 y2.
Proof.
  intros Hs Ha Hf Hc Happ He E1 Hls E2. cbn [run_label] in E1. rewrite Ha, Hf in E1. injection E1 as <-.
  assert (_append_committed s facts x hook (with_inflight [] (fabric y)) y
          = append_failed s facts e (with_inflight [] (fabric y)) (with_journal j y)) as Hy.
  { unfold _append_committed. cbn [dispatcher with_inflight]. rewrite Hc, Happ. destruct He as [->|(ex & ac & -> & Hle)]; [done|].
    by rewrite (proj2 (Z.leb_le _ _) Hle). }
  rewrite Hy in E2 |- *. assert (append_failed s facts e (with_inflight [] (fabric y)) (with_journal j y)
    = replied s facts (Raise EventFabricReadOnly) (becomes (f_state (fabric y)) (mark_read_only "fabric.journal" (issues (fabric y)))
        (with_inflight [] (fabric y))) (with_journal j y)) as Hr by by destruct He as [->|(ex & ac & -> & Hle)].
  rewrite Hr in E2 |- *. split; [done|]. eapply read_only_run; [|exact Hls|exact E2].
  split_and!; cbn; [by apply Dict.get_set_eq|done|congruence|done].
Qed.

End ReadOnly.
End ReadOnly.
