(* ===== verification/EventLocal.v ===== *)
(** * The local journal behind the port

    The journal of [EventJournal.v] meets the laws the fabric of [EventFabric.v] relies on:
    under any cut of a write, what a stream holds only grows, an append that returns extended
    it by what it returned, and a read gives the facts in order or fails. *)

From S2P Require Import Prelude Text Json Ledger EventJournal EventSubscription EventFabric.
From Stdlib Require Import Ascii String.
From stdpp Require Import base list strings.

Open Scope string_scope.
Open Scope list_scope.
Open Scope Z_scope.

Module LocalPort.
Import EventJournal.

Section Local.
Context {Rest : Type} `{codec : RecordCodec Rest} (sid : string).
Notation envelope := (EventEnvelope Rest).
Notation fact := (UncommittedFact Rest).

(** The clock of an append, and what of its write reaches the file. *)
Record Weather := mkWeather { appended_at : Z; writes : AppendOnlyLedger.write }.

(** The records of a file up to the first that the scan refuses. *)
Fixpoint accepted (ls : list string) (sq : Z) (previous : option string) (seen : list string) : list envelope :=
  match ls with
  | [] => []
  | raw :: ls =>
      if _MAX_RECORD_BYTES <? size raw then []
      else match accepts sid sq previous seen raw with
           | Some (e, checksum) => e :: accepted ls (sequence e) (Some checksum) (event_id e :: seen)
           | None => []
           end
  end.

Definition local_committed (j : t) (s : string) : list envelope :=
  if bool_decide (s = sid) then accepted (fst (read_lines (AppendOnlyLedger.text (file j)))) 0 None [] else [].

Definition port_exn (x : exn) : SubscriptionStateStore.exn :=
  match x with
  | ValueError => SubscriptionStateStore.ValueError
  | StreamVersionConflict e a => SubscriptionStateStore.StreamVersionConflict e a
  | JournalIntegrityError => SubscriptionStateStore.JournalIntegrityError
  | OSError => SubscriptionStateStore.OSError
  end.

Definition port_outcome {A B} (f : A -> B) (o : outcome exn A) : outcome SubscriptionStateStore.exn B :=
  match o with Ok a => Ok (f a) | Raise x => Raise (port_exn x) end.

Definition local_append (s : string) (facts : list fact) (expected : Z) (x : Weather) (j : t)
    : t * outcome SubscriptionStateStore.exn (JournalPort.AppendResult Rest) :=
  let (j, o) := append_committed sid s facts expected (appended_at x) (writes x) j in
  (j, port_outcome (fun r => JournalPort.mkAppend s (previous_version r) (new_version r) (envelopes r)) o).

Definition local_verify (s : string) (x : Weather) (j : t) : t * outcome SubscriptionStateStore.exn (bool * Z) :=
  let (j, o) := verify_committed sid s j in (j, port_outcome (fun r => (valid r, current_version r)) o).

Definition local_read (s : string) (after : Z) (x : Weather) (j : t) : t * (list envelope * option SubscriptionStateStore.exn) :=
  let (j, o) := read sid s after j in
  (j, match o with Ok es => (es, None) | Raise y => ([], Some (port_exn y)) end).

Definition local_port : JournalPort.EventJournalPort Rest t := {|
  JournalPort.weather := Weather;
  JournalPort.committed := local_committed;
  JournalPort.append := local_append;
  JournalPort.verify := local_verify;
  JournalPort.read := local_read;
  JournalPort.reopen := restart
|}.

(** ** Files after any number of torn writes *)

(** The file holds these records and a torn one behind them, if [tail] is not empty; what is
    remembered of it may be older. *)
Record held (es : list envelope) (tail : string) (j : t) : Prop := {
  hd_follows : follows sid 0 None [] es;
  hd_text : AppendOnlyLedger.text (file j) = Text.concat (lines_of None es) +:+ tail;
  hd_tail : Text.contains "010" tail = false;
  hd_state : _states j = None \/ exists es0, es0 `prefix_of` es /\ _states j = Some (state_of es0)
}.

Section Laws.
Context {laws : RecordCodecLaws Rest}.
#[local] Set Default Proof Using "Type*".

Lemma accepted_follows es ls sq previous seen :
  linkable previous -> follows sid sq previous seen es ->
  accepted (lines_of previous es ++ ls) sq previous seen
  = es ++ accepted ls (sq + Z.of_nat (length es)) (chain previous es) (rev (event_id <$> es) ++ seen).
Proof.
  revert sq previous seen. induction es as [|e es IH]; intros sq previous seen Hp Hf; cbn [lines_of app length chain].
  - by rewrite Z.add_0_r.
  - destruct Hf as (Hv & Hs & Hq & Hn & Hm & Hf). cbn [accepted].
    rewrite (proj2 (Z.ltb_ge _ _) Hm), accepts_encoded by done. rewrite Hq, IH; [|apply checksum_form|done].
    replace (sq + 1 + Z.of_nat (length es)) with (sq + Z.of_nat (S (length es))) by lia.
    rewrite fmap_cons. cbn [rev]. by rewrite <- app_assoc.
Qed.

Lemma held_committed es tail j : held es tail j -> local_committed j sid = es.
Proof.
  intros [Hf Ht Hc _]. unfold local_committed. rewrite bool_decide_eq_true_2 by done.
  rewrite Ht, read_lines_of, (read_lines_plain tail Hc). cbn [fst]. rewrite accepted_follows by done. cbn. by rewrite app_nil_r.
Qed.

Lemma other_committed j s : s <> sid -> local_committed j s = [].
Proof. intros Hs. unfold local_committed. by rewrite bool_decide_eq_false_2. Qed.

Lemma follows_lookup es sq previous seen k e :
  follows sid sq previous seen es -> es !! k = Some e -> stream_id e = sid /\ sequence e = sq + Z.of_nat k + 1.
Proof.
  revert sq previous seen k. induction es as [|e' es IH]; intros sq previous seen k; [done|].
  intros (Hv & Hs & Hq & Hn & Hm & Hf). destruct k as [|k]; cbn.
  - intros [= <-]. split; [done|lia].
  - intros Hk. destruct (IH _ _ _ _ Hf Hk) as [H1 H2]. split; [done|lia].
Qed.

Lemma concat_size_app previous es es' :
  size (Text.concat (lines_of previous (es ++ es')))
  = size (Text.concat (lines_of previous es)) + size (Text.concat (lines_of (chain previous es) es')).
Proof. by rewrite lines_of_app, concat_app, size_app. Qed.

Lemma size_nonneg s : 0 <= size s.
Proof. unfold size. lia. Qed.

Lemma lines_size_pos previous e es : 0 < size (Text.concat (lines_of previous (e :: es))).
Proof.
  cbn [lines_of Text.concat]. unfold encode_event_record. cbn [fst]. rewrite !size_app.
  pose proof (size_nonneg (Text.concat (lines_of (Some (_record_checksum e previous)) es))).
  pose proof (size_nonneg (record_text previous (_record_checksum e previous) e)). change (size newline) with 1. cbn [snd] in *. lia.
Qed.

(** A file as long as what is remembered of it holds just that. *)
Lemma same_size es tail es0 j :
  held es tail j -> es0 `prefix_of` es -> size (AppendOnlyLedger.text (file j)) = byte_size (state_of es0) ->
  es = es0 /\ tail = EmptyString.
Proof.
  intros [_ Ht _ _] [es' ->]. rewrite Ht, size_app, concat_size_app. cbn [byte_size state_of].
  pose proof (size_nonneg tail) as Hn. destruct es' as [|e es'].
  - cbn. rewrite app_nil_r. intros H. split; [done|]. destruct tail; [done|]. unfold size in *. cbn in H. lia.
  - pose proof (lines_size_pos (chain None es0) e es'). lia.
Qed.

Lemma held_scan es tail j :
  held es tail j ->
  (tail = EmptyString -> _scan sid (file j) = (state_of es, mkReport true (Z.of_nat (length es)) (Z.of_nat (length es)) (chain None es) []))
  /\ (tail <> EmptyString -> valid (snd (_scan sid (file j))) = false).
Proof.
  intros [Hf Ht Hc _]. split.
  - intros ->. rewrite Text.append_nil_r in Ht. apply (scan_holds sid es (mk (file j) None)). by split; [..|left].
  - intros Hn. by apply (torn_scan sid es _ tail).
Qed.

Lemma held_load es tail j :
  held es tail j ->
  let (j1, o) := _load_state sid j in
  held es tail j1 /\ file j1 = file j
  /\ match o with Ok st => exists es0, es0 `prefix_of` es /\ st = state_of es0 /\ _states j1 = Some st | Raise _ => True end.
Proof.
  intros H. destruct (held_scan es tail j H) as [H1 H2]. destruct H as [Hf Ht Hc Hst]. unfold _load_state.
  destruct Hst as [Hst|(es0 & Hp & Hst)]; rewrite Hst.
  - destruct (decide (tail = EmptyString)) as [Htl|Htl].
    + rewrite (H1 Htl). cbn [valid]. split; [|split; [done|by exists es]]. split; [done|done|done|right; by exists es].
    + specialize (H2 Htl). destruct (_scan sid (file j)) as [st rep]. cbn in H2. rewrite H2. split; [|done]. split; [done|done|done|by left].
  - split; [|split; [done|by exists es0]]. split; [done|done|done|right; by exists es0].
Qed.

(** A cut batch is some of its envelopes and a piece of the next. *)
Lemma cut_batch now facts es j n f' :
  let new := stamps sid now (Z.of_nat (length es)) facts in
  held es EmptyString j -> fit (chain None es) new = true -> NoDup (fact_id <$> facts) ->
  (forall x, x ∈ facts -> fact_id x ∉ event_id <$> es) -> _states j = Some (state_of es) ->
  AppendOnlyLedger.text f' = AppendOnlyLedger.text (file j) +:+ Text.take_chars n (Text.concat (lines_of (chain None es) new)) ->
  exists k tail, held (es ++ take k new) tail (mk f' (_states j)).
Proof.
  intros new [Hf Ht Hc Hst] Hfit Hnd Hfr Hs Hx. rewrite Text.append_nil_r in Ht.
  destruct (read_lines_torn n (chain None es) new) as (k & tail & Hr & _). set (piece := Text.take_chars n _) in *.
  pose proof (read_lines_whole piece) as Hw. pose proof (read_lines_tail piece) as Hct. rewrite Hr in Hw, Hct. cbn [fst snd] in Hw, Hct.
  exists k, tail. split; [| |done|].
  - assert (follows sid 0 None [] (es ++ new)) as Hall.
    { apply (h_follows _ _ _ (holds_extended sid now facts es (Some (Text.concat (lines_of None es) +:+ Text.concat (lines_of (chain None es) new)))
        None Hf Hfit Hnd Hfr eq_refl (or_introl eq_refl))). }
    rewrite <- (take_drop k new), app_assoc in Hall. rewrite (follows_app sid) in Hall. apply Hall.
  - cbn. rewrite Hx, Ht, Hw, lines_of_app, concat_app. by rewrite Text.append_assoc.
  - right. exists es. split; [by apply prefix_app_r|done].
Qed.

Lemma held_append s facts expected x j j' o es tail :
  held es tail j -> (s = sid -> forall f, f ∈ facts -> fact_id f ∉ event_id <$> es) -> local_append s facts expected x j = (j', o) ->
  exists es' tail', held es' tail' j' /\ es `prefix_of` es'
  /\ match o with
     | Ok r => s = sid /\ es' = es ++ JournalPort.envelopes r /\ JournalPort.result_stream r = s
               /\ expected = Z.of_nat (length es) /\ JournalPort.previous_version r = expected
               /\ JournalPort.current_version r = expected + Z.of_nat (length (JournalPort.envelopes r))
     | Raise _ => True
     end.
Proof.
  intros H Hfr. unfold local_append, append_committed.
  destruct (negb (_validate_stream_id s) || _ || _ || _ || negb (bool_decide (s = sid))) eqn:Hbad; [intros [= <- <-]; by exists es, tail|].
  apply orb_false_iff in Hbad as [[[[_ _]%orb_false_iff _]%orb_false_iff Hnd]%orb_false_iff Hsid].
  apply negb_false_iff, bool_decide_eq_true in Hnd. apply negb_false_iff, bool_decide_eq_true in Hsid. specialize (Hfr Hsid).
  unfold _append_sync. pose proof (held_load es tail j H) as Hl. destruct (_load_state sid j) as [j1 o1]. destruct Hl as (H1 & Hfile & Ho1).
  destruct o1 as [st|y]; [|intros [= <- <-]; by exists es, tail]. destruct Ho1 as (es0 & Hp & -> & Hst).
  destruct (negb (version (state_of es0) =? expected)) eqn:Hv; [intros [= <- <-]; by exists es, tail|].
  destruct (negb (size _ =? byte_size _)) eqn:Hsz; [intros [= <- <-]; by exists es, tail|].
  apply negb_false_iff, Z.eqb_eq in Hsz. apply negb_false_iff, Z.eqb_eq in Hv.
  destruct (same_size es tail es0 j1 H1 Hp Hsz) as [<- ->]. cbn [version last_checksum byte_size state_of] in *.
  rewrite (build_spec sid). cbv zeta. set (new := stamps sid _ _ facts). destruct (fit _ new) eqn:Hfit; [|intros [= <- <-]; by exists es, EmptyString].
  destruct (_ <? _); [intros [= <- <-]; by exists es, EmptyString|].
  destruct (writes x) as [|n] eqn:Hw; intros [= <- <-].
  - exists (es ++ new), EmptyString. split; [|split; [by apply prefix_app_r|split_and!; try done; cbn; lia]].
    assert (holds sid (es ++ new) (mk (AppendOnlyLedger.written (file j1) (Text.concat (lines_of (chain None es) new)) AppendOnlyLedger.Done)
      (Some (mkState (Z.of_nat (length es) + Z.of_nat (length new)) (chain (chain None es) new)
         (size (AppendOnlyLedger.text (file j1)) + size (Text.concat (lines_of (chain None es) new))))))) as [G1 G2 G3].
    { apply (holds_extended (laws := laws) sid); [apply H1|done|done|done|..].
      - rewrite written_text, (hd_text _ _ _ H1). by rewrite Text.append_nil_r.
      - right. unfold state_of. rewrite Hsz. f_equal. rewrite length_app, chain_app, concat_size_app. fold new. f_equal; lia. }
    split; [done|by rewrite Text.append_nil_r|done|]. right. exists (es ++ new). split; [done|]. rewrite <- Hsz in *. cbn. by destruct G3.
  - destruct (cut_batch (appended_at x) facts es j1 n _ H1 Hfit Hnd Hfr Hst (written_text (file j1) _ (AppendOnlyLedger.Fails n))) as (k & tl & Hh).
    exists (es ++ take k new), tl. split; [done|]. split; [by apply prefix_app_r|done].
Qed.

Lemma held_verify s x j j' o es tail :
  held es tail j -> local_verify s x j = (j', o) ->
  held es tail j' /\ match o with Ok (true, n) => s = sid /\ n = Z.of_nat (length es) | _ => True end.
Proof.
  intros H. unfold local_verify, verify_committed, path_for. destruct (negb _) eqn:Hb; [cbn; intros [= <- <-]; by split|].
  apply negb_false_iff, andb_true_iff in Hb as [_ Hb]. apply bool_decide_eq_true in Hb.
  destruct (held_scan es tail j H) as [H1 H2]. destruct H as [Hf Ht Hc _]. unfold verify_file.
  destruct (decide (tail = EmptyString)) as [Htl|Htl].
  - rewrite (H1 Htl). cbn. intros [= <- <-]. split; [|done]. split; [done|done|done|right; by exists es].
  - specialize (H2 Htl). destruct (_scan sid (file j)) as [st rep]. cbn in H2. rewrite H2. cbn. rewrite H2. intros [= <- <-]. split; [|done]. split; [done|done|done|by left].
Qed.

Lemma held_read s after x j j' found err es tail :
  held es tail j -> local_read s after x j = (j', (found, err)) ->
  held es tail j' /\ found `prefix_of` (if bool_decide (s = sid) then filter (fun e => after < sequence e) es else [])
  /\ (err = None -> s = sid /\ found = filter (fun e => after < sequence e) es).
Proof.
  intros H. unfold local_read, read, path_for. destruct (negb _ || _) eqn:Hb; [cbn; intros [= <- <- <-]; split_and!; [done|apply prefix_nil|done]|].
  apply orb_false_iff in Hb as [Hb _]. apply negb_false_iff, andb_true_iff in Hb as [_ Hb]. rewrite Hb. apply bool_decide_eq_true in Hb.
  destruct (held_scan es tail j H) as [H1 H2]. destruct H as [Hf Ht Hc Hst]. unfold read_file, _verified_snapshot_size.
  destruct (decide (tail = EmptyString)) as [Htl|Htl].
  - rewrite (H1 Htl). cbn [valid file]. rewrite Ht, read_lines_of, (read_lines_plain tail Hc). cbn [fst snd].
    rewrite app_nil_r, (iter_follows sid 0 None [] es) by done. intros [= <- <- <-]. split_and!; [|done|done].
    split; [done|done|done|right; by exists es].
  - specialize (H2 Htl). destruct (_scan sid (file j)) as [st rep]. cbn in H2. rewrite H2. intros [= <- <- <-].
    split_and!; [by split|apply prefix_nil|done].
Qed.

Lemma held_restart j es tail : held es tail j -> held es tail (restart j).
Proof. intros [Hf Ht Hc _]. split; [done|done|done|by left]. Qed.

Definition local_ok (j : t) : Prop := exists es tail, held es tail j.

(** What every stream holds, once a file is known. *)
Lemma held_grows es es' tail tail' j j' s :
  held es tail j -> held es' tail' j' -> es `prefix_of` es' -> local_committed j s `prefix_of` local_committed j' s.
Proof.
  intros H H' Hp. destruct (decide (s = sid)) as [->|Hne]; [|by rewrite !other_committed].
  by rewrite (held_committed es tail j H), (held_committed es' tail' j' H').
Qed.

Lemma held_same es tail j j' s : held es tail j -> held es tail j' -> local_committed j' s = local_committed j s.
Proof.
  intros H H'. destruct (decide (s = sid)) as [->|Hne]; [|by rewrite !other_committed].
  by rewrite (held_committed es tail j H), (held_committed es tail j' H').
Qed.

(** The local journal behind the port. Under any cut of its writes, whatever was cut before, a
    stream only grows; an append that returns extended it from the expected version by the
    envelopes it returns; verification and reads see all of it, in order, or fail. *)
#[program] Definition local_laws : JournalPort.EventJournalLaws Rest t (port := local_port) := {|
  JournalPort.journal_ok := local_ok
|}.
Next Obligation.
  cbn. intros j s k e (es & tail & H). destruct (decide (s = sid)) as [->|Hne]; [|by rewrite other_committed].
  rewrite (held_committed es tail j H). intros Hk.
  destruct (follows_lookup _ _ _ _ _ _ (hd_follows _ _ _ H) Hk). split; [done|lia].
Qed.
Next Obligation.
  cbn. intros s facts expected x j j' o (es & tail & H) Hfr E. destruct (held_append s facts expected x j j' o es tail H) as (es' & tail' & H' & Hp & Ho).
  - intros ->. unfold JournalPort.new_facts in Hfr. cbn in Hfr. by rewrite (held_committed es tail j H) in Hfr.
  - done.
  - split; [by exists es', tail'|]. split; [by intros s'; eapply held_grows|]. destruct o as [r|]; [|done].
    destruct Ho as (-> & -> & H1 & H2 & H3 & H4). rewrite (held_committed _ _ _ H), (held_committed _ _ _ H'). by split_and!.
Qed.
Next Obligation.
  cbn. intros s x j j' o (es & tail & H) E. destruct (held_verify s x j j' o es tail H E) as [H' Ho].
  split; [by exists es, tail|]. split; [by intros s'; eapply held_same|]. destruct o as [[[|] n]|]; try done.
  destruct Ho as [-> ->]. by rewrite (held_committed _ _ _ H).
Qed.
Next Obligation.
  cbn. intros s after x j j' found err (es & tail & H) E. destruct (held_read s after x j j' found err es tail H E) as (H' & Hp & Ho).
  split; [by exists es, tail|]. split; [by intros s'; eapply held_same|]. destruct (decide (s = sid)) as [->|Hne].
  - rewrite (held_committed _ _ _ H). rewrite bool_decide_eq_true_2 in Hp by done. split; [done|]. intros He. by apply Ho.
  - rewrite other_committed by done. rewrite bool_decide_eq_false_2 in Hp by done. split; [done|]. intros He. by destruct (Ho He).
Qed.
Next Obligation.
  cbn. intros j (es & tail & H). pose proof (held_restart j es tail H) as H'. split; [by exists es, tail|]. intros s. by eapply held_same.
Qed.

End Laws.
End Local.
End LocalPort.
