(* ===== verification/EventExamples.v ===== *)
(** * Concrete subscriptions

    Runs of the fabric of [EventFabric.v] over the local journal of [EventLocal.v], which apply
    the theorems of [EventWorker.v] and [EventDelivery.v] and show the corners the model found. *)

From S2P Require Import Prelude Text Json Ledger EventJournal EventSubscription EventWorker EventFabric EventDelivery EventLocal.
From Stdlib Require Import Ascii String.
From stdpp Require Import base list strings gmap.

Open Scope string_scope.
Open Scope list_scope.
Open Scope Z_scope.

Module EventExample.
Import EventJournal Subscription SubscriptionMailbox SubscriptionStateStore SubscriptionWorker CommittedEventDispatcher
  EventFabric WorkerFacts Delivery LocalPort.
Import EventJournal.JournalExample.

#[export] Instance port : JournalPort.EventJournalPort string EventJournal.t := local_port "s".
#[export] Instance laws : JournalPort.EventJournalLaws string EventJournal.t := local_laws "s".

Definition describe (x : exn) : string :=
  match x with HandlerError text => text | StoreFault text => text | _ => "error" end.

Definition retrying : RetryPolicy := mkRetry 2 30 0 5 0.
Definition anything : EventFilter := mkFilter [] [].

Definition durable : SubscriptionSpec := mkSpec "test.durable" anything DURABLE PER_STREAM 4 BACKPRESSURE retrying (mkCheckpointPolicy 1).
Definition reliable : SubscriptionSpec := mkSpec "test.reliable" anything RELIABLE PER_STREAM 1 BACKPRESSURE retrying (mkCheckpointPolicy 1).
Definition manifest : list SubscriptionSpec := [durable; reliable].

Notation label := (Label string EventJournal.t port).

Definition fine : Weather := mkWeather 5 AppendOnlyLedger.Done.
Definition on : label := Go fine None None.
Definition handles : Choices := mkChoices Succeeds 1 2 None None.
Definition refuses : Choices := mkChoices (Fails "boom") 1 2 None None.

Definition first_fabric (m : list SubscriptionSpec) : outcome exn (Fabric string) := new_fabric ["s"] m true.
Definition empty_file : EventJournal.t := EventJournal.mk None None.

Definition at_start (m : list SubscriptionSpec) : option (System string EventJournal.t) :=
  match first_fabric m with Ok f => Some (first_system f empty_file) | Raise _ => None end.

Definition after_with (m : list SubscriptionSpec) (ls : list label) : option (System string EventJournal.t) :=
  match at_start m with Some y => run describe ls y | None => None end.

Notation after := (after_with manifest).

(** A test of [fresh_run] that can be computed. *)
Definition freshb (s : string) (facts : list (UncommittedFact string)) (j : EventJournal.t) : bool :=
  forallb (fun f => negb (bool_decide (fact_id f ∈ event_id <$> JournalPort.committed j s))) facts.

Lemma freshb_sound s facts j : freshb s facts j = true -> JournalPort.new_facts s facts j.
Proof.
  unfold freshb, JournalPort.new_facts. rewrite forallb_forall. intros H f Hf.
  apply list_elem_of_In in Hf. specialize (H f Hf). apply negb_true_iff, bool_decide_eq_false in H. exact H.
Qed.

Definition fresh_labelb (l : label) (y : System string EventJournal.t) : bool :=
  match l with
  | Foreign s facts _ _ => freshb s facts (journal y)
  | Acquire _ _ => match inflight (fabric y) with (s, facts) :: _ => freshb s facts (journal y) | [] => true end
  | Go _ _ _ => match activity (fabric y) with Reconciling s facts _ => freshb s facts (journal y) | _ => true end
  | _ => true
  end.

Lemma fresh_labelb_sound l y : fresh_labelb l y = true -> fresh_label l y.
Proof.
  destruct l; cbn; try done.
  - intros H s facts rest E. rewrite E in H. by apply freshb_sound.
  - intros H s facts t E. rewrite E in H. by apply freshb_sound.
  - apply freshb_sound.
Qed.

Fixpoint fresh_runb (ls : list label) (y : System string EventJournal.t) : bool :=
  match ls with
  | [] => true
  | l :: ls => fresh_labelb l y && match run_label describe l y with Some y => fresh_runb ls y | None => true end
  end.

Lemma fresh_runb_sound ls y : fresh_runb ls y = true -> fresh_run describe ls y.
Proof.
  revert y. induction ls as [|l ls IH]; intros y; cbn [fresh_runb fresh_run]; [done|]. intros [H1 H2]%andb_true_iff.
  split; [by apply fresh_labelb_sound|]. destruct (run_label describe l y); [by apply IH|done].
Qed.

Definition fresh_after (m : list SubscriptionSpec) (ls : list label) : bool :=
  match at_start m with Some y => fresh_runb ls y | None => false end.

Lemma empty_file_ok : local_ok "s" empty_file.
Proof. exists [], EmptyString. split; [done|done|done|by left]. Qed.

(** What a witness needs of a run. *)
Lemma after_reaches m ls :
  fresh_after m ls = true -> is_Some (after_with m ls) ->
  exists f y, after_with m ls = Some y /\ new_fabric ["s"] m true = Ok f /\ reaches describe f empty_file ls y.
Proof.
  unfold fresh_after, after_with, at_start, reaches. destruct (first_fabric m) as [f|x] eqn:E; [|done]. intros Hf [y Hy].
  exists f, y. split_and!; [done|exact E|by apply fresh_runb_sound|done].
Qed.

(** ** A crash between two events, and a handler that fails *)

Definition boot : list label := Start None :: repeat on 13.

Definition first_life : list label :=
  boot ++ [Submit [] "s" batch; Acquire fine None; on; on; on; on; Work 1 handles; on; on; on; Work 1 handles; Work 1 refuses; Work 1 refuses]
  ++ repeat (Work 0 handles) 3.

Definition two_lives : list label :=
  first_life ++ [Crash; Start None] ++ repeat on 10 ++ repeat (Work 0 handles) 3 ++ repeat (Work 1 handles) 3 ++ repeat on 5.

Definition settled_facts (y : System string EventJournal.t) : list (string * string) :=
  (fun x => (x.1.1, event_id x.1.2)) <$> settlements y.

Lemma two_lives_fresh : fresh_after manifest two_lives = true.
Proof. vm_compute. reflexivity. Qed.

Lemma two_lives_settle :
  match after two_lives with
  | Some y =>
      settled_facts y = [("test.reliable", "a"); ("test.durable", "a"); ("test.durable", "b"); ("test.reliable", "b")]
      /\ stored (store y) "test.reliable" "s" = 2
      /\ JournalPort.committed (journal y) "s" !! 0%nat = Some (commit "s" 5 1 (fact_ "a"))
  | None => False
  end.
Proof. vm_compute. split_and!; reflexivity. Qed.

Lemma nothing_skipped_witness : exists y, after two_lives = Some y /\ delivered y reliable (commit "s" 5 1 (fact_ "a")).
Proof.
  pose proof two_lives_settle as H. destruct (after_reaches manifest two_lives two_lives_fresh) as (f & y & Ey & Ef & Hreach).
  { destruct (after two_lives); [by eexists|destruct H]. }
  rewrite Ey in H. destruct H as (_ & Hr & Hc). exists y. split; [exact Ey|].
  refine (proj1 (nothing_skipped describe manifest ["s"] true f empty_file two_lives y reliable "s" 0 _ Ef empty_file_ok Hreach _ _ Hc) _).
  - right; left.
  - done.
  - change (0 < stored (store y) "test.reliable" "s"). rewrite Hr. done.
Defined.

(** A call of [drain] in the second life, between whose steps another fact is committed, routed
    and handled: it returns with what was committed when it was called. *)
Definition drains : label := GoDrain 0 None.
Definition drained_meanwhile : list label :=
  two_lives ++ [Drain; drains; Submit [] "s" [fact_ "c"]; drains; Acquire fine None] ++ repeat on 4 ++ repeat (Work 0 handles) 3
  ++ [drains] ++ repeat (Work 1 handles) 3 ++ repeat drains 4.

Definition durable_worker (y : System string EventJournal.t) : option (Worker string) := _workers (dispatcher (fabric y)) !! 0%nat.

Lemma drained_fresh : fresh_after manifest drained_meanwhile = true.
Proof. vm_compute. reflexivity. Qed.

Lemma drained_state :
  match after drained_meanwhile with
  | Some y =>
      match durable_worker y with
      | Some w =>
          _drains (dispatcher (fabric y)) !! 0%nat = Some (mkDrain [("s", 2)] (Drained (Ok tt)))
          /\ cursor "s" (dispatcher (fabric y)) = Ok 3 /\ live w /\ tracks "s" w = true
      | None => False
      end
  | None => False
  end.
Proof. vm_compute. split_and!; reflexivity || exact I. Qed.

Lemma drained_witness :
  exists y w, after drained_meanwhile = Some y /\ durable_worker y = Some w
  /\ 2 <= Z.max 0 (stored (store y) (identity (spec w)) "s")
  /\ forall k e, JournalPort.committed (journal y) "s" !! k = Some e -> Z.of_nat k < 2 -> delivered y (spec w) e.
Proof.
  pose proof drained_state as H. destruct (after_reaches manifest drained_meanwhile drained_fresh) as (f & y & Ey & Ef & Hreach).
  { destruct (after drained_meanwhile); [by eexists|destruct H]. }
  rewrite Ey in H. destruct (durable_worker y) as [w|] eqn:Ew; [|destruct H]. destruct H as (Hd & _ & Hl & Ht).
  exists y, w. split; [exact Ey|]. split; [exact Ew|].
  exact (drained_is_caught_up describe manifest ["s"] true f empty_file drained_meanwhile y 0 [("s", 2)] 0 w "s" 2
    Ef empty_file_ok Hreach Hd eq_refl Ew Hl Ht).
Defined.

(** ** A task that dies *)

(** A subscription that asks for one type, in a fabric from its start: an event of another type
    arrives, and the store cannot save its mark. *)
Definition choosy : SubscriptionSpec :=
  mkSpec "test.choosy" (mkFilter ["tool.called"] []) DURABLE PER_STREAM 4 BACKPRESSURE retrying (mkCheckpointPolicy 1).

Definition store_fails : Choices := mkChoices Succeeds 1 2 None (Some "database is locked").
Definition unasked : list label :=
  Start None :: repeat on 11 ++ [Submit [] "s" [fact_ "a"]; Acquire fine None; on; on; on; Work 0 handles].

Lemma unasked_fresh : fresh_after [choosy] unasked = true.
Proof. vm_compute. reflexivity. Qed.

Lemma unasked_state :
  match after_with [choosy] unasked with
  | Some y =>
      match durable_worker y with
      | Some w =>
          spec w = choosy /\ accepting w = true /\ Dict.get "s" (_acknowledged w) = Some 0
          /\ (1 <= S (default 0 (Dict.get "s" (_since_checkpoint w))))%nat
          /\ match _task w with Alive (Fresh e) => stream_id e = "s" /\ sequence e = 1 /\ event_type e = "run.started" | _ => False end
      | None => False
      end
  | None => False
  end.
Proof. vm_compute. split_and!; first [reflexivity|lia]. Qed.

Lemma dead_task_witness :
  exists y w x w1, after_with [choosy] unasked = Some y /\ durable_worker y = Some w
  /\ step describe store_fails w (store y) = Some (w1, store y, None) /\ _task w1 = Died x /\ SubscriptionWorker._state w1 = SubscriptionWorker._state w
  /\ SubscriptionWorker.drain w1 = None.
Proof.
  pose proof unasked_state as H. destruct (after_reaches [choosy] unasked unasked_fresh) as (f & y & Ey & Ef & Hreach).
  { destruct (after_with [choosy] unasked); [by eexists|destruct H]. }
  rewrite Ey in H. destruct (durable_worker y) as [w|] eqn:Ew; [|destruct H]. destruct H as (Hs & Ha & Hn & Hd & He).
  destruct (_task w) as [|[|e0|e0 k o]| |x] eqn:Et; try (exfalso; exact He). destruct He as (H0 & Hq & Hty).
  assert (sound w (store y)) as Hw.
  { pose proof (reaches_ok (J := EventJournal.t) describe [choosy] ["s"] true f empty_file unasked y Ef empty_file_ok Hreach) as Hy.
    exact (sound_at [choosy] _ _ _ _ _ _ _ Hy Ew). }
  destruct (dead_task_wedges describe store_fails e0 "database is locked" 0 w (store y) Hw Et Ha) as (x & w1 & Hst & Htk & Hsame & _ & Hall).
  - rewrite Hs. reflexivity.
  - rewrite H0. exact Hn.
  - rewrite Hq. lia.
  - rewrite Hs, Hty. reflexivity.
  - rewrite Hs, H0. exact Hd.
  - reflexivity.
  - exists y, w, x, w1. split_and!; try assumption. specialize (Hall []). cbn in Hall. apply Hall.
Defined.

(** ** A worker alone *)

Definition event (n : Z) (type : string) : EventEnvelope string := mkEnvelope _ "e" type 1 "s" n 5 "payload".

Definition worker_with (sp : SubscriptionSpec) (items : list (EventEnvelope string)) (k : Task) : Worker string :=
  mkWorker sp true (mkMailbox items (length items + taken k) 0 0 false) SubscriptionWorker.RUNNING k None [] [] [].

Definition open_store : StateStore := mkStore true ∅ ∅.

Lemma worker_with_sound sp items k :
  valid_spec sp = true -> (length items <= capacity sp)%nat -> k <> NoTask -> match k with Alive (Attempting _ _ _) => False | _ => True end ->
  sound (worker_with sp items k) open_store.
Proof.
  intros Hv Hl Hk Hp. split; [split; try done; constructor|split; [done|done]| |done]. unfold phase_ok. cbn. by destruct k as [|[| |]| |].
Qed.

Definition pair_of_events : list (EventEnvelope string) := [event 1 "run.started"; event 2 "run.started"].

Lemma worker_quiesces_witness :
  let '(w', st', rs, stops) := serve describe (repeat refuses 10 ++ repeat handles 20) (worker_with durable pair_of_events (Alive Taking)) open_store in
  stops = true /\ SubscriptionWorker._state w' = SubscriptionWorker.FAILED.
Proof.
  assert (sound (worker_with durable pair_of_events (Alive Taking)) open_store) as Hs
    by (apply worker_with_sound; [by vm_compute|cbn; lia|done|done]).
  pose proof (worker_quiesces describe (repeat refuses 10 ++ repeat handles 20) _ _ Hs ltac:(cbn; lia)) as H.
  destruct (serve _ _ _ _) as [[[w' st'] rs] b] eqn:E. destruct H as (-> & _ & _). split; [done|].
  transitivity (SubscriptionWorker._state (serve describe (repeat refuses 10 ++ repeat handles 20)
    (worker_with durable pair_of_events (Alive Taking)) open_store).1.1.1); [by rewrite E|vm_compute; reflexivity].
Defined.

(** ** Corners *)

(** Coalescing moves the newer event of one type ahead of the older one of another, which is
    then behind the checkpoint: it is passed over, and counted neither as dropped nor as
    handled. *)
Definition lossy : SubscriptionSpec := mkSpec "test.lossy" anything LOSSY PER_STREAM 4 COALESCE retrying (mkCheckpointPolicy 1).

Lemma coalescing_skips :
  let (w, _) := publish_all [event 1 "a.x"; event 2 "b.x"; event 3 "a.x"] (worker_with lossy [] (Alive Taking)) in
  let '(w', _, rs, _) := serve describe (repeat handles 20) w open_store in
  ((fun x => (sequence x.1, x.2)) <$> rs, _dropped (_mailbox w'), _coalesced (_mailbox w'))
  = ([(3, Handled); (2, Old)], 0%nat, 1%nat).
Proof. vm_compute. reflexivity. Qed.

(** A handler that succeeds is run again when the checkpoint cannot be saved, and the event it
    handled twice is filed as a dead letter. *)
Lemma handled_twice_and_dead :
  let saves_fail := mkChoices Succeeds 1 2 (Some "disk full") None in
  let '(w', st', rs, _) := serve describe [handles; handles; saves_fail; saves_fail] (worker_with reliable [event 1 "a.x"] (Alive Taking)) open_store in
  ((fun x => (sequence x.1, x.2)) <$> rs, SubscriptionWorker._state w', row_error <$> dead_letters st' !! ("test.reliable", "s", 1))
  = ([(1, DeadLettered)], SubscriptionWorker.DEGRADED, Some "disk full").
Proof. vm_compute. reflexivity. Qed.

(** An error text beyond its bound cannot be filed: the subscription fails instead of passing
    over the event. *)
Fixpoint xs (n : nat) : string := match n with O => "" | S n => String "x" (xs n) end.
Definition long_error : Choices := mkChoices (Fails (xs 16400)) 1 2 None None.

Lemma long_error_fails :
  let '(w', st', rs, _) := serve describe [handles; handles; long_error; long_error] (worker_with reliable [event 1 "a.x"] (Alive Taking)) open_store in
  (rs, SubscriptionWorker._state w', SubscriptionWorker._failure w') = ([], SubscriptionWorker.FAILED, Some ValueError).
Proof. vm_compute. reflexivity. Qed.

(** A reliable subscription that failed leaves the fabric writable; the next append commits,
    cannot be routed, and the fabric fails. *)
Definition failed_reliable : list label :=
  boot ++ [Submit [] "s" [fact_ "a"]; Acquire fine None; on; on; on; on; Work 1 handles; Work 1 handles; Work 1 long_error; Work 1 long_error;
           Submit [] "s" [fact_ "b"]; Acquire fine None; on; on].

Lemma failed_reliable_fails_fabric :
  match after (take 26 failed_reliable), after failed_reliable with
  | Some y, Some y' =>
      (FabricHealth.health (FabricHealth.snapshot (f_state (fabric y)) [] (dispatcher (fabric y)) (issues (fabric y))),
       f_state (fabric y'), event_id <$> JournalPort.committed (journal y') "s", (fun r => is_ok r.2) <$> replies y')
  | _, _ => (FabricHealth.HEALTHY, FabricHealth.NEW, [], [])
  end
  = (FabricHealth.DEGRADED, FabricHealth.FAILED, ["a"; "b"], [true; false]).
Proof. vm_compute. reflexivity. Qed.

(** One write that fails, and nothing is written again. *)
Definition asked : list label := boot ++ [Submit [] "s" [fact_ "a"]].
Definition no_space : Weather := mkWeather 5 (AppendOnlyLedger.Fails 0).
Definition takes_lock : label := Acquire no_space None.
Definition asks_again : list label := [Submit [] "s" [fact_ "a"]; Submit [] "s" [fact_ "b"]].

Lemma asked_state :
  match after asked with
  | Some y =>
      let f := fabric y in
      (f_state f, inflight f, cursor "s" (dispatcher f)) = (FabricHealth.RUNNING, [("s", [fact_ "a"])], Ok 0)
      /\ activity f = Idle
      /\ (JournalPort.append "s" [fact_ "a"] 0 no_space (journal y)).2 = Raise OSError
      /\ match run_label describe takes_lock y with
         | Some y1 => match run describe asks_again y1 with Some _ => True | None => False end
         | None => False
         end
  | None => False
  end.
Proof. vm_compute. split_and!; reflexivity || exact I. Qed.

Lemma read_only_witness :
  exists y y1 y2, after asked = Some y /\ run_label describe takes_lock y = Some y1 /\ run describe asks_again y1 = Some y2
  /\ ReadOnly.refuses_all y1 y2.
Proof.
  pose proof asked_state as H. destruct (after asked) as [y|] eqn:E; [|destruct H]. cbv zeta in H. destruct H as (H1 & H2 & H3 & H4).
  destruct (run_label describe takes_lock y) as [y1|] eqn:E1; [|destruct H4].
  destruct (run describe asks_again y1) as [y2|] eqn:E2; [|destruct H4].
  injection H1 as Hs Hi Hc.
  match type of H3 with ?a.2 = _ => destruct a as [j o] eqn:Ea end. cbn [snd] in H3. subst o.
  exists y, y1, y2. split; [exact eq_refl|]. split; [exact E1|]. split; [exact E2|].
  refine (proj2 (ReadOnly.read_only_is_final describe "s" [fact_ "a"] 0 no_space None OSError j asks_again y y1 y2 Hs H2 Hi Hc Ea _ E1 _ E2)).
  - by left.
  - repeat constructor.
Defined.

End EventExample.
