(* ===== verification/InferenceDispatch.v ===== *)
(** The dispatcher of the inference runtime ([runtime/inference/dispatcher.py]): its workers
    take entries off the queue of [FairQueue.v], hold a permit of the bulkheads of
    [Bulkhead.v] while the handler runs, and settle the entry. A worker runs from one await
    to the next; the handlers, the resolver of identities, the clocks and cancellation are
    arguments. *)

From S2P Require Import Prelude FairQueue Bulkhead.

Local Open Scope Z_scope.

Module Dispatcher.
Import FairAdmissionQueue.

(** The resolver fails, a cancellation is delivered, the queue or the bulkheads raise, or
    the count of active handlers goes below zero. *)
Inductive exn :=
| ResolverError
| CancelledError
| QueueError (x : FairAdmissionQueue.exn)
| BulkheadError (x : Bulkhead.exn)
| ActiveUnderflow.

(** Where a worker is. [Taken] is where the resolver runs, [Acquiring] the loop of the
    bulkheads, with whether it waits on their condition, [Expired] the timeout handler and
    [Refused] what follows it; then the permit is held, the handler runs, and the [finally]
    releases the permit, lowers the count and settles the entry, with the exception that is
    under way. A worker that died keeps what it held. *)
Inductive Phase :=
| Dequeuing
| Taken (e : QueueEntry)
| Acquiring (e : QueueEntry) (i : Bulkhead.BulkheadIdentity) (waiting : bool)
| Expired (e : QueueEntry)
| Refused (e : QueueEntry)
| Permitted (e : QueueEntry) (p : nat)
| Handling (e : QueueEntry) (p : nat)
| Releasing (e : QueueEntry) (p : nat) (x : option exn)
| Deactivating (e : QueueEntry) (x : option exn)
| Settling (e : QueueEntry) (x : option exn)
| Returned
| Died (x : exn) (at_ : Phase).

(** [handled] and [refused] are the calls of the two handlers, [settled] the entries whose
    [task_done] was called, in their order. *)
Record t := mk {
  queue : FairAdmissionQueue.world;
  bulkheads : Bulkhead.world;
  _workers : list Phase;
  _active : Z;
  _closing : bool;
  _errors : nat;
  handled : list QueueEntry;
  refused : list QueueEntry;
  settled : list QueueEntry
}.

(** What a handler does: it returns, raises, or lets a cancellation escape. *)
Inductive Handling_ := Succeeds | Fails | Cancels.

(** What the world decides about the next step of a worker. *)
Record Choices := mkChoices { clk : readings; expired : bool; timed_out : bool; outcome_ : Handling_ }.

Section Dispatcher.
Context (c : config) (l : Bulkhead.limits).
Context (_identity_resolver : QueueEntry -> option Bulkhead.BulkheadIdentity).

Definition init : t :=
  mk (FairAdmissionQueue.mkWorld FairAdmissionQueue.init [] [] 0 ∅ []) (Bulkhead.mkWorld Bulkhead.init []) [] 0 false 0 [] [] [].

Definition with_queue (q : FairAdmissionQueue.world) (s : t) : t :=
  mk q (bulkheads s) (_workers s) (_active s) (_closing s) (_errors s) (handled s) (refused s) (settled s).
Definition with_bulkheads (b : Bulkhead.world) (s : t) : t :=
  mk (queue s) b (_workers s) (_active s) (_closing s) (_errors s) (handled s) (refused s) (settled s).
Definition with_workers (ws : list Phase) (s : t) : t :=
  mk (queue s) (bulkheads s) ws (_active s) (_closing s) (_errors s) (handled s) (refused s) (settled s).
Definition with_active (n : Z) (s : t) : t :=
  mk (queue s) (bulkheads s) (_workers s) n (_closing s) (_errors s) (handled s) (refused s) (settled s).
Definition with_errors (n : nat) (s : t) : t :=
  mk (queue s) (bulkheads s) (_workers s) (_active s) (_closing s) n (handled s) (refused s) (settled s).
Definition calls_handler (e : QueueEntry) (s : t) : t :=
  mk (queue s) (bulkheads s) (_workers s) (_active s) (_closing s) (_errors s) (handled s ++ [e]) (refused s) (settled s).
Definition calls_timeout (e : QueueEntry) (s : t) : t :=
  mk (queue s) (bulkheads s) (_workers s) (_active s) (_closing s) (_errors s) (handled s) (refused s ++ [e]) (settled s).
Definition settles (e : QueueEntry) (s : t) : t :=
  mk (queue s) (bulkheads s) (_workers s) (_active s) (_closing s) (_errors s) (handled s) (refused s) (settled s ++ [e]).

Definition start (worker_count : nat) (s : t) : t * outcome unit unit :=
  match _workers s with
  | [] => (with_workers (repeat Dequeuing worker_count) s, Ok tt)
  | _ => (s, Raise tt)
  end.

Definition _mark_active (delta : Z) (s : t) : t * outcome exn unit :=
  let s := with_active (_active s + delta) s in
  (s, if _active s <? 0 then Raise ActiveUnderflow else Ok tt).

(** [task_done], after which the worker goes on, or ends with the exception under way. *)
Definition settle (e : QueueEntry) (x : option exn) (here : Phase) (s : t) : t * Phase :=
  let o := snd (task_done (q (queue s))) in
  let s := with_queue (FairAdmissionQueue.run_op c TaskDone (queue s)) s in
  match o with
  | Raise y => (s, Died (QueueError y) here)
  | Ok _ => (settles e s, match x with None => Dequeuing | Some y => Died y Returned end)
  end.

(** [_worker], from one await to the next: [None] where it waits. *)
Definition _worker (k : Choices) (ph : Phase) (s : t) : option (t * Phase) :=
  match ph with
  | Dequeuing =>
      let o := snd (dequeue c (clk k) (q (queue s))) in
      let s := with_queue (FairAdmissionQueue.run_op c (Dequeue (clk k)) (queue s)) s in
      match o with
      | Ok None => Some (s, Dequeuing)
      | Ok (Some e) => Some (s, match _identity_resolver e with Some i => Acquiring e i false | None => Died ResolverError (Taken e) end)
      | Raise QueueClosedError => Some (s, Returned)
      | Raise x => Some (s, Died (QueueError x) Dequeuing)
      end
  | Taken _ => None
  | Acquiring e i waiting =>
      if waiting && timed_out k then Some (calls_timeout e s, Expired e)
      else
        let o := snd (Bulkhead.acquire l (expired k) i (Bulkhead.ctl (bulkheads s))) in
        let p := length (Bulkhead.permits (bulkheads s)) in
        let s := with_bulkheads (Bulkhead.run_op l (Bulkhead.Acquire (expired k) i) (bulkheads s)) s in
        match o with
        | Ok Granted => Some (s, Permitted e p)
        | Ok Waits => if waiting then None else Some (s, Acquiring e i true)
        | Raise TimeoutError => Some (calls_timeout e s, Expired e)
        | Raise x => Some (s, Died (BulkheadError x) ph)
        end
  | Expired e =>
      match outcome_ k with
      | Succeeds => Some (s, Refused e)
      | Fails => Some (with_errors (S (_errors s)) s, Refused e)
      | Cancels => Some (s, Died CancelledError ph)
      end
  | Refused e => Some (settle e None ph s)
  | Permitted e p =>
      let (s, o) := _mark_active 1 s in
      match o with
      | Raise x => Some (s, Died x ph)
      | Ok _ => Some (calls_handler e s, Handling e p)
      end
  | Handling e p =>
      match outcome_ k with
      | Succeeds => Some (s, Releasing e p None)
      | Fails => Some (with_errors (S (_errors s)) s, Releasing e p None)
      | Cancels => Some (s, Releasing e p (Some CancelledError))
      end
  | Releasing e p x =>
      match Bulkhead.permits (bulkheads s) !! p with
      | None => None
      | Some pm =>
          let o := snd (Bulkhead.permit_release pm (Bulkhead.ctl (bulkheads s))) in
          let s := with_bulkheads (Bulkhead.run_op l (Bulkhead.Release p) (bulkheads s)) s in
          match o with
          | Ok _ => Some (s, Deactivating e x)
          | Raise y => Some (s, Died (BulkheadError y) ph)
          end
      end
  | Deactivating e x =>
      let (s, o) := _mark_active (-1) s in
      match o with
      | Raise y => Some (s, Died y ph)
      | Ok _ => Some (s, Settling e x)
      end
  | Settling e x => Some (settle e x ph s)
  | Returned | Died _ _ => None
  end.

Definition step (n : nat) (k : Choices) (s : t) : option t :=
  match _workers s !! n with
  | None => None
  | Some ph =>
      match _worker k ph s with
      | None => None
      | Some (s', ph') => Some (with_workers (<[n := ph']> (_workers s)) s')
      end
  end.

(** A cancellation reaches a worker: in the handler it runs the [finally], elsewhere it ends
    the worker where it is. *)
Definition interrupted (ph : Phase) : Phase :=
  match ph with
  | Returned => Returned
  | Died x p => Died x p
  | Handling e p => Releasing e p (Some CancelledError)
  | ph => Died CancelledError ph
  end.

Definition interrupt (n : nat) (s : t) : t :=
  match _workers s !! n with
  | None => s
  | Some ph => with_workers (<[n := interrupted ph]> (_workers s)) s
  end.

(** [drain]: [None] while it waits for the queue to be joined. *)
Inductive drain_error := DrainTimeout | DispatchFailures (n : nat).

Definition joined (s : t) : bool := _unfinished (q (queue s)) =? 0.

Definition drain (timeout : bool) (s : t) : option (t * outcome drain_error unit) :=
  if joined s then
    if (0 <? _errors s)%nat then Some (with_errors 0 s, Raise (DispatchFailures (_errors s))) else Some (s, Ok tt)
  else if timeout then Some (s, Raise DrainTimeout) else None.

(** [aclose], up to the workers it gathers, and its end: the first exception of a worker
    leaves it; the bulkheads are closed when all have returned. *)
Definition aclose (s : t) : t :=
  if _closing s then s
  else mk (FairAdmissionQueue.run_op c FairAdmissionQueue.Close (queue s)) (bulkheads s) (_workers s) (_active s) true
         (_errors s) (handled s) (refused s) (settled s).

Definition death (ph : Phase) : option exn := match ph with Died x _ => Some x | _ => None end.

Definition is_returned (ph : Phase) : bool := match ph with Returned => true | _ => false end.

Definition aclose_finish (s : t) : option (t * outcome exn unit) :=
  match omap death (_workers s) with
  | x :: _ => Some (s, Raise x)
  | [] => if forallb is_returned (_workers s)
          then Some (with_bulkheads (Bulkhead.run_op l Bulkhead.Close (bulkheads s)) s, Ok tt) else None
  end.

(** ** Histories *)

Inductive label :=
| Start (n : nat)
| Offer (now : Z) (payload : nat) (tenant project : string) (sch : scheduling) (deadline : Z)
| Withdraw (now id : Z)
| Work (n : nat) (k : Choices)
| Interrupt (n : nat)
| Drain (timeout : bool)
| Aclose
| AcloseFinish.

Definition run_label (b : label) (s : t) : t :=
  match b with
  | Start n => (start n s).1
  | Offer now pl tid pid sch dl => with_queue (FairAdmissionQueue.run_op c (Enqueue now pl tid pid sch dl) (queue s)) s
  | Withdraw now id => with_queue (FairAdmissionQueue.run_op c (Cancel now id) (queue s)) s
  | Work n k => default s (step n k s)
  | Interrupt n => interrupt n s
  | Drain timeout => match drain timeout s with Some (s, _) => s | None => s end
  | Aclose => aclose s
  | AcloseFinish => if _closing s then match aclose_finish s with Some (s, _) => s | None => s end else s
  end.

Definition run (bs : list label) : t := foldl (fun s b => run_label b s) init bs.

(** The clock of the loop does not go back, and scheduling classes are as their contract says. *)
Definition label_ok (b : label) : Prop :=
  match b with
  | Offer _ _ _ _ sch _ => valid_scheduling sch = true
  | Work _ k => monotone (clk k)
  | _ => True
  end.

(** ** What the workers hold *)

(** The entries a worker has still to settle, those neither handler was called for yet, the
    permits it holds, and whether its handler counts as active. *)
Fixpoint hand (ph : Phase) : list QueueEntry :=
  match ph with
  | Dequeuing | Returned => []
  | Taken e | Acquiring e _ _ | Expired e | Refused e | Permitted e _ | Handling e _
  | Releasing e _ _ | Deactivating e _ | Settling e _ => [e]
  | Died _ p => hand p
  end.

Fixpoint undecided (ph : Phase) : list QueueEntry :=
  match ph with
  | Taken e | Acquiring e _ _ | Permitted e _ => [e]
  | Died _ p => undecided p
  | _ => []
  end.

Fixpoint permit (ph : Phase) : list nat :=
  match ph with
  | Permitted _ p | Handling _ p | Releasing _ p _ => [p]
  | Died _ p => permit p
  | _ => []
  end.

Fixpoint is_active (ph : Phase) : bool :=
  match ph with
  | Handling _ _ | Releasing _ _ _ | Deactivating _ _ => true
  | Died _ p => is_active p
  | _ => false
  end.

(** Why a worker dies: its resolver failed, it was cancelled, or the bulkheads were closed
    under it. *)
Definition proper_death (x : exn) : Prop :=
  match x with ResolverError | CancelledError | BulkheadError Bulkhead.RuntimeError => True | _ => False end.

Definition phase_ok (ph : Phase) : Prop :=
  match ph with
  | Taken _ => False
  | Died x _ | Releasing _ _ (Some x) | Deactivating _ (Some x) | Settling _ (Some x) => proper_death x
  | _ => True
  end.

(** The permits not released yet, by their place. *)
Definition open_permits (ps : list Bulkhead.permit) : list nat :=
  fst <$> filter (fun x => x.2.2 = false) (imap pair ps).

Lemma open_permits_spec ps n : n ∈ open_permits ps <-> exists i, ps !! n = Some ((i, false) : Bulkhead.permit).
Proof.
  unfold open_permits. rewrite list_elem_of_fmap. split.
  - intros ([m [i b]] & -> & [Hb Hm]%list_elem_of_filter). apply elem_of_lookup_imap in Hm as (k & y & E & Hy).
    injection E as -> <-. cbn in Hb. subst b. by exists i.
  - intros (i & Hi). exists (n, (i, false)). split; [done|]. apply list_elem_of_filter. split; [done|].
    apply elem_of_lookup_imap. by exists n, (i, false).
Qed.

Lemma imap_pair_fst {A} (l0 : list A) : fst <$> imap pair l0 = seq 0 (length l0).
Proof.
  apply list_eq. intros k. rewrite list_lookup_fmap, list_lookup_imap. destruct (l0 !! k) eqn:E; cbn.
  - symmetry. apply lookup_seq. split; [done|]. by apply lookup_lt_Some in E.
  - symmetry. apply lookup_seq_ge. by apply lookup_ge_None.
Qed.

Lemma open_permits_NoDup ps : NoDup (open_permits ps).
Proof.
  assert (NoDup (fst <$> imap pair ps)) as H by (rewrite imap_pair_fst; apply NoDup_seq).
  eapply sublist_NoDup; [exact H|]. unfold open_permits. apply fmap_sublist, sublist_filter.
Qed.

Lemma open_permits_grant ps i : open_permits (ps ++ [(i, false)]) ≡ₚ length ps :: open_permits ps.
Proof.
  unfold open_permits. rewrite imap_app, filter_app, fmap_app. cbn. rewrite Nat.add_0_r.
  symmetry. apply Permutation_cons_append.
Qed.

Lemma open_permits_release ps n i ns :
  ps !! n = Some ((i, false) : Bulkhead.permit) -> open_permits ps ≡ₚ n :: ns ->
  open_permits (<[n := (i, true) : Bulkhead.permit]> ps) ≡ₚ ns.
Proof.
  intros Hn Hp. pose proof (open_permits_NoDup ps) as Hd. rewrite Hp in Hd. apply NoDup_cons in Hd as [Hni Hd].
  apply NoDup_Permutation; [apply open_permits_NoDup|done|]. intros k. rewrite open_permits_spec. split.
  - intros (j & Hj). destruct (decide (n = k)) as [<-|Hne].
    + rewrite list_lookup_insert_eq in Hj by (by eapply lookup_lt_Some). done.
    + rewrite list_lookup_insert_ne in Hj by done.
      assert (k ∈ open_permits ps) as Hk by (apply open_permits_spec; by exists j).
      rewrite Hp in Hk. apply elem_of_cons in Hk as [->|]; done.
  - intros Hk. assert (k ∈ open_permits ps) as (j & Hj)%open_permits_spec by (rewrite Hp; by right).
    exists j. rewrite list_lookup_insert_ne by (by intros ->). done.
Qed.

Lemma open_permits_held ps : Bulkhead.held (fun _ => true) ps = Z.of_nat (length (open_permits ps)).
Proof.
  unfold Bulkhead.held, open_permits. rewrite length_fmap.
  assert (forall f : nat -> Bulkhead.permit -> nat * Bulkhead.permit, (forall k p, (f k p).2 = p) ->
    count_if (fun p : Bulkhead.permit => negb p.2 && true) ps = Z.of_nat (length (filter (fun x => x.2.2 = false) (imap f ps)))) as H; [|by apply H].
  induction ps as [|[i b] ps IH]; intros f Hf; [done|]. cbn [count_if imap]. rewrite filter_cons, (IH (f ∘ S)) by (intros; apply Hf).
  rewrite Hf. cbn [snd]. destruct b; [by rewrite decide_False|]. rewrite decide_True by done. cbn [length]. rewrite Nat2Z.inj_succ, <- Z.add_1_l. reflexivity.
Qed.

#[local] Arguments open_permits : simpl never.

(** ** The invariant *)

Record inv (ws : list Phase) (s : t) (dropped : list QueueEntry) : Prop := {
  v_queue : winv c (queue s) dropped;
  v_bulk : Bulkhead.inv l (bulkheads s);
  v_hand : served (queue s) ≡ₚ settled s ++ (ws ≫= hand);
  v_finished : finished (queue s) = Z.of_nat (length (settled s));
  v_log : served (queue s) ≡ₚ handled s ++ refused s ++ (ws ≫= undecided);
  v_permits : open_permits (Bulkhead.permits (bulkheads s)) ≡ₚ (ws ≫= permit);
  v_active : _active s = count_if is_active ws;
  v_phases : Forall phase_ok ws
}.

Lemma count_if_perm {A} (f : A -> bool) l1 l2 : l1 ≡ₚ l2 -> count_if f l1 = count_if f l2.
Proof. induction 1 as [|x l1 l2 _ IH|x y l0|l1 l2 l3 _ IH1 _ IH2]; cbn; lia. Qed.

Lemma inv_perm ws ws' s d : ws ≡ₚ ws' -> inv ws s d -> inv ws' s d.
Proof.
  intros Hw []. split; try done.
  - by rewrite <- Hw.
  - by rewrite <- Hw.
  - by rewrite <- Hw.
  - by rewrite <- (count_if_perm _ _ _ Hw).
  - by rewrite <- Hw.
Qed.

Lemma insert_perm {A} (ws : list A) n x y : ws !! n = Some x -> <[n := y]> ws ≡ₚ y :: delete n ws.
Proof.
  revert n. induction ws as [|z ws IH]; intros [|n] Hn; [done|done|done|].
  change (z :: <[n := y]> ws ≡ₚ y :: z :: delete n ws). rewrite (IH n Hn). apply Permutation_swap.
Qed.

(** The parts of the invariant that a step of the queue or of the bulkheads changes. *)
Lemma inv_queue ws s q' d d' :
  inv ws s d -> winv c q' d' -> served q' = served (queue s) -> finished q' = finished (queue s) -> inv ws (with_queue q' s) d'.
Proof. intros [] Hq Hs Hf. split; try done; cbn; by rewrite ?Hs, ?Hf. Qed.

Context (Hc : valid_config c = true).
#[local] Set Default Proof Using "Type*".

Lemma winv_size w d : winv c w d -> 0 <= _size (q w).
Proof. intros []. rewrite wi_size0. lia. Qed.

Lemma settle_ok e x here rest s d :
  hand here = [e] -> undecided here = [] -> permit here = [] -> is_active here = false ->
  match x with Some y => proper_death y | None => True end ->
  inv (here :: rest) s d -> exists d', inv ((settle e x here s).2 :: rest) (settle e x here s).1 d'.
Proof.
  intros Hh Hu Hp Ha Hx [Vq Vb Vh Vf Vl Vp Va Vw]. rewrite !bind_cons, ?Hh, ?Hu, ?Hp in *. cbn in *. rewrite Ha in Va.
  destruct (winv_step c TaskDone (queue s) d Hc I Vq) as [d' Hd']. exists d'.
  assert (_unfinished (q (queue s)) <=? 0 = false) as Eu.
  { apply Z.leb_gt. pose proof (wi_unfinished _ _ _ Vq) as Hun. pose proof (winv_size _ _ Vq).
    apply Permutation_length in Vh. rewrite length_app in Vh. cbn in Vh. lia. }
  unfold settle. cbn [run_op] in *. unfold task_done in *. rewrite Eu in *. cbn [snd fst is_ok] in *.
  apply Forall_cons in Vw as [_ Vw].
  split; cbn; try done.
  - destruct x; cbn; rewrite Vh, <- app_assoc; done.
  - rewrite Vf, length_app. cbn. lia.
  - by destruct x.
  - by destruct x.
  - rewrite Va. by destruct x.
  - constructor; [by destruct x|done].
Qed.

Lemma dequeue_ok k rest s d :
  monotone (clk k) -> inv (Dequeuing :: rest) s d ->
  match _worker k Dequeuing s with None => False | Some (s', ph') => exists d', inv (ph' :: rest) s' d' end.
Proof.
  intros Hk [Vq Vb Vh Vf Vl Vp Va Vw]. cbn in *. apply Forall_cons in Vw as [_ Vw].
  destruct (winv_step c (Dequeue (clk k)) (queue s) d Hc Hk Vq) as [d' Hd'].
  pose proof (dequeue_spec c (clk k) (q (queue s)) Hc Hk (wi_shape _ _ _ Vq)) as Hs.
  cbn [run_op] in *. destruct (dequeue c (clk k) (q (queue s))) as [q' o]. cbn [snd].
  destruct Hs as (s1 & d1 & _ & _ & Ho). destruct o as [[e|]|x].
  - exists d'. split; cbn; try done.
    + rewrite Vh, <- app_assoc. apply Permutation_app_head. destruct (_identity_resolver e); cbn; by rewrite <- Permutation_cons_append.
    + rewrite Vl, <- !app_assoc. do 2 apply Permutation_app_head. destruct (_identity_resolver e); cbn; by rewrite <- Permutation_cons_append.
    + by destruct (_identity_resolver e).
    + rewrite Va. by destruct (_identity_resolver e).
    + constructor; [by destruct (_identity_resolver e)|done].
  - exists d'. split; cbn; try done. constructor; done.
  - destruct Ho as (-> & _). exists d'. split; cbn; try done. constructor; done.
Qed.

Lemma refuse_ok e i waiting rest s d :
  inv (Acquiring e i waiting :: rest) s d -> inv (Expired e :: rest) (calls_timeout e s) d.
Proof.
  intros [Vq Vb Vh Vf Vl Vp Va Vw]. cbn in *. apply Forall_cons in Vw as [_ Vw]. split; cbn; try done.
  - rewrite Vl, <- app_assoc. apply Permutation_app_head, Permutation_app_head. done.
  - by constructor.
Qed.

Lemma acquire_ok k e i waiting rest s d s' ph' :
  inv (Acquiring e i waiting :: rest) s d -> _worker k (Acquiring e i waiting) s = Some (s', ph') ->
  inv (ph' :: rest) s' d.
Proof.
  intros H. cbn [_worker]. destruct (waiting && timed_out k). { intros [= <- <-]. by eapply refuse_ok. }
  pose proof H as [Vq Vb Vh Vf Vl Vp Va Vw]. pose proof (Bulkhead.acquire_inv l (expired k) i (bulkheads s) Vb) as Vb'.
  apply Forall_cons in Vw as [_ Vw]. cbn [Bulkhead.run_op] in *.
  assert (forall b, (forall x, snd b = Raise x -> Bulkhead.acquire l (expired k) i (Bulkhead.ctl (bulkheads s)) = b ->
    x = TimeoutError \/ x = Bulkhead.RuntimeError)) as Hx.
  { intros b x Hb Eb. unfold Bulkhead.acquire in Eb. destruct (negb _), (Bulkhead._closed _), (expired k); subst b; cbn in Hb; try done;
      injection Hb as <-; auto. }
  destruct (Bulkhead.acquire l (expired k) i _) as [b o]. cbn [snd].
  specialize (Hx (b, o)). destruct o as [[|]|x].
  - intros [= <- <-]. split; cbn; try done. + by rewrite open_permits_grant, Vp. + by constructor.
  - destruct waiting; [done|]. intros [= <- <-]. split; cbn; try done. by constructor.
  - destruct (Hx x eq_refl eq_refl) as [-> | ->]; intros [= <- <-].
    + refine (refuse_ok e i waiting rest (with_bulkheads _ s) d _). split; try done. by constructor.
    + split; cbn; try done. by constructor.
Qed.

Lemma release_ok e p x rest s d :
  inv (Releasing e p x :: rest) s d ->
  match x with Some y => proper_death y | None => True end ->
  exists s', (forall k, _worker k (Releasing e p x) s = Some (s', Deactivating e x)) /\ inv (Deactivating e x :: rest) s' d.
Proof.
  intros [Vq Vb Vh Vf Vl Vp Va Vw] Hx. cbn in *. apply Forall_cons in Vw as [_ Vw].
  assert (p ∈ open_permits (Bulkhead.permits (bulkheads s))) as (i & Hi)%open_permits_spec by (rewrite Vp; left).
  destruct (Bulkhead.release_live l i (bulkheads s) p Vb Hi) as (b & E & _ & Vb').
  set (w := Bulkhead.run_op l (Bulkhead.Release p) (bulkheads s)).
  assert (w = Bulkhead.mkWorld b (<[p := (i, true)]> (Bulkhead.permits (bulkheads s)))) as Ew.
  { unfold w. cbn [Bulkhead.run_op]. transitivity (let '(p0, s0, _) := Bulkhead.permit_release (i, false) (Bulkhead.ctl (bulkheads s)) in
      Bulkhead.mkWorld s0 (<[p := p0]> (Bulkhead.permits (bulkheads s)))).
    - by rewrite (Hi : Bulkhead.permits (bulkheads s) !! p = Some _).
    - unfold Bulkhead.permit_release. cbn. by rewrite E. }
  exists (with_bulkheads w s). split.
  - intros k. cbv beta iota delta [_worker]. cbv zeta. clearbody w.
    destruct (Bulkhead.permits (bulkheads s) !! p) as [pm|]; [|done]. injection Hi as ->.
    unfold Bulkhead.permit_release. cbn. rewrite E, Ew. done.
  - rewrite Ew. split; cbn; try done.
    + by apply (open_permits_release _ _ _ _ Hi).
    + constructor; [by destruct x|done].
Qed.

(** A step of any worker keeps the invariant. *)
Lemma worker_ok k ph rest s d s' ph' :
  monotone (clk k) -> inv (ph :: rest) s d -> _worker k ph s = Some (s', ph') -> exists d', inv (ph' :: rest) s' d'.
Proof.
  intros Hk H E. pose proof (v_phases _ _ _ H) as [Hp _]%Forall_cons.
  destruct ph as [|e|e i waiting|e|e|e p|e p|e p x|e x|e x| |]; try done.
  - pose proof (dequeue_ok k rest s d Hk H) as Hd. rewrite E in Hd. exact Hd.
  - exists d. by eapply acquire_ok.
  - destruct H as [Vq Vb Vh Vf Vl Vp Va Vw]. apply Forall_cons in Vw as [_ Vw]. exists d.
    cbn in *. destruct (outcome_ k); injection E as <- <-; (split; cbn; try done; by constructor).
  - injection E as E. assert (s' = (settle e None (Refused e) s).1 /\ ph' = (settle e None (Refused e) s).2) as [-> ->] by by rewrite E.
    by apply (settle_ok e None (Refused e)) with d.
  - destruct H as [Vq Vb Vh Vf Vl Vp Va Vw]. apply Forall_cons in Vw as [_ Vw]. exists d. cbn in *.
    destruct (Z.ltb_spec (_active s + 1) 0) as [Hn|_]; [pose proof (count_if_nonneg is_active rest); lia|].
    injection E as <- <-. split; cbn; try done; [|lia|by constructor].
    rewrite Vl, <- !app_assoc. apply Permutation_app_head. symmetry. apply (Permutation_middle (refused s) _ e).
  - destruct H as [Vq Vb Vh Vf Vl Vp Va Vw]. apply Forall_cons in Vw as [_ Vw]. exists d.
    cbn in *. destruct (outcome_ k); injection E as <- <-; (split; cbn; try done; by constructor).
  - destruct (release_ok e p x rest s d H ltac:(by destruct x)) as (s1 & E1 & H1). rewrite E1 in E. injection E as <- <-. by exists d.
  - destruct H as [Vq Vb Vh Vf Vl Vp Va Vw]. apply Forall_cons in Vw as [_ Vw]. exists d. cbn in *.
    destruct (Z.ltb_spec (_active s + -1) 0) as [Hn|_]; [pose proof (count_if_nonneg is_active rest); lia|].
    injection E as <- <-. split; cbn; try done; [lia|]. constructor; [by destruct x|done].
  - injection E as E. assert (s' = (settle e x (Settling e x) s).1 /\ ph' = (settle e x (Settling e x) s).2) as [-> ->] by by rewrite E.
    apply (settle_ok e x (Settling e x)) with d; done.
Qed.

Lemma worker_keeps_workers k ph s s' ph' : _worker k ph s = Some (s', ph') -> _workers s' = _workers s /\ _closing s' = _closing s.
Proof.
  destruct ph as [|e|e i waiting|e|e|e p|e p|e p x|e x|e x| |]; cbn; try done; unfold settle, _mark_active; intros E;
    repeat (case_match; try done); by simplify_eq.
Qed.

Lemma inv_with_workers ws ws' s d : inv ws s d -> inv ws (with_workers ws' s) d.
Proof. by intros []. Qed.

Lemma step_ok n k s d s' : monotone (clk k) -> inv (_workers s) s d -> step n k s = Some s' -> exists d', inv (_workers s') s' d'.
Proof.
  intros Hk H. unfold step. destruct (_workers s !! n) as [ph|] eqn:En; [|done].
  destruct (_worker k ph s) as [[s1 ph']|] eqn:E; [|done]. intros [= <-].
  pose proof (delete_Permutation _ _ _ En) as Hp.
  destruct (worker_ok k ph (delete n (_workers s)) s d s1 ph' Hk) as [d' H']; [by eapply inv_perm|done|].
  exists d'. cbn. apply inv_with_workers. eapply inv_perm; [|exact H']. symmetry. by eapply insert_perm.
Qed.

Lemma dispatch_interrupt_ok n s d : inv (_workers s) s d -> inv (_workers (interrupt n s)) (interrupt n s) d.
Proof.
  intros H. unfold interrupt. destruct (_workers s !! n) as [ph|] eqn:En; [|done].
  apply (inv_perm _ _ _ _ (delete_Permutation _ _ _ En)) in H. cbn. apply inv_with_workers.
  apply (inv_perm (interrupted ph :: delete n (_workers s))); [symmetry; by eapply insert_perm|].
  destruct H as [Vq Vb Vh Vf Vl Vp Va Vw]. apply Forall_cons in Vw as [Hp Vw].
  destruct ph; split; try done; by constructor.
Qed.

Lemma run_label_ok b s d : label_ok b -> inv (_workers s) s d -> exists d', inv (_workers (run_label b s)) (run_label b s) d'.
Proof.
  intros Hb H. destruct b as [n|now pl tid pid sch dl|now id|n k|n|timeout| |]; cbn [run_label].
  - exists d. unfold start. destruct (_workers s) as [|ph ws] eqn:E; [|cbn; by rewrite E]. cbn.
    apply inv_with_workers. destruct H as [Vq Vb Vh Vf Vl Vp Va Vw]. assert (forall f : Phase -> list QueueEntry, f Dequeuing = [] -> repeat Dequeuing n ≫= f = []) as Hf.
    { intros f Hf. induction n as [|n IH]; [done|]. change (f Dequeuing ++ (repeat Dequeuing n ≫= f) = []). by rewrite Hf, IH. }
    split; try done.
    + rewrite (Hf hand) by done. exact Vh.
    + rewrite (Hf undecided) by done. exact Vl.
    + rewrite Vp. clear. induction n as [|n IH]; [done|]. exact IH.
    + rewrite Va. clear. induction n as [|n IH]; [done|]. exact IH.
    + apply Forall_forall. intros x Hx%list_elem_of_In%repeat_spec. by subst.
  - destruct (winv_step c (Enqueue now pl tid pid sch dl) (queue s) d Hc Hb (v_queue _ _ _ H)) as [d' Hd].
    exists d'. apply (inv_queue _ _ _ d); [done|done|..]; cbn; by destruct (enqueue _ _ _ _ _ _ _ _).
  - destruct (winv_step c (Cancel now id) (queue s) d Hc I (v_queue _ _ _ H)) as [d' Hd]. exists d'. by apply (inv_queue _ _ _ d).
  - destruct (step n k s) as [s'|] eqn:E; [by eapply step_ok|by exists d].
  - exists d. by apply dispatch_interrupt_ok.
  - exists d. unfold drain. destruct (joined s), timeout, (0 <? _errors s)%nat; try done; by destruct H.
  - unfold aclose. destruct (_closing s); [by exists d|]. destruct (winv_step c FairAdmissionQueue.Close (queue s) d Hc I (v_queue _ _ _ H)) as [d' Hd].
    exists d'. by destruct H.
  - exists d. destruct (_closing s); [|done]. unfold aclose_finish. destruct (omap death _); [|done]. destruct (forallb _ _); [|done].
    destruct H as [Vq Vb Vh Vf Vl Vp Va Vw]. split; try done. by apply (Bulkhead.run_op_inv l Bulkhead.Close).
Qed.

Lemma dispatch_run_ok bs s d : Forall label_ok bs -> inv (_workers s) s d ->
  let s' := foldl (fun s b => run_label b s) s bs in exists d', inv (_workers s') s' d'.
Proof.
  intros Hbs. revert s d. induction Hbs as [|b bs Hb _ IH]; intros s d H; [by exists d|].
  destruct (run_label_ok b s d Hb H) as [d' H']. by apply (IH _ d').
Qed.

Lemma reach_ok bs : Forall label_ok bs -> exists d, inv (_workers (run bs)) (run bs) d.
Proof.
  intros Hbs. assert (inv (_workers init) init []) as H0; [|by apply (dispatch_run_ok bs init [])].
  destruct (run_winv c [] Hc ltac:(constructor)) as [d Hd].
  assert (d = []) as -> by (apply Permutation_nil; pose proof (wi_conserved _ _ _ Hd) as Hp; cbn in Hp; by rewrite app_nil_r in Hp).
  pose proof (Bulkhead.run_inv l []) as Hb. split; try done; by constructor.
Qed.

(** ** What holds of every history *)

Lemma global_in_flight ws s d : inv ws s d -> Bulkhead._global_in_flight (Bulkhead.ctl (bulkheads s)) = Z.of_nat (length (ws ≫= permit)).
Proof. intros []. by rewrite (Bulkhead.in_global l _ v_bulk0), open_permits_held, v_permits0. Qed.

Lemma unfinished_spec ws s d : inv ws s d -> _unfinished (q (queue s)) = _size (q (queue s)) + Z.of_nat (length (ws ≫= hand)).
Proof.
  intros []. rewrite (wi_unfinished _ _ _ v_queue0), v_finished0. apply Permutation_length in v_hand0. rewrite length_app in v_hand0. lia.
Qed.

Lemma idle_phase ph : hand ph = [] -> permit ph = [] /\ is_active ph = false /\ undecided ph = [].
Proof. induction ph; cbn; try done; auto. Qed.

Lemma idle_workers ws : ws ≫= hand = [] -> ws ≫= permit = [] /\ count_if is_active ws = 0 /\ ws ≫= undecided = [].
Proof.
  induction ws as [|ph ws IH]; [done|]. rewrite !bind_cons. intros [Hh Hw]%app_eq_nil.
  destruct (idle_phase ph Hh) as (-> & Ha & ->). destruct (IH Hw) as (-> & Hws & ->). cbn. by rewrite Ha, Hws.
Qed.

(** C3: the dispatcher loses no entry and serves none twice. After any history of offers,
    steps of workers, failing handlers and resolvers, cancellations, drains and closes: an
    accepted entry is, exactly once, handed to the handler, handed to the timeout handler,
    in the hands of a worker, dropped, or queued, and only a cancelled or expired entry is
    dropped; what the queue calls unfinished is what is queued and what workers have in
    hand; the permits in flight are those workers hold, within the bounds; and no worker
    ever fails on the books of the queue, the bulkheads or the active count. *)
Theorem dispatch_conserves bs :
  Forall label_ok bs -> Bulkhead.valid_limits l = true ->
  let s := run bs in let w := queue s in
  (exists dropped, accepted w ≡ₚ handled s ++ refused s ++ (_workers s ≫= undecided) ++ dropped ++ queued (q w) /\ Forall (droppable w) dropped)
  /\ NoDup (entry_id <$> accepted w)
  /\ _unfinished (q w) = _size (q w) + Z.of_nat (length (_workers s ≫= hand))
  /\ (Bulkhead._global_in_flight (Bulkhead.ctl (bulkheads s)) = Z.of_nat (length (_workers s ≫= permit))
      /\ Bulkhead._global_in_flight (Bulkhead.ctl (bulkheads s)) <= Bulkhead._global_limit l)
  /\ _active s = count_if is_active (_workers s) /\ Forall phase_ok (_workers s).
Proof.
  intros Hbs Hl s w. destruct (reach_ok bs Hbs) as [d H]. fold s in H. pose proof H as [Vq Vb Vh Vf Vl Vp Va Vw]. split_and!; try done.
  - exists d. split; [|by apply (wi_dropped _ _ _ Vq)]. unfold w. rewrite (wi_conserved _ _ _ Vq), Vl. by rewrite <- !app_assoc.
  - apply sorted_ids_NoDup, (wi_accepted _ _ _ Vq).
  - by eapply unfinished_spec.
  - by eapply global_in_flight.
  - rewrite (Bulkhead.in_global l _ Vb). pose proof (proj1 (Bulkhead.in_bounds l _ Vb)) as Hb. unfold Bulkhead.valid_limits in Hl. zbool. lia.
Qed.

(** A drain that ends has drained. When [drain] does not time out, nothing is queued and
    no worker has anything in hand, every accepted entry went to one of the two handlers
    or was dropped because it was cancelled or expired, and no permit is in flight. *)
Theorem drained_is_done bs timeout s' r :
  Forall label_ok bs -> let s := run bs in
  drain timeout s = Some (s', r) -> r <> Raise DrainTimeout ->
  (exists dropped, accepted (queue s) ≡ₚ handled s ++ refused s ++ dropped /\ Forall (droppable (queue s)) dropped)
  /\ queued (q (queue s)) = [] /\ _workers s ≫= hand = []
  /\ Bulkhead._global_in_flight (Bulkhead.ctl (bulkheads s)) = 0 /\ _active s = 0
  /\ (r = Ok tt <-> _errors s = 0%nat).
Proof.
  intros Hbs s Hd Hr. destruct (reach_ok bs Hbs) as [d H]. fold s in H. pose proof H as [Vq Vb Vh Vf Vl Vp Va Vw].
  unfold drain, joined in Hd. pose proof (unfinished_spec _ _ _ H) as Hu. pose proof (wi_size _ _ _ Vq) as Hsz.
  destruct (Z.eqb_spec (_unfinished (q (queue s))) 0) as [Hz|_]; [|destruct timeout; [by injection Hd as _ <-|done]].
  assert (_workers s ≫= hand = []) as Eh by (apply length_zero_iff_nil; lia).
  assert (queued (q (queue s)) = []) as Eq by (apply length_zero_iff_nil; lia).
  destruct (idle_workers _ Eh) as (Ep & Ea & Eu). split_and!; try done.
  - exists d. split; [|by apply (wi_dropped _ _ _ Vq)]. rewrite (wi_conserved _ _ _ Vq), Vl, Eq, Eu, !app_nil_r. by rewrite <- app_assoc.
  - rewrite (global_in_flight _ _ _ H), Ep. done.
  - by rewrite Va.
  - destruct (Nat.ltb_spec 0 (_errors s)); injection Hd as _ <-; split; try done; lia.
Qed.

(** ** A worker that died with an entry *)

Definition lost (n : nat) (s : t) : Prop :=
  exists x ph, _workers s !! n = Some (Died x ph) /\ hand ph <> [].

Lemma step_dead n m k s x ph : _workers s !! n = Some (Died x ph) -> _workers (default s (step m k s)) !! n = Some (Died x ph).
Proof.
  intros Hn. unfold step. destruct (_workers s !! m) as [ph0|] eqn:Em; [|done].
  destruct (_worker k ph0 s) as [[s1 ph1]|] eqn:E; [|done]. cbn. rewrite list_lookup_insert_ne; [done|].
  intros ->. rewrite Hn in Em. by injection Em as <-.
Qed.

Lemma run_label_dead n b s x ph : _workers s !! n = Some (Died x ph) -> _workers (run_label b s) !! n = Some (Died x ph).
Proof.
  intros Hn. destruct b as [m|now pl tid pid sch dl|now id|m k|m|timeout| |]; cbn [run_label]; try done.
  - unfold start. destruct (_workers s) eqn:E; [done|]. cbn. by rewrite E.
  - by apply step_dead.
  - unfold interrupt. destruct (_workers s !! m) as [ph0|] eqn:Em; [|done]. cbn.
    destruct (decide (m = n)) as [->|Hne]; [|by rewrite list_lookup_insert_ne].
    rewrite Hn in Em. injection Em as <-. cbn. by rewrite list_lookup_insert_eq by (by eapply lookup_lt_Some).
  - unfold drain. by destruct (joined s), timeout, (0 <? _errors s)%nat.
  - unfold aclose. by destruct (_closing s).
  - destruct (_closing s); [|done]. unfold aclose_finish. destruct (omap death _); [|done]. by destruct (forallb _ _).
Qed.

Lemma dead_gathered n s x ph : _workers s !! n = Some (Died x ph) -> exists y, aclose_finish s = Some (s, Raise y).
Proof.
  intros Hn. unfold aclose_finish. destruct (omap death (_workers s)) as [|y ys] eqn:E; [|by exists y].
  assert (x ∈ omap death (_workers s)) as Hx; [|by rewrite E in Hx; apply not_elem_of_nil in Hx].
  apply list_elem_of_omap. exists (Died x ph). split; [by eapply list_elem_of_lookup_2|done].
Qed.

Lemma run_label_open b s n x ph :
  _workers s !! n = Some (Died x ph) ->
  Bulkhead._closed (Bulkhead.ctl (bulkheads (run_label b s))) = Bulkhead._closed (Bulkhead.ctl (bulkheads s)).
Proof.
  intros Hn. destruct b as [m|now pl tid pid sch dl|now id|m k|m|timeout| |]; cbn [run_label]; try done.
  - unfold start. by destruct (_workers s).
  - unfold step. destruct (_workers s !! m) as [ph0|]; [|done]. destruct (_worker k ph0 s) as [[s1 ph1]|] eqn:E; [|done]. cbn.
    assert (forall o w, o <> Bulkhead.Close ->
      Bulkhead._closed (Bulkhead.ctl (Bulkhead.run_op l o w)) = Bulkhead._closed (Bulkhead.ctl w)) as Hop.
    { intros o w Ho. destruct o as [ex i|p|]; [| |done]; cbn.
      - unfold Bulkhead.acquire. destruct (negb _), (Bulkhead._closed (Bulkhead.ctl w)) eqn:Ec, ex; cbn; by rewrite ?Ec.
      - destruct (Bulkhead.permits w !! p) as [[i r]|]; [|done]. unfold Bulkhead.permit_release, Bulkhead._release. cbn.
        repeat case_match; by simplify_eq. }
    destruct ph0 as [|e|e i waiting|e|e|e p|e p|e p y|e y|e y| |]; cbn [_worker] in E; try done; unfold settle, _mark_active in E;
      repeat (case_match; try done); simplify_eq; cbn [bulkheads with_bulkheads with_queue with_active with_errors calls_handler calls_timeout settles fst snd];
      rewrite ?Hop by done; done.
  - unfold interrupt. by destruct (_workers s !! m).
  - unfold drain. by destruct (joined s), timeout, (0 <? _errors s)%nat.
  - unfold aclose. by destruct (_closing s).
  - destruct (_closing s); [|done]. by destruct (dead_gathered n s x ph Hn) as [y ->].
Qed.

(** C39: a worker that dies with an entry in hand, because the resolver of identities raised
    or it was cancelled outside the handler, leaves the entry unfinished for ever: whatever
    happens next, [drain] waits until it times out, and [aclose] raises and leaves the
    bulkheads open. *)
Theorem lost_entry_blocks bs bs' n :
  Forall label_ok bs -> Forall label_ok bs' -> lost n (run bs) ->
  let s := run (bs ++ bs') in
  lost n s /\ drain false s = None /\ drain true s = Some (s, Raise DrainTimeout)
  /\ (exists x, aclose_finish s = Some (s, Raise x))
  /\ Bulkhead._closed (Bulkhead.ctl (bulkheads s)) = Bulkhead._closed (Bulkhead.ctl (bulkheads (run bs))).
Proof.
  intros Hbs Hbs' (x & ph & Hn & Hh) s.
  assert (_workers s !! n = Some (Died x ph) /\ Bulkhead._closed (Bulkhead.ctl (bulkheads s)) = Bulkhead._closed (Bulkhead.ctl (bulkheads (run bs)))) as [Hn' Hcl].
  { unfold s, run. rewrite foldl_app. fold (run bs). revert Hn. generalize (run bs). induction bs' as [|b bs' IH]; intros s0 Hn; [done|].
    apply Forall_cons in Hbs' as [_ Hbs']. cbn. destruct (IH Hbs' (run_label b s0) (run_label_dead _ _ _ _ _ Hn)) as [H1 H2].
    split; [done|]. rewrite H2. by eapply run_label_open. }
  destruct (reach_ok (bs ++ bs')) as [d H]; [by apply Forall_app|]. fold s in H.
  assert (joined s = false) as Hj.
  { apply Z.eqb_neq. rewrite (unfinished_spec _ _ _ H). pose proof (winv_size _ _ (v_queue _ _ _ H)).
    rewrite (delete_Permutation _ _ _ Hn'), bind_cons, length_app. cbn [hand]. destruct (hand ph); [done|]. cbn [length]. lia. }
  unfold drain. rewrite Hj. split_and!; [by exists x, ph|done|done|by eapply dead_gathered|done].
Qed.

(** ** Shutting down *)

(** The steps a worker has left on the entry in its hands. *)
Definition weight (ph : Phase) : nat :=
  match ph with
  | Returned | Died _ _ | Taken _ => 0
  | Dequeuing => 1
  | Settling _ _ | Refused _ => 2
  | Deactivating _ _ | Expired _ => 3
  | Releasing _ _ _ => 4
  | Handling _ _ => 5
  | Permitted _ _ => 6
  | Acquiring _ _ true => 7
  | Acquiring _ _ false => 8
  end.

Definition work_left (ws : list Phase) (s : t) : nat := 8 * length (queued (q (queue s))) + sum_list (weight <$> ws).

Lemma sum_list_perm (l1 l2 : list nat) : l1 ≡ₚ l2 -> sum_list l1 = sum_list l2.
Proof. induction 1; cbn; lia. Qed.

Lemma work_left_perm ws ws' s : ws ≡ₚ ws' -> work_left ws s = work_left ws' s.
Proof. intros H. unfold work_left. by rewrite (sum_list_perm _ _ (fmap_Permutation weight _ _ H)). Qed.

Lemma settle_queue e x here s : queued (q (queue (settle e x here s).1)) = queued (q (queue s))
  /\ _closed (q (queue (settle e x here s).1)) = _closed (q (queue s)) /\ (weight (settle e x here s).2 < 2)%nat.
Proof. unfold settle. cbn [run_op]. unfold task_done. destruct (_unfinished _ <=? 0); cbn; destruct x; cbn; split_and!; done || lia. Qed.

(** While the queue is closed, every step leaves less to do. *)
Lemma worker_decreases k ph rest s d s' ph' :
  monotone (clk k) -> inv (ph :: rest) s d -> _closed (q (queue s)) = true -> _worker k ph s = Some (s', ph') ->
  (work_left (ph' :: rest) s' < work_left (ph :: rest) s)%nat /\ _closed (q (queue s')) = true.
Proof.
  intros Hk H Hcl. unfold work_left. cbn [fmap list_fmap sum_list].
  destruct ph as [|e|e i waiting|e|e|e p|e p|e p x|e x|e x| |]; cbn [_worker]; try done.
  - pose proof (dequeue_spec c (clk k) (q (queue s)) Hc Hk (wi_shape _ _ _ (v_queue _ _ _ H))) as Hs.
    cbn [run_op]. destruct (dequeue c (clk k) (q (queue s))) as [q' o]. cbn [snd].
    destruct Hs as (s1 & d1 & Hd & _ & Ho). pose proof (di_queued _ _ _ _ Hd) as Hq%Permutation_length. rewrite length_app in Hq.
    destruct o as [[e|]|y].
    + intros [= <- <-]. pose proof (so_queued _ _ _ Ho) as Hq'%Permutation_length. pose proof (so_counters _ _ _ Ho) as Hco.
      injection Hco as _ _ _ _ Hco. pose proof (di_closed _ _ _ _ Hd). cbn in Hq' |- *. split; [|congruence].
      destruct (_identity_resolver e); cbn; lia.
    + destruct Ho as [_ Ho]. congruence.
    + destruct Ho as (-> & Ho & _). intros [= <- <-]. pose proof (ro_queued _ _ Ho) as Hq'%Permutation_length. pose proof (ro_counters _ _ Ho) as Hco.
      injection Hco as _ _ _ _ Hco. pose proof (di_closed _ _ _ _ Hd). cbn in Hq' |- *. split; [lia|congruence].
  - destruct waiting; cbn [andb]; [destruct (timed_out k); [intros [= <- <-]; cbn; split; [lia|done]|]|].
    all: destruct (snd _) as [[|]|[| | |]]; intros E; simplify_eq; cbn; (split; [lia|done]).
  - destruct (outcome_ k); intros [= <- <-]; cbn; (split; [lia|done]).
  - intros [= E]. destruct (settle_queue e None (Refused e) s) as (E1 & E2 & Hw). rewrite E in *. cbn in *. rewrite E1. split; [lia|congruence].
  - unfold _mark_active. destruct (_ <? 0); intros [= <- <-]; cbn; (split; [lia|done]).
  - destruct (outcome_ k); intros [= <- <-]; cbn; (split; [lia|done]).
  - destruct (_ !! p); [|done]. destruct (snd _); intros [= <- <-]; cbn; (split; [lia|done]).
  - unfold _mark_active. destruct (_ <? 0); intros [= <- <-]; cbn; (split; [lia|done]).
  - intros [= E]. destruct (settle_queue e x (Settling e x) s) as (E1 & E2 & Hw). rewrite E in *. cbn in *. rewrite E1. split; [lia|congruence].
Qed.

(** Steps of workers one after the other, all of which can be taken. *)
Fixpoint work_all (ks : list (nat * Choices)) (s : t) : option t :=
  match ks with
  | [] => Some s
  | (n, k) :: ks => match step n k s with Some s => work_all ks s | None => None end
  end.

Lemma step_decreases n k s d s' :
  monotone (clk k) -> inv (_workers s) s d -> _closed (q (queue s)) = true -> step n k s = Some s' ->
  (work_left (_workers s') s' < work_left (_workers s) s)%nat /\ _closed (q (queue s')) = true.
Proof.
  intros Hk H Hcl. unfold step. destruct (_workers s !! n) as [ph|] eqn:En; [|done].
  destruct (_worker k ph s) as [[s1 ph']|] eqn:E; [|done]. intros [= <-]. cbn [_workers with_workers queue].
  rewrite (work_left_perm _ _ s (delete_Permutation _ _ _ En)), (work_left_perm _ _ _ (insert_perm _ _ _ ph' En)).
  destruct (worker_decreases k ph (delete n (_workers s)) s d s1 ph' Hk) as [H1 H2]; [|done|done|by split].
  eapply inv_perm; [|done]. by apply delete_Permutation.
Qed.

Lemma work_all_spec ks s d s' :
  Forall (fun x => monotone (clk x.2)) ks -> inv (_workers s) s d -> _closed (q (queue s)) = true -> work_all ks s = Some s' ->
  (length ks + work_left (_workers s') s' <= work_left (_workers s) s)%nat /\ exists d', inv (_workers s') s' d'.
Proof.
  intros Hks. revert s d. induction Hks as [|[n k] ks Hk _ IH]; intros s d H Hcl; cbn [work_all].
  - intros [= <-]. split; [cbn; lia|by exists d].
  - destruct (step n k s) as [s1|] eqn:E; [|done]. intros E'. destruct (step_ok _ _ _ _ _ Hk H E) as [d1 H1].
    destruct (step_decreases _ _ _ _ _ Hk H Hcl E) as [Hlt Hcl1]. destruct (IH s1 d1 H1 Hcl1 E') as [Hle He]. split; [cbn [length]; lia|done].
Qed.

(** A worker that cannot step waits for a permit while others hold one, or has ended. *)
Lemma stuck_phase k ph rest s d :
  monotone (clk k) -> inv (ph :: rest) s d -> _closed (q (queue s)) = true -> _worker k ph s = None ->
  ph = Returned \/ (exists x p, ph = Died x p) \/
  exists e i, ph = Acquiring e i true /\ Bulkhead._available l i (Bulkhead.ctl (bulkheads s)) = false.
Proof.
  intros Hk H Hcl. pose proof (v_phases _ _ _ H) as [Hp _]%Forall_cons.
  destruct ph as [|e|e i waiting|e|e|e p|e p|e p x|e x|e x| |x p]; try done.
  - intros E. pose proof (dequeue_ok k rest s d Hk H) as Hd. by rewrite E in Hd.
  - cbn [_worker]. destruct (waiting && timed_out k) eqn:Ew; [done|]. intros E. right; right. exists e, i.
    unfold Bulkhead.acquire in E. destruct (Bulkhead._available l i _); cbn [negb] in E.
    + destruct (Bulkhead._closed _); done.
    + destruct (Bulkhead._closed _), (expired k), waiting; done.
  - cbn. by destruct (outcome_ k).
  - cbn. by destruct (_ <? 0).
  - cbn. by destruct (outcome_ k).
  - intros E. destruct (release_ok e p x rest s d H ltac:(by destruct x)) as (s1 & E1 & _). by rewrite E1 in E.
  - cbn. by destruct (_ <? 0).
  - intros _. by left.
  - intros _. right; left. by eexists _, _.
Qed.

Lemma unavailable_held i ws s d :
  Bulkhead.valid_limits l = true -> inv ws s d -> Bulkhead._available l i (Bulkhead.ctl (bulkheads s)) = false -> ws ≫= permit <> [].
Proof.
  intros Hl H Ha Hn. pose proof (v_bulk _ _ _ H) as Vb. pose proof (global_in_flight _ _ _ H) as Hg. rewrite Hn in Hg. cbn in Hg.
  rewrite (Bulkhead.in_global l _ Vb) in Hg.
  assert (forall f, Bulkhead.held f (Bulkhead.permits (bulkheads s)) = 0) as H0.
  { intros f. pose proof (Bulkhead.held_nonneg f (Bulkhead.permits (bulkheads s))) as H1.
    assert (Bulkhead.held f (Bulkhead.permits (bulkheads s)) <= Bulkhead.held (fun _ => true) (Bulkhead.permits (bulkheads s))); [|lia].
    unfold Bulkhead.held. clear. induction (Bulkhead.permits (bulkheads s)) as [|[j r] ps IH]; [done|]. cbn. destruct r, (f j); cbn in *; lia. }
  unfold Bulkhead._available in Ha. rewrite (Bulkhead.in_global l _ Vb), !H0 in Ha.
  rewrite (Bulkhead.counts_ok_count _ _ _ (Bulkhead.in_provider l _ Vb)), (Bulkhead.counts_ok_count _ _ _ (Bulkhead.in_endpoint l _ Vb)), !H0 in Ha.
  unfold Bulkhead.valid_limits in Hl. zbool. destruct (Z.ltb_spec 0 (Bulkhead._global_limit l)), (Z.ltb_spec 0 (Bulkhead._provider_limit l)), (Z.ltb_spec 0 (Bulkhead._endpoint_limit l)); try done; lia.
Qed.

Lemma work_left_bound s : (work_left (_workers s) s <= 8 * (length (queued (q (queue s))) + length (_workers s)))%nat.
Proof.
  unfold work_left. assert (sum_list (weight <$> _workers s) <= 8 * length (_workers s))%nat; [|lia].
  generalize (_workers s). induction l0 as [|ph ws IH]; [done|]. cbn. assert (weight ph <= 8)%nat; [|lia].
  destruct ph as [| |? ? []| | | | | | | | |]; cbn; lia.
Qed.

Definition idle : Choices := mkChoices (fun _ => 0) false false Succeeds.

Lemma stuck_workers s d :
  Bulkhead.valid_limits l = true -> inv (_workers s) s d -> _closed (q (queue s)) = true ->
  (forall n k, monotone (clk k) -> step n k s = None) -> omap death (_workers s) = [] -> Forall (eq Returned) (_workers s).
Proof.
  intros Hl H Hcl Hst Hd.
  assert (forall ph, ph ∈ _workers s -> ph = Returned \/ exists e i, ph = Acquiring e i true /\ Bulkhead._available l i (Bulkhead.ctl (bulkheads s)) = false) as Hph.
  { intros ph [n Hn]%list_elem_of_lookup. specialize (Hst n idle (monotone_const 0)). unfold step in Hst. rewrite Hn in Hst.
    destruct (_worker idle ph s) as [[s1 ph1]|] eqn:E; [done|].
    assert (inv (ph :: delete n (_workers s)) s d) as H1 by (eapply inv_perm; [|exact H]; by apply delete_Permutation).
    destruct (stuck_phase idle ph _ s d (monotone_const 0) H1 Hcl E) as [->|[(x & p & ->)|He]]; [by left| |by right].
    assert (x ∈ omap death (_workers s)) as Hx; [|by rewrite Hd in Hx; apply not_elem_of_nil in Hx].
    apply list_elem_of_omap. exists (Died x p). split; [by eapply list_elem_of_lookup_2|done]. }
  assert (_workers s ≫= permit = []) as Hp.
  { revert Hph. clear. induction (_workers s) as [|ph ws IH]; intros Hph; [done|]. rewrite bind_cons, IH; [|intros; apply Hph; by right].
    by destruct (Hph ph ltac:(left)) as [->|(e & i & -> & _)]. }
  apply Forall_forall. intros ph Hin. destruct (Hph ph Hin) as [->|(e & i & -> & Ha)]; [done|].
  by destruct (unavailable_held i _ s d Hl H Ha).
Qed.

(** C38: shutting down ends. Once the queue is closed the workers take at most eight steps for
    each entry that is queued or that a worker may hold, whatever the handlers do; and when
    no worker can take another, and none has died, all have returned: nothing is in
    hand, no permit is in flight, and [aclose] ends with the bulkheads closed. *)
Theorem shutdown_completes bs ks s' :
  Forall label_ok bs -> Bulkhead.valid_limits l = true -> _closing (run bs) = false ->
  let s := aclose (run bs) in
  Forall (fun x => monotone (clk x.2)) ks -> work_all ks s = Some s' ->
  (length ks <= 8 * (length (queued (q (queue s))) + length (_workers s)))%nat
  /\ ((forall n k, monotone (clk k) -> step n k s' = None) -> omap death (_workers s') = [] ->
      Forall (eq Returned) (_workers s') /\ _workers s' ≫= hand = [] /\ _active s' = 0
      /\ exists s2, aclose_finish s' = Some (s2, Ok tt)
         /\ Bulkhead._closed (Bulkhead.ctl (bulkheads s2)) = true /\ Bulkhead._global_in_flight (Bulkhead.ctl (bulkheads s2)) = 0).
Proof.
  intros Hbs Hl Hcn s Hks Hw. destruct (reach_ok (bs ++ [Aclose])) as [d H]; [apply Forall_app; by repeat constructor|].
  unfold run in H. rewrite foldl_app in H. fold (run bs) in H. change (inv (_workers s) s d) in H.
  assert (_closed (q (queue s)) = true) as Hcl by (unfold s, aclose; by rewrite Hcn).
  destruct (work_all_spec ks s d s' Hks H Hcl Hw) as (Hle & d' & H'). pose proof (work_left_bound s). split; [lia|]. intros Hst Hd.
  assert (_closed (q (queue s')) = true) as Hcl'.
  { clear - Hc Hks H Hcl Hw. revert d H Hcl Hw. generalize s. clear s. induction Hks as [|[n k] ks Hk _ IH]; intros s d H Hcl; cbn [work_all]; [by intros [= <-]|].
    destruct (step n k s) as [s1|] eqn:E; [|done]. destruct (step_ok _ _ _ _ _ Hk H E) as [d1 H1].
    destruct (step_decreases _ _ _ _ _ Hk H Hcl E) as [_ Hcl1]. by apply (IH s1 d1). }
  pose proof (stuck_workers s' d' Hl H' Hcl' Hst Hd) as Hret.
  assert (_workers s' ≫= hand = []) as Hh.
  { clear - Hret. induction Hret as [|ph ws <- _ IH]; [done|]. exact IH. }
  destruct (idle_workers _ Hh) as (Hp & Ha & _). split_and!; [done|done|by rewrite (v_active _ _ _ H')|].
  unfold aclose_finish. rewrite Hd. assert (forallb is_returned (_workers s') = true) as ->.
  { clear - Hret. induction Hret as [|ph ws <- _ IH]; [done|]. exact IH. }
  eexists. split; [done|]. split; [done|]. cbn. rewrite (global_in_flight _ _ _ H'), Hp. done.
Qed.

End Dispatcher.

(** ** Concrete runs *)
Module DispatchExample.

Definition limits : Bulkhead.limits := Bulkhead.mkLimits 1 1 1.
Definition east : Bulkhead.BulkheadIdentity := Bulkhead.mkIdentity "azure" "east" "responses".
Definition resolve (e : QueueEntry) : option Bulkhead.BulkheadIdentity := if (payload e =? 9)%nat then None else Some east.
Definition goes : Choices := mkChoices (fun _ => 1) false false Succeeds.
Definition fails : Choices := mkChoices (fun _ => 1) false false Fails.
Definition late : Choices := mkChoices (fun _ => 1) false true Succeeds.

(** Two workers over one permit: the second times out while the first runs its handler. *)
Definition two : list label :=
  [Start 2; Offer 0 1 "a" "p" unit_cost 50; Offer 0 2 "b" "p" unit_cost 50; Offer 0 3 "b" "p" unit_cost 1;
   Work 0 goes; Work 0 goes; Work 0 goes; Work 1 goes; Work 1 goes; Work 1 late; Work 0 fails].

Lemma two_ok : Forall label_ok two.
Proof. repeat constructor; exact (monotone_const 1). Defined.

Lemma dispatch_conserves_witness :
  let s := run cfg limits resolve two in
  payload <$> handled s = [1%nat] /\ payload <$> refused s = [2%nat] /\ payload <$> queued (q (queue s)) = [3%nat]
  /\ Bulkhead._global_in_flight (Bulkhead.ctl (bulkheads s)) = 1
  /\ _unfinished (q (queue s)) = _size (q (queue s)) + Z.of_nat (length (_workers s ≫= hand)).
Proof.
  destruct (dispatch_conserves cfg limits resolve eq_refl two two_ok eq_refl) as (_ & _ & H & _).
  split_and!; [vm_compute; reflexivity..|exact H].
Defined.

Definition settles_both : list label := two ++ [Work 1 goes; Work 1 goes; Work 0 goes; Work 0 goes; Work 0 goes; Work 0 goes].

Lemma drained_is_done_witness :
  exists s', drain false (run cfg limits resolve settles_both) = Some (s', Raise (DispatchFailures 1))
  /\ queued (q (queue (run cfg limits resolve settles_both))) = [] /\ _active (run cfg limits resolve settles_both) = 0.
Proof.
  eexists. split; [vm_compute; reflexivity|].
  destruct (drained_is_done cfg limits resolve eq_refl settles_both false
    (with_errors 0 (run cfg limits resolve settles_both)) (Raise (DispatchFailures 1))) as (_ & H1 & _ & _ & H2 & _).
  - apply Forall_app. split; [exact two_ok|]. repeat constructor; exact (monotone_const 1).
  - vm_compute. reflexivity.
  - discriminate.
  - split; [exact H1|exact H2].
Defined.

(** The entry whose deadline passed in the queue reached neither handler. *)
Lemma expired_entry_unheard :
  let s := run cfg limits resolve settles_both in
  payload <$> accepted (queue s) = [1; 2; 3]%nat /\ (3%nat ∉ payload <$> handled s ++ refused s) /\ queued (q (queue s)) = [].
Proof. vm_compute. split_and!; [reflexivity| |reflexivity]. intros H. repeat (apply elem_of_cons in H as [H|H]; [discriminate H|]). by apply not_elem_of_nil in H. Qed.

(** The resolver refuses an entry: the worker that took it is gone, and so is the drain. *)
Definition unresolved : list label := [Start 1; Offer 0 9 "a" "p" unit_cost 50; Work 0 goes].

Lemma lost_entry_witness :
  lost 0 (run cfg limits resolve unresolved)
  /\ let s := run cfg limits resolve (unresolved ++ [Offer 2 1 "a" "p" unit_cost 50; Aclose; AcloseFinish; Aclose]) in
     drain true s = Some (s, Raise DrainTimeout) /\ payload <$> handled s = [].
Proof.
  assert (Forall label_ok unresolved) as H1 by (repeat constructor; exact (monotone_const 1)).
  assert (lost 0 (run cfg limits resolve unresolved)) as H2.
  { exists ResolverError, (Taken (mkEntry 1 "a" "p" 9 1 0 0 50)). split; [vm_compute; reflexivity|discriminate]. }
  split; [exact H2|].
  destruct (lost_entry_blocks cfg limits resolve eq_refl unresolved [Offer 2 1 "a" "p" unit_cost 50; Aclose; AcloseFinish; Aclose] 0 H1) as (_ & _ & H & _).
  - repeat constructor.
  - exact H2.
  - split; [exact H|vm_compute; reflexivity].
Defined.

Definition ending : list (nat * Choices) := [(0, goes); (0, goes); (0, goes); (1, goes); (1, goes); (1, goes)]%nat.

Lemma shutdown_completes_witness :
  let s := aclose cfg (run cfg limits resolve two) in
  exists s', work_all cfg limits resolve ending s = Some s' /\ (length ending <= 8 * (length (queued (q (queue s))) + length (_workers s)))%nat.
Proof.
  intros s. destruct (work_all cfg limits resolve ending s) as [s'|] eqn:E; [|vm_compute in E; discriminate E].
  exists s'. split; [reflexivity|].
  refine (proj1 (shutdown_completes cfg limits resolve eq_refl two ending s' two_ok eq_refl _ _ E)).
  - vm_compute. reflexivity.
  - repeat constructor; exact (monotone_const 1).
Defined.
End DispatchExample.
End Dispatcher.
