(* ===== verification/ThinkJournal.v ===== *)
(** The recoverable window of a model call: the think records over the run journal
    ([runtime/durable/inference_journal.py]), the checkpoint of the call in flight
    ([runtime/durable/inference_checkpoint.py]) and the transaction that records what comes
    of it ([runtime/persistence/execution_transaction.py]). *)

From S2P Require Import Prelude Text Utf8 Json Ledger RunJournal.
From Stdlib Require Import Ascii String.

Open Scope string_scope.
Open Scope list_scope.
Open Scope Z_scope.

(** * The think records *)
Module InferenceJournal.
Import AppendOnlyLedger RunJournal.

Definition _THINK_EFFECT : string := "pure".

(** [InferenceResult] and [InferenceCheckpointState]: the fields this code reads, and the
    rest. A call of a result may have no id, or an empty one. *)
Record InferenceResult {R : Type} := mkResult { content : option string; tool_calls : option (list (option string)); result_rest : R }.
Arguments InferenceResult : clear implicits.
Arguments mkResult {R}.
Record InferenceCheckpointState {S : Type} := mkState { model_call_id : string; state_rest : S }.
Arguments InferenceCheckpointState : clear implicits.
Arguments mkState {S}.

(** A message: whether the model wrote it, its text and the ids of its calls. *)
Record Message {M : Type} := mkMessage {
  is_ai_message : bool;
  message_content : option string;
  message_calls : list (option string);
  message_rest : M
}.
Arguments Message : clear implicits.
Arguments mkMessage {M}.

(** The JSON of the payloads. *)
Class ThinkCodec (R S : Type) := {
  started_text : InferenceCheckpointState S -> string;
  checkpoint_of : string -> option (InferenceCheckpointState S);
  completed_text : InferenceResult R -> option (InferenceCheckpointState S) -> string;
  result_of : string -> option (InferenceResult R)
}.

(** What is written is read back, and takes one line. *)
Class ThinkCodecLaws (R S : Type) `{codec : ThinkCodec R S} := {
  result_read r st : result_of (completed_text r st) = Some r;
  checkpoint_read st : checkpoint_of (started_text st) = Some st;
  completed_line r st : one_line (completed_text r st);
  started_line st : one_line (started_text st)
}.

Section Journal.
Context {R S M : Type} `{codec : ThinkCodec R S}.
Notation result := (InferenceResult R).
Notation state := (InferenceCheckpointState S).
Notation message := (Message M).
Notation journal := (AppendOnlyLedger.t StepRecord).

Definition or_empty (o : option string) : string := match o with Some s => s | None => "" end.

(** The ids that are there and not empty. *)
Definition want_ids (r : result) : list string :=
  filter (fun s => s <> "") (omap id (match tool_calls r with Some l => l | None => [] end)).

Definition has_calls (want : list string) (m : message) : bool :=
  is_ai_message m && forallb (fun i => bool_decide (Some i ∈ message_calls m)) want.

Definition assistant_message_present (ms : list message) (r : result) : bool :=
  match want_ids r with
  | _ :: _ => existsb (has_calls (want_ids r)) ms
  | [] =>
      if bool_decide (or_empty (content r) = "") then true
      else existsb (fun m => is_ai_message m && bool_decide (or_empty (message_content m) = or_empty (content r))) ms
  end.

Definition _started_checkpoint (p : option string) : option state :=
  match p with
  | None => None
  | Some s => match checkpoint_of s with
              | Some st => if bool_decide (model_call_id st = "") then None else Some st
              | None => None
              end
  end.

Definition _completed_result (p : option string) : option result :=
  match p with None => None | Some s => result_of s end.

(** The test of one record in [reconcile_think_journal]. *)
Definition reaped (ms : list message) (r : StepRecord) : bool :=
  if negb (is_kind KIND_THINK r) then false
  else if is_status STARTED r && match _started_checkpoint (payload r) with Some _ => true | None => false end then false
  else if negb (is_status COMPLETED r) then true
  else match _completed_result (payload r) with
       | None => true
       | Some res => assistant_message_present ms res
       end.

Definition reconcile_think_journal (j : journal) (ms : list message) (w : write) : journal :=
  match step_id <$> List.filter (reaped ms) (records j) with
  | [] => j
  | keys => reap j keys w
  end.

(** ** [InferenceJournal] *)

Definition begin_think (st : option state) (now : Z) (w : write) (j : journal) : journal * string :=
  let seq := next_think_seq j in
  let step_id := think_step_id seq in
  (record_started j step_id KIND_THINK _THINK_EFFECT "" seq None (started_text <$> st) now w, step_id).

Fixpoint first_started (l : list StepRecord) : option (string * state) :=
  match l with
  | [] => None
  | r :: l =>
      if negb (is_kind KIND_THINK r) || negb (is_status STARTED r) then first_started l
      else match _started_checkpoint (payload r) with
           | Some st => Some (step_id r, st)
           | None => first_started l
           end
  end.

Definition resume_candidate (j : journal) : option (string * state) := first_started (records j).

Definition update_think (step_id : string) (st : state) (now : Z) (w : write) (j : journal) : journal * outcome unit unit :=
  match replay j step_id with
  | Some current =>
      if negb (is_kind KIND_THINK current) || negb (is_status STARTED current) then (j, Raise tt)
      else (record_started j step_id KIND_THINK _THINK_EFFECT "" (seq current) None (Some (started_text st)) now w, Ok tt)
  | None => (j, Raise tt)
  end.

Definition complete_think (step_id : string) (r : result) (st : option state) (now : Z) (w : write) (j : journal) : journal :=
  record_completed j step_id (Some (completed_text r st)) true now w.

Definition fail_think (step_id : string) (now : Z) (w w' : write) (j : journal) : journal :=
  reap (record_failed j step_id None now w) [step_id] w'.

Definition reap_think (step_id : string) (w : write) (j : journal) : journal := reap j [step_id] w.

Fixpoint first_completed (ms : list message) (l : list StepRecord) : option (string * result) :=
  match l with
  | [] => None
  | r :: l =>
      if negb (is_kind KIND_THINK r) || negb (is_status COMPLETED r) then first_completed ms l
      else match _completed_result (payload r) with
           | None => first_completed ms l
           | Some res => if assistant_message_present ms res then first_completed ms l else Some (step_id r, res)
           end
  end.

Definition reinstate_candidate (ms : list message) (j : journal) : option (string * result) := first_completed ms (records j).

End Journal.
End InferenceJournal.

(** * The checkpoint of the call in flight *)
Module InferenceCheckpoint.
Import AppendOnlyLedger RunJournal InferenceJournal.

(** With the journal, if there is one, and the result the engine holds. *)
Record t {R S : Type} := mk {
  _journal_runner : option (AppendOnlyLedger.t StepRecord);
  engine_result : InferenceResult R;
  _step_id : option string;
  _reinstated : bool;
  _state : option (InferenceCheckpointState S)
}.
Arguments t : clear implicits.
Arguments mk {R S}.

Section Checkpoint.
Context {R S M : Type} `{codec : ThinkCodec R S}.
Notation t := (t R S).

Definition with_journal (j : AppendOnlyLedger.t StepRecord) (c : t) : t :=
  mk (Some j) (engine_result c) (_step_id c) (_reinstated c) (_state c).

Definition reinstate (ms : list (Message M)) (c : t) : t * bool :=
  match _journal_runner c with
  | None => (c, false)
  | Some j => match reinstate_candidate ms j with
              | None => (c, false)
              | Some (id, r) => (mk (Some j) r (Some id) true (_state c), true)
              end
  end.

Definition begin_call (st : InferenceCheckpointState S) (now : Z) (w : write) (c : t) : t :=
  match _journal_runner c with
  | None => mk None (engine_result c) (_step_id c) (_reinstated c) (Some st)
  | Some j => let (j, id) := begin_think (Some st) now w j in mk (Some j) (engine_result c) (Some id) (_reinstated c) (Some st)
  end.

Definition resume (c : t) : t * option (InferenceCheckpointState S) :=
  match _journal_runner c with
  | None => (c, None)
  | Some j => match resume_candidate j with
              | None => (c, None)
              | Some (id, st) => (mk (Some j) (engine_result c) (Some id) (_reinstated c) (Some st), Some st)
              end
  end.

Definition refresh (st : InferenceCheckpointState S) (now : Z) (w : write) (c : t) : t * outcome unit unit :=
  let c := mk (_journal_runner c) (engine_result c) (_step_id c) (_reinstated c) (Some st) in
  match _journal_runner c, _step_id c with
  | Some j, Some id => let (j, o) := update_think id st now w j in (with_journal j c, o)
  | _, _ => (c, Ok tt)
  end.

Definition adopt_started (id : string) (c : t) : t * outcome unit unit :=
  match _step_id c with
  | Some _ => (c, Raise tt)
  | None => (mk (_journal_runner c) (engine_result c) (Some id) (_reinstated c) (_state c), Ok tt)
  end.

Definition record_result (now : Z) (w : write) (c : t) : t :=
  match _journal_runner c, _step_id c, _reinstated c with
  | Some j, Some id, false => with_journal (complete_think id (engine_result c) (_state c) now w j) c
  | _, _, _ => c
  end.

Definition _take_step (c : t) : t * option string :=
  (mk (_journal_runner c) (engine_result c) None false None, _step_id c).

Definition discard (w : write) (c : t) : t :=
  let (c, id) := _take_step c in
  match _journal_runner c, id with
  | Some j, Some id => with_journal (reap_think id w j) c
  | _, _ => c
  end.

Definition abort (now : Z) (w w' : write) (c : t) : t :=
  let (c, id) := _take_step c in
  match _journal_runner c, id with
  | Some j, Some id => with_journal (fail_think id now w w' j) c
  | _, _ => c
  end.

End Checkpoint.
End InferenceCheckpoint.

(** * The transaction of a run *)
Module ExecutionTransaction.
Import AppendOnlyLedger RunJournal InferenceJournal.

Inductive MutationStatus := APPLIED | ALREADY_APPLIED | CONFLICT | FENCED | CANCELLED.
Record MutationResult := mkMutation { status : MutationStatus; revision : Z; reference_id : string; reason : string }.
Record ExecutionOperationContext := mkContext {
  ctx_run_id : string;
  attempt_id : string;
  operation_id : string;
  ctx_fencing_token : Z;
  expected_revision : option Z
}.
Record HistoryProjection {M : Type} := mkProjection { messages : list (Message M); fingerprint : string }.
Arguments HistoryProjection : clear implicits.
Arguments mkProjection {M}.

Inductive exn := ValueError | Interrupted.

(** Where a call stops, if it does: an exception, a cancellation or a crash after some of the
    messages were added, or while the writes are drained, or in the commit. *)
Inductive stop := Runs | InAdd (n : nat) | InDrain | InCommit.

Record ExecutionRecoveryFrontier := mkFrontier {
  frontier_revision : Z;
  staged_output_id : string;
  terminal_committed : bool;
  frontier_cancelled : bool
}.

(** [history]: what the memory holds, of which [saved] messages are known to be on disk. *)
Record t {R S M O C E : Type} := mk {
  run_id : string;
  fencing_token : Z;
  history : list (Message M);
  saved : nat;
  _checkpoint : InferenceCheckpoint.t R S;
  _output_engine : E;
  _revision : Z;
  _operations : list (string * (MutationResult + C));
  _staged : option O;
  _terminal : option C;
  _cancelled : bool
}.
Arguments t : clear implicits.
Arguments mk {R S M O C E}.

Section Transaction.
Context {R S M O C E : Type} `{codec : ThinkCodec R S} `{!EqDecision O}.
Context (candidate_id : O -> string) (staged_output : E -> option O) (commit : E -> E * option C).
Notation t := (t R S M O C E).
Notation projection := (HistoryProjection M).

Definition new (run : string) (token : Z) (ms : list (Message M)) (cp : InferenceCheckpoint.t R S) (e : E) : t :=
  mk run token ms (List.length ms) cp e 0 [] (staged_output e) None false.

Definition context (op attempt : string) (s : t) : ExecutionOperationContext := mkContext (run_id s) attempt op (fencing_token s) None.

Definition with_history (ms : list (Message M)) (s : t) : t :=
  mk (run_id s) (fencing_token s) ms (saved s) (_checkpoint s) (_output_engine s) (_revision s) (_operations s) (_staged s) (_terminal s) (_cancelled s).
Definition with_saved (n : nat) (s : t) : t :=
  mk (run_id s) (fencing_token s) (history s) n (_checkpoint s) (_output_engine s) (_revision s) (_operations s) (_staged s) (_terminal s) (_cancelled s).
Definition with_checkpoint (cp : InferenceCheckpoint.t R S) (s : t) : t :=
  mk (run_id s) (fencing_token s) (history s) (saved s) cp (_output_engine s) (_revision s) (_operations s) (_staged s) (_terminal s) (_cancelled s).
Definition with_engine (e : E) (s : t) : t :=
  mk (run_id s) (fencing_token s) (history s) (saved s) (_checkpoint s) e (_revision s) (_operations s) (_staged s) (_terminal s) (_cancelled s).
Definition with_staged (o : option O) (s : t) : t :=
  mk (run_id s) (fencing_token s) (history s) (saved s) (_checkpoint s) (_output_engine s) (_revision s) (_operations s) o (_terminal s) (_cancelled s).
Definition record_operation (op : string) (r : MutationResult + C) (s : t) : t :=
  mk (run_id s) (fencing_token s) (history s) (saved s) (_checkpoint s) (_output_engine s) (_revision s) (Dict.set op r (_operations s)) (_staged s) (_terminal s) (_cancelled s).
Definition next_revision (terminal : option C) (s : t) : t :=
  mk (run_id s) (fencing_token s) (history s) (saved s) (_checkpoint s) (_output_engine s) (_revision s + 1) (_operations s) (_staged s) terminal (_cancelled s).

Definition _prior (x : ExecutionOperationContext) (s : t) : option MutationResult :=
  match Dict.get (operation_id x) (_operations s) with
  | None => None
  | Some (inl p) => Some (mkMutation ALREADY_APPLIED (revision p) (reference_id p) "")
  | Some (inr _) => Some (mkMutation ALREADY_APPLIED (_revision s) "" "")
  end.

Definition _validate (x : ExecutionOperationContext) (s : t) : option MutationResult :=
  if _cancelled s then Some (mkMutation CANCELLED (_revision s) "" "")
  else if negb (bool_decide (ctx_run_id x = run_id s)) || negb (ctx_fencing_token x =? fencing_token s)
  then Some (mkMutation FENCED (_revision s) "" "")
  else match expected_revision x with
       | Some n => if n =? _revision s then None else Some (mkMutation CONFLICT (_revision s) "" "revision mismatch")
       | None => None
       end.

Definition _store_conflict (x : ExecutionOperationContext) (why : string) (s : t) : t * MutationResult :=
  let r := mkMutation CONFLICT (_revision s) "" why in (record_operation (operation_id x) (inl r) s, r).

(** [add_batch] adds one message after the other. *)
Definition add_batch (ms : list (Message M)) (k : stop) (s : t) : t * outcome exn unit :=
  match k with
  | InAdd n => (with_history (history s ++ take n ms) s, Raise Interrupted)
  | _ => (with_history (history s ++ ms) s, Ok tt)
  end.

Definition _apply (x : ExecutionOperationContext) (reference : string) (k : stop) (s : t) : t * outcome exn MutationResult :=
  match k with
  | InDrain => (s, Raise Interrupted)
  | _ =>
      let s := next_revision (_terminal s) (with_saved (List.length (history s)) s) in
      let r := mkMutation APPLIED (_revision s) reference "" in
      (record_operation (operation_id x) (inl r) s, Ok r)
  end.

Definition recording (now : Z) (w : write) (s : t) : t := with_checkpoint (InferenceCheckpoint.record_result now w (_checkpoint s)) s.
Definition discarding (w : write) (s : t) : t := with_checkpoint (InferenceCheckpoint.discard w (_checkpoint s)) s.

Definition _record_projection (x : ExecutionOperationContext) (p : projection) (consume_inference : bool) (k : stop)
    (now : Z) (w : write) (s : t) : t * outcome exn MutationResult :=
  match _prior x s with
  | Some r => (s, Ok r)
  | None =>
      match _validate x s with
      | Some r => (s, Ok r)
      | None =>
          let (s, o) := add_batch (messages p) k s in
          match o with
          | Raise e => (s, Raise e)
          | Ok _ => _apply x (fingerprint p) k (if consume_inference then recording now w s else s)
          end
      end
  end.

Definition record_model_turn (x : ExecutionOperationContext) (turn : projection) := _record_projection x turn true.
Definition record_history (x : ExecutionOperationContext) (h : projection) := _record_projection x h false.

Definition is_applied (r : MutationResult) : bool := match status r with APPLIED | ALREADY_APPLIED => true | _ => false end.

Definition then_discard (w : write) (so : t * outcome exn MutationResult) : t * outcome exn MutationResult :=
  let (s, o) := so in
  match o with Ok r => (if is_applied r then discarding w s else s, Ok r) | Raise e => (s, Raise e) end.

Definition record_tool_results (x : ExecutionOperationContext) (results : list projection) (k : stop) (now : Z) (w w' : write) (s : t)
    : t * outcome exn MutationResult :=
  match results with
  | [p] => then_discard w' (_record_projection x p true k now w s)
  | _ => (s, Raise ValueError)
  end.

Definition reject_output (x : ExecutionOperationContext) (rejection : projection) (k : stop) (now : Z) (w w' : write) (s : t)
    : t * outcome exn MutationResult :=
  then_discard w' (_record_projection x rejection true k now w s).

Definition stage_accepted_output (x : ExecutionOperationContext) (o : O) (h : projection) (k : stop) (now : Z) (w : write) (s : t)
    : t * outcome exn MutationResult :=
  match _prior x s with
  | Some r => (s, Ok r)
  | None =>
      match _validate x s with
      | Some r => (s, Ok r)
      | None =>
          if match _staged s with Some o' => negb (bool_decide (o' = o)) | None => false end
          then let (s, r) := _store_conflict x "a different accepted output is already staged" s in (s, Ok r)
          else
            let (s, a) := add_batch (messages h) k s in
            match a with
            | Raise e => (s, Raise e)
            | Ok _ => _apply x (candidate_id o) k (with_staged (Some o) (recording now w s))
            end
      end
  end.

Definition commit_terminal_output (x : ExecutionOperationContext) (staged_id : string) (k : stop) (w : write) (s : t)
    : t * outcome exn (MutationResult + C) :=
  match Dict.get (operation_id x) (_operations s) with
  | Some prior => (s, Ok prior)
  | None =>
      match _validate x s with
      | Some r => (s, Ok (inl r))
      | None =>
          if negb (match _staged s with Some o => bool_decide (candidate_id o = staged_id) | None => false end)
          then let (s, r) := _store_conflict x "accepted output is not staged" s in (s, Ok (inl r))
          else if negb (bool_decide (staged_output (_output_engine s) = _staged s))
          then let (s, r) := _store_conflict x "output engine staged record does not match transaction" s in (s, Ok (inl r))
          else
            let (e, o) := commit (_output_engine s) in
            let s := with_engine e s in
            match k, o with
            | Runs, Some c =>
                let s := next_revision (Some c) (discarding w s) in
                (record_operation (operation_id x) (inr c) s, Ok (inr c))
            | _, _ => (s, Raise Interrupted)
            end
      end
  end.

Definition recover_frontier (run : string) (s : t) : ExecutionRecoveryFrontier :=
  if negb (bool_decide (run = run_id s)) then mkFrontier 0 "" false true
  else mkFrontier (_revision s) (match _staged s with Some o => candidate_id o | None => "" end)
         (match _terminal s with Some _ => true | None => false end) (_cancelled s).

End Transaction.
End ExecutionTransaction.
