(* ===== verification/ThinkRecovery.v ===== *)
(** A run around its model calls: [InferenceService.infer] ([kernel/execution/operations/
    inference.py]), the results it records through the transaction, and the crash and the
    resume ([runtime/agent/session_manager.py]); and what becomes of a result that was paid
    for. *)

From S2P Require Import Prelude Text Utf8 Json Ledger RunJournal EventJournal ThinkJournal.
From Stdlib Require Import Ascii String.

Open Scope string_scope.
Open Scope list_scope.
Open Scope Z_scope.

Module ThinkRecovery.
Import AppendOnlyLedger RunJournal InferenceJournal.

Section Run.
Context {R S M O C E : Type} `{codec : ThinkCodec R S} `{!EqDecision O}.
Context (candidate_id : O -> string) (staged_output : E -> option O) (commit : E -> E * option C).
Notation Tx := (ExecutionTransaction.t R S M O C E).
Notation result := (InferenceResult R).
Notation message := (Message M).
Notation journal := (AppendOnlyLedger.t StepRecord).

(** The transaction of the process, whether a model call is out, and how many were made. *)
Record system := mk { tx : Tx; awaiting : bool; calls : nat }.

Definition cp (s : system) : InferenceCheckpoint.t R S := ExecutionTransaction._checkpoint (tx s).
Definition ms (s : system) : list message := ExecutionTransaction.history (tx s).
Definition on_disk (s : system) : list message := take (ExecutionTransaction.saved (tx s)) (ms s).

(** [infer]: a completed call is adopted, an interrupted one resumed, or a new one made; [st]
    is what is known of the call. *)
Definition infer (st : InferenceCheckpointState S) (now : Z) (s : system) : system :=
  let (c, found) := InferenceCheckpoint.reinstate (ms s) (cp s) in
  if found then mk (ExecutionTransaction.with_checkpoint c (tx s)) false (calls s)
  else
    let (c, resumed) := InferenceCheckpoint.resume c in
    match resumed with
    | Some old =>
        let (c, o) := InferenceCheckpoint.refresh (mkState (model_call_id old) (state_rest st)) now Done c in
        match o with
        | Ok _ => mk (ExecutionTransaction.with_checkpoint c (tx s)) true (Datatypes.S (calls s))
        | Raise _ => mk (ExecutionTransaction.with_checkpoint c (tx s)) (awaiting s) (calls s)
        end
    | None => mk (ExecutionTransaction.with_checkpoint (InferenceCheckpoint.begin_call st now Done c) (tx s)) true (Datatypes.S (calls s))
    end.

(** The engine has the answer of the model. *)
Definition model_returns (r : result) (s : system) : system :=
  let c := cp s in
  mk (ExecutionTransaction.with_checkpoint
        (InferenceCheckpoint.mk (InferenceCheckpoint._journal_runner c) r (InferenceCheckpoint._step_id c)
           (InferenceCheckpoint._reinstated c) (InferenceCheckpoint._state c)) (tx s)) false (calls s).

(** What [EffectAwareGraphRunner.run] does when a cancellation or an exception leaves the graph:
    [on_cancel] is [discard] of the checkpoint and [on_failure] its [abort]; a call that is out
    is given up. *)
Definition on_cancel (s : system) : system :=
  mk (ExecutionTransaction.with_checkpoint (InferenceCheckpoint.discard Done (cp s)) (tx s)) false (calls s).
Definition on_failure (now : Z) (s : system) : system :=
  mk (ExecutionTransaction.with_checkpoint (InferenceCheckpoint.abort now Done Done (cp s)) (tx s)) false (calls s).

(** The process dies with [n] messages on disk, and a new one resumes the run: it folds the
    journal, reconciles it with the history, and starts with an empty engine. *)
Definition resume_journal (kept : list message) (j : option journal) : option journal :=
  match j with
  | None => None
  | Some j => Some (reconcile_think_journal (JsonlBackend.reload j) kept Done)
  end.

Definition crash (n : nat) (run : string) (token : Z) (e : E) (r0 : result) (s : system) : system :=
  let kept := take n (ms s) in
  mk (ExecutionTransaction.new staged_output run token kept
        (InferenceCheckpoint.mk (resume_journal kept (InferenceCheckpoint._journal_runner (cp s))) r0 None false None) e)
     false (calls s).

Notation context := ExecutionTransaction.ExecutionOperationContext.
Notation projection := (ExecutionTransaction.HistoryProjection M).
Notation stop := ExecutionTransaction.stop.

Inductive label :=
| Infer (st : InferenceCheckpointState S) (now : Z)
| ModelReturns (r : result)
| RecordHistory (x : context) (p : projection) (k : stop)
| RecordModelTurn (x : context) (p : projection) (k : stop) (now : Z)
| RecordToolResults (x : context) (p : projection) (k : stop) (now : Z)
| RejectOutput (x : context) (p : projection) (k : stop) (now : Z)
| StageAcceptedOutput (x : context) (o : O) (p : projection) (k : stop) (now : Z)
| CommitTerminalOutput (x : context) (id : string) (k : stop)
| Evaluate (e : E)
| Cancelled
| Failed (now : Z)
| Crash (n : nat) (run : string) (token : Z) (e : E) (r0 : result).

Definition with_tx (t : Tx) (s : system) : system := mk t (awaiting s) (calls s).

Definition run_label (l : label) (s : system) : system :=
  match l with
  | Infer st now => infer st now s
  | ModelReturns r => if awaiting s then model_returns r s else s
  | RecordHistory x p k => with_tx (ExecutionTransaction.record_history x p k 0 Done (tx s)).1 s
  | RecordModelTurn x p k now => with_tx (ExecutionTransaction.record_model_turn x p k now Done (tx s)).1 s
  | RecordToolResults x p k now => with_tx (ExecutionTransaction.record_tool_results x [p] k now Done Done (tx s)).1 s
  | RejectOutput x p k now => with_tx (ExecutionTransaction.reject_output x p k now Done Done (tx s)).1 s
  | StageAcceptedOutput x o p k now =>
      with_tx (ExecutionTransaction.stage_accepted_output candidate_id x o p k now Done (tx s)).1 s
  | CommitTerminalOutput x id k => with_tx (ExecutionTransaction.commit_terminal_output candidate_id staged_output commit x id k Done (tx s)).1 s
  | Evaluate e => with_tx (ExecutionTransaction.with_engine e (tx s)) s
  | Cancelled => on_cancel s
  | Failed now => on_failure now s
  | Crash n run token e r0 => crash n run token e r0 s
  end.

(** What the kernel and the channel keep to: a call has an id, results are recorded once the
    model returned; a projection that ends a turn, under an operation of its own, completes
    a history that shows the assistant's message; the commit comes after a stage that was
    drained; and what a crash leaves on disk is at least what was drained. *)
Definition label_ok (l : label) (s : system) : Prop :=
  match l with
  | Infer st now => model_call_id st <> "" /\ 0 <= now
  | RecordModelTurn _ _ _ now | StageAcceptedOutput _ _ _ _ now => awaiting s = false /\ 0 <= now
  | RecordToolResults x p _ now | RejectOutput x p _ now =>
      awaiting s = false /\ 0 <= now
      /\ Dict.get (ExecutionTransaction.operation_id x) (ExecutionTransaction._operations (tx s)) = None
      /\ assistant_message_present (ms s ++ ExecutionTransaction.messages p) (InferenceCheckpoint.engine_result (cp s)) = true
  | CommitTerminalOutput _ _ _ =>
      awaiting s = false /\ on_disk s = ms s /\ assistant_message_present (ms s) (InferenceCheckpoint.engine_result (cp s)) = true
  | Failed now => 0 <= now
  | Crash n _ _ _ _ => (ExecutionTransaction.saved (tx s) <= n)%nat
  | _ => True
  end.

(** The end of a run that drops the result [r] of its checkpoint. *)
Definition drops (l : label) (s : system) (r : result) : Prop :=
  match l with
  | Cancelled | Failed _ =>
      awaiting s = false /\ InferenceCheckpoint._step_id (cp s) <> None /\ InferenceCheckpoint.engine_result (cp s) = r
  | _ => False
  end.

Fixpoint run (ls : list label) (s : system) : system :=
  match ls with [] => s | l :: ls => run ls (run_label l s) end.

Fixpoint run_ok (ls : list label) (s : system) : Prop :=
  match ls with [] => True | l :: ls => label_ok l s /\ run_ok ls (run_label l s) end.

(** ** The journal, by its records *)

Lemma reap_get (j : journal) keys i : get (reap j keys Done) i = if decide (i ∈ keys) then None else get j i.
Proof.
  unfold reap, get. destruct (existsb _ _) eqn:Ex; cbn [_rewrite _latest].
  - clear Ex. generalize (_latest j). induction keys as [|k keys IH]; intros d.
    + rewrite decide_False by apply not_elem_of_nil. done.
    + cbn [foldl]. rewrite IH. destruct (decide (i ∈ keys)); [by rewrite decide_True by by right|].
      destruct (decide (i = k)) as [->|Hne]; [rewrite decide_True by left; apply Dict.get_pop_eq|].
      rewrite decide_False by (by rewrite elem_of_cons; intros [?|?]). by apply Dict.get_pop_ne.
  - destruct (decide (i ∈ keys)) as [Hi|]; [|done]. destruct (Dict.get i (_latest j)) eqn:Eg; [|done]. exfalso.
    apply list_elem_of_In in Hi. assert (existsb (fun k => Dict.mem k (_latest j)) keys = true); [|congruence].
    apply existsb_exists. exists i. split; [done|]. unfold Dict.mem. by rewrite Eg.
Qed.

Lemma records_get (j : journal) r : durable (valid := valid) j -> In r (records j) <-> get j (step_id r) = Some r.
Proof.
  intros [_ [Hn Hf]]. unfold records, get, Dict.values. rewrite <- list_elem_of_In. split.
  - intros ([k r'] & -> & Hin)%list_elem_of_fmap. rewrite Forall_forall in Hf. destruct (Hf _ Hin) as [_ Hk]. cbn in *.
    apply Dict.elem_get; [done|]. by rewrite <- Hk.
  - intros Hg%Dict.get_Some_elem. apply list_elem_of_fmap. by exists (step_id r, r).
Qed.

Definition completed (j : journal) (r : result) : Prop :=
  exists i rec, get j i = Some rec /\ kind rec = KIND_THINK /\ RunJournal.status rec = COMPLETED /\ _completed_result (payload rec) = Some r.

Lemma is_kind_spec k r : is_kind k r = true <-> kind r = k.
Proof. apply bool_decide_eq_true. Qed.
Lemma is_status_spec k r : is_status k r = true <-> RunJournal.status r = k.
Proof. apply bool_decide_eq_true. Qed.

Lemma first_completed_spec (hs : list message) l :
  match first_completed (R := R) hs l with
  | Some (i, res) => exists rec, In rec l /\ step_id rec = i /\ kind rec = KIND_THINK /\ RunJournal.status rec = COMPLETED
      /\ _completed_result (payload rec) = Some res /\ assistant_message_present hs res = false
  | None => forall rec res, In rec l -> kind rec = KIND_THINK -> RunJournal.status rec = COMPLETED ->
      _completed_result (payload rec) = Some res -> assistant_message_present hs res = true
  end.
Proof.
  induction l as [|rec l IH]; cbn [first_completed]; [by intros ? ? []|].
  destruct (is_kind KIND_THINK rec) eqn:Ek; cbn [negb orb].
  2: { destruct (first_completed hs l) as [[i res]|]; [destruct IH as (r & ? & ?); exists r; split; [by right|done]|].
       intros r res [<-|Hin]; [|by apply IH]. intros Hk. apply is_kind_spec in Hk. congruence. }
  destruct (is_status COMPLETED rec) eqn:Es; cbn [negb].
  2: { destruct (first_completed hs l) as [[i res]|]; [destruct IH as (r & ? & ?); exists r; split; [by right|done]|].
       intros r res [<-|Hin]; [|by apply IH]. intros _ Hk. apply is_status_spec in Hk. congruence. }
  apply is_kind_spec in Ek. apply is_status_spec in Es.
  destruct (_completed_result (payload rec)) as [res0|] eqn:Ec; [destruct (assistant_message_present hs res0) eqn:Ea|].
  - destruct (first_completed hs l) as [[i res]|]; [destruct IH as (r & ? & ?); exists r; split; [by right|done]|].
    intros r res [<-|Hin]; [|by apply IH]. intros _ _ Hd. congruence.
  - exists rec. split; [by left|]. done.
  - destruct (first_completed hs l) as [[i res]|]; [destruct IH as (r & ? & ?); exists r; split; [by right|done]|].
    intros r res [<-|Hin]; [|by apply IH]. intros _ _ Hd. congruence.
Qed.

Lemma first_started_spec l i st :
  first_started (R := R) l = Some (i, st) ->
  exists rec, In rec l /\ step_id rec = i /\ kind rec = KIND_THINK /\ RunJournal.status rec = STARTED /\ model_call_id st <> "".
Proof.
  induction l as [|rec l IH]; cbn [first_started]; [done|].
  destruct (is_kind KIND_THINK rec) eqn:Ek; cbn [negb orb]; [|intros (r & ? & ?)%IH; exists r; split; [by right|done]].
  destruct (is_status STARTED rec) eqn:Es; cbn [negb]; [|intros (r & ? & ?)%IH; exists r; split; [by right|done]].
  unfold _started_checkpoint. destruct (payload rec) as [p|]; [|intros (r & ? & ?)%IH; exists r; split; [by right|done]].
  destruct (checkpoint_of p) as [st0|]; [|intros (r & ? & ?)%IH; exists r; split; [by right|done]].
  destruct (bool_decide_reflect (model_call_id st0 = "")) as [|Hne]; [intros (r & ? & ?)%IH; exists r; split; [by right|done]|].
  intros [= <- <-]. exists rec. split; [by left|]. apply is_kind_spec in Ek. apply is_status_spec in Es. done.
Qed.

(** ** What an operation of the journal does to the think records *)

Context {laws : ThinkCodecLaws R S}.
#[local] Set Default Proof Using "Type*".

Lemma think_line n : 0 <= n -> one_line (think_step_id n).
Proof.
  intros Hn. apply Utf8.plain_one_line. unfold think_step_id. apply Utf8.is_plain_app; [done|].
  apply Utf8.is_plain_app; [done|]. by apply fmt_plain.
Qed.

(** [named], by keys. *)
Lemma named_get j : durable (valid := valid) j -> named KIND_THINK j <->
  forall i rec n, get j i = Some rec -> 0 <= n -> i = think_step_id n -> kind rec = KIND_THINK /\ seq rec = n.
Proof.
  intros Hd. split.
  - intros H i rec n Hg Hn ->. destruct (get_valid j _ rec Hd Hg) as [_ Hi]. apply (H rec n); [|done|done].
    apply records_get; [done|]. by rewrite Hi.
  - intros H rec n Hin Hn Hi. apply records_get in Hin; [|done]. by apply (H (step_id rec) rec n).
Qed.

(** The journals of a run: well kept, and with think steps under their own names. *)
Record ok (j : journal) : Prop := { ok_durable : durable (valid := valid) j; ok_named : named KIND_THINK j }.

(** Only the record under [i] changed, to one like [f]. *)
Record changed (i : string) (f : StepRecord -> Prop) (j j' : journal) : Prop := {
  ch_ok : ok j';
  ch_here : exists rec, get j' i = Some rec /\ kind rec = KIND_THINK /\ f rec;
  ch_others : forall i', i' <> i -> get j' i' = get j i'
}.

Lemma put_changed j r (f : StepRecord -> Prop) :
  ok j -> valid r -> kind r = KIND_THINK -> f r ->
  (forall n, 0 <= n -> step_id r = think_step_id n -> seq r = n) -> changed (step_id r) f j (append j r Done).
Proof.
  intros [Hd Hn] Hv Hk Hf Hs. assert (durable (valid := valid) (append j r Done)) as Hd' by by apply append_durable.
  split; [split; [done|]|exists r; split; [apply get_append_same|done]|intros; by apply get_append_other].
  apply named_get; [done|]. intros i rec n Hg H0 Hi. destruct (decide (i = step_id r)) as [->|Hne].
  - rewrite get_append_same in Hg. injection Hg as <-. split; [done|by apply Hs].
  - rewrite get_append_other in Hg by done. by apply (proj1 (named_get j Hd) Hn i rec n).
Qed.

Lemma next_seq_nonneg j : ok j -> 0 <= next_think_seq j.
Proof.
  intros [Hd _]. unfold next_think_seq, next_seq.
  assert (forall r, In r (List.filter (is_kind KIND_THINK) (records j)) -> 0 <= seq r) as Hall.
  { intros r [Hin _]%filter_In. apply records_get in Hin; [|done]. destruct (get_valid j _ r Hd Hin) as [[] _]. done. }
  destruct (List.filter _ _) as [|r l]; [done|]. cbn [fmap list_fmap].
  destruct (foldl_max_ge (seq r) (seq <$> l)) as [H _]. specialize (Hall r ltac:(by left)). lia.
Qed.

Lemma think_id_inj n m : 0 <= n -> 0 <= m -> think_step_id n = think_step_id m -> n = m.
Proof. intros Hn Hm Hi. unfold think_step_id in Hi. apply fmt_inj; [done|done|]. by injection Hi. Qed.

Lemma begin_changed st now j : ok j -> 0 <= now ->
  let (j', i) := begin_think (Some st) now Done j in
  get j i = None /\ changed i (fun rec => RunJournal.status rec = STARTED) j j'.
Proof.
  intros Hj Hnow. pose proof (next_seq_nonneg j Hj) as H0. unfold begin_think. split.
  - apply next_id_new; [apply Hj|apply Hj|done].
  - apply (put_changed j (mkStep _ _ _ _ _ _ _ _ _ _ _)); [done| |done|done|].
    + split; try done; [by apply think_line|apply started_line].
    + cbn. intros n Hn Hi. by apply think_id_inj.
Qed.

Lemma seq_of_id j i rec n : ok j -> get j i = Some rec -> 0 <= n -> i = think_step_id n -> seq rec = n.
Proof. intros [Hd Hn] Hg H0 Hi. by apply (proj1 (named_get j Hd) Hn i rec n). Qed.

Lemma update_changed i rec st now j :
  ok j -> 0 <= now -> get j i = Some rec -> kind rec = KIND_THINK -> RunJournal.status rec = STARTED ->
  exists j', update_think i st now Done j = (j', Ok tt) /\ changed i (fun rec => RunJournal.status rec = STARTED) j j'.
Proof.
  intros Hj Hnow Hg Hk Hs. unfold update_think, replay. rewrite Hg, (proj2 (is_kind_spec _ _) Hk), (proj2 (is_status_spec _ _) Hs).
  eexists. split; [done|]. destruct (get_valid j i rec (ok_durable _ Hj) Hg) as [Hv Hi].
  apply (put_changed j (mkStep _ _ _ _ _ _ _ _ _ _ _)); [done| |done|done|].
  - destruct Hv. split; try done; cbn; [by rewrite <- Hi|apply started_line].
  - cbn. intros n Hn Hid. by apply (seq_of_id j i).
Qed.

Lemma complete_changed i rec r st now j :
  ok j -> 0 <= now -> get j i = Some rec -> kind rec = KIND_THINK ->
  changed i (fun rec => RunJournal.status rec = COMPLETED /\ _completed_result (payload rec) = Some r) j (complete_think i r st now Done j).
Proof.
  intros Hj Hnow Hg Hk. unfold complete_think, record_completed, _terminal. rewrite Hg.
  destruct (get_valid j i rec (ok_durable _ Hj) Hg) as [Hv Hi].
  apply (put_changed j (mkStep _ _ _ _ _ _ _ _ _ _ _)); [done| |done| |].
  - destruct Hv. split; try done; cbn; [by rewrite <- Hi|apply completed_line].
  - cbn. split; [done|apply result_read].
  - cbn. intros n Hn Hid. by apply (seq_of_id j i).
Qed.

Lemma reap_ok j keys : ok j -> ok (reap j keys Done).
Proof.
  intros [Hd Hn]. assert (durable (valid := valid) (reap j keys Done)) as Hd' by by apply reap_durable.
  split; [done|]. apply named_get; [done|]. intros i rec n Hg. rewrite reap_get in Hg. destruct (decide _); [done|].
  by apply (proj1 (named_get j Hd) Hn i rec n).
Qed.

Lemma fail_ok i rec now j :
  ok j -> 0 <= now -> get j i = Some rec -> kind rec = KIND_THINK ->
  ok (fail_think i now Done Done j) /\ forall i', i' <> i -> get (fail_think i now Done Done j) i' = get j i'.
Proof.
  intros Hj Hnow Hg Hk. unfold fail_think. set (j1 := record_failed j i None now Done).
  assert (changed i (fun _ => True) j j1) as Hc.
  { unfold j1, record_failed, _terminal. rewrite Hg. destruct (get_valid j i rec (ok_durable _ Hj) Hg) as [Hv Hi].
    apply (put_changed j (mkStep _ _ _ _ _ _ _ _ _ _ _)); [done| |done|done|].
    - destruct Hv. split; try done; cbn; by rewrite <- Hi.
    - cbn. intros n Hn Hid. by apply (seq_of_id j i). }
  split; [apply reap_ok, Hc|]. intros i' Hne. rewrite reap_get, decide_False by by rewrite list_elem_of_singleton.
  by apply (ch_others _ _ _ _ Hc).
Qed.

Lemma changed_completed i f j j' r :
  changed i f j j' ->
  (forall rec, get j i = Some rec -> kind rec = KIND_THINK -> RunJournal.status rec = COMPLETED ->
     _completed_result (payload rec) = Some r -> completed j' r) ->
  completed j r -> completed j' r.
Proof.
  intros Hc Hi (k & rec & Hg & Hk & Hs & Hp). destruct (decide (k = i)) as [->|Hne]; [by apply (Hi rec)|].
  exists k, rec. by rewrite (ch_others _ _ _ _ Hc).
Qed.

(** ** What a run keeps *)

Lemma present_app (hs l : list message) (r : result) : assistant_message_present hs r = true -> assistant_message_present (hs ++ l) r = true.
Proof.
  unfold assistant_message_present. destruct (want_ids r); [destruct (bool_decide _); [done|]|]; rewrite existsb_app; by intros ->.
Qed.

Definition disk (t : Tx) : list message := take (ExecutionTransaction.saved t) (ExecutionTransaction.history t).
Definition holds (t : Tx) : result := InferenceCheckpoint.engine_result (ExecutionTransaction._checkpoint t).

(** The step of the checkpoint is a think record: started while a call is out, and once
    completed it has the result the engine holds. *)
Record wf (j : journal) (out : bool) (t : Tx) : Prop := {
  w_runner : InferenceCheckpoint._journal_runner (ExecutionTransaction._checkpoint t) = Some j;
  w_ok : ok j;
  w_saved : (ExecutionTransaction.saved t <= List.length (ExecutionTransaction.history t))%nat;
  w_step : match InferenceCheckpoint._step_id (ExecutionTransaction._checkpoint t) with
           | None => True
           | Some i => exists rec, get j i = Some rec /\ kind rec = KIND_THINK /\
               if out then RunJournal.status rec = STARTED
               else RunJournal.status rec = COMPLETED -> _completed_result (payload rec) = Some (holds t)
           end
}.

(** A result is safe: it shows in the history on disk, or is still in the journal. *)
Definition safe (j : journal) (t : Tx) (r : result) : Prop :=
  assistant_message_present (disk t) r = true \/ completed j r.

Definition good (out : bool) (t t' : Tx) : Prop :=
  forall j, wf j out t -> exists j', wf j' out t' /\ forall r, safe j t r -> safe j' t' r.

Lemma good_trans out t1 t2 t3 : good out t1 t2 -> good out t2 t3 -> good out t1 t3.
Proof. intros H1 H2 j Hj. destruct (H1 j Hj) as (j1 & Hj1 & K1). destruct (H2 j1 Hj1) as (j2 & Hj2 & K2). exists j2. split; [done|]. auto. Qed.

(** The fields the journal, the history and the checkpoint do not look at. *)
Lemma good_same out t t' :
  ExecutionTransaction._checkpoint t' = ExecutionTransaction._checkpoint t ->
  ExecutionTransaction.history t' = ExecutionTransaction.history t ->
  ExecutionTransaction.saved t' = ExecutionTransaction.saved t -> good out t t'.
Proof.
  intros Hc Hh Hs j [W1 W2 W3 W4]. exists j. unfold safe, disk. rewrite Hh, Hs. split; [|done].
  split; unfold holds in *; rewrite ?Hc, ?Hh, ?Hs; done.
Qed.

Lemma good_add out t l : good out t (ExecutionTransaction.with_history (ExecutionTransaction.history t ++ l) t).
Proof.
  intros j [W1 W2 W3 W4]. exists j. split; [split; try done; cbn; rewrite length_app; lia|].
  intros r. unfold safe, disk. cbn. by rewrite take_app_le.
Qed.

Lemma good_drain out t : good out t (ExecutionTransaction.with_saved (List.length (ExecutionTransaction.history t)) t).
Proof.
  intros j [W1 W2 W3 W4]. exists j. split; [by split|]. intros r [Hp|Hc]; [left|by right].
  unfold disk in *. cbn. rewrite firstn_all.
  rewrite <- (take_drop (ExecutionTransaction.saved t) (ExecutionTransaction.history t)). by apply present_app.
Qed.

Lemma with_checkpoint_id (t : Tx) : ExecutionTransaction.with_checkpoint (ExecutionTransaction._checkpoint t) t = t.
Proof. by destruct t. Qed.

Lemma good_recording t now : 0 <= now -> good false t (ExecutionTransaction.recording now Done t).
Proof.
  intros Hnow j W. pose proof W as [W1 W2 W3 W4]. unfold ExecutionTransaction.recording, InferenceCheckpoint.record_result. rewrite W1.
  destruct (InferenceCheckpoint._step_id (ExecutionTransaction._checkpoint t)) as [i|] eqn:Ei; [|rewrite with_checkpoint_id; by exists j].
  destruct (InferenceCheckpoint._reinstated _); [rewrite with_checkpoint_id; by exists j|].
  destruct W4 as (rec & Hg & Hk & Hc).
  pose proof (complete_changed i rec (holds t) (InferenceCheckpoint._state (ExecutionTransaction._checkpoint t)) now j W2 Hnow Hg Hk) as Hch.
  eexists. split; [split; [done|apply Hch|done|]|].
  - cbn. rewrite Ei. destruct (ch_here _ _ _ _ Hch) as (rec' & Hg' & Hk' & _ & Hp). exists rec'. done.
  - intros r [Hp|Hc']; [by left|right]. refine (changed_completed _ _ _ _ _ Hch _ Hc'). intros rec0 Hg0 _ Hs0 Hp0.
    rewrite Hg in Hg0. injection Hg0 as <-. rewrite (Hc Hs0) in Hp0. injection Hp0 as <-.
    destruct (ch_here _ _ _ _ Hch) as (rec' & Hg' & Hk' & Hs' & Hp'). by exists i, rec'.
Qed.

Lemma good_discarding t : assistant_message_present (disk t) (holds t) = true -> good false t (ExecutionTransaction.discarding Done t).
Proof.
  intros Hpres j [W1 W2 W3 W4]. unfold ExecutionTransaction.discarding, InferenceCheckpoint.discard. cbn. rewrite W1.
  destruct (InferenceCheckpoint._step_id (ExecutionTransaction._checkpoint t)) as [i|]; [|by exists j].
  destruct W4 as (rec & Hg & Hk & Hc). exists (reap_think i Done j). split; [split; try done; by apply reap_ok|].
  intros r [Hp|(k & rec' & Hg' & Hk' & Hs' & Hp')]; [by left|]. destruct (decide (k = i)) as [->|Hne].
  - left. rewrite Hg in Hg'. injection Hg' as <-. rewrite (Hc Hs') in Hp'. by injection Hp' as <-.
  - right. exists k, rec'. split; [|done]. unfold reap_think. rewrite reap_get, decide_False; [done|]. by rewrite list_elem_of_singleton.
Qed.

(** ** The operations of the transaction *)

Lemma apply_good out x ref k t : good out t (ExecutionTransaction._apply x ref k t).1.
Proof.
  unfold ExecutionTransaction._apply. destruct k; try (by apply good_same);
    (eapply good_trans; [apply good_drain|by apply good_same]).
Qed.

Lemma add_good out l k t : good out t (ExecutionTransaction.add_batch l k t).1.
Proof. unfold ExecutionTransaction.add_batch. destruct k; apply good_add. Qed.

Lemma record_good out x p b k now t :
  (b = true -> out = false /\ 0 <= now) -> good out t (ExecutionTransaction._record_projection x p b k now Done t).1.
Proof.
  intros Hb. unfold ExecutionTransaction._record_projection. destruct (ExecutionTransaction._prior x t); [by apply good_same|].
  destruct (ExecutionTransaction._validate x t); [by apply good_same|]. pose proof (add_good out (ExecutionTransaction.messages p) k t) as Ha.
  destruct (ExecutionTransaction.add_batch _ k t) as [t1 [u|e]]; [|exact Ha]. eapply good_trans; [exact Ha|].
  destruct b; [|apply apply_good]. destruct (Hb eq_refl) as [-> Hn]. eapply good_trans; [by apply good_recording|apply apply_good].
Qed.

(** An operation of its own that was applied has its messages on disk. *)
Lemma record_applied x p k now t t' r :
  Dict.get (ExecutionTransaction.operation_id x) (ExecutionTransaction._operations t) = None ->
  ExecutionTransaction._record_projection x p true k now Done t = (t', Ok r) -> ExecutionTransaction.is_applied r = true ->
  disk t' = ExecutionTransaction.history t ++ ExecutionTransaction.messages p /\ holds t' = holds t.
Proof.
  intros Hop. unfold ExecutionTransaction._record_projection, ExecutionTransaction._prior. rewrite Hop.
  destruct (ExecutionTransaction._validate x t) as [r0|] eqn:Ev.
  { intros [= <- <-]. unfold ExecutionTransaction._validate in Ev. repeat (case_match; try done); by injection Ev as <-. }
  unfold ExecutionTransaction.add_batch, ExecutionTransaction._apply. destruct k; try done; intros [= <- <-] _; unfold disk, holds; cbn;
    rewrite firstn_all; (split; [done|]); unfold InferenceCheckpoint.record_result; by repeat case_match.
Qed.

Lemma then_discard_good x p k now t :
  0 <= now -> Dict.get (ExecutionTransaction.operation_id x) (ExecutionTransaction._operations t) = None ->
  assistant_message_present (ExecutionTransaction.history t ++ ExecutionTransaction.messages p) (holds t) = true ->
  good false t (ExecutionTransaction.then_discard Done (ExecutionTransaction._record_projection x p true k now Done t)).1.
Proof.
  intros Hn Hop Hp. pose proof (record_good false x p true k now t ltac:(done)) as Hg.
  pose proof (record_applied x p k now t) as Ha. destruct (ExecutionTransaction._record_projection x p true k now Done t) as [t' [r|e]]; [|exact Hg].
  cbn. destruct (ExecutionTransaction.is_applied r) eqn:Er; [|exact Hg]. destruct (Ha t' r Hop eq_refl Er) as [Hd Hh].
  eapply good_trans; [exact Hg|]. apply good_discarding. by rewrite Hd, Hh.
Qed.

Lemma stage_good x o p k now t : 0 <= now -> good false t (ExecutionTransaction.stage_accepted_output candidate_id x o p k now Done t).1.
Proof.
  intros Hn. unfold ExecutionTransaction.stage_accepted_output. destruct (ExecutionTransaction._prior x t); [by apply good_same|].
  destruct (ExecutionTransaction._validate x t); [by apply good_same|]. destruct (match ExecutionTransaction._staged t with Some _ => _ | None => _ end); [by apply good_same|].
  pose proof (add_good false (ExecutionTransaction.messages p) k t) as Ha.
  destruct (ExecutionTransaction.add_batch _ k t) as [t1 [u|e]]; [|exact Ha]. eapply good_trans; [exact Ha|].
  eapply good_trans; [by apply good_recording|]. eapply good_trans; [|apply apply_good]. by apply good_same.
Qed.

Lemma commit_good x id k t :
  assistant_message_present (disk t) (holds t) = true ->
  good false t (ExecutionTransaction.commit_terminal_output candidate_id staged_output commit x id k Done t).1.
Proof.
  intros Hp. unfold ExecutionTransaction.commit_terminal_output. destruct (Dict.get _ _); [by apply good_same|].
  destruct (ExecutionTransaction._validate x t); [by apply good_same|]. destruct (negb _); [by apply good_same|]. destruct (negb _); [by apply good_same|].
  destruct (commit _) as [e [c|]]; [|destruct k; by apply good_same]. destruct k; try (by apply good_same).
  eapply good_trans; [apply (good_same _ _ (ExecutionTransaction.with_engine e t)); done|].
  eapply good_trans; [apply good_discarding; exact Hp|]. by apply good_same.
Qed.

(** ** The steps of a run *)

Definition keeps (s s' : system) : Prop :=
  forall j, wf j (awaiting s) (tx s) -> exists j', wf j' (awaiting s') (tx s') /\ forall r, safe j (tx s) r -> safe j' (tx s') r.

Lemma get_of_records j rec : ok j -> In rec (records j) -> get j (step_id rec) = Some rec.
Proof. intros Hj Hin. apply records_get; [apply Hj|done]. Qed.

Lemma started_keeps i j j' : (forall rec, get j i = Some rec -> RunJournal.status rec = STARTED) ->
  changed i (fun rec => RunJournal.status rec = STARTED) j j' -> forall r, completed j r -> completed j' r.
Proof.
  intros Hi Hc r. apply (changed_completed i _ j j' r Hc). intros rec Hg _ Hs. rewrite (Hi rec Hg) in Hs. done.
Qed.

(** What [infer] does: a completed call that the history does not show is adopted, and no
    model is called; else one is. *)
Lemma infer_adopts st now s j :
  wf j (awaiting s) (tx s) ->
  match reinstate_candidate (R := R) (ms s) j with
  | Some (i, r) => infer st now s = mk (ExecutionTransaction.with_checkpoint
        (InferenceCheckpoint.mk (Some j) r (Some i) true (InferenceCheckpoint._state (cp s))) (tx s)) false (calls s)
  | None => fst (InferenceCheckpoint.reinstate (ms s) (cp s)) = cp s /\ snd (InferenceCheckpoint.reinstate (ms s) (cp s)) = false
  end.
Proof.
  intros W. unfold infer, InferenceCheckpoint.reinstate. unfold cp in *. rewrite (w_runner _ _ _ W).
  by destruct (reinstate_candidate (ms s) j) as [[i r]|].
Qed.

Lemma infer_keeps st now s : label_ok (Infer st now) s -> keeps s (infer st now s).
Proof.
  intros [Hst Hnow] j W. pose proof (infer_adopts st now s j W) as Hi. pose proof W as [W1 W2 W3 W4].
  pose proof (first_completed_spec (ms s) (records j)) as Hf. fold (reinstate_candidate (R := R) (ms s) j) in Hf.
  destruct (reinstate_candidate (ms s) j) as [[i r]|].
  { rewrite Hi. exists j. split; [|done]. destruct Hf as (rec & Hin & <- & Hk & Hs & Hp & _).
    split; try done. cbn. exists rec. split; [by apply get_of_records|]. done. }
  destruct Hi as [Hi1 Hi2]. unfold infer. destruct (InferenceCheckpoint.reinstate (ms s) (cp s)) as [c b]. cbn in Hi1, Hi2. subst c b.
  unfold InferenceCheckpoint.resume. unfold cp in *. rewrite W1.
  destruct (resume_candidate j) as [[i old]|] eqn:Er.
  - apply first_started_spec in Er as (rec & Hin & <- & Hk & Hs & Hold). pose proof (get_of_records j rec W2 Hin) as Hg.
    destruct (update_changed (step_id rec) rec (mkState (model_call_id old) (state_rest st)) now j W2 Hnow Hg Hk Hs) as (j' & Eu & Hc).
    unfold InferenceCheckpoint.refresh. cbn. rewrite Eu. exists j'. split.
    + split; [done|apply Hc|done|]. cbn. destruct (ch_here _ _ _ _ Hc) as (rec' & ? & ? & ?). by exists rec'.
    + intros r [Hp|Hp]; [by left|right]. refine (started_keeps _ _ _ _ Hc r Hp). intros rec0 Hg0. rewrite Hg in Hg0. by injection Hg0 as <-.
  - pose proof (begin_changed st now j W2 Hnow) as Hb. unfold InferenceCheckpoint.begin_call. rewrite W1.
    destruct (begin_think (Some st) now Done j) as [j' i]. destruct Hb as [Hnew Hc]. exists j'. split.
    + split; [done|apply Hc|done|]. cbn. destruct (ch_here _ _ _ _ Hc) as (rec' & ? & ? & ?). by exists rec'.
    + intros r [Hp|Hp]; [by left|right]. refine (started_keeps _ _ _ _ Hc r Hp). intros rec0 Hg0. by rewrite Hnew in Hg0.
Qed.

Lemma returns_keeps r s : awaiting s = true -> keeps s (model_returns r s).
Proof.
  intros Ha j [W1 W2 W3 W4]. rewrite Ha in W4. exists j. split; [|done]. split; try done. cbn.
  destruct (InferenceCheckpoint._step_id _); [|done]. destruct W4 as (rec & Hg & Hk & Hs). exists rec. split; [done|]. split; [done|].
  rewrite Hs. done.
Qed.

Lemma reconcile_get j (hs : list message) i rec :
  ok j -> get j i = Some rec -> reaped (R := R) (S := S) hs rec = false -> get (reconcile_think_journal (R := R) (S := S) j hs Done) i = Some rec.
Proof.
  intros Hj Hg Hr. unfold reconcile_think_journal. destruct (step_id <$> List.filter (reaped hs) (records j)) as [|k ks] eqn:Ek; [done|].
  rewrite reap_get, decide_False; [done|]. rewrite <- Ek. intros (rec' & Hi & Hin%list_elem_of_In%filter_In)%list_elem_of_fmap.
  destruct Hin as [Hin Hr']. pose proof (get_of_records j rec' Hj Hin) as Hg'. rewrite <- Hi, Hg in Hg'. injection Hg' as <-. congruence.
Qed.

Lemma reconcile_ok j (hs : list message) : ok j -> ok (reconcile_think_journal (R := R) (S := S) j hs Done).
Proof. intros Hj. unfold reconcile_think_journal. destruct (step_id <$> _); [done|by apply reap_ok]. Qed.

Lemma crash_keeps n run token e r0 s : (ExecutionTransaction.saved (tx s) <= n)%nat -> keeps s (crash n run token e r0 s).
Proof.
  intros Hn j [W1 W2 W3 W4]. unfold crash, cp. rewrite W1. cbn [resume_journal]. rewrite JsonlBackend.reload_durable by apply W2.
  exists (reconcile_think_journal j (take n (ms s)) Done). split.
  - split; try done. by apply reconcile_ok.
  - intros r Hs. unfold safe, disk. cbn. rewrite firstn_all. destruct Hs as [Hp|(i & rec & Hg & Hk & Hst & Hp)].
    + left. unfold disk in Hp. rewrite <- (take_drop (ExecutionTransaction.saved (tx s)) (take n (ms s))). apply present_app.
      by rewrite take_take, Nat.min_l by done.
    + destruct (assistant_message_present (take n (ms s)) r) eqn:Ea; [by left|right]. exists i, rec. split; [|done].
      apply reconcile_get; [done|done|]. unfold reaped. rewrite (proj2 (is_kind_spec _ _) Hk), (proj2 (is_status_spec _ _) Hst).
      cbn [negb]. rewrite Hp, Ea. assert (is_status STARTED rec = false) as ->; [|done]. unfold is_status. rewrite Hst. done.
Qed.

(** The end of a run drops at most the result of its checkpoint. *)
Lemma ends_keep l s : match l with Cancelled => True | Failed now => 0 <= now | _ => False end ->
  forall j, wf j (awaiting s) (tx s) -> exists j', wf j' (awaiting (run_label l s)) (tx (run_label l s))
    /\ forall r, safe j (tx s) r -> safe j' (tx (run_label l s)) r \/ drops l s r.
Proof.
  intros Hl j [W1 W2 W3 W4].
  assert (exists j', InferenceCheckpoint._journal_runner (cp (run_label l s)) = Some j' /\ ok j'
    /\ InferenceCheckpoint._step_id (cp (run_label l s)) = None /\ tx (run_label l s) = ExecutionTransaction.with_checkpoint (cp (run_label l s)) (tx s)
    /\ (forall i, InferenceCheckpoint._step_id (cp s) <> Some i -> get j' i = get j i)) as (j' & J1 & J2 & J3 & J4 & J5).
  { destruct l; try done; unfold run_label, on_cancel, on_failure, cp, InferenceCheckpoint.discard, InferenceCheckpoint.abort; cbn; rewrite W1;
      destruct (InferenceCheckpoint._step_id _) as [i|]; try (by exists j); destruct W4 as (rec & Hg & Hk & _).
    - exists (reap_think i Done j). split_and!; try done; [by apply reap_ok|]. intros i' Hne. unfold reap_think.
      rewrite reap_get, decide_False; [done|]. rewrite list_elem_of_singleton. congruence.
    - destruct (fail_ok i rec now j W2 Hl Hg Hk) as [F1 F2]. exists (fail_think i now Done Done j). split_and!; try done.
      intros i' Hne. apply F2. congruence. }
  exists j'. split.
  - split; [done|done| |]; rewrite J4; [done|]. cbn. by rewrite J3.
  - intros r [Hp|(i & rec & Hg & Hk & Hst & Hp)]; [left; left; by rewrite J4|].
    destruct (decide (InferenceCheckpoint._step_id (cp s) = Some i)) as [Hi|Hne]; [right|left; right; exists i, rec; by rewrite J5].
    unfold cp in Hi. rewrite Hi in W4. destruct W4 as (rec' & Hg' & _ & Hw). rewrite Hg in Hg'. injection Hg' as <-.
    unfold drops, cp. destruct (awaiting s); [by rewrite Hst in Hw|]. rewrite (Hw Hst) in Hp. injection Hp as <-.
    destruct l; try done; rewrite Hi; by split_and!.
Qed.

Lemma good_keeps t' s : good (awaiting s) (tx s) t' -> keeps s (with_tx t' s).
Proof. intros H j W. by apply (H j). Qed.

Lemma label_keeps l s : label_ok l s ->
  forall j, wf j (awaiting s) (tx s) -> exists j', wf j' (awaiting (run_label l s)) (tx (run_label l s))
    /\ forall r, safe j (tx s) r -> safe j' (tx (run_label l s)) r \/ drops l s r.
Proof.
  assert (keeps s (run_label l s) -> forall j, wf j (awaiting s) (tx s) -> exists j', wf j' (awaiting (run_label l s)) (tx (run_label l s))
    /\ forall r, safe j (tx s) r -> safe j' (tx (run_label l s)) r \/ drops l s r) as Hk.
  { intros H j W. destruct (H j W) as (j' & W' & K). exists j'. split; [done|]. intros r Hr. left. by apply K. }
  intros Hok. destruct l as [st now|r|x p k|x p k now|x p k now|x p k now|x o p k now|x id k|e| |now|n run token e r0];
    try (apply ends_keep; done); apply Hk; cbn [run_label label_ok] in *.
  - by apply infer_keeps.
  - destruct (awaiting s) eqn:Ea; [by apply returns_keeps|]. intros j W. by exists j.
  - apply good_keeps. by apply record_good.
  - destruct Hok as [Ha Hn]. apply good_keeps. by apply record_good.
  - destruct Hok as (Ha & Hn & Hop & Hp). apply good_keeps. rewrite Ha. by apply then_discard_good.
  - destruct Hok as (Ha & Hn & Hop & Hp). apply good_keeps. rewrite Ha. by apply then_discard_good.
  - destruct Hok as [Ha Hn]. apply good_keeps. rewrite Ha. by apply stage_good.
  - destruct Hok as (Ha & Hd & Hp). apply good_keeps. rewrite Ha. apply commit_good. change (assistant_message_present (on_disk s) (InferenceCheckpoint.engine_result (cp s)) = true). by rewrite Hd.
  - apply good_keeps. by apply good_same.
  - by apply crash_keeps.
Qed.

(** Somewhere on its way the run dropped a result. *)
Fixpoint dropped (ls : list label) (s : system) (r : result) : Prop :=
  match ls with [] => False | l :: ls => drops l s r \/ dropped ls (run_label l s) r end.

Lemma run_keeps ls s : run_ok ls s ->
  forall j, wf j (awaiting s) (tx s) -> exists j', wf j' (awaiting (run ls s)) (tx (run ls s))
    /\ forall r, safe j (tx s) r -> safe j' (tx (run ls s)) r \/ dropped ls s r.
Proof.
  revert s. induction ls as [|l ls IH]; intros s; cbn; [intros _ j W; exists j; by split; [|left]|].
  intros [Hl Hls] j W. destruct (label_keeps l s Hl j W) as (j1 & W1 & K1). destruct (IH _ Hls j1 W1) as (j2 & W2 & K2).
  exists j2. split; [done|]. intros r Hr. destruct (K1 r Hr) as [H1|Hd]; [|right; by left]. destruct (K2 r H1) as [H2|Hd]; [by left|right; by right].
Qed.

(** ** A result that was paid for *)

(** A process that starts over a well-kept journal and a history on disk. *)
Definition first_system (name : string) (token : Z) (hs : list message) (j : journal) (e : E) (r0 : result) : system :=
  mk (ExecutionTransaction.new staged_output name token hs (InferenceCheckpoint.mk (Some j) r0 None false None) e) false 0.

Definition journal_of (s : system) : option journal := InferenceCheckpoint._journal_runner (cp s).

Lemma first_wf name token hs j e r0 : ok j -> wf j false (tx (first_system name token hs j e r0)).
Proof. intros Hj. by split. Qed.

(** C2: a result that was recorded is neither lost nor paid for again. Once the journal holds
    the completed result of a model call, then through whatever turns, crashes, and runs that
    are cancelled or fail, recording as the kernel does, the history on disk shows it or the
    journal still holds it, unless a cancellation or a failure of a run found it in the
    checkpoint, which drops it; and whenever the process dies, either the history that is left
    shows it, or the next inference adopts a completed result that the history does not show,
    without calling the model. *)
Theorem paid_result_survives name token hs j e r0 before after j1 r n name' token' e' r0' st now :
  ok j -> let s := first_system name token hs j e r0 in
  run_ok (before ++ after) s -> journal_of (run before s) = Some j1 -> completed j1 r ->
  ~ dropped after (run before s) r ->
  let s2 := run (before ++ after) s in
  (assistant_message_present (on_disk s2) r = true \/ exists j2, journal_of s2 = Some j2 /\ completed j2 r)
  /\ ((ExecutionTransaction.saved (tx s2) <= n)%nat ->
      let s3 := crash n name' token' e' r0' s2 in
      assistant_message_present (ms s3) r = true
      \/ let s4 := infer st now s3 in
         calls s4 = calls s3 /\ awaiting s4 = false
         /\ assistant_message_present (ms s4) (InferenceCheckpoint.engine_result (cp s4)) = false
         /\ exists j3, journal_of s3 = Some j3 /\ completed j3 (InferenceCheckpoint.engine_result (cp s4))).
Proof.
  intros Hj s Hok Hj1 Hr Hnd s2.
  assert (run_ok before s /\ run_ok after (run before s) /\ s2 = run after (run before s)) as (Hb & Ha & E2).
  { unfold s2. clearbody s. clear - Hok. revert s Hok. induction before as [|l ls IH]; intros s Hok; [done|]. cbn in *.
    destruct Hok as [Hl Hls]. destruct (IH _ Hls) as (H1 & H2 & H3). done. }
  destruct (run_keeps before s Hb j (first_wf _ _ _ _ _ _ Hj)) as (j1' & W1 & _).
  assert (j1' = j1) as -> by (unfold journal_of, cp in Hj1; rewrite (w_runner _ _ _ W1) in Hj1; by injection Hj1).
  destruct (run_keeps after _ Ha j1 W1) as (j2 & W2 & K2). rewrite <- E2 in W2, K2.
  assert (safe j2 (tx s2) r) as K2' by (destruct (K2 r (or_intror Hr)) as [K|K]; [exact K|by destruct Hnd]). clear K2. rename K2' into K2. split.
  - destruct K2 as [Hp|Hc]; [by left|right]. exists j2. split; [apply (w_runner _ _ _ W2)|done].
  - intros Hn s3. destruct (crash_keeps n name' token' e' r0' s2 Hn j2 W2) as (j3 & W3 & K3). fold s3 in W3, K3.
    assert (disk (tx s3) = ms s3) as Ed by (unfold disk, s3; cbn; apply firstn_all).
    destruct (K3 r K2) as [Hp|Hc]; [left; by rewrite <- Ed|].
    destruct (assistant_message_present (ms s3) r) eqn:Er; [by left|right].
    pose proof (infer_adopts st now s3 j3 W3) as Hi.
    pose proof (first_completed_spec (ms s3) (records j3)) as Hf. fold (reinstate_candidate (R := R) (ms s3) j3) in Hf.
    destruct (reinstate_candidate (ms s3) j3) as [[i r']|].
    + rewrite Hi. destruct Hf as (rec & Hin & <- & Hk & Hst & Hp & Hpr). split_and!; try done.
      exists j3. split; [apply (w_runner _ _ _ W3)|]. exists (step_id rec), rec. split; [|done]. apply get_of_records; [apply W3|done].
    + destruct Hc as (i & rec & Hg & Hk & Hst & Hp). exfalso. destruct (get_valid j3 i rec (ok_durable _ (w_ok _ _ _ W3)) Hg) as [_ Hid].
      rewrite (Hf rec r) in Er; [done| |done|done|done]. apply records_get; [apply (w_ok _ _ _ W3)|]. by rewrite Hid.
Qed.

(** ** Operations that were recorded *)

Definition recorded (i : string) (v : ExecutionTransaction.MutationResult + C) (t : Tx) : Prop :=
  Dict.get i (ExecutionTransaction._operations t) = Some v.

Lemma recorded_other i v op r (t : Tx) : op <> i -> recorded i v t -> recorded i v (ExecutionTransaction.record_operation op r t).
Proof. intros Hne. unfold recorded. cbn. by rewrite Dict.get_set_ne. Qed.

(** What a call does to an operation that is recorded: nothing, if it is its own. *)
Lemma projection_recorded i v x p b k now w t :
  recorded i v t -> recorded i v (ExecutionTransaction._record_projection x p b k now w t).1.
Proof.
  intros H. unfold ExecutionTransaction._record_projection, ExecutionTransaction._prior.
  destruct (decide (ExecutionTransaction.operation_id x = i)) as [<-|Hne]; [unfold recorded in H; rewrite H; by destruct v|].
  destruct (Dict.get _ _) as [[|]|]; [done..|]. destruct (ExecutionTransaction._validate x t); [done|].
  unfold ExecutionTransaction.add_batch, ExecutionTransaction._apply. destruct k, b; try done; by apply recorded_other.
Qed.

Lemma discard_recorded i v w so : recorded i v so.1 -> recorded i v (ExecutionTransaction.then_discard w so).1.
Proof. destruct so as [t [r|e]]; cbn; [|done]. by destruct (ExecutionTransaction.is_applied r). Qed.

Lemma stage_recorded i v x o p k now w t :
  recorded i v t -> recorded i v (ExecutionTransaction.stage_accepted_output candidate_id x o p k now w t).1.
Proof.
  intros H. unfold ExecutionTransaction.stage_accepted_output, ExecutionTransaction._prior.
  destruct (decide (ExecutionTransaction.operation_id x = i)) as [<-|Hne]; [unfold recorded in H; rewrite H; by destruct v|].
  destruct (Dict.get _ _) as [[|]|]; [done..|]. destruct (ExecutionTransaction._validate x t); [done|].
  destruct (match ExecutionTransaction._staged t with Some _ => _ | None => _ end); [by apply recorded_other|].
  unfold ExecutionTransaction.add_batch, ExecutionTransaction._apply. destruct k; try done; by apply recorded_other.
Qed.

Lemma commit_recorded i v x id k w t :
  recorded i v t -> recorded i v (ExecutionTransaction.commit_terminal_output candidate_id staged_output commit x id k w t).1.
Proof.
  intros H. unfold ExecutionTransaction.commit_terminal_output.
  destruct (decide (ExecutionTransaction.operation_id x = i)) as [<-|Hne]; [unfold recorded in H; by rewrite H|].
  destruct (Dict.get _ _); [done|]. destruct (ExecutionTransaction._validate x t); [done|].
  destruct (negb _); [by apply recorded_other|]. destruct (negb _); [by apply recorded_other|].
  destruct (commit _) as [e [c|]], k; try done. by apply recorded_other.
Qed.

Lemma infer_tx st now s i v : recorded i v (tx s) -> recorded i v (tx (infer st now s)).
Proof. intros H. unfold infer. repeat case_match; exact H. Qed.

Lemma label_recorded l s i v :
  match l with Crash _ _ _ _ _ => False | _ => True end -> recorded i v (tx s) -> recorded i v (tx (run_label l s)).
Proof.
  destruct l; cbn [run_label]; try done; intros _ H.
  - by apply infer_tx.
  - by destruct (awaiting s).
  - by apply projection_recorded.
  - by apply projection_recorded.
  - by apply discard_recorded, projection_recorded.
  - by apply discard_recorded, projection_recorded.
  - by apply stage_recorded.
  - by apply commit_recorded.
Qed.

(** C40: an operation is done once. When the outcome of a call is recorded, then as long as the
    process does not end, after any other calls, that fail or not, the same operation is not
    done again: asked as a projection, as tool results, as a rejection or as a stage it answers
    that it is already applied, with its revision and reference (for a commit, the current
    revision), and asked as a commit it answers the recorded outcome itself; no message is
    added, no result is recorded, nothing is staged or committed, and only the checkpoint is
    dropped, by tool results and rejections. *)
Theorem operation_once ls s x v p o id k now w :
  Forall (fun l => match l with Crash _ _ _ _ _ => False | _ => True end) ls ->
  Dict.get (ExecutionTransaction.operation_id x) (ExecutionTransaction._operations (tx s)) = Some v ->
  let t := tx (run ls s) in
  let again := match v with
    | inl a => ExecutionTransaction.mkMutation ExecutionTransaction.ALREADY_APPLIED (ExecutionTransaction.revision a) (ExecutionTransaction.reference_id a) ""
    | inr _ => ExecutionTransaction.mkMutation ExecutionTransaction.ALREADY_APPLIED (ExecutionTransaction._revision t) "" ""
    end in
  ExecutionTransaction.record_history x p k now w t = (t, Ok again)
  /\ ExecutionTransaction.record_model_turn x p k now w t = (t, Ok again)
  /\ ExecutionTransaction.record_tool_results x [p] k now w w t = (ExecutionTransaction.discarding w t, Ok again)
  /\ ExecutionTransaction.reject_output x p k now w w t = (ExecutionTransaction.discarding w t, Ok again)
  /\ ExecutionTransaction.stage_accepted_output candidate_id x o p k now w t = (t, Ok again)
  /\ ExecutionTransaction.commit_terminal_output candidate_id staged_output commit x id k w t = (t, Ok v).
Proof.
  intros Hls H t again.
  assert (recorded (ExecutionTransaction.operation_id x) v t) as Ht.
  { unfold t. clear t again. revert s H. induction Hls as [|l ls Hl _ IH]; intros s H; [done|]. cbn. by apply IH, label_recorded. }
  unfold again. clear again. clearbody t. unfold recorded in Ht.
  unfold ExecutionTransaction.record_history, ExecutionTransaction.record_model_turn, ExecutionTransaction.record_tool_results, ExecutionTransaction.reject_output,
    ExecutionTransaction.stage_accepted_output, ExecutionTransaction.commit_terminal_output, ExecutionTransaction._record_projection, ExecutionTransaction._prior.
  rewrite Ht. destruct v; by split_and!.
Qed.

End Run.
End ThinkRecovery.

(** * Concrete runs *)
Module ThinkExample.
Import AppendOnlyLedger RunJournal InferenceJournal ThinkRecovery.

Definition text_of (r : InferenceResult unit) : option string * option (list (option string)) := (content r, tool_calls r).

#[export] Instance letters_think : ThinkCodec unit unit := {
  started_text st := JournalExample.letters (encode (model_call_id st));
  checkpoint_of s := (fun i => mkState i tt) <$> decode (A := string) (JournalExample.of_letters s);
  completed_text r _ := JournalExample.letters (encode (text_of r));
  result_of s := (fun x => mkResult x.1 x.2 tt) <$> decode (A := option string * option (list (option string))) (JournalExample.of_letters s)
}.

Lemma of_letters_letters p : JournalExample.of_letters (JournalExample.letters p) = p.
Proof.
  induction p as [p IH|p IH|]; [..|done].
  - change (xI (JournalExample.of_letters (JournalExample.letters p)) = xI p). by rewrite IH.
  - change (xO (JournalExample.of_letters (JournalExample.letters p)) = xO p). by rewrite IH.
Qed.

Lemma letters_line p : one_line (JournalExample.letters p).
Proof.
  apply Utf8.plain_one_line, Utf8.is_plain_ascii.
  by induction p as [p IH|p IH|]; [..|done]; cbn [JournalExample.letters Text.forall_chars]; rewrite IH.
Qed.

#[export] Instance letters_think_laws : ThinkCodecLaws unit unit.
Proof.
  split.
  - intros [c l []] st. cbn. rewrite of_letters_letters, decode_encode. done.
  - intros [i []]. cbn. rewrite of_letters_letters, decode_encode. done.
  - intros r st. apply letters_line.
  - intros st. apply letters_line.
Qed.

(** The output engine is the output it staged. *)
Definition commits (e : option string) : option string * option string := (e, e).
Notation system := (ThinkRecovery.system (R := unit) (S := unit) (M := unit) (O := string) (C := string) (E := option string)).
Notation run_all := (ThinkRecovery.run (R := unit) (S := unit) (M := unit) (O := string) (C := string) (E := option string) id id commits).

Definition hi : Message unit := mkMessage true (Some "hi") [] tt.
Definition says_hi : InferenceResult unit := mkResult (Some "hi") None tt.
Definition nothing_yet : InferenceResult unit := mkResult (Some "") None tt.
Definition no_steps : AppendOnlyLedger.t StepRecord := AppendOnlyLedger.empty.
Definition op (i : string) : ExecutionTransaction.ExecutionOperationContext := ExecutionTransaction.mkContext "run" "" i 7 None.
Definition shows : ExecutionTransaction.HistoryProjection unit := ExecutionTransaction.mkProjection [hi] "f".
Definition fresh_run : system := first_system id "run" 7 [] no_steps None nothing_yet.
Definition call_one : InferenceCheckpointState unit := mkState "c1" tt.

(** The model answered and its answer was recorded, but the writes were not drained. *)
Definition not_drained : list (label (R := unit) (S := unit) (M := unit) (O := string) (E := option string)) :=
  [Infer call_one 5; ModelReturns says_hi; RecordModelTurn (op "c1:model-turn") shows ExecutionTransaction.InDrain 6].

Lemma no_steps_ok : ok no_steps.
Proof. split; [apply durable_empty|]. intros r n []. Qed.

Lemma paid_result_witness :
  let s := run_all not_drained fresh_run in
  let s3 := crash id 0 "run" 8 None nothing_yet s in
  let s4 := infer call_one 9 s3 in
  ms s3 = [] /\ calls s4 = calls s3 /\ InferenceCheckpoint.engine_result (cp s4) = says_hi.
Proof.
  intros s s3 s4. split_and!; [reflexivity| |vm_compute; reflexivity].
  destruct (paid_result_survives id id commits "run" 7 [] no_steps None nothing_yet not_drained []
    (default no_steps (journal_of s)) says_hi 0 "run" 8 None nothing_yet call_one 9) as [_ H].
  - exact no_steps_ok.
  - split; [split; [discriminate|lia]|]. split; [exact I|]. split; [split; [reflexivity|lia]|exact I].
  - vm_compute. reflexivity.
  - exists "think:1". eexists. split_and!; vm_compute; reflexivity.
  - exact id.
  - destruct (H (Nat.le_0_l _)) as [Hp|[Hc _]]; [vm_compute in Hp; discriminate Hp|exact Hc].
Defined.

Lemma operation_once_witness :
  let s := run_all [RecordHistory (op "o") shows ExecutionTransaction.Runs] fresh_run in
  ms s = [hi]
  /\ ExecutionTransaction.record_history (op "o") shows ExecutionTransaction.Runs 5 Done (tx (run_all not_drained s))
     = (tx (run_all not_drained s), Ok (ExecutionTransaction.mkMutation ExecutionTransaction.ALREADY_APPLIED 1 "f" "")).
Proof.
  intros s. split; [reflexivity|].
  refine (proj1 (operation_once id id commits not_drained s (op "o") (inl (ExecutionTransaction.mkMutation ExecutionTransaction.APPLIED 1 "f" ""))
    shows "x" "x" ExecutionTransaction.Runs 5 Done _ _)); [by repeat constructor|vm_compute; reflexivity].
Defined.

(** A message that reached the disk before its result reached the journal does not stop the
    call from being made again. *)
Lemma shown_but_paid_again :
  let s := run_all [Infer call_one 5; ModelReturns says_hi; RecordModelTurn (op "c1:model-turn") shows (ExecutionTransaction.InAdd 1) 6;
                    Crash 1 "run" 8 None nothing_yet; Infer call_one 9] fresh_run in
  (ms s, calls s, awaiting s) = ([hi], 2%nat, true).
Proof. vm_compute. reflexivity. Qed.

(** The drain of a recorded turn fails: the run fails with it, and its result, which was paid
    for and recorded, is reaped as that of a failed call; after a crash it is paid for again. *)
Lemma failed_drain_drops :
  let s := run_all [Infer call_one 5; ModelReturns says_hi; RecordModelTurn (op "c1:model-turn") shows ExecutionTransaction.InDrain 6;
                    Failed 7; Crash 0 "run" 8 None nothing_yet; Infer call_one 9] fresh_run in
  (ms s, calls s, awaiting s) = ([], 2%nat, true).
Proof. vm_compute. reflexivity. Qed.

(** An operation that is retried after its drain failed adds its messages again. *)
Lemma retried_twice_shown :
  ms (run_all [RecordHistory (op "o") shows ExecutionTransaction.InDrain; RecordHistory (op "o") shows ExecutionTransaction.Runs] fresh_run) = [hi; hi].
Proof. vm_compute. reflexivity. Qed.

(** An operation that was refused is told, when it is retried, that it was applied. *)
Lemma refused_then_applied :
  let s := run_all [StageAcceptedOutput (op "a") "first" shows ExecutionTransaction.Runs 5;
                    StageAcceptedOutput (op "b") "second" shows ExecutionTransaction.Runs 6] fresh_run in
  (ExecutionTransaction.status <$> match Dict.get "b" (ExecutionTransaction._operations (tx s)) with Some (inl r) => Some r | _ => None end,
   match (ExecutionTransaction.stage_accepted_output id (op "b") "second" shows ExecutionTransaction.Runs 7 Done (tx s)).2 with
   | Ok r => Some (ExecutionTransaction.status r) | Raise _ => None end,
   ExecutionTransaction._staged (tx s))
  = (Some ExecutionTransaction.CONFLICT, Some ExecutionTransaction.ALREADY_APPLIED, Some "first").
Proof. vm_compute. reflexivity. Qed.

End ThinkExample.
